(* ===== verification/_CoqProject ===== *)
-Q . S2P
Prelude.v
Utils.v
JournalTypes.v
Core.v
Ledger.v
Message.v
Network.v
Floats.v
Partition.v
PartitionProofs.v
Broker.v
B2E.v
B2EProofs.v
Server.v
Committee.v
CommitteeProofs.v
CommitteeExamples.v
AccessList.v
StateDB.v
StateDBSim.v
StateDBProofs.v
Analysis.v
Machine.v
Evm.v
Instructions.v
Interpreter.v
EvmInstances.v
MachineLaws.v
EvmProofs.v
FrameLogic.v
InstructionProofs.v
InterpreterProofs.v
StateDBRefines.v
Termination.v
Execution.v
Transition.v
TransitionProofs.v
EvmTheorems.v
TrieEncoding.v
Trie.v
TrieHash.v
TrieProofs.v
TrieMap.v
TrieRoot.v
TxTree.v
TrieIterator.v
TrieIteratorProofs.v
TrieExamples.v
TrieDecode.v
TrieCommit.v
TrieReopen.v
TrieHistory.v
HashDB.v
HashDBProofs.v
HashDBCommit.v
HashDBRun.v
HashDBSizes.v
TrieDB.v
HashDBExamples.v
TrieLife.v
TrieLifeExamples.v
StateTrie.v
StateCommit.v
StateTrieProofs.v
StateReady.v
StateRoot.v
StateSets.v
StateLife.v
StateLifeExamples.v
Measure.v
Chain.v
CrossShard.v
CrossShardProofs.v
Pbft.v
PbftProofs.v
Supervisor.v
Rpc.v
RpcProofs.v
Accounts.v
