(* ===== verification/Prelude.v ===== *)
(** * A sharded block chain with brokers, contracts and an exchange

    A verification of the Go program under [src/]: a block chain simulator
    (BlockEmulator with BrokerChain) whose shards run PBFT, whose supervisor assigns
    cross-shard transfers to brokers (Broker2Earn), which executes contracts on a modified
    go-ethereum machine that calls across shards, and which offers a small exchange over
    HTTP.

    ** The program and the files of this library

    - Shared: [Prelude] (machine integers, the error monad [outcome], slices, bytes,
      automation), [Floats] (IEEE binary64 and [big.Float]), [Utils] ([params/],
      [utils/]: configuration, parsing, [Addr2Shard]).
    - Data and ledger: [Core] ([core/]: transactions, blocks, the pool), [Ledger] (the
      token balances of a shard, [chain/blockchain.go]), [Message] ([message/]: message
      records, type prefix, framing), [Network] ([networks/p2pNetwork.go]: the connection
      pool, sending, the reading loop).
    - Supervisor: [Broker] ([broker/]), [B2E] and [B2EProofs] ([supervisor/Broker2Earn]),
      [Committee], [CommitteeProofs], [CommitteeExamples]
      ([supervisor/committee/committee_broker_b2e.go]), [Server] ([supervisor/server.go]
      and the exchange of [supervisor.go]), [Partition] and [PartitionProofs]
      ([partition/]: the account graph and its label propagation), [Measure]
      ([supervisor/measure]), [Supervisor] ([supervisor.go] with [signal/] and
      [build/build.go]: the message handlers, the stop signal, the node table), [Rpc],
      [RpcProofs] (the JSON-RPC front end of [supervisor.go]), [Accounts] ([client/] and the
      account queries of the nodes).
    - Account state: [JournalTypes], [AccessList], [StateDB] ([vm/state/]); [StateDBSim]
      (states no observation tells apart), [StateDBProofs] (every change is journalled;
      reverting restores).
    - Virtual machine: [Analysis] ([vm/analysis.go]), [Machine] (words, memory, contracts
      and memory sizes: [vm/memory.go], [contract.go], [common.go], [memory_table.go]),
      [Evm] (calls and creations, [vm/evm.go]; precompiled contracts), [Instructions]
      ([vm/instructions.go], [eips.go], [gas_table.go], [operations_acl.go]),
      [Interpreter] ([vm/jump_table.go], [interpreter.go]), [EvmInstances] (the state
      database behind the machine's interface; reference words).
    - Proofs about the machine: [MachineLaws] (the class [StateDBLaws], the contract
      between the machine and the account state, and a program logic), [EvmProofs]
      (calls), [FrameLogic] and [InstructionProofs] (every instruction),
      [InterpreterProofs] (the loop), [StateDBRefines] ([StateDB] has the contract),
      [Termination], [EvmTheorems] (jumps, gas, memory; a node on which all this is applied).
    - State tries: [TrieEncoding], [Trie], [TrieHash] ([vm/trie/]: keys, nodes, decoding,
      lookups, updates, deletions, hashing, committing), [TrieProofs], [TrieMap] (a trie is a
      map), [TrieRoot] (its shape and root follow from the map), [TxTree] (the transaction
      root), [TrieIterator], [TrieIteratorProofs] ([vm/trie/iterator.go]: the walk over
      nodes, keys and values), [TrieExamples]; [HashDB] ([vm/triedb/]: the node database,
      preimages and the wrapper), [HashDBProofs] (the flush list and the invariant),
      [HashDBCommit] ([Commit] and [Cap]), [HashDBRun] (a life of the database),
      [HashDBSizes] (its counters, garbage collection), [TrieDB] ([Update] as a life,
      preimages), [HashDBExamples]; [TrieDecode] (a node read back from its encoding),
      [TrieCommit] (what a commit records), [TrieReopen], [TrieHistory] (a trie opened,
      changed and committed over a store), [TrieLife], [TrieLifeExamples] (the same over the
      node database, with flushes and restarts).
    - Committed account state: [StateTrie] ([vm/trie/secure_trie.go], [vm/state/reader.go],
      [database.go]: tries with hashed keys and the reader over them), [StateCommit]
      ([IntermediateRoot] and [Commit] of [vm/state/statedb.go] with [state_object.go] and
      [stateipdate.go]); [StateTrieProofs], [StateReady], [StateRoot], [StateSets] (one step
      of a commit each), [StateLife] and [StateLifeExamples] (a state that is opened,
      changed, committed and opened again).
    - Execution and chain: [Execution] ([ExeTx] of [chain/blockchain.go], against the class
      [EVM]), [Transition] and [TransitionProofs] ([vm/state_transition.go]: the machine as
      an instance of [EVM]), [Chain] ([storage/], block generation and addition).
    - Between shards: [CrossShard], [CrossShardProofs] (the handlers of
      [consensus_shard/pbft_all/pbft.go] that serve contracts of other shards, and the
      answers).
    - Consensus: [Pbft], [PbftProofs] ([consensus_shard/pbft_all]).

    ** How the code is modelled

    State is passed explicitly: a record per Go struct, an operation per Go function, with
    its guards and early returns in the order of the code. A panic is [Panic] (in the
    machine [Crash]), an error is a value. Go integers are [Z] with the wrap-around
    written out ([u64], [i64], [u256]). Maps are [gmap]s; what Go leaves open (the order
    of a range over a map, [sort.Slice] on ties, random draws, the clock) is an argument,
    and theorems hold for all of them. Libraries the program calls are classes of
    operations ([Uint256], [Crypto], [Codec], [World], [StateReader]) with the documented
    properties the proofs use as a class of laws, each with an instance in the examples.
    Messages sent are part of a result.

    The interpreter's loop has no bound in the code. [Run] takes fuel, one unit per
    instruction, and ends in [Spin] when it is used up; safety is proved for every amount,
    [Run_fuel] says that more fuel does not change a run that ended, and
    [straight_line_terminates] that code without jumps and calls ends within its length.
    Other loops take fuel equal to a bound proved sufficient in the same file (the code
    analysis, the rounding, the ancestors of a block). A walk through a trie needs no more
    than four times the length of its key and four, decoding a node its length and one,
    and a commit of the node database more than the height of the trie; the theorems ask
    for so much. The loop over an iterator ends within the number of nodes of the trie and
    one, a number [iterator_lists_map] and [state_commit_persists] say exists.

    Idealisations: the code hash is injective (collision freedom); the answers of other
    shards carry only journal entries of other shards; a request to another shard is
    answered or times out in one step, since the goroutine does nothing else while it
    polls; balances are compared modulo 2^64 where the journal keeps no more of them;
    the locks of accounts are free. The tries take [rlp] and [keccak] as arguments, with the
    documented laws of the first (on integers outside 0..255 the functions may be anything
    that keeps them) and the length of the second where a node is read back; the
    node database is told by arguments when a batch is full and when writing it fails,
    and its nodes are content addressed: no hash stands for two encodings, and no node
    leads back to itself. The storage tries of a state are hashed and committed by
    goroutines that touch one account each: a loop in any order stands for them. The front
    end and the network take the answers of the operating system and the turns of the other
    goroutines as lists of events.

    ** What is proved

    - Account state: reverting to a snapshot restores the state after any sequence of
      operations; the state database refines the abstract account state the machine is
      proved against; the access list is a set of pairs.
    - Machine: no instruction, call or creation panics except for want of memory or over
      a nil context pointer, and the stack, depth and read-only flag are kept; failed
      calls restore the state; jumps go exactly to the JUMPDEST bytes that are not data,
      by an optimised analysis equal to a plain walk; fuel, termination, and that gas
      bounds nothing.
    - Tries: every sequence of lookups, updates and deletions on a trie, loaded or not,
      behaves as on a map; the root hash depends on that map alone; a transaction root
      ignores order. The node database is a map that grows: whatever is flushed, capped or
      committed, no read changes, every disk it leaves lacks no child of a stored node,
      and a commit makes all that a root leads to durable; its counters are exact and a
      cap keeps to its limit. Together they keep every version: a root that was committed
      opens again to the map it was committed with, from the disk alone once it was written.
      The iterator over a trie lists that map, each entry once, and ends.
    - Committed account state: a state that was opened and changed commits without an error,
      and at the new root the reader gives back every nonce, balance, code hash and slot; an
      account that destructed itself is gone with its slots. The theorem is about every
      operation but reverts, which [RevertToSnapshot_restores] is about, and about every
      store that keeps what it had and takes the nodes of the update.
    - Transactions: a contract transaction that fails leaves no trace through [ExeTx],
      whatever it did, and every execution keeps the database's invariant; transfers
      move what they say.
    - Between shards: serving a call or a creation is all or nothing in memory; a query
      loses the next block, and a rollback over the wire undoes nothing.
    - Brokers: the allocation is a partition within the brokers' balances; batches and
      block reports keep every broker solvent; brokered transfers complete.
    - Partition: the label propagation keeps its tables equal to those computed from
      scratch, and never empties a shard.
    - Exchange: the invariant of the market maker, conservation and the exact deviations.
    - Supervisor and front end: no message makes the supervisor panic; the stop signal
      falls exactly when all shards are silent long enough; the measurement modules add up
      what they are given; a transaction posted over JSON-RPC reaches its shard, a balance
      query is answered with a fresh balance, a receipt reports the execution. What is
      sent over the connection pool arrives whole and in order until a connection fails.
    - Chain and consensus: produced chains are linked; a node applies a digest at most
      once under any schedule; rounds complete; single-sender quorums.

    ** Not modelled, and why

    Goroutine interleavings inside a handler and JSON syntax (the fields kept are
    modelled); the difference and union of iterators, Merkle proofs, the stack trie, Verkle
    tries and the node database by path, which no configuration uses; the prefetcher,
    snapshots on disk and copies of the account state (in [Chain] and [CrossShard] the class
    [World] stands for its commit); which nodes garbage collection may drop; the precompiled
    contracts, instruction tables and gas functions no configuration activates; tracing;
    [preCheck], [buyGas] and [refundGas], whose calls are commented out; the launcher, launch
    scripts, logging and metrics. *)
From Stdlib Require Import ZArith Lia.
From stdpp Require Import base gmap strings list fin_maps sorting.

#[global] Open Scope Z_scope.

(** ** Machine integers

    Go's fixed-width integers are [Z] with the wrap-around written out. *)

Definition u8_max : Z := 2 ^ 8.
Definition u64_max : Z := 2 ^ 64.
Definition u256_max : Z := 2 ^ 256.

Definition u8 (z : Z) : Z := z mod 2 ^ 8.
Definition u16 (z : Z) : Z := z mod 2 ^ 16.
Definition u64 (z : Z) : Z := z mod 2 ^ 64.
Definition u256 (z : Z) : Z := z mod 2 ^ 256.

(** Conversion to Go's 64-bit signed [int]: the unsigned residue, read in two's
    complement. *)
Definition i64 (z : Z) : Z :=
  let r := z mod 2 ^ 64 in if r <? 2 ^ 63 then r else r - 2 ^ 64.

Definition is_u64 (z : Z) : Prop := 0 <= z < 2 ^ 64.
Definition is_u256 (z : Z) : Prop := 0 <= z < 2 ^ 256.

Lemma u64_range z : is_u64 (u64 z).
Proof. unfold is_u64, u64. apply Z.mod_pos_bound. lia. Qed.

Lemma u64_small z : is_u64 z -> u64 z = z.
Proof. intros H. apply Z.mod_small, H. Qed.

Lemma u64_add_1 z : 0 <= z < 2 ^ 64 - 1 -> u64 (z + 1) = z + 1.
Proof. intros H. apply u64_small. unfold is_u64. lia. Qed.

Lemma u256_range z : is_u256 (u256 z).
Proof. unfold is_u256, u256. apply Z.mod_pos_bound. lia. Qed.

Lemma u256_small z : is_u256 z -> u256 z = z.
Proof. intros H. apply Z.mod_small, H. Qed.

Lemma i64_small z : - 2 ^ 63 <= z < 2 ^ 63 -> i64 z = z.
Proof.
  intros H. unfold i64. destruct (Z.ltb_spec (z mod 2 ^ 64) (2 ^ 63)) as [Hlt | Hge].
  - destruct (Z_lt_le_dec z 0) as [Hn | Hp].
    + rewrite <- (Z.mod_unique z (2 ^ 64) (-1) (z + 2 ^ 64)) in Hlt by lia. lia.
    + apply Z.mod_small. lia.
  - destruct (Z_lt_le_dec z 0) as [Hn | Hp].
    + rewrite <- (Z.mod_unique z (2 ^ 64) (-1) (z + 2 ^ 64)) by lia. lia.
    + rewrite Z.mod_small in Hge by lia. lia.
Qed.

(** ** Outcomes

    A Go function either returns or panics (an index out of range, a nil
    dereference, a division by zero, or an explicit [log.Panic]/[panic]). *)

Inductive outcome (A : Type) : Type :=
| Ret (a : A)
| Panic (why : string).
Arguments Ret {A} a.
Arguments Panic {A} why.

#[export] Instance outcome_ret : MRet outcome := fun A a => Ret a.
#[export] Instance outcome_bind : MBind outcome := fun A B f m =>
  match m with Ret a => f a | Panic w => Panic w end.

Definition returns {A} (m : outcome A) : Prop := exists a, m = Ret a.

Lemma bind_Ret {A B} (a : A) (f : A -> outcome B) : (Ret a ≫= f) = f a.
Proof. reflexivity. Qed.

Lemma bind_Ret_inv {A B} (m : outcome A) (f : A -> outcome B) b :
  (m ≫= f) = Ret b -> exists a, m = Ret a /\ f a = Ret b.
Proof. destruct m; cbn; [eauto | discriminate]. Qed.

Lemma bind_assoc {A B C} (m : outcome A) (f : A -> outcome B) (g : B -> outcome C) :
  ((m ≫= f) ≫= g) = (m ≫= fun a => f a ≫= g).
Proof. by destruct m. Qed.

(** [nil] pointers and missing map entries. *)
Definition deref {A} (o : option A) : outcome A :=
  match o with Some a => Ret a | None => Panic "nil dereference" end.

(** Break a successful run into the successful runs of its parts. *)
Ltac outcome_inv :=
  repeat match goal with
  | H : (_ ≫= _) = Ret _ |- _ =>
      apply bind_Ret_inv in H; let a := fresh "r" in let Ha := fresh "Hr" in
      destruct H as (a & Ha & H)
  | H : Ret _ = Ret _ |- _ => injection H as H; subst
  | H : mret _ = Ret _ |- _ => injection H as H; subst
  | H : Panic _ = Ret _ |- _ => discriminate H
  | H : deref ?o = Ret _ |- _ =>
      let E := fresh "E" in destruct o eqn:E; cbn in H; [injection H as H; subst | discriminate H]
  end.

Create HintDb gowords.
#[export] Hint Resolve u64_range u256_range : gowords.
Create Rewrite HintDb gowords_rw.
#[export] Hint Rewrite @bind_Ret : gowords_rw.

(** ** Loops

    [for _, x := range l { s = f(s, x) }] with a body that may panic. *)
Fixpoint for_each {S A} (f : S -> A -> outcome S) (s : S) (l : list A) : outcome S :=
  match l with
  | [] => Ret s
  | x :: l' => s' ← f s x; for_each f s' l'
  end.

Lemma for_each_app {S A} (f : S -> A -> outcome S) s l1 l2 :
  for_each f s (l1 ++ l2) = (s' ← for_each f s l1; for_each f s' l2).
Proof.
  revert s. induction l1 as [| x l1 IH]; intros s; cbn; [done |].
  destruct (f s x); cbn; [apply IH | done].
Qed.

(** An invariant of every successful iteration is an invariant of the loop. *)
Lemma for_each_inv {S A} (P : S -> Prop) (f : S -> A -> outcome S) s l s' :
  P s -> (forall s x s1, x ∈ l -> P s -> f s x = Ret s1 -> P s1) ->
  for_each f s l = Ret s' -> P s'.
Proof.
  revert s. induction l as [| x l IH]; intros s Hs Hstep Hrun; cbn in Hrun.
  - outcome_inv. done.
  - outcome_inv. eapply IH; [| | done].
    + eapply Hstep; [left | done | done].
    + intros ????; eapply Hstep. by right.
Qed.

(** A loop whose body always returns on an invariant returns. *)
Lemma for_each_returns {S A} (P : S -> Prop) (f : S -> A -> outcome S) s l :
  P s -> (forall s x, x ∈ l -> P s -> exists s1, f s x = Ret s1 /\ P s1) ->
  exists s', for_each f s l = Ret s' /\ P s'.
Proof.
  revert s. induction l as [| x l IH]; intros s Hs Hstep; cbn; [eauto |].
  destruct (Hstep s x) as (s1 & -> & H1); [left | done |]. cbn.
  apply IH; [done |]. intros ???; apply Hstep. by right.
Qed.

(** ** Runs

    A run of code that need not end gives a value, crashes the process, or is cut short
    when the fuel of the model ends. *)
Inductive res (A : Type) : Type := Val (a : A) | Crash (why : string) | Spin.
Arguments Val {A} a.
Arguments Crash {A} why.
Arguments Spin {A}.

#[export] Instance res_ret : MRet res := fun A a => Val a.
#[export] Instance res_bind : MBind res := fun A B f m =>
  match m with Val a => f a | Crash w => Crash w | Spin => Spin end.

Definition of_outcome {A} (m : outcome A) : res A :=
  match m with Ret a => Val a | Panic w => Crash w end.

(** ** Slices *)

(** [l[i]] and [l[i] = x] panic when [i] is out of range. *)
Definition idx {A} (l : list A) (i : Z) : outcome A :=
  if i <? 0 then Panic "index out of range" else
  match l !! Z.to_nat i with
  | Some a => Ret a
  | None => Panic "index out of range"
  end.

Definition set_idx {A} (l : list A) (i : Z) (a : A) : outcome (list A) :=
  if (0 <=? i) && (i <? Z.of_nat (length l))
  then Ret (<[Z.to_nat i := a]> l)
  else Panic "index out of range".

Definition zlen {A} (l : list A) : Z := Z.of_nat (length l).

(** [l[a:b]] for [0 <= a <= b <= len(l)]. (A Go slice expression may extend to
    the capacity; none of the modelled code does.) *)
Definition slice {A} (l : list A) (a b : Z) : outcome (list A) :=
  if (0 <=? a) && (a <=? b) && (b <=? zlen l)
  then Ret (take (Z.to_nat (b - a)) (drop (Z.to_nat a) l))
  else Panic "slice bounds out of range".

Lemma slice_prefix {A} (l1 l2 : list A) : slice (l1 ++ l2) 0 (zlen l1) = Ret l1.
Proof.
  unfold slice, zlen. rewrite length_app.
  destruct (Z.leb_spec 0 (Z.of_nat (length l1))); [| lia].
  destruct (Z.leb_spec (Z.of_nat (length l1)) (Z.of_nat (length l1 + length l2))); [| lia].
  cbn -[Z.to_nat]. rewrite Z.sub_0_r, Nat2Z.id, Z2Nat.inj_0, drop_0. by rewrite take_app_length.
Qed.

Lemma set_idx_returns {A} (l : list A) i a :
  0 <= i < zlen l -> set_idx l i a = Ret (<[Z.to_nat i := a]> l).
Proof.
  unfold set_idx, zlen. intros H.
  destruct (Z.leb_spec 0 i), (Z.ltb_spec i (Z.of_nat (length l))); try lia; done.
Qed.

Lemma idx_returns {A} (l : list A) i a :
  0 <= i -> l !! Z.to_nat i = Some a -> idx l i = Ret a.
Proof. unfold idx. intros Hi ->. destruct (Z.ltb_spec i 0); [lia | done]. Qed.

(** ** Sums over lists *)

Definition zsum_with {A} (f : A -> Z) (l : list A) : Z := foldr (fun a s => f a + s) 0 l.

Arguments zsum_with : simpl never.

Lemma zsum_with_nil {A} (f : A -> Z) : zsum_with f [] = 0.
Proof. reflexivity. Qed.

Lemma zsum_with_cons {A} (f : A -> Z) x l : zsum_with f (x :: l) = f x + zsum_with f l.
Proof. reflexivity. Qed.

Lemma zsum_with_app {A} (f : A -> Z) l1 l2 :
  zsum_with f (l1 ++ l2) = zsum_with f l1 + zsum_with f l2.
Proof. unfold zsum_with. induction l1 as [| x l1 IH]; cbn; [done |]. rewrite IH. lia. Qed.

#[export] Instance zsum_with_perm {A} (f : A -> Z) :
  Proper ((≡ₚ) ==> eq) (zsum_with f).
Proof. unfold zsum_with. induction 1; cbn; lia. Qed.

Lemma zsum_with_ext {A} (f g : A -> Z) l :
  (forall x, x ∈ l -> f x = g x) -> zsum_with f l = zsum_with g l.
Proof.
  induction l as [| x l IH]; intros H; [done |].
  rewrite !zsum_with_cons, H by left. f_equal. apply IH. intros; apply H. by right.
Qed.

Lemma zsum_with_add {A} (f g : A -> Z) l :
  zsum_with (fun x => f x + g x) l = zsum_with f l + zsum_with g l.
Proof. unfold zsum_with. induction l as [| x l IH]; cbn; [done |]. rewrite IH. lia. Qed.

Lemma zsum_with_opp {A} (f : A -> Z) l : zsum_with (fun x => - f x) l = - zsum_with f l.
Proof. unfold zsum_with. induction l as [| x l IH]; cbn; [done |]. rewrite IH. lia. Qed.

Lemma zsum_one {A} (f : A -> Z) x : zsum_with f [x] = f x.
Proof. rewrite zsum_with_cons, zsum_with_nil. lia. Qed.

Lemma zsum_const {A} (c : Z) (l : list A) : zsum_with (fun _ => c) l = c * zlen l.
Proof.
  unfold zlen. induction l as [| x l IH]; [rewrite zsum_with_nil; cbn; lia |].
  rewrite zsum_with_cons, IH. cbn [length]. lia.
Qed.

Lemma zsum_with_nonneg {A} (f : A -> Z) l :
  (forall x, x ∈ l -> 0 <= f x) -> 0 <= zsum_with f l.
Proof.
  induction l as [| x l IH]; intros H; [done |]. rewrite zsum_with_cons.
  assert (0 <= f x) by (apply H; left).
  assert (0 <= zsum_with f l) by (apply IH; intros; apply H; by right). lia.
Qed.

(** Changing one summand of a duplicate-free list changes the sum by the same
    amount: the shape of every conservation argument below. *)
Lemma zsum_with_point {A} (f g : A -> Z) l a :
  NoDup l -> a ∈ l -> (forall x, x ∈ l -> x <> a -> f x = g x) ->
  zsum_with f l = zsum_with g l + (f a - g a).
Proof.
  induction l as [| x l IH]; intros Hnd Ha Hext; [by apply not_elem_of_nil in Ha |].
  apply NoDup_cons in Hnd as [Hx Hnd]. rewrite !zsum_with_cons.
  apply elem_of_cons in Ha as [-> | Ha].
  - assert (zsum_with f l = zsum_with g l) as ->; [| lia].
    apply zsum_with_ext. intros y Hy. apply Hext; [by right | congruence].
  - rewrite IH; [| done | done | intros; apply Hext; [by right | done]].
    rewrite (Hext x); [lia | left | congruence].
Qed.
