(* ===== verification/Utils.v ===== *)
(** * Configuration, addresses and shard routing

    Models [params/global_config.go], [params/static_config.go],
    [utils/utils_partition.go] (the routing function [Addr2Shard]), the parts of
    [strconv] and [math/big] the program parses its inputs with, and the address
    normalisation of [supervisor/committee/committee_broker_b2e.go]. *)
From Stdlib Require Import ZArith Lia Ascii.
From stdpp Require Import base gmap strings list.
From S2P Require Import Prelude.

(** ** Parameters ([params]) *)

(** The package variables of [params] the modelled code reads. They are
    variables in Go: every theorem below is for an arbitrary configuration. *)
Class Config := {
  Block_Interval : Z;
  MaxBlockSize_global : Z;
  InjectSpeed : Z;
  BrokerNum : Z;
  NodesInShard : Z;
  ShardNum : Z;
  IterNum_B2E : nat;
  Init_Balance : Z;
  Init_broker_Balance : Z;
  Transaction_Types : list string
}.

(** The values the two configuration files assign. *)
Definition default_config : Config := {|
  Block_Interval := 1000;
  MaxBlockSize_global := 500000;
  InjectSpeed := 5000;
  BrokerNum := 1;
  NodesInShard := 4;
  ShardNum := 4;
  IterNum_B2E := 5;
  Init_Balance := 10000;
  Init_broker_Balance := 10000;
  Transaction_Types := ["BKC"; "Badge"]
|}.

(** [DeciderShard] is a fixed constant: the shard number of the supervisor. *)
Definition DeciderShard : Z := 0xffffffff.

(** ** Strings as byte sequences *)

Definition bytes_of (s : string) : list ascii := String.list_ascii_of_string s.
Definition of_bytes (l : list ascii) : string := String.string_of_list_ascii l.
Definition strlen (s : string) : Z := zlen (bytes_of s).

Lemma of_bytes_of s : of_bytes (bytes_of s) = s.
Proof. apply String.string_of_list_ascii_of_string. Qed.

Lemma bytes_of_of l : bytes_of (of_bytes l) = l.
Proof. apply String.list_ascii_of_string_of_list_ascii. Qed.

(** [s[a:]] *)
Definition str_from (s : string) (a : Z) : outcome string :=
  if (0 <=? a) && (a <=? strlen s)
  then Ret (of_bytes (drop (Z.to_nat a) (bytes_of s)))
  else Panic "slice bounds out of range".

(** ** [strconv] and [big.Int.SetString] *)

Definition digit_val (c : ascii) : option Z :=
  let n := Z.of_N (N_of_ascii c) in
  if (48 <=? n) && (n <=? 57) then Some (n - 48)
  else if (97 <=? n) && (n <=? 122) then Some (n - 87)
  else if (65 <=? n) && (n <=? 90) then Some (n - 55)
  else None.

(** The digit loop shared by [strconv.ParseUint] and [big.Int.SetString]:
    [bound] is the largest representable value, if there is one. *)
Fixpoint parse_digits (base : Z) (bound : option Z) (n : Z) (l : list ascii) : option Z :=
  match l with
  | [] => Some n
  | c :: l' =>
      match digit_val c with
      | None => None
      | Some d =>
          if base <=? d then None else
          let n' := n * base + d in
          match bound with
          | Some b => if b <? n' then None else parse_digits base bound n' l'
          | None => parse_digits base bound n' l'
          end
      end
  end.

(** [strconv.ParseUint(s, 16, 64)] *)
Definition ParseUint (l : list ascii) : option Z :=
  match l with
  | [] => None
  | _ => parse_digits 16 (Some (2 ^ 64 - 1)) 0 l
  end.

(** [strconv.ParseInt(s, 16, 64)]: [ParseUint] after an optional sign. *)
Definition ParseInt (l : list ascii) : option Z :=
  let signed (neg : bool) (l' : list ascii) :=
    match ParseUint l' with
    | None => None
    | Some un =>
        if neg then (if 2 ^ 63 <? un then None else Some (- un))
        else (if 2 ^ 63 <=? un then None else Some un)
    end in
  match l with
  | [] => None
  | "+"%char :: l' => signed false l'
  | "-"%char :: l' => signed true l'
  | _ => signed false l
  end.

(** [new(big.Int).SetString(s, 10)]: an optional sign, then at least one decimal
    digit, nothing else. *)
Definition SetString10 (s : string) : option Z :=
  let unsigned (l : list ascii) := match l with [] => None | _ => parse_digits 10 None 0 l end in
  match bytes_of s with
  | "+"%char :: l => unsigned l
  | "-"%char :: l => option_map Z.opp (unsigned l)
  | l => unsigned l
  end.

(** ** [utils.Addr2Shard] *)
Section Routing.
Context `{Config}.

(** The default shard of an address: its last eight bytes read as a hexadecimal
    number, modulo the number of shards. *)
Definition Addr2Shard (addr : string) : outcome Z :=
  last16_addr ← str_from addr (strlen addr - 8);
  num ← match ParseUint (bytes_of last16_addr) with
        | Some n => Ret n
        | None => Panic "ParseUint"
        end;
  if ShardNum =? 0 then Panic "integer divide by zero"
  else Ret (Z.rem (i64 num) ShardNum).
End Routing.

(** ** Address normalisation ([committee_broker_b2e.go]) *)

Definition isValidHexChar (c : ascii) : bool :=
  let n := Z.of_N (N_of_ascii c) in
  ((48 <=? n) && (n <=? 57)) || ((97 <=? n) && (n <=? 102)) || ((65 <=? n) && (n <=? 70)).

(** Go ranges over runes; every byte of a rune outside ASCII is at least 128, so
    the rune test and the byte test refuse the same strings. *)
Definition FormatStringToLength (s : string) (length : Z) : outcome string :=
  if forallb isValidHexChar (bytes_of s) then
    if length <? strlen s then str_from s (strlen s - length)
    else Ret (of_bytes (replicate (Z.to_nat (length - strlen s)) "0"%char ++ bytes_of s))
  else Ret "error".

(** ** Byte strings *)

(** The [n] low bytes of a number, the most significant first: the bytes of an address
    ([n] = 20) or of a hash ([n] = 32). *)
Fixpoint be_bytes (n : nat) (z : Z) : list Z :=
  match n with O => [] | S n' => be_bytes n' (z / 256) ++ [z mod 256] end.

(** [hex.EncodeToString]. *)
Definition hex_digit (d : Z) : ascii :=
  ascii_of_N (Z.to_N (if d <? 10 then 48 + d else 87 + d)).

Definition EncodeToString (l : list Z) : string :=
  of_bytes (flat_map (fun b => [hex_digit ((b / 16) mod 16); hex_digit (b mod 16)]) l).

(** ** Lemmas *)

Definition all_hex (s : string) : bool := forallb isValidHexChar (bytes_of s).

Lemma hex_digit_val c : isValidHexChar c = true -> exists d, digit_val c = Some d /\ 0 <= d < 16.
Proof.
  unfold isValidHexChar, digit_val. set (n := Z.of_N (N_of_ascii c)). intros Hc.
  repeat match goal with |- context [?a <=? ?b] => destruct (Z.leb_spec a b) end;
    repeat match goal with H : context [?a <=? ?b] |- _ => destruct (Z.leb_spec a b) end;
    cbn in *; try lia; try discriminate; (eexists; split; [reflexivity | lia]).
Qed.

Lemma parse_digits_hex l n bound :
  forallb isValidHexChar l = true -> 0 <= n ->
  (n + 1) * 16 ^ Z.of_nat (length l) <= bound + 1 ->
  exists r, parse_digits 16 (Some bound) n l = Some r /\ 0 <= r /\
            r < (n + 1) * 16 ^ Z.of_nat (length l).
Proof.
  revert n. induction l as [| c l IH]; intros n Hl Hn Hb.
  - exists n. cbn [length Z.of_nat] in *. rewrite Z.pow_0_r in *. split; [done | lia].
  - cbn [forallb] in Hl. apply andb_true_iff in Hl as [Hc Hl].
    destruct (hex_digit_val c Hc) as (d & Hd & Hdr). cbn [parse_digits]. rewrite Hd.
    cbn [length] in Hb. rewrite Nat2Z.inj_succ, Z.pow_succ_r in Hb by lia.
    pose proof (Z.pow_pos_nonneg 16 (Z.of_nat (length l)) ltac:(lia) ltac:(lia)).
    destruct (Z.leb_spec 16 d); [lia |].
    destruct (Z.ltb_spec bound (n * 16 + d)); [nia |].
    destruct (IH (n * 16 + d)) as (r & Hr & Hr0 & Hr1); [done | lia | nia |].
    exists r. split; [done |]. split; [done |].
    cbn [length]. rewrite Nat2Z.inj_succ, Z.pow_succ_r by lia. nia.
Qed.

Lemma ParseUint_hex l :
  forallb isValidHexChar l = true -> length l = 8%nat ->
  exists r, ParseUint l = Some r /\ 0 <= r < 2 ^ 32.
Proof.
  intros Hl Hlen. destruct (parse_digits_hex l 0 (2 ^ 64 - 1)) as (r & Hr & H0 & H1);
    [done | lia | rewrite Hlen; cbn; lia |].
  rewrite Hlen in H1. exists r. split; [by destruct l |]. change (16 ^ Z.of_nat 8) with (2 ^ 32) in H1. lia.
Qed.

Lemma str_from_drop s a :
  0 <= a <= strlen s -> str_from s a = Ret (of_bytes (drop (Z.to_nat a) (bytes_of s))).
Proof.
  intros Ha. unfold str_from.
  destruct (Z.leb_spec 0 a), (Z.leb_spec a (strlen s)); try lia. done.
Qed.

Lemma forallb_drop {A} (p : A -> bool) n l : forallb p l = true -> forallb p (drop n l) = true.
Proof.
  revert n. induction l as [| x l IH]; intros [| n] Hl; try done.
  cbn in Hl. apply andb_true_iff in Hl as [_ Hl]. by apply IH.
Qed.

Lemma forallb_replicate {A} (p : A -> bool) n x : p x = true -> forallb p (replicate n x) = true.
Proof. intros Hx. induction n as [| n IH]; cbn; [done |]. by rewrite Hx, IH. Qed.

(** [strlen]'s numeric content, for [lia]. *)
Lemma strlen_of_bytes l : strlen (of_bytes l) = zlen l.
Proof. unfold strlen. by rewrite bytes_of_of. Qed.
#[export] Hint Rewrite strlen_of_bytes bytes_of_of of_bytes_of : gowords_rw.

Section RoutingLemmas.
Context `{Config}.

(** Two addresses with the same last eight bytes have the same shard. *)
Lemma Addr2Shard_suffix s t :
  8 <= strlen s -> 8 <= strlen t ->
  drop (length (bytes_of s) - 8) (bytes_of s) = drop (length (bytes_of t) - 8) (bytes_of t) ->
  Addr2Shard s = Addr2Shard t.
Proof.
  intros Hs Ht E. unfold Addr2Shard. rewrite !str_from_drop by lia. cbn.
  assert (forall u, Z.to_nat (strlen u - 8) = (length (bytes_of u) - 8)%nat) as Hn
    by (intros u; unfold strlen, zlen; lia).
  by rewrite !Hn, E.
Qed.

Lemma Addr2Shard_hex s :
  0 < ShardNum -> all_hex s = true -> 8 <= strlen s ->
  exists sid, Addr2Shard s = Ret sid /\ 0 <= sid < ShardNum.
Proof.
  intros HS Hs Hlen. unfold Addr2Shard. rewrite str_from_drop by lia. cbn.
  rewrite bytes_of_of.
  destruct (ParseUint_hex (drop (Z.to_nat (strlen s - 8)) (bytes_of s))) as (r & -> & Hr).
  - by apply forallb_drop.
  - rewrite length_drop. unfold strlen, zlen in *. lia.
  - cbn. destruct (Z.eqb_spec ShardNum 0); [lia |]. eexists. split; [done |].
    rewrite i64_small by lia. apply Z.rem_bound_pos; lia.
Qed.

(** Shape of a normalised address: exactly [n] hexadecimal digits. *)
Lemma FormatStringToLength_hex s n :
  0 <= n -> all_hex s = true ->
  exists s', FormatStringToLength s n = Ret s' /\ all_hex s' = true /\ strlen s' = n.
Proof.
  intros Hn Hs. unfold FormatStringToLength. fold (all_hex s). rewrite Hs.
  destruct (Z.ltb_spec n (strlen s)) as [Hlt | Hge].
  - rewrite str_from_drop by lia. eexists. split; [done |]. split.
    + unfold all_hex. rewrite bytes_of_of. by apply forallb_drop.
    + rewrite strlen_of_bytes. unfold strlen, zlen in *. rewrite length_drop. lia.
  - eexists. split; [done |]. split.
    + unfold all_hex in *. rewrite bytes_of_of, forallb_app, Hs, forallb_replicate; done.
    + rewrite strlen_of_bytes. unfold strlen, zlen in *. rewrite length_app, length_replicate. lia.
Qed.
End RoutingLemmas.

Lemma be_bytes_length n z : length (be_bytes n z) = n.
Proof. revert z. induction n as [| n IH]; intros z; cbn; [done |]. rewrite length_app, IH. cbn. lia. Qed.

Lemma be_bytes_range n z : Forall (fun b => 0 <= b < 256) (be_bytes n z).
Proof.
  revert z. induction n as [| n IH]; intros z; cbn; [constructor |]. apply Forall_app. split; [apply IH |].
  constructor; [apply Z.mod_pos_bound; lia | constructor].
Qed.

Lemma hex_digit_valid d : 0 <= d < 16 -> isValidHexChar (hex_digit d) = true.
Proof.
  intros Hd. assert (H : forallb (fun n => isValidHexChar (hex_digit (Z.of_nat n))) (seq 0 16) = true) by reflexivity.
  rewrite forallb_forall in H. specialize (H (Z.to_nat d)). rewrite Z2Nat.id in H by lia. apply H, in_seq. lia.
Qed.

Lemma EncodeToString_hex l : all_hex (EncodeToString l) = true /\ strlen (EncodeToString l) = 2 * zlen l.
Proof.
  unfold all_hex, EncodeToString, strlen. rewrite bytes_of_of. induction l as [| b l [IH1 IH2]]; cbn -[Z.mul]; [done |].
  rewrite !hex_digit_valid by (apply Z.mod_pos_bound; lia). split; [done |]. unfold zlen in *. cbn -[Z.mul]. lia.
Qed.

(** ** Theorems *)

(** Normalising keeps the last [k] bytes. *)
Lemma FormatStringToLength_suffix s n s' k :
  all_hex s = true -> FormatStringToLength s n = Ret s' -> Z.of_nat k <= strlen s -> Z.of_nat k <= n ->
  drop (length (bytes_of s') - k) (bytes_of s') = drop (length (bytes_of s) - k) (bytes_of s).
Proof.
  intros Hs Hf Hk Hn. unfold FormatStringToLength in Hf. fold (all_hex s) in Hf. rewrite Hs in Hf.
  destruct (Z.ltb_spec n (strlen s)).
  - rewrite str_from_drop in Hf by lia. injection Hf as <-. rewrite bytes_of_of, drop_drop, length_drop.
    f_equal. unfold strlen, zlen in *. lia.
  - injection Hf as <-. rewrite bytes_of_of, length_app, length_replicate. unfold strlen, zlen in *.
    rewrite drop_app_ge; rewrite length_replicate; [f_equal; lia | lia].
Qed.

(** A normalised address can always be routed. A string of hexadecimal digits, of
    any length, is normalised to exactly 40 digits whose shard exists, and is the
    shard of the original string when that is long enough to have one; any other
    string is normalised to the word error, which [Addr2Shard] panics on. *)
Theorem formatted_address_routes `{Config} s :
  0 < ShardNum ->
  if all_hex s then
    exists s' sid, FormatStringToLength s 40 = Ret s' /\ strlen s' = 40 /\
      Addr2Shard s' = Ret sid /\ 0 <= sid < ShardNum /\ (8 <= strlen s -> Addr2Shard s = Ret sid)
  else FormatStringToLength s 40 = Ret "error" /\ Addr2Shard "error" = Panic "slice bounds out of range".
Proof.
  intros HS. destruct (all_hex s) eqn:Hs.
  - destruct (FormatStringToLength_hex s 40) as (s' & Hf & Hs' & Hl); [lia | done |].
    destruct (Addr2Shard_hex s') as (sid & Hsid & Hr); [done | done | lia |].
    exists s', sid. split_and!; [done | done | done | lia | lia |]. intros H8. rewrite <- Hsid.
    apply Addr2Shard_suffix; [lia | lia |]. symmetry. eapply FormatStringToLength_suffix; [done | done | lia | lia].
  - unfold FormatStringToLength. fold (all_hex s). rewrite Hs. done.
Qed.

Lemma formatted_address_routes_witness :
  exists s' sid, FormatStringToLength "00abc1d2e3f4" 40 = Ret s' /\ @Addr2Shard default_config s' = Ret sid /\
    @Addr2Shard default_config "00abc1d2e3f4" = Ret sid.
Proof.
  pose proof (@formatted_address_routes default_config "00abc1d2e3f4" ltac:(cbn; lia)) as H.
  change (all_hex "00abc1d2e3f4") with true in H.
  destruct H as (s' & sid & H1 & _ & H2 & _ & H3). exists s', sid.
  split; [exact H1 |]. split; [exact H2 |]. apply H3. vm_compute. discriminate.
Defined.
