(* ===== verification/JournalTypes.v ===== *)
(** * Journal entries

    The state-change records of [vm/state/journal.go]: their data, the accessors
    [GetShardID], [dirtied] and [copy], and the JSON form in which they travel
    between shards. The behaviour of entries on a state ([Revert], [Execute]) is
    in [StateDB.v].

    A [common.Address] is its 160-bit value and a [common.Hash] its 256-bit
    value, both as [Z]; contract code is its list of bytes. *)
From Stdlib Require Import ZArith Lia.
From stdpp Require Import base gmap strings list.
From S2P Require Import Prelude Utils.

(** One constructor per Go struct of [journal.go] with the struct's fields in
    order; the last argument is always [ShardId]. *)
Inductive JournalEntry :=
| CreateObjectChange (account ShardId : Z)
| CreateContractChange (account ShardId : Z)
| SelfDestructChange (account ShardId : Z)
| BalanceChange (account prev current ShardId : Z)
| NonceChange (account prev current ShardId : Z)
| StorageChange (account key prevvalue origvalue current ShardId : Z)
| CodeChange (account codeHash : Z) (code : list Z) (ShardId : Z)
| RefundChange (prev incr ShardId : Z)
| AddLogChange (txhash ShardId : Z)
| TouchChange (account ShardId : Z)
| AccessListAddAccountChange (address ShardId : Z)
| AccessListAddSlotChange (address slot ShardId : Z)
| TransientStorageChange (account key prevalue value ShardId : Z).

#[export] Instance JournalEntry_eq_dec : EqDecision JournalEntry.
Proof. solve_decision. Defined.

Definition GetShardID (e : JournalEntry) : Z :=
  match e with
  | CreateObjectChange _ s | CreateContractChange _ s | SelfDestructChange _ s
  | BalanceChange _ _ _ s | NonceChange _ _ _ s | StorageChange _ _ _ _ _ s
  | CodeChange _ _ _ s | RefundChange _ _ s | AddLogChange _ s | TouchChange _ s
  | AccessListAddAccountChange _ s | AccessListAddSlotChange _ _ s
  | TransientStorageChange _ _ _ _ s => s
  end.

(** The account an entry marks dirty, if any. *)
Definition dirtied (e : JournalEntry) : option Z :=
  match e with
  | CreateObjectChange a _ | SelfDestructChange a _ | BalanceChange a _ _ _
  | NonceChange a _ _ _ | StorageChange a _ _ _ _ _ | CodeChange a _ _ _
  | TouchChange a _ => Some a
  | CreateContractChange _ _ | RefundChange _ _ _ | AddLogChange _ _
  | AccessListAddAccountChange _ _ | AccessListAddSlotChange _ _ _
  | TransientStorageChange _ _ _ _ _ => None
  end.

(** The [copy] methods build a fresh struct from the listed fields; none lists
    [ShardId], which therefore takes its zero value. *)
Definition entry_copy (e : JournalEntry) : JournalEntry :=
  match e with
  | CreateObjectChange a _ => CreateObjectChange a 0
  | CreateContractChange a _ => CreateContractChange a 0
  | SelfDestructChange a _ => SelfDestructChange a 0
  | BalanceChange a p c _ => BalanceChange a p c 0
  | NonceChange a p c _ => NonceChange a p c 0
  | StorageChange a k p o c _ => StorageChange a k p o c 0
  | CodeChange a h c _ => CodeChange a h c 0
  | RefundChange p i _ => RefundChange p i 0
  | AddLogChange t _ => AddLogChange t 0
  | TouchChange a _ => TouchChange a 0
  | AccessListAddAccountChange a _ => AccessListAddAccountChange a 0
  | AccessListAddSlotChange a s _ => AccessListAddSlotChange a s 0
  | TransientStorageChange a k p v _ => TransientStorageChange a k p v 0
  end.

(** ** The wire form ([Wrapper]) *)

(** The type tag the senders ([journal.revert], [ExeTx], [handleOpCreateReq])
    put beside an entry. *)
Definition entry_type (e : JournalEntry) : string :=
  match e with
  | CreateObjectChange _ _ => "CreateObjectChange"
  | CreateContractChange _ _ => "CreateContractChange"
  | SelfDestructChange _ _ => "SelfDestructChange"
  | BalanceChange _ _ _ _ => "BalanceChange"
  | NonceChange _ _ _ _ => "NonceChange"
  | StorageChange _ _ _ _ _ _ => "StorageChange"
  | CodeChange _ _ _ _ => "CodeChange"
  | RefundChange _ _ _ => "RefundChange"
  | AddLogChange _ _ => "AddLogChange"
  | TouchChange _ _ => "TouchChange"
  | AccessListAddAccountChange _ _ => "AccessListAddAccountChange"
  | AccessListAddSlotChange _ _ _ => "AccessListAddSlotChange"
  | TransientStorageChange _ _ _ _ _ => "TransientStorageChange"
  end.

(** [Wrapper]: the original object and its tag. *)
Record Wrapper := mkWrapper { OriginalObj : JournalEntry; Type_ : string }.

Definition wrap (e : JournalEntry) : Wrapper := mkWrapper e (entry_type e).

(** The JSON object a wrapper becomes. [encoding/json] encodes exported struct
    fields only, and [ShardId] is the one exported field of every entry, so the
    ["data"] member is an object whose only member is ["ShardId"]. *)
Record WrapperJSON := mkWrapperJSON { json_type : string; json_ShardId : Z }.

Definition MarshalJSON (w : Wrapper) : WrapperJSON :=
  mkWrapperJSON (Type_ w) (GetShardID (OriginalObj w)).

(** Decoding allocates a zero struct of the tagged type and fills the exported
    fields present in the data; an unknown tag is an error. *)
Definition UnmarshalJSON (j : WrapperJSON) : option Wrapper :=
  let s := json_ShardId j in
  let mk e := Some (mkWrapper e (json_type j)) in
  if decide (json_type j = "CreateObjectChange") then mk (CreateObjectChange 0 s)
  else if decide (json_type j = "CreateContractChange") then mk (CreateContractChange 0 s)
  else if decide (json_type j = "SelfDestructChange") then mk (SelfDestructChange 0 s)
  else if decide (json_type j = "BalanceChange") then mk (BalanceChange 0 0 0 s)
  else if decide (json_type j = "NonceChange") then mk (NonceChange 0 0 0 s)
  else if decide (json_type j = "StorageChange") then mk (StorageChange 0 0 0 0 0 s)
  else if decide (json_type j = "CodeChange") then mk (CodeChange 0 0 [] s)
  else if decide (json_type j = "RefundChange") then mk (RefundChange 0 0 s)
  else if decide (json_type j = "AddLogChange") then mk (AddLogChange 0 s)
  else if decide (json_type j = "TouchChange") then mk (TouchChange 0 s)
  else if decide (json_type j = "AccessListAddAccountChange")
       then mk (AccessListAddAccountChange 0 s)
  else if decide (json_type j = "AccessListAddSlotChange") then mk (AccessListAddSlotChange 0 0 s)
  else if decide (json_type j = "TransientStorageChange")
       then mk (TransientStorageChange 0 0 0 0 s)
  else None.

(** The entry with every unexported field zeroed: what arrives on the other
    side. *)
Definition zeroed (e : JournalEntry) : JournalEntry :=
  let s := GetShardID e in
  match e with
  | CreateObjectChange _ _ => CreateObjectChange 0 s
  | CreateContractChange _ _ => CreateContractChange 0 s
  | SelfDestructChange _ _ => SelfDestructChange 0 s
  | BalanceChange _ _ _ _ => BalanceChange 0 0 0 s
  | NonceChange _ _ _ _ => NonceChange 0 0 0 s
  | StorageChange _ _ _ _ _ _ => StorageChange 0 0 0 0 0 s
  | CodeChange _ _ _ _ => CodeChange 0 0 [] s
  | RefundChange _ _ _ => RefundChange 0 0 s
  | AddLogChange _ _ => AddLogChange 0 s
  | TouchChange _ _ => TouchChange 0 s
  | AccessListAddAccountChange _ _ => AccessListAddAccountChange 0 s
  | AccessListAddSlotChange _ _ _ => AccessListAddSlotChange 0 0 s
  | TransientStorageChange _ _ _ _ _ => TransientStorageChange 0 0 0 0 s
  end.

(** ** Theorems *)

(** A journal entry that crosses the wire (marshalled by one node and
    unmarshalled by another) keeps its type tag and its shard, and loses every
    other field: the receiver works on the zero address and zero values, for
    every one of the thirteen entry types. *)
Theorem wrapper_wire_roundtrip (e : JournalEntry) :
  UnmarshalJSON (MarshalJSON (wrap e)) = Some (mkWrapper (zeroed e) (entry_type e)).
Proof. destruct e; reflexivity. Qed.
