(* ===== verification/Core.v ===== *)
(** * Core data: accounts, transactions, blocks and the transaction pool

    Models [core/account.go], [core/transaction.go], [core/block.go] and
    [core/txpool.go]. Byte slices used as identifiers (hashes, signatures) are
    [string]s, Go's own byte strings; a [time.Time] is an integer whose zero is
    the zero time. *)
From Stdlib Require Import ZArith Lia Ascii.
From stdpp Require Import base gmap strings list fin_maps.
From S2P Require Import Prelude Utils JournalTypes.

(** ** Accounts ([core/account.go]) *)

Record AccountState := mkAccountState {
  as_Nonce : Z;
  as_Balance : Z;
  as_StorageRoot : string;
  as_CodeHash : string
}.

(** [Deduct] mutates the receiver: the result is the new receiver and the
    returned flag. *)
Definition Deduct (acc : AccountState) (val : Z) : AccountState * bool :=
  if as_Balance acc <? val then (acc, false)
  else (mkAccountState (as_Nonce acc) (as_Balance acc - val) (as_StorageRoot acc)
          (as_CodeHash acc), true).

Definition Deposit (s : AccountState) (value : Z) : AccountState :=
  mkAccountState (as_Nonce s) (as_Balance s + value) (as_StorageRoot s) (as_CodeHash s).

(** ** Transactions ([core/transaction.go]) *)

Record Transaction := mkTransaction {
  Sender : string;
  Recipient : string;
  Nonce : Z;
  Signature : string;
  Value : Z;
  Txtype : string;
  Fee : Z;
  TxHash : string;
  Time : Z;
  Relayed : bool;
  HasBroker : bool;
  SenderIsBroker : bool;
  IsAllocatedSender : bool;
  IsAllocatedRecipent : bool;
  OriginalSender : string;
  FinalRecipient : string;
  RawTxHash : string;
  Isbrokertx1 : bool;
  Isbrokertx2 : bool;
  ShouldHandleInBlock : bool;
  IncreaseOrDecrease : Z;
  Gas : Z;
  GasPrice : option Z;
  To : Z;
  From : Z;
  Data : list Z;
  IsContract : bool;
  IsBrokerContract : bool;
  Log : list Wrapper;
  UUID : string
}.

#[export] Instance Wrapper_eq_dec : EqDecision Wrapper.
Proof. solve_decision. Defined.
#[export] Instance Transaction_eq_dec : EqDecision Transaction.
Proof. solve_decision. Defined.

(** The zero value of the struct. *)
Definition zero_tx : Transaction :=
  mkTransaction "" "" 0 "" 0 "" 0 "" 0 false false false false false "" "" "" false false
    false 0 0 None 0 0 [] false false [] "".

(** Field updates. *)
Definition tx_set_hash (h : string) (t : Transaction) : Transaction :=
  mkTransaction (Sender t) (Recipient t) (Nonce t) (Signature t) (Value t) (Txtype t) (Fee t) h
    (Time t) (Relayed t) (HasBroker t) (SenderIsBroker t) (IsAllocatedSender t)
    (IsAllocatedRecipent t) (OriginalSender t) (FinalRecipient t) (RawTxHash t) (Isbrokertx1 t)
    (Isbrokertx2 t) (ShouldHandleInBlock t) (IncreaseOrDecrease t) (Gas t) (GasPrice t) (To t)
    (From t) (Data t) (IsContract t) (IsBrokerContract t) (Log t) (UUID t).

Definition tx_set_time (z : Z) (t : Transaction) : Transaction :=
  mkTransaction (Sender t) (Recipient t) (Nonce t) (Signature t) (Value t) (Txtype t) (Fee t)
    (TxHash t) z (Relayed t) (HasBroker t) (SenderIsBroker t) (IsAllocatedSender t)
    (IsAllocatedRecipent t) (OriginalSender t) (FinalRecipient t) (RawTxHash t) (Isbrokertx1 t)
    (Isbrokertx2 t) (ShouldHandleInBlock t) (IncreaseOrDecrease t) (Gas t) (GasPrice t) (To t)
    (From t) (Data t) (IsContract t) (IsBrokerContract t) (Log t) (UUID t).

Definition tx_set_parties (s r : string) (t : Transaction) : Transaction :=
  mkTransaction s r (Nonce t) (Signature t) (Value t) (Txtype t) (Fee t) (TxHash t) (Time t)
    (Relayed t) (HasBroker t) (SenderIsBroker t) (IsAllocatedSender t) (IsAllocatedRecipent t)
    (OriginalSender t) (FinalRecipient t) (RawTxHash t) (Isbrokertx1 t) (Isbrokertx2 t)
    (ShouldHandleInBlock t) (IncreaseOrDecrease t) (Gas t) (GasPrice t) (To t) (From t) (Data t)
    (IsContract t) (IsBrokerContract t) (Log t) (UUID t).

Definition tx_set_broker (has sender_is : bool) (t : Transaction) : Transaction :=
  mkTransaction (Sender t) (Recipient t) (Nonce t) (Signature t) (Value t) (Txtype t) (Fee t)
    (TxHash t) (Time t) (Relayed t) has sender_is (IsAllocatedSender t) (IsAllocatedRecipent t)
    (OriginalSender t) (FinalRecipient t) (RawTxHash t) (Isbrokertx1 t) (Isbrokertx2 t)
    (ShouldHandleInBlock t) (IncreaseOrDecrease t) (Gas t) (GasPrice t) (To t) (From t) (Data t)
    (IsContract t) (IsBrokerContract t) (Log t) (UUID t).

Definition tx_set_allocated (s r : bool) (t : Transaction) : Transaction :=
  mkTransaction (Sender t) (Recipient t) (Nonce t) (Signature t) (Value t) (Txtype t) (Fee t)
    (TxHash t) (Time t) (Relayed t) (HasBroker t) (SenderIsBroker t) s r
    (OriginalSender t) (FinalRecipient t) (RawTxHash t) (Isbrokertx1 t) (Isbrokertx2 t)
    (ShouldHandleInBlock t) (IncreaseOrDecrease t) (Gas t) (GasPrice t) (To t) (From t) (Data t)
    (IsContract t) (IsBrokerContract t) (Log t) (UUID t).

Definition tx_set_origin (os fr raw : string) (b1 b2 : bool) (t : Transaction) : Transaction :=
  mkTransaction (Sender t) (Recipient t) (Nonce t) (Signature t) (Value t) (Txtype t) (Fee t)
    (TxHash t) (Time t) (Relayed t) (HasBroker t) (SenderIsBroker t) (IsAllocatedSender t)
    (IsAllocatedRecipent t) os fr raw b1 b2 (ShouldHandleInBlock t) (IncreaseOrDecrease t)
    (Gas t) (GasPrice t) (To t) (From t) (Data t) (IsContract t) (IsBrokerContract t) (Log t)
    (UUID t).

Definition tx_set_inblock (h : bool) (i : Z) (t : Transaction) : Transaction :=
  mkTransaction (Sender t) (Recipient t) (Nonce t) (Signature t) (Value t) (Txtype t) (Fee t)
    (TxHash t) (Time t) (Relayed t) (HasBroker t) (SenderIsBroker t) (IsAllocatedSender t)
    (IsAllocatedRecipent t) (OriginalSender t) (FinalRecipient t) (RawTxHash t) (Isbrokertx1 t)
    (Isbrokertx2 t) h i (Gas t) (GasPrice t) (To t) (From t) (Data t) (IsContract t)
    (IsBrokerContract t) (Log t) (UUID t).

Definition tx_set_contract (to from : Z) (d : list Z) (ic ibc : bool) (t : Transaction) : Transaction :=
  mkTransaction (Sender t) (Recipient t) (Nonce t) (Signature t) (Value t) (Txtype t) (Fee t)
    (TxHash t) (Time t) (Relayed t) (HasBroker t) (SenderIsBroker t) (IsAllocatedSender t)
    (IsAllocatedRecipent t) (OriginalSender t) (FinalRecipient t) (RawTxHash t) (Isbrokertx1 t)
    (Isbrokertx2 t) (ShouldHandleInBlock t) (IncreaseOrDecrease t) (Gas t) (GasPrice t) to from d
    ic ibc (Log t) (UUID t).

(** ** Hexadecimal addresses *)

(** [hex.DecodeString] with its error ignored: the bytes decoded before the first
    bad pair. *)
Fixpoint hex_decode (l : list ascii) : list Z :=
  match l with
  | c1 :: c2 :: l' =>
      match digit_val c1, digit_val c2 with
      | Some a, Some b =>
          if (a <? 16) && (b <? 16) then (a * 16 + b) :: hex_decode l' else []
      | _, _ => []
      end
  | _ => []
  end.

Definition bytes_to_Z (l : list Z) : Z := fold_left (fun n b => n * 256 + b) l 0.

(** [common.Address(s)] on a decoded slice: Go's slice-to-array conversion panics
    when the slice is shorter than the array and keeps the first twenty bytes of a
    longer one. *)
Definition address_of_hex (s : string) : outcome Z :=
  let b := hex_decode (bytes_of s) in
  if zlen b <? 20 then Panic "slice to array conversion" else Ret (bytes_to_Z (take 20 b)).

(** [stringToFixedByteArray]: [copy] keeps at most twenty bytes; the rest is 0. *)
Definition stringToFixedByteArray (s : string) : list Z :=
  let src := take 20 (map (fun c => Z.of_N (N_of_ascii c)) (bytes_of s)) in
  src ++ replicate (20 - length src) 0.

(** ** Constructors *)

(** Digests: [sha256.Sum256] of the gob encoding. Both are library code; the
    model only needs that they are functions of the value hashed. *)
Class Digest := {
  tx_digest : Transaction -> string
}.

Section Constructors.
Context `{Digest}.

Definition NewTransaction (sender recipient : string) (value nonce fee : Z) (tx_type : string)
  : Transaction :=
  let tx := mkTransaction sender recipient nonce "" value tx_type fee "" 0 false false false
              false false "" "" "" false false false 0 0 None 0 0 [] false false [] "" in
  tx_set_hash (tx_digest tx) tx.

(** The common body of the two contract-transaction constructors. *)
Definition contract_tx (now : Z) (sender recipient : string) (value nonce : Z) (bytes : list Z)
  (is_broker : bool) : outcome Transaction :=
  from ← address_of_hex sender;
  to ← (if decide (recipient = "") then Ret (bytes_to_Z (stringToFixedByteArray ""))
        else address_of_hex recipient);
  let tx := tx_set_contract to from [] false false
              (tx_set_time now
                (mkTransaction sender recipient nonce "" value "" 0 "" 0 false false false false
                   false "" "" "" false false false 0 0 None 0 0 [] false false [] "")) in
  Ret (tx_set_contract to from bytes true is_broker (tx_set_hash (tx_digest tx) tx)).

Definition NewTransactionContractBroker (now : Z) (sender recipient : string) (value nonce : Z)
  (bytes : list Z) : outcome Transaction :=
  contract_tx now sender recipient value nonce bytes true.

Definition NewTransactionContract (now : Z) (sender recipient : string) (value nonce : Z)
  (bytes : list Z) : outcome Transaction :=
  contract_tx now sender recipient value nonce bytes false.
End Constructors.

(** ** Blocks ([core/block.go]) *)

Record BlockHeader := mkBlockHeader {
  ParentBlockHash : string;
  StateRoot : string;
  TxRoot : string;
  Number : Z;
  HTime : Z;
  Miner : Z;
  ParentHash : string;
  Coinbase : Z;
  Root : string;
  GasLimit : Z
}.

Record Block := mkBlock { Header : BlockHeader; Body : list Transaction; Hash : string }.

Definition NewBlock (bh : BlockHeader) (bb : list Transaction) : Block := mkBlock bh bb "".

(** ** The transaction pool ([core/txpool.go]) *)

(** [RelayPool] is [None] when it is the nil map. *)
Record TxPool := mkTxPool {
  TxQueue : list Transaction;
  RelayPool : option (gmap Z (list Transaction))
}.

Definition NewTxPool : TxPool := mkTxPool [] (Some ∅).

(** [time.Now()] is read once per transaction whose time is not set: [clock i] is
    the reading for the [i]-th. *)
Definition stamp (now : Z) (tx : Transaction) : Transaction :=
  if Time tx =? 0 then tx_set_time now tx else tx.

Definition AddTx2Pool (now : Z) (p : TxPool) (tx : Transaction) : TxPool :=
  mkTxPool (TxQueue p ++ [stamp now tx]) (RelayPool p).

Definition AddTxs2Pool (clock : nat -> Z) (p : TxPool) (txs : list Transaction) : TxPool :=
  mkTxPool (TxQueue p ++ imap (fun i tx => stamp (clock i) tx) txs) (RelayPool p).

Definition AddTxs2Pool_Head (p : TxPool) (tx : list Transaction) : TxPool :=
  mkTxPool (tx ++ TxQueue p) (RelayPool p).

Definition PackTxs (p : TxPool) (max_txs : Z) : TxPool * list Transaction :=
  let txNum := if zlen (TxQueue p) <? max_txs then zlen (TxQueue p) else max_txs in
  (mkTxPool (drop (Z.to_nat txNum) (TxQueue p)) (RelayPool p), take (Z.to_nat txNum) (TxQueue p)).

(** Reading a nil map gives the zero value, writing to it panics. *)
Definition relay_slot (p : TxPool) (shardID : Z) : option (list Transaction) :=
  match RelayPool p with Some m => m !! shardID | None => None end.

Definition AddRelayTx (p : TxPool) (tx : Transaction) (shardID : Z) : outcome TxPool :=
  match RelayPool p with
  | None => Panic "assignment to entry in nil map"
  | Some m => Ret (mkTxPool (TxQueue p) (Some (<[shardID := default [] (m !! shardID) ++ [tx]]> m)))
  end.

Definition GetTxQueueLen (p : TxPool) : Z := zlen (TxQueue p).

Definition ClearRelayPool (p : TxPool) : TxPool := mkTxPool (TxQueue p) None.

Definition PackRelayTxs (p : TxPool) (shardID minRelaySize maxRelaySize : Z)
  : TxPool * option (list Transaction) :=
  match RelayPool p, relay_slot p shardID with
  | Some m, Some l =>
      if zlen l <? i64 minRelaySize then (p, None)
      else
        let txNum := if zlen l <? maxRelaySize then zlen l else maxRelaySize in
        (mkTxPool (TxQueue p) (Some (<[shardID := drop (Z.to_nat txNum) l]> m)),
         Some (take (Z.to_nat txNum) l))
  | _, _ => (p, None)
  end.

(** [TransferTxs] ranges over the relay map, in the order [order] of its keys
    that the run happens to take. *)
Definition is_from (addr : string) (tx : Transaction) : bool := bool_decide (Sender tx = addr).

Definition transferred (addr : string) (l : list Transaction) : list Transaction :=
  filter (fun tx => is_from addr tx = true) l.
Definition remaining (addr : string) (l : list Transaction) : list Transaction :=
  filter (fun tx => is_from addr tx = false) l.

Arguments transferred : simpl never.
Arguments remaining : simpl never.

(** The new relay map has an entry for a shard only once a transaction is kept
    in it. *)
Definition keep_slot (addr : string) (slot : Z * list Transaction)
  (m : gmap Z (list Transaction)) : gmap Z (list Transaction) :=
  match remaining addr (snd slot) with [] => m | k => <[fst slot := k]> m end.

Definition TransferTxs (order : list Z) (p : TxPool) (addr : string) : TxPool * list Transaction :=
  let slots := map (fun sid => (sid, default [] (relay_slot p sid))) order in
  let newRelayPool := foldr (keep_slot addr) ∅ slots in
  (mkTxPool (remaining addr (TxQueue p)) (Some newRelayPool),
   transferred addr (TxQueue p) ++ concat (map (fun slot => transferred addr (snd slot)) slots)).

(** ** Accounts: behaviour *)

Lemma Deduct_spec acc val :
  Deduct acc val = if decide (val <= as_Balance acc)
                   then (mkAccountState (as_Nonce acc) (as_Balance acc - val) (as_StorageRoot acc)
                           (as_CodeHash acc), true)
                   else (acc, false).
Proof.
  unfold Deduct. destruct (Z.ltb_spec (as_Balance acc) val); case_decide; by try lia.
Qed.

(** ** The pool conserves transactions *)

Definition relay_concat (m : gmap Z (list Transaction)) : list Transaction :=
  concat (map_to_list m).*2.

Definition relay_keys (p : TxPool) : list Z :=
  match RelayPool p with Some m => (map_to_list m).*1 | None => [] end.

(** Everything the pool holds. *)
Definition contents (p : TxPool) : list Transaction :=
  TxQueue p ++ match RelayPool p with Some m => relay_concat m | None => [] end.

Lemma relay_concat_insert m i l :
  relay_concat (<[i := l]> m) ≡ₚ l ++ relay_concat (delete i m).
Proof.
  unfold relay_concat. rewrite <- insert_delete_eq.
  rewrite map_to_list_insert by apply lookup_delete_eq. done.
Qed.

Lemma relay_concat_lookup m i :
  relay_concat m ≡ₚ default [] (m !! i) ++ relay_concat (delete i m).
Proof.
  destruct (m !! i) as [l |] eqn:E; cbn.
  - rewrite <- relay_concat_insert. rewrite insert_id; done.
  - rewrite delete_id; done.
Qed.

Lemma relay_concat_slots (m : gmap Z (list Transaction)) order :
  order ≡ₚ (map_to_list m).*1 ->
  concat (map (fun sid => default [] (m !! sid)) order) ≡ₚ relay_concat m.
Proof.
  intros ->. unfold relay_concat. apply reflexive_eq. f_equal.
  rewrite <- list_fmap_compose. apply list_fmap_ext. intros i [sid l] Hi; cbn.
  apply list_elem_of_lookup_2, elem_of_map_to_list in Hi. by rewrite Hi.
Qed.

Lemma transferred_remaining addr l : transferred addr l ++ remaining addr l ≡ₚ l.
Proof.
  unfold transferred, remaining. induction l as [| x l IH]; [done |]. rewrite !filter_cons.
  destruct (is_from addr x) eqn:E; repeat case_decide; try congruence; cbn.
  - by rewrite IH.
  - rewrite <- Permutation_middle. by rewrite IH.
Qed.

(** The fold of [TransferTxs] that rebuilds the relay map keeps exactly the kept
    transactions. *)
Lemma rebuild_relay addr (slots : list (Z * list Transaction)) :
  NoDup slots.*1 ->
  relay_concat (foldr (keep_slot addr) ∅ slots) ≡ₚ
    concat (map (fun slot => remaining addr (snd slot)) slots) /\
  (forall sid, is_Some (foldr (keep_slot addr) ∅ slots !! sid) -> sid ∈ slots.*1).
Proof.
  induction slots as [| [sid l] slots IH]; intros Hnd; cbn.
  - split; [done |]. intros sid [x Hx]. by rewrite lookup_empty in Hx.
  - cbn in Hnd. apply NoDup_cons in Hnd as [Hni Hnd]. destruct (IH Hnd) as [Hc Hd].
    set (m := foldr (keep_slot addr) ∅ slots) in *.
    assert (m !! sid = None) as Hm.
    { destruct (m !! sid) eqn:E; [| done]. exfalso. apply Hni, Hd. eauto. }
    unfold keep_slot; cbn. destruct (remaining addr l) as [| k ks].
    + split; [exact Hc |]. intros s Hs. right. by apply Hd.
    + split.
      * rewrite relay_concat_insert, delete_id by done. cbn. by rewrite Hc.
      * intros s. rewrite lookup_insert_is_Some. intros [-> | [_ Hs]]; [left | right; by apply Hd].
Qed.

(** The operations of the pool as a type, with what each takes in and hands out. *)
Inductive pool_op :=
| OpAdd (now : Z) (tx : Transaction)
| OpAddMany (clock : nat -> Z) (txs : list Transaction)
| OpHead (txs : list Transaction)
| OpPack (max_txs : Z)
| OpRelay (tx : Transaction) (shardID : Z)
| OpPackRelay (shardID minRelaySize maxRelaySize : Z)
| OpTransfer (order : list Z) (addr : string).

Definition pool_in (op : pool_op) : list Transaction :=
  match op with
  | OpAdd now tx => [stamp now tx]
  | OpAddMany clock txs => imap (fun i tx => stamp (clock i) tx) txs
  | OpHead txs => txs
  | OpRelay tx _ => [tx]
  | _ => []
  end.

Definition pool_step (p : TxPool) (op : pool_op) : outcome (TxPool * list Transaction) :=
  match op with
  | OpAdd now tx => Ret (AddTx2Pool now p tx, [])
  | OpAddMany clock txs => Ret (AddTxs2Pool clock p txs, [])
  | OpHead txs => Ret (AddTxs2Pool_Head p txs, [])
  | OpPack n => Ret (PackTxs p n)
  | OpRelay tx sid => p' ← AddRelayTx p tx sid; Ret (p', [])
  | OpPackRelay sid mn mx => let '(p', o) := PackRelayTxs p sid mn mx in Ret (p', default [] o)
  | OpTransfer order addr => Ret (TransferTxs order p addr)
  end.

(** The one side condition: a range over the relay map visits its keys. *)
Definition order_ok (p : TxPool) (op : pool_op) : Prop :=
  match op with OpTransfer order _ => order ≡ₚ relay_keys p | _ => True end.

Lemma transfer_split_slots addr (slots : list (Z * list Transaction)) :
  concat (map (fun slot => remaining addr (snd slot)) slots) ++
  concat (map (fun slot => transferred addr (snd slot)) slots) ≡ₚ concat (map snd slots).
Proof.
  induction slots as [| [sid l] sl IH]; cbn; [done |].
  rewrite <- IH. etransitivity; [| apply Permutation_app_tail, (transferred_remaining addr l)].
  solve_Permutation.
Qed.

Lemma transferred_sender addr l : Forall (fun tx => Sender tx = addr) (transferred addr l).
Proof.
  apply Forall_forall. intros tx Htx. apply list_elem_of_filter in Htx as [Htx _].
  unfold is_from in Htx. by apply bool_decide_eq_true in Htx.
Qed.

Lemma TransferTxs_conserves order p addr :
  order ≡ₚ relay_keys p ->
  contents (TransferTxs order p addr).1 ++ (TransferTxs order p addr).2 ≡ₚ contents p.
Proof.
  intros Hord. unfold TransferTxs, contents. cbn.
  set (slots := map (fun sid => (sid, default [] (relay_slot p sid))) order).
  assert (slots.*1 = order) as Hfst.
  { unfold slots. rewrite <- list_fmap_compose. cbn. apply list_fmap_id. }
  destruct (rebuild_relay addr slots) as [Hc _].
  { rewrite Hfst, Hord. unfold relay_keys.
    destruct (RelayPool p); [apply NoDup_fst_map_to_list | constructor]. }
  rewrite Hc. clear Hc.
  assert (concat (map snd slots) ≡ₚ match RelayPool p with Some m => relay_concat m | None => [] end) as Hs.
  { unfold slots. rewrite map_map. cbn. unfold relay_slot, relay_keys in *.
    destruct (RelayPool p) as [m |]; [by apply relay_concat_slots |].
    apply Permutation_nil_r in Hord. by subst order. }
  rewrite <- Hs, <- (transfer_split_slots addr).
  etransitivity; [| apply Permutation_app_tail, (transferred_remaining addr (TxQueue p))].
  solve_Permutation.
Qed.

Lemma TransferTxs_sender order p addr :
  Forall (fun tx => Sender tx = addr) (TransferTxs order p addr).2.
Proof.
  unfold TransferTxs; cbn. apply Forall_app. split; [apply transferred_sender |].
  induction order as [| sid o IH]; cbn; [constructor |].
  apply Forall_app. split; [apply transferred_sender | done].
Qed.

Lemma PackTxs_conserves p n :
  (PackTxs p n).2 ++ TxQueue (PackTxs p n).1 = TxQueue p /\ RelayPool (PackTxs p n).1 = RelayPool p.
Proof. unfold PackTxs; cbn. split; [apply take_drop | done]. Qed.

Lemma PackRelayTxs_conserves p sid mn mx :
  contents (PackRelayTxs p sid mn mx).1 ++ default [] (PackRelayTxs p sid mn mx).2 ≡ₚ contents p.
Proof.
  unfold PackRelayTxs, contents, relay_slot.
  destruct (RelayPool p) as [m |] eqn:Em; cbn; [| by rewrite Em, app_nil_r].
  destruct (m !! sid) as [l |] eqn:El; cbn; [| by rewrite Em, app_nil_r].
  destruct (zlen l <? i64 mn); cbn; [by rewrite Em, app_nil_r |].
  rewrite relay_concat_insert, (relay_concat_lookup m sid), El. cbn.
  set (n := Z.to_nat _). assert (l ≡ₚ take n l ++ drop n l) as Hl by (by rewrite take_drop).
  rewrite Hl at 3. solve_Permutation.
Qed.

Lemma pool_step_conserves p op p' out :
  order_ok p op -> pool_step p op = Ret (p', out) ->
  contents p' ++ out ≡ₚ contents p ++ pool_in op.
Proof.
  destruct op; cbn; intros Hord Hstep.
  - outcome_inv. unfold AddTx2Pool, contents; cbn. solve_Permutation.
  - outcome_inv. unfold AddTxs2Pool, contents; cbn. solve_Permutation.
  - outcome_inv. unfold AddTxs2Pool_Head, contents; cbn. solve_Permutation.
  - assert (PackTxs p max_txs = (p', out)) as Hp by congruence.
    destruct (PackTxs_conserves p max_txs) as [Hq Hr]. rewrite Hp in Hq, Hr. cbn in *.
    unfold contents. rewrite Hr, <- Hq. solve_Permutation.
  - outcome_inv. unfold AddRelayTx, contents in *. destruct (RelayPool p) as [m |]; [| done].
    outcome_inv. cbn. rewrite relay_concat_insert, (relay_concat_lookup m shardID) at 1.
    solve_Permutation.
  - pose proof (PackRelayTxs_conserves p shardID minRelaySize maxRelaySize) as Hc.
    destruct (PackRelayTxs _ _ _ _) as [q o]. injection Hstep as <- <-. cbn in Hc.
    by rewrite Hc, app_nil_r.
  - assert (TransferTxs order p addr = (p', out)) as Hp by congruence.
    pose proof (TransferTxs_conserves order p addr Hord) as Hc. rewrite Hp in Hc. cbn in Hc.
    by rewrite Hc, app_nil_r.
Qed.

(** A run of the pool: the operations performed and what they handed out. *)
Inductive pool_run : TxPool -> list pool_op -> TxPool -> list Transaction -> Prop :=
| run_nil p : pool_run p [] p []
| run_cons p op p1 out1 ops p2 out2 :
    order_ok p op -> pool_step p op = Ret (p1, out1) -> pool_run p1 ops p2 out2 ->
    pool_run p (op :: ops) p2 (out1 ++ out2).

(** C33: over any sequence of pool operations (adds at either end, packing a
    block, relaying, packing relays, re-sharding transfers), the transactions
    handed out together with those still held are, as a multiset, exactly the
    ones held at the start and those put in: none is lost and none is handed out
    twice. *)
Theorem pool_conserves p ops p' out :
  pool_run p ops p' out ->
  contents p' ++ out ≡ₚ contents p ++ concat (map pool_in ops).
Proof.
  induction 1 as [p | p op p1 out1 ops p2 out2 Hok Hstep _ IH]; cbn; [solve_Permutation |].
  apply pool_step_conserves in Hstep; [| done].
  rewrite app_assoc, (Permutation_app_comm (contents p2)), <- app_assoc, IH.
  rewrite app_assoc, (Permutation_app_comm out1), Hstep. solve_Permutation.
Qed.

Lemma pool_conserves_witness :
  exists p' out,
    contents p' ++ out ≡ₚ contents NewTxPool ++ concat (map pool_in
      [OpAddMany (fun _ => 7) [zero_tx; zero_tx]; OpRelay zero_tx 1; OpPack 1; OpTransfer [1] ""]).
Proof.
  eexists _, _. apply pool_conserves.
  eapply run_cons; [exact I | reflexivity |].
  eapply run_cons; [exact I | reflexivity |].
  eapply run_cons; [exact I | reflexivity |].
  eapply run_cons; [| reflexivity | apply run_nil].
  vm_compute. reflexivity.
Defined.

(** Packing a block takes the oldest transactions in arrival order, at most
    [max_txs] of them, and leaves the others queued in the same order. *)
Theorem PackTxs_fifo p max_txs :
  0 <= max_txs ->
  (PackTxs p max_txs).2 = take (Z.to_nat max_txs) (TxQueue p) /\
  TxQueue (PackTxs p max_txs).1 = drop (Z.to_nat max_txs) (TxQueue p) /\
  zlen (PackTxs p max_txs).2 = Z.min max_txs (GetTxQueueLen p).
Proof.
  intros Hm. unfold PackTxs, GetTxQueueLen; cbn.
  destruct (Z.ltb_spec (zlen (TxQueue p)) max_txs); unfold zlen in *.
  - rewrite Nat2Z.id, firstn_all, drop_all, take_ge, drop_ge by lia. repeat split; lia.
  - repeat split. rewrite length_take. lia.
Qed.

Lemma PackTxs_fifo_witness : zlen (PackTxs (mkTxPool [zero_tx; zero_tx; zero_tx] None) 2).2 = 2.
Proof.
  destruct (PackTxs_fifo (mkTxPool [zero_tx; zero_tx; zero_tx] None) 2) as (_ & _ & H); [lia |].
  exact H.
Defined.

(** Once [ClearRelayPool] has dropped the relay map, the next [AddRelayTx]
    panics (an assignment to a nil map), whatever the transaction and shard; only
    [TransferTxs] makes the pool usable for relaying again. *)
Theorem AddRelayTx_after_clear p tx shardID order addr :
  AddRelayTx (ClearRelayPool p) tx shardID = Panic "assignment to entry in nil map" /\
  returns (AddRelayTx (TransferTxs order (ClearRelayPool p) addr).1 tx shardID).
Proof. split; [reflexivity |]. eexists. reflexivity. Qed.
