(* ===== verification/Ledger.v ===== *)
(** * The token ledger of a shard

    Models the per-token balances a [chain.BlockChain] keeps beside the account
    trie: [BalanceMap], [changeAccBalance] and [dealAccountBalance] of
    [chain/blockchain.go], and the query that reads them,
    [handleAccQuery] of [pbftOutside_moduleBroker_forB2E.go]. *)
From Stdlib Require Import ZArith Lia.
From stdpp Require Import base gmap strings list fin_maps.
From S2P Require Import Prelude Utils JournalTypes Core.

(** Balances by token type, then by address. A missing inner map is Go's nil map;
    a missing address is an account that was never charged. *)
Abbreviation BalanceMap := (gmap string (gmap string Z)).

Section Ledger.
Context `{Config}.

(** The map [NewBlockChain] builds. *)
Definition new_balance_map : BalanceMap :=
  foldr (fun ty m => <[ty := ∅]> m) ∅ Transaction_Types.

Definition changeAccBalance (m : BalanceMap) (addr : string) (val : Z) (deal_type : bool)
  (tx_type : string) : outcome BalanceMap :=
  match m !! tx_type with
  | None => Panic "assignment to entry in nil map"
  | Some inner =>
      let b := default Init_Balance (inner !! addr) in
      Ret (<[tx_type := <[addr := if deal_type then b + val else b - val]> inner]> m)
  end.

Definition dealAccountBalance (m : BalanceMap) (tx : Transaction) : outcome BalanceMap :=
  if negb (ShouldHandleInBlock tx) then Ret m
  else if decide (Sender tx = Recipient tx) then
    if IncreaseOrDecrease tx =? 2 then changeAccBalance m (Sender tx) (Value tx) true (Txtype tx)
    else if IncreaseOrDecrease tx =? 1
         then changeAccBalance m (Sender tx) (Value tx) false (Txtype tx)
    else Ret m
  else
    m1 ← changeAccBalance m (Sender tx) (Value tx) false (Txtype tx);
    changeAccBalance m1 (Recipient tx) (Value tx) true (Txtype tx).

(** The balance [handleAccQuery] reports for an address of a shard. *)
Definition handleAccQuery (m : BalanceMap) (Addr TXType : string) : Z :=
  match m !! TXType ≫= (fun inner => inner !! Addr) with
  | None => Init_Balance
  | Some b => b
  end.

(** The ledger effect of a block body (the [dealAccountBalance] calls of
    [GetUpdateStatusTrie]). *)
Definition deal_block (m : BalanceMap) (txs : list Transaction) : outcome BalanceMap :=
  for_each dealAccountBalance m txs.

(** ** Specification *)

(** What a transaction is meant to change: the amount it adds to the balance of
    [a] in token [ty]. *)
Definition delta (tx : Transaction) (ty a : string) : Z :=
  if negb (ShouldHandleInBlock tx) then 0
  else if decide (ty = Txtype tx) then
    if decide (Sender tx = Recipient tx) then
      if decide (a = Sender tx) then
        (if IncreaseOrDecrease tx =? 2 then Value tx
         else if IncreaseOrDecrease tx =? 1 then - Value tx else 0)
      else 0
    else (if decide (a = Sender tx) then - Value tx else 0) +
         (if decide (a = Recipient tx) then Value tx else 0)
  else 0.

(** What it creates ([2]) or destroys ([1]) in its token. *)
Definition minted (tx : Transaction) : Z :=
  if ShouldHandleInBlock tx && bool_decide (Sender tx = Recipient tx) then
    if IncreaseOrDecrease tx =? 2 then Value tx
    else if IncreaseOrDecrease tx =? 1 then - Value tx else 0
  else 0.

(** Every token of the configuration has its inner map, as after
    [new_balance_map]. *)
Definition ledger_ok (m : BalanceMap) : Prop :=
  forall ty, ty ∈ Transaction_Types -> is_Some (m !! ty).

(** The supply of a token over a set of accounts. *)
Definition supply (m : BalanceMap) (ty : string) (accts : list string) : Z :=
  zsum_with (fun a => handleAccQuery m a ty) accts.

(** ** Lemmas *)

Lemma new_balance_map_ok : ledger_ok new_balance_map.
Proof.
  unfold ledger_ok, new_balance_map. induction Transaction_Types as [| t l IH]; intros ty Hty.
  - by apply not_elem_of_nil in Hty.
  - cbn. apply lookup_insert_is_Some'. apply elem_of_cons in Hty as [-> | Hty]; [by left | right; by apply IH].
Qed.

Lemma query_change (m : BalanceMap) inner addr val ty0 a ty :
  m !! ty0 = Some inner ->
  handleAccQuery (<[ty0 := <[addr := val]> inner]> m) a ty =
    if decide (ty = ty0 /\ a = addr) then val else handleAccQuery m a ty.
Proof.
  intros Hin. unfold handleAccQuery. rewrite lookup_insert.
  destruct (decide (ty0 = ty)) as [<- |]; cbn.
  - rewrite lookup_insert. destruct (decide (addr = a)) as [<- |].
    + rewrite decide_True by done. done.
    + rewrite decide_False by naive_solver. by rewrite Hin.
  - rewrite decide_False by naive_solver. done.
Qed.

(** [changeAccBalance] on a known token: the one balance moves by the amount and
    the known tokens stay known. *)
Lemma changeAccBalance_spec (m : BalanceMap) addr val up ty0 :
  is_Some (m !! ty0) ->
  exists m', changeAccBalance m addr val up ty0 = Ret m' /\
    (forall ty, is_Some (m !! ty) -> is_Some (m' !! ty)) /\
    (forall ty a, handleAccQuery m' a ty =
       handleAccQuery m a ty + (if decide (ty = ty0 /\ a = addr) then (if up then val else - val) else 0)).
Proof.
  intros [inner Hin]. unfold changeAccBalance. rewrite Hin. eexists. split; [done |]. split.
  - intros ty Hty. apply lookup_insert_is_Some'. by right.
  - intros ty a. rewrite (query_change m inner) by done. case_decide as Hd; [| lia].
    destruct Hd as [-> ->]. unfold handleAccQuery. rewrite Hin. cbn.
    destruct (inner !! addr), up; cbn; lia.
Qed.

Lemma dealAccountBalance_spec (m : BalanceMap) tx :
  ledger_ok m -> Txtype tx ∈ Transaction_Types ->
  exists m', dealAccountBalance m tx = Ret m' /\ ledger_ok m' /\
    forall ty a, handleAccQuery m' a ty = handleAccQuery m a ty + delta tx ty a.
Proof.
  intros Hok Hty. pose proof (Hok _ Hty) as Hin. unfold dealAccountBalance, delta.
  destruct (ShouldHandleInBlock tx); cbn; [| exists m; split_and!; [done.. | intros; lia]].
  destruct (decide (Sender tx = Recipient tx)) as [He | Hne].
  - destruct (IncreaseOrDecrease tx =? 2); [| destruct (IncreaseOrDecrease tx =? 1)].
    + destruct (changeAccBalance_spec m (Sender tx) (Value tx) true (Txtype tx) Hin) as (m' & -> & Hk & Hq).
      exists m'. split_and!; [done | intros t Ht; by apply Hk, Hok |].
      intros ty a. rewrite Hq. repeat case_decide; destruct_and?; subst; try lia; tauto.
    + destruct (changeAccBalance_spec m (Sender tx) (Value tx) false (Txtype tx) Hin) as (m' & -> & Hk & Hq).
      exists m'. split_and!; [done | intros t Ht; by apply Hk, Hok |].
      intros ty a. rewrite Hq. repeat case_decide; destruct_and?; subst; try lia; tauto.
    + exists m. split_and!; [done.. |]. intros ty a. repeat case_decide; lia.
  - destruct (changeAccBalance_spec m (Sender tx) (Value tx) false (Txtype tx) Hin) as (m1 & -> & Hk1 & Hq1).
    cbn. destruct (changeAccBalance_spec m1 (Recipient tx) (Value tx) true (Txtype tx)) as (m2 & -> & Hk2 & Hq2).
    { by apply Hk1. }
    exists m2. split_and!; [done | intros t Ht; by apply Hk2, Hk1, Hok |].
    intros ty a. rewrite Hq2, Hq1. repeat case_decide; destruct_and?; subst; try lia; tauto.
Qed.

Lemma zsum_point_indicator (a : string) v (l : list string) :
  NoDup l -> a ∈ l -> zsum_with (fun x => if decide (x = a) then v else 0) l = v.
Proof.
  intros Hnd Ha. rewrite (zsum_with_point _ (fun _ => 0) l a Hnd Ha).
  - rewrite decide_True by done.
    assert (zsum_with (fun _ : string => 0) l = 0) as ->; [| lia].
    clear. induction l; [done |]. rewrite zsum_with_cons. lia.
  - intros x _ Hx. by rewrite decide_False.
Qed.

Lemma delta_sum tx accts :
  NoDup accts -> Sender tx ∈ accts -> Recipient tx ∈ accts ->
  zsum_with (delta tx (Txtype tx)) accts = minted tx.
Proof.
  intros Hnd Hs Hr. unfold minted.
  destruct (ShouldHandleInBlock tx) eqn:Hb; cbn.
  - destruct (decide (Sender tx = Recipient tx)) as [He | Hne].
    + rewrite bool_decide_eq_true_2 by done.
      rewrite (zsum_with_ext _ (fun a => if decide (a = Sender tx) then
        (if IncreaseOrDecrease tx =? 2 then Value tx
         else if IncreaseOrDecrease tx =? 1 then - Value tx else 0) else 0)).
      { by apply zsum_point_indicator. }
      intros a _. unfold delta. rewrite Hb, !decide_True by done. done.
    + rewrite bool_decide_eq_false_2 by done.
      rewrite (zsum_with_ext _ (fun a => (if decide (a = Sender tx) then - Value tx else 0) +
                                         (if decide (a = Recipient tx) then Value tx else 0))).
      { rewrite zsum_with_add, !zsum_point_indicator by done. lia. }
      intros a _. unfold delta. rewrite Hb, decide_True, (decide_False (P := Sender tx = _)) by done. done.
  - rewrite (zsum_with_ext _ (fun _ => 0)); [| intros; unfold delta; by rewrite Hb].
    clear. induction accts; [done |]. rewrite zsum_with_cons. lia.
Qed.

Lemma delta_other tx ty accts : ty <> Txtype tx -> zsum_with (delta tx ty) accts = 0.
Proof.
  intros Hne. induction accts as [| a l IH]; [done |]. rewrite zsum_with_cons, IH.
  unfold delta. destruct (ShouldHandleInBlock tx); cbn; [| done]. by rewrite decide_False.
Qed.

(** ** Theorems *)

(** On a ledger that knows the token, applying a transaction returns (it never
    panics), keeps the ledger well formed, and changes every balance by exactly
    the specified amount: the sender of a transfer pays, the recipient receives,
    a self transaction marked 2 credits and marked 1 debits, and nothing else
    moves, in any token. *)
Theorem dealAccountBalance_effect (m : BalanceMap) tx :
  ledger_ok m -> Txtype tx ∈ Transaction_Types ->
  exists m', dealAccountBalance m tx = Ret m' /\ ledger_ok m' /\
    forall ty a, handleAccQuery m' a ty = handleAccQuery m a ty + delta tx ty a.
Proof. apply dealAccountBalance_spec. Qed.

(** C32: over a whole block, the supply of each token (over any set of accounts
    that contains the parties) changes by exactly what the block's marked self
    transactions create and destroy in that token: transfers conserve it. *)
Theorem deal_block_supply (m : BalanceMap) txs ty accts :
  ledger_ok m -> NoDup accts ->
  (forall tx, tx ∈ txs -> Txtype tx ∈ Transaction_Types /\ Sender tx ∈ accts /\ Recipient tx ∈ accts) ->
  exists m', deal_block m txs = Ret m' /\ ledger_ok m' /\
    supply m' ty accts =
    supply m ty accts + zsum_with (fun tx => if decide (ty = Txtype tx) then minted tx else 0) txs.
Proof.
  intros Hok Hnd. revert m Hok. unfold deal_block.
  induction txs as [| tx txs IH]; intros m Hok Hin; cbn [for_each].
  - exists m. split_and!; [done.. | rewrite zsum_with_nil; lia].
  - destruct (Hin tx) as (Hty & Hs & Hr); [left |].
    destruct (dealAccountBalance_spec m tx Hok Hty) as (m1 & -> & Hok1 & Hq). cbn.
    destruct (IH m1 Hok1) as (m2 & -> & Hok2 & Hs2); [intros; apply Hin; by right |].
    exists m2. split_and!; [done.. |]. rewrite Hs2, zsum_with_cons. unfold supply.
    rewrite (zsum_with_ext _ (fun a => handleAccQuery m a ty + delta tx ty a)) by (intros; apply Hq).
    rewrite zsum_with_add. case_decide as E.
    + rewrite E, delta_sum by done. lia.
    + rewrite delta_other by done. lia.
Qed.

(** A transaction whose token is unknown to the ledger panics the node when it
    is due in the block and would touch a balance. *)
Theorem dealAccountBalance_unknown_token (m : BalanceMap) tx :
  m !! Txtype tx = None -> ShouldHandleInBlock tx = true -> Sender tx <> Recipient tx ->
  dealAccountBalance m tx = Panic "assignment to entry in nil map".
Proof.
  intros Hm Hs Hne. unfold dealAccountBalance, changeAccBalance. rewrite Hs, decide_False by done.
  cbn. by rewrite Hm.
Qed.
End Ledger.

(** ** Witnesses *)

Definition transfer_tx (s r : string) (v : Z) (ty : string) : Transaction :=
  tx_set_inblock true 0
    (mkTransaction s r 0 "" v ty 0 "" 0 false false false false false "" "" "" false false false 0 0
       None 0 0 [] false false [] "").

Lemma dealAccountBalance_effect_witness :
  exists m', @dealAccountBalance default_config (@new_balance_map default_config)
               (transfer_tx "a" "b" 30 "BKC") = Ret m' /\
    @handleAccQuery default_config m' "b" "BKC" = 10030.
Proof.
  destruct (@dealAccountBalance_effect default_config (@new_balance_map default_config)
              (transfer_tx "a" "b" 30 "BKC")) as (m' & Hm & _ & Hq).
  - apply new_balance_map_ok.
  - left.
  - exists m'. split; [exact Hm |]. rewrite Hq. vm_compute. reflexivity.
Defined.

Lemma deal_block_supply_witness :
  exists m', @deal_block default_config (@new_balance_map default_config)
               [transfer_tx "a" "b" 30 "BKC"; transfer_tx "b" "a" 7 "BKC"] = Ret m' /\
    @supply default_config m' "BKC" ["a"; "b"] = 20000.
Proof.
  destruct (@deal_block_supply default_config (@new_balance_map default_config)
              [transfer_tx "a" "b" 30 "BKC"; transfer_tx "b" "a" 7 "BKC"] "BKC" ["a"; "b"])
    as (m' & Hm & _ & Hq).
  - apply new_balance_map_ok.
  - apply (bool_decide_unpack _). vm_compute. exact I.
  - intros tx Htx. repeat (apply elem_of_cons in Htx as [-> | Htx]); [| | by apply not_elem_of_nil in Htx];
      (split_and!; apply (bool_decide_unpack _); vm_compute; exact I).
  - exists m'. split; [exact Hm |]. rewrite Hq. vm_compute. reflexivity.
Defined.

Lemma dealAccountBalance_unknown_token_witness :
  @dealAccountBalance default_config (@new_balance_map default_config) (transfer_tx "a" "b" 30 "USD")
  = Panic "assignment to entry in nil map".
Proof.
  apply (@dealAccountBalance_unknown_token default_config); [vm_compute; reflexivity | reflexivity | discriminate].
Defined.
