(* ===== verification/Message.v ===== *)
(** * Messages and their framing

    Models [message/message.go], [message/message_broker.go] and
    [message/message_client.go] (the message structs, the type names and the
    30-byte type prefix), and the newline framing that [networks.TcpDial] writes
    and the connection handlers read back. *)
From Stdlib Require Import ZArith Lia Ascii.
From stdpp Require Import base gmap strings list.
From S2P Require Import Prelude Utils JournalTypes Core.

(** ** Message structs *)

(** [shard.Node] *)
Record Node := mkNode { nd_NodeID : Z; nd_ShardID : Z; IPaddr : string }.

#[export] Instance Node_eq_dec : EqDecision Node.
Proof. solve_decision. Defined.

(** [C] is the type of the encoded content ([RawMessage.Content]). *)
Record Request {C : Type} := mkRequest { RequestType : string; Content : C; ReqTime : Z }.
Arguments Request : clear implicits.
Arguments mkRequest {C} _ _ _.

Definition BlockRequest : string := "Block".

Record PrePrepare {C : Type} := mkPrePrepare { pp_RequestMsg : Request C; pp_Digest : string; pp_SeqID : Z }.
Arguments PrePrepare : clear implicits.
Arguments mkPrePrepare {C} _ _ _.

Record Prepare := mkPrepare { p_Digest : string; p_SeqID : Z; p_SenderNode : Node }.

Record Commit := mkCommit { c_Digest : string; c_SeqID : Z; c_SenderNode : Node }.

Record RequestOldMessage := mkRequestOld {
  ro_SeqStartHeight : Z;
  ro_SeqEndHeight : Z;
  ro_ServerNode : Node;
  ro_SenderNode : Node
}.

Record SendOldMessage {C : Type} := mkSendOld {
  so_SeqStartHeight : Z;
  so_SeqEndHeight : Z;
  so_OldRequest : list (Request C);
  so_SenderNode : Node
}.
Arguments SendOldMessage : clear implicits.
Arguments mkSendOld {C} _ _ _ _.

Record InjectTxs := mkInjectTxs { Txs : list Transaction; ToShardID : Z }.

Record BlockInfoMsg := mkBlockInfo {
  BlockBodyLength : Z;
  ExcutedTxs : list Transaction;
  Epoch : Z;
  ProposeTime : Z;
  CommitTime : Z;
  SenderShardID : Z;
  Relay1TxNum : Z;
  Relay1Txs : list Transaction;
  Broker1TxNum : Z;
  Broker1Txs : list Transaction;
  Broker2TxNum : Z;
  Broker2Txs : list Transaction;
  AllocatedTxs : list Transaction
}.

Record SeqIDinfo := mkSeqIDinfo { si_SenderShardID : Z; SenderSeq : Z }.

(** A [*core.Transaction] held by the broker code: the object's identity and its
    value. [difference] and [B2E_Rounding] key maps by the pointer. *)
Record TxPtr := mkTxPtr { ptr : positive; tval : Transaction }.

(** The fields the source marks [ignore] or [not implemented] are left out of the
    broker messages. *)
Record BrokerRawMeg := mkRawMeg { rm_Tx : TxPtr; rm_Broker : string }.

Record BrokerType1Meg := mkType1 { t1_RawMeg : BrokerRawMeg; t1_Broker : string }.

Record Mag1Confirm := mkConfirm1 { Tx1Hash : string; m1_RawMeg : BrokerRawMeg }.

Record BrokerType2Meg := mkType2 { t2_RawMeg : BrokerRawMeg; t2_Broker : string }.

Record Mag2Confirm := mkConfirm2 { Tx2Hash : string; m2_RawMeg : BrokerRawMeg }.

Record AccountBalanceQuery := mkBalQuery { q_Addr : string; q_TXType : string }.

Record AccountBalanceReply := mkBalReply { r_Addr : string; r_Balance : Z; r_TXType : string }.

(** ** Message types *)

Definition CPrePrepare : string := "preprepare".
Definition CPrepare : string := "prepare".
Definition CCommit : string := "commit".
Definition CRequestOldrequest : string := "requestOldrequest".
Definition CSendOldrequest : string := "sendOldrequest".
Definition CInject : string := "inject".
Definition CInjectHead : string := "injectHead".
Definition CBlockInfo : string := "BlockInfo".
Definition CSeqIDinfo : string := "SequenceID".
Definition DAccountBalanceQuery : string := "DAccBalQ".
Definition DAccountBalanceReply : string := "DAccBalR".

(** The constants of [message.go], [message_broker.go] and [message_client.go]. *)
Definition message_types : list string :=
  ["preprepare"; "prepare"; "commit"; "requestOldrequest"; "sendOldrequest"; "stop";
   "relay"; "inject"; "injectHead"; "BlockInfo"; "SequenceID"; "ContractCreate";
   "ContractExecute"; "QueryNodeAcc"; "ResNodeAcc"; "QueryAccount"; "ResAccount"; "NodeInfo";
   "TxInfo"; "OpBalanceReq"; "OpBalanceRes"; "OpDelCallReq"; "OpDelCallRes"; "OpCallcodeReq";
   "OpCallcodeRes"; "OpCallReq"; "OpCallRes"; "OpStaticCallReq"; "OpStaticCallRes";
   "OpExeLogOrRollback"; "OpCreateReq"; "OpCreateRes"; "QueryConResReq"; "QueryConResRes";
   "brokerRawTx"; "brokerConfirm1"; "brokerConfirm2"; "brokerType1"; "brokerType2";
   "InjectTx_Broker"; "BrokerTxMap"; "BrokerAS_transfer"; "innerShardTx_be_crossShard";
   "RequestAccountState"; "RequestAccountTransactions"; "AccountStateForClient";
   "AccountTransactionsForClient"; "DAccBalQ"; "DAccBalR"].

(** ** The type prefix *)

Definition prefixMSGtypeLen : nat := 30.
Definition NUL : ascii := "000"%char.
Definition LF : ascii := "010"%char.

(** Writing the [i]-th byte of a longer type name would be out of range. *)
Definition MergeMessage (msgType : string) (content : list ascii) : outcome (list ascii) :=
  let t := bytes_of msgType in
  if decide (length t <= prefixMSGtypeLen)%nat
  then Ret (t ++ replicate (prefixMSGtypeLen - length t) NUL ++ content)
  else Panic "index out of range".

Definition SplitMessage (message : list ascii) : outcome (string * list ascii) :=
  if decide (prefixMSGtypeLen <= length message)%nat
  then Ret (of_bytes (filter (fun v => v <> NUL) (take prefixMSGtypeLen message)),
            drop prefixMSGtypeLen message)
  else Panic "slice bounds out of range".

(** ** Framing on a connection *)

(** [TcpDial] writes the message followed by a newline. *)
Definition TcpDial_bytes (context : list ascii) : list ascii := context ++ [LF].

(** The reading side ([handleClientRequest]): [ReadBytes('\n')] in a loop; each
    message is passed on with its newline, and a trailing partial line is not a
    message. *)
Fixpoint ReadMessages (acc : list ascii) (stream : list ascii) : list (list ascii) :=
  match stream with
  | [] => []
  | c :: rest =>
      if decide (c = LF) then (acc ++ [c]) :: ReadMessages [] rest
      else ReadMessages (acc ++ [c]) rest
  end.

(** ** Lemmas *)

(** A type name that fits the prefix and contains no NUL byte. *)
Definition type_ok (t : string) : bool :=
  bool_decide (length (bytes_of t) <= prefixMSGtypeLen)%nat &&
  forallb (fun c => bool_decide (c <> NUL)) (bytes_of t).

Lemma filter_no_NUL l n :
  forallb (fun c => bool_decide (c <> NUL)) l = true ->
  filter (fun v => v <> NUL) (l ++ replicate n NUL) = l.
Proof.
  intros Hl. rewrite filter_app.
  assert (filter (fun v => v <> NUL) (replicate n NUL) = []) as ->.
  { induction n as [| n IH]; [done |]. rewrite replicate_S, filter_cons, decide_False by tauto. done. }
  rewrite app_nil_r. induction l as [| c l IH]; [done |].
  cbn in Hl. apply andb_true_iff in Hl as [Hc Hl]. apply bool_decide_eq_true in Hc.
  rewrite filter_cons, decide_True by done. by rewrite IH.
Qed.

Lemma ReadMessages_line acc m rest :
  LF ∉ m -> ReadMessages acc (m ++ LF :: rest) = (acc ++ m ++ [LF]) :: ReadMessages [] rest.
Proof.
  revert acc. induction m as [| c m IH]; intros acc Hm; cbn.
  - done.
  - apply not_elem_of_cons in Hm as [Hc Hm]. rewrite decide_False by done.
    rewrite IH by done. by rewrite <- app_assoc.
Qed.

(** Newline framing delivers every message once and in order: if no message contains a newline byte, the reader of a
    connection recovers exactly the messages written to it, each with its terminating newline. *)
Lemma ReadMessages_frames msgs :
  Forall (fun m => LF ∉ m) msgs -> ReadMessages [] (concat (map TcpDial_bytes msgs)) = map TcpDial_bytes msgs.
Proof.
  induction 1 as [| m msgs Hm _ IH]; [done |]. cbn.
  unfold TcpDial_bytes at 1. rewrite <- app_assoc. cbn.
  rewrite ReadMessages_line by done. by rewrite IH.
Qed.

(** ** Theorems *)

(** The wire format round-trips: for a type name of at most 30 bytes without a
    NUL byte, [MergeMessage] returns and [SplitMessage] recovers the type and the
    content unchanged, whatever bytes the content holds. *)
Theorem merge_split_roundtrip t content :
  type_ok t = true ->
  exists m, MergeMessage t content = Ret m /\ SplitMessage m = Ret (t, content).
Proof.
  intros Ht. apply andb_true_iff in Ht as [Hlen Hnul]. apply bool_decide_eq_true in Hlen.
  unfold MergeMessage. rewrite decide_True by done. eexists. split; [done |].
  set (pre := bytes_of t ++ replicate (prefixMSGtypeLen - length (bytes_of t)) NUL).
  assert (length pre = prefixMSGtypeLen) as Hpre
    by (unfold pre; rewrite length_app, length_replicate; lia).
  rewrite app_assoc. fold pre. unfold SplitMessage.
  rewrite decide_True by (rewrite length_app; lia).
  rewrite take_app_length', drop_app_length' by done.
  unfold pre. by rewrite filter_no_NUL, of_bytes_of.
Qed.

(** The type names the program declares all fit the prefix, contain no NUL
    byte and are pairwise distinct, so a received message is dispatched to the
    handler of the type it was sent with. *)
Theorem message_types_dispatch :
  forallb type_ok message_types = true /\ NoDup message_types.
Proof. split; [vm_compute; reflexivity |]. apply (bool_decide_unpack _). vm_compute. exact I. Qed.

Lemma merge_split_roundtrip_witness :
  exists m, MergeMessage CInject ["{"%char; "000"%char; "}"%char] = Ret m /\
    SplitMessage m = Ret (CInject, ["{"%char; "000"%char; "}"%char]).
Proof. apply merge_split_roundtrip. vm_compute. reflexivity. Defined.
