(* ===== verification/Network.v ===== *)
(** * Connections between the processes

    Models [networks/p2pNetwork.go]: the pool of outgoing connections that [TcpDial] keeps, [Broadcast],
    [CloseAllConnInPool], and the loop [ReadFromConn] runs on what comes back over such a connection.

    [TcpDial] holds the lock of the pool for its whole body, so calls happen one after the other. A call meets the
    operating system in three places, and [sys] is what it answers there. *)
From Stdlib Require Import ZArith Lia Ascii.
From stdpp Require Import base gmap strings list fin_maps.
From S2P Require Import Prelude Utils JournalTypes Core Message.

(** Whether [SetKeepAlive] works on the connection of the pool, which connection [net.Dial] gives, and whether [Write]
    works. Connections are numbered. *)
Record sys := mkSysAnswer { keeps_alive : bool; dialed : option Z; writes : bool }.

(** The pool, and the bytes written to each connection so far. *)
Record Net := mkNet { connectionPool : gmap string Z; streams : gmap Z (list ascii) }.

Definition new_net : Net := mkNet ∅ ∅.

Definition stream (n : Net) (c : Z) : list ascii := default [] (streams n !! c).

Definition write_conn (s : sys) (c : Z) (b : list ascii) (n : Net) : Net :=
  if writes s then mkNet (connectionPool n) (<[c := stream n c ++ b]> (streams n)) else n.

(** Dial, put the connection into the pool, then write; an error of the dial ends the call. *)
Definition dial_and_write (s : sys) (addr : string) (b : list ascii) (n : Net) : Net :=
  match dialed s with
  | None => n
  | Some c => write_conn s c b (mkNet (<[addr := c]> (connectionPool n)) (streams n))
  end.

Definition TcpDial (s : sys) (context : list ascii) (addr : string) (n : Net) : Net :=
  let b := TcpDial_bytes context in
  match connectionPool n !! addr with
  | Some c =>
      if keeps_alive s then write_conn s c b n
      else dial_and_write s addr b (mkNet (delete addr (connectionPool n)) (streams n))
  | None => dial_and_write s addr b n
  end.

(** The calls that [Broadcast] starts, one goroutine each. *)
Definition Broadcast (sender : string) (receivers : list string) (msg : list ascii) : list (list ascii * string) :=
  map (fun ip => (msg, ip)) (filter (fun ip => ip <> sender) receivers).

Definition CloseAllConnInPool (n : Net) : Net := mkNet ∅ (streams n).

(** ** Reading *)

(** [buffer.ReadBytes] with a newline as delimiter: up to and with the first one, or all there is and [io.EOF]. *)
Fixpoint read_line (l : list ascii) : list ascii * list ascii * bool :=
  match l with
  | [] => ([], [], true)
  | c :: l => if decide (c = LF) then ([c], l, false) else let '(m, rest, eof) := read_line l in (c :: m, rest, eof)
  end.

(** [readMessage]: the end of the buffer is no error. The outcome is the message, what is left, and the error. *)
Definition readMessage (buffer : list ascii) : list ascii * list ascii * option string :=
  let '(m, rest, _) := read_line buffer in (m, rest, None).

(** The inner loop of [ReadFromConn] on what the buffer holds: it ends when an error comes. The result is what it
    logged, with what is left, or nothing when it has not ended within [turns]. *)
Fixpoint handle_full_messages (turns : nat) (buffer : list ascii) (logged : list (list ascii)) : option (list (list ascii) * list ascii) :=
  match turns with
  | O => None
  | S turns =>
      match readMessage buffer with
      | (_, rest, Some _) => Some (logged, rest)
      | (m, rest, None) => handle_full_messages turns rest (logged ++ [m])
      end
  end.

(** ** Theorems *)

(** A call: what it sends where, and what the system answers. *)
Record call := mkCall { c_sys : sys; c_msg : list ascii; c_addr : string }.

Definition net_run (n : Net) (l : list call) : Net := foldl (fun n c => TcpDial (c_sys c) (c_msg c) (c_addr c) n) n l.

Definition sent_to (addr : string) (l : list call) : list (list ascii) := map c_msg (filter (fun c => c_addr c = addr) l).

(** The system works: connections stay up, a dial gives a connection no one has, and writes succeed. *)
Definition works (n : Net) (c : call) : Prop :=
  keeps_alive (c_sys c) = true /\ writes (c_sys c) = true /\
  exists k, dialed (c_sys c) = Some k /\ streams n !! k = None /\ forall a, connectionPool n !! a <> Some k.

Fixpoint all_work (n : Net) (l : list call) : Prop :=
  match l with [] => True | c :: l => works n c /\ all_work (TcpDial (c_sys c) (c_msg c) (c_addr c) n) l end.

(** The connection of each address carries what was sent there, and no two addresses share one. *)
Definition carries (n : Net) (sent : string -> list (list ascii)) : Prop :=
  (forall a c, connectionPool n !! a = Some c -> stream n c = concat (map TcpDial_bytes (sent a))) /\
  (forall a, connectionPool n !! a = None -> sent a = []) /\
  (forall a b c, connectionPool n !! a = Some c -> connectionPool n !! b = Some c -> a = b).

Lemma stream_write s c b n k : writes s = true -> stream (write_conn s c b n) k = if decide (k = c) then stream n c ++ b else stream n k.
Proof.
  intros Hw. unfold write_conn, stream. rewrite Hw. cbn. destruct (decide (k = c)) as [-> | Hne]; [by rewrite lookup_insert_eq |].
  by rewrite lookup_insert_ne.
Qed.

Lemma concat_snoc (l : list (list ascii)) m : concat (map TcpDial_bytes (l ++ [m])) = concat (map TcpDial_bytes l) ++ TcpDial_bytes m.
Proof. rewrite map_app, concat_app. cbn. by rewrite app_nil_r. Qed.

Lemma TcpDial_carries n sent c : carries n sent -> works n c ->
  carries (TcpDial (c_sys c) (c_msg c) (c_addr c) n) (fun a => if decide (a = c_addr c) then sent a ++ [c_msg c] else sent a).
Proof.
  intros (H1 & H2 & H3) (Hk & Hw & k & Hd & Hs & Hfree). unfold TcpDial. destruct (connectionPool n !! c_addr c) as [c0 |] eqn:E.
  - rewrite Hk. assert (connectionPool (write_conn (c_sys c) c0 (TcpDial_bytes (c_msg c)) n) = connectionPool n) as Hp
      by (unfold write_conn; by destruct (writes (c_sys c))).
    split_and!; rewrite ?Hp.
    + intros a x Ha. rewrite stream_write by done. destruct (decide (a = c_addr c)) as [-> | Hne].
      * rewrite E in Ha. injection Ha as <-. rewrite decide_True, concat_snoc by done. by rewrite (H1 _ _ E).
      * rewrite decide_False by (intros ->; eauto). by apply H1.
    + intros a Ha. rewrite decide_False by congruence. by apply H2.
    + done.
  - unfold dial_and_write. rewrite Hd. set (n1 := mkNet _ _).
    assert (connectionPool (write_conn (c_sys c) k (TcpDial_bytes (c_msg c)) n1) = <[c_addr c := k]> (connectionPool n)) as Hp
      by (unfold write_conn; by destruct (writes (c_sys c))).
    split_and!; rewrite ?Hp.
    + intros a x Ha. rewrite stream_write by done. destruct (decide (a = c_addr c)) as [-> | Hne].
      * rewrite lookup_insert_eq in Ha. injection Ha as <-. rewrite decide_True, concat_snoc, (H2 _ E) by done. unfold stream. cbn. by rewrite Hs.
      * rewrite lookup_insert_ne in Ha by done. rewrite decide_False by (intros ->; by eapply Hfree). by apply H1.
    + intros a Ha. destruct (decide (a = c_addr c)) as [-> | Hne]; [by rewrite lookup_insert_eq in Ha |].
      rewrite lookup_insert_ne in Ha by done. by apply H2.
    + intros a b x Ha Hb. destruct (decide (a = c_addr c)) as [-> | Hna], (decide (b = c_addr c)) as [-> | Hnb];
        rewrite ?lookup_insert_eq, ?lookup_insert_ne in * by done; try done; [injection Ha as <- | injection Hb as <- |];
        [by apply Hfree in Hb | by apply Hfree in Ha | eauto].
Qed.

Lemma net_run_carries l : forall n sent, carries n sent -> all_work n l -> carries (net_run n l) (fun a => sent a ++ sent_to a l).
Proof.
  induction l as [| c l IH]; intros n sent Hc Hw; cbn [net_run foldl].
  - destruct Hc as (H1 & H2 & H3). unfold sent_to. cbn. split_and!; [intros a x Ha; rewrite app_nil_r; by apply H1 | intros a Ha; by rewrite H2 | done].
  - destruct Hw as [Hw Hl]. pose proof (IH _ _ (TcpDial_carries _ _ _ Hc Hw) Hl) as (H1 & H2 & H3).
    assert (forall a, (if decide (a = c_addr c) then sent a ++ [c_msg c] else sent a) ++ sent_to a l = sent a ++ sent_to a (c :: l)) as Hs.
    { intros a. unfold sent_to. rewrite filter_cons. destruct (decide (a = c_addr c)) as [-> | Hne]; [rewrite decide_True by done; cbn; by rewrite <- app_assoc |].
      by rewrite decide_False by congruence. }
    split_and!; [intros a x Ha; rewrite <- Hs; by apply H1 | intros a Ha; rewrite <- Hs; by apply H2 | done].
Qed.

(** C22: the network delivers. While connections stay up, whatever calls of [TcpDial] are made, to whatever addresses and
    in whatever order, there is one connection for each address sent to; and if no message contains a newline, the process
    that reads it takes from it exactly the messages sent to that address, each once, in the order of the calls. *)
Theorem network_delivers l addr : all_work new_net l -> Forall (fun c => LF ∉ c_msg c) l -> sent_to addr l <> [] ->
  exists c, connectionPool (net_run new_net l) !! addr = Some c /\
    ReadMessages [] (stream (net_run new_net l) c) = map TcpDial_bytes (sent_to addr l).
Proof.
  intros Hw Hlf Hne. assert (carries new_net (fun _ => [])) as H0 by (split_and!; intros; cbn in *; rewrite ?lookup_empty in *; done).
  destruct (net_run_carries l new_net _ H0 Hw) as (H1 & H2 & _). cbn [app] in *.
  destruct (connectionPool (net_run new_net l) !! addr) as [c |] eqn:E; [| by apply H2 in E]. exists c. split; [done |].
  rewrite (H1 _ _ E). apply ReadMessages_frames. unfold sent_to. apply Forall_map, Forall_forall.
  intros x [_ Hx]%list_elem_of_filter. rewrite Forall_forall in Hlf. by apply Hlf.
Qed.

(** A connection that broke is used for ever: after a write that failed the pool is what it was, so while the socket
    still accepts its options, no later message to that address is delivered either. *)
Theorem write_error_sticks n addr c l : connectionPool n !! addr = Some c ->
  Forall (fun x => c_addr x = addr /\ keeps_alive (c_sys x) = true /\ writes (c_sys x) = false) l -> net_run n l = n.
Proof.
  intros Hc. induction 1 as [| x l (Ha & Hk & Hw) _ IH]; [done |]. cbn [net_run foldl]. unfold TcpDial. rewrite Ha, Hc, Hk.
  unfold write_conn. rewrite Hw. exact IH.
Qed.

(** The loop that logs what comes back never ends: [readMessage] turns the end of the buffer into an empty message, and
    the loop waits for an error that [ReadBytes] does not give. One byte received on an outgoing connection keeps its
    goroutine busy for ever. *)
Theorem read_loop_never_ends turns : forall buffer logged, handle_full_messages turns buffer logged = None.
Proof.
  induction turns as [| turns IH]; intros buffer logged; [done |]. cbn [handle_full_messages]. unfold readMessage.
  destruct (read_line buffer) as [[m rest] eof]. apply IH.
Qed.

(** A broadcast reaches every receiver but the sender, once for each time it is listed. *)
Theorem broadcast_targets sender receivers msg a :
  length (filter (fun x => x = (msg, a)) (Broadcast sender receivers msg)) =
    if decide (a = sender) then 0%nat else length (filter (fun r => r = a) receivers).
Proof.
  unfold Broadcast. induction receivers as [| r rs IH]; cbn [filter map]; [by case_decide |]. rewrite !filter_cons.
  destruct (decide (r = sender)) as [-> | Hr].
  - rewrite decide_False by tauto. rewrite IH. destruct (decide (a = sender)) as [-> | Hne]; [done |]. destruct (decide (sender = a)); [congruence | done].
  - rewrite decide_True by done. cbn [map]. rewrite filter_cons. destruct (decide (r = a)) as [-> | Hne].
    + rewrite (decide_True (P := (msg, a) = (msg, a))) by done. cbn [length]. rewrite IH. destruct (decide (a = sender)); [congruence | done].
    + rewrite (decide_False (P := (msg, r) = (msg, a))) by congruence. exact IH.
Qed.

(** Two addresses, sent to in turn. *)
Module NetworkExample.

Definition up (c : Z) : sys := mkSysAnswer true (Some c) true.
Definition sample_calls : list call :=
  [mkCall (up 1) (bytes_of "prepare{}") "127.0.0.1:28800"; mkCall (up 2) (bytes_of "commit{}") "127.0.0.1:28801";
   mkCall (up 3) (bytes_of "commit{}") "127.0.0.1:28800"].

Lemma network_delivers_witness : exists c, connectionPool (net_run new_net sample_calls) !! "127.0.0.1:28800" = Some c /\
  ReadMessages [] (stream (net_run new_net sample_calls) c) = [bytes_of "prepare{}" ++ [LF]; bytes_of "commit{}" ++ [LF]].
Proof.
  assert (all_work new_net sample_calls) as Hw.
  { assert (forall (m : gmap string Z) k, forallb (fun x => negb (x.2 =? k)) (map_to_list m) = true -> forall a, m !! a <> Some k) as Hfree.
    { intros m k Hm a Ha. rewrite forallb_forall in Hm. apply elem_of_map_to_list, list_elem_of_In in Ha. specialize (Hm _ Ha). cbn in Hm.
      by rewrite Z.eqb_refl in Hm. }
    repeat split; (eexists; split_and!; [reflexivity | vm_compute; reflexivity | apply Hfree; vm_compute; reflexivity]). }
  apply (network_delivers sample_calls "127.0.0.1:28800" Hw).
  - repeat constructor; apply (bool_decide_unpack _); vm_compute; exact Logic.I.
  - vm_compute. discriminate.
Defined.

End NetworkExample.
