(* ===== verification/Floats.v ===== *)
(** * Floating point

    Go's [float64] and [big.Float] as executable IEEE arithmetic: Rocq's
    [SpecFloat], round to nearest even, with the precision of each value carried
    beside it for [big.Float]. [float64] expressions are evaluated operation by
    operation, without fused multiply-add (the amd64 target). *)
From Stdlib Require Import ZArith Lia.
From Stdlib Require Export SpecFloat.
From S2P Require Import Prelude.

(** ** [float64] *)

Abbreviation f64 := spec_float.

Definition f64_of_Z (z : Z) : f64 := binary_normalize 53 1024 z 0 false.
(** The double nearest to [m * 2^e]: float literals. *)
Definition f64_lit (m e : Z) : f64 := binary_normalize 53 1024 m e false.
Definition f64_add (x y : f64) : f64 := SFadd 53 1024 x y.
Definition f64_sub (x y : f64) : f64 := SFsub 53 1024 x y.
Definition f64_mul (x y : f64) : f64 := SFmul 53 1024 x y.
Definition f64_div (x y : f64) : f64 := SFdiv 53 1024 x y.
Definition f64_ltb (x y : f64) : bool := SFltb x y.
Definition f64_leb (x y : f64) : bool := SFleb x y.

(** ** [big.Float] *)

Record bigFloat := mkBigFloat { bf_prec : Z; bf_val : spec_float }.

(** Exponents of [big.Float] range over [int32]. *)
Definition bf_emax : Z := 2 ^ 31.

Definition bitLen (z : Z) : Z := if z =? 0 then 0 else Z.log2 (Z.abs z) + 1.

(** [new(big.Float).SetInt(x)]: the precision is the larger of 64 and the bit
    length, so the conversion is exact. *)
Definition bf_SetInt (x : Z) : bigFloat :=
  let p := Z.max (bitLen x) 64 in mkBigFloat p (binary_normalize p bf_emax x 0 false).

Definition bf_SetInt64 (x : Z) : bigFloat := mkBigFloat 64 (binary_normalize 64 bf_emax x 0 false).

(** [big.NewFloat(x)] *)
Definition bf_NewFloat (x : f64) : bigFloat := mkBigFloat 53 x.

(** [z.Add(x, y)] and the like for a receiver of precision [p]; a receiver of
    precision 0 takes the larger precision of the operands. *)
Definition bf_round (p : Z) (x y : bigFloat) : Z :=
  if p =? 0 then Z.max (bf_prec x) (bf_prec y) else p.

Definition bf_Add (p : Z) (x y : bigFloat) : bigFloat :=
  let q := bf_round p x y in mkBigFloat q (SFadd q bf_emax (bf_val x) (bf_val y)).
Definition bf_Mul (p : Z) (x y : bigFloat) : bigFloat :=
  let q := bf_round p x y in mkBigFloat q (SFmul q bf_emax (bf_val x) (bf_val y)).
Definition bf_Quo (p : Z) (x y : bigFloat) : bigFloat :=
  let q := bf_round p x y in mkBigFloat q (SFdiv q bf_emax (bf_val x) (bf_val y)).

(** A finite value as [mantissa * 2^exponent]. *)
Definition sf_parts (x : spec_float) : Z * Z :=
  match x with
  | S754_finite s m e => (if s then Z.neg m else Z.pos m, e)
  | _ => (0, 0)
  end.

(** [x.Cmp(y)] on finite values: exact comparison. *)
Definition bf_Cmp (x y : bigFloat) : comparison :=
  let '(m1, e1) := sf_parts (bf_val x) in
  let '(m2, e2) := sf_parts (bf_val y) in
  let e := Z.min e1 e2 in
  Z.compare (m1 * 2 ^ (e1 - e)) (m2 * 2 ^ (e2 - e)).

(** [x.Float64()] *)
Definition bf_Float64 (x : bigFloat) : f64 :=
  match bf_val x with
  | S754_finite s m e => binary_normalize 53 1024 (if s then Z.neg m else Z.pos m) e s
  | v => v
  end.

(** [uint64(f)] of a finite non-negative [float64]: truncation. (Go leaves values
    outside the range of the type to the implementation; the residue is what the
    model returns there.) *)
Definition f64_to_u64 (x : f64) : Z :=
  let '(m, e) := sf_parts x in
  u64 (if 0 <=? e then m * 2 ^ e else Z.quot m (2 ^ (- e))).
