(* ===== verification/Partition.v ===== *)
(** * The account graph and its partition into shards

    Models [partition/graph.go] and [partition/partition_CLPA.go]: the graph of accounts
    and transactions, the tables the label propagation keeps ([Edges2Shard],
    [CrossShardEdgeNum], [MinEdges2Shard], [VertexsNumInShard]), their computation from
    scratch ([ComputeEdges2Shard]) and after one move ([changeShardRecompute]), the
    initial partitions and the algorithm itself ([CLPA_Partition]).

    A vertex is its address. The counters are plain integers: they are bounded by the
    number of vertices and edges in memory. The order of a range over a map is an
    argument. [CopyCLPA] and the printing functions are left out. *)
From Stdlib Require Import ZArith Lia.
From stdpp Require Import base gmap strings list fin_maps fin_sets.
From S2P Require Import Prelude Utils Floats.

(** ** The graph ([graph.go]) *)

Abbreviation Vertex := string.

Record Graph := mkGraph {
  VertexSet : gset Vertex;
  EdgeSet : gmap Vertex (list Vertex)
}.

Definition graph_AddVertex (g : Graph) (v : Vertex) : Graph := mkGraph ({[v]} ∪ VertexSet g) (EdgeSet g).

(** [g.EdgeSet[u] = append(g.EdgeSet[u], v)] *)
Definition append_edge (m : gmap Vertex (list Vertex)) (u v : Vertex) : gmap Vertex (list Vertex) :=
  <[u := default [] (m !! u) ++ [v]]> m.

Definition graph_AddEdge (g : Graph) (u v : Vertex) : Graph :=
  let g1 := if decide (u ∈ VertexSet g) then g else graph_AddVertex g u in
  let g2 := if decide (v ∈ VertexSet g1) then g1 else graph_AddVertex g1 v in
  mkGraph (VertexSet g2) (append_edge (append_edge (EdgeSet g2) u v) v u).

(** ** The state ([CLPAState]) *)

Record CLPAState := mkCLPA {
  NetGraph : Graph;
  PartitionMap : gmap Vertex Z;
  Edges2Shard : list Z;
  VertexsNumInShard : list Z;
  WeightPenalty : f64;
  MinEdges2Shard : Z;
  MaxIterations : Z;
  CrossShardEdgeNum : Z;
  cs_ShardNum : Z
}.

(** [math.MaxInt] *)
Definition MaxInt : Z := 2 ^ 63 - 1.

(** A missing entry of [PartitionMap] reads as shard 0, a missing adjacency list as
    empty. *)
Definition shard_at (cs : CLPAState) (v : Vertex) : Z := default 0 (PartitionMap cs !! v).
Definition neighbours (cs : CLPAState) (v : Vertex) : list Vertex := default [] (EdgeSet (NetGraph cs) !! v).

(** [l[i] += d] *)
Definition add_at (l : list Z) (i d : Z) : outcome (list Z) := x ← idx l i; set_idx l i (x + d).

Definition with_graph (g : Graph) (cs : CLPAState) : CLPAState :=
  mkCLPA g (PartitionMap cs) (Edges2Shard cs) (VertexsNumInShard cs) (WeightPenalty cs) (MinEdges2Shard cs)
    (MaxIterations cs) (CrossShardEdgeNum cs) (cs_ShardNum cs).
Definition with_partition (pm : gmap Vertex Z) (vn : list Z) (cs : CLPAState) : CLPAState :=
  mkCLPA (NetGraph cs) pm (Edges2Shard cs) vn (WeightPenalty cs) (MinEdges2Shard cs)
    (MaxIterations cs) (CrossShardEdgeNum cs) (cs_ShardNum cs).
Definition with_edges (e2s : list Z) (least cross : Z) (cs : CLPAState) : CLPAState :=
  mkCLPA (NetGraph cs) (PartitionMap cs) e2s (VertexsNumInShard cs) (WeightPenalty cs) least
    (MaxIterations cs) cross (cs_ShardNum cs).

(** [make([]int, n)] *)
Definition make_ints (n : Z) : outcome (list Z) :=
  if n <? 0 then Panic "makeslice: len out of range" else Ret (replicate (Z.to_nat n) 0).

(** [Init_CLPAState] on a new state: the graph is still empty. *)
Definition Init_CLPAState (wp : f64) (mIter sn : Z) : outcome CLPAState :=
  vn ← make_ints sn;
  Ret (mkCLPA (mkGraph ∅ ∅) ∅ [] vn wp 0 mIter 0 sn).

Section CLPA.
Context `{cfg : Config}.

Definition cs_AddVertex (cs : CLPAState) (v : Vertex) : outcome CLPAState :=
  let cs1 := with_graph (graph_AddVertex (NetGraph cs) v) cs in
  k ← (match PartitionMap cs !! v with Some val => Ret val | None => Addr2Shard v end);
  vn ← add_at (VertexsNumInShard cs) k 1;
  Ret (with_partition (<[v := k]> (PartitionMap cs)) vn cs1).

Definition cs_AddEdge (cs : CLPAState) (u v : Vertex) : outcome CLPAState :=
  cs1 ← (if decide (u ∈ VertexSet (NetGraph cs)) then Ret cs else cs_AddVertex cs u);
  cs2 ← (if decide (v ∈ VertexSet (NetGraph cs1)) then Ret cs1 else cs_AddVertex cs1 v);
  Ret (with_graph (graph_AddEdge (NetGraph cs2) u v) cs2).

Definition EraseEdges (cs : CLPAState) : CLPAState := with_graph (mkGraph (VertexSet (NetGraph cs)) ∅) cs.
End CLPA.

(** ** [ComputeEdges2Shard] *)

(** One directed edge: the shard it enters, or the shard it stays in. *)
Definition count_edge (cs : CLPAState) (v : Vertex) (acc : list Z * list Z) (u : Vertex) : outcome (list Z * list Z) :=
  let '(e2s, inter) := acc in
  if negb (shard_at cs v =? shard_at cs u)
  then e2s' ← add_at e2s (shard_at cs u) 1; Ret (e2s', inter)
  else inter' ← add_at inter (shard_at cs u) 1; Ret (e2s, inter').

Definition sum_ints (l : list Z) : Z := foldl Z.add 0 l.

(** The least entry, starting from [math.MaxInt]. *)
Definition min_ints (l : list Z) : Z := foldl (fun m val => if val <? m then val else m) MaxInt l.

(** [order] lists the adjacency lists in the order of the range. *)
Definition ComputeEdges2Shard (order : list (Vertex * list Vertex)) (cs : CLPAState) : outcome CLPAState :=
  zeros ← make_ints (cs_ShardNum cs);
  r ← for_each (fun acc vl => for_each (count_edge cs (fst vl)) acc (snd vl)) (zeros, zeros) order;
  let '(cross, inter) := r in
  let e2s := zip_with (fun x y => x + Z.quot y 2) cross inter in
  Ret (with_edges e2s (min_ints e2s) (Z.quot (sum_ints cross) 2) cs).

(** ** [changeShardRecompute] *)

(** One neighbour of the moved vertex. *)
Definition recompute_edge (cs : CLPAState) (new old : Z) (acc : list Z * Z) (u : Vertex) : outcome (list Z * Z) :=
  let '(e2s, cross) := acc in
  let neighborShard := shard_at cs u in
  if negb (neighborShard =? new) && negb (neighborShard =? old) then
    a ← add_at e2s new 1; b ← add_at a old (-1); Ret (b, cross)
  else if neighborShard =? new then
    a ← add_at e2s old (-1); Ret (a, cross - 1)
  else
    a ← add_at e2s new 1; Ret (a, cross + 1).

Definition changeShardRecompute (cs : CLPAState) (v : Vertex) (old : Z) : outcome CLPAState :=
  r ← for_each (recompute_edge cs (shard_at cs v) old) (Edges2Shard cs, CrossShardEdgeNum cs) (neighbours cs v);
  let '(e2s, cross) := r in
  Ret (with_edges e2s (min_ints e2s) cross cs).

(** ** Initial partitions *)

Definition place (cs : CLPAState) (v : Vertex) (k : Z) : outcome CLPAState :=
  vn ← add_at (VertexsNumInShard cs) k 1;
  Ret (with_partition (<[v := k]> (PartitionMap cs)) vn cs).

(** [int(num) % cs.ShardNum] *)
Definition rem_shard (n sn : Z) : outcome Z :=
  if sn =? 0 then Panic "integer divide by zero" else Ret (Z.rem n sn).

Definition tail_shard (sn : Z) (v : Vertex) : outcome Z :=
  va ← str_from v (strlen v - 8);
  match ParseInt (bytes_of va) with
  | None => Panic "log.Panic"
  | Some n => rem_shard n sn
  end.

Definition Init_Partition (vertices : list Vertex) (order : list (Vertex * list Vertex)) (cs : CLPAState)
  : outcome CLPAState :=
  vn ← make_ints (cs_ShardNum cs);
  cs1 ← for_each (fun c v => k ← tail_shard (cs_ShardNum cs) v; place c v k) (with_partition ∅ vn cs) vertices;
  ComputeEdges2Shard order cs1.

Fixpoint place_round_robin (cs : CLPAState) (cnt : Z) (vertices : list Vertex) : outcome CLPAState :=
  match vertices with
  | [] => Ret cs
  | v :: vs => k ← rem_shard cnt (cs_ShardNum cs); cs1 ← place cs v k; place_round_robin cs1 (cnt + 1) vs
  end.

Definition Stable_Init_Partition (vertices : list Vertex) (order : list (Vertex * list Vertex)) (cs : CLPAState)
  : outcome (CLPAState + string) :=
  if Z.of_nat (size (VertexSet (NetGraph cs))) <? cs_ShardNum cs
  then Ret (inr "too many shards, number of shards should be less than nodes. ")
  else
    vn ← make_ints (cs_ShardNum cs);
    cs1 ← place_round_robin (with_partition ∅ vn cs) 0 vertices;
    cs2 ← ComputeEdges2Shard order cs1;
    Ret (inl cs2).

(** ** [CLPA_Partition] *)

Definition getShard_score (cs : CLPAState) (v : Vertex) (uShard : Z) : outcome f64 :=
  let v_outdegree := zlen (neighbours cs v) in
  let Edgesto_uShard := zlen (filter (fun item => shard_at cs item = uShard) (neighbours cs v)) in
  w ← idx (Edges2Shard cs) uShard;
  Ret (f64_mul (f64_div (f64_of_Z Edgesto_uShard) (f64_of_Z v_outdegree))
         (f64_sub (f64_of_Z 1)
            (f64_div (f64_mul (WeightPenalty cs) (f64_of_Z w)) (f64_of_Z (MinEdges2Shard cs))))).

(** The scores computed so far (only their shards matter), the best score and its
    shard. *)
Record scan := mkScan { sc_computed : gset Z; sc_max : f64; sc_best : Z }.

Definition scan_neighbour (cs : CLPAState) (v : Vertex) (st : scan) (u : Vertex) : outcome scan :=
  let uShard := shard_at cs u in
  if decide (uShard ∈ sc_computed st) then Ret st
  else
    score ← getShard_score cs v uShard;
    Ret (if f64_ltb (sc_max st) score
         then mkScan ({[uShard]} ∪ sc_computed st) score uShard
         else mkScan ({[uShard]} ∪ sc_computed st) (sc_max st) (sc_best st)).

Definition best_shard (cs : CLPAState) (v : Vertex) : outcome Z :=
  st ← for_each (scan_neighbour cs v) (mkScan ∅ (f64_of_Z (-9999)) (shard_at cs v)) (neighbours cs v);
  Ret (sc_best st).

(** The state of the algorithm: the tables, the moves and the number of moves of each
    vertex. *)
Record clpa_run := mkRun { run_cs : CLPAState; run_res : gmap Vertex Z; run_moves : gmap Vertex Z }.

(** [cs.PartitionMap[v] = max_scoreShard] with the updates that follow it. *)
Definition move_vertex (cs : CLPAState) (v : Vertex) (from to : Z) : outcome CLPAState :=
  vn1 ← add_at (VertexsNumInShard cs) from (-1);
  vn2 ← add_at vn1 to 1;
  changeShardRecompute (with_partition (<[v := to]> (PartitionMap cs)) vn2 cs) v from.

Definition clpa_visit (st : clpa_run) (v : Vertex) : outcome clpa_run :=
  if 50 <=? default 0 (run_moves st !! v) then Ret st
  else
    let cs := run_cs st in
    let vNowShard := shard_at cs v in
    max_scoreShard ← best_shard cs v;
    if vNowShard =? max_scoreShard then Ret st
    else
      n ← idx (VertexsNumInShard cs) vNowShard;
      if negb (1 <? n) then Ret st
      else
        cs' ← move_vertex cs v vNowShard max_scoreShard;
        Ret (mkRun cs' (<[v := u64 max_scoreShard]> (run_res st))
               (<[v := default 0 (run_moves st !! v) + 1]> (run_moves st))).

(** [visits] gives the order in which each iteration ranges over the vertices. *)
Definition CLPA_Partition (visits : nat -> list Vertex) (order1 order2 : list (Vertex * list Vertex)) (cs : CLPAState)
  : outcome (CLPAState * (gmap Vertex Z * Z)) :=
  cs1 ← ComputeEdges2Shard order1 cs;
  st ← for_each (fun st i => for_each clpa_visit st (visits i)) (mkRun cs1 ∅ ∅) (seq 0 (Z.to_nat (MaxIterations cs)));
  cs2 ← ComputeEdges2Shard order2 (run_cs st);
  Ret (cs2, (run_res st, CrossShardEdgeNum cs2)).
