(* ===== verification/PartitionProofs.v ===== *)
(** * Properties of the partition

    The tables the label propagation updates after each move are those a computation
    from scratch gives, and the algorithm keeps the partition consistent: every account
    in a shard, the vertex counts right, no shard emptied. *)
From Stdlib Require Import ZArith Lia.
From stdpp Require Import base gmap strings list fin_maps fin_sets.
From S2P Require Import Prelude Utils Floats Partition.

(** ** Tables *)

Definition nth0 (l : list Z) (k : Z) : Z := default 0 (l !! Z.to_nat k).

(** The table of [f 0], ..., [f (n - 1)]. *)
Definition table (f : Z -> Z) (n : Z) : list Z := map f (seqZ 0 n).

Lemma length_table f n : 0 <= n -> zlen (table f n) = n.
Proof. intros H. unfold zlen, table. rewrite length_map, length_seqZ. lia. Qed.

Lemma nth0_table f n k : 0 <= k < n -> nth0 (table f n) k = f k.
Proof.
  intros H. unfold nth0, table. change (map f ?l) with (f <$> l). rewrite list_lookup_fmap, lookup_seqZ_lt by lia. cbn.
  f_equal. lia.
Qed.

Lemma table_ext l f n :
  0 <= n -> zlen l = n -> (forall k, 0 <= k < n -> nth0 l k = f k) -> l = table f n.
Proof.
  intros Hn Hl H. apply list_eq_same_length with (n := length l); [| done |].
  - pose proof (length_table f n Hn) as Ht. unfold zlen in *. lia.
  - intros i x y Hi Hx Hy. unfold zlen in Hl. specialize (H (Z.of_nat i)). rewrite <- (nth0_table f n) in H by lia.
    unfold nth0 in H. rewrite Nat2Z.id, Hx, Hy in H. apply H. lia.
Qed.

Lemma table_eq f g n : (forall k, 0 <= k < n -> f k = g k) -> table f n = table g n.
Proof. intros H. apply map_ext_in. intros k Hk. apply H. apply list_elem_of_In, elem_of_seqZ in Hk. lia. Qed.

Lemma add_at_spec l i d :
  0 <= i < zlen l ->
  exists l', add_at l i d = Ret l' /\ zlen l' = zlen l /\
    forall k, 0 <= k -> nth0 l' k = nth0 l k + (if k =? i then d else 0).
Proof.
  intros Hi. unfold add_at. destruct (lookup_lt_is_Some_2 l (Z.to_nat i)) as [x Hx]; [unfold zlen in Hi; lia |].
  rewrite (idx_returns l i x) by (done || lia). cbn. rewrite set_idx_returns by done. eexists. split; [reflexivity |].
  split; [unfold zlen; by rewrite length_insert |]. intros k Hk. unfold nth0. destruct (Z.eqb_spec k i) as [-> | Hne].
  - rewrite list_lookup_insert_eq by (unfold zlen in Hi; lia). by rewrite Hx.
  - rewrite list_lookup_insert_ne by lia. lia.
Qed.

Lemma make_ints_table n : 0 <= n -> make_ints n = Ret (table (fun _ => 0) n).
Proof.
  intros H. unfold make_ints. destruct (Z.ltb_spec n 0); [lia |]. f_equal. apply table_ext; [done | |].
  - unfold zlen. rewrite length_replicate. lia.
  - intros k Hk. unfold nth0. by rewrite lookup_replicate_2 by lia.
Qed.

(** ** More on sums *)

Lemma zsum_map {A B} (g : A -> B) (f : B -> Z) l : zsum_with f (map g l) = zsum_with (fun x => f (g x)) l.
Proof. induction l as [| x l IH]; [done |]. cbn [map]. by rewrite !zsum_with_cons, IH. Qed.

Lemma zsum_mul {A} (c : Z) (f : A -> Z) l : zsum_with (fun x => c * f x) l = c * zsum_with f l.
Proof. induction l as [| x l IH]; [rewrite !zsum_with_nil; lia |]. rewrite !zsum_with_cons, IH. lia. Qed.

Lemma zsum_sub {A} (f g : A -> Z) l : zsum_with (fun x => f x - g x) l = zsum_with f l - zsum_with g l.
Proof. induction l as [| x l IH]; [done |]. rewrite !zsum_with_cons, IH. lia. Qed.

Lemma sum_ints_zsum l : sum_ints l = zsum_with id l.
Proof.
  unfold sum_ints. assert (H : forall z, foldl Z.add z l = z + zsum_with id l); [| rewrite H; lia].
  induction l as [| x l IH]; intros z; cbn [foldl]; [rewrite zsum_with_nil; lia |].
  rewrite IH, zsum_with_cons. unfold id at 2. lia.
Qed.

(** Swapping the sums: every element falls in exactly one class. *)
Lemma zsum_classes {A} (c : A -> Z) (w : A -> Z) n l :
  (forall x, x ∈ l -> 0 <= c x < n) ->
  zsum_with (fun k => zsum_with (fun x => if k =? c x then w x else 0) l) (seqZ 0 n) = zsum_with w l.
Proof.
  induction l as [| x l IH]; intros Hc.
  - rewrite zsum_with_nil, (zsum_with_ext _ (fun _ => 0)); [rewrite zsum_const; lia | done].
  - rewrite zsum_with_cons, (zsum_with_ext _ (fun k => (if k =? c x then w x else 0) +
      zsum_with (fun x => if k =? c x then w x else 0) l)) by (intros; by rewrite zsum_with_cons).
    rewrite zsum_with_add, IH by (intros; apply Hc; by right). f_equal.
    rewrite (zsum_with_point _ (fun _ => 0) _ (c x)); [rewrite zsum_const, Z.eqb_refl; lia | apply NoDup_seqZ | |].
    + apply elem_of_seqZ. specialize (Hc x). lapply Hc; [lia | left].
    + intros k _ Hne. by destruct (Z.eqb_spec k (c x)).
Qed.

(** ** Directed edges *)

Definition swap {A B} (p : A * B) : B * A := (snd p, fst p).

(** The directed edges of a list of adjacency lists. *)
Definition flat (order : list (Vertex * list Vertex)) : list (Vertex * Vertex) :=
  concat (map (fun vl => map (pair (fst vl)) (snd vl)) order).

#[export] Instance flat_perm : Proper ((≡ₚ) ==> (≡ₚ)) flat.
Proof.
  intros l1 l2 H. unfold flat. rewrite <- !flat_map_concat_map. by apply Permutation_flat_map.
Qed.

Definition directed (g : Graph) : list (Vertex * Vertex) := flat (map_to_list (EdgeSet g)).

Lemma for_each_flat {S} (f : Vertex -> S -> Vertex -> outcome S) s order :
  for_each (fun acc vl => for_each (f (fst vl)) acc (snd vl)) s order =
  for_each (fun acc p => f (fst p) acc (snd p)) s (flat order).
Proof.
  revert s. induction order as [| [v l] order IH]; intros s; [done |]. unfold flat. cbn [map concat for_each fst snd].
  rewrite for_each_app. assert (for_each (f v) s l = for_each (fun acc p => f (fst p) acc (snd p)) s (map (pair v) l)) as ->.
  { revert s. induction l as [| u l IHl]; intros s; cbn; [done |]. destruct (f v s u); cbn; [apply IHl | done]. }
  destruct (for_each _ s (map (pair v) l)); cbn; [apply IH | done].
Qed.

(** The edges that leave [v] are its adjacency list. *)
Lemma zsum_out (m : gmap Vertex (list Vertex)) v (h : Vertex -> Z) :
  zsum_with (fun p => if decide (fst p = v) then h (snd p) else 0) (flat (map_to_list m)) =
  zsum_with h (default [] (m !! v)).
Proof.
  induction m as [| u l m Hu IH] using map_ind.
  - rewrite map_to_list_empty, lookup_empty. done.
  - rewrite map_to_list_insert by done. unfold flat. cbn [map concat fst snd]. rewrite zsum_with_app, zsum_map. cbn [fst snd].
    fold (flat (map_to_list m)). rewrite IH, lookup_insert. case_decide as E.
    + subst v. rewrite Hu. cbn [default]. rewrite zsum_with_nil, Z.add_0_r. done.
    + rewrite zsum_const. lia.
Qed.

(** ** The tables from scratch *)

(** [1] for a directed edge that enters shard [k] from another shard, that stays in
    [k], that crosses. [P] is the partition. *)
Definition enters (P : Vertex -> Z) (k : Z) (p : Vertex * Vertex) : Z :=
  if (P (snd p) =? k) && negb (P (fst p) =? k) then 1 else 0.
Definition stays (P : Vertex -> Z) (k : Z) (p : Vertex * Vertex) : Z :=
  if (P (snd p) =? k) && (P (fst p) =? k) then 1 else 0.
Definition crosses (P : Vertex -> Z) (p : Vertex * Vertex) : Z := if P (fst p) =? P (snd p) then 0 else 1.

(** The weight of shard [k]: the directed edges that enter it and half of those inside. *)
Definition weight (P : Vertex -> Z) (ps : list (Vertex * Vertex)) (k : Z) : Z :=
  zsum_with (enters P k) ps + Z.quot (zsum_with (stays P k) ps) 2.

Definition reference (ps : list (Vertex * Vertex)) (cs : CLPAState) : CLPAState :=
  let W := table (weight (shard_at cs) ps) (cs_ShardNum cs) in
  with_edges W (min_ints W) (Z.quot (zsum_with (crosses (shard_at cs)) ps) 2) cs.

Definition in_range (cs : CLPAState) : Prop := forall v, 0 <= shard_at cs v < cs_ShardNum cs.

Lemma count_edges cs ps acc n :
  in_range cs -> cs_ShardNum cs = n -> zlen (fst acc) = n -> zlen (snd acc) = n ->
  exists c i, for_each (fun acc p => count_edge cs (fst p) acc (snd p)) acc ps = Ret (c, i) /\
    zlen c = n /\ zlen i = n /\
    (forall k, 0 <= k -> nth0 c k = nth0 (fst acc) k + zsum_with (enters (shard_at cs) k) ps) /\
    (forall k, 0 <= k -> nth0 i k = nth0 (snd acc) k + zsum_with (stays (shard_at cs) k) ps).
Proof.
  intros Hr Hn. revert acc. induction ps as [| [v u] ps IH]; intros [c i] Hc Hi; cbn [fst snd] in *.
  - exists c, i. split_and!; try done; intros; rewrite zsum_with_nil; lia.
  - cbn [for_each fst snd].
    assert (count_edge cs v (c, i) u = if negb (shard_at cs v =? shard_at cs u)
      then (c' ← add_at c (shard_at cs u) 1; Ret (c', i)) else (i' ← add_at i (shard_at cs u) 1; Ret (c, i'))) as -> by done.
    pose proof (Hr u) as Hu. rewrite Hn in Hu.
    destruct (Z.eqb_spec (shard_at cs v) (shard_at cs u)) as [E | E]; cbn [negb].
    + destruct (add_at_spec i (shard_at cs u) 1) as (i' & -> & Hl' & Hi'); [lia |]. cbn.
      destruct (IH (c, i')) as (c2 & i2 & -> & L1 & L2 & H1 & H2); [done | cbn; lia |]. exists c2, i2. cbn [fst snd] in *.
      split_and!; try done; intros k Hk; rewrite zsum_with_cons.
      * rewrite H1 by done. unfold enters at 2. cbn [fst snd]. rewrite E.
        destruct (Z.eqb_spec (shard_at cs u) k); cbn; lia.
      * rewrite H2, Hi' by done. unfold stays at 2. cbn [fst snd]. rewrite E, (Z.eqb_sym k).
        destruct (Z.eqb_spec (shard_at cs u) k); cbn; lia.
    + destruct (add_at_spec c (shard_at cs u) 1) as (c' & -> & Hl' & Hc'); [lia |]. cbn.
      destruct (IH (c', i)) as (c2 & i2 & -> & L1 & L2 & H1 & H2); [cbn; lia | done |]. exists c2, i2. cbn [fst snd] in *.
      split_and!; try done; intros k Hk; rewrite zsum_with_cons.
      * rewrite H1, Hc' by done. unfold enters at 2. cbn [fst snd]. rewrite (Z.eqb_sym k).
        destruct (Z.eqb_spec (shard_at cs u) k), (Z.eqb_spec (shard_at cs v) k); cbn; lia.
      * rewrite H2 by done. unfold stays at 2. cbn [fst snd].
        destruct (Z.eqb_spec (shard_at cs u) k), (Z.eqb_spec (shard_at cs v) k); cbn; lia.
Qed.

(** Summing a table. *)
Lemma zsum_table f n : zsum_with id (table f n) = zsum_with f (seqZ 0 n).
Proof. unfold table. by rewrite zsum_map. Qed.

Lemma enters_total P ps n :
  (forall v, 0 <= P v < n) ->
  zsum_with (fun k => zsum_with (enters P k) ps) (seqZ 0 n) = zsum_with (crosses P) ps.
Proof.
  intros HP. rewrite <- (zsum_classes (fun p => P (snd p)) (crosses P) n ps) by auto.
  apply zsum_with_ext. intros k _. apply zsum_with_ext. intros [v u] _. unfold enters, crosses. cbn [fst snd].
  rewrite (Z.eqb_sym k). destruct (Z.eqb_spec (P u) k) as [<- |]; cbn; [| done].
  by destruct (P v =? P u).
Qed.

Lemma ComputeEdges2Shard_spec order cs :
  0 <= cs_ShardNum cs -> in_range cs -> ComputeEdges2Shard order cs = Ret (reference (flat order) cs).
Proof.
  intros Hn Hr. unfold ComputeEdges2Shard. rewrite make_ints_table by done. cbn. rewrite for_each_flat.
  destruct (count_edges cs (flat order) (table (fun _ => 0) (cs_ShardNum cs), table (fun _ => 0) (cs_ShardNum cs))
              (cs_ShardNum cs) Hr eq_refl) as (c & i & -> & L1 & L2 & H1 & H2); [by apply length_table.. |]. cbn [mbind outcome_bind fst snd] in *.
  assert (Hc : c = table (fun k => zsum_with (enters (shard_at cs) k) (flat order)) (cs_ShardNum cs)).
  { apply table_ext; [done | done |]. intros k Hk. rewrite H1, nth0_table by lia. lia. }
  assert (Hi : i = table (fun k => zsum_with (stays (shard_at cs) k) (flat order)) (cs_ShardNum cs)).
  { apply table_ext; [done | done |]. intros k Hk. rewrite H2, nth0_table by lia. lia. }
  assert (Hz : zip_with (fun x y => x + Z.quot y 2) c i = table (weight (shard_at cs) (flat order)) (cs_ShardNum cs)).
  { rewrite Hc, Hi. unfold table. change (map ?f ?l) with (f <$> l). rewrite zip_with_fmap_l, zip_with_fmap_r.
    by rewrite zip_with_diag. }
  rewrite Hz, sum_ints_zsum, Hc, zsum_table, enters_total by done. done.
Qed.

#[export] Instance reference_perm : Proper ((≡ₚ) ==> eq ==> eq) reference.
Proof.
  intros ps1 ps2 Hp cs ? <-. unfold reference.
  assert (table (weight (shard_at cs) ps1) (cs_ShardNum cs) = table (weight (shard_at cs) ps2) (cs_ShardNum cs)) as ->.
  { apply table_eq. intros k _. unfold weight. by rewrite Hp. }
  by rewrite Hp.
Qed.

(** ** One move *)

(** [es] lists the undirected edges of the graph, none of them a loop. *)
Record graph_ok (g : Graph) (es : list (Vertex * Vertex)) : Prop := {
  go_edges : directed g ≡ₚ es ++ map swap es;
  go_loops : forall u v, (u, v) ∈ es -> u <> v;
  go_ends : forall u v, (u, v) ∈ es -> u ∈ VertexSet g /\ v ∈ VertexSet g
}.

Lemma swap_swap {A} (l : list (A * A)) : map swap (map swap l) = l.
Proof. rewrite map_map. rewrite <- (map_id l) at 2. apply map_ext. by intros []. Qed.

Lemma directed_swap g es : graph_ok g es -> directed g ≡ₚ map swap (directed g).
Proof. intros [H _ _]. rewrite H, map_app, swap_swap. apply Permutation_app_comm. Qed.

Lemma directed_in g es u v : graph_ok g es -> (u, v) ∈ directed g -> u <> v /\ u ∈ VertexSet g /\ v ∈ VertexSet g.
Proof.
  intros [H Hl He] Hin. rewrite H in Hin. apply elem_of_app in Hin as [Hin | Hin].
  - split; [by apply Hl | by apply He].
  - apply list_elem_of_fmap in Hin as ([x y] & [= -> ->] & Hin). cbn. apply Hl in Hin as Hne.
    apply He in Hin as [? ?]. split; [congruence | done].
Qed.

(** A neighbour is another vertex of the graph. *)
Lemma neighbours_in cs es v y :
  graph_ok (NetGraph cs) es -> y ∈ neighbours cs v -> v <> y /\ v ∈ VertexSet (NetGraph cs) /\ y ∈ VertexSet (NetGraph cs).
Proof.
  intros Hg Hy. eapply directed_in; [done |]. unfold directed, flat, neighbours in *.
  destruct (EdgeSet (NetGraph cs) !! v) as [l |] eqn:E; [| by apply not_elem_of_nil in Hy].
  apply list_elem_of_In, in_concat. exists (map (pair v) l). split.
  - apply list_elem_of_In, list_elem_of_fmap. exists (v, l). split; [done |]. by apply elem_of_map_to_list.
  - apply in_map, list_elem_of_In, Hy.
Qed.

(** A sum over the directed edges, split at a vertex. *)
Lemma zsum_split cs es v (f : Vertex * Vertex -> Z) :
  graph_ok (NetGraph cs) es ->
  zsum_with f (directed (NetGraph cs)) =
  zsum_with (fun y => f (v, y) + f (y, v)) (neighbours cs v) +
  zsum_with (fun p => if decide (fst p = v \/ snd p = v) then 0 else f p) (directed (NetGraph cs)).
Proof.
  intros Hg. set (ps := directed (NetGraph cs)).
  rewrite (zsum_with_ext f (fun p => ((if decide (fst p = v) then f (v, snd p) else 0) +
    (if decide (snd p = v) then f (fst p, v) else 0)) + (if decide (fst p = v \/ snd p = v) then 0 else f p)) ps).
  - rewrite !zsum_with_add. f_equal. f_equal; [apply (zsum_out _ v (fun y => f (v, y))) |].
    unfold ps. rewrite (directed_swap _ _ Hg) at 1. rewrite zsum_map. apply (zsum_out _ v (fun y => f (y, v))).
  - intros [x y] Hin. apply (directed_in _ _ _ _ Hg) in Hin as (Hne & _ & _). cbn [fst snd].
    repeat case_decide; subst; try tauto; lia.
Qed.

(** What one neighbour in shard [q] changes when [v] goes from [old] to [new]. *)
Definition weight_delta (new old q k : Z) : Z :=
  (if q =? old then 0 else if k =? old then -1 else 0) + (if q =? new then 0 else if k =? new then 1 else 0).
Definition cross_delta (new old q : Z) : Z := if q =? new then -1 else if q =? old then 1 else 0.

Lemma recompute_loop cs new old l e c n :
  0 <= new < n -> 0 <= old < n -> new <> old -> zlen e = n ->
  exists e', for_each (recompute_edge cs new old) (e, c) l =
      Ret (e', c + zsum_with (fun y => cross_delta new old (shard_at cs y)) l) /\ zlen e' = n /\
    forall k, 0 <= k -> nth0 e' k = nth0 e k + zsum_with (fun y => weight_delta new old (shard_at cs y) k) l.
Proof.
  intros Hnew Hold Hne. revert e c. induction l as [| y l IH]; intros e c He.
  - exists e. rewrite zsum_with_nil, Z.add_0_r. split_and!; [done | done |]. intros. rewrite zsum_with_nil. lia.
  - cbn [for_each].
    assert (exists e1, recompute_edge cs new old (e, c) y = Ret (e1, c + cross_delta new old (shard_at cs y)) /\ zlen e1 = n /\
      forall k, 0 <= k -> nth0 e1 k = nth0 e k + weight_delta new old (shard_at cs y) k) as (e1 & -> & L1 & H1).
    { unfold recompute_edge, cross_delta, weight_delta. set (q := shard_at cs y).
      destruct (Z.eqb_spec q new) as [E1 | E1], (Z.eqb_spec q old) as [E2 | E2]; cbn [negb andb]; try lia.
      - destruct (add_at_spec e old (-1)) as (a & -> & La & Ha); [lia |]. cbn. exists a.
        split_and!; [do 2 f_equal; lia | lia |]. intros k Hk. rewrite Ha by done. lia.
      - destruct (add_at_spec e new 1) as (a & -> & La & Ha); [lia |]. cbn. exists a.
        split_and!; [do 2 f_equal; lia | lia |]. intros k Hk. rewrite Ha by done. lia.
      - destruct (add_at_spec e new 1) as (a & -> & La & Ha); [lia |]. cbn.
        destruct (add_at_spec a old (-1)) as (b & -> & Lb & Hb); [lia |]. cbn. exists b.
        split_and!; [do 2 f_equal; lia | lia |]. intros k Hk. rewrite Hb, Ha by done. lia. }
    cbn. destruct (IH e1 (c + cross_delta new old (shard_at cs y)) L1) as (e2 & -> & L2 & H2). exists e2.
    rewrite zsum_with_cons. split_and!; [do 2 f_equal; lia | done |]. intros k Hk.
    rewrite H2, H1, zsum_with_cons by done. lia.
Qed.

Lemma quot_shift a b c : 0 <= a -> 0 <= c -> c = a + 2 * b -> Z.quot c 2 = Z.quot a 2 + b.
Proof. intros Ha Hc ->. rewrite !Z.quot_div_nonneg, (Z.mul_comm 2), Z.div_add by lia. done. Qed.

Lemma stays_nonneg P k ps : 0 <= zsum_with (stays P k) ps.
Proof. apply zsum_with_nonneg. intros p _. unfold stays. by case_match. Qed.

Lemma stays_swap P k x y : stays P k (x, y) = stays P k (y, x).
Proof. unfold stays. cbn. by rewrite andb_comm. Qed.

Lemma crosses_nonneg P ps : 0 <= zsum_with (crosses P) ps.
Proof. apply zsum_with_nonneg. intros p _. unfold crosses. by case_match. Qed.

(** The sums over the directed edges before and after [v] moves, for a function of an
    edge that looks only at the shards of its ends. *)
Lemma zsum_moved cs es v (P' : Vertex -> Z) (f : (Vertex -> Z) -> Vertex * Vertex -> Z) :
  graph_ok (NetGraph cs) es -> (forall u, u <> v -> P' u = shard_at cs u) ->
  (forall P Q p, P (fst p) = Q (fst p) -> P (snd p) = Q (snd p) -> f P p = f Q p) ->
  zsum_with (f P') (directed (NetGraph cs)) = zsum_with (f (shard_at cs)) (directed (NetGraph cs)) +
    zsum_with (fun y => f P' (v, y) + f P' (y, v) - (f (shard_at cs) (v, y) + f (shard_at cs) (y, v))) (neighbours cs v).
Proof.
  intros Hg HP Hf. rewrite (zsum_split cs es v (f P') Hg), (zsum_split cs es v (f (shard_at cs)) Hg), zsum_sub.
  rewrite (zsum_with_ext (fun p => if decide (fst p = v \/ snd p = v) then 0 else f P' p)
             (fun p => if decide (fst p = v \/ snd p = v) then 0 else f (shard_at cs) p)); [lia |].
  intros p _. case_decide as E; [done |]. apply Hf; apply HP; tauto.
Qed.

Lemma weight_moved cs es v P' k :
  graph_ok (NetGraph cs) es -> (forall u, u <> v -> P' u = shard_at cs u) -> P' v <> shard_at cs v ->
  weight P' (directed (NetGraph cs)) k = weight (shard_at cs) (directed (NetGraph cs)) k +
    zsum_with (fun y => weight_delta (P' v) (shard_at cs v) (P' y) k) (neighbours cs v).
Proof.
  intros Hg HP Hne. unfold weight. set (nb := neighbours cs v).
  rewrite (zsum_moved cs es v P' (fun P => enters P k) Hg HP)
    by (intros P Q p E1 E2; unfold enters; by rewrite E1, E2). fold nb.
  rewrite (quot_shift (zsum_with (stays (shard_at cs) k) (directed (NetGraph cs)))
             (zsum_with (fun y => stays P' k (v, y) - stays (shard_at cs) k (v, y)) nb));
    [| apply stays_nonneg.. |].
  - match goal with |- ?a + ?b + (?c + ?d) = _ => replace (a + b + (c + d)) with (a + c + (b + d)) by lia end.
    f_equal. rewrite <- zsum_with_add. apply zsum_with_ext. intros y Hin.
    destruct (neighbours_in _ _ _ _ Hg Hin) as [Hvy _]. unfold enters, stays, weight_delta. cbn [fst snd].
    rewrite (HP y) by congruence. set (q := shard_at cs y). set (o := shard_at cs v) in *. set (w := P' v) in *.
    destruct (Z.eqb_spec q o), (Z.eqb_spec q w), (Z.eqb_spec k o), (Z.eqb_spec k w),
      (Z.eqb_spec q k), (Z.eqb_spec o k), (Z.eqb_spec w k); cbn; lia.
  - rewrite (zsum_moved cs es v P' (fun P => stays P k) Hg HP)
      by (intros P Q p E1 E2; unfold stays; by rewrite E1, E2).
    fold nb. rewrite <- zsum_mul. f_equal. apply zsum_with_ext. intros y _.
    rewrite !(stays_swap _ k y v). lia.
Qed.

Lemma crosses_moved cs es v P' :
  graph_ok (NetGraph cs) es -> (forall u, u <> v -> P' u = shard_at cs u) -> P' v <> shard_at cs v ->
  Z.quot (zsum_with (crosses P') (directed (NetGraph cs))) 2 =
  Z.quot (zsum_with (crosses (shard_at cs)) (directed (NetGraph cs))) 2 +
    zsum_with (fun y => cross_delta (P' v) (shard_at cs v) (P' y)) (neighbours cs v).
Proof.
  intros Hg HP Hne. apply quot_shift; [apply crosses_nonneg.. |].
  rewrite (zsum_moved cs es v P' crosses Hg HP)
    by (intros P Q p E1 E2; unfold crosses; by rewrite E1, E2).
  rewrite <- zsum_mul. f_equal. apply zsum_with_ext. intros y Hin.
  destruct (neighbours_in _ _ _ _ Hg Hin) as [Hvy _]. unfold crosses, cross_delta. cbn [fst snd].
  rewrite (HP y) by congruence. set (q := shard_at cs y). set (o := shard_at cs v) in *. set (w := P' v) in *.
  destruct (Z.eqb_spec q w), (Z.eqb_spec q o), (Z.eqb_spec w q), (Z.eqb_spec o q); lia.
Qed.

(** The tables of the state are those of its partition. *)
Definition tables_right (cs : CLPAState) : Prop :=
  Edges2Shard cs = table (weight (shard_at cs) (directed (NetGraph cs))) (cs_ShardNum cs) /\
  CrossShardEdgeNum cs = Z.quot (zsum_with (crosses (shard_at cs)) (directed (NetGraph cs))) 2.

Lemma changeShardRecompute_spec cs es v new vn :
  graph_ok (NetGraph cs) es -> in_range cs -> 0 <= new < cs_ShardNum cs -> new <> shard_at cs v -> tables_right cs ->
  let cs1 := with_partition (<[v := new]> (PartitionMap cs)) vn cs in
  changeShardRecompute cs1 v (shard_at cs v) = Ret (reference (directed (NetGraph cs)) cs1).
Proof.
  intros Hg Hr Hnew Hne [He Hc] cs1.
  assert (Hv : shard_at cs1 v = new) by (unfold shard_at, cs1; cbn; by rewrite lookup_insert_eq).
  assert (Ho : forall u, u <> v -> shard_at cs1 u = shard_at cs u).
  { intros u Hu. unfold shard_at, cs1. cbn. by rewrite lookup_insert_ne. }
  assert (Hn1 : shard_at cs1 v <> shard_at cs v) by congruence.
  unfold changeShardRecompute. change (Edges2Shard cs1) with (Edges2Shard cs).
  change (CrossShardEdgeNum cs1) with (CrossShardEdgeNum cs). change (neighbours cs1 v) with (neighbours cs v).
  destruct (recompute_loop cs1 (shard_at cs1 v) (shard_at cs v) (neighbours cs v) (Edges2Shard cs) (CrossShardEdgeNum cs)
              (cs_ShardNum cs)) as (e & -> & Hl & Hk);
    [by rewrite Hv | apply Hr | done | rewrite He; apply length_table; lia |].
  cbn [mbind outcome_bind]. unfold reference. change (cs_ShardNum cs1) with (cs_ShardNum cs).
  rewrite (crosses_moved cs es v (shard_at cs1) Hg Ho Hn1), <- Hc.
  assert (e = table (weight (shard_at cs1) (directed (NetGraph cs))) (cs_ShardNum cs)) as ->; [| done].
  apply table_ext; [lia | done |]. intros k Hkn.
  rewrite Hk, He, nth0_table, (weight_moved cs es v (shard_at cs1) k Hg Ho Hn1) by lia. done.
Qed.

(** ** Consistent states *)

(** The number of vertices in shard [k]. *)
Definition population (cs : CLPAState) (k : Z) : Z :=
  zsum_with (fun v => if k =? shard_at cs v then 1 else 0) (elements (VertexSet (NetGraph cs))).

(** Every vertex in a shard, the vertex counts right, a loop-free undirected graph. *)
Record clpa_ok (cs : CLPAState) (es : list (Vertex * Vertex)) : Prop := {
  ok_graph : graph_ok (NetGraph cs) es;
  ok_range : in_range cs;
  ok_counts : VertexsNumInShard cs = table (population cs) (cs_ShardNum cs)
}.

#[export] Instance clpa_ok_perm cs : Proper ((≡ₚ) ==> impl) (clpa_ok cs).
Proof.
  intros es es' Hp [[He Hl Hends] Hr Hc]. split; [split | done | done].
  - by rewrite He, Hp.
  - intros u v. rewrite <- Hp. apply Hl.
  - intros u v. rewrite <- Hp. apply Hends.
Qed.

Lemma Init_CLPAState_ok wp mIter n :
  0 < n -> exists c0, Init_CLPAState wp mIter n = Ret c0 /\ clpa_ok c0 [] /\ cs_ShardNum c0 = n /\ VertexSet (NetGraph c0) = ∅.
Proof.
  intros Hn. unfold Init_CLPAState. rewrite make_ints_table by lia. eexists. split; [reflexivity |]. split; [| done].
  split; [split; [done | by intros ?? ?%not_elem_of_nil..] | intros v; unfold shard_at; cbn; rewrite lookup_empty; cbn; lia |].
  cbn. apply table_eq. intros k _. unfold population. cbn. by rewrite elements_empty.
Qed.

(** An address [Addr2Shard] accepts. *)
Definition account (v : Vertex) : Prop := all_hex v = true /\ 8 <= strlen v.

Lemma append_edge_flat m u v : flat (map_to_list (append_edge m u v)) ≡ₚ (u, v) :: flat (map_to_list m).
Proof.
  unfold append_edge. destruct (m !! u) as [l |] eqn:E.
  - rewrite <- insert_delete_eq, map_to_list_insert by apply lookup_delete_eq. cbn [default].
    rewrite <- (insert_delete_id m u l E) at 2. rewrite map_to_list_insert by apply lookup_delete_eq.
    unfold flat. cbn [map concat fst snd]. rewrite map_app. cbn [map]. rewrite <- app_assoc. cbn [app].
    symmetry. apply Permutation_middle.
  - rewrite map_to_list_insert by done. cbn [default app]. done.
Qed.

Section Build.
Context `{cfg : Config}.

Lemma AddVertex_ok cs es v :
  clpa_ok cs es -> cs_ShardNum cs = ShardNum -> v ∉ VertexSet (NetGraph cs) -> account v ->
  exists cs', cs_AddVertex cs v = Ret cs' /\ clpa_ok cs' es /\ cs_ShardNum cs' = ShardNum /\
    VertexSet (NetGraph cs') = {[v]} ∪ VertexSet (NetGraph cs).
Proof.
  intros [[He Hl Hends] Hr Hc] Hn Hv [Hh H8].
  assert (exists k, match PartitionMap cs !! v with Some val => Ret val | None => Addr2Shard v end = Ret k /\
    0 <= k < ShardNum) as (k & Hk & Hkr).
  { pose proof (Hr v) as Hrv. unfold shard_at in Hrv. destruct (PartitionMap cs !! v) as [k |]; cbn in Hrv.
    - exists k. split; [done | lia].
    - apply Addr2Shard_hex; [lia | done | done]. }
  unfold cs_AddVertex. rewrite Hk. cbn [mbind outcome_bind].
  destruct (add_at_spec (VertexsNumInShard cs) k 1) as (vn & -> & Ln & Hvn); [rewrite Hc, length_table; lia |].
  cbn [mbind outcome_bind]. eexists. split; [reflexivity |].
  set (cs' := with_partition _ _ _).
  assert (Hs : forall u, shard_at cs' u = if decide (u = v) then k else shard_at cs u).
  { intros u. unfold shard_at, cs'. cbn. rewrite lookup_insert. by repeat case_decide. }
  split_and!; [| done | done]. split.
  - split; [done | done |]. intros x y Hin. destruct (Hends x y Hin). cbn. set_solver.
  - intros u. rewrite Hs. cbn. case_decide; [lia | apply Hr].
  - cbn. apply table_ext; [lia | by rewrite Ln, Hc, length_table by lia |]. intros j Hj. rewrite Hvn, Hc, nth0_table by lia.
    unfold population. cbn. rewrite elements_union_singleton, zsum_with_cons, Hs, decide_True by done.
    rewrite Z.add_comm. f_equal. apply zsum_with_ext. intros x Hx. apply elem_of_elements in Hx.
    rewrite Hs, decide_False by congruence. done.
Qed.

Lemma AddEdge_ok cs es u v :
  clpa_ok cs es -> cs_ShardNum cs = ShardNum -> account u -> account v -> u <> v ->
  exists cs', cs_AddEdge cs u v = Ret cs' /\ clpa_ok cs' ((u, v) :: es) /\ cs_ShardNum cs' = ShardNum /\
    VertexSet (NetGraph cs') = {[u]} ∪ ({[v]} ∪ VertexSet (NetGraph cs)).
Proof.
  intros Hok Hn Hu Hv Hne. unfold cs_AddEdge.
  assert (Hadd : forall c x, clpa_ok c es -> cs_ShardNum c = ShardNum -> account x ->
    exists c', (if decide (x ∈ VertexSet (NetGraph c)) then Ret c else cs_AddVertex c x) = Ret c' /\ clpa_ok c' es /\
      cs_ShardNum c' = ShardNum /\ VertexSet (NetGraph c') = {[x]} ∪ VertexSet (NetGraph c)).
  { intros c x H1 H2 H3. case_decide; [| by apply AddVertex_ok]. exists c. split_and!; [done.. | set_solver]. }
  destruct (Hadd cs u Hok Hn Hu) as (c1 & -> & H1 & N1 & V1). cbn [mbind outcome_bind].
  destruct (Hadd c1 v H1 N1 Hv) as (c2 & -> & H2 & N2 & V2). cbn [mbind outcome_bind].
  eexists. split; [reflexivity |]. destruct H2 as [[He Hl Hends] Hr Hc].
  assert (Hg : graph_AddEdge (NetGraph c2) u v =
    mkGraph (VertexSet (NetGraph c2)) (append_edge (append_edge (EdgeSet (NetGraph c2)) u v) v u)).
  { unfold graph_AddEdge. rewrite (decide_True (P := u ∈ _)) by set_solver.
    rewrite (decide_True (P := v ∈ _)) by set_solver. done. }
  rewrite Hg. split_and!; [| done | cbn; set_solver]. split; [| exact Hr | exact Hc]. split.
  - cbn. unfold directed in *. cbn. rewrite !append_edge_flat, He. rewrite perm_swap. by rewrite <- Permutation_middle.
  - intros x y [[= -> ->] | Hin]%elem_of_cons; [done | by apply Hl].
  - intros x y [[= -> ->] | Hin]%elem_of_cons; cbn; [set_solver | by apply Hends].
Qed.
(** A list of edges added one after the other. *)
Lemma AddEdges_ok l c es0 :
  (forall u v, (u, v) ∈ l -> account u /\ account v /\ u <> v) -> clpa_ok c es0 -> cs_ShardNum c = ShardNum ->
  exists cs, for_each (fun cs e => cs_AddEdge cs (fst e) (snd e)) c l = Ret cs /\ clpa_ok cs (l ++ es0) /\
    cs_ShardNum cs = ShardNum /\
    (forall v, v ∈ VertexSet (NetGraph cs) <-> v ∈ VertexSet (NetGraph c) \/ exists u, (u, v) ∈ l \/ (v, u) ∈ l).
Proof.
  revert c es0. induction l as [| [u v] l IH]; intros c es0 Hl Hc Hn.
  - exists c. split_and!; [done | done | done |]. intros v. split; [tauto |]. by intros [| (u & [?%not_elem_of_nil | ?%not_elem_of_nil])].
  - destruct (Hl u v) as (Hu & Hv & Hne); [left |].
    destruct (AddEdge_ok c es0 u v Hc Hn Hu Hv Hne) as (c1 & Hc1 & Hok1 & Hn1 & Hv1).
    destruct (IH c1 ((u, v) :: es0)) as (cs & Hcs & Hok & Hns & Hvs); [intros; apply Hl; by right | done | done |].
    exists cs. split; [cbn; by rewrite Hc1 |]. split; [cbn [app]; by rewrite Permutation_middle |]. split; [done |].
    intros w. rewrite Hvs, Hv1. setoid_rewrite elem_of_cons. set_solver.
Qed.
End Build.

(** ** The algorithm *)

Lemma reference_right ps cs : ps ≡ₚ directed (NetGraph cs) -> tables_right (reference ps cs).
Proof. intros Hp. rewrite Hp. done. Qed.

Lemma reference_ok ps cs es : clpa_ok cs es -> clpa_ok (reference ps cs) es.
Proof. intros [H1 H2 H3]. by split. Qed.

Lemma move_vertex_spec cs es v to :
  clpa_ok cs es -> tables_right cs -> v ∈ VertexSet (NetGraph cs) -> 0 <= to < cs_ShardNum cs -> to <> shard_at cs v ->
  exists cs', move_vertex cs v (shard_at cs v) to = Ret cs' /\ clpa_ok cs' es /\ tables_right cs' /\
    NetGraph cs' = NetGraph cs /\ cs_ShardNum cs' = cs_ShardNum cs /\
    (forall u, shard_at cs' u = if decide (u = v) then to else shard_at cs u) /\
    (forall k, population cs' k = population cs k - (if k =? shard_at cs v then 1 else 0) + (if k =? to then 1 else 0)).
Proof.
  intros [Hg Hr Hc] Ht Hv Hto Hne. unfold move_vertex. pose proof (Hr v) as Hrv.
  destruct (add_at_spec (VertexsNumInShard cs) (shard_at cs v) (-1)) as (a & -> & La & Ha);
    [rewrite Hc, length_table; lia |]. cbn [mbind outcome_bind].
  destruct (add_at_spec a to 1) as (b & -> & Lb & Hb); [rewrite La, Hc, length_table; lia |]. cbn [mbind outcome_bind].
  rewrite (changeShardRecompute_spec cs es v to b Hg Hr Hto Hne Ht).
  eexists. split; [reflexivity |]. set (cs' := reference _ _).
  assert (Hs : forall u, shard_at cs' u = if decide (u = v) then to else shard_at cs u).
  { intros u. unfold shard_at, cs'. cbn. rewrite lookup_insert. by repeat case_decide. }
  assert (Hp : forall k, population cs' k = population cs k - (if k =? shard_at cs v then 1 else 0) + (if k =? to then 1 else 0)).
  { intros k. unfold population. change (NetGraph cs') with (NetGraph cs).
    rewrite (zsum_with_point _ (fun u => if k =? shard_at cs u then 1 else 0) _ v).
    - rewrite Hs, decide_True by done. lia.
    - apply NoDup_elements.
    - by apply elem_of_elements.
    - intros x _ Hx. by rewrite Hs, decide_False. }
  split_and!; try done.
  split; [done | |].
  - intros u. rewrite Hs. case_decide; [done | apply Hr].
  - change (VertexsNumInShard cs') with b. change (cs_ShardNum cs') with (cs_ShardNum cs).
    apply table_ext; [lia | rewrite Lb, La, Hc, length_table; lia |]. intros k Hk.
    rewrite Hb, Ha, Hc, nth0_table, Hp by lia. destruct (k =? shard_at cs v), (k =? to); lia.
Qed.

Lemma best_shard_returns cs v :
  in_range cs -> zlen (Edges2Shard cs) = cs_ShardNum cs ->
  exists k, best_shard cs v = Ret k /\ 0 <= k < cs_ShardNum cs.
Proof.
  intros Hr Hl. unfold best_shard.
  destruct (for_each_returns (fun st => 0 <= sc_best st < cs_ShardNum cs) (scan_neighbour cs v)
              (mkScan ∅ (f64_of_Z (-9999)) (shard_at cs v)) (neighbours cs v)) as (st & -> & Hst).
  - apply Hr.
  - intros s u _ Hs. unfold scan_neighbour. case_decide; [eauto |]. unfold getShard_score. pose proof (Hr u) as Hu.
    destruct (lookup_lt_is_Some_2 (Edges2Shard cs) (Z.to_nat (shard_at cs u))) as [w Hw]; [unfold zlen in Hl; lia |].
    rewrite (idx_returns _ _ w) by (done || lia). cbn [mbind outcome_bind]. eexists. split; [reflexivity |].
    by destruct (f64_ltb _ _).
  - cbn. eauto.
Qed.

(** What the visits keep, from the state [cs0] on. *)
Record run_inv (cs0 : CLPAState) (es : list (Vertex * Vertex)) (st : clpa_run) : Prop := {
  ri_ok : clpa_ok (run_cs st) es;
  ri_tables : tables_right (run_cs st);
  ri_graph : NetGraph (run_cs st) = NetGraph cs0;
  ri_n : cs_ShardNum (run_cs st) = cs_ShardNum cs0;
  ri_res : forall v, shard_at (run_cs st) v = default (shard_at cs0 v) (run_res st !! v);
  ri_dom : dom (run_res st) ⊆ VertexSet (NetGraph cs0);
  ri_inhabited : forall k, 0 < population cs0 k -> 0 < population (run_cs st) k
}.

Lemma clpa_visit_inv cs0 es st v :
  cs_ShardNum cs0 <= MaxInt -> v ∈ VertexSet (NetGraph cs0) -> run_inv cs0 es st ->
  exists st', clpa_visit st v = Ret st' /\ run_inv cs0 es st'.
Proof.
  intros Hmax Hv [Hok Ht Hg Hn Hres Hdom Hin]. unfold clpa_visit. destruct (50 <=? _); [by eauto using run_inv |].
  set (cs := run_cs st) in *.
  assert (Hlen : zlen (Edges2Shard cs) = cs_ShardNum cs).
  { destruct Ht as [-> _]. apply length_table. destruct Hok as [_ Hr _]. specialize (Hr v). lia. }
  destruct (best_shard_returns cs v (ok_range _ _ Hok) Hlen) as (to & -> & Hto). cbn [mbind outcome_bind].
  destruct (Z.eqb_spec (shard_at cs v) to) as [E | E]; [by eauto using run_inv |].
  pose proof (ok_range _ _ Hok v) as Hrv.
  assert (Hidx : idx (VertexsNumInShard cs) (shard_at cs v) = Ret (population cs (shard_at cs v))).
  { rewrite (ok_counts _ _ Hok). apply idx_returns; [lia |]. unfold table. change (map ?f ?l) with (f <$> l).
    rewrite list_lookup_fmap, lookup_seqZ_lt by lia. cbn. do 2 f_equal. lia. }
  rewrite Hidx. cbn [mbind outcome_bind]. destruct (Z.ltb_spec 1 (population cs (shard_at cs v))) as [Hpop | Hpop];
    cbn [negb]; [| by eauto using run_inv].
  destruct (move_vertex_spec cs es v to) as (cs' & -> & Hok' & Ht' & Hg' & Hn' & Hs & Hp);
    [done | done | by rewrite Hg | done | done |].
  cbn [mbind outcome_bind]. eexists. split; [reflexivity |]. split; cbn; try done; try congruence.
  - intros u. rewrite Hs, lookup_insert. case_decide as Eu; [| rewrite decide_False by congruence; apply Hres]. rewrite decide_True by congruence.
    cbn. symmetry. apply u64_small. unfold is_u64, MaxInt in *. lia.
  - rewrite dom_insert_L. set_solver.
  - intros k Hk. rewrite Hp. apply Hin in Hk. set (o := shard_at cs v) in *.
    destruct (Z.eqb_spec k o), (Z.eqb_spec k to); subst; lia.
Qed.

Lemma CLPA_loop_inv cs0 es st (visits : nat -> list Vertex) l :
  cs_ShardNum cs0 <= MaxInt -> (forall i, visits i ≡ₚ elements (VertexSet (NetGraph cs0))) -> run_inv cs0 es st ->
  exists st', for_each (fun st i => for_each clpa_visit st (visits i)) st l = Ret st' /\ run_inv cs0 es st'.
Proof.
  intros Hmax Hvis Hst. apply for_each_returns; [done |]. intros s i _ Hs. apply for_each_returns; [done |].
  intros s' v Hv Hs'. apply clpa_visit_inv; [done | | done]. rewrite Hvis in Hv. by apply elem_of_elements.
Qed.

(** ** Theorems *)

(** C31: the incremental update is the computation from scratch. On any loop-free graph
    whose tables are right, moving a vertex to another shard and calling
    [changeShardRecompute] gives, field by field, the state that [ComputeEdges2Shard]
    gives after the move, in whatever order it ranges over the adjacency lists. *)
Theorem changeShardRecompute_equiv cs es v to vn order :
  clpa_ok cs es -> tables_right cs -> 0 <= to < cs_ShardNum cs -> to <> shard_at cs v ->
  order ≡ₚ map_to_list (EdgeSet (NetGraph cs)) ->
  let moved := with_partition (<[v := to]> (PartitionMap cs)) vn cs in
  changeShardRecompute moved v (shard_at cs v) = ComputeEdges2Shard order moved.
Proof.
  intros [Hg Hr _] Ht Hto Hne Ho moved. unfold moved. rewrite (changeShardRecompute_spec cs es) by done.
  rewrite ComputeEdges2Shard_spec; [| cbn; lia |].
  - rewrite Ho. done.
  - intros u. unfold shard_at. cbn. rewrite lookup_insert. case_decide; [done | apply Hr].
Qed.

(** Adding transactions builds a consistent state. From a new state, adding any list
    of edges between different hexadecimal accounts returns; every vertex is then in
    the shard its address says or keeps, the vertex counts are the populations of the
    shards, and the graph holds exactly the added edges, in both directions. *)
Theorem AddEdge_builds `{cfg : Config} wp mIter es :
  0 < ShardNum -> (forall u v, (u, v) ∈ es -> account u /\ account v /\ u <> v) ->
  exists cs0 cs, Init_CLPAState wp mIter ShardNum = Ret cs0 /\
    for_each (fun cs e => cs_AddEdge cs (fst e) (snd e)) cs0 es = Ret cs /\
    clpa_ok cs es /\ directed (NetGraph cs) ≡ₚ es ++ map swap es /\
    (forall v, v ∈ VertexSet (NetGraph cs) <-> exists u, (u, v) ∈ es \/ (v, u) ∈ es).
Proof.
  intros HS Hes. destruct (Init_CLPAState_ok wp mIter ShardNum HS) as (c0 & H0 & Hok0 & Hn0 & Hv0).
  destruct (AddEdges_ok es c0 [] Hes Hok0 Hn0) as (cs & Hcs & Hok & _ & Hvs). rewrite app_nil_r in Hok.
  exists c0, cs. split_and!; [done | done | done | apply Hok |]. intros v. rewrite Hvs, Hv0. set_solver.
Qed.

(** C14: the label propagation keeps the partition consistent. On any consistent state,
    for every order of the map ranges and every weight penalty, [CLPA_Partition] returns;
    the state is consistent again, with the same graph; the returned map holds the new
    shard of every vertex whose shard changed and only vertices of the graph; no shard
    that had vertices is emptied; and the returned number is the number of edges whose
    ends are in different shards. *)
Theorem CLPA_Partition_consistent visits order1 order2 cs es :
  clpa_ok cs es -> cs_ShardNum cs <= MaxInt ->
  (forall i, visits i ≡ₚ elements (VertexSet (NetGraph cs))) ->
  order1 ≡ₚ map_to_list (EdgeSet (NetGraph cs)) -> order2 ≡ₚ map_to_list (EdgeSet (NetGraph cs)) ->
  exists cs' res n, CLPA_Partition visits order1 order2 cs = Ret (cs', (res, n)) /\
    clpa_ok cs' es /\ tables_right cs' /\ NetGraph cs' = NetGraph cs /\
    (forall v, shard_at cs' v = default (shard_at cs v) (res !! v)) /\ dom res ⊆ VertexSet (NetGraph cs) /\
    (forall k, 0 < population cs k -> 0 < population cs' k) /\
    n = zsum_with (crosses (shard_at cs')) es.
Proof.
  intros Hok Hmax Hvis Ho1 Ho2. unfold CLPA_Partition. pose proof (ok_range _ _ Hok "") as Hpos.
  rewrite ComputeEdges2Shard_spec; [| lia | apply Hok]. cbn [mbind outcome_bind].
  destruct (CLPA_loop_inv cs es (mkRun (reference (flat order1) cs) ∅ ∅) visits (seq 0 (Z.to_nat (MaxIterations cs))) Hmax Hvis)
    as (st & -> & [Hok' _ Hg Hn Hres Hdom Hin]).
  { split; cbn; try done; [by apply reference_ok | apply reference_right; by rewrite Ho1]. }
  cbn [mbind outcome_bind]. rewrite ComputeEdges2Shard_spec; [| lia | apply Hok']. cbn [mbind outcome_bind].
  do 3 eexists. split; [reflexivity |].
  split_and!; [by apply reference_ok | apply reference_right; by rewrite Ho2, Hg | done | done | done | done |].
  cbn. rewrite Ho2, <- Hg. fold (directed (NetGraph (run_cs st))). destruct Hok' as [[-> _ _] _ _].
  rewrite zsum_with_app, zsum_map. change (shard_at (reference ?a ?b)) with (shard_at b).
  rewrite (zsum_with_ext (fun p => crosses _ (swap p)) (crosses (shard_at (run_cs st)))).
  - pose proof (crosses_nonneg (shard_at (run_cs st)) es) as H0. rewrite Z.quot_div_nonneg by lia.
    symmetry. apply Z.div_unique_exact; lia.
  - intros [x y] _. unfold crosses. cbn. by rewrite Z.eqb_sym.
Qed.

(** ** Witnesses *)

Definition va : Vertex := "00000000000000000000000000000000000000a0".
Definition vb : Vertex := "00000000000000000000000000000000000000a1".
Definition vc : Vertex := "00000000000000000000000000000000000000a2".
Definition vd : Vertex := "00000000000000000000000000000000000000a4".

(** Accounts [va] and [vd] in shard 0, [vb] in 1, [vc] in 2; shard 3 empty. *)
Definition edges0 : list (Vertex * Vertex) := [(va, vb); (vb, vc); (va, vc); (vd, vb); (vd, vb)].
Definition penalty : f64 := f64_lit 1 (-1).

Lemma edges0_accounts u v : (u, v) ∈ edges0 -> account u /\ account v /\ u <> v.
Proof.
  assert (account va /\ account vb /\ account vc /\ account vd) as (Ha & Hb & Hc & Hd) by (vm_compute; intuition congruence).
  unfold edges0. rewrite !elem_of_cons, elem_of_nil.
  intros [[= -> ->] | [[= -> ->] | [[= -> ->] | [[= -> ->] | [[= -> ->] | []]]]]]; split_and!; done.
Qed.

Definition built (es : list (Vertex * Vertex)) : outcome CLPAState :=
  c0 ← Init_CLPAState penalty 10 4; for_each (fun cs e => @cs_AddEdge default_config cs (fst e) (snd e)) c0 es.

Lemma built_ok : exists cs, built edges0 = Ret cs /\ clpa_ok cs edges0 /\ cs_ShardNum cs = 4.
Proof.
  destruct (Init_CLPAState_ok penalty 10 4) as (c0 & H0 & Hok0 & Hn0 & _); [lia |].
  destruct (@AddEdges_ok default_config edges0 c0 [] edges0_accounts Hok0 Hn0) as (cs & Hcs & Hok & Hn & _).
  exists cs. unfold built. rewrite H0. rewrite app_nil_r in Hok. split_and!; done.
Qed.

Lemma AddEdge_builds_witness :
  exists cs0 cs, Init_CLPAState penalty 10 4 = Ret cs0 /\
    for_each (fun cs e => @cs_AddEdge default_config cs (fst e) (snd e)) cs0 edges0 = Ret cs /\
    VertexsNumInShard cs = [2; 1; 1; 0].
Proof.
  destruct (@AddEdge_builds default_config penalty 10 edges0) as (cs0 & cs & H0 & H1 & _).
  - reflexivity.
  - apply edges0_accounts.
  - exists cs0, cs. split_and!; [exact H0 | exact H1 |]. vm_compute in H0. injection H0 as <-.
    vm_compute in H1. injection H1 as <-. reflexivity.
Defined.

Lemma CLPA_Partition_consistent_witness :
  exists cs cs' res n, built edges0 = Ret cs /\
    CLPA_Partition (fun _ => elements (VertexSet (NetGraph cs))) (map_to_list (EdgeSet (NetGraph cs)))
      (map_to_list (EdgeSet (NetGraph cs))) cs = Ret (cs', (res, n)) /\
    n = zsum_with (crosses (shard_at cs')) edges0.
Proof.
  destruct built_ok as (cs & Hb & Hok & Hn).
  destruct (CLPA_Partition_consistent (fun _ => elements (VertexSet (NetGraph cs))) (map_to_list (EdgeSet (NetGraph cs)))
              (map_to_list (EdgeSet (NetGraph cs))) cs edges0) as (cs' & res & n & Hr & _ & _ & _ & _ & _ & _ & Hx).
  - exact Hok.
  - rewrite Hn. vm_compute. congruence.
  - reflexivity.
  - reflexivity.
  - reflexivity.
  - exists cs, cs', res, n. split_and!; [exact Hb | exact Hr | exact Hx].
Defined.

Lemma changeShardRecompute_equiv_witness :
  exists cs cs1, built edges0 = Ret cs /\ ComputeEdges2Shard (map_to_list (EdgeSet (NetGraph cs))) cs = Ret cs1 /\
    let moved := with_partition (<[va := 2]> (PartitionMap cs1)) [1; 1; 2; 0] cs1 in
    changeShardRecompute moved va (shard_at cs1 va) = ComputeEdges2Shard (map_to_list (EdgeSet (NetGraph cs1))) moved.
Proof.
  destruct built_ok as (cs & Hb & Hok & Hn).
  exists cs, (reference (directed (NetGraph cs)) cs). split; [exact Hb |].
  split; [apply ComputeEdges2Shard_spec; [lia | apply Hok] |].
  apply (changeShardRecompute_equiv (reference (directed (NetGraph cs)) cs) edges0 va 2 [1; 1; 2; 0]).
  - by apply reference_ok.
  - by apply reference_right.
  - cbn. lia.
  - vm_compute in Hb. injection Hb as <-. vm_compute. congruence.
  - reflexivity.
Defined.

(** ** A loop breaks the incremental update *)

(** [Edges2Shard] and [CrossShardEdgeNum] after moving [va], which has a loop, to shard 2:
    updated incrementally, and computed from scratch. *)
Definition moved_loop : outcome ((list Z * Z) * (list Z * Z)) :=
  cs ← built [(va, va); (vb, vd)];
  let order := map_to_list (EdgeSet (NetGraph cs)) in
  cs1 ← ComputeEdges2Shard order cs;
  let moved := with_partition (<[va := 2]> (PartitionMap cs1)) (VertexsNumInShard cs1) cs1 in
  cs2 ← changeShardRecompute moved va 0;
  cs3 ← ComputeEdges2Shard order moved;
  Ret ((Edges2Shard cs2, CrossShardEdgeNum cs2), (Edges2Shard cs3, CrossShardEdgeNum cs3)).

(** A self-transfer is an edge from a vertex to itself, listed twice in its adjacency
    list. After a move [changeShardRecompute] takes it for an edge that stopped
    crossing: the tables are no longer those of the partition. *)
Lemma self_loop_breaks : moved_loop = Ret (([0; 1; 0; 0], -1), ([1; 1; 1; 0], 1)).
Proof. vm_compute. reflexivity. Qed.
