(* ===== verification/Broker.v ===== *)
(** * Brokers

    Models [broker/broker.go]: the balances a broker keeps in every shard (free,
    locked and profit, per token type) and their initialisation. *)
From Stdlib Require Import ZArith Lia.
From stdpp Require Import base gmap strings list fin_maps.
From S2P Require Import Prelude Utils JournalTypes Core Message Floats.

(** Token type, then broker address, then shard. *)
Abbreviation ShardBalanceInt := (gmap string (gmap Z Z)).
Abbreviation Balances := (gmap string (gmap string (gmap Z Z))).
Abbreviation Profits := (gmap string (gmap string (gmap Z bigFloat))).

Record Broker := mkBroker {
  BrokerRawMegs : gmap string BrokerRawMeg;
  BrokerAddress : list string;
  BrokerBalance : Balances;
  LockBalance : Balances;
  ProfitBalance : Profits;
  RawTx2BrokerTx : gmap string (list string);
  Brokerage : bigFloat
}.

(** [params.Brokerage] is the literal 0.1. *)
Definition brokerage_01 : bigFloat := bf_NewFloat (f64_lit 7205759403792794 (-56)).

(** The shard numbers [0 .. ShardNum - 1]. *)
Definition shards `{Config} : list Z := seqZ 0 ShardNum.

Section Init.
Context `{Config}.

Definition IsBroker (b : Broker) (address : string) : bool :=
  bool_decide (address ∈ BrokerAddress b).

(** [initBrokerAddr] reads lines of the broker file until [num] of them are read;
    the counter is tested after each line, so a [num] that is not positive reads
    the whole file. *)
Definition initBrokerAddr (file : list string) (num : Z) : list string :=
  if num <=? 0 then file else take (Z.to_nat num) file.

Definition init_shards {A} (addrs : list string) (balance : A) : gmap string (gmap Z A) :=
  foldl (fun m address => <[address := foldl (fun m' sid => <[sid := balance]> m') ∅ shards]> m)
    ∅ addrs.

Definition initBrokerBalance (addrs : list string) (balance : Z) : ShardBalanceInt :=
  init_shards addrs balance.

Definition initFloatBalance (addrs : list string) (balance : bigFloat) : gmap string (gmap Z bigFloat) :=
  init_shards addrs balance.

Definition NewBroker (file : list string) : Broker :=
  let addrs := initBrokerAddr file BrokerNum in
  mkBroker ∅ addrs
    (foldl (fun m val => <[val := initBrokerBalance addrs Init_broker_Balance]> m) ∅ Transaction_Types)
    (foldl (fun m val => <[val := initBrokerBalance addrs 0]> m) ∅ Transaction_Types)
    (foldl (fun m val => <[val := initFloatBalance addrs (bf_NewFloat (S754_zero false))]> m) ∅
       Transaction_Types)
    ∅ brokerage_01.
End Init.

(** ** Balances of one broker in one shard *)

(** [m[ty][addr][sid]]: a nil pointer when any level is missing. *)
Definition bal3 {A} (m : gmap string (gmap string (gmap Z A))) (ty addr : string) (sid : Z) : option A :=
  m !! ty ≫= (fun m1 => m1 !! addr ≫= (fun m2 => m2 !! sid)).

(** [m[ty][addr][sid].Op(m[ty][addr][sid], ...)]: the pointed-to value is updated
    in place; a nil pointer panics. *)
Definition upd3 {A} (m : gmap string (gmap string (gmap Z A))) (ty addr : string) (sid : Z) (f : A -> A)
  : outcome (gmap string (gmap string (gmap Z A))) :=
  match bal3 m ty addr sid with
  | None => Panic "nil dereference"
  | Some v => Ret (alter (alter (alter (fun _ => f v) sid) addr) ty m)
  end.

Lemma upd3_spec {A} (m : gmap string (gmap string (gmap Z A))) ty addr sid f v :
  bal3 m ty addr sid = Some v ->
  exists m', upd3 m ty addr sid f = Ret m' /\
    forall ty' addr' sid', bal3 m' ty' addr' sid' =
      if decide (ty' = ty /\ addr' = addr /\ sid' = sid) then Some (f v) else bal3 m ty' addr' sid'.
Proof.
  intros Hv. unfold upd3. rewrite Hv. eexists. split; [done |]. intros ty' addr' sid'.
  unfold bal3 in *. rewrite lookup_alter. destruct (decide (ty = ty')) as [<- | Hty].
  2: { rewrite decide_False by naive_solver. done. }
  destruct (m !! ty) as [m1 |]; cbn in *; [| done].
  rewrite lookup_alter. destruct (decide (addr = addr')) as [<- | Ha].
  2: { rewrite decide_False by naive_solver. done. }
  destruct (m1 !! addr) as [m2 |]; cbn in *; [| done].
  rewrite lookup_alter. destruct (decide (sid = sid')) as [<- | Hs].
  2: { rewrite decide_False by naive_solver. done. }
  rewrite decide_True by done. by rewrite Hv.
Qed.

Lemma upd3_returns {A} (m : gmap string (gmap string (gmap Z A))) ty addr sid f m' :
  upd3 m ty addr sid f = Ret m' -> exists v, bal3 m ty addr sid = Some v.
Proof. unfold upd3. destruct (bal3 m ty addr sid); [eauto | done]. Qed.

(** ** Well-formed balances *)

Lemma foldl_insert_const `{Countable K} {A} (b : A) (l : list K) (m : gmap K A) k :
  k ∈ l \/ m !! k = Some b -> foldl (fun m k => <[k := b]> m) m l !! k = Some b.
Proof.
  revert m. induction l as [| s l IH]; intros m Hm; cbn.
  - destruct Hm as [Hm | Hm]; [by apply not_elem_of_nil in Hm | done].
  - apply IH. destruct Hm as [Hm | Hm].
    + apply elem_of_cons in Hm as [-> | Hm]; [right; by rewrite lookup_insert_eq | by left].
    + right. rewrite lookup_insert. by case_decide.
Qed.

Lemma init_shards_lookup `{Config} {A} (addrs : list string) (b : A) addr sid :
  addr ∈ addrs -> 0 <= sid < ShardNum ->
  init_shards addrs b !! addr ≫= (fun m => m !! sid) = Some b.
Proof.
  intros Ha Hs. unfold init_shards. rewrite foldl_insert_const by (by left). cbn.
  apply foldl_insert_const. left. unfold shards. apply elem_of_seqZ. lia.
Qed.
