(* ===== verification/B2E.v ===== *)
(** * Broker2Earn: assigning cross-shard transactions to brokers

    Models [supervisor/Broker2Earn]: the fractional assignment [URFA_Linear]
    ([URFA.go]), the randomised rounding [B2E_Rounding] with [Random_choice]
    ([rounding.go]), and the iterated allocation [B2E] with [difference]
    ([B2E.go]).

    What Go leaves open is an argument: the order of a range over a map, the
    result of the unstable [sort.Slice], and the draws of the random generator. *)
From Stdlib Require Import ZArith Lia.
From stdpp Require Import base gmap strings list fin_maps sorting.
From S2P Require Import Prelude Utils JournalTypes Core Message Floats.

Abbreviation val p := (Value (tval p)).

(** ** [URFA.go] *)

Record RatioBrokerRawMeg := mkRatio { ra_Tx : TxPtr; BrokerRatio : gmap string f64 }.

(** The sort key: fee over value plus 0.000001, in [big.Float] arithmetic with the
    receiver precisions of the comparison closure. *)
Definition feeRatio (t : Transaction) : bigFloat :=
  let v := bf_SetInt (Value t) in
  let d := bf_Add (bf_prec v) v (bf_NewFloat (f64_lit 4722366482869645 (-72))) in
  bf_Quo (bf_prec d) (bf_SetInt (Fee t)) d.

Definition less (a b : TxPtr) : bool :=
  match bf_Cmp (feeRatio (tval a)) (feeRatio (tval b)) with Gt => true | _ => false end.

(** [sort.Slice] gives some permutation in which no element is less than an
    earlier one. *)
Definition is_sort_of (l sorted : list TxPtr) : Prop :=
  sorted ≡ₚ l /\ StronglySorted (fun a b => less b a = false) sorted.

Record urfa_state := mkUrfa {
  u_index : Z;
  u_now : gmap string Z;
  u_result : list RatioBrokerRawMeg;
  u_break : bool
}.

(** [for j := brokerIndex; ...]: the loop reads the balances at [brokerIndex],
    not at [j]. *)
Fixpoint urfa_spill (addrs_from : list string) (B1 C1 sub : Z) (ratio : f64) (m : gmap string f64)
  : gmap string f64 :=
  match addrs_from with
  | [] => m
  | aj :: rest => if C1 <? B1 + sub then urfa_spill rest B1 C1 sub ratio m else <[aj := ratio]> m
  end.

(** One iteration of the allocation loop over the sorted transactions. *)
Definition urfa_step (bal : gmap string Z) (addrs : list string) (s : urfa_state) (t : TxPtr)
  : outcome urfa_state :=
  if u_break s then Ret s
  else if zlen addrs <=? u_index s then Ret (mkUrfa (u_index s) (u_now s) (u_result s) true)
  else
    a ← idx addrs (u_index s);
    B ← deref (u_now s !! a);
    C ← deref (bal !! a);
    if C <? val t then Ret s
    else if (B <? C) && (C <=? B + val t) then
      let now1 := <[a := C]> (u_now s) in
      let sub := B + val t - C in
      let d := bf_SetInt sub in
      let ratio := bf_Float64 (bf_Quo (bf_prec d) d (bf_SetInt (val t))) in
      let m := {[ a := f64_sub (f64_of_Z 1) ratio ]} in
      let i1 := u_index s + 1 in
      if zlen addrs <=? i1 then Ret (mkUrfa i1 now1 (u_result s) true)
      else
        a1 ← idx addrs i1;
        B1 ← deref (now1 !! a1);
        C1 ← deref (bal !! a1);
        let m' := urfa_spill (drop (Z.to_nat i1) addrs) B1 C1 sub ratio m in
        Ret (mkUrfa i1 now1 (u_result s ++ [mkRatio t m']) false)
    else Ret (mkUrfa (u_index s) (<[a := B + val t]> (u_now s))
                (u_result s ++ [mkRatio t {[ a := f64_of_Z 1 ]}]) false).

(** [addrs] is the order in which the range over [BrokerBalance] gave the
    brokers, [sorted] the outcome of the sort. *)
Definition URFA_Linear (addrs : list string) (sorted : list TxPtr) (bal : gmap string Z)
  : outcome (list RatioBrokerRawMeg) :=
  s ← for_each (urfa_step bal addrs) (mkUrfa 0 ((fun _ => 0) <$> bal) [] false) sorted;
  Ret (u_result s).

(** ** [rounding.go] *)

Fixpoint choice_loop (r cum : f64) (i : Z) (p : list f64) : Z :=
  match p with
  | [] => -1
  | q :: p' => let cum' := f64_add cum q in if f64_leb r cum' then i else choice_loop r cum' (i + 1) p'
  end.

(** [Random_choice] for the draw [r]: the first index whose cumulative probability
    reaches [r], and -1 when none does. *)
Definition Random_choice (probility : list f64) (r : f64) : Z :=
  choice_loop r (S754_zero false) 0 probility.

Record round_state := mkRound {
  r_now : gmap string Z;
  r_btx : gmap string (list TxPtr);
  r_bratio : gmap string (list f64);
  r_t2b : gmap positive (gmap string Z);
  r_result : list BrokerRawMeg;
  r_draws : nat
}.

(** Step 1: the indexes. A range over a [BrokerRatio] touches a different broker
    in each iteration, so its order is immaterial. *)
Definition add_ratio (t : TxPtr) (s : round_state) (e : string * f64) : round_state :=
  let '(b, ratio) := e in
  let btx := default [] (r_btx s !! b) ++ [t] in
  mkRound (r_now s) (<[b := btx]> (r_btx s))
    (<[b := default [] (r_bratio s !! b) ++ [ratio]]> (r_bratio s))
    (<[ptr t := <[b := zlen btx - 1]> (default ∅ (r_t2b s !! ptr t))]> (r_t2b s))
    (r_result s) (r_draws s).

Definition build_indexes (addrs : list string) (megs : list RatioBrokerRawMeg) (bal : gmap string Z)
  : round_state :=
  foldl (fun s meg => foldl (add_ratio (ra_Tx meg)) s (map_to_list (BrokerRatio meg)))
    (mkRound ((fun _ => 0) <$> bal)
       (foldl (fun m b => <[b := []]> m) ∅ addrs) (foldl (fun m b => <[b := []]> m) ∅ addrs)
       ∅ [] 0) megs.

(** [append(l[:index], l[index+1:]...)] *)
Definition remove_at {A} (l : list A) (i : Z) : outcome (list A) :=
  if (0 <=? i) && (i <? zlen l)
  then Ret (take (Z.to_nat i) l ++ drop (S (Z.to_nat i)) l)
  else Panic "slice bounds out of range".

(** [tx2broker[tx][bd] -= 1] for the transactions behind the removed one; writing
    to a missing inner map panics. *)
Definition decr (bd : string) (m : gmap positive (gmap string Z)) (t : TxPtr)
  : outcome (gmap positive (gmap string Z)) :=
  inner ← deref (m !! ptr t);
  Ret (<[ptr t := <[bd := default 0 (inner !! bd) - 1]> inner]> m).

(** Removal of the chosen transaction from the lists of one broker. *)
Definition drop_from (s : round_state) (e : string * Z) : outcome round_state :=
  let '(bd, index) := e in
  btx ← remove_at (default [] (r_btx s !! bd)) index;
  br ← remove_at (default [] (r_bratio s !! bd)) index;
  t2b ← for_each (decr bd) (r_t2b s) (drop (Z.to_nat index) btx);
  Ret (mkRound (r_now s) (<[bd := btx]> (r_btx s)) (<[bd := br]> (r_bratio s)) t2b
         (r_result s) (r_draws s)).

(** The literal 0.0000000000000000001 added to the sum. *)
Definition tiny : f64 := f64_lit 8307674973655724 (-116).

(** [p[i] /= sumP] *)
Definition normalise (p : list f64) : list f64 :=
  let sumP := f64_add (foldl f64_add (S754_zero false) p) tiny in
  map (fun v => f64_div v sumP) p.

Section Rounding.
(** [rand.Float64()] for the successive draws. *)
Variable rands : nat -> f64.

(** One iteration of [for len(broker2Tx[brokerAddress]) != 0]. *)
Definition round_iter (bal : gmap string Z) (b : string) (s : round_state) : outcome round_state :=
  let l := default [] (r_btx s !! b) in
  let p := normalise (default [] (r_bratio s !! b)) in
  let many := (1 <? zlen l) in
  let id := if many then Random_choice p (rands (r_draws s)) else 0 in
  t ← idx l id;
  now ← deref (r_now s !! b);
  C ← deref (bal !! b);
  let s1 := mkRound
    (if now + val t <=? C then <[b := now + val t]> (r_now s) else r_now s)
    (r_btx s) (<[b := p]> (r_bratio s)) (r_t2b s)
    (if now + val t <=? C then r_result s ++ [mkRawMeg t b] else r_result s)
    (if many then S (r_draws s) else r_draws s) in
  for_each drop_from s1 (map_to_list (default ∅ (r_t2b s1 !! ptr t))).

(** The inner loop, with fuel: every iteration removes a transaction from the
    broker's list, so the length of the list is enough. *)
Fixpoint round_loop (fuel : nat) (bal : gmap string Z) (s : round_state) (b : string)
  : outcome round_state :=
  match r_btx s !! b with
  | None | Some [] => Ret s
  | Some _ =>
      match fuel with
      | O => Panic "out of fuel"
      | S fuel' => s' ← round_iter bal b s; round_loop fuel' bal s' b
      end
  end.

Definition round_broker (bal : gmap string Z) (s : round_state) (b : string) : outcome round_state :=
  round_loop (length (default [] (r_btx s !! b))) bal s b.

Definition B2E_Rounding (addrs : list string) (megs : list RatioBrokerRawMeg) (bal : gmap string Z)
  : outcome (list BrokerRawMeg) :=
  s ← for_each (round_broker bal) (build_indexes addrs megs bal) addrs;
  Ret (r_result s).
End Rounding.

(** ** [B2E.go] *)

(** Pointer identity decides membership. *)
Definition difference_megs (slice1 slice2 : list BrokerRawMeg) : list BrokerRawMeg :=
  filter (fun item => ptr (rm_Tx item) ∉ map (fun i => ptr (rm_Tx i)) slice2) slice1.

(** The choices of one iteration. *)
Record b2e_choice := mkChoice {
  ch_urfa_order : list string;
  ch_sort : list TxPtr -> list TxPtr;
  ch_round_order : list string;
  ch_rands : nat -> f64
}.

Record b2e_state := mkB2E {
  b_megs : list BrokerRawMeg;
  b_now : gmap string Z;
  b_result : list BrokerRawMeg
}.

(** [nowbrokerBalance[b].Sub(...)] for the rounding's result. *)
Definition charge (m : gmap string Z) (meg : BrokerRawMeg) : outcome (gmap string Z) :=
  v ← deref (m !! rm_Broker meg);
  Ret (<[rm_Broker meg := v - val (rm_Tx meg)]> m).

Definition b2e_iter (s : b2e_state) (c : b2e_choice) : outcome b2e_state :=
  urfa ← URFA_Linear (ch_urfa_order c) (ch_sort c (map rm_Tx (b_megs s))) (b_now s);
  rounding ← B2E_Rounding (ch_rands c) (ch_round_order c) urfa (b_now s);
  now ← for_each charge (b_now s) rounding;
  Ret (mkB2E (difference_megs (b_megs s) rounding) now (b_result s ++ rounding)).

Section B2E.
Context `{Config}.

(** 1. the cross-shard transactions *)
Fixpoint find_ctx (megs : list BrokerRawMeg) : outcome (list BrokerRawMeg) :=
  match megs with
  | [] => Ret []
  | m :: rest =>
      r ← Addr2Shard (Recipient (tval (rm_Tx m)));
      s ← Addr2Shard (Sender (tval (rm_Tx m)));
      l ← find_ctx rest;
      Ret (if r =? s then l else m :: l)
  end.

(** 2. the total balance of each broker over the shards *)
Definition accumulate (BrokerBalance : gmap string (gmap Z Z)) : gmap string Z :=
  (fun m => zsum_with snd (map_to_list m)) <$> BrokerBalance.

(** [choices] has one element for each of the [IterNum_B2E] iterations. *)
Definition B2E (choices : list b2e_choice) (megs : list BrokerRawMeg)
  (BrokerBalance : gmap string (gmap Z Z)) : outcome (list BrokerRawMeg * list BrokerRawMeg) :=
  ctx ← find_ctx megs;
  s ← for_each b2e_iter (mkB2E ctx (accumulate BrokerBalance) []) choices;
  Ret (b_result s, difference_megs megs (b_result s)).
End B2E.
