(* ===== verification/B2EProofs.v ===== *)
(** * Broker2Earn: correctness

    The index bookkeeping of [B2E_Rounding] is coherent throughout, its loops
    terminate, the only panic left is a draw beyond the cumulative sum, and the
    allocation is within every broker's balance with each transaction given to
    one broker at most; [B2E] inherits this over its iterations. *)
From Stdlib Require Import ZArith Lia.
From stdpp Require Import base gmap strings list fin_maps sorting.
From S2P Require Import Prelude Utils JournalTypes Core Message Floats Broker B2E.

(** ** Coherence of the indexes *)

Abbreviation btx_of s b l := (r_btx s !! b = Some l).

(** Every position of a broker's list is recorded under its transaction. *)
Definition positions_recorded (s : round_state) : Prop :=
  forall b l i t, btx_of s b l -> l !! i = Some t ->
    exists inner, r_t2b s !! ptr t = Some inner /\ inner !! b = Some (Z.of_nat i).

(** Every record of a transaction that is still listed somewhere points at it;
    [t0], if given, is a transaction that is being removed. *)
Definition records_point (t0 : option positive) (s : round_state) : Prop :=
  forall b l t inner b' k, btx_of s b l -> t ∈ l -> Some (ptr t) <> t0 ->
    r_t2b s !! ptr t = Some inner -> inner !! b' = Some k ->
    0 <= k /\ exists l', btx_of s b' l' /\ l' !! Z.to_nat k = Some t.

(** The ratio list of a broker is as long as its transaction list. *)
Definition ratios_match (s : round_state) : Prop :=
  forall b l, btx_of s b l -> exists p, r_bratio s !! b = Some p /\ length p = length l.

(** Listed transactions come from [src], which says where each may be listed, and
    are determined by their pointer. *)
Definition listed_from (src : string -> TxPtr -> Prop) (s : round_state) : Prop :=
  forall b l t, btx_of s b l -> t ∈ l -> src b t.

Definition ptr_inj (src : string -> TxPtr -> Prop) : Prop :=
  forall b b' t t', src b t -> src b' t' -> ptr t = ptr t' -> t = t'.

Record coherent (src : string -> TxPtr -> Prop) (t0 : option positive) (s : round_state) : Prop := {
  co_pos : positions_recorded s;
  co_rec : records_point t0 s;
  co_ratio : ratios_match s;
  co_src : listed_from src s
}.

Lemma coherent_unique src t0 s b l i j t t' :
  coherent src t0 s -> btx_of s b l -> l !! i = Some t -> l !! j = Some t' -> ptr t = ptr t' -> i = j.
Proof.
  intros Hc Hl Hi Hj E.
  destruct (co_pos _ _ _ Hc b l i t Hl Hi) as (inner & H1 & H2).
  destruct (co_pos _ _ _ Hc b l j t' Hl Hj) as (inner' & H1' & H2').
  rewrite <- E, H1 in H1'. injection H1' as <-. rewrite H2 in H2'. injection H2' as H3. lia.
Qed.

Lemma coherent_NoDup src t0 s b l :
  coherent src t0 s -> btx_of s b l -> NoDup (ptr <$> l).
Proof.
  intros Hc Hl. apply NoDup_alt. intros i j q Hi Hj.
  apply list_lookup_fmap_Some in Hi as (t & -> & Hi).
  apply list_lookup_fmap_Some in Hj as (t' & E & Hj).
  eapply coherent_unique; eauto.
Qed.

(** ** Removing one transaction from one broker's lists *)

Lemma remove_at_split {A} (l1 l2 : list A) x :
  remove_at (l1 ++ x :: l2) (zlen l1) = Ret (l1 ++ l2).
Proof.
  unfold remove_at, zlen. rewrite length_app. cbn [length].
  destruct (Z.leb_spec 0 (Z.of_nat (length l1))); [| lia].
  destruct (Z.ltb_spec (Z.of_nat (length l1)) (Z.of_nat (length l1 + S (length l2)))); [| lia].
  cbn. rewrite Nat2Z.id, take_app_length. do 2 f_equal.
  replace (S (length l1)) with (length l1 + 1)%nat by lia.
  rewrite <- drop_drop, drop_app_length. done.
Qed.

Lemma decr_loop bd l m :
  NoDup (ptr <$> l) -> (forall t, t ∈ l -> is_Some (m !! ptr t)) ->
  exists m', for_each (decr bd) m l = Ret m' /\
    forall q, m' !! q = if decide (q ∈ ptr <$> l)
                        then (fun inner => <[bd := default 0 (inner !! bd) - 1]> inner) <$> (m !! q)
                        else m !! q.
Proof.
  revert m. induction l as [| t l IH]; intros m Hnd Hs; cbn [for_each].
  - exists m. split; [done |]. intros q. rewrite decide_False; [done | apply not_elem_of_nil].
  - cbn in Hnd. apply NoDup_cons in Hnd as [Hni Hnd].
    destruct (Hs t) as [inner Hin]; [left |].
    assert (decr bd m t = Ret (<[ptr t := <[bd := default 0 (inner !! bd) - 1]> inner]> m)) as ->
      by (unfold decr; by rewrite Hin). cbn.
    destruct (IH (<[ptr t := <[bd := default 0 (inner !! bd) - 1]> inner]> m)) as (m' & -> & Hm');
      [done | |].
    { intros t' Ht'. apply lookup_insert_is_Some'. right. apply Hs. by right. }
    exists m'. split; [done |]. intros q. rewrite Hm'.
    destruct (decide (q = ptr t)) as [-> | Hne].
    + rewrite (decide_False _ _ Hni), (decide_True (P := _ ∈ _ :: _)) by left.
      rewrite lookup_insert_eq, Hin. done.
    + rewrite lookup_insert_ne by done.
      destruct (decide (q ∈ ptr <$> l)) as [Hq | Hq].
      * rewrite decide_True by (by right). done.
      * rewrite decide_False; [done |]. rewrite elem_of_cons. tauto.
Qed.

(** The state of the removal loop: [es] are the brokers [t] must still be removed
    from. *)
Record removing (src : string -> TxPtr -> Prop) (t : TxPtr) (inner_t : gmap string Z)
  (es : list (string * Z)) (s0 s : round_state) : Prop := {
  rm_co : coherent src (Some (ptr t)) s;
  rm_nd : NoDup es.*1;
  rm_here : forall bd k, (bd, k) ∈ es -> 0 <= k /\ exists l, btx_of s bd l /\ l !! Z.to_nat k = Some t;
  rm_only : forall b l t', btx_of s b l -> t' ∈ l -> ptr t' = ptr t -> b ∈ es.*1;
  rm_t2b : r_t2b s !! ptr t = Some inner_t;
  rm_shrinks : forall b l, btx_of s b l -> exists l0, btx_of s0 b l0 /\ forall x, x ∈ l -> x ∈ l0;
  rm_dom : forall b, is_Some (r_btx s0 !! b) -> is_Some (r_btx s !! b);
  rm_rest : r_now s = r_now s0 /\ r_result s = r_result s0 /\ r_draws s = r_draws s0
}.

Lemma elem_of_split_middle {A} (l1 l2 : list A) x t : x ∈ l1 ++ l2 -> x ∈ l1 ++ t :: l2.
Proof. rewrite !elem_of_app, elem_of_cons. tauto. Qed.

(** Removal of [t] from the lists of [bd], which are [l1 ++ t :: l2] and as long:
    [m'] is the record map after the decrements. *)
Section Removal.
Context (src : string -> TxPtr -> Prop) (t : TxPtr) (s : round_state).
Context (bd : string) (l1 l2 : list TxPtr) (p' : list f64) (m' : gmap positive (gmap string Z)).
Hypothesis Hinj : ptr_inj src.
Hypothesis Hco : coherent src (Some (ptr t)) s.
Hypothesis Hl : btx_of s bd (l1 ++ t :: l2).
Hypothesis Hp' : length p' = length (l1 ++ l2).
Hypothesis Hm' : forall q, m' !! q = if decide (q ∈ ptr <$> l2)
  then (fun inner => <[bd := default 0 (inner !! bd) - 1]> inner) <$> (r_t2b s !! q)
  else r_t2b s !! q.

Let s' : round_state :=
  mkRound (r_now s) (<[bd := l1 ++ l2]> (r_btx s)) (<[bd := p']> (r_bratio s)) m'
    (r_result s) (r_draws s).

Lemma removal_NoDup :
  NoDup (ptr <$> l2) /\ (forall q, q ∈ ptr <$> l1 -> q ∉ ptr <$> t :: l2) /\ ptr t ∉ ptr <$> l2.
Proof using Hco Hl.
  pose proof (coherent_NoDup _ _ _ _ _ Hco Hl) as HND.
  rewrite fmap_app, fmap_cons in HND. apply NoDup_app in HND as (_ & Hdisj & Hnd2).
  apply NoDup_cons in Hnd2 as [Htl2 Hnd2]. done.
Qed.

Lemma removal_lists b lb :
  r_btx s' !! b = Some lb ->
  (b = bd /\ lb = l1 ++ l2) \/ (b <> bd /\ btx_of s b lb).
Proof using Type.
  cbn. rewrite lookup_insert. destruct (decide (bd = b)) as [<- |]; [| auto]. intros [= <-]. auto.
Qed.

Lemma removal_listed b lb t' :
  r_btx s' !! b = Some lb -> t' ∈ lb -> exists lb0, btx_of s b lb0 /\ t' ∈ lb0.
Proof using Hl.
  intros [[-> ->] | [_ Hb]]%removal_lists Ht'; [| eauto].
  eexists. split; [done |]. by apply elem_of_split_middle.
Qed.

(** A transaction behind [t] was recorded one further. *)
Lemma removal_behind j t' :
  l2 !! j = Some t' ->
  exists inner, r_t2b s !! ptr t' = Some inner /\ inner !! bd = Some (Z.of_nat (S (length l1 + j))).
Proof using Hco Hl.
  intros Hj. apply (co_pos _ _ _ Hco bd _ (S (length l1 + j)) t' Hl).
  rewrite lookup_app_r by (clear; lia).
  replace (S (length l1 + j) - length l1)%nat with (S j) by (clear; lia). done.
Qed.

Lemma removal_ptr b lb t' : btx_of s b lb -> t' ∈ lb -> ptr t' ∈ ptr <$> l2 -> t' ∈ l2.
Proof using Hco Hl Hinj.
  intros Hb Ht' (t'' & E & Ht'')%list_elem_of_fmap.
  assert (t' = t'') as ->; [| done].
  eapply Hinj; [by eapply (co_src _ _ _ Hco) | | done].
  eapply (co_src _ _ _ Hco); [exact Hl |]. apply elem_of_app. right. by right.
Qed.

Lemma removal_pos : positions_recorded s'.
Proof using Hco Hl Hm' Hp'.
  destruct removal_NoDup as (_ & Hdisj & _).
  intros b lb i t' [[-> ->] | [Hne Hb]]%removal_lists Hi; cbn; rewrite Hm'.
  - destruct (decide (i < length l1)%nat) as [Hlt | Hge].
    + rewrite lookup_app_l in Hi by done.
      rewrite decide_False; [eapply (co_pos _ _ _ Hco bd _ i t' Hl); by rewrite lookup_app_l |].
      intros Hbad. apply (Hdisj (ptr t')); [apply list_elem_of_fmap; eauto using list_elem_of_lookup_2 |].
      by right.
    + rewrite lookup_app_r in Hi by lia. destruct (removal_behind _ _ Hi) as (inner & -> & Hrec).
      rewrite decide_True by (apply list_elem_of_fmap; eauto using list_elem_of_lookup_2).
      eexists. split; [done |]. rewrite lookup_insert_eq, Hrec. cbn. f_equal. lia.
  - destruct (co_pos _ _ _ Hco b lb i t' Hb Hi) as (inner & -> & Hrec).
    case_decide; [| eauto]. eexists. split; [done |]. by rewrite lookup_insert_ne.
Qed.

(** Records kept as they were still point at their transaction. *)
Lemma removal_rec_kept b' k t' :
  0 <= k -> (exists l', btx_of s b' l' /\ l' !! Z.to_nat k = Some t') ->
  (b' = bd -> ptr t' ∉ ptr <$> l2) -> ptr t' <> ptr t ->
  exists l', r_btx s' !! b' = Some l' /\ l' !! Z.to_nat k = Some t'.
Proof using Hl Hm' Hp' Hinj Hco.
  intros Hk (l' & Hl' & Hlk) Hn2 Hne. cbn. rewrite lookup_insert.
  case_decide as E; [subst b' | eauto]. rewrite Hl in Hl'. injection Hl' as <-.
  exists (l1 ++ l2). split; [done |].
  destruct (decide (Z.to_nat k < length l1)%nat); [by rewrite lookup_app_l in * by done |].
  exfalso. rewrite lookup_app_r in Hlk by lia.
  destruct (Z.to_nat k - length l1)%nat as [| j]; cbn in Hlk; [congruence |].
  apply Hn2; [done |]. apply list_elem_of_fmap. eauto using list_elem_of_lookup_2.
Qed.

Lemma removal_rec : records_point (Some (ptr t)) s'.
Proof using Hco Hl Hm' Hinj Hp'.
  intros b lb t' inner b' k Hb Ht' Hne Hin Hk.
  destruct (removal_listed b lb t' Hb Ht') as (lb0 & Hb0 & Ht0). cbn in Hin. rewrite Hm' in Hin.
  assert (ptr t' <> ptr t) as Hne' by congruence.
  destruct (decide (ptr t' ∈ ptr <$> l2)) as [Hin2 | Hin2].
  - pose proof (removal_ptr _ _ _ Hb0 Ht0 Hin2) as [j Hj]%list_elem_of_lookup.
    destruct (removal_behind _ _ Hj) as (inner0 & E0 & Hbd). rewrite E0 in Hin.
    injection Hin as <-. rewrite lookup_insert in Hk. case_decide as E; [subst b' |].
    + rewrite Hbd in Hk. injection Hk as <-. cbn. split; [lia |]. exists (l1 ++ l2).
      rewrite lookup_insert_eq. split; [done |]. rewrite lookup_app_r by lia. rewrite <- Hj. f_equal. lia.
    + destruct (co_rec _ _ _ Hco b lb0 t' inner0 b' k Hb0 Ht0 Hne E0 Hk) as (Hk0 & Hl').
      split; [done |]. by apply removal_rec_kept.
  - destruct (co_rec _ _ _ Hco b lb0 t' inner b' k Hb0 Ht0 Hne Hin Hk) as (Hk0 & Hl').
    split; [done |]. by apply removal_rec_kept.
Qed.

Lemma removal_coherent : coherent src (Some (ptr t)) s'.
Proof using Hco Hl Hm' Hp' Hinj.
  constructor; [exact removal_pos | exact removal_rec | |].
  - intros b lb [[-> ->] | [Hne Hb]]%removal_lists; cbn.
    + exists p'. by rewrite lookup_insert_eq.
    + rewrite lookup_insert_ne by done. by apply (co_ratio _ _ _ Hco).
  - intros b lb t' Hb Ht'. destruct (removal_listed b lb t' Hb Ht') as (lb0 & Hb0 & Ht0).
    by eapply (co_src _ _ _ Hco).
Qed.
End Removal.

Lemma drop_from_run src t s bd l1 l2 :
  coherent src (Some (ptr t)) s -> btx_of s bd (l1 ++ t :: l2) ->
  exists p' m', length p' = length (l1 ++ l2) /\
    (forall q, m' !! q = if decide (q ∈ ptr <$> l2)
       then (fun inner => <[bd := default 0 (inner !! bd) - 1]> inner) <$> (r_t2b s !! q)
       else r_t2b s !! q) /\
    drop_from s (bd, zlen l1) =
      Ret (mkRound (r_now s) (<[bd := l1 ++ l2]> (r_btx s)) (<[bd := p']> (r_bratio s)) m'
             (r_result s) (r_draws s)).
Proof.
  intros Hco Hl. destruct (co_ratio _ _ _ Hco bd _ Hl) as (p & Hp & Hplen).
  destruct (lookup_lt_is_Some_2 p (length l1)) as [q Hq].
  { rewrite Hplen, length_app. cbn. lia. }
  apply list_elem_of_split_length in Hq as (p1 & p2 & -> & Hp1).
  destruct (removal_NoDup src t s bd l1 l2 Hco Hl) as (Hnd2 & _ & _).
  destruct (decr_loop bd l2 (r_t2b s)) as (m' & Hrun & Hm'); [done | |].
  { intros t' [j Hj]%list_elem_of_lookup.
    destruct (removal_behind src t s bd l1 l2 Hco Hl j t' Hj) as (inner & -> & _). eauto. }
  exists (p1 ++ p2), m'. split_and!; [| done |].
  { rewrite length_app in *. cbn in Hplen. rewrite length_app in Hplen. cbn in Hplen.
    rewrite length_app. lia. }
  unfold drop_from. rewrite Hl, Hp. cbn [default from_option id].
  rewrite remove_at_split. cbn.
  assert (zlen l1 = zlen p1) as -> by (unfold zlen; lia). rewrite remove_at_split. cbn.
  rewrite drop_app_length' by (unfold zlen; lia). by rewrite Hrun.
Qed.

Lemma drop_from_step src t inner_t bd k es s0 s :
  ptr_inj src ->
  removing src t inner_t ((bd, k) :: es) s0 s ->
  exists s', drop_from s (bd, k) = Ret s' /\ removing src t inner_t es s0 s'.
Proof.
  intros Hinj [Hco Hnd Hhere Honly Ht2b Hshr Hdom Hrest].
  destruct (Hhere bd k) as (Hk & l & Hl & Hlk); [left |].
  apply list_elem_of_split_length in Hlk as (l1 & l2 & -> & Hlen).
  assert (k = zlen l1) as -> by (unfold zlen; lia). clear Hk.
  cbn in Hnd. apply NoDup_cons in Hnd as [Hni Hnd].
  destruct (removal_NoDup src t s bd l1 l2 Hco Hl) as (_ & Hdisj & Htl2).
  destruct (drop_from_run src t s bd l1 l2 Hco Hl) as (p' & m' & Hp' & Hm' & ->).
  eexists. split; [done |].
  pose proof (removal_lists s bd l1 l2 p' m') as Hlists.
  constructor; cbn; [by apply removal_coherent | done | | | | | | done].
  - intros bd' k' Hin. destruct (Hhere bd' k') as (Hk' & l' & Hl' & Hlk'); [by right |].
    split; [done |]. exists l'. rewrite lookup_insert_ne; [done |].
    intros ->. apply Hni. apply list_elem_of_fmap. by exists (bd', k').
  - intros b lb t' [[-> ->] | [Hne Hb]]%Hlists Ht' E.
    + exfalso. apply elem_of_app in Ht' as [Ht' | Ht'].
      * apply (Hdisj (ptr t')); [apply list_elem_of_fmap; eauto | rewrite E; left].
      * apply Htl2. rewrite <- E. apply list_elem_of_fmap; eauto.
    + specialize (Honly b lb t' Hb Ht' E). cbn in Honly. apply elem_of_cons in Honly as [-> |]; done.
  - rewrite Hm', decide_False by done. done.
  - intros b lb [[-> ->] | [Hne Hb]]%Hlists; [| by apply Hshr].
    destruct (Hshr bd _ Hl) as (l0 & H0 & Hsub). exists l0. split; [done |].
    intros x Hx. apply Hsub. by apply elem_of_split_middle.
  - intros b Hb. apply lookup_insert_is_Some'. right. by apply Hdom.
Qed.

Lemma drop_from_loop src t inner_t es s0 s :
  ptr_inj src -> removing src t inner_t es s0 s ->
  exists s', for_each drop_from s es = Ret s' /\ removing src t inner_t [] s0 s'.
Proof.
  intros Hinj. revert s. induction es as [| [bd k] es IH]; intros s Hr; cbn [for_each]; [eauto |].
  destruct (drop_from_step _ _ _ _ _ _ _ _ Hinj Hr) as (s1 & -> & H1). cbn. by apply IH.
Qed.

(** ** One iteration of the rounding loop *)

Definition spent (b : string) (res : list BrokerRawMeg) : Z :=
  zsum_with (fun m => if decide (rm_Broker m = b) then val (rm_Tx m) else 0) res.

Definition alloc_ptrs (res : list BrokerRawMeg) : list positive := map (fun m => ptr (rm_Tx m)) res.

(** The invariant of the rounding: coherent indexes, and an allocation that is
    within the balances, gives no transaction twice, and has left no allocated
    transaction in the lists. *)
Record round_inv (src : string -> TxPtr -> Prop) (bal : gmap string Z) (s : round_state) : Prop := {
  ri_co : coherent src None s;
  ri_now : forall b C, bal !! b = Some C ->
    r_now s !! b = Some (spent b (r_result s)) /\
    (b ∈ map rm_Broker (r_result s) -> spent b (r_result s) <= C);
  ri_nodup : NoDup (alloc_ptrs (r_result s));
  ri_fresh : forall m b l t, m ∈ r_result s -> btx_of s b l -> t ∈ l -> ptr t <> ptr (rm_Tx m);
  ri_src : forall m, m ∈ r_result s -> src (rm_Broker m) (rm_Tx m)
}.

Lemma choice_loop_range r cum i p :
  choice_loop r cum i p = -1 \/ i <= choice_loop r cum i p < i + zlen p.
Proof.
  revert cum i. unfold zlen. induction p as [| q p IH]; intros cum i; cbn [choice_loop length]; [by left |].
  destruct (f64_leb r (f64_add cum q)); [right; lia |].
  destruct (IH (f64_add cum q) (i + 1)) as [-> | Hr]; [by left | right; lia].
Qed.

Lemma Random_choice_range p r : Random_choice p r = -1 \/ 0 <= Random_choice p r < zlen p.
Proof. apply choice_loop_range. Qed.

Lemma normalise_length p : length (normalise p) = length p.
Proof. apply length_map. Qed.

Lemma spent_app b r1 r2 : spent b (r1 ++ r2) = spent b r1 + spent b r2.
Proof. apply zsum_with_app. Qed.

Lemma spent_one b m : spent b [m] = if decide (rm_Broker m = b) then val (rm_Tx m) else 0.
Proof. unfold spent. rewrite zsum_with_cons, zsum_with_nil. lia. Qed.

(** Coherence does not depend on the ratios' values, the result or the draws. *)
Lemma coherent_ratio src s b l p now res d :
  coherent src None s -> btx_of s b l -> length p = length l ->
  coherent src None (mkRound now (r_btx s) (<[b := p]> (r_bratio s)) (r_t2b s) res d).
Proof.
  intros [H1 H2 H3 H4] Hl Hp. constructor; [exact H1 | exact H2 | | exact H4].
  intros b' l' Hb'. cbn in *. rewrite lookup_insert. case_decide as E; [| by apply H3].
  subst b'. rewrite Hl in Hb'. injection Hb' as <-. eauto.
Qed.

(** The removal loop starts from a coherent state. *)
Lemma removing_start src t s b l i inner :
  coherent src None s -> btx_of s b l -> l !! i = Some t -> r_t2b s !! ptr t = Some inner ->
  removing src t inner (map_to_list inner) s s.
Proof.
  intros Hco Hl Hi Hin. constructor; [| | | | done | eauto | done | done].
  - destruct Hco as [H1 H2 H3 H4]. constructor; [done | | done | done].
    intros ?????????. eapply H2; eauto.
  - apply NoDup_fst_map_to_list.
  - intros bd k Hk%elem_of_map_to_list.
    eapply (co_rec _ _ _ Hco b l t inner); eauto using list_elem_of_lookup_2.
  - intros b' l' t' Hb' [j Hj]%list_elem_of_lookup E.
    destruct (co_pos _ _ _ Hco b' l' j t' Hb' Hj) as (inner' & Hin' & Hrec).
    rewrite E, Hin in Hin'. injection Hin' as <-.
    apply list_elem_of_fmap. exists (b', Z.of_nat j). split; [done |]. by apply elem_of_map_to_list.
Qed.

Lemma removing_end src t inner s0 s :
  removing src t inner [] s0 s ->
  coherent src None s /\ (forall b l t', btx_of s b l -> t' ∈ l -> ptr t' <> ptr t).
Proof.
  intros [Hco _ _ Honly _ _ _ _].
  assert (forall b l t', btx_of s b l -> t' ∈ l -> ptr t' <> ptr t) as Hgone.
  { intros b l t' Hb Ht' E. specialize (Honly b l t' Hb Ht' E). by apply not_elem_of_nil in Honly. }
  split; [| done]. destruct Hco as [H1 H2 H3 H4]. constructor; [done | | done | done].
  intros b l t' inner' b' k Hb Ht' _. eapply H2; eauto. intros [= E]. by eapply Hgone.
Qed.

(** The list of the broker got shorter. *)
Lemma removed_shorter src t s b l l' :
  coherent src None s -> btx_of s b l' -> (forall x, x ∈ l' -> x ∈ l) -> t ∈ l -> t ∉ l' ->
  (length l' < length l)%nat.
Proof.
  intros Hco Hl' Hsub Ht Hnt.
  assert (NoDup l') as Hnd by (eapply NoDup_fmap_1, coherent_NoDup; eauto).
  assert (t :: l' ⊆+ l) as Hle%submseteq_length; [| cbn in Hle; lia].
  apply NoDup_submseteq; [by constructor |].
  intros x [-> | Hx]%elem_of_cons; auto.
Qed.

(** The allocation made in one iteration preserves the bookkeeping. *)
Lemma alloc_inv src bal s s' b t C :
  round_inv src bal s -> coherent src None s' -> bal !! b = Some C -> src b t ->
  (forall m, m ∈ r_result s -> ptr t <> ptr (rm_Tx m)) ->
  (forall b' l' t', btx_of s' b' l' -> t' ∈ l' -> ptr t' <> ptr t) ->
  (forall b' l', btx_of s' b' l' -> exists l0, btx_of s b' l0 /\ forall x, x ∈ l' -> x ∈ l0) ->
  let now := spent b (r_result s) in
  r_now s' = (if now + val t <=? C then <[b := now + val t]> (r_now s) else r_now s) ->
  r_result s' = (if now + val t <=? C then r_result s ++ [mkRawMeg t b] else r_result s) ->
  round_inv src bal s'.
Proof.
  intros Hinv Hco' HC Hsrc Hnew Hgone Hshr now Hnow Hres.
  destruct Hinv as [Hco Hn Hnd Hfr Hs].
  destruct (Z.leb_spec (now + val t) C) as [Hle | Hgt].
  - constructor; rewrite ?Hres, ?Hnow; [done | | | |].
    + intros b' C' HC'. rewrite spent_app, spent_one. cbn.
      destruct (Hn b' C' HC') as [Hnb Hlim]. rewrite lookup_insert. case_decide as E.
      * subst b'. rewrite HC in HC'. injection HC' as <-. split; [done |]. fold now. lia.
      * split; [rewrite Hnb; f_equal; lia |]. rewrite map_app, elem_of_app. cbn.
        intros [Hb' | Hb']; [specialize (Hlim Hb'); lia |].
        apply list_elem_of_singleton in Hb'. congruence.
    + unfold alloc_ptrs. rewrite map_app. apply NoDup_app. split_and!; [done | | cbn; apply NoDup_singleton].
      intros q Hq Hq'. cbn in Hq'. apply list_elem_of_singleton in Hq' as ->.
      apply list_elem_of_fmap in Hq as (m & E & Hm). by eapply Hnew.
    + intros m b' l' t' Hm Hb' Ht'. apply elem_of_app in Hm as [Hm | Hm].
      * destruct (Hshr b' l' Hb') as (l0 & Hl0 & Hsub). eapply Hfr; eauto.
      * apply list_elem_of_singleton in Hm as ->. cbn. by eapply Hgone.
    + intros m [Hm | Hm%list_elem_of_singleton]%elem_of_app; [by apply Hs | by subst m].
  - constructor; rewrite ?Hres, ?Hnow; [done | done | done | | done].
    intros m b' l' t' Hm Hb' Ht'. destruct (Hshr b' l' Hb') as (l0 & Hl0 & Hsub). eapply Hfr; eauto.
Qed.

(** The states the rounding goes through from [s0]. *)
Definition round_reach (rands : nat -> f64) (bal : gmap string Z) : round_state -> round_state -> Prop :=
  rtc (fun s s' => exists b, round_iter rands bal b s = Ret s').

(** In the run from [s0] a draw is missed: at a state the run reaches, the draw
    among the two or more candidates of a broker is above the sum of their
    normalised ratios. *)
Definition misses (rands : nat -> f64) (bal : gmap string Z) (s0 : round_state) : Prop :=
  exists s b q, round_reach rands bal s0 s /\ r_bratio s !! b = Some q /\ 1 < zlen q /\
    Random_choice (normalise q) (rands (r_draws s)) = -1.

Lemma misses_reach rands bal s s' : round_reach rands bal s s' -> misses rands bal s' -> misses rands bal s.
Proof. intros Hr (s1 & b & q & H1 & H2). exists s1, b, q. split; [by etrans | done]. Qed.

Lemma round_iter_inv rands src bal b s l C :
  ptr_inj src -> round_inv src bal s -> btx_of s b l -> l <> [] -> bal !! b = Some C ->
  (exists s', round_iter rands bal b s = Ret s' /\ round_inv src bal s' /\
     (forall b', is_Some (r_btx s !! b') -> is_Some (r_btx s' !! b')) /\
     exists l', btx_of s' b l' /\ (length l' < length l)%nat) \/
  (misses rands bal s /\ round_iter rands bal b s = Panic "index out of range").
Proof.
  intros Hinj Hinv Hl Hne HC. pose proof (ri_co _ _ _ Hinv) as Hco.
  destruct (co_ratio _ _ _ Hco b l Hl) as (p0 & Hp0 & Hlen0).
  unfold round_iter. rewrite Hl, Hp0. cbn [default from_option id].
  set (p := normalise p0). assert (length p = length l) as Hlen by (unfold p; by rewrite normalise_length).
  set (id0 := if 1 <? zlen l then Random_choice p (rands (r_draws s)) else 0).
  assert (id0 = -1 /\ 1 < zlen l /\ Random_choice p (rands (r_draws s)) = -1 \/ 0 <= id0 < zlen l)
    as [(E & E1 & Ec) | Hid].
  { unfold id0. destruct (Z.ltb_spec 1 (zlen l)).
    - destruct (Random_choice_range p (rands (r_draws s))) as [E | Hr]; [by left |].
      right. unfold zlen in *. lia.
    - right. destruct l; [done |]. unfold zlen. cbn. lia. }
  { right. split; [| by rewrite E]. exists s, b, p0. split_and!; [done | done | | done].
    unfold zlen in *. lia. }
  left. destruct (lookup_lt_is_Some_2 l (Z.to_nat id0)) as [t Ht]; [unfold zlen in Hid; lia |].
  rewrite (idx_returns l id0 t) by (done || lia). cbn.
  destruct (ri_now _ _ _ Hinv b C HC) as [Hnow _]. rewrite Hnow, HC. cbn.
  destruct (co_pos _ _ _ Hco b l _ t Hl Ht) as (inner & Hin & _). rewrite Hin. cbn.
  set (s1 := mkRound _ _ _ _ _ _).
  assert (coherent src None s1) as Hco1 by (by eapply coherent_ratio).
  destruct (drop_from_loop src t inner (map_to_list inner) s1 s1 Hinj) as (s' & Hrun & Hend).
  { by eapply removing_start. }
  exists s'. split; [done |]. destruct (removing_end _ _ _ _ _ Hend) as [Hco' Hgone].
  destruct Hend as [_ _ _ _ _ Hshr Hdom (Hn & Hres & _)]. cbn in Hn, Hres, Hshr, Hdom.
  pose proof (list_elem_of_lookup_2 _ _ _ Ht) as Htl.
  split; [| split; [done |]].
  - eapply (alloc_inv src bal s s' b t C); eauto.
    + by eapply (co_src _ _ _ Hco).
    + intros m Hm. by eapply (ri_fresh _ _ _ Hinv).
  - destruct (Hdom b) as [l' Hl']; [eauto |]. exists l'. split; [done |].
    destruct (Hshr b l' Hl') as (l0 & Hl0 & Hsub). rewrite Hl in Hl0. injection Hl0 as <-.
    eapply (removed_shorter src t s'); eauto. intros Hbad. by eapply Hgone.
Qed.

(** ** The rounding loops *)

(** The loop of one broker ends within its fuel and preserves the invariant,
    unless a draw is missed. *)
Lemma round_loop_inv rands src bal b C fuel s l :
  ptr_inj src -> bal !! b = Some C -> round_inv src bal s -> btx_of s b l -> (length l <= fuel)%nat ->
  (exists s', round_loop rands fuel bal s b = Ret s' /\ round_inv src bal s' /\
     round_reach rands bal s s' /\
     (forall b', is_Some (r_btx s !! b') -> is_Some (r_btx s' !! b'))) \/
  (misses rands bal s /\ round_loop rands fuel bal s b = Panic "index out of range").
Proof.
  intros Hinj HC. revert s l. induction fuel as [| fuel IH]; intros s l Hinv Hl Hlen.
  - assert (l = []) as -> by (by apply nil_length_inv; lia).
    left. exists s. cbn [round_loop]. rewrite Hl. split_and!; done.
  - cbn [round_loop]. rewrite Hl. destruct l as [| t0 l0]; [left; exists s; split_and!; done |].
    destruct (round_iter_inv rands src bal b s _ C Hinj Hinv Hl ltac:(done) HC)
      as [(s1 & E1 & Hinv1 & Hdom1 & l1 & Hl1 & Hlt) | [Hm ->]].
    + assert (round_reach rands bal s s1) as Hreach by (apply rtc_once; eauto).
      rewrite E1. cbn. destruct (IH s1 l1 Hinv1 Hl1 ltac:(lia)) as [(s' & -> & Hinv' & Hr' & Hdom') | [Hm ->]].
      * left. exists s'. split_and!; [done | done | by etrans | auto].
      * right. split; [by eapply misses_reach | done].
    + by right.
Qed.

Lemma round_all_inv rands src bal bs s :
  ptr_inj src -> round_inv src bal s ->
  (forall b, b ∈ bs -> is_Some (bal !! b) /\ is_Some (r_btx s !! b)) ->
  (exists s', for_each (round_broker rands bal) s bs = Ret s' /\ round_inv src bal s') \/
  (misses rands bal s /\ for_each (round_broker rands bal) s bs = Panic "index out of range").
Proof.
  intros Hinj. revert s. induction bs as [| b bs IH]; intros s Hinv Hbs; cbn [for_each]; [left; eauto |].
  destruct (Hbs b) as [[C HC] [l Hl]]; [left |]. 
  assert (round_broker rands bal s b = round_loop rands (length l) bal s b) as ->
    by (unfold round_broker; by rewrite Hl).
  destruct (round_loop_inv rands src bal b C (length l) s l Hinj HC Hinv Hl ltac:(done))
    as [(s1 & -> & Hinv1 & Hr1 & Hdom1) | [Hm ->]]; [| by right].
  cbn. destruct (IH s1 Hinv1) as [? | [Hm ?]]; [| by left | right; split; [by eapply misses_reach | done]].
  intros b' Hb'. destruct (Hbs b') as [? ?]; [by right |]. auto.
Qed.

(** ** Building the indexes *)

(** While the indexes are built, the recorded positions are exactly the listed
    ones. *)
Record building (src : string -> TxPtr -> Prop) (bs : list string) (s : round_state) : Prop := {
  bu_co : coherent src None s;
  bu_rec : forall t inner b k, r_t2b s !! t = Some inner -> inner !! b = Some k ->
    0 <= k /\ exists l t', btx_of s b l /\ l !! Z.to_nat k = Some t' /\ ptr t' = t;
  bu_dom : forall b, b ∈ bs -> is_Some (r_btx s !! b)
}.

(** Recording a ratio keeps every recorded position right. *)
Lemma add_ratio_recorded src bs s t b ratio q inner b' k :
  building src bs s -> b ∈ bs ->
  let s' := add_ratio t s (b, ratio) in
  r_t2b s' !! q = Some inner -> inner !! b' = Some k ->
  0 <= k /\ exists l t', btx_of s' b' l /\ l !! Z.to_nat k = Some t' /\ ptr t' = q.
Proof.
  intros [Hco Hrec Hdom] Hb. destruct (Hdom b Hb) as [lb Hlb].
  unfold add_ratio. rewrite Hlb. cbn. set (inner0 := default ∅ (r_t2b s !! ptr t)).
  assert (zlen (lb ++ [t]) - 1 = Z.of_nat (length lb)) as -> by (unfold zlen; rewrite length_app; cbn; lia).
  intros Hq Hk.
  assert ((q = ptr t /\ b' = b /\ k = Z.of_nat (length lb)) \/
          exists inner1, r_t2b s !! q = Some inner1 /\ inner1 !! b' = Some k) as [(-> & -> & ->) | (inner1 & H1 & H2)].
  { rewrite lookup_insert in Hq. case_decide as E; [| eauto]. injection Hq as <-.
    rewrite lookup_insert in Hk. case_decide as E'; [injection Hk as <-; auto |].
    subst q. right. unfold inner0 in Hk. destruct (r_t2b s !! ptr t) as [i1 |]; cbn in Hk; [eauto | done]. }
  - split; [lia |]. exists (lb ++ [t]), t. rewrite lookup_insert_eq.
    split_and!; [done | | done]. rewrite Nat2Z.id. apply list_lookup_middle. done.
  - destruct (Hrec q inner1 b' k H1 H2) as (Hk0 & l & t' & Hl & Hlk & Ept). split; [done |].
    destruct (decide (b = b')) as [<- | Hne].
    + rewrite Hlb in Hl. injection Hl as <-. exists (lb ++ [t]), t'. rewrite lookup_insert_eq.
      split_and!; [done | | done]. apply lookup_app_l_Some. done.
    + exists l, t'. by rewrite lookup_insert_ne.
Qed.

Lemma add_ratio_building src bs s t b ratio :
  ptr_inj src -> building src bs s -> src b t -> b ∈ bs ->
  (forall l t', btx_of s b l -> t' ∈ l -> ptr t' <> ptr t) ->
  building src bs (add_ratio t s (b, ratio)).
Proof.
  intros Hinj Hbu Hsrc Hb Hnew.
  assert (Hrec' : forall q inner b' k, r_t2b (add_ratio t s (b, ratio)) !! q = Some inner -> inner !! b' = Some k ->
    0 <= k /\ exists l t', btx_of (add_ratio t s (b, ratio)) b' l /\ l !! Z.to_nat k = Some t' /\ ptr t' = q)
    by (intros; by eapply add_ratio_recorded).
  destruct Hbu as [Hco _ Hdom]. destruct (Hdom b Hb) as [lb Hlb].
  destruct (co_ratio _ _ _ Hco b lb Hlb) as (pb & Hpb & Hplen).
  revert Hrec'. unfold add_ratio. rewrite Hlb, Hpb. cbn [default from_option id].
  set (inner0 := default ∅ (r_t2b s !! ptr t)).
  assert (zlen (lb ++ [t]) - 1 = Z.of_nat (length lb)) as ->.
  { unfold zlen. rewrite length_app. cbn. lia. }
  set (s' := mkRound _ _ _ _ _ _). intros Hrec'.
  constructor; [| exact Hrec' | cbn; intros b' Hb'; apply lookup_insert_is_Some'; right; auto].
  assert (forall b' l', r_btx s' !! b' = Some l' ->
     (b' = b /\ l' = lb ++ [t]) \/ (b' <> b /\ btx_of s b' l')) as Hlists.
  { intros b' l' Hl'. cbn in Hl'. rewrite lookup_insert in Hl'. case_decide; [| auto].
    injection Hl' as <-. auto. }
  assert (listed_from src s') as Hsrc'.
  { intros b' l' t' [[-> ->] | [_ Hb']]%Hlists Ht'; [| by eapply (co_src _ _ _ Hco)].
    apply elem_of_app in Ht' as [Ht' | ->%list_elem_of_singleton]; [by eapply (co_src _ _ _ Hco) | done]. }
  constructor; [| | | exact Hsrc'].
  - intros b' l' i t' Hl' Hi. cbn.
    destruct (Hlists b' l' Hl') as [[-> ->] | [Hne Hb']].
    + destruct (decide (i < length lb)%nat).
      * rewrite lookup_app_l in Hi by done.
        destruct (co_pos _ _ _ Hco b lb i t' Hlb Hi) as (inner & H1 & H2).
        assert (ptr t' <> ptr t) by (eapply Hnew; eauto using list_elem_of_lookup_2).
        exists inner. by rewrite lookup_insert_ne.
      * rewrite lookup_app_r in Hi by lia. apply list_lookup_singleton_Some in Hi as [Hi ->].
        eexists. rewrite lookup_insert_eq. split; [done |]. rewrite lookup_insert_eq. f_equal. lia.
    + destruct (co_pos _ _ _ Hco b' l' i t' Hb' Hi) as (inner & H1 & H2).
      rewrite lookup_insert. case_decide as E; [| by exists inner]. rewrite <- E in H1.
      eexists. split; [done |]. rewrite lookup_insert_ne by done.
      unfold inner0. by rewrite H1.
  - intros b' l' t' inner b'' k Hl' Ht' _ Hin Hk.
    destruct (Hrec' _ _ _ _ Hin Hk) as (Hk0 & l'' & t'' & Hl'' & Hlk & Ep). split; [done |].
    exists l''. split; [done |]. rewrite Hlk. f_equal.
    apply (Hinj b'' b' t'' t'); [| by apply (Hsrc' b' l') | done].
    apply (Hsrc' b'' l''); eauto using list_elem_of_lookup_2.
  - intros b' l' [[-> ->] | [Hne Hb']]%Hlists; cbn.
    + exists (pb ++ [ratio]). rewrite lookup_insert_eq, !length_app. cbn. split; [done | lia].
    + rewrite lookup_insert_ne by done. by apply (co_ratio _ _ _ Hco).
Qed.

Lemma add_ratio_listed s t b ratio b' l t' :
  btx_of (add_ratio t s (b, ratio)) b' l -> t' ∈ l ->
  (exists l0, btx_of s b' l0 /\ t' ∈ l0) \/ (b' = b /\ t' = t).
Proof.
  cbn. rewrite lookup_insert. case_decide as E; [subst b' | eauto]. intros [= <-] Ht'.
  apply elem_of_app in Ht' as [Ht' | ->%list_elem_of_singleton]; [| auto].
  left. destruct (r_btx s !! b) as [l0 |]; cbn in Ht'; [eauto | by apply not_elem_of_nil in Ht'].
Qed.

Lemma add_ratios_building src bs t es s :
  ptr_inj src -> NoDup es.*1 -> building src bs s ->
  (forall b, b ∈ es.*1 -> src b t /\ b ∈ bs) ->
  (forall b l t', b ∈ es.*1 -> btx_of s b l -> t' ∈ l -> ptr t' <> ptr t) ->
  let s' := foldl (add_ratio t) s es in
  building src bs s' /\ r_now s' = r_now s /\ r_result s' = r_result s /\
  (forall b l t', btx_of s' b l -> t' ∈ l -> (exists l0, btx_of s b l0 /\ t' ∈ l0) \/ t' = t).
Proof.
  intros Hinj. revert s. induction es as [| [b ratio] es IH]; intros s Hnd Hbu Hes Hnew; cbn [foldl].
  { cbn. split_and!; eauto. }
  cbn in Hnd. apply NoDup_cons in Hnd as [Hni Hnd].
  destruct (Hes b) as [Hsrc Hb]; [left |].
  destruct (IH (add_ratio t s (b, ratio))) as (Hbu' & Hn & Hr & Hlists); [done | | | |].
  - apply add_ratio_building; [done.. |]. intros l t'. apply Hnew. left.
  - intros b' Hb'. apply Hes. by right.
  - intros b' l t' Hb' Hl Ht'. destruct (add_ratio_listed _ _ _ _ _ _ _ Hl Ht') as [(l0 & Hl0 & H0) | [-> ->]].
    + eapply Hnew; eauto. by right.
    + done.
  - split_and!; [done.. |]. intros b' l t' Hl Ht'.
    destruct (Hlists b' l t' Hl Ht') as [(l0 & Hl0 & H0) | ->]; [| by right].
    destruct (add_ratio_listed _ _ _ _ _ _ _ Hl0 H0) as [? | [_ ->]]; [by left | by right].
Qed.

(** Where a transaction may be listed: with a broker of its fractional
    assignment. *)
Definition urfa_src (megs : list RatioBrokerRawMeg) (b : string) (t : TxPtr) : Prop :=
  exists meg, meg ∈ megs /\ ra_Tx meg = t /\ is_Some (BrokerRatio meg !! b).

Definition ratio_ptrs (megs : list RatioBrokerRawMeg) : list positive := map (fun m => ptr (ra_Tx m)) megs.

Lemma urfa_src_inj megs : NoDup (ratio_ptrs megs) -> ptr_inj (urfa_src megs).
Proof.
  intros Hnd b b' t t' (m & Hm & <- & _) (m' & Hm' & <- & _) E.
  apply list_elem_of_lookup in Hm as [i Hi]. apply list_elem_of_lookup in Hm' as [j Hj].
  assert (i = j) as ->; [| congruence].
  eapply (NoDup_lookup (ratio_ptrs megs) _ _ (ptr (ra_Tx m))); [done | |];
    apply list_lookup_fmap_Some; eauto.
Qed.

Lemma add_megs_building src bs megs s :
  ptr_inj src -> NoDup (ratio_ptrs megs) -> building src bs s ->
  (forall m b, m ∈ megs -> is_Some (BrokerRatio m !! b) -> src b (ra_Tx m) /\ b ∈ bs) ->
  (forall b l t, btx_of s b l -> t ∈ l -> ptr t ∉ ratio_ptrs megs) ->
  let s' := foldl (fun s meg => foldl (add_ratio (ra_Tx meg)) s (map_to_list (BrokerRatio meg))) s megs in
  building src bs s' /\ r_now s' = r_now s /\ r_result s' = r_result s.
Proof.
  intros Hinj. revert s. induction megs as [| m megs IH]; intros s Hnd Hbu Hmegs Hnew; cbn [foldl]; [done |].
  cbn in Hnd. apply NoDup_cons in Hnd as [Hni Hnd].
  assert (forall b, b ∈ (map_to_list (BrokerRatio m)).*1 -> is_Some (BrokerRatio m !! b)) as Hkeys.
  { intros b ([b' q] & -> & Hbq%elem_of_map_to_list)%list_elem_of_fmap. eauto. }
  destruct (add_ratios_building src bs (ra_Tx m) (map_to_list (BrokerRatio m)) s)
    as (Hbu1 & Hn1 & Hr1 & Hl1); [done | apply NoDup_fst_map_to_list | done | | |].
  - intros b Hb. apply Hmegs; [left | by apply Hkeys].
  - intros b l t' _ Hl Ht' E. eapply Hnew; eauto. rewrite E. left.
  - destruct (IH _ Hnd Hbu1) as (? & Hn & Hr).
    + intros m' b Hm'. apply Hmegs. by right.
    + intros b l t Hl Ht. destruct (Hl1 b l t Hl Ht) as [(l0 & Hl0 & H0) | ->]; [| done].
      intros Hbad. eapply Hnew; eauto. by right.
    + split_and!; [done | congruence | congruence].
Qed.

Lemma foldl_insert_const_inv `{Countable K} {A} (x : A) (l : list K) (m : gmap K A) k y :
  foldl (fun m k => <[k := x]> m) m l !! k = Some y -> y = x \/ m !! k = Some y.
Proof.
  revert m. induction l as [| k0 l IH]; intros m; cbn; [auto |]. intros [-> | Hm]%IH; [by left |].
  rewrite lookup_insert in Hm. case_decide; [left; congruence | by right].
Qed.

(** The indexes built from a fractional assignment satisfy the invariant. *)
Lemma build_indexes_inv addrs megs bal :
  NoDup (ratio_ptrs megs) -> (forall m b, m ∈ megs -> is_Some (BrokerRatio m !! b) -> b ∈ addrs) ->
  let s := build_indexes addrs megs bal in
  round_inv (urfa_src megs) bal s /\ forall b, b ∈ addrs -> is_Some (r_btx s !! b).
Proof.
  intros Hnd Hkeys s. pose proof (urfa_src_inj megs Hnd) as Hinj.
  set (s0 := mkRound ((fun _ => 0) <$> bal) (foldl (fun m b => <[b := []]> m) ∅ addrs)
               (foldl (fun m b => <[b := []]> m) ∅ addrs) ∅ [] 0).
  assert (forall b l, btx_of s0 b l -> l = [] /\ b ∈ addrs) as Hempty.
  { intros b l Hl. cbn in Hl. pose proof Hl as [-> | Hbad]%foldl_insert_const_inv; [| done].
    split; [done |]. destruct (decide (b ∈ addrs)) as [|Hn]; [done |]. exfalso. revert Hl Hn. clear.
    assert (forall m, m !! b = None -> b ∉ addrs ->
      foldl (fun (m : gmap string (list TxPtr)) b => <[b := []]> m) m addrs !! b = None) as H.
    { induction addrs as [| a l IH]; intros m Hm Hn; cbn; [done |].
      apply not_elem_of_cons in Hn as [Hne Hn]. apply IH; [by rewrite lookup_insert_ne | done]. }
    intros Hl Hn. by rewrite H in Hl. }
  assert (building (urfa_src megs) addrs s0) as Hb0.
  { constructor; [constructor | |].
    - intros b l i t [-> _]%Hempty Hi. done.
    - intros b l t inner b' k [-> _]%Hempty Ht. by apply not_elem_of_nil in Ht.
    - intros b l [-> Hb]%Hempty. exists []. split; [| done]. cbn. apply foldl_insert_const. by left.
    - intros b l t [-> _]%Hempty Ht. by apply not_elem_of_nil in Ht.
    - intros t inner b k Hin. done.
    - intros b Hb. exists []. cbn. apply foldl_insert_const. by left. }
  destruct (add_megs_building (urfa_src megs) addrs megs s0 Hinj Hnd Hb0) as (Hbu & Hn & Hr).
  { intros m b Hm Hb. split; [by exists m | eauto]. }
  { intros b l t [-> _]%Hempty Ht. by apply not_elem_of_nil in Ht. }
  unfold s, build_indexes. fold s0. split; [| apply (bu_dom _ _ _ Hbu)].
  constructor; rewrite ?Hn, ?Hr; cbn.
  - apply Hbu.
  - intros b C HC. rewrite lookup_fmap, HC. cbn. split; [done |]. intros Hbad. by apply not_elem_of_nil in Hbad.
  - constructor.
  - intros m b l t Hm. by apply not_elem_of_nil in Hm.
  - intros m Hm. by apply not_elem_of_nil in Hm.
Qed.

(** ** [B2E_Rounding] *)

(** What an allocation promises: nothing twice, only to a broker that may have it,
    and within the balance of every broker that received something. *)
Record allocation_ok (src : string -> TxPtr -> Prop) (bal : gmap string Z) (res : list BrokerRawMeg)
  : Prop := {
  al_nodup : NoDup (alloc_ptrs res);
  al_src : forall m, m ∈ res -> src (rm_Broker m) (rm_Tx m);
  al_within : forall b C, bal !! b = Some C -> b ∈ map rm_Broker res -> spent b res <= C
}.

Lemma B2E_Rounding_spec rands addrs megs bal :
  NoDup (ratio_ptrs megs) -> (forall m b, m ∈ megs -> is_Some (BrokerRatio m !! b) -> b ∈ addrs) ->
  (forall b, b ∈ addrs -> is_Some (bal !! b)) ->
  (exists res, B2E_Rounding rands addrs megs bal = Ret res /\ allocation_ok (urfa_src megs) bal res) \/
  (misses rands bal (build_indexes addrs megs bal) /\ B2E_Rounding rands addrs megs bal = Panic "index out of range").
Proof.
  intros Hnd Hkeys Hbal. destruct (build_indexes_inv addrs megs bal Hnd Hkeys) as [Hinv Hdom].
  unfold B2E_Rounding.
  destruct (round_all_inv rands (urfa_src megs) bal addrs _ (urfa_src_inj _ Hnd) Hinv)
    as [(s' & -> & [_ Hnow Hnd' _ Hsrc]) | [Hm ->]]; [auto | | by right].
  left. exists (r_result s'). split; [done |]. constructor; [done | done |].
  intros b C HC. by apply Hnow.
Qed.

(** ** [URFA_Linear] *)

(** The brokers are enumerated from the balance map. *)
Definition enumerates (addrs : list string) (bal : gmap string Z) : Prop :=
  forall b, b ∈ addrs <-> is_Some (bal !! b).

(** The invariant of the allocation loop after the transactions [done_]. *)
Record urfa_inv (bal : gmap string Z) (addrs : list string) (done_ : list TxPtr) (s : urfa_state)
  : Prop := {
  ui_index : 0 <= u_index s;
  ui_now : forall b, b ∈ addrs -> is_Some (u_now s !! b);
  ui_sub : map ra_Tx (u_result s) `sublist_of` done_;
  ui_keys : forall m b, m ∈ u_result s -> is_Some (BrokerRatio m !! b) ->
    b ∈ addrs /\ exists C, bal !! b = Some C;
  ui_some : forall m, m ∈ u_result s -> exists b C, is_Some (BrokerRatio m !! b) /\
    bal !! b = Some C /\ val (ra_Tx m) <= C
}.

Lemma urfa_spill_keys l B1 C1 sub ratio m b :
  is_Some (urfa_spill l B1 C1 sub ratio m !! b) -> b ∈ l \/ is_Some (m !! b).
Proof.
  induction l as [| a l IH]; cbn; [auto |]. destruct (C1 <? B1 + sub).
  - intros [Hl | Hm]%IH; [left; by right | auto].
  - rewrite lookup_insert_is_Some'. intros [-> |]; [left; left | auto].
Qed.

Lemma urfa_spill_keeps l B1 C1 sub ratio m b :
  is_Some (m !! b) -> is_Some (urfa_spill l B1 C1 sub ratio m !! b).
Proof.
  induction l as [| a l IH]; cbn; [done |]. intros Hm. destruct (C1 <? B1 + sub); [auto |].
  apply lookup_insert_is_Some'. auto.
Qed.

Lemma urfa_inv_skip bal addrs d t s s' :
  urfa_inv bal addrs d s -> u_index s' = u_index s \/ u_index s' = u_index s + 1 ->
  (forall b, is_Some (u_now s !! b) -> is_Some (u_now s' !! b)) -> u_result s' = u_result s ->
  urfa_inv bal addrs (d ++ [t]) s'.
Proof.
  intros [H1 H2 H3 H4 H5] Hi Hn Hr. constructor; rewrite ?Hr; [lia | auto | | done | done].
  etrans; [exact H3 |]. by apply sublist_inserts_r.
Qed.

Lemma urfa_inv_add bal addrs d t s s' ratios a C :
  urfa_inv bal addrs d s -> enumerates addrs bal -> 0 <= u_index s' ->
  (forall b, is_Some (u_now s !! b) -> is_Some (u_now s' !! b)) ->
  u_result s' = u_result s ++ [mkRatio t ratios] ->
  (forall b, is_Some (ratios !! b) -> b ∈ addrs) ->
  is_Some (ratios !! a) -> bal !! a = Some C -> val t <= C ->
  urfa_inv bal addrs (d ++ [t]) s'.
Proof.
  intros [H1 H2 H3 H4 H5] Hen Hi Hn Hr Hk Ha HC Hv. constructor; rewrite ?Hr; [done | auto | | |].
  - rewrite map_app. by apply sublist_app.
  - intros m b [Hm | ->%list_elem_of_singleton]%elem_of_app Hb; [by apply (H4 m) |]. cbn in Hb.
    split; [by apply Hk | by apply Hen, Hk].
  - intros m [Hm | ->%list_elem_of_singleton]%elem_of_app; [by apply H5 |]. eauto.
Qed.

Lemma urfa_step_inv bal addrs d s t :
  enumerates addrs bal -> urfa_inv bal addrs d s ->
  exists s', urfa_step bal addrs s t = Ret s' /\ urfa_inv bal addrs (d ++ [t]) s'.
Proof.
  intros Hen Hinv. pose proof (ui_index _ _ _ _ Hinv) as Hi0. unfold urfa_step.
  destruct (u_break s); [eexists; split; [done | by eapply urfa_inv_skip; eauto] |].
  destruct (Z.leb_spec (zlen addrs) (u_index s));
    [eexists; split; [done | by eapply urfa_inv_skip; eauto] |].
  destruct (lookup_lt_is_Some_2 addrs (Z.to_nat (u_index s))) as [a Ha]; [unfold zlen in *; lia |].
  rewrite (idx_returns addrs (u_index s) a) by (done || lia). cbn.
  assert (a ∈ addrs) as Hain by eauto using list_elem_of_lookup_2.
  destruct (ui_now _ _ _ _ Hinv a Hain) as [B HB]. destruct (proj1 (Hen a) Hain) as [C HC].
  rewrite HB, HC. cbn.
  destruct (Z.ltb_spec C (val t)); [eexists; split; [done | by eapply urfa_inv_skip; eauto] |].
  assert (forall v b, is_Some (u_now s !! b) -> is_Some (<[a:=v]> (u_now s) !! b)) as Hkeep.
  { intros v b Hb. apply lookup_insert_is_Some'. by right. }
  destruct ((B <? C) && (C <=? B + val t)) eqn:Hfull.
  - destruct (Z.leb_spec (zlen addrs) (u_index s + 1)).
    { eexists; split; [done |]. eapply urfa_inv_skip; [done | by right | cbn; auto | done]. }
    destruct (lookup_lt_is_Some_2 addrs (Z.to_nat (u_index s + 1))) as [a1 Ha1]; [unfold zlen in *; lia |].
    rewrite (idx_returns _ _ a1) by (done || lia). cbn.
    assert (a1 ∈ addrs) as Ha1in by eauto using list_elem_of_lookup_2.
    destruct (Hkeep C a1 (ui_now _ _ _ _ Hinv a1 Ha1in)) as [B1 ->].
    destruct (proj1 (Hen a1) Ha1in) as [C1 ->]. cbn. eexists. split; [done |].
    eapply (urfa_inv_add _ _ _ _ _ _ _ a C); [done | done | cbn; lia | cbn; auto | done | | | done | done].
    + intros b [Hb | Hb]%urfa_spill_keys; [|].
      { rewrite <- (take_drop (Z.to_nat (u_index s + 1)) addrs). apply elem_of_app. by right. }
      apply lookup_singleton_is_Some in Hb. by subst.
    + apply urfa_spill_keeps. apply lookup_singleton_is_Some. done.
  - eexists. split; [done |].
    eapply (urfa_inv_add _ _ _ _ _ _ _ a C); [done | done | done | cbn; auto | done | | | done | done].
    + intros b Hb. apply lookup_singleton_is_Some in Hb. by subst.
    + by apply lookup_singleton_is_Some.
Qed.

Lemma URFA_Linear_spec addrs sorted bal :
  enumerates addrs bal ->
  exists res, URFA_Linear addrs sorted bal = Ret res /\
    map ra_Tx res `sublist_of` sorted /\
    (forall m b, m ∈ res -> is_Some (BrokerRatio m !! b) -> b ∈ addrs) /\
    (forall m, m ∈ res -> exists b C, is_Some (BrokerRatio m !! b) /\ bal !! b = Some C /\ val (ra_Tx m) <= C).
Proof.
  intros Hen. unfold URFA_Linear.
  assert (forall d l s, urfa_inv bal addrs d s ->
    exists s', for_each (urfa_step bal addrs) s l = Ret s' /\ urfa_inv bal addrs (d ++ l) s') as Hloop.
  { intros d l. revert d. induction l as [| t l IH]; intros d s Hs; cbn [for_each].
    - exists s. by rewrite app_nil_r.
    - destruct (urfa_step_inv bal addrs d s t Hen Hs) as (s1 & -> & H1). cbn.
      destruct (IH _ _ H1) as (s' & -> & H'). exists s'. by rewrite <- app_assoc in H'. }
  destruct (Hloop [] sorted (mkUrfa 0 ((fun _ => 0) <$> bal) [] false)) as (s' & -> & [_ _ Hsub Hk Hv]).
  - constructor; cbn; [done | | done | |].
    + intros b Hb%Hen. by rewrite lookup_fmap, fmap_is_Some.
    + intros m b Hm. by apply not_elem_of_nil in Hm.
    + intros m Hm. by apply not_elem_of_nil in Hm.
  - eexists. split; [done |]. split_and!; [done | | done]. intros m b Hm Hb. by eapply Hk.
Qed.

(** ** [B2E] *)

(** The choices Go may make for the balances [bal]: the map ranges enumerate the
    brokers, and the sort permutes its input (in which order does not matter
    here). *)
Record choice_ok (bal : gmap string Z) (c : b2e_choice) : Prop := {
  ch_ok_urfa : enumerates (ch_urfa_order c) bal;
  ch_ok_round : enumerates (ch_round_order c) bal;
  ch_ok_sort : forall l, ch_sort c l ≡ₚ l
}.

Lemma difference_spec l1 l2 m :
  m ∈ difference_megs l1 l2 <-> m ∈ l1 /\ ptr (rm_Tx m) ∉ alloc_ptrs l2.
Proof. unfold difference_megs. rewrite list_elem_of_filter. unfold alloc_ptrs. tauto. Qed.

Lemma difference_alloc_ptrs l1 l2 :
  alloc_ptrs (difference_megs l1 l2) = filter (fun q => q ∉ alloc_ptrs l2) (alloc_ptrs l1).
Proof.
  unfold difference_megs, alloc_ptrs. induction l1 as [| m l1 IH]; [done |].
  cbn [map]. rewrite !filter_cons. repeat case_decide; try done. cbn [map]. by rewrite IH.
Qed.

(** The remaining requests and the allocated ones partition the requests. *)
Lemma difference_partition l1 l2 :
  NoDup (alloc_ptrs l1) -> NoDup (alloc_ptrs l2) -> (forall q, q ∈ alloc_ptrs l2 -> q ∈ alloc_ptrs l1) ->
  alloc_ptrs l2 ++ alloc_ptrs (difference_megs l1 l2) ≡ₚ alloc_ptrs l1.
Proof.
  intros H1 H2 Hsub. rewrite difference_alloc_ptrs. apply NoDup_Permutation.
  - apply NoDup_app. split_and!; [done | | by apply NoDup_filter].
    intros q Hq [Hn _]%list_elem_of_filter. done.
  - done.
  - intros q. rewrite elem_of_app, list_elem_of_filter.
    specialize (Hsub q). destruct (decide (q ∈ alloc_ptrs l2)); tauto.
Qed.

Lemma charge_loop res now :
  (forall m, m ∈ res -> is_Some (now !! rm_Broker m)) ->
  exists now', for_each charge now res = Ret now' /\
    forall b, now' !! b = (fun v => v - spent b res) <$> now !! b.
Proof.
  revert now. induction res as [| m res IH]; intros now Hd; cbn [for_each].
  - exists now. split; [done |]. intros b. destruct (now !! b); cbn; [f_equal; unfold spent; rewrite zsum_with_nil; lia | done].
  - destruct (Hd m) as [v Hv]; [left |].
    assert (charge now m = Ret (<[rm_Broker m := v - val (rm_Tx m)]> now)) as ->
      by (unfold charge; by rewrite Hv). cbn.
    destruct (IH (<[rm_Broker m := v - val (rm_Tx m)]> now)) as (now' & -> & Hn').
    { intros m' Hm'. apply lookup_insert_is_Some'. right. apply Hd. by right. }
    exists now'. split; [done |]. intros b. rewrite Hn'. unfold spent. rewrite zsum_with_cons.
    rewrite lookup_insert. case_decide as E; [subst b; rewrite Hv; cbn; f_equal; lia |].
    destruct (now !! b); cbn; [f_equal; lia | done].
Qed.

(** The state of the iterations: [total] are the brokers' balances at the start
    and [megs] the cross-shard requests. *)
Record b2e_inv (total : gmap string Z) (megs : list BrokerRawMeg) (s : b2e_state) : Prop := {
  be_now : forall b, b_now s !! b = (fun v => v - spent b (b_result s)) <$> total !! b;
  be_within : forall b C, total !! b = Some C -> b ∈ map rm_Broker (b_result s) ->
    spent b (b_result s) <= C;
  be_parts : alloc_ptrs (b_result s) ++ alloc_ptrs (b_megs s) ≡ₚ alloc_ptrs megs;
  be_megs : forall m, m ∈ b_megs s -> m ∈ megs;
  be_txs : forall m, m ∈ b_result s -> rm_Tx m ∈ map rm_Tx megs /\ is_Some (total !! rm_Broker m)
}.

Lemma enumerates_dom addrs (bal bal' : gmap string Z) :
  (forall b, is_Some (bal' !! b) <-> is_Some (bal !! b)) -> enumerates addrs bal -> enumerates addrs bal'.
Proof. intros Hd He b. rewrite Hd. apply He. Qed.

(** The rounding of the iteration [c] from [s] misses a draw. *)
Definition iter_misses (s : b2e_state) (c : b2e_choice) : Prop :=
  exists urfa, URFA_Linear (ch_urfa_order c) (ch_sort c (map rm_Tx (b_megs s))) (b_now s) = Ret urfa /\
    misses (ch_rands c) (b_now s) (build_indexes (ch_round_order c) urfa (b_now s)).

(** What one iteration adds. *)
Lemma b2e_iter_run s c :
  NoDup (alloc_ptrs (b_megs s)) -> choice_ok (b_now s) c ->
  (exists res now', b2e_iter s c = Ret (mkB2E (difference_megs (b_megs s) res) now' (b_result s ++ res)) /\
     allocation_ok (fun b t => t ∈ map rm_Tx (b_megs s) /\ is_Some (b_now s !! b)) (b_now s) res /\
     forall b, now' !! b = (fun v => v - spent b res) <$> b_now s !! b) \/
  (iter_misses s c /\ b2e_iter s c = Panic "index out of range").
Proof.
  intros Hnd [Hu Hr Hperm]. specialize (Hperm (map rm_Tx (b_megs s))). unfold b2e_iter.
  destruct (URFA_Linear_spec (ch_urfa_order c) (ch_sort c (map rm_Tx (b_megs s))) (b_now s) Hu)
    as (urfa & Eurfa & Hsub & Hkeys & _). rewrite Eurfa. cbn.
  assert (map ra_Tx urfa ⊆+ map rm_Tx (b_megs s)) as Hin by (rewrite <- Hperm; by apply sublist_submseteq).
  assert (NoDup (ratio_ptrs urfa)) as Hnd'.
  { apply submseteq_Permutation in Hin as [k Hk]. unfold alloc_ptrs in Hnd.
    rewrite <- (map_map rm_Tx ptr), Hk, map_app, map_map in Hnd. by apply NoDup_app in Hnd as (? & _). }
  assert (forall b, b ∈ ch_urfa_order c <-> b ∈ ch_round_order c) as Hor.
  { intros b. rewrite (Hu b), (Hr b). done. }
  destruct (B2E_Rounding_spec (ch_rands c) (ch_round_order c) urfa (b_now s) Hnd')
    as [(res & -> & [Ha Hs Hw]) | [Hm ->]]; [| | | right; split; [by exists urfa | done]].
  { intros m b Hm Hb. apply Hor. eauto. } { intros b Hb. by apply Hr. }
  left. cbn. assert (forall m, m ∈ res -> is_Some (b_now s !! rm_Broker m)) as Hdom.
  { intros m Hm. destruct (Hs m Hm) as (meg & Hmeg & _ & Hb). apply Hu. eauto. }
  destruct (charge_loop res (b_now s) Hdom) as (now' & -> & Hn'). cbn.
  exists res, now'. split; [done |]. split; [| done]. constructor; [done | | done].
  intros m Hm. split; [| by apply Hdom]. destruct (Hs m Hm) as (meg & Hmeg & <- & _).
  eapply elem_of_submseteq; [| exact Hin]. apply list_elem_of_fmap. eauto.
Qed.

Lemma b2e_iter_inv total megs s c :
  NoDup (alloc_ptrs megs) -> b2e_inv total megs s -> choice_ok total c ->
  (exists s', b2e_iter s c = Ret s' /\ b2e_inv total megs s') \/
  (iter_misses s c /\ b2e_iter s c = Panic "index out of range").
Proof.
  intros Hnd [Hnow Hwithin Hparts Hmegs Htxs] [Hu Hr Hsort].
  assert (forall b, is_Some (b_now s !! b) <-> is_Some (total !! b)) as Hdom.
  { intros b. rewrite Hnow, fmap_is_Some. done. }
  pose proof Hparts as HpND. rewrite <- HpND in Hnd. apply NoDup_app in Hnd as (Hnd1 & Hdisj & Hnd2).
  destruct (b2e_iter_run s c) as [(res & now' & -> & [Ha Hs Hw] & Hn') | Hp]; [done | | | by right].
  { constructor; [by eapply enumerates_dom; eauto .. | exact Hsort]. }
  left. eexists. split; [done |]. constructor; cbn.
  - intros b. rewrite Hn', Hnow, spent_app. destruct (total !! b); cbn; [f_equal; lia | done].
  - intros b C HC Hb. rewrite spent_app. rewrite map_app, elem_of_app in Hb.
    destruct (decide (b ∈ map rm_Broker res)) as [Hin | Hnin].
    + specialize (Hw b (C - spent b (b_result s))). rewrite Hnow, HC in Hw. cbn in Hw.
      specialize (Hw eq_refl Hin). lia.
    + destruct Hb as [Hb | Hb]; [| done]. specialize (Hwithin b C HC Hb).
      assert (spent b res = 0) as ->; [| lia]. revert Hnin. clear. unfold spent.
      induction res as [| m res IH]; [done |]. cbn [map]. rewrite zsum_with_cons.
      intros [Hne Hn]%not_elem_of_cons. rewrite IH, decide_False by congruence. done.
  - rewrite <- Hparts. unfold alloc_ptrs at 1. rewrite map_app, <- app_assoc. f_equiv.
    apply difference_partition; [done.. |]. intros q (m & -> & Hm)%list_elem_of_fmap.
    destruct (Hs m Hm) as [(m' & E & Hm')%list_elem_of_fmap _]. rewrite E.
    apply list_elem_of_fmap. eauto.
  - intros m [Hm _]%difference_spec. auto.
  - intros m [Hm | Hm]%elem_of_app; [by apply Htxs |].
    destruct (Hs m Hm) as [(m' & E & Hm')%list_elem_of_fmap Hb]. split; [| by apply Hdom].
    rewrite E. apply list_elem_of_fmap. eauto.
Qed.

Lemma b2e_loop_inv total megs s choices :
  NoDup (alloc_ptrs megs) -> b2e_inv total megs s -> (forall c, c ∈ choices -> choice_ok total c) ->
  (exists s', for_each b2e_iter s choices = Ret s' /\ b2e_inv total megs s') \/
  (exists cs c cs' s1, choices = cs ++ c :: cs' /\ for_each b2e_iter s cs = Ret s1 /\ iter_misses s1 c /\
     for_each b2e_iter s choices = Panic "index out of range").
Proof.
  intros Hnd. revert s. induction choices as [| c cs IH]; intros s Hs Hc; cbn [for_each]; [left; eauto |].
  destruct (b2e_iter_inv total megs s c Hnd Hs (Hc c ltac:(left))) as [(s1 & E1 & H1) | [Hm ->]]; cbn.
  - rewrite E1. cbn.
    destruct (IH s1 H1) as [? | (cs1 & c' & cs2 & s2 & -> & E2 & ?)]; [intros; apply Hc; by right | by left |].
    right. exists (c :: cs1), c', cs2, s2. cbn. rewrite E1. done.
  - right. exists [], c, cs, s. done.
Qed.

Section B2ETheorems.
Context `{Config}.

(** Both parties of a request route to a shard. *)
Definition routed (m : BrokerRawMeg) : Prop :=
  returns (Addr2Shard (Sender (tval (rm_Tx m)))) /\ returns (Addr2Shard (Recipient (tval (rm_Tx m)))).

Definition cross_shard (m : BrokerRawMeg) : Prop :=
  Addr2Shard (Recipient (tval (rm_Tx m))) <> Addr2Shard (Sender (tval (rm_Tx m))).

Lemma find_ctx_spec megs :
  (forall m, m ∈ megs -> routed m) ->
  exists ctx, find_ctx megs = Ret ctx /\ ctx `sublist_of` megs /\
    forall m, m ∈ ctx <-> m ∈ megs /\ cross_shard m.
Proof.
  induction megs as [| m megs IH]; intros Hr; cbn [find_ctx].
  - exists []. split; [done |]. split; [done |]. intros m. split; [| by intros [? _]]. intros Hm. by apply not_elem_of_nil in Hm.
  - destruct (Hr m) as [[s Hs] [r Hrc]]; [left |]. rewrite Hs, Hrc. cbn.
    destruct IH as (ctx & -> & Hsub & Hctx); [intros; apply Hr; by right |]. cbn.
    assert (cross_shard m <-> r <> s) as Hcr.
    { unfold cross_shard. rewrite Hs, Hrc. split; intros Hne E; apply Hne; congruence. }
    destruct (Z.eqb_spec r s) as [E | E]; eexists; (split; [done |]); split.
    + by apply sublist_cons.
    + intros m'. rewrite elem_of_cons, Hctx. split; [tauto |]. intros [[-> |] Hc]; [by apply Hcr in Hc | done].
    + by apply sublist_skip.
    + intros m'. rewrite !elem_of_cons, Hctx. split; [| tauto]. intros [-> | [? ?]]; [| tauto].
      split; [by left | by apply Hcr].
Qed.

(** Some iteration of [B2E] misses a draw. *)
Definition b2e_misses (choices : list b2e_choice) (megs : list BrokerRawMeg)
  (BrokerBalance : gmap string (gmap Z Z)) : Prop :=
  exists cs c cs' ctx s1, choices = cs ++ c :: cs' /\ find_ctx megs = Ret ctx /\
    for_each b2e_iter (mkB2E ctx (accumulate BrokerBalance) []) cs = Ret s1 /\ iter_misses s1 c.

(** The allocation, for the clients of [B2E]. *)
Lemma B2E_spec choices megs BrokerBalance :
  NoDup (alloc_ptrs megs) -> (forall m, m ∈ megs -> routed m) ->
  (forall c, c ∈ choices -> choice_ok (accumulate BrokerBalance) c) ->
  (exists res rest, B2E choices megs BrokerBalance = Ret (res, rest) /\
     NoDup (alloc_ptrs res) /\ alloc_ptrs res ++ alloc_ptrs rest ≡ₚ alloc_ptrs megs /\
     (forall m, m ∈ res -> exists m0, m0 ∈ megs /\ cross_shard m0 /\ rm_Tx m = rm_Tx m0 /\
        is_Some (BrokerBalance !! rm_Broker m)) /\
     (forall m, m ∈ rest -> m ∈ megs) /\
     (forall b C, accumulate BrokerBalance !! b = Some C -> b ∈ map rm_Broker res -> spent b res <= C)) \/
  (b2e_misses choices megs BrokerBalance /\ B2E choices megs BrokerBalance = Panic "index out of range").
Proof.
  intros Hnd Hr Hc. unfold B2E. destruct (find_ctx_spec megs Hr) as (ctx & Ectx & Hsub & Hctx).
  rewrite Ectx. cbn.
  assert (NoDup (alloc_ptrs ctx)) as Hndc.
  { eapply sublist_NoDup; [exact Hnd |]. unfold alloc_ptrs. by apply (fmap_sublist (fun m => ptr (rm_Tx m))). }
  destruct (b2e_loop_inv (accumulate BrokerBalance) ctx (mkB2E ctx (accumulate BrokerBalance) []) choices)
    as [(s' & -> & [_ Hw Hp _ Htx]) | (cs & c & cs' & s1 & E & Hcs & Hm & ->)];
    [done | | done | | right; split; [by exists cs, c, cs', ctx, s1 | done]].
  { constructor; cbn; [| | done | done |].
    - intros b. destruct (accumulate BrokerBalance !! b); cbn; [f_equal; unfold spent; rewrite zsum_with_nil; lia | done].
    - intros b C _ Hb. by apply not_elem_of_nil in Hb.
    - intros m Hm. by apply not_elem_of_nil in Hm. }
  left. eexists _, _. split; [done |].
  assert (NoDup (alloc_ptrs (b_result s'))) as Hndr by (rewrite <- Hp in Hndc; by apply NoDup_app in Hndc as (? & _)).
  split; [done |]. split_and!; [| | by intros m [? _]%difference_spec | done].
  - apply difference_partition; [done | done |]. intros q Hq.
    assert (q ∈ alloc_ptrs ctx) as (m & -> & [Hm _]%Hctx)%list_elem_of_fmap
      by (rewrite <- Hp; apply elem_of_app; by left).
    apply list_elem_of_fmap. eauto.
  - intros m Hm. destruct (Htx m Hm) as [(m0 & E & [Hm0 Hcr]%Hctx)%list_elem_of_fmap Hb].
    exists m0. split_and!; [done.. |]. unfold accumulate in Hb. by rewrite lookup_fmap, fmap_is_Some in Hb.
Qed.

(** C12: the whole allocation [B2E] returns for every order the map ranges take and
    every permutation the sort produces, unless a random draw is missed (then it
    panics). The allocated and the remaining requests are a partition of the
    requests; no request is allocated twice, over all iterations; every allocated
    one is cross-shard and goes to a known broker; and no broker is allocated
    more value than its total balance over the shards. *)
Theorem B2E_allocates choices megs BrokerBalance :
  NoDup (alloc_ptrs megs) -> (forall m, m ∈ megs -> routed m) ->
  (forall c, c ∈ choices -> choice_ok (accumulate BrokerBalance) c) ->
  (exists res rest, B2E choices megs BrokerBalance = Ret (res, rest) /\
     NoDup (alloc_ptrs res) /\ alloc_ptrs res ++ alloc_ptrs rest ≡ₚ alloc_ptrs megs /\
     (forall m, m ∈ res -> exists m0, m0 ∈ megs /\ cross_shard m0 /\ rm_Tx m = rm_Tx m0 /\
        is_Some (BrokerBalance !! rm_Broker m)) /\
     (forall m, m ∈ rest -> m ∈ megs) /\
     (forall b C, accumulate BrokerBalance !! b = Some C -> b ∈ map rm_Broker res -> spent b res <= C)) \/
  (b2e_misses choices megs BrokerBalance /\ B2E choices megs BrokerBalance = Panic "index out of range").
Proof. apply B2E_spec. Qed.
End B2ETheorems.

Lemma StronglySorted_sublist {A} (R : A -> A -> Prop) l1 l2 :
  l1 `sublist_of` l2 -> StronglySorted R l2 -> StronglySorted R l1.
Proof.
  induction 1 as [| x l1 l2 Hs IH | x l1 l2 Hs IH]; intros Hst; [done | |];
    apply StronglySorted_inv in Hst as [Hst Hall]; [| auto].
  constructor; [auto |]. apply Forall_forall. intros y Hy. rewrite Forall_forall in Hall.
  apply Hall. by eapply elem_of_sublist.
Qed.

(** The fractional assignment [URFA_Linear] always returns. It keeps the
    order of decreasing fee ratio, takes each transaction at most once, and gives
    each of them to at least one broker whose whole balance covers the value. *)
Theorem URFA_Linear_greedy addrs txs sorted bal :
  enumerates addrs bal -> is_sort_of txs sorted ->
  exists res, URFA_Linear addrs sorted bal = Ret res /\
    map ra_Tx res ⊆+ txs /\ StronglySorted (fun a b => less b a = false) (map ra_Tx res) /\
    (forall m, m ∈ res -> exists b C, is_Some (BrokerRatio m !! b) /\ bal !! b = Some C /\ val (ra_Tx m) <= C).
Proof.
  intros Hen [Hperm Hsort]. destruct (URFA_Linear_spec addrs sorted bal Hen) as (res & -> & Hsub & _ & Hv).
  exists res. split; [done |]. split_and!; [| | done].
  - rewrite <- Hperm. by apply sublist_submseteq.
  - by eapply StronglySorted_sublist.
Qed.

(** The randomised rounding returns, in particular its loops end within the fuel
    (the length of the broker's list), unless a draw of the run is above the sum
    of the normalised ratios (then it indexes with -1 and panics); the result
    gives no transaction to two brokers, only to a broker of its fractional
    assignment, and never exceeds the balance of a broker that received
    something. *)
Theorem B2E_Rounding_within rands addrs megs bal :
  NoDup (ratio_ptrs megs) -> (forall m b, m ∈ megs -> is_Some (BrokerRatio m !! b) -> b ∈ addrs) ->
  (forall b, b ∈ addrs -> is_Some (bal !! b)) ->
  (exists res, B2E_Rounding rands addrs megs bal = Ret res /\ NoDup (alloc_ptrs res) /\
     (forall m, m ∈ res -> urfa_src megs (rm_Broker m) (rm_Tx m)) /\
     (forall b C, bal !! b = Some C -> b ∈ map rm_Broker res -> spent b res <= C)) \/
  (misses rands bal (build_indexes addrs megs bal) /\
     B2E_Rounding rands addrs megs bal = Panic "index out of range").
Proof.
  intros H1 H2 H3. destruct (B2E_Rounding_spec rands addrs megs bal H1 H2 H3)
    as [(res & -> & [Ha Hs Hw]) | ?]; [left; eauto 10 | by right].
Qed.

(** ** Witnesses and the missed draw *)

(** A request of the given value and fee between shards 1 and 2. *)
Definition sample_tx (p : positive) (v fee : Z) : TxPtr :=
  mkTxPtr p (mkTransaction "0000000000000000000000000000000000000001"
    "0000000000000000000000000000000000000002" 0 "" v "BKC" fee "" 0 false false false false false
    "" "" "" false false false 0 0 None 0 0 [] false false [] "").

Definition sample_choice : b2e_choice := mkChoice ["b"] (fun l => l) ["b"] (fun _ => f64_lit 1 (-1)).

Lemma enumerates_b C : enumerates ["b"] {[ "b" := C ]}.
Proof.
  intros b. rewrite lookup_singleton_is_Some, list_elem_of_singleton. split; congruence.
Qed.

Lemma B2E_allocates_witness :
  exists res rest,
    @B2E default_config [sample_choice; sample_choice]
      [mkRawMeg (sample_tx 1 60 3) ""; mkRawMeg (sample_tx 2 70 2) ""; mkRawMeg (sample_tx 3 30 1) ""]
      {[ "b" := {[ 0 := 60; 1 := 40 ]} ]} = Ret (res, rest) /\
    NoDup (alloc_ptrs res) /\ alloc_ptrs res ++ alloc_ptrs rest ≡ₚ [1; 2; 3]%positive.
Proof.
  destruct (@B2E_allocates default_config [sample_choice; sample_choice]
      [mkRawMeg (sample_tx 1 60 3) ""; mkRawMeg (sample_tx 2 70 2) ""; mkRawMeg (sample_tx 3 30 1) ""]
      {[ "b" := {[ 0 := 60; 1 := 40 ]} ]})
    as [(res & rest & H1 & H2 & H3 & _) | [_ H]].
  - apply (bool_decide_unpack _). vm_compute. exact I.
  - intros m Hm. repeat (apply elem_of_cons in Hm as [-> | Hm]); [.. | by apply not_elem_of_nil in Hm];
      (split; eexists; vm_compute; reflexivity).
  - intros c Hc. assert (c = sample_choice) as ->.
    { repeat (apply elem_of_cons in Hc as [-> | Hc]); [done | done | by apply not_elem_of_nil in Hc]. }
    assert (accumulate {[ "b" := {[ 0 := 60; 1 := 40 ]} ]} = {[ "b" := 100 ]}) as ->
      by (vm_compute; reflexivity).
    constructor; [apply enumerates_b | apply enumerates_b | reflexivity].
  - exists res, rest. auto.
  - exfalso. vm_compute in H. discriminate H.
Defined.

Lemma URFA_Linear_greedy_witness :
  exists res, URFA_Linear ["b"] [sample_tx 1 60 3; sample_tx 3 30 1] {[ "b" := 100 ]} = Ret res /\
    StronglySorted (fun a b => less b a = false) (map ra_Tx res).
Proof.
  destruct (URFA_Linear_greedy ["b"] [sample_tx 3 30 1; sample_tx 1 60 3]
              [sample_tx 1 60 3; sample_tx 3 30 1] {[ "b" := 100 ]}) as (res & H1 & _ & H2 & _).
  - apply enumerates_b.
  - split; [apply Permutation_swap |]. repeat constructor; vm_compute; reflexivity.
  - eauto.
Defined.

Lemma B2E_Rounding_within_witness :
  exists res, B2E_Rounding (fun _ => f64_lit 1 (-1)) ["b"]
    [mkRatio (sample_tx 1 60 3) {[ "b" := f64_of_Z 1 ]}; mkRatio (sample_tx 2 70 2) {[ "b" := f64_of_Z 1 ]}]
    {[ "b" := 100 ]} = Ret res /\ (forall C, C = 100 -> "b" ∈ map rm_Broker res -> spent "b" res <= C).
Proof.
  destruct (B2E_Rounding_within (fun _ => f64_lit 1 (-1)) ["b"]
    [mkRatio (sample_tx 1 60 3) {[ "b" := f64_of_Z 1 ]}; mkRatio (sample_tx 2 70 2) {[ "b" := f64_of_Z 1 ]}]
    {[ "b" := 100 ]}) as [(res & H1 & _ & _ & H2) | [_ H]].
  - apply (bool_decide_unpack _). vm_compute. exact I.
  - intros m b Hm. repeat (apply elem_of_cons in Hm as [-> | Hm]); [.. | by apply not_elem_of_nil in Hm];
      cbn; rewrite lookup_singleton_is_Some; intros <-; left.
  - intros b ->%list_elem_of_singleton. eexists. reflexivity.
  - exists res. split; [done |]. intros C -> Hb. by apply H2.
  - exfalso. vm_compute in H. discriminate H.
Defined.

(** Seven equal requests for one broker that can pay them all. *)
Definition seven : list RatioBrokerRawMeg :=
  map (fun p => mkRatio (sample_tx p 1 1) {[ "b" := f64_of_Z 1 ]}) [1; 2; 3; 4; 5; 6; 7]%positive.

(** The missed draw happens: with seven equal requests on one broker, whose
    balance covers all of them, the normalised ratios add up to less than the
    largest value [rand.Float64] returns, 1 - 2^-53; that draw makes
    [Random_choice] return -1 and the rounding panic, while a draw of one half
    allocates all seven. *)
Theorem Random_choice_can_miss :
  Random_choice (normalise (replicate 7 (f64_of_Z 1))) (f64_lit (2 ^ 53 - 1) (-53)) = -1 /\
  B2E_Rounding (fun _ => f64_lit (2 ^ 53 - 1) (-53)) ["b"] seven {[ "b" := 100 ]} =
    Panic "index out of range" /\
  exists res, B2E_Rounding (fun _ => f64_lit 1 (-1)) ["b"] seven {[ "b" := 100 ]} = Ret res /\
    length res = 7%nat.
Proof.
  split; [vm_compute; reflexivity |]. split; [vm_compute; reflexivity |].
  eexists. split; vm_compute; reflexivity.
Qed.
