(* ===== verification/Server.v ===== *)
(** * The HTTP interface of the supervisor

    Models [supervisor/server.go]: the handlers behind [/broker-fi] and the
    automated market maker they trade against ([ammModel] of
    [supervisor/supervisor.go]), together with [Client.GetAddr2ShardMap], by which
    requests are routed. A handler takes the query parameters and the supervisor's
    state and gives the response, the new state and the injections sent to the
    shards' leaders; parsing, refusals and updates follow the order of the code. *)
From Stdlib Require Import ZArith Lia.
From stdpp Require Import base gmap strings list fin_maps.
From S2P Require Import Prelude Utils JournalTypes Core Ledger Message Floats Broker.

(** ** State *)

Record ammModel := mkAmm { bkc : Z; badge : Z; constant_val : Z }.

Record accBalMap := mkAccBal { isLatest : bool; balance : Z }.

(** The parts of [Supervisor], of the committee's [Broker] and of the [Client] that
    the handlers use. *)
Record SupState := mkSup {
  amm_model : ammModel;
  accountBalanceMap : gmap string (gmap string accBalMap);
  sup_broker : Broker;
  addr2ShardMap : gmap string Z
}.

(** [http.StatusOK], [http.StatusBadRequest] and the JSON body. *)
Record Response := mkResponse { status : Z; body : list (string * string) }.

Definition StatusOK (k v : string) : Response := mkResponse 200 [(k, v)].
Definition StatusBadRequest (e : string) : Response := mkResponse 400 [("error", e)].

(** A message to the leader (node 0) of a shard: the inject-at-head request. *)
Record Sent := mkSent { dest : Z; inject : InjectTxs }.

Record Handled := mkHandled { response : Response; next : SupState; sent : list Sent }.

(** A handler that answers without touching the state. *)
Definition refuse (d : SupState) (r : Response) : outcome Handled := Ret (mkHandled r d []).

(** ** The market maker *)

(** [NewSupervisor]'s pool. *)
Definition new_amm : ammModel := mkAmm 10000000 10000000 (10000000 * 10000000).

(** [big.Int.Quo] truncates, and panics on a zero divisor. *)
Definition Quo (x y : Z) : outcome Z :=
  if y =? 0 then Panic "division by zero" else Ret (Z.quot x y).

(** The swap of [/exchange]: the new pool and the amount paid out. The pool's
    integers are updated in place, so the [Badge] branch subtracts from the badge
    reserve that already contains the payment. *)
Definition exchange_amm (a : ammModel) (tx_type_from : string) (tokenInt : Z) : outcome (ammModel * Z) :=
  if decide (tx_type_from = "BKC") then
    let bkc' := bkc a + tokenInt in
    rest_badge ← Quo (constant_val a) bkc';
    Ret (mkAmm bkc' rest_badge (constant_val a), badge a - rest_badge)
  else if decide (tx_type_from = "Badge") then
    let badge' := badge a + tokenInt in
    rest_bkc ← Quo (constant_val a) badge';
    Ret (mkAmm rest_bkc badge' (constant_val a), badge' - rest_bkc)
  else Panic "log.Panic".

(** The quote of [/queryrate]. *)
Definition quote_amm (a : ammModel) (tx_type_from : string) (tokenInt : Z) : outcome Z :=
  if decide (tx_type_from = "BKC") then
    rest_badge ← Quo (constant_val a) (bkc a + tokenInt);
    Ret (badge a - rest_badge)
  else if decide (tx_type_from = "Badge") then
    rest_bkc ← Quo (constant_val a) (badge a + tokenInt);
    Ret (bkc a - rest_bkc)
  else Panic "log.Panic".

Section Handlers.
Context `{Config} `{Digest}.

(** [Clt.GetAddr2ShardMap] *)
Definition GetAddr2ShardMap (d : SupState) (key : string) : outcome Z :=
  match addr2ShardMap d !! key with
  | Some v => Ret v
  | None => s ← Addr2Shard key; Ret (u64 s)
  end.

Definition known_type (ty : string) : bool := bool_decide (ty ∈ Transaction_Types).

(** [new(big.Int).SetString(token, 10)] followed by the positivity test. *)
Definition parse_amount (token : string) : option Z :=
  match SetString10 token with
  | Some v => if v <=? 0 then None else Some v
  | None => None
  end.

Definition amount_invalid : Response := StatusOK "error" "Amount is invalid!".

(** A transaction of an address with itself that the block credits ([2]) or debits
    ([1]). *)
Definition self_tx (addr : string) (v : Z) (ty : string) (i : Z) : Transaction :=
  tx_set_inblock true i (NewTransaction addr addr v 123 0 ty).

(** [/transaction] *)
Definition handle_transaction (d : SupState) (from_addr to_addr token tx_type : string) : outcome Handled :=
  if decide (from_addr = "") then refuse d (StatusBadRequest "From Address is required")
  else if decide (to_addr = "") then refuse d (StatusBadRequest "To Address is required")
  else if decide (tx_type = "") then refuse d (StatusBadRequest "Type is required")
  else if negb (known_type tx_type) then refuse d (StatusBadRequest "Invalid Tx From Type")
  else match parse_amount token with
  | None => refuse d amount_invalid
  | Some tokenInt =>
      let tx := tx_set_inblock true 0 (NewTransaction from_addr to_addr tokenInt 123 0 tx_type) in
      s ← GetAddr2ShardMap d from_addr;
      r ← GetAddr2ShardMap d to_addr;
      let it := mkInjectTxs [tx] s in
      Ret (mkHandled (StatusOK "msg" "Done!") d [mkSent s it; mkSent r it])
  end.

(** [/queryisbroker] *)
Definition handle_queryisbroker (d : SupState) (addr : string) : outcome Handled :=
  if decide (addr = "") then refuse d (StatusBadRequest "Address is required")
  else refuse d (StatusOK "is_broker" (if IsBroker (sup_broker d) addr then "true" else "false")).

(** [/exchange] *)
Definition handle_exchange (d : SupState) (addr token tx_type_from tx_type_to : string) : outcome Handled :=
  if decide (addr = "") then refuse d (StatusBadRequest "Address is required")
  else if decide (tx_type_from = "") then refuse d (StatusBadRequest "Type From is required")
  else if decide (tx_type_to = "") then refuse d (StatusBadRequest "Type To is required")
  else if negb (known_type tx_type_from) then refuse d (StatusBadRequest "Invalid Tx From Type")
  else if negb (known_type tx_type_to) then refuse d (StatusBadRequest "Invalid Tx To Type")
  else match parse_amount token with
  | None => refuse d amount_invalid
  | Some tokenInt =>
      swap ← exchange_amm (amm_model d) tx_type_from tokenInt;
      let '(a', given_money) := swap in
      let txs := [self_tx addr tokenInt tx_type_from 1; self_tx addr given_money tx_type_to 2] in
      sid ← GetAddr2ShardMap d addr;
      Ret (mkHandled (StatusOK "msg" "Done!")
             (mkSup a' (accountBalanceMap d) (sup_broker d) (addr2ShardMap d))
             [mkSent sid (mkInjectTxs txs sid)])
  end.

(** [/queryrate]: the amount of the answer ([rate] is its quotient by the payment,
    printed). *)
Definition handle_queryrate (d : SupState) (token tx_type_from tx_type_to : string)
  : outcome (Response + Z) :=
  if decide (tx_type_from = "") then Ret (inl (StatusBadRequest "Type From is required"))
  else if decide (tx_type_to = "") then Ret (inl (StatusBadRequest "Type To is required"))
  else if negb (known_type tx_type_from) then Ret (inl (StatusBadRequest "Invalid Tx From Type"))
  else if negb (known_type tx_type_to) then Ret (inl (StatusBadRequest "Invalid Tx To Type"))
  else match parse_amount token with
  | None => Ret (inl amount_invalid)
  | Some tokenInt => given_money ← quote_amm (amm_model d) tx_type_from tokenInt; Ret (inr given_money)
  end.

(** [m[ty][addr] = v]: assigning below a nil map panics. *)
Definition set2 {A} (m : gmap string (gmap string A)) (ty addr : string) (v : A)
  : outcome (gmap string (gmap string A)) :=
  match m !! ty with
  | None => Panic "assignment to entry in nil map"
  | Some inner => Ret (<[ty := <[addr := v]> inner]> m)
  end.

(** [delete(m[ty], addr)] *)
Definition del2 {A} (m : gmap string (gmap string A)) (ty addr : string) : gmap string (gmap string A) :=
  alter (delete addr) ty m.

(** The per-shard map [applybroker] gives a new broker. *)
Definition per_shard {A} (v : A) : gmap Z A := foldl (fun m sid => <[sid := v]> m) ∅ shards.

(** The broker maps after a successful [/applybroker]. *)
Definition add_broker (b : Broker) (tx_type addr : string) (balancepershard : Z) : outcome Broker :=
  bal ← set2 (BrokerBalance b) tx_type addr (per_shard balancepershard);
  lock ← set2 (LockBalance b) tx_type addr (per_shard 0);
  prof ← set2 (ProfitBalance b) tx_type addr (per_shard (bf_NewFloat (S754_zero false)));
  Ret (mkBroker (BrokerRawMegs b) (addr :: BrokerAddress b) bal lock prof (RawTx2BrokerTx b) (Brokerage b)).

(** [/applybroker]: the debit is sent before the two refusals that follow it.
    [big.Int.Div] is Euclidean and panics on zero; the amount and the divisor are
    not negative. *)
Definition handle_applybroker (d : SupState) (addr token tx_type : string) : outcome Handled :=
  if decide (addr = "") then refuse d (StatusBadRequest "Address is required")
  else if decide (tx_type = "") then refuse d (StatusBadRequest "Type is required")
  else if negb (known_type tx_type) then refuse d (StatusBadRequest "Invalid Tx Type")
  else if decide (token = "") then refuse d (StatusBadRequest "Amount is required")
  else match parse_amount token with
  | None => refuse d amount_invalid
  | Some tokenInt =>
      sid ← GetAddr2ShardMap d addr;
      let out := [mkSent sid (mkInjectTxs [self_tx addr (Z.abs tokenInt) tx_type 1] sid)] in
      if ShardNum =? 0 then Panic "division by zero" else
      let balancepershard := tokenInt / ShardNum in
      if balancepershard =? 0
      then Ret (mkHandled (StatusOK "error" "Please stake more tokens") d out)
      else if IsBroker (sup_broker d) addr
      then Ret (mkHandled (StatusOK "msg" "Already Broker") d out)
      else
        b' ← add_broker (sup_broker d) tx_type addr balancepershard;
        Ret (mkHandled (StatusOK "message" "申请成为Broker成功!")
               (mkSup (amm_model d) (accountBalanceMap d) b' (addr2ShardMap d)) out)
  end.

(** [removeElement] *)
Fixpoint removeElement (slice : list string) (element : string) : list string :=
  match slice with
  | [] => []
  | v :: rest => if decide (v = element) then rest else v :: removeElement rest element
  end.

(** [for sid := 0; sid < ShardNum; sid++ { profit = new(big.Float).Add(x(sid), profit) }] *)
Definition add_shards {A} (conv : A -> bigFloat) (m : gmap Z A) (profit : bigFloat) : outcome bigFloat :=
  for_each (fun acc sid => v ← deref (m !! sid); Ret (bf_Add 0 (conv v) acc)) profit shards.

(** [m[ty][addr]], the nil map when missing. *)
Definition entry2 {A} (m : gmap string (gmap string (gmap Z A))) (ty addr : string) : gmap Z A :=
  default ∅ (m !! ty ≫= (fun x => x !! addr)).

Record withdraw_state := mkWithdraw { w_broker : Broker; w_total : Z; w_sent : list Sent }.

(** The body of the loop of [/withdrawbroker] over the token types; [profitUint64]
    is the running total [w_total]. *)
Definition withdraw_type (d : SupState) (addr : string) (s : withdraw_state) (money_type : string)
  : outcome withdraw_state :=
  let b := w_broker s in
  match BrokerBalance b !! money_type ≫= (fun m => m !! addr) with
  | None => Ret s
  | Some free =>
      p1 ← add_shards bf_SetInt free (bf_NewFloat (S754_zero false));
      p2 ← add_shards bf_SetInt (entry2 (LockBalance b) money_type addr) p1;
      p3 ← add_shards (fun x => x) (entry2 (ProfitBalance b) money_type addr) p2;
      let total := u64 (w_total s + f64_to_u64 (bf_Float64 p3)) in
      sid ← GetAddr2ShardMap d addr;
      Ret (mkWithdraw
             (mkBroker (BrokerRawMegs b) (BrokerAddress b)
                (del2 (BrokerBalance b) money_type addr) (del2 (LockBalance b) money_type addr)
                (del2 (ProfitBalance b) money_type addr) (RawTx2BrokerTx b) (Brokerage b))
             total
             (w_sent s ++ [mkSent sid (mkInjectTxs [self_tx addr total money_type 2] sid)]))
  end.

(** [/withdrawbroker]; the amount of the answer is the result's second part. *)
Definition handle_withdrawbroker (d : SupState) (addr : string) : outcome (Handled * Z) :=
  if decide (addr = "") then Ret (mkHandled (StatusBadRequest "Address is required") d [], 0)
  else if negb (IsBroker (sup_broker d) addr)
  then Ret (mkHandled (StatusOK "error" "not a broker,cannot invoke withdrawbroker!") d [], 0)
  else
    s ← for_each (withdraw_type d addr) (mkWithdraw (sup_broker d) 0 []) Transaction_Types;
    let b := w_broker s in
    let b' := mkBroker (BrokerRawMegs b) (removeElement (BrokerAddress b) addr) (BrokerBalance b)
                (LockBalance b) (ProfitBalance b) (RawTx2BrokerTx b) (Brokerage b) in
    Ret (mkHandled (StatusOK "message" "Successfully withdraw")
           (mkSup (amm_model d) (accountBalanceMap d) b' (addr2ShardMap d)) (w_sent s), w_total s).

(** ** Balance queries *)

(** One round of the polling loop of [queryForAccBalance]: the balance when a fresh
    one is there (it is marked as used), nothing otherwise. *)
Definition poll_balance (d : SupState) (addr tx_type : string) : SupState * option Z :=
  match accountBalanceMap d !! tx_type ≫= (fun m => m !! addr) with
  | Some info =>
      if isLatest info
      then (mkSup (amm_model d)
              (alter (insert addr (mkAccBal false (balance info))) tx_type (accountBalanceMap d))
              (sup_broker d) (addr2ShardMap d), Some (balance info))
      else (d, None)
  | None => (d, None)
  end.

(** [handleAccountBalReply] of [supervisor.go]. *)
Definition handleAccountBalReply (d : SupState) (con : AccountBalanceReply) : outcome SupState :=
  m ← set2 (accountBalanceMap d) (r_TXType con) (r_Addr con) (mkAccBal true (r_Balance con));
  Ret (mkSup (amm_model d) m (sup_broker d) (addr2ShardMap d)).

(** The initial state of [NewSupervisor]. *)
Definition new_supervisor (file : list string) : SupState :=
  mkSup new_amm (foldl (fun m ty => <[ty := ∅]> m) ∅ Transaction_Types) (NewBroker file) ∅.
End Handlers.

(** ** The market maker: theorems *)

(** The constant-product invariant with integer rounding: the reserves are a
    largest integer point under the hyperbola, up to one unit each. *)
Definition amm_ok (a : ammModel) : Prop :=
  0 <= bkc a /\ 0 <= badge a /\ 0 < constant_val a /\
  bkc a * badge a <= constant_val a < (bkc a + 1) * (badge a + 1).

Lemma Quo_pos x y : 0 <= x -> 0 < y ->
  exists q, Quo x y = Ret q /\ 0 <= q /\ y * q <= x < y * (q + 1).
Proof.
  intros Hx Hy. unfold Quo. destruct (Z.eqb_spec y 0); [lia |].
  exists (Z.quot x y). split; [done |]. rewrite Z.quot_div_nonneg by lia.
  pose proof (Z.div_mod x y ltac:(lia)). pose proof (Z.mod_pos_bound x y Hy).
  pose proof (Z.div_pos x y Hx Hy). nia.
Qed.

(** One swap in either direction. *)
Lemma exchange_bkc_spec a t : amm_ok a -> 0 < t ->
  exists q, exchange_amm a "BKC" t = Ret (mkAmm (bkc a + t) q (constant_val a), badge a - q) /\
    quote_amm a "BKC" t = Ret (badge a - q) /\ 0 <= q <= badge a /\
    amm_ok (mkAmm (bkc a + t) q (constant_val a)).
Proof.
  intros (Hb & Hg & HK & Hlo & Hhi) Ht.
  destruct (Quo_pos (constant_val a) (bkc a + t)) as (q & Hq & Hq0 & Hq1); [lia | lia |].
  unfold exchange_amm, quote_amm. rewrite !decide_True by done. rewrite Hq. cbn.
  exists q. split; [done |]. split; [done |]. split; [nia |]. unfold amm_ok; cbn. nia.
Qed.

Lemma exchange_badge_spec a t : amm_ok a -> 0 < t ->
  exists q, exchange_amm a "Badge" t = Ret (mkAmm q (badge a + t) (constant_val a), badge a + t - q) /\
    quote_amm a "Badge" t = Ret (bkc a - q) /\ 0 <= q <= bkc a /\
    amm_ok (mkAmm q (badge a + t) (constant_val a)).
Proof.
  intros (Hb & Hg & HK & Hlo & Hhi) Ht.
  destruct (Quo_pos (constant_val a) (badge a + t)) as (q & Hq & Hq0 & Hq1); [lia | lia |].
  unfold exchange_amm, quote_amm. rewrite !(decide_False (P := "Badge" = "BKC")) by done.
  rewrite !decide_True by done. rewrite Hq. cbn.
  exists q. split; [done |]. split; [done |]. split; [nia |]. unfold amm_ok; cbn. nia.
Qed.

(** A sequence of swaps of the two tokens. *)
Definition swap_run (a : ammModel) (swaps : list (string * Z)) : outcome ammModel :=
  for_each (fun a s => r ← exchange_amm a s.1 s.2; Ret r.1) a swaps.

(** C16: from the pool the supervisor starts with, every sequence of swaps of
    positive amounts, in any directions, runs without a panic and keeps the
    constant-product invariant: reserves non-negative, their product at most the
    constant and the constant below the product of the incremented reserves. *)
Theorem swap_run_invariant swaps :
  Forall (fun s => (s.1 = "BKC" \/ s.1 = "Badge") /\ 0 < s.2) swaps ->
  exists a, swap_run new_amm swaps = Ret a /\ amm_ok a /\ constant_val a = 10 ^ 14.
Proof.
  intros Hs. rewrite Forall_forall in Hs. unfold swap_run.
  destruct (for_each_returns (fun a => amm_ok a /\ constant_val a = 10 ^ 14)
              (fun a s => r ← exchange_amm a s.1 s.2; Ret r.1) new_amm swaps) as (a & Ha & ? & ?); [| | eauto].
  { unfold amm_ok, new_amm; cbn. lia. }
  intros a [ty t] Hin [Hok HK]. destruct (Hs _ Hin) as [[-> | ->] Ht]; cbn in *.
  - destruct (exchange_bkc_spec a t Hok Ht) as (q & -> & _ & _ & Hok'). cbn. eauto.
  - destruct (exchange_badge_spec a t Hok Ht) as (q & -> & _ & _ & Hok'). cbn. eauto.
Qed.

Lemma swap_run_invariant_witness :
  exists a, swap_run new_amm [("BKC", 500); ("Badge", 7); ("BKC", 10 ^ 15)] = Ret a /\ amm_ok a.
Proof.
  destruct (swap_run_invariant [("BKC", 500); ("Badge", 7); ("BKC", 10 ^ 15)]) as (a & H1 & H2 & _).
  - repeat constructor; cbn; auto; lia.
  - eauto.
Defined.

(** Paying BKC is sound: the swap returns, pays what [/queryrate] quotes, between
    0 and the badge reserve, and the pool gains exactly the payment and loses
    exactly the payout. *)
Theorem exchange_bkc_sound a t :
  amm_ok a -> 0 < t ->
  exists a' g, exchange_amm a "BKC" t = Ret (a', g) /\ quote_amm a "BKC" t = Ret g /\
    0 <= g <= badge a /\ bkc a' = bkc a + t /\ badge a' = badge a - g.
Proof.
  intros Hok Ht. destruct (exchange_bkc_spec a t Hok Ht) as (q & -> & -> & Hq & _).
  eexists _, _. split; [done |]. cbn. repeat split; lia.
Qed.

Lemma exchange_bkc_sound_witness : exists a' g,
  exchange_amm new_amm "BKC" 2500000 = Ret (a', g) /\ g = 2000000.
Proof.
  destruct (exchange_bkc_sound new_amm 2500000) as (a' & g & H & _).
  - unfold amm_ok, new_amm; cbn. lia.
  - lia.
  - exists a', g. split; [exact H |]. vm_compute in H. congruence.
Defined.

(** Paying Badge is not: the pool's BKC reserve falls by exactly what
    [/queryrate] quotes (between 0 and the reserve), but the amount credited to the
    trader is that quote plus [badge + t - bkc], because the code subtracts from
    the badge reserve, payment included, instead of the BKC reserve. *)
Theorem exchange_badge_overpays a t :
  amm_ok a -> 0 < t ->
  exists a' g q, exchange_amm a "Badge" t = Ret (a', g) /\ quote_amm a "Badge" t = Ret q /\
    0 <= q <= bkc a /\ bkc a' = bkc a - q /\ badge a' = badge a + t /\
    g = q + (badge a + t - bkc a).
Proof.
  intros Hok Ht. destruct (exchange_badge_spec a t Hok Ht) as (q & -> & -> & Hq & _).
  eexists _, _, _. split; [done |]. split; [done |]. cbn. repeat split; lia.
Qed.

(** At the initial pool, a payment of 10^7 badges is worth 5 * 10^6 BKC and is paid
    15 * 10^6, more than the whole reserve. *)
Lemma exchange_badge_overpays_witness : exists a' g q,
  exchange_amm new_amm "Badge" 10000000 = Ret (a', g) /\ quote_amm new_amm "Badge" 10000000 = Ret q /\
  q = 5000000 /\ g = 15000000.
Proof.
  destruct (exchange_badge_overpays new_amm 10000000) as (a' & g & q & H1 & H2 & _).
  - unfold amm_ok, new_amm; cbn. lia.
  - lia.
  - exists a', g, q. split; [exact H1 |]. split; [exact H2 |]. vm_compute in H1, H2. split; congruence.
Defined.

(** ** Handlers and ledgers together *)

Section System.
Context `{Config} `{Digest}.

(** The shards' ledgers, and an injection executed by its shard (the transactions
    are put in a block and [dealAccountBalance] is run on each). *)
Abbreviation World := (gmap Z BalanceMap).

Definition deliver (w : World) (s : Sent) : outcome World :=
  m ← deref (w !! dest s);
  m' ← deal_block m (Txs (inject s));
  Ret (<[dest s := m']> w).

(** Every shard in [sids] has a well-formed ledger. *)
Definition world_ok (w : World) : Prop := forall sid m, w !! sid = Some m -> ledger_ok m.

(** The balance a shard reports for an address. *)
Definition reported (w : World) (sid : Z) (addr ty : string) : Z :=
  handleAccQuery (default ∅ (w !! sid)) addr ty.

Lemma deal_block_spec (m : BalanceMap) txs :
  ledger_ok m -> (forall tx, tx ∈ txs -> Txtype tx ∈ Transaction_Types) ->
  exists m', deal_block m txs = Ret m' /\ ledger_ok m' /\
    forall ty a, handleAccQuery m' a ty = handleAccQuery m a ty + zsum_with (fun tx => delta tx ty a) txs.
Proof.
  revert m. unfold deal_block. induction txs as [| tx txs IH]; intros m Hok Hty; cbn [for_each].
  - exists m. split_and!; [done.. |]. intros. rewrite zsum_with_nil. lia.
  - destruct (dealAccountBalance_spec m tx Hok) as (m1 & -> & Hok1 & Hq1); [apply Hty; left |]. cbn.
    destruct (IH m1 Hok1) as (m2 & -> & Hok2 & Hq2); [intros; apply Hty; by right |].
    exists m2. split_and!; [done.. |]. intros ty a. rewrite Hq2, Hq1, zsum_with_cons. lia.
Qed.

Lemma deliver_spec (w : World) s m :
  world_ok w -> w !! dest s = Some m ->
  (forall tx, tx ∈ Txs (inject s) -> Txtype tx ∈ Transaction_Types) ->
  exists w', deliver w s = Ret w' /\ world_ok w' /\
    (forall sid, is_Some (w !! sid) -> is_Some (w' !! sid)) /\
    forall sid addr ty, reported w' sid addr ty = reported w sid addr ty +
      (if decide (sid = dest s) then zsum_with (fun tx => delta tx ty addr) (Txs (inject s)) else 0).
Proof.
  intros Hw Hm Hty. unfold deliver. rewrite Hm. cbn.
  destruct (deal_block_spec m (Txs (inject s)) (Hw _ _ Hm) Hty) as (m' & -> & Hok & Hq). cbn.
  eexists. split; [done |]. split_and!.
  - intros sid m0. rewrite lookup_insert. case_decide; [intros [= <-]; done | apply Hw].
  - intros sid Hs. apply lookup_insert_is_Some'. by right.
  - intros sid addr ty. unfold reported. rewrite lookup_insert. case_decide as E.
    + subst sid. rewrite decide_True by done. rewrite Hm. cbn. apply Hq.
    + rewrite decide_False by done. lia.
Qed.

(** The delta of a marked self transaction. *)
Lemma self_tx_delta addr v ty i ty' a :
  delta (self_tx addr v ty i) ty' a =
    if decide (ty' = ty /\ a = addr) then (if i =? 2 then v else if i =? 1 then - v else 0) else 0.
Proof.
  unfold delta; cbn. repeat case_decide; destruct_and?; subst; try done; tauto.
Qed.

Lemma known_type_in ty : known_type ty = true <-> ty ∈ Transaction_Types.
Proof. apply bool_decide_eq_true. Qed.

(** ** [/transaction] *)

(** A transfer requested through [/transaction] between two accounts of
    different shards moves the amount once: the sender's shard reports it less and
    the recipient's shard reports it more. Between two accounts of the same shard
    the handler injects the same transaction twice, and twice the amount moves. *)
Theorem transaction_moves d (w : World) from to token ty v s r :
  from <> to -> from <> "" -> to <> "" -> ty <> "" -> ty ∈ Transaction_Types ->
  parse_amount token = Some v -> GetAddr2ShardMap d from = Ret s -> GetAddr2ShardMap d to = Ret r ->
  world_ok w -> is_Some (w !! s) -> is_Some (w !! r) ->
  exists h w', handle_transaction d from to token ty = Ret h /\ next h = d /\
    for_each deliver w (sent h) = Ret w' /\
    reported w' s from ty = reported w s from ty - (if decide (s = r) then 2 * v else v) /\
    reported w' r to ty = reported w r to ty + (if decide (s = r) then 2 * v else v).
Proof.
  intros Hne Hf Ht Hty0 Hty Hv Hs Hr Hw [ms Hms] [mr Hmr]. unfold handle_transaction.
  rewrite !decide_False by done. rewrite (proj2 (known_type_in ty) Hty). cbn [negb].
  rewrite Hv, Hs, Hr. cbn [mbind outcome_bind].
  set (tx := tx_set_inblock true 0 (NewTransaction from to v 123 0 ty)).
  assert (forall a, delta tx ty a = (if decide (a = from) then - v else 0) + (if decide (a = to) then v else 0)) as Hd.
  { intros a. unfold delta, tx; cbn. rewrite decide_True, (decide_False (P := from = to)) by done. done. }
  assert (forall x, x ∈ [tx] -> Txtype x ∈ Transaction_Types) as Hin by (by intros x ->%list_elem_of_singleton).
  destruct (deliver_spec w (mkSent s (mkInjectTxs [tx] s)) ms Hw Hms Hin) as (w1 & E1 & Hw1 & Hdom1 & Hq1).
  destruct (Hdom1 r) as [mr1 Hmr1]; [eauto |].
  destruct (deliver_spec w1 (mkSent r (mkInjectTxs [tx] s)) mr1 Hw1 Hmr1 Hin) as (w2 & E2 & Hw2 & _ & Hq2).
  eexists _, w2. split; [done |]. split; [done |]. cbn [sent for_each]. rewrite E1. cbn [mbind outcome_bind].
  rewrite E2. split; [done |]. rewrite !Hq2, !Hq1. cbn [dest inject Txs]. rewrite !zsum_one, !Hd.
  rewrite !(decide_True (P := from = from)), !(decide_True (P := to = to)), !(decide_True (P := s = s)),
    !(decide_True (P := r = r)), !(decide_False (P := from = to)), !(decide_False (P := to = from)) by done.
  split; repeat case_decide; lia || congruence.
Qed.

(** ** [/exchange] *)

Lemma handle_exchange_run d addr token v from to sid a' g :
  addr <> "" -> from <> "" -> to <> "" -> from ∈ Transaction_Types -> to ∈ Transaction_Types ->
  parse_amount token = Some v -> GetAddr2ShardMap d addr = Ret sid ->
  exchange_amm (amm_model d) from v = Ret (a', g) ->
  handle_exchange d addr token from to = Ret (mkHandled (StatusOK "msg" "Done!")
    (mkSup a' (accountBalanceMap d) (sup_broker d) (addr2ShardMap d))
    [mkSent sid (mkInjectTxs [self_tx addr v from 1; self_tx addr g to 2] sid)]).
Proof.
  intros Ha Hf Ht Hfi Hti Hv Hsid Hx. unfold handle_exchange. rewrite !decide_False by done.
  rewrite (proj2 (known_type_in from) Hfi), (proj2 (known_type_in to) Hti), Hv, Hx. cbn.
  by rewrite Hsid.
Qed.

(** The effect of a pair of debit and credit on the reports of a shard. *)
Lemma deliver_pair (w : World) sid addr v from g to m :
  world_ok w -> w !! sid = Some m -> from ∈ Transaction_Types -> to ∈ Transaction_Types -> from <> to ->
  exists w', deliver w (mkSent sid (mkInjectTxs [self_tx addr v from 1; self_tx addr g to 2] sid)) = Ret w' /\
    forall a ty, reported w' sid a ty = reported w sid a ty +
      (if decide (a = addr) then (if decide (ty = from) then - v else if decide (ty = to) then g else 0) else 0).
Proof.
  intros Hw Hm Hf Ht Hne.
  destruct (deliver_spec w (mkSent sid (mkInjectTxs [self_tx addr v from 1; self_tx addr g to 2] sid)) m Hw Hm)
    as (w' & Hd & _ & _ & Hq).
  { cbn. intros x Hx. repeat (apply elem_of_cons in Hx as [-> | Hx]); [done | done | by apply not_elem_of_nil in Hx]. }
  exists w'. split; [exact Hd |]. intros a ty. rewrite Hq. cbn [dest inject Txs].
  rewrite decide_True by done. rewrite zsum_with_cons, zsum_one, !self_tx_delta. cbn.
  repeat case_decide; destruct_and?; subst; try lia; tauto.
Qed.

Lemma parse_amount_pos token v : parse_amount token = Some v -> 0 < v.
Proof.
  unfold parse_amount. destruct (SetString10 token) as [z |]; [| done].
  destruct (Z.leb_spec z 0); [done |]. intros [= <-]. lia.
Qed.

(** The whole course of an exchange of BKC for Badge: the pool's new badge reserve
    is [q]. *)
Lemma exchange_bkc_system d (w : World) addr token v sid :
  addr <> "" -> "BKC" ∈ Transaction_Types -> "Badge" ∈ Transaction_Types ->
  parse_amount token = Some v -> GetAddr2ShardMap d addr = Ret sid ->
  amm_ok (amm_model d) -> world_ok w -> is_Some (w !! sid) ->
  exists h w' q, handle_exchange d addr token "BKC" "Badge" = Ret h /\
    response h = StatusOK "msg" "Done!" /\
    amm_model (next h) = mkAmm (bkc (amm_model d) + v) q (constant_val (amm_model d)) /\
    amm_ok (amm_model (next h)) /\ for_each deliver w (sent h) = Ret w' /\
    forall a ty, reported w' sid a ty = reported w sid a ty +
      (if decide (a = addr) then (if decide (ty = "BKC") then - v
         else if decide (ty = "Badge") then badge (amm_model d) - q else 0) else 0).
Proof.
  intros Ha Hk1 Hk2 Hv Hsid Hok Hw [m Hm].
  destruct (exchange_bkc_spec (amm_model d) v Hok (parse_amount_pos _ _ Hv)) as (q & Hx & _ & _ & Hok').
  rewrite (handle_exchange_run d addr token v "BKC" "Badge" sid _ _ Ha ltac:(done) ltac:(done) Hk1 Hk2 Hv Hsid Hx).
  destruct (deliver_pair w sid addr v "BKC" (badge (amm_model d) - q) "Badge" m Hw Hm Hk1 Hk2 ltac:(done))
    as (w' & Hd & Hrep).
  eexists _, w', q. split; [done |]. cbn [sent for_each next amm_model response]. rewrite Hd. done.
Qed.

(** An exchange of BKC for Badge conserves both tokens between the trader's
    account and the pool: once its two transactions are executed, the trader's BKC
    are down by what the pool gained, the trader's Badge up by what the pool lost,
    and no other balance of the shard has moved. *)
Theorem exchange_bkc_conserves d (w : World) addr token v sid :
  addr <> "" -> "BKC" ∈ Transaction_Types -> "Badge" ∈ Transaction_Types ->
  parse_amount token = Some v -> GetAddr2ShardMap d addr = Ret sid ->
  amm_ok (amm_model d) -> world_ok w -> is_Some (w !! sid) ->
  exists h w', handle_exchange d addr token "BKC" "Badge" = Ret h /\
    for_each deliver w (sent h) = Ret w' /\ amm_ok (amm_model (next h)) /\
    reported w' sid addr "BKC" + bkc (amm_model (next h)) =
      reported w sid addr "BKC" + bkc (amm_model d) /\
    reported w' sid addr "Badge" + badge (amm_model (next h)) =
      reported w sid addr "Badge" + badge (amm_model d) /\
    forall a ty, a <> addr -> reported w' sid a ty = reported w sid a ty.
Proof.
  intros Ha Hk1 Hk2 Hv Hsid Hok Hw Hm.
  destruct (exchange_bkc_system d w addr token v sid Ha Hk1 Hk2 Hv Hsid Hok Hw Hm)
    as (h & w' & q & Hh & _ & E & Hok' & Hd & Hrep).
  exists h, w'. split_and!; [done | done | done | ..]; rewrite ?E; cbn [bkc badge].
  - rewrite Hrep, !decide_True by done. lia.
  - rewrite Hrep, (decide_True (P := addr = addr)), (decide_False (P := "Badge" = "BKC")), decide_True by done. lia.
  - intros a ty Hne. rewrite Hrep, decide_False by done. lia.
Qed.

(** No balance is checked: the exchange of an amount above the trader's balance is
    accepted, and leaves the account with a negative balance. *)
Theorem exchange_overdraws d (w : World) addr token v sid :
  addr <> "" -> "BKC" ∈ Transaction_Types -> "Badge" ∈ Transaction_Types ->
  parse_amount token = Some v -> GetAddr2ShardMap d addr = Ret sid ->
  amm_ok (amm_model d) -> world_ok w -> is_Some (w !! sid) -> reported w sid addr "BKC" < v ->
  exists h w', handle_exchange d addr token "BKC" "Badge" = Ret h /\
    response h = StatusOK "msg" "Done!" /\ for_each deliver w (sent h) = Ret w' /\
    reported w' sid addr "BKC" < 0.
Proof.
  intros Ha Hk1 Hk2 Hv Hsid Hok Hw Hm Hlow.
  destruct (exchange_bkc_system d w addr token v sid Ha Hk1 Hk2 Hv Hsid Hok Hw Hm)
    as (h & w' & q & Hh & Hr & _ & _ & Hd & Hrep).
  exists h, w'. split_and!; [done | done | done |]. rewrite Hrep, !decide_True by done. lia.
Qed.
End System.

(** ** Becoming and ceasing to be a broker *)

Section Brokers.
Context `{Config} `{Digest}.

Lemma per_shard_lookup {A} (v : A) sid : 0 <= sid < ShardNum -> per_shard v !! sid = Some v.
Proof.
  intros Hs. unfold per_shard. apply foldl_insert_const. left. unfold shards. apply elem_of_seqZ. lia.
Qed.

Lemma set2_spec {A} (m : gmap string (gmap string (gmap Z A))) ty addr v :
  is_Some (m !! ty) ->
  exists m', set2 m ty addr v = Ret m' /\ forall sid, bal3 m' ty addr sid = v !! sid.
Proof.
  intros [inner Hi]. unfold set2. rewrite Hi. eexists. split; [done |]. intros sid. unfold bal3.
  rewrite lookup_insert_eq. cbn. by rewrite lookup_insert_eq.
Qed.

Lemma zlen_shards : 0 <= ShardNum -> zlen shards = ShardNum.
Proof. intros Hs. unfold zlen, shards. rewrite length_seqZ. lia. Qed.

(** [/applybroker] with a valid amount always sends the debit of the whole
    amount. When the amount is below the number of shards, or the address already
    is a broker, the request is then refused and nothing else changes: the amount
    is debited and lost. Otherwise the address becomes a broker with an equal free
    balance in every shard and nothing locked, the shards together holding the
    amount up to its remainder modulo the number of shards. *)
Theorem applybroker_effect d addr token ty v sid :
  addr <> "" -> ty <> "" -> ty ∈ Transaction_Types -> parse_amount token = Some v ->
  GetAddr2ShardMap d addr = Ret sid -> 0 < ShardNum ->
  is_Some (BrokerBalance (sup_broker d) !! ty) -> is_Some (LockBalance (sup_broker d) !! ty) ->
  is_Some (ProfitBalance (sup_broker d) !! ty) ->
  exists h, handle_applybroker d addr token ty = Ret h /\
    sent h = [mkSent sid (mkInjectTxs [self_tx addr v ty 1] sid)] /\
    if (v <? ShardNum) || IsBroker (sup_broker d) addr then next h = d
    else IsBroker (sup_broker (next h)) addr = true /\
      (forall s, 0 <= s < ShardNum ->
         bal3 (BrokerBalance (sup_broker (next h))) ty addr s = Some (v / ShardNum) /\
         bal3 (LockBalance (sup_broker (next h))) ty addr s = Some 0) /\
      zsum_with (fun s => default 0 (bal3 (BrokerBalance (sup_broker (next h))) ty addr s)) shards =
        v - v mod ShardNum.
Proof.
  intros Ha Ht Hty Hv Hsid HS Hb Hl Hp. pose proof (parse_amount_pos _ _ Hv) as Hpos.
  unfold handle_applybroker. rewrite !decide_False by (try done; intros ->; done).
  rewrite (proj2 (known_type_in ty) Hty), Hv, Hsid. cbn [negb mbind outcome_bind].
  rewrite Z.abs_eq by lia. destruct (Z.eqb_spec ShardNum 0) as [| HS0]; [lia |].
  pose proof (Z.div_mod v _ HS0). pose proof (Z.mod_pos_bound v ShardNum HS).
  destruct (Z.eqb_spec (v / ShardNum) 0) as [E0 | E0].
  { eexists. split; [done |]. split; [done |]. destruct (Z.ltb_spec v ShardNum); [done | nia]. }
  destruct (Z.ltb_spec v ShardNum); [rewrite Z.div_small in E0; lia |]. cbn [orb].
  destruct (IsBroker (sup_broker d) addr) eqn:Eb; [by eexists |].
  destruct (set2_spec (BrokerBalance (sup_broker d)) ty addr (per_shard (v / ShardNum)) Hb) as (m1 & E1 & Hm1).
  destruct (set2_spec (LockBalance (sup_broker d)) ty addr (per_shard 0) Hl) as (m2 & E2 & Hm2).
  destruct (set2_spec (ProfitBalance (sup_broker d)) ty addr
              (per_shard (bf_NewFloat (S754_zero false))) Hp) as (m3 & E3 & Hm3).
  unfold add_broker. rewrite E1, E2, E3. cbn. eexists. split; [done |]. split; [done |]. cbn.
  split_and!.
  - unfold IsBroker. cbn. apply bool_decide_eq_true. left.
  - intros s Hs. rewrite Hm1, Hm2, !per_shard_lookup by done. done.
  - rewrite (zsum_with_ext _ (fun _ => v / ShardNum)); [rewrite zsum_const, zlen_shards by lia; lia |].
    intros s Hs%elem_of_seqZ. rewrite Hm1, per_shard_lookup by lia. done.
Qed.

(** Every token in which the address has a balance has it in all shards, with its
    lock and profit entries: what [NewBroker] and [/applybroker] build. *)
Definition broker_full (b : Broker) (addr : string) : Prop :=
  forall ty m, BrokerBalance b !! ty ≫= (fun x => x !! addr) = Some m ->
    forall sid, sid ∈ shards -> is_Some (m !! sid) /\
      is_Some (bal3 (LockBalance b) ty addr sid) /\ is_Some (bal3 (ProfitBalance b) ty addr sid).

Lemma add_shards_returns {A} (conv : A -> bigFloat) m p :
  (forall sid, sid ∈ shards -> is_Some (m !! sid)) -> returns (add_shards conv m p).
Proof.
  intros Hm. unfold add_shards. destruct (for_each_returns (fun _ => True)
    (fun acc sid => v ← deref (m !! sid); Ret (bf_Add 0 (conv v) acc)) p shards) as (p' & Hp & _); [done | | by exists p'].
  intros acc sid Hs _. destruct (Hm sid Hs) as [v ->]. by eexists.
Qed.

Lemma del2_lookup {A} (m : gmap string (gmap string A)) ty addr ty' addr' :
  del2 m ty addr !! ty' ≫= (fun x => x !! addr') =
    if decide (ty' = ty /\ addr' = addr) then None else m !! ty' ≫= (fun x => x !! addr').
Proof.
  unfold del2. rewrite lookup_alter. destruct (decide (ty = ty')) as [<- | Hne].
  - destruct (m !! ty) as [inner |]; cbn.
    + rewrite lookup_delete. repeat case_decide; destruct_and?; subst; try done; tauto.
    + by case_decide.
  - rewrite decide_False by (intros [-> _]; done). done.
Qed.

Lemma bal3_entry {A} (m : gmap string (gmap string (gmap Z A))) ty addr sid :
  is_Some (bal3 m ty addr sid) -> is_Some (entry2 m ty addr !! sid).
Proof.
  unfold bal3, entry2. destruct (m !! ty) as [m1 |]; cbn; [| by intros [? ?]].
  destruct (m1 !! addr); cbn; [done | by intros [? ?]].
Qed.

(** The state of the withdrawal loop: no entry is created, and the entries of other
    addresses are untouched. *)
Record withdrawing (b0 : Broker) (addr : string) (s : withdraw_state) : Prop := {
  wi_full : broker_full (w_broker s) addr;
  wi_none : forall ty, BrokerBalance b0 !! ty ≫= (fun x => x !! addr) = None ->
    BrokerBalance (w_broker s) !! ty ≫= (fun x => x !! addr) = None;
  wi_others : forall ty a, a <> addr ->
    BrokerBalance (w_broker s) !! ty ≫= (fun x => x !! a) = BrokerBalance b0 !! ty ≫= (fun x => x !! a);
  wi_addrs : BrokerAddress (w_broker s) = BrokerAddress b0
}.

Lemma withdraw_type_step d b0 addr sid s ty :
  GetAddr2ShardMap d addr = Ret sid -> withdrawing b0 addr s ->
  exists s', withdraw_type d addr s ty = Ret s' /\ withdrawing b0 addr s' /\
    BrokerBalance (w_broker s') !! ty ≫= (fun x => x !! addr) = None /\
    (forall ty', BrokerBalance (w_broker s) !! ty' ≫= (fun x => x !! addr) = None ->
       BrokerBalance (w_broker s') !! ty' ≫= (fun x => x !! addr) = None).
Proof.
  intros Hsid [Hfull Hnone Hoth Haddr]. unfold withdraw_type.
  destruct (BrokerBalance (w_broker s) !! ty ≫= (fun x => x !! addr)) as [free |] eqn:Ef; [| eexists; by split].
  destruct (add_shards_returns bf_SetInt free (bf_NewFloat (S754_zero false))) as [p1 ->].
  { intros x Hx. by apply (Hfull ty free Ef). }
  cbn. destruct (add_shards_returns bf_SetInt (entry2 (LockBalance (w_broker s)) ty addr) p1) as [p2 ->].
  { intros x Hx. apply bal3_entry. by apply (Hfull ty free Ef). }
  cbn. destruct (add_shards_returns (fun x => x) (entry2 (ProfitBalance (w_broker s)) ty addr) p2) as [p3 ->].
  { intros x Hx. apply bal3_entry. by apply (Hfull ty free Ef). }
  cbn. rewrite Hsid. cbn [mbind outcome_bind]. eexists. split; [done |].
  cbn [w_broker BrokerBalance].
  assert (forall A (m : gmap string (gmap string (gmap Z A))) ty' x, ty' <> ty ->
            bal3 (del2 m ty addr) ty' addr x = bal3 m ty' addr x) as Hkeep.
  { intros A m ty' x Hne. unfold bal3, del2. by rewrite lookup_alter_ne. }
  split_and!; [| by rewrite del2_lookup, decide_True by done |].
  - constructor; unfold broker_full; cbn [w_broker BrokerBalance LockBalance ProfitBalance]; [| | | done].
    + intros ty' m Hm x Hx. rewrite del2_lookup in Hm. case_decide as E; [done |].
      assert (ty' <> ty) by (intros ->; by apply E). rewrite !Hkeep by done. by apply (Hfull ty').
    + intros ty' Hn. rewrite del2_lookup. case_decide; [done | by apply Hnone].
    + intros ty' a Hne. rewrite del2_lookup, decide_False by (intros [_ ->]; done). by apply Hoth.
  - intros ty' Hn. rewrite del2_lookup. by case_decide.
Qed.

Lemma withdraw_loop d b0 addr sid tys s :
  GetAddr2ShardMap d addr = Ret sid -> withdrawing b0 addr s ->
  exists s', for_each (withdraw_type d addr) s tys = Ret s' /\ withdrawing b0 addr s' /\
    (forall ty, ty ∈ tys \/ BrokerBalance (w_broker s) !! ty ≫= (fun x => x !! addr) = None ->
       BrokerBalance (w_broker s') !! ty ≫= (fun x => x !! addr) = None).
Proof.
  intros Hsid. revert s. induction tys as [| ty tys IH]; intros s Hs; cbn [for_each].
  - exists s. split; [done |]. split; [done |]. intros ty [Hty |]; [by apply not_elem_of_nil in Hty | done].
  - destruct (withdraw_type_step d b0 addr sid s ty Hsid Hs) as (s1 & -> & H1 & Hgone & Hstay). cbn.
    destruct (IH s1 H1) as (s' & -> & H' & Hn). exists s'. split; [done |]. split; [done |].
    intros ty' [Hty | Hty]; apply Hn; [| right; auto].
    apply elem_of_cons in Hty as [-> | Hty]; auto.
Qed.

Lemma removeElement_spec l x : NoDup l -> forall y, y ∈ removeElement l x <-> y ∈ l /\ y <> x.
Proof.
  induction l as [| v l IH]; intros Hnd y; cbn; [split; [intros Hy; by apply not_elem_of_nil in Hy | by intros [? _]] |].
  apply NoDup_cons in Hnd as [Hni Hnd]. case_decide as E.
  - subst v. rewrite elem_of_cons. split; [intros Hy; split; [by right | by intros ->] | tauto].
  - rewrite !elem_of_cons, IH by done. split; [intros [-> | ?]; tauto | tauto].
Qed.

(** A withdrawal ends the broker: for a broker whose entries are complete the
    handler returns, and afterwards the address is no broker, has no balance left in
    any token of the configuration, and the other brokers are as before. *)
Theorem withdrawbroker_removes d addr sid :
  addr <> "" -> IsBroker (sup_broker d) addr = true -> NoDup (BrokerAddress (sup_broker d)) ->
  broker_full (sup_broker d) addr -> GetAddr2ShardMap d addr = Ret sid ->
  exists h total, handle_withdrawbroker d addr = Ret (h, total) /\
    (forall a, IsBroker (sup_broker (next h)) a = bool_decide (a <> addr) && IsBroker (sup_broker d) a) /\
    (forall ty, ty ∈ Transaction_Types ->
       BrokerBalance (sup_broker (next h)) !! ty ≫= (fun x => x !! addr) = None) /\
    (forall ty a, a <> addr -> BrokerBalance (sup_broker (next h)) !! ty ≫= (fun x => x !! a) =
       BrokerBalance (sup_broker d) !! ty ≫= (fun x => x !! a)).
Proof.
  intros Ha Hb Hnd Hfull Hsid. unfold handle_withdrawbroker. rewrite decide_False by done.
  rewrite Hb. cbn [negb].
  destruct (withdraw_loop d (sup_broker d) addr sid Transaction_Types (mkWithdraw (sup_broker d) 0 []) Hsid)
    as (s' & -> & [_ _ Hoth Haddr] & Hgone); [by constructor |].
  cbn. eexists _, _. split; [done |]. cbn. split_and!; [| by eauto | done].
  intros a. unfold IsBroker. cbn. rewrite Haddr. rewrite <- bool_decide_and. apply bool_decide_ext.
  rewrite removeElement_spec by done. tauto.
Qed.

(** A balance reply is delivered to exactly one query: after
    [handleAccountBalReply] the next poll for that account and token returns the
    replied balance, and the one after it waits again. *)
Theorem balance_reply_once d con d1 :
  handleAccountBalReply d con = Ret d1 ->
  (poll_balance d1 (r_Addr con) (r_TXType con)).2 = Some (r_Balance con) /\
  (poll_balance (poll_balance d1 (r_Addr con) (r_TXType con)).1 (r_Addr con) (r_TXType con)).2 = None.
Proof.
  unfold handleAccountBalReply, set2. destruct (accountBalanceMap d !! r_TXType con) as [inner |] eqn:E; [| done].
  cbn. intros [= <-]. unfold poll_balance. cbn. rewrite lookup_insert_eq. cbn. rewrite lookup_insert_eq. cbn.
  split; [done |]. rewrite lookup_alter_eq, lookup_insert_eq. cbn. by rewrite lookup_insert_eq.
Qed.
End Brokers.

(** ** Witnesses *)

Definition sample_digest : Digest := {| tx_digest := fun t => Sender t |}.

Definition addr0 : string := "0000000000000000000000000000000000000000".
Definition addr1 : string := "0000000000000000000000000000000000000001".
Definition addr4 : string := "0000000000000000000000000000000000000004".

(** A supervisor with one broker from the file, and the ledgers of the four shards. *)
Definition sup0 : SupState := @new_supervisor default_config [addr1].

Definition world0 : gmap Z BalanceMap :=
  foldl (fun w sid => <[sid := @new_balance_map default_config]> w) ∅ [0; 1; 2; 3].

Lemma world0_ok : @world_ok default_config world0.
Proof.
  intros sid m Hm. unfold world0 in Hm. cbn [foldl] in Hm.
  repeat (rewrite lookup_insert in Hm; case_decide; [injection Hm as <-; apply new_balance_map_ok |]).
  done.
Qed.

Lemma new_amm_ok : amm_ok new_amm.
Proof. unfold amm_ok, new_amm; cbn. lia. Qed.

Ltac closed_set := apply (bool_decide_unpack _); vm_compute; exact I.

(** 30 BKC from shard 0 to shard 1, and 30 BKC between two accounts of shard 0. *)
Lemma transaction_moves_witness :
  (exists h w', @handle_transaction default_config sample_digest sup0 addr0 addr1 "30" "BKC" = Ret h /\
    for_each (@deliver default_config) world0 (sent h) = Ret w' /\
    @reported default_config w' 1 addr1 "BKC" = 10030) /\
  (exists h w', @handle_transaction default_config sample_digest sup0 addr0 addr4 "30" "BKC" = Ret h /\
    for_each (@deliver default_config) world0 (sent h) = Ret w' /\
    @reported default_config w' 0 addr4 "BKC" = 10060).
Proof.
  split.
  - destruct (@transaction_moves default_config sample_digest sup0 world0 addr0 addr1 "30" "BKC" 30 0 1)
      as (h & w' & H1 & _ & H2 & _ & H3); [closed_set .. | reflexivity | reflexivity | reflexivity | exact world0_ok | closed_set | closed_set |].
    exists h, w'. split; [exact H1 |]. split; [exact H2 |]. rewrite H3. vm_compute. reflexivity.
  - destruct (@transaction_moves default_config sample_digest sup0 world0 addr0 addr4 "30" "BKC" 30 0 0)
      as (h & w' & H1 & _ & H2 & _ & H3); [closed_set .. | reflexivity | reflexivity | reflexivity | exact world0_ok | closed_set | closed_set |].
    exists h, w'. split; [exact H1 |]. split; [exact H2 |]. rewrite H3. vm_compute. reflexivity.
Defined.

Lemma exchange_bkc_conserves_witness :
  exists h w', @handle_exchange default_config sample_digest sup0 addr0 "2500" "BKC" "Badge" = Ret h /\
    for_each (@deliver default_config) world0 (sent h) = Ret w' /\
    @reported default_config w' 0 addr0 "BKC" + bkc (amm_model (next h)) = 10010000.
Proof.
  destruct (@exchange_bkc_conserves default_config sample_digest sup0 world0 addr0 "2500" 2500 0)
    as (h & w' & H1 & H2 & _ & H3 & _);
    [closed_set .. | reflexivity | reflexivity | exact new_amm_ok | exact world0_ok | closed_set |].
  exists h, w'. split; [exact H1 |]. split; [exact H2 |]. rewrite H3. vm_compute. reflexivity.
Defined.

Lemma exchange_overdraws_witness :
  exists h w', @handle_exchange default_config sample_digest sup0 addr0 "20000" "BKC" "Badge" = Ret h /\
    for_each (@deliver default_config) world0 (sent h) = Ret w' /\
    @reported default_config w' 0 addr0 "BKC" < 0.
Proof.
  destruct (@exchange_overdraws default_config sample_digest sup0 world0 addr0 "20000" 20000 0)
    as (h & w' & H1 & _ & H2 & H3);
    [closed_set .. | reflexivity | reflexivity | exact new_amm_ok | exact world0_ok | closed_set | vm_compute; reflexivity |].
  exists h, w'. auto.
Defined.

(** A new broker with 1003 BKC, and a second application that is refused after the
    debit was sent. *)
Lemma applybroker_effect_witness :
  exists h, @handle_applybroker default_config sample_digest sup0 addr0 "1003" "BKC" = Ret h /\
    bal3 (BrokerBalance (sup_broker (next h))) "BKC" addr0 3 = Some 250 /\
  exists h', @handle_applybroker default_config sample_digest (next h) addr0 "500" "BKC" = Ret h' /\
    next h' = next h /\ length (sent h') = 1%nat.
Proof.
  destruct (@applybroker_effect default_config sample_digest sup0 addr0 "1003" "BKC" 1003 0)
    as (h & H1 & _ & _ & H2 & _);
    [closed_set .. | reflexivity | reflexivity | reflexivity | closed_set | closed_set | closed_set |].
  exists h. split; [exact H1 |]. split; [apply (proj1 (H2 3 ltac:(cbn; lia))) |].
  vm_compute in H1. injection H1 as <-.
  match goal with |- context [@handle_applybroker _ _ (next ?x)] => set (h := x) end.
  destruct (@applybroker_effect default_config sample_digest (next h) addr0 "500" "BKC" 500 0)
    as (h' & H3 & H4 & H5);
    [closed_set .. | reflexivity | reflexivity | reflexivity | closed_set | closed_set | closed_set |].
  exists h'. split; [exact H3 |]. split; [exact H5 | rewrite H4; reflexivity].
Defined.

Lemma withdrawbroker_removes_witness :
  exists h total, @handle_withdrawbroker default_config sample_digest sup0 addr1 = Ret (h, total) /\
    IsBroker (sup_broker (next h)) addr1 = false.
Proof.
  destruct (@withdrawbroker_removes default_config sample_digest sup0 addr1 1) as (h & total & H1 & H2 & _).
  - discriminate.
  - reflexivity.
  - closed_set.
  - intros ty m Hm sid Hs. cbn in Hs.
    assert (ty = "BKC" \/ ty = "Badge") as Hty.
    { unfold sup0, new_supervisor, NewBroker in Hm. cbn [sup_broker BrokerBalance foldl Transaction_Types default_config] in Hm.
      rewrite lookup_insert in Hm. case_decide; [by right |].
      rewrite lookup_insert in Hm. case_decide; [by left | done]. }
    destruct Hty as [-> | ->]; vm_compute in Hm; injection Hm as <-;
      repeat (apply elem_of_cons in Hs as [-> | Hs]; [split_and!; eexists; vm_compute; reflexivity |]);
      by apply not_elem_of_nil in Hs.
  - reflexivity.
  - exists h, total. split; [exact H1 |]. rewrite H2. reflexivity.
Defined.

Lemma balance_reply_once_witness :
  exists d1, @handleAccountBalReply sup0 (mkBalReply addr0 77 "BKC") = Ret d1 /\
    (poll_balance d1 addr0 "BKC").2 = Some 77.
Proof.
  eexists. split; [reflexivity |].
  apply (balance_reply_once sup0 (mkBalReply addr0 77 "BKC")). reflexivity.
Defined.

(** The payouts of a withdrawal accumulate over the token types: the broker that
    [NewBroker] endows with 10000 BKC and 10000 Badge in each of four shards is
    credited 40000 BKC and then 80000 Badge, twice what it holds. *)
Theorem withdrawbroker_accumulates :
  exists h, @handle_withdrawbroker default_config sample_digest sup0 addr1 = Ret (h, 80000) /\
    map (fun s => map (fun tx => (Txtype tx, Value tx, IncreaseOrDecrease tx)) (Txs (inject s))) (sent h) =
      [[("BKC", 40000, 2)]; [("Badge", 80000, 2)]].
Proof. eexists. split; vm_compute; reflexivity. Qed.
