(* ===== verification/Committee.v ===== *)
(** * The broker committee of the supervisor

    Models [supervisor/committee/committee_broker_b2e.go]: sending transactions to
    the shards ([txSending]), turning a batch into inner-shard transactions and
    broker requests ([dealTxByBroker], with [GenerateAllocatedTx],
    [handleAllocatedTx], [lockToken]), the two halves of a brokered transfer
    ([handleBrokerRawMag], [handleBrokerType1Mes], [handleTx1ConfirmMag],
    [handleBrokerType2Mes], [handleTx2ConfirmMag]) and the reaction to a block
    ([HandleBlockInfo], [createConfirm]).

    Each operation maps the committee's state to the new state and the injections
    it sends. The orders in which Go ranges over maps are arguments. *)
From Stdlib Require Import ZArith Lia.
From stdpp Require Import base gmap strings list fin_maps.
From S2P Require Import Prelude Utils JournalTypes Core Message Floats Broker B2E.

(** The digest of a broker request: [sha256] of its JSON encoding, a function of the
    transaction's value and of the broker. *)
Class MegDigest := { raw_digest : Transaction -> string -> string }.

Record Committee := mkCommittee {
  nowDataNum : Z;
  cBroker : Broker;
  brokerConfirm1Pool : gmap string Mag1Confirm;
  brokerConfirm2Pool : gmap string Mag2Confirm;
  restBrokerRawMegPool : gmap string (list BrokerRawMeg)
}.

Definition with_broker (b : Broker) (c : Committee) : Committee :=
  mkCommittee (nowDataNum c) b (brokerConfirm1Pool c) (brokerConfirm2Pool c) (restBrokerRawMegPool c).

Definition with_balances (bal lock : Balances) (prof : Profits) (b : Broker) : Broker :=
  mkBroker (BrokerRawMegs b) (BrokerAddress b) bal lock prof (RawTx2BrokerTx b) (Brokerage b).

(** The orders of the map ranges in [GenerateAllocatedTx] and [handleAllocatedTx]. *)
Record alloc_choice := mkAlloc {
  ac_brokers : list string;
  ac_shards : string -> list Z;
  ac_inner : string -> Z -> list Z;
  ac_gen_brokers : list string;
  ac_gen_shards : string -> list Z;
  ac_apply : list Z
}.

(** [m[k].Op(m[k], ...)] on a map of integers: a nil pointer panics. *)
Definition upd1 (m : gmap Z Z) (k : Z) (f : Z -> Z) : outcome (gmap Z Z) :=
  v ← deref (m !! k); Ret (<[k := f v]> m).

(** The same two levels deep. *)
Definition upd2 (m : gmap string (gmap Z Z)) (b : string) (k : Z) (f : Z -> Z)
  : outcome (gmap string (gmap Z Z)) :=
  inner ← deref (m !! b); inner' ← upd1 inner k f; Ret (<[b := inner']> m).

Section Committee.
Context {cfg : Config} {dg : Digest} {md : MegDigest}.

(** [NewBrokerCommitteeMod_b2e]: the state besides the result tables. *)
Definition NewBrokerCommitteeMod (file : list string) : Committee :=
  mkCommittee 0 (NewBroker file) ∅ ∅ (foldl (fun m ty => <[ty := []]> m) ∅ Transaction_Types).

Definition fetchModifiedMap (key : string) : outcome Z := s ← Addr2Shard key; Ret (u64 s).

(** ** [txSending] *)

(** The messages of one flush: one for every shard, empty or not. *)
Definition flush (sendToShard : gmap Z (list Transaction)) : list InjectTxs :=
  map (fun sid => mkInjectTxs (default [] (sendToShard !! sid)) sid) shards.

(** The shard a transaction is sent to. *)
Definition route (tx : Transaction) : outcome Z :=
  sendersid ← fetchModifiedMap (Sender tx);
  if Isbrokertx2 tx then fetchModifiedMap (Recipient tx) else Ret sendersid.

Definition flush_due (idx len : Z) : outcome bool :=
  if negb (0 <? idx) then Ret false
  else if InjectSpeed =? 0 then Panic "integer divide by zero"
  else Ret ((Z.rem idx InjectSpeed =? 0) || (idx =? len)).

Fixpoint send_loop (idx len : Z) (sendToShard : gmap Z (list Transaction)) (txs : list Transaction)
  : outcome (list InjectTxs) :=
  due ← flush_due idx len;
  let out := if due : bool then flush sendToShard else [] in
  let acc := if due : bool then ∅ else sendToShard in
  match txs with
  | [] => Ret out
  | tx :: rest =>
      sid ← route tx;
      more ← send_loop (idx + 1) len (<[sid := default [] (acc !! sid) ++ [tx]]> acc) rest;
      Ret (out ++ more)
  end.

Definition txSending (txlist : list Transaction) : outcome (list InjectTxs) :=
  send_loop 0 (zlen txlist) ∅ txlist.

(** ** Locking *)

Definition lock_one (tx_type : string) (b : Broker) (meg : BrokerRawMeg) : outcome Broker :=
  rSid ← fetchModifiedMap (Recipient (tval (rm_Tx meg)));
  if negb (IsBroker b (rm_Broker meg)) then Ret b
  else
    lock ← upd3 (LockBalance b) tx_type (rm_Broker meg) rSid (fun v => v + val (rm_Tx meg));
    bal ← upd3 (BrokerBalance b) tx_type (rm_Broker meg) rSid (fun v => v - val (rm_Tx meg));
    Ret (with_balances bal lock (ProfitBalance b) b).

Definition lockToken (b : Broker) (megs : list BrokerRawMeg) (tx_type : string) : outcome Broker :=
  for_each (lock_one tx_type) b megs.

Definition apply_allocated (tx_type : string) (shardId : Z) (b : Broker) (tx : Transaction) : outcome Broker :=
  b1 ← (if IsAllocatedSender tx then
          bal ← upd3 (BrokerBalance b) tx_type (Sender tx) shardId (fun v => v - Value tx);
          Ret (with_balances bal (LockBalance b) (ProfitBalance b) b)
        else Ret b);
  if IsAllocatedRecipent tx then
    bal ← upd3 (BrokerBalance b1) tx_type (Recipient tx) shardId (fun v => v + Value tx);
    Ret (with_balances bal (LockBalance b1) (ProfitBalance b1) b1)
  else Ret b1.

Definition handleAllocatedTx (order : list Z) (b : Broker) (alloctedTx : gmap Z (list Transaction))
  (tx_type : string) : outcome Broker :=
  for_each (fun b shardId => for_each (apply_allocated tx_type shardId) b (default [] (alloctedTx !! shardId)))
    b order.

(** ** [GenerateAllocatedTx] *)

(** The three tables of one broker: [brokerNewBalance], [brokerChange] and
    [brokerPeekChange]. *)
Record tables := mkTables { t_new : gmap Z Z; t_change : gmap Z Z; t_peek : gmap Z Z }.

Record gen_state := mkGen {
  g_new : gmap string (gmap Z Z);
  g_change : gmap string (gmap Z Z);
  g_peek : gmap string (gmap Z Z)
}.

Definition gen_init (bal : gmap string (gmap Z Z)) : gen_state :=
  mkGen bal (fmap (M := gmap string) (fun m : gmap Z Z => (fun _ => 0) <$> m) bal) bal.

Definition gen_request (g : gen_state) (meg : BrokerRawMeg) : outcome gen_state :=
  sSid ← fetchModifiedMap (Sender (tval (rm_Tx meg)));
  rSid ← fetchModifiedMap (Recipient (tval (rm_Tx meg)));
  let v := val (rm_Tx meg) in
  n1 ← upd2 (g_new g) (rm_Broker meg) sSid (fun x => x + v);
  n2 ← upd2 n1 (rm_Broker meg) rSid (fun x => x - v);
  p ← upd2 (g_peek g) (rm_Broker meg) rSid (fun x => x - v);
  Ret (mkGen n2 (g_change g) p).

(** Moving [v] from shard [id] to shard [sid] in the three tables. *)
Definition move (sid id v : Z) (t : tables) : outcome tables :=
  n1 ← upd1 (t_new t) id (fun x => x - v); n2 ← upd1 n1 sid (fun x => x + v);
  p1 ← upd1 (t_peek t) id (fun x => x - v); p2 ← upd1 p1 sid (fun x => x + v);
  c1 ← upd1 (t_change t) id (fun x => x - v); c2 ← upd1 c1 sid (fun x => x + v);
  Ret (mkTables n2 c2 p2).

(** One iteration of the innermost loop; a deficit of zero breaks out of it. *)
Definition cover_from (sid : Z) (s : tables * Z) (id : Z) : outcome (tables * Z) :=
  let '(t, deficit) := s in
  if deficit =? 0 then Ret s
  else
    balance ← deref (t_peek t !! id);
    if negb (id =? sid) && (0 <? balance) then
      let tmpValue := if balance <? deficit then balance else deficit in
      t' ← move sid id tmpValue t;
      Ret (t', if balance <? deficit then deficit - balance else 0)
    else Ret s.

(** One shard of one broker. *)
Definition cover_shard (inner : Z -> list Z) (t : tables) (sid : Z) : outcome tables :=
  peekBalance ← deref (t_peek t !! sid);
  if peekBalance <? 0 then
    s ← for_each (cover_from sid) (t, Z.abs peekBalance) (inner sid);
    Ret s.1
  else Ret t.

(** One broker. *)
Definition cover_broker (ch : alloc_choice) (g : gen_state) (b : string) : outcome gen_state :=
  new ← deref (g_new g !! b); change ← deref (g_change g !! b); peek ← deref (g_peek g !! b);
  t ← for_each (cover_shard (ac_inner ch b)) (mkTables new change peek) (ac_shards ch b);
  Ret (mkGen (<[b := t_new t]> (g_new g)) (<[b := t_change t]> (g_change g)) (<[b := t_peek t]> (g_peek g))).

(** The transaction for a changed balance. *)
Definition allocated_tx (tx_type b : string) (nonce diff : Z) : Transaction :=
  tx_set_allocated (diff <? 0) (negb (diff <? 0)) (NewTransaction b b (Z.abs diff) nonce 0 tx_type).

(** The state of the generation: [bcm.nowDataNum] and [alloctedTxs]. *)
Definition gen_tx (tx_type : string) (change : gmap string (gmap Z Z)) (b : string)
  (s : Z * gmap Z (list Transaction)) (shardId : Z) : outcome (Z * gmap Z (list Transaction)) :=
  m ← deref (change !! b);
  diff ← deref (m !! shardId);
  if diff =? 0 then Ret s
  else Ret (s.1 + 1,
            <[shardId := default [] (s.2 !! shardId) ++ [allocated_tx tx_type b (u64 s.1) diff]]> s.2).

Definition GenerateAllocatedTx (ch : alloc_choice) (now : Z) (bal : gmap string (gmap Z Z))
  (megs : list BrokerRawMeg) (tx_type : string) : outcome (Z * gmap Z (list Transaction)) :=
  g ← for_each gen_request (gen_init bal) megs;
  g' ← for_each (cover_broker ch) g (ac_brokers ch);
  for_each (fun s b => for_each (gen_tx tx_type (g_change g') b) s (ac_gen_shards ch b))
    (now, foldl (fun m sid => <[sid := []]> m) ∅ shards) (ac_gen_brokers ch).

(** ** The two halves of a brokered transfer *)

Definition make_tx1 (m : BrokerType1Meg) : Transaction :=
  let ctx := tval (rm_Tx (t1_RawMeg m)) in
  tx_set_origin (Sender ctx) (Recipient ctx) (TxHash ctx) true false
    (NewTransaction (Sender ctx) (t1_Broker m) (Value ctx) (Nonce ctx) (Fee ctx) (Txtype ctx)).

Definition make_tx2 (m : BrokerType2Meg) : Transaction :=
  let ctx := tval (rm_Tx (t2_RawMeg m)) in
  tx_set_origin (Sender ctx) (Recipient ctx) (TxHash ctx) false true
    (NewTransaction (t2_Broker m) (Recipient ctx) (Value ctx) (Nonce ctx) (Fee ctx) (Txtype ctx)).

Definition handleBrokerType1Mes (c : Committee) (megs : list BrokerType1Meg)
  : outcome (Committee * list InjectTxs) :=
  let pool := foldl (fun p m => <[TxHash (make_tx1 m) := mkConfirm1 (TxHash (make_tx1 m)) (t1_RawMeg m)]> p)
                (brokerConfirm1Pool c) megs in
  out ← txSending (map make_tx1 megs);
  Ret (mkCommittee (nowDataNum c) (cBroker c) pool (brokerConfirm2Pool c) (restBrokerRawMegPool c), out).

Definition handleBrokerType2Mes (c : Committee) (megs : list BrokerType2Meg)
  : outcome (Committee * list InjectTxs) :=
  let pool := foldl (fun p m => <[TxHash (make_tx2 m) := mkConfirm2 (TxHash (make_tx2 m)) (t2_RawMeg m)]> p)
                (brokerConfirm2Pool c) megs in
  out ← txSending (map make_tx2 megs);
  Ret (mkCommittee (nowDataNum c) (cBroker c) (brokerConfirm1Pool c) pool (restBrokerRawMegPool c), out).

Definition getBrokerRawMagDigest (m : BrokerRawMeg) : string := raw_digest (tval (rm_Tx m)) (rm_Broker m).

Definition set_raw (megs : gmap string BrokerRawMeg) (r2b : gmap string (list string)) (b : Broker) : Broker :=
  mkBroker megs (BrokerAddress b) (BrokerBalance b) (LockBalance b) (ProfitBalance b) r2b (Brokerage b).

Definition handleBrokerRawMag (c : Committee) (megs : list BrokerRawMeg)
  : outcome (Committee * list InjectTxs) :=
  let b := cBroker c in
  let raw := foldl (fun m meg => <[getBrokerRawMagDigest meg := meg]> m) (BrokerRawMegs b) megs in
  handleBrokerType1Mes (with_broker (set_raw raw (RawTx2BrokerTx b) b) c)
    (map (fun meg => mkType1 meg (rm_Broker meg)) megs).

Definition push_hash (r2b : gmap string (list string)) (k h : string) : gmap string (list string) :=
  <[k := default [] (r2b !! k) ++ [h]]> r2b.

Definition handleTx1ConfirmMag (c : Committee) (confirms : list Mag1Confirm)
  : outcome (Committee * list InjectTxs) :=
  let b := cBroker c in
  let ok m := bool_decide (is_Some (BrokerRawMegs b !! getBrokerRawMagDigest (m1_RawMeg m))) in
  let valid := filter (fun m => ok m = true) confirms in
  let r2b := foldl (fun r m => push_hash r (TxHash (tval (rm_Tx (m1_RawMeg m)))) (Tx1Hash m))
               (RawTx2BrokerTx b) valid in
  handleBrokerType2Mes (with_broker (set_raw (BrokerRawMegs b) r2b b) c)
    (map (fun m => mkType2 (m1_RawMeg m) (rm_Broker (m1_RawMeg m))) valid).

Definition handleTx2ConfirmMag (c : Committee) (confirms : list Mag2Confirm) : Committee :=
  let b := cBroker c in
  let r2b := foldl (fun r m => push_hash r (TxHash (tval (rm_Tx (m2_RawMeg m)))) (Tx2Hash m))
               (RawTx2BrokerTx b) confirms in
  with_broker (set_raw (BrokerRawMegs b) r2b b) c.

Definition createConfirm (c : Committee) (txs : list Transaction) : outcome (Committee * list InjectTxs) :=
  let confirm1s := omap (fun tx => brokerConfirm1Pool c !! TxHash tx) txs in
  let confirm2s := omap (fun tx => brokerConfirm2Pool c !! TxHash tx) txs in
  r ← match confirm1s with [] => Ret (c, []) | _ => handleTx1ConfirmMag c confirm1s end;
  Ret (match confirm2s with [] => r.1 | _ => handleTx2ConfirmMag r.1 confirm2s end, r.2).

(** ** [HandleBlockInfo] *)

(** The release of one executed first half: the lock in the recipient's shard
    becomes free balance in the sender's shard, and the broker earns its share of
    the fee. *)
Definition release (b : Broker) (tx : Transaction) : outcome Broker :=
  sSid ← fetchModifiedMap (OriginalSender tx);
  rSid ← fetchModifiedMap (FinalRecipient tx);
  if negb (IsBroker b (Recipient tx)) then Ret b
  else
    locked ← deref (bal3 (LockBalance b) (Txtype tx) (Recipient tx) rSid);
    if locked <? Value tx then Ret b
    else
      lock ← upd3 (LockBalance b) (Txtype tx) (Recipient tx) rSid (fun v => v - Value tx);
      bal ← upd3 (BrokerBalance b) (Txtype tx) (Recipient tx) sSid (fun v => v + Value tx);
      let fee := bf_Mul 64 (bf_SetInt64 (i64 (Fee tx))) (Brokerage b) in
      prof ← upd3 (ProfitBalance b) (Txtype tx) (Recipient tx) sSid (fun p => bf_Add (bf_prec p) p fee);
      Ret (with_balances bal lock prof b).

Definition HandleBlockInfo (c : Committee) (b : BlockInfoMsg) : outcome (Committee * list InjectTxs) :=
  if BlockBodyLength b =? 0 then Ret (c, [])
  else
    br ← for_each release (cBroker c) (Broker1Txs b);
    createConfirm (with_broker br c) (Broker1Txs b ++ Broker2Txs b).

(** ** [dealTxByBroker] *)

(** One transaction of the batch: the requests and the inner-shard transactions
    grow, or it is dropped. *)
Definition classify (b : Broker) (acc : list BrokerRawMeg * list TxPtr) (t : TxPtr)
  : outcome (list BrokerRawMeg * list TxPtr) :=
  r ← FormatStringToLength (Recipient (tval t)) 40;
  if decide (r = "error") then Ret acc else
  s ← FormatStringToLength (Sender (tval t)) 40;
  if decide (s = "error") then Ret acc else
  if decide (r = s) then Ret acc else
  rSid ← fetchModifiedMap r;
  sSid ← fetchModifiedMap s;
  let tx := tx_set_parties s r (tval t) in
  if negb (rSid =? sSid) then
    first ← idx (BrokerAddress b) 0;
    Ret (acc.1 ++ [mkRawMeg (mkTxPtr (ptr t) tx) first], acc.2)
  else
    let tx' := if IsBroker b r || IsBroker b s then tx_set_broker true (IsBroker b s) tx else tx in
    Ret (acc.1, acc.2 ++ [mkTxPtr (ptr t) tx']).

Definition dealTxByBroker (choices : list b2e_choice) (ch : alloc_choice) (c : Committee)
  (txs : list TxPtr) (tx_type : string) : outcome (Committee * list TxPtr * list InjectTxs) :=
  cls ← for_each (classify (cBroker c)) (default [] (restBrokerRawMegPool c !! tx_type), []) txs;
  let '(brokerRawMegs, itxs) := cls in
  let megs := if 1000 <? zlen brokerRawMegs then take 1000 brokerRawMegs else brokerRawMegs in
  let bal := default ∅ (BrokerBalance (cBroker c) !! tx_type) in
  split ← B2E choices megs bal;
  let '(allocated, rest) := split in
  let pool := <[tx_type := rest]> (restBrokerRawMegPool c) in
  gen ← GenerateAllocatedTx ch (nowDataNum c) bal allocated tx_type;
  let c1 := mkCommittee gen.1 (cBroker c) (brokerConfirm1Pool c) (brokerConfirm2Pool c) pool in
  match allocated with
  | [] => Ret (c1, itxs, [])
  | _ =>
      b1 ← handleAllocatedTx (ac_apply ch) (cBroker c1) gen.2 tx_type;
      b2 ← lockToken b1 allocated tx_type;
      r ← handleBrokerRawMag (with_broker b2 c1) allocated;
      Ret (r.1, itxs, r.2)
  end.

(** One round of [MsgSendingControl] for one token. *)
Definition control_round (choices : list b2e_choice) (ch : alloc_choice) (c : Committee)
  (txs : list TxPtr) (tx_type : string) : outcome (Committee * list InjectTxs) :=
  r ← dealTxByBroker choices ch c txs tx_type;
  let '(c', itxs, out) := r in
  more ← txSending (map tval itxs);
  Ret (c', out ++ more).
End Committee.
