(* ===== verification/CommitteeProofs.v ===== *)
(** * The broker committee: correctness

    Brokers' funds: the rebalancing of [GenerateAllocatedTx] covers every shard's
    deficit, so that locking never takes a free balance below zero, and every
    operation conserves what a broker holds. Routing: [txSending] sends every
    transaction once, to its shard, in order. The two halves of a brokered
    transfer: each request has one first and one second half. *)
From Stdlib Require Import ZArith Lia.
From stdpp Require Import base gmap strings list fin_maps.
From S2P Require Import Prelude Utils JournalTypes Core Message Floats Broker B2E B2EProofs Committee.

(** ** Tables of one broker *)

(** The balance a table has for a shard. *)
Definition at_ (m : gmap Z Z) (k : Z) : Z := default 0 (m !! k).

Lemma at_insert m k v k' : at_ (<[k := v]> m) k' = if decide (k' = k) then v else at_ m k'.
Proof.
  unfold at_. rewrite lookup_insert. destruct (decide (k = k')) as [<- | Hne].
  - by rewrite decide_True.
  - by rewrite decide_False.
Qed.

(** A table over the shards [D]. *)
Definition over (D : list Z) (m : gmap Z Z) : Prop := forall k, k ∈ D <-> is_Some (m !! k).

Lemma over_lookup D m k : over D m -> k ∈ D -> m !! k = Some (at_ m k).
Proof. intros Hm Hk. destruct (proj1 (Hm k) Hk) as [v E]. unfold at_. by rewrite E. Qed.

Lemma over_insert D m k v : over D m -> k ∈ D -> over D (<[k := v]> m).
Proof.
  intros Hm Hk k'. rewrite lookup_insert_is_Some'. split; [intros; right; by apply Hm |].
  intros [<- | Hs]; [done | by apply Hm].
Qed.

Lemma upd1_spec D m k f :
  over D m -> k ∈ D -> exists m', upd1 m k f = Ret m' /\ over D m' /\
    forall k', at_ m' k' = if decide (k' = k) then f (at_ m k) else at_ m k'.
Proof.
  intros Hm Hk. unfold upd1. rewrite (over_lookup D m k Hm Hk). cbn. eexists. split; [done |].
  split; [by apply over_insert |]. intros. apply at_insert.
Qed.

(** The sum of a table is the broker's total as [B2E] accumulates it. *)
Lemma over_sum D m : NoDup D -> over D m -> zsum_with snd (map_to_list m) = zsum_with (at_ m) D.
Proof.
  intros Hnd Hm.
  assert (D ≡ₚ (map_to_list m).*1) as ->.
  { apply NoDup_Permutation; [done | apply NoDup_fst_map_to_list |]. intros k. rewrite (Hm k).
    rewrite list_elem_of_fmap. split.
    - intros [v Hv]. exists (k, v). split; [done |]. by apply elem_of_map_to_list.
    - intros ([k' v] & -> & Hv%elem_of_map_to_list). cbn. eauto. }
  assert (forall l : list (Z * Z), (forall k v, (k, v) ∈ l -> at_ m k = v) ->
    zsum_with snd l = zsum_with (at_ m) l.*1) as Hl.
  { induction l as [| [k v] l IH]; intros Hin; [done |]. cbn. rewrite !zsum_with_cons. cbn.
    rewrite IH by (intros; apply Hin; by right). rewrite (Hin k v) by left. done. }
  apply Hl. intros k v Hv%elem_of_map_to_list. unfold at_. by rewrite Hv.
Qed.

(** The tables during the rebalancing from [peek0]: the projected balance is the
    initial one plus the change, and the total is unchanged. *)
Record cov (D : list Z) (peek0 : gmap Z Z) (t : tables) : Prop := {
  cov_new : over D (t_new t);
  cov_change : over D (t_change t);
  cov_peek : over D (t_peek t);
  cov_eq : forall k, at_ (t_peek t) k = at_ peek0 k + at_ (t_change t) k;
  cov_sum : zsum_with (at_ (t_peek t)) D = zsum_with (at_ peek0) D
}.

Lemma zsum_move (D : list Z) f g a b v :
  NoDup D -> a ∈ D -> b ∈ D -> a <> b ->
  (forall k, f k = g k + (if decide (k = a) then v else 0) - (if decide (k = b) then v else 0)) ->
  zsum_with f D = zsum_with g D.
Proof.
  intros Hnd Ha Hb Hne Hf.
  rewrite (zsum_with_point f (fun k => g k - (if decide (k = b) then v else 0)) D a Hnd Ha).
  - rewrite (zsum_with_point (fun k => g k - (if decide (k = b) then v else 0)) g D b Hnd Hb).
    + rewrite Hf. rewrite !decide_True by done. repeat (rewrite decide_False by congruence). lia.
    + intros x _ Hx. rewrite decide_False by done. lia.
  - intros x _ Hx. rewrite Hf, (decide_False (P := x = a)) by done. lia.
Qed.

Lemma move_spec D peek0 t sid id v :
  NoDup D -> cov D peek0 t -> sid ∈ D -> id ∈ D -> sid <> id ->
  exists t', move sid id v t = Ret t' /\ cov D peek0 t' /\
    forall k, at_ (t_peek t') k = at_ (t_peek t) k +
      (if decide (k = sid) then v else 0) - (if decide (k = id) then v else 0).
Proof.
  intros Hnd [Hn Hc Hp Heq Hsum] Hs Hi Hne. unfold move.
  destruct (upd1_spec D (t_new t) id (fun x => x - v) Hn Hi) as (n1 & -> & Hn1 & _). cbn.
  destruct (upd1_spec D n1 sid (fun x => x + v) Hn1 Hs) as (n2 & -> & Hn2 & _). cbn.
  destruct (upd1_spec D (t_peek t) id (fun x => x - v) Hp Hi) as (p1 & -> & Hp1 & Ap1). cbn.
  destruct (upd1_spec D p1 sid (fun x => x + v) Hp1 Hs) as (p2 & -> & Hp2 & Ap2). cbn.
  destruct (upd1_spec D (t_change t) id (fun x => x - v) Hc Hi) as (c1 & -> & Hc1 & Ac1). cbn.
  destruct (upd1_spec D c1 sid (fun x => x + v) Hc1 Hs) as (c2 & -> & Hc2 & Ac2). cbn.
  assert (forall k, at_ p2 k = at_ (t_peek t) k + (if decide (k = sid) then v else 0)
            - (if decide (k = id) then v else 0)) as Hp2'.
  { intros k. rewrite Ap2, !Ap1. repeat case_decide; subst; try congruence; lia. }
  eexists. split; [done |]. split; [| exact Hp2'].
  constructor; cbn; [done | done | done | |].
  - intros k. rewrite Hp2', Ac2, !Ac1, Heq. repeat case_decide; subst; try congruence; lia.
  - rewrite <- Hsum. by apply (zsum_move D _ _ sid id v).
Qed.

(** ** Covering the deficit of one shard *)

(** The innermost loop after the shards [seen]. *)
Record covering (D : list Z) (peek0 : gmap Z Z) (t0 : tables) (sid : Z) (seen : list Z)
  (s : tables * Z) : Prop := {
  cg_cov : cov D peek0 s.1;
  cg_deficit : s.2 = - at_ (t_peek s.1) sid /\ 0 <= s.2;
  cg_keep : forall k, k <> sid -> 0 <= at_ (t_peek t0) k -> 0 <= at_ (t_peek s.1) k;
  cg_seen : s.2 = 0 \/ forall k, k ∈ seen -> k <> sid -> at_ (t_peek s.1) k <= 0
}.

Lemma cover_from_step D peek0 t0 sid seen s id :
  NoDup D -> sid ∈ D -> id ∈ D -> covering D peek0 t0 sid seen s ->
  exists s', cover_from sid s id = Ret s' /\ covering D peek0 t0 sid (seen ++ [id]) s'.
Proof.
  intros Hnd Hs Hi Hcg. destruct s as [t deficit]. pose proof Hcg as [Hc [Hd Hd0] Hk Hseen].
  cbn [fst snd] in *. unfold cover_from. destruct (Z.eqb_spec deficit 0) as [E0 | E0].
  { exists (t, deficit). split; [done |]. constructor; cbn; [done | done | done | by left]. }
  rewrite (over_lookup D (t_peek t) id (cov_peek _ _ _ Hc) Hi). cbn.
  destruct Hseen as [? | Hseen]; [done |].
  destruct (Z.eqb_spec id sid) as [-> | Hne]; cbn.
  { exists (t, deficit). split; [done |]. constructor; cbn; [done | done | done |].
    right. intros k [Hk' | Hk'%list_elem_of_singleton]%elem_of_app Hne'; [auto | congruence]. }
  destruct (Z.ltb_spec 0 (at_ (t_peek t) id)) as [Hpos | Hnp].
  2: { exists (t, deficit). split; [done |]. constructor; cbn; [done | done | done |].
       right. intros k [Hk' | ->%list_elem_of_singleton]%elem_of_app Hne'; [auto | lia]. }
  set (tmp := if at_ (t_peek t) id <? deficit then at_ (t_peek t) id else deficit).
  destruct (move_spec D peek0 t sid id tmp Hnd Hc Hs Hi ltac:(congruence)) as (t' & -> & Hc' & Hp'). cbn.
  eexists. split; [done |].
  assert (tmp = at_ (t_peek t) id /\ at_ (t_peek t) id < deficit \/
          tmp = deficit /\ deficit <= at_ (t_peek t) id) as Htmp
    by (unfold tmp; destruct (Z.ltb_spec (at_ (t_peek t) id) deficit); [left | right]; lia).
  assert (at_ (t_peek t') sid = at_ (t_peek t) sid + tmp) as Hsid
    by (rewrite Hp', decide_True, decide_False by congruence; lia).
  constructor; cbn; [done | | |].
  - destruct (Z.ltb_spec (at_ (t_peek t) id) deficit); lia.
  - intros k Hks Hk0. rewrite Hp'. specialize (Hk k Hks Hk0).
    rewrite (decide_False (P := k = sid)) by done. case_decide; subst; lia.
  - destruct (Z.ltb_spec (at_ (t_peek t) id) deficit); [right | by left].
    intros k Hk' Hks. rewrite Hp', (decide_False (P := k = sid)) by done. case_decide; [subst; lia |].
    apply elem_of_app in Hk' as [Hk' | Hk'%list_elem_of_singleton]; [| congruence].
    specialize (Hseen k Hk' Hks). lia.
Qed.

Lemma zsum_neg (D : list Z) f a :
  NoDup D -> a ∈ D -> f a < 0 -> (forall k, k ∈ D -> k <> a -> f k <= 0) -> zsum_with f D < 0.
Proof.
  intros Hnd Ha Hfa Hf. set (g := fun k => if decide (k = a) then 0 else f k).
  rewrite (zsum_with_point f g D a Hnd Ha) by (intros x _ Hx; unfold g; by rewrite decide_False).
  unfold g at 2. rewrite decide_True by done.
  pose proof (zsum_with_nonneg (fun k => - g k) D) as Hz. rewrite zsum_with_opp in Hz.
  assert (0 <= - zsum_with g D); [| lia]. apply Hz. intros k Hk. unfold g.
  case_decide; [lia |]. specialize (Hf k Hk). lia.
Qed.

Lemma cover_loop D peek0 t0 sid ids seen s :
  NoDup D -> sid ∈ D -> (forall id, id ∈ ids -> id ∈ D) -> covering D peek0 t0 sid seen s ->
  exists s', for_each (cover_from sid) s ids = Ret s' /\ covering D peek0 t0 sid (seen ++ ids) s'.
Proof.
  intros Hnd Hs. revert seen s. induction ids as [| id ids IH]; intros seen s Hids Hcg; cbn [for_each].
  - exists s. by rewrite app_nil_r.
  - destruct (cover_from_step D peek0 t0 sid seen s id) as (s1 & -> & H1); [done | done | apply Hids; left | done |].
    cbn. destruct (IH _ _ ltac:(intros; apply Hids; by right) H1) as (s' & -> & H').
    exists s'. split; [done |]. by rewrite <- app_assoc in H'.
Qed.

(** When the broker's total is not negative, a shard's deficit is covered entirely,
    and no other shard is taken below zero. *)
Lemma cover_shard_spec D peek0 inner t sid :
  NoDup D -> sid ∈ D -> (forall id, id ∈ inner sid <-> id ∈ D) -> cov D peek0 t ->
  0 <= zsum_with (at_ peek0) D ->
  exists t', cover_shard inner t sid = Ret t' /\ cov D peek0 t' /\ 0 <= at_ (t_peek t') sid /\
    forall k, 0 <= at_ (t_peek t) k -> 0 <= at_ (t_peek t') k.
Proof.
  intros Hnd Hs Hin Hc Htot. unfold cover_shard.
  rewrite (over_lookup D (t_peek t) sid (cov_peek _ _ _ Hc) Hs). cbn.
  destruct (Z.ltb_spec (at_ (t_peek t) sid) 0) as [Hneg | Hpos]; [| eauto].
  destruct (cover_loop D peek0 t sid (inner sid) [] (t, Z.abs (at_ (t_peek t) sid)) Hnd Hs)
    as ([t' d] & -> & [Hc' [Hd Hd0] Hk Hseen]).
  { intros id. by apply Hin. }
  { constructor; cbn; [done | lia | done |]. right. intros k Hk. by apply not_elem_of_nil in Hk. }
  cbn in *. exists t'. split; [done |]. split; [done |].
  assert (0 <= at_ (t_peek t') sid) as Hsid.
  { destruct Hseen as [-> | Hseen]; [lia |]. destruct (Z.eq_dec d 0); [lia |].
    assert (zsum_with (at_ (t_peek t')) D < 0) as Hbad; [| rewrite (cov_sum _ _ _ Hc') in Hbad; lia].
    apply (zsum_neg D _ sid Hnd Hs); [lia |]. intros k HkD Hks. apply Hseen; [by apply Hin | done]. }
  split; [done |]. intros k Hk0. destruct (decide (k = sid)) as [-> |]; [done | by apply Hk].
Qed.

Lemma cover_shards D peek0 inner sids t :
  NoDup D -> (forall sid, sid ∈ sids -> sid ∈ D) -> (forall sid id, sid ∈ D -> id ∈ inner sid <-> id ∈ D) ->
  cov D peek0 t -> 0 <= zsum_with (at_ peek0) D ->
  exists t', for_each (cover_shard inner) t sids = Ret t' /\ cov D peek0 t' /\
    forall k, k ∈ sids \/ 0 <= at_ (t_peek t) k -> 0 <= at_ (t_peek t') k.
Proof.
  intros Hnd Hsids Hin Hc Htot. revert t Hc. induction sids as [| sid sids IH]; intros t Hc; cbn [for_each].
  - exists t. split; [done |]. split; [done |]. intros k [Hk | Hk]; [by apply not_elem_of_nil in Hk | done].
  - destruct (cover_shard_spec D peek0 inner t sid) as (t1 & -> & Hc1 & Hs1 & Hk1);
      [done | apply Hsids; left | intros; apply Hin; apply Hsids; left | done | done |]. cbn.
    destruct (IH ltac:(intros; apply Hsids; by right) t1 Hc1) as (t' & -> & Hc' & Hk').
    exists t'. split; [done |]. split; [done |]. intros k [[-> | Hk]%elem_of_cons | Hk]; apply Hk'; auto.
Qed.

(** ** All brokers *)

Lemma upd2_spec (m : gmap string (gmap Z Z)) b inner D k f :
  m !! b = Some inner -> over D inner -> k ∈ D ->
  exists inner', upd2 m b k f = Ret (<[b := inner']> m) /\ over D inner' /\
    forall k', at_ inner' k' = if decide (k' = k) then f (at_ inner k) else at_ inner k'.
Proof.
  intros Hb Ho Hk. unfold upd2. rewrite Hb. cbn.
  destruct (upd1_spec D inner k f Ho Hk) as (i' & -> & H1 & H2). cbn. eauto.
Qed.

(** What the requests take from the free balance of broker [b] in shard [k], for a
    routing [sh] of the recipients. *)
Definition taken (sh : BrokerRawMeg -> Z) (megs : list BrokerRawMeg) (b : string) (k : Z) : Z :=
  zsum_with (fun m => if decide (rm_Broker m = b /\ sh m = k) then val (rm_Tx m) else 0) megs.

Lemma taken_sum sh megs b D :
  NoDup D -> (forall m, m ∈ megs -> sh m ∈ D) -> zsum_with (taken sh megs b) D = spent b megs.
Proof.
  intros Hnd. unfold taken, spent. induction megs as [| m megs IH]; intros Hin.
  - rewrite zsum_with_nil. clear. induction D as [| x D IH]; [done |].
    rewrite zsum_with_cons, zsum_with_nil. rewrite IH. lia.
  - rewrite zsum_with_cons. rewrite (zsum_with_ext _ (fun k =>
      (if decide (rm_Broker m = b /\ sh m = k) then val (rm_Tx m) else 0) +
      zsum_with (fun m => if decide (rm_Broker m = b /\ sh m = k) then val (rm_Tx m) else 0) megs))
      by (intros; by rewrite zsum_with_cons).
    rewrite zsum_with_add, IH by (intros; apply Hin; by right). f_equal.
    rewrite (zsum_with_point _ (fun _ => 0) D (sh m) Hnd).
    + rewrite zsum_const. repeat case_decide; destruct_and?; subst; try lia; tauto.
    + apply Hin. left.
    + intros x _ Hx. rewrite decide_False; [done |]. intros [_ E]. congruence.
Qed.

Section Funds.
Context {cfg : Config} {dg : Digest} {md : MegDigest}.

(** The shard of an address, for addresses that route. *)
Definition shard_of (a : string) : Z := match Addr2Shard a with Ret s => s | Panic _ => -1 end.

Definition rshard (m : BrokerRawMeg) : Z := shard_of (Recipient (tval (rm_Tx m))).

(** An address that routes to one of the shards. *)
Definition addr_ok (a : string) : Prop := exists s, Addr2Shard a = Ret s /\ s ∈ shards.

Definition meg_ok (m : BrokerRawMeg) : Prop :=
  addr_ok (Sender (tval (rm_Tx m))) /\ addr_ok (Recipient (tval (rm_Tx m))) /\ 0 <= val (rm_Tx m).

(** Shard numbers fit the machine word. *)
Definition config_ok : Prop := 0 < ShardNum < 2 ^ 63 /\ 0 < InjectSpeed.

Lemma fetch_ok a : config_ok -> addr_ok a -> fetchModifiedMap a = Ret (shard_of a) /\ shard_of a ∈ shards.
Proof.
  intros [[H0 H63] _] (s & Hs & Hin). unfold fetchModifiedMap, shard_of. rewrite Hs. cbn.
  split; [| done]. f_equal. unfold shards in Hin. apply elem_of_seqZ in Hin. apply u64_small. unfold is_u64. lia.
Qed.

Lemma NoDup_shards : NoDup shards.
Proof. apply NoDup_seqZ. Qed.

(** The tables of broker [b] before the rebalancing: its free balances less what the
    requests take. *)
Definition gen_inv (bal : gmap string (gmap Z Z)) (megs : list BrokerRawMeg) (g : gen_state) : Prop :=
  forall b m, bal !! b = Some m -> exists n c p,
    g_new g !! b = Some n /\ g_change g !! b = Some c /\ g_peek g !! b = Some p /\
    over shards n /\ over shards c /\ over shards p /\
    forall k, at_ p k = at_ m k - taken rshard megs b k /\ at_ c k = 0.

Lemma gen_request_step bal megs g meg :
  config_ok -> gen_inv bal megs g -> meg_ok meg -> is_Some (bal !! rm_Broker meg) ->
  exists g', gen_request g meg = Ret g' /\ gen_inv bal (megs ++ [meg]) g'.
Proof.
  intros Hcfg Hg (Hs & Hr & _) [m0 Hm0]. unfold gen_request.
  destruct (fetch_ok _ Hcfg Hs) as [-> Hsin]. destruct (fetch_ok _ Hcfg Hr) as [-> Hrin]. cbn.
  destruct (Hg _ _ Hm0) as (n & c & p & Hn & Hc & Hp & On & Oc & Op & Hat).
  destruct (upd2_spec _ _ _ _ _ (fun x => x + val (rm_Tx meg)) Hn On Hsin) as (n1 & -> & On1 & _). cbn.
  destruct (upd2_spec (<[rm_Broker meg:=n1]> (g_new g)) (rm_Broker meg) n1 shards _
              (fun x => x - val (rm_Tx meg)) (lookup_insert_eq _ _ _) On1 Hrin) as (n2 & -> & On2 & _). cbn.
  destruct (upd2_spec _ _ _ _ _ (fun x => x - val (rm_Tx meg)) Hp Op Hrin) as (p1 & -> & Op1 & Ap1). cbn.
  eexists. split; [done |]. intros b m Hm. unfold taken. cbn [g_new g_change g_peek].
  destruct (decide (b = rm_Broker meg)) as [-> | Hne].
  - rewrite Hm0 in Hm. injection Hm as <-. exists n2, c, p1. rewrite !lookup_insert_eq.
    split_and!; try done. intros k. rewrite Ap1. destruct (Hat k) as [Hk Hc0]. split; [| done].
    rewrite zsum_with_app, zsum_one. fold (taken rshard megs (rm_Broker meg) k).
    unfold rshard at 2. destruct (Hat (shard_of (Recipient (tval (rm_Tx meg))))) as [Hk' _].
    repeat case_decide; destruct_and?; subst; try lia; try tauto.
  - destruct (Hg b m Hm) as (n' & c' & p' & Hn' & Hc' & Hp' & On' & Oc' & Op' & Hat').
    exists n', c', p'. rewrite !lookup_insert_ne by done. split_and!; try done. intros k.
    destruct (Hat' k) as [Hk Hc0]. split; [| done]. rewrite zsum_with_app, zsum_one.
    fold (taken rshard megs b k). rewrite (decide_False (P := _ /\ _)) by (intros [? _]; congruence). lia.
Qed.

Lemma gen_requests bal megs0 megs g :
  config_ok -> gen_inv bal megs0 g -> (forall m, m ∈ megs -> meg_ok m /\ is_Some (bal !! rm_Broker m)) ->
  exists g', for_each gen_request g megs = Ret g' /\ gen_inv bal (megs0 ++ megs) g'.
Proof.
  intros Hcfg. revert megs0 g. induction megs as [| m megs IH]; intros megs0 g Hg Hm; cbn [for_each].
  - exists g. by rewrite app_nil_r.
  - destruct (Hm m) as [Hok Hb]; [left |].
    destruct (gen_request_step bal megs0 g m Hcfg Hg Hok Hb) as (g1 & -> & Hg1). cbn.
    destruct (IH _ _ Hg1) as (g' & -> & Hg'); [intros; apply Hm; by right |].
    exists g'. split; [done |]. by rewrite <- app_assoc in Hg'.
Qed.

(** The orders of the map ranges enumerate the maps. *)
Record alloc_ok (bal : gmap string (gmap Z Z)) (ch : alloc_choice) : Prop := {
  ao_brokers : forall b, b ∈ ac_brokers ch <-> is_Some (bal !! b);
  ao_shards : forall b k, k ∈ ac_shards ch b <-> k ∈ shards;
  ao_inner : forall b k id, id ∈ ac_inner ch b k <-> id ∈ shards;
  ao_gen_brokers : NoDup (ac_gen_brokers ch) /\ forall b, b ∈ ac_gen_brokers ch <-> is_Some (bal !! b);
  ao_gen_shards : forall b, NoDup (ac_gen_shards ch b) /\ forall k, k ∈ ac_gen_shards ch b <-> k ∈ shards;
  ao_apply : ac_apply ch ≡ₚ shards
}.

(** During the rebalancing of the brokers [ready]. *)
Definition cover_inv (bal : gmap string (gmap Z Z)) (megs : list BrokerRawMeg) (ready : list string)
  (g : gen_state) : Prop :=
  forall b m, bal !! b = Some m -> exists t peek0,
    g_new g !! b = Some (t_new t) /\ g_change g !! b = Some (t_change t) /\ g_peek g !! b = Some (t_peek t) /\
    cov shards peek0 t /\ (forall k, at_ peek0 k = at_ m k - taken rshard megs b k) /\
    (b ∈ ready -> forall k, k ∈ shards -> 0 <= at_ (t_peek t) k).

Lemma gen_cover_inv bal megs g : gen_inv bal megs g -> cover_inv bal megs [] g.
Proof.
  intros Hg b m Hm. destruct (Hg b m Hm) as (n & c & p & Hn & Hc & Hp & On & Oc & Op & Hat).
  exists (mkTables n c p), p. cbn. split_and!; [done.. | | apply Hat | intros Hb; by apply not_elem_of_nil in Hb].
  constructor; cbn; [done.. | | done]. intros k. destruct (Hat k) as [_ ->]. lia.
Qed.

(** Every broker's requests are within its total. *)
Definition funded (bal : gmap string (gmap Z Z)) (megs : list BrokerRawMeg) : Prop :=
  forall b m, bal !! b = Some m -> over shards m /\ spent b megs <= zsum_with (at_ m) shards.

Lemma peek_total megs b m peek0 :
  (forall mg, mg ∈ megs -> rshard mg ∈ shards) ->
  (forall k, at_ peek0 k = at_ m k - taken rshard megs b k) ->
  zsum_with (at_ peek0) shards = zsum_with (at_ m) shards - spent b megs.
Proof.
  intros Hin Hp. rewrite (zsum_with_ext _ (fun k => at_ m k + - taken rshard megs b k)) by (intros; rewrite Hp; lia).
  rewrite zsum_with_add, zsum_with_opp, taken_sum by (done || apply NoDup_shards). lia.
Qed.

Lemma cover_broker_step bal megs ready ch g b m :
  alloc_ok bal ch -> funded bal megs -> (forall mg, mg ∈ megs -> rshard mg ∈ shards) ->
  cover_inv bal megs ready g -> bal !! b = Some m ->
  exists g', cover_broker ch g b = Ret g' /\ cover_inv bal megs (ready ++ [b]) g'.
Proof.
  intros Hch Hf Hin Hg Hm. unfold cover_broker.
  destruct (Hg b m Hm) as ([n c p] & peek0 & Hn & Hc & Hp & Hcov & Hp0 & _). cbn in Hn, Hc, Hp.
  rewrite Hn, Hc, Hp. cbn.
  destruct (Hf b m Hm) as [_ Htot].
  destruct (cover_shards shards peek0 (ac_inner ch b) (ac_shards ch b) (mkTables n c p) NoDup_shards)
    as (t' & -> & Hcov' & Hpos); [| | done | |].
  { intros sid. apply (ao_shards _ _ Hch). } { intros sid id _. apply (ao_inner _ _ Hch). }
  { rewrite (peek_total megs b m peek0 Hin Hp0). lia. }
  cbn. eexists. split; [done |]. intros b' m' Hm'. cbn. destruct (decide (b' = b)) as [-> | Hne].
  - rewrite Hm in Hm'. injection Hm' as <-. exists t', peek0. rewrite !lookup_insert_eq.
    split_and!; [done.. |]. intros _ k Hk. apply Hpos. left. by apply (ao_shards _ _ Hch).
  - destruct (Hg b' m' Hm') as (t & q & ? & ? & ? & ? & ? & Hr). exists t, q.
    rewrite !lookup_insert_ne by done. split_and!; [done.. |].
    intros [? | E%list_elem_of_singleton]%elem_of_app; [auto | done].
Qed.

Lemma cover_brokers bal megs ready ch g bs :
  alloc_ok bal ch -> funded bal megs -> (forall mg, mg ∈ megs -> rshard mg ∈ shards) ->
  cover_inv bal megs ready g -> (forall b, b ∈ bs -> is_Some (bal !! b)) ->
  exists g', for_each (cover_broker ch) g bs = Ret g' /\ cover_inv bal megs (ready ++ bs) g'.
Proof.
  intros Hch Hf Hin. revert ready g. induction bs as [| b bs IH]; intros ready g Hg Hbs; cbn [for_each].
  - exists g. by rewrite app_nil_r.
  - destruct (Hbs b) as [m Hm]; [left |].
    destruct (cover_broker_step bal megs ready ch g b m Hch Hf Hin Hg Hm) as (g1 & -> & Hg1). cbn.
    destruct (IH _ _ Hg1) as (g' & -> & Hg'); [intros; apply Hbs; by right |].
    exists g'. split; [done |]. by rewrite <- app_assoc in Hg'.
Qed.

(** ** The allocation transactions *)

(** What a list of allocation transactions of one shard adds to broker [b]. *)
Definition moved (l : list Transaction) (b : string) : Z :=
  zsum_with (fun tx => if decide (Sender tx = b) then (if IsAllocatedSender tx then - Value tx else Value tx) else 0) l.

(** The shape of an allocation transaction. *)
Definition allocation (bal : gmap string (gmap Z Z)) (tx : Transaction) : Prop :=
  Sender tx = Recipient tx /\ IsAllocatedRecipent tx = negb (IsAllocatedSender tx) /\ is_Some (bal !! Sender tx).

Lemma allocated_tx_moved ty b n diff b' :
  moved [allocated_tx ty b n diff] b' = if decide (b = b') then diff else 0.
Proof.
  unfold moved. rewrite zsum_one. cbn. case_decide; [| done]. destruct (Z.ltb_spec diff 0); lia.
Qed.

(** The generated transactions, after the (broker, shard) pairs [ps]. *)
Definition gen_txs_inv (bal : gmap string (gmap Z Z)) (change : gmap string (gmap Z Z))
  (ps : list (string * Z)) (s : Z * gmap Z (list Transaction)) : Prop :=
  forall k, Forall (allocation bal) (default [] (s.2 !! k)) /\
    forall b, moved (default [] (s.2 !! k)) b =
      if decide ((b, k) ∈ ps) then at_ (default ∅ (change !! b)) k else 0.

Lemma gen_tx_step bal change ty ps s b k m :
  gen_txs_inv bal change ps s -> (b, k) ∉ ps -> is_Some (bal !! b) -> change !! b = Some m -> is_Some (m !! k) ->
  exists s', gen_tx ty change b s k = Ret s' /\ gen_txs_inv bal change (ps ++ [(b, k)]) s'.
Proof.
  intros Hs Hnew Hb Hm [diff Hd]. unfold gen_tx. rewrite Hm. cbn. rewrite Hd. cbn.
  assert (at_ m k = diff) as Hat by (unfold at_; by rewrite Hd).
  destruct (Z.eqb_spec diff 0) as [E0 | E0]; (eexists; split; [done |]).
  - intros k'. destruct (Hs k') as [HF Hmv]. split; [done |]. intros b'. rewrite Hmv.
    destruct (decide ((b', k') ∈ ps)) as [Hin | Hni].
    + by rewrite decide_True by (apply elem_of_app; by left).
    + case_decide as Hin; [| done]. apply elem_of_app in Hin as [? | Hin%list_elem_of_singleton]; [done |].
      injection Hin as -> ->. rewrite Hm. cbn. lia.
  - intros k'. cbn [snd]. rewrite lookup_insert. destruct (decide (k = k')) as [<- | Hne]; cbn.
    + destruct (Hs k) as [HF Hmv]. split.
      * apply Forall_app. split; [done |]. constructor; [| done]. split; [done |]. split; [done | done].
      * intros b'. unfold moved. rewrite zsum_with_app. fold (moved (default [] (s.2 !! k)) b').
        fold (moved [allocated_tx ty b (u64 s.1) diff] b'). rewrite Hmv, allocated_tx_moved.
        destruct (decide (b = b')) as [<- | Hne].
        -- rewrite (decide_False (P := (b, k) ∈ ps)), decide_True by (try done; apply elem_of_app; right; left).
           rewrite Hm. cbn. lia.
        -- destruct (decide ((b', k) ∈ ps)) as [Hin | Hni].
           ++ rewrite decide_True by (apply elem_of_app; by left). lia.
           ++ rewrite decide_False; [lia |]. rewrite elem_of_app, list_elem_of_singleton. intros [? | E]; congruence.
    + destruct (Hs k') as [HF Hmv]. split; [done |]. intros b'. rewrite Hmv.
      destruct (decide ((b', k') ∈ ps)) as [Hin | Hni].
      * by rewrite decide_True by (apply elem_of_app; by left).
      * rewrite decide_False; [done |]. rewrite elem_of_app, list_elem_of_singleton. intros [? | E]; congruence.
Qed.

Lemma gen_tx_shards bal change ty ps s b ks m :
  gen_txs_inv bal change ps s -> NoDup ks -> (forall k, k ∈ ks -> (b, k) ∉ ps) -> is_Some (bal !! b) ->
  change !! b = Some m -> (forall k, k ∈ ks -> is_Some (m !! k)) ->
  exists s', for_each (gen_tx ty change b) s ks = Ret s' /\ gen_txs_inv bal change (ps ++ map (pair b) ks) s'.
Proof.
  intros Hs Hnd Hnew Hb Hm. revert ps s Hs Hnew. induction ks as [| k ks IH]; intros ps s Hs Hnew Hks; cbn [for_each].
  - exists s. cbn. by rewrite app_nil_r.
  - apply NoDup_cons in Hnd as [Hni Hnd].
    destruct (gen_tx_step bal change ty ps s b k m Hs) as (s1 & -> & H1); [apply Hnew; left | done | done | apply Hks; left |].
    cbn [mbind outcome_bind]. destruct (IH Hnd (ps ++ [(b, k)]) s1 H1) as (s' & -> & H').
    + intros k' Hk'. rewrite elem_of_app, list_elem_of_singleton. intros [Hbad | [= ->]]; [| done].
      revert Hbad. apply Hnew. by right.
    + intros k' Hk'. apply Hks. by right.
    + exists s'. split; [done |]. cbn. by rewrite <- app_assoc in H'.
Qed.

Lemma gen_tx_brokers bal change ty gs ps s bs :
  gen_txs_inv bal change ps s -> NoDup bs -> (forall b, NoDup (gs b)) ->
  (forall b k, b ∈ bs -> k ∈ gs b -> (b, k) ∉ ps) ->
  (forall b, b ∈ bs -> is_Some (bal !! b) /\ exists m, change !! b = Some m /\ forall k, k ∈ gs b -> is_Some (m !! k)) ->
  exists s', for_each (fun s b => for_each (gen_tx ty change b) s (gs b)) s bs = Ret s' /\
    gen_txs_inv bal change (ps ++ concat (map (fun b => map (pair b) (gs b)) bs)) s'.
Proof.
  intros Hs Hnd Hgs. revert ps s Hs. induction bs as [| b bs IH]; intros ps s Hs Hnew Hbs; cbn [for_each].
  - exists s. cbn. by rewrite app_nil_r.
  - apply NoDup_cons in Hnd as [Hni Hnd]. destruct (Hbs b) as (Hb & m & Hm & Hks); [left |].
    destruct (gen_tx_shards bal change ty ps s b (gs b) m Hs (Hgs b)) as (s1 & -> & H1);
      [intros k Hk; apply Hnew; [left | done] | done | done | done |].
    cbn [mbind outcome_bind]. destruct (IH Hnd _ s1 H1) as (s' & -> & H').
    + intros b' k Hb' Hk. rewrite elem_of_app, list_elem_of_fmap. intros [Hbad | (k' & [= -> ->] & _)]; [| done].
      revert Hbad. apply Hnew; [by right | done].
    + intros b' Hb'. apply Hbs. by right.
    + exists s'. split; [done |]. cbn. by rewrite <- app_assoc in H'.
Qed.

(** The outcome of [GenerateAllocatedTx]: allocation transactions that move nothing
    overall, and after which every shard of every broker can pay what the requests
    take from it. *)
Lemma GenerateAllocatedTx_spec ch now bal megs ty :
  config_ok -> alloc_ok bal ch -> funded bal megs ->
  (forall m, m ∈ megs -> meg_ok m /\ is_Some (bal !! rm_Broker m)) ->
  exists n atx, GenerateAllocatedTx ch now bal megs ty = Ret (n, atx) /\
    (forall k, Forall (allocation bal) (default [] (atx !! k))) /\
    forall b m, bal !! b = Some m ->
      zsum_with (fun k => moved (default [] (atx !! k)) b) shards = 0 /\
      forall k, k ∈ shards -> 0 <= at_ m k + moved (default [] (atx !! k)) b - taken rshard megs b k.
Proof.
  intros Hcfg Hch Hf Hmegs. unfold GenerateAllocatedTx.
  assert (forall mg, mg ∈ megs -> rshard mg ∈ shards) as Hin.
  { intros mg Hmg. destruct (Hmegs mg Hmg) as [(_ & Hr & _) _]. by apply (fetch_ok _ Hcfg Hr). }
  destruct (gen_requests bal [] megs (gen_init bal) Hcfg) as (g & -> & Hg); [| done |].
  { intros b m Hm. destruct (Hf b m Hm) as [Ho _].
    exists m, ((fun _ => 0) <$> m), m. unfold gen_init; cbn. rewrite lookup_fmap, Hm. cbn.
    split_and!; try done.
    - intros k. rewrite lookup_fmap, fmap_is_Some. apply Ho.
    - intros k. unfold taken, at_. rewrite zsum_with_nil, lookup_fmap. split; [lia |]. by destruct (m !! k). }
  cbn [mbind outcome_bind].
  destruct (cover_brokers bal megs [] ch g (ac_brokers ch) Hch Hf Hin (gen_cover_inv _ _ _ Hg)) as (g' & -> & Hg').
  { intros b. apply (ao_brokers _ _ Hch). }
  cbn [mbind outcome_bind app] in *. destruct (ao_gen_brokers _ _ Hch) as [Hnb Hgb].
  destruct (gen_tx_brokers bal (g_change g') ty (ac_gen_shards ch) []
              (now, foldl (fun m sid => <[sid := []]> m) ∅ shards) (ac_gen_brokers ch))
    as ([n atx] & Hrun & Htx).
  { intros k. cbn [snd].
    assert (default [] (foldl (fun (m : gmap Z (list Transaction)) sid => <[sid := []]> m) ∅ shards !! k) = []) as ->.
    { destruct (_ !! k) eqn:E; [| done]. by apply foldl_insert_const_inv in E as [-> | ?]. }
    split; [done |]. intros b. rewrite decide_False by apply not_elem_of_nil. done. }
  { done. } { intros b. apply (ao_gen_shards _ _ Hch). } { intros b k _ _. apply not_elem_of_nil. }
  { intros b Hb%Hgb. split; [done |]. destruct Hb as [m Hm].
    destruct (Hg' b m Hm) as (t & peek0 & _ & Hc & _ & Hcov & _). exists (t_change t). split; [done |].
    intros k Hk. apply (cov_change _ _ _ Hcov). by apply (proj2 (ao_gen_shards _ _ Hch b)). }
  exists n, atx. split; [exact Hrun |]. split; [intros k; apply Htx |].
  intros b m Hm. destruct (Hg' b m Hm) as (t & peek0 & _ & Hc & _ & Hcov & Hp0 & Hpos).
  assert (forall k, k ∈ shards -> moved (default [] (atx !! k)) b = at_ (t_change t) k) as Hmv.
  { intros k Hk. destruct (Htx k) as [_ Hmv]. cbn [snd] in Hmv. rewrite Hmv, Hc, decide_True; [done |].
    apply list_elem_of_In, in_concat. exists (map (pair b) (ac_gen_shards ch b)).
    rewrite <- !list_elem_of_In. split.
    - apply list_elem_of_fmap. exists b. split; [done |]. apply Hgb. eauto.
    - apply list_elem_of_fmap. exists k. split; [done |]. by apply (proj2 (ao_gen_shards _ _ Hch b)). }
  split.
  - rewrite (zsum_with_ext _ (at_ (t_change t))) by done.
    pose proof (cov_sum _ _ _ Hcov) as Hsum.
    rewrite (zsum_with_ext _ (fun k => at_ peek0 k + at_ (t_change t) k)) in Hsum
      by (intros; apply (cov_eq _ _ _ Hcov)).
    rewrite zsum_with_add in Hsum. lia.
  - intros k Hk. rewrite Hmv by done. specialize (Hpos ltac:(apply (ao_brokers _ _ Hch); eauto) k Hk).
    rewrite (cov_eq _ _ _ Hcov), Hp0 in Hpos. lia.
Qed.

(** ** Steps that change the funds of brokers *)

(** Two balance maps with entries for the same brokers. *)
Definition same_brokers (m m' : Balances) : Prop :=
  forall ty a, is_Some (default ∅ (m' !! ty) !! a) <-> is_Some (default ∅ (m !! ty) !! a).

(** [b'] is [b] with every free balance changed by [df] and every lock by [dl]. *)
Record fund_step (df dl : string -> string -> Z -> Z) (b b' : Broker) : Prop := {
  fs_addr : BrokerAddress b' = BrokerAddress b;
  fs_free : forall ty a k, bal3 (BrokerBalance b') ty a k = (fun v => v + df ty a k) <$> bal3 (BrokerBalance b) ty a k;
  fs_lock : forall ty a k, bal3 (LockBalance b') ty a k = (fun v => v + dl ty a k) <$> bal3 (LockBalance b) ty a k;
  fs_prof : forall ty a k, is_Some (bal3 (ProfitBalance b') ty a k) <-> is_Some (bal3 (ProfitBalance b) ty a k);
  fs_dom : same_brokers (BrokerBalance b) (BrokerBalance b')
}.

Definition nil3 : string -> string -> Z -> Z := fun _ _ _ => 0.
Definition one3 (ty a : string) (k v : Z) : string -> string -> Z -> Z :=
  fun ty' a' k' => if decide (ty' = ty /\ a' = a /\ k' = k) then v else 0.
Definition add3 (f g : string -> string -> Z -> Z) : string -> string -> Z -> Z :=
  fun ty a k => f ty a k + g ty a k.

Lemma fmap_plus (f g h : Z) (o : option Z) :
  h = f + g -> (fun v => v + g) <$> ((fun v => v + f) <$> o) = (fun v => v + h) <$> o.
Proof. intros ->. destruct o; cbn; [f_equal; lia | done]. Qed.

Lemma fmap_zero (o : option Z) : (fun v => v + 0) <$> o = o.
Proof. destruct o; cbn; [f_equal; lia | done]. Qed.

Lemma fund_refl b : fund_step nil3 nil3 b b.
Proof. constructor; [done | | | done | done]; intros; unfold nil3; by rewrite fmap_zero. Qed.

Lemma fund_trans f1 l1 f2 l2 b b1 b2 :
  fund_step f1 l1 b b1 -> fund_step f2 l2 b1 b2 -> fund_step (add3 f1 f2) (add3 l1 l2) b b2.
Proof.
  intros [A1 F1 L1 P1 D1] [A2 F2 L2 P2 D2]. constructor; [congruence | | | |].
  - intros. rewrite F2, F1. by apply fmap_plus.
  - intros. rewrite L2, L1. by apply fmap_plus.
  - intros. rewrite P2. apply P1.
  - intros ty a. rewrite (D2 ty a). apply D1.
Qed.

Lemma fund_ext f l f' l' b b' :
  (forall ty a k, f ty a k = f' ty a k) -> (forall ty a k, l ty a k = l' ty a k) ->
  fund_step f l b b' -> fund_step f' l' b b'.
Proof.
  intros Hf Hl [A F L P D]. constructor; [done | | | done | done]; intros; [rewrite F, Hf | rewrite L, Hl]; done.
Qed.

Lemma upd3_dom (m m' : Balances) ty a k f : upd3 m ty a k f = Ret m' -> same_brokers m m'.
Proof.
  unfold upd3. destruct (bal3 m ty a k); [| done]. intros [= <-] ty' a'.
  rewrite lookup_alter. destruct (decide (ty = ty')) as [<- |]; [| done].
  destruct (m !! ty) as [x |]; cbn; [| done].
  rewrite lookup_alter. destruct (decide (a = a')) as [<- |]; [| done]. apply fmap_is_Some.
Qed.

Lemma upd3_step (m : Balances) ty a k v f :
  is_Some (bal3 m ty a k) -> (forall x, f x = x + v) ->
  exists m', upd3 m ty a k f = Ret m' /\ same_brokers m m' /\
    forall ty' a' k', bal3 m' ty' a' k' = (fun x => x + one3 ty a k v ty' a' k') <$> bal3 m ty' a' k'.
Proof.
  intros [x Hx] Hf. destruct (upd3_spec m ty a k f x Hx) as (m' & Hm & Hb). exists m'. split; [done |].
  split; [by eapply upd3_dom |].
  intros ty' a' k'. rewrite Hb. unfold one3. case_decide as E.
  - destruct E as (-> & -> & ->). rewrite Hx. cbn. by rewrite Hf.
  - by rewrite fmap_zero.
Qed.

Lemma apply_allocated_spec bal ty k b tx :
  allocation bal tx -> is_Some (bal3 (BrokerBalance b) ty (Sender tx) k) ->
  exists b', apply_allocated ty k b tx = Ret b' /\
    fund_step (one3 ty (Sender tx) k (moved [tx] (Sender tx))) nil3 b b'.
Proof.
  intros (Hsr & Hflag & _) Hb. unfold apply_allocated, moved. rewrite zsum_one, decide_True by done.
  destruct (IsAllocatedSender tx); rewrite Hflag; cbn [negb].
  - destruct (upd3_step (BrokerBalance b) ty (Sender tx) k (- Value tx) (fun v => v - Value tx) Hb) as (m & -> & Hd & Hm); [lia |].
    cbn. eexists. split; [done |]. constructor; [done | exact Hm | | done | done]. intros; unfold nil3; by rewrite fmap_zero.
  - cbn. rewrite <- Hsr.
    destruct (upd3_step (BrokerBalance b) ty (Sender tx) k (Value tx) (fun v => v + Value tx) Hb) as (m & -> & Hd & Hm); [lia |].
    cbn. eexists. split; [done |]. constructor; [done | exact Hm | | done | done]. intros; unfold nil3; by rewrite fmap_zero.
Qed.

(** Every broker of [bal] has all shards in the token [ty]. *)
Definition complete (ty : string) (b : Broker) (a : string) : Prop :=
  forall k, k ∈ shards -> is_Some (bal3 (BrokerBalance b) ty a k) /\ is_Some (bal3 (LockBalance b) ty a k) /\
    is_Some (bal3 (ProfitBalance b) ty a k).

Lemma complete_step df dl ty b b' a : fund_step df dl b b' -> complete ty b a -> complete ty b' a.
Proof.
  intros [_ F L P _] Hc k Hk. rewrite F, L, P, !fmap_is_Some. by apply Hc.
Qed.

Lemma apply_list_spec bal ty k b l :
  k ∈ shards -> Forall (allocation bal) l -> (forall a, is_Some (bal !! a) -> complete ty b a) ->
  exists b', for_each (apply_allocated ty k) b l = Ret b' /\
    fund_step (fun ty' a' k' => if decide (ty' = ty /\ k' = k) then moved l a' else 0) nil3 b b'.
Proof.
  intros Hk Hl. revert b. induction Hl as [| tx l Htx Hl IH]; intros b Hb; cbn [for_each].
  - exists b. split; [done |]. eapply fund_ext; [| | apply fund_refl]; [| done].
    intros. unfold nil3, moved. rewrite zsum_with_nil. by case_decide.
  - pose proof Htx as (_ & _ & Hdom).
    destruct (apply_allocated_spec bal ty k b tx Htx) as (b1 & -> & H1); [by apply (Hb _ Hdom) |]. cbn.
    destruct (IH b1) as (b' & -> & H'); [intros; eapply complete_step; eauto |].
    exists b'. split; [done |]. eapply fund_ext; [| | eapply fund_trans; eassumption]; [| done].
    intros ty' a' k'. unfold add3, one3, moved. rewrite !zsum_with_cons, zsum_with_nil.
    repeat case_decide; destruct_and?; subst; try lia; try tauto.
Qed.

Lemma handleAllocatedTx_spec bal ty atx ks b :
  NoDup ks -> (forall k, k ∈ ks -> k ∈ shards) -> (forall k, Forall (allocation bal) (default [] (atx !! k))) ->
  (forall a, is_Some (bal !! a) -> complete ty b a) ->
  exists b', handleAllocatedTx ks b atx ty = Ret b' /\
    fund_step (fun ty' a' k' => if decide (ty' = ty /\ k' ∈ ks) then moved (default [] (atx !! k')) a' else 0) nil3 b b'.
Proof.
  intros Hnd Hks Hl. unfold handleAllocatedTx. revert b. induction ks as [| k ks IH]; intros b Hb; cbn [for_each].
  - exists b. split; [done |]. eapply fund_ext; [| | apply fund_refl]; [| done].
    intros. unfold nil3. rewrite decide_False; [done |]. intros [_ Hk]. by apply not_elem_of_nil in Hk.
  - apply NoDup_cons in Hnd as [Hni Hnd].
    destruct (apply_list_spec bal ty k b (default [] (atx !! k))) as (b1 & -> & H1); [apply Hks; left | done | done |]. cbn.
    destruct (IH Hnd ltac:(intros; apply Hks; by right) b1) as (b' & -> & H'); [intros; eapply complete_step; eauto |].
    exists b'. split; [done |]. eapply fund_ext; [| | eapply fund_trans; eassumption]; [| done].
    intros ty' a' k'. unfold add3.
    repeat case_decide; destruct_and?; subst; rewrite ?elem_of_cons in *; try lia; try tauto.
Qed.

(** Locking moves the value of every request from the free balance of its
    recipient's shard to the lock of that shard. *)
Lemma lockToken_spec ty b megs :
  config_ok -> (forall m, m ∈ megs -> meg_ok m /\ IsBroker b (rm_Broker m) = true /\ complete ty b (rm_Broker m)) ->
  exists b', lockToken b megs ty = Ret b' /\
    fund_step (fun ty' a k => if decide (ty' = ty) then - taken rshard megs a k else 0)
              (fun ty' a k => if decide (ty' = ty) then taken rshard megs a k else 0) b b'.
Proof.
  intros Hcfg. unfold lockToken. revert b. induction megs as [| m megs IH]; intros b Hm; cbn [for_each].
  - exists b. split; [done |]. eapply fund_ext; [| | apply fund_refl]; intros; unfold nil3, taken;
      rewrite zsum_with_nil; by case_decide.
  - destruct (Hm m) as ((_ & Hr & _) & Hbr & Hc); [left |]. destruct (fetch_ok _ Hcfg Hr) as [Hf Hin].
    fold (rshard m) in Hf, Hin. assert (exists b1, lock_one ty b m = Ret b1 /\
      fund_step (one3 ty (rm_Broker m) (rshard m) (- val (rm_Tx m))) (one3 ty (rm_Broker m) (rshard m) (val (rm_Tx m))) b b1)
      as (b1 & -> & H1).
    { unfold lock_one. rewrite Hf. cbn. rewrite Hbr. cbn. destruct (Hc _ Hin) as (Hcf & Hcl & _).
      destruct (upd3_step (LockBalance b) ty (rm_Broker m) (rshard m) (val (rm_Tx m)) (fun v => v + val (rm_Tx m)) Hcl)
        as (lk & -> & _ & Hlk); [lia |]. cbn.
      destruct (upd3_step (BrokerBalance b) ty (rm_Broker m) (rshard m) (- val (rm_Tx m)) (fun v => v - val (rm_Tx m)) Hcf)
        as (fr & -> & Hfd & Hfr); [lia |]. cbn.
      eexists. split; [done |]. by constructor. }
    cbn. destruct (IH b1) as (b' & -> & H').
    { intros m' Hm'. destruct (Hm m') as (Ho & Hb' & Hc'); [by right |]. split_and!; [done | | by eapply complete_step].
      unfold IsBroker. by rewrite (fs_addr _ _ _ _ H1). }
    exists b'. split; [done |].
    eapply fund_ext; [| | eapply fund_trans; eassumption]; intros ty' a k; unfold add3, one3, taken;
      rewrite zsum_with_cons; repeat case_decide; destruct_and?; subst; try lia; tauto.
Qed.

(** ** Settling an allocation *)

(** The committee's invariant for the brokers of a token: every broker with a balance
    is registered and has all its entries, and no balance or lock is negative. *)
Record funds_ok (ty : string) (b : Broker) : Prop := {
  fo_registered : forall a m, default ∅ (BrokerBalance b !! ty) !! a = Some m -> IsBroker b a = true;
  fo_complete : forall a m, default ∅ (BrokerBalance b !! ty) !! a = Some m -> over shards m /\ complete ty b a;
  fo_free : forall a k v, bal3 (BrokerBalance b) ty a k = Some v -> 0 <= v;
  fo_locked : forall a k v, bal3 (LockBalance b) ty a k = Some v -> 0 <= v
}.

Lemma bal3_default (m : Balances) ty a k inner :
  default ∅ (m !! ty) !! a = Some inner -> bal3 m ty a k = inner !! k.
Proof. unfold bal3. destruct (m !! ty) as [x |]; cbn; [by intros -> | done]. Qed.

(** What a broker holds in a token over the shards, free and locked. *)
Definition holdings (b : Broker) (ty a : string) : Z :=
  zsum_with (fun k => default 0 (bal3 (BrokerBalance b) ty a k) + default 0 (bal3 (LockBalance b) ty a k)) shards.

Lemma bal3_some (m : Balances) ty a k v :
  bal3 m ty a k = Some v -> exists inner, default ∅ (m !! ty) !! a = Some inner /\ inner !! k = Some v.
Proof.
  unfold bal3. destruct (m !! ty) as [x |]; cbn; [| done]. destruct (x !! a) as [i |]; cbn; [eauto | done].
Qed.

Lemma fund_holdings df dl b b' ty a :
  fund_step df dl b b' -> complete ty b a ->
  holdings b' ty a = holdings b ty a + zsum_with (fun k => df ty a k + dl ty a k) shards.
Proof.
  intros [_ F L _ _] Hc. unfold holdings. rewrite <- zsum_with_add. apply zsum_with_ext. intros k Hk.
  rewrite F, L. destruct (Hc k Hk) as ([f Hf] & [l Hl] & _). rewrite Hf, Hl. cbn. lia.
Qed.

(** The settlement of an allocation: the allocation transactions, then the locks. *)
Definition settle (ch : alloc_choice) (now : Z) (b : Broker) (megs : list BrokerRawMeg) (ty : string) : outcome Broker :=
  gen ← GenerateAllocatedTx ch now (default ∅ (BrokerBalance b !! ty)) megs ty;
  b1 ← handleAllocatedTx (ac_apply ch) b gen.2 ty;
  lockToken b1 megs ty.

Lemma settle_spec ch now b megs ty :
  config_ok -> funds_ok ty b -> alloc_ok (default ∅ (BrokerBalance b !! ty)) ch ->
  (forall m, m ∈ megs -> meg_ok m /\ is_Some (default ∅ (BrokerBalance b !! ty) !! rm_Broker m)) ->
  (forall a m, default ∅ (BrokerBalance b !! ty) !! a = Some m -> a ∈ map rm_Broker megs ->
     spent a megs <= zsum_with (at_ m) shards) ->
  exists b' df dl, settle ch now b megs ty = Ret b' /\ fund_step df dl b b' /\
    (forall ty' a k, ty' <> ty -> df ty' a k = 0 /\ dl ty' a k = 0) /\
    (forall a k, 0 <= dl ty a k) /\
    (forall a k v, bal3 (BrokerBalance b) ty a k = Some v -> 0 <= v + df ty a k) /\
    (forall a m, default ∅ (BrokerBalance b !! ty) !! a = Some m ->
       zsum_with (fun k => df ty a k + dl ty a k) shards = 0).
Proof.
  intros Hcfg Hok Hch Hmegs Hspent. set (bal := default ∅ (BrokerBalance b !! ty)) in *. unfold settle. fold bal.
  assert (forall a k, 0 <= taken rshard megs a k) as Htk.
  { intros a k. apply zsum_with_nonneg. intros m Hm. case_decide; [| lia]. by apply Hmegs. }
  assert (funded bal megs) as Hfund.
  { intros a m Hm. split; [by apply (fo_complete _ _ Hok a m) |].
    destruct (decide (a ∈ map rm_Broker megs)) as [Hin | Hni]; [by apply Hspent |].
    assert (spent a megs = 0) as ->.
    { revert Hni. clear. unfold spent. induction megs as [| m megs IH]; [done |]. cbn [map]. rewrite zsum_with_cons.
      intros [Hne Hn]%not_elem_of_cons. rewrite IH, decide_False by congruence. done. }
    apply zsum_with_nonneg. intros k Hk. destruct (fo_complete _ _ Hok a m Hm) as [Ho _].
    apply (fo_free _ _ Hok a k). rewrite (bal3_default _ _ _ _ m Hm). by apply (over_lookup shards). }
  destruct (GenerateAllocatedTx_spec ch now bal megs ty Hcfg Hch Hfund Hmegs) as (n & atx & -> & Hall & Hgen).
  cbn [mbind outcome_bind snd].
  assert (forall a, is_Some (bal !! a) -> complete ty b a) as Hcomp by (intros a [m Hm]; by eapply (fo_complete _ _ Hok)).
  destruct (handleAllocatedTx_spec bal ty atx (ac_apply ch) b) as (b1 & -> & H1); [| | done | done |].
  { rewrite (ao_apply _ _ Hch). apply NoDup_shards. } { intros k. by rewrite (ao_apply _ _ Hch). }
  cbn [mbind outcome_bind]. destruct (lockToken_spec ty b1 megs Hcfg) as (b2 & -> & H2).
  { intros m Hm. destruct (Hmegs m Hm) as [Ho [inner Hb]]. split_and!; [done | | eapply complete_step; eauto].
    unfold IsBroker. rewrite (fs_addr _ _ _ _ H1). by apply (fo_registered _ _ Hok _ inner). }
  assert (forall k, k ∈ ac_apply ch <-> k ∈ shards) as Hap by (intros; by rewrite (ao_apply _ _ Hch)).
  eexists b2, _, _. split; [done |]. split; [eapply fund_trans; eassumption |]. unfold add3, nil3.
  split_and!.
  - intros ty' a k Hne. rewrite !decide_False by (try done; intros [? _]; done). done.
  - intros a k. rewrite decide_True by done. specialize (Htk a k). lia.
  - intros a k v Hv. destruct (bal3_some _ _ _ _ _ Hv) as (inner & Hin & Hk).
    destruct (fo_complete _ _ Hok a inner Hin) as [Ho _]. assert (k ∈ shards) as Hks by (apply Ho; eauto).
    destruct (Hgen a inner Hin) as [_ Hpos]. specialize (Hpos k Hks).
    rewrite !decide_True by (first [done | split; [done | by apply Hap]]).
    assert (at_ inner k = v) by (unfold at_; by rewrite Hk). lia.
  - intros a m Hm. destruct (Hgen a m Hm) as [Hz _]. rewrite <- Hz. apply zsum_with_ext. intros k Hk.
    rewrite !decide_True by (first [done | split; [done | by apply Hap]]). lia.
Qed.
End Funds.

(** ** [txSending] *)

(** What a list of messages brings to a shard, in order. *)
Definition sent_to (sid : Z) (out : list InjectTxs) : list Transaction :=
  concat (map Txs (filter (fun m => ToShardID m = sid) out)).

Lemma sent_to_app sid o1 o2 : sent_to sid (o1 ++ o2) = sent_to sid o1 ++ sent_to sid o2.
Proof. unfold sent_to. by rewrite filter_app, map_app, concat_app. Qed.

Section Sending.
Context {cfg : Config} {dg : Digest} {md : MegDigest}.

Lemma sent_to_msgs (f : Z -> list Transaction) l sid :
  NoDup l -> sent_to sid (map (fun k => mkInjectTxs (f k) k) l) = if decide (sid ∈ l) then f sid else [].
Proof.
  unfold sent_to. induction l as [| k l IH]; intros Hnd; cbn [map].
  - rewrite decide_False by apply not_elem_of_nil. done.
  - apply NoDup_cons in Hnd as [Hni Hnd]. rewrite filter_cons. cbn [ToShardID].
    destruct (decide (k = sid)) as [-> | Hne]; cbn [map concat Txs].
    + rewrite IH, decide_False, decide_True, app_nil_r by (done || left). done.
    + rewrite IH by done. destruct (decide (sid ∈ l)) as [Hin | Hni'].
      * rewrite decide_True by (by right). done.
      * rewrite decide_False; [done |]. intros [-> | ?]%elem_of_cons; done.
Qed.

Lemma sent_to_flush acc sid : sid ∈ shards -> sent_to sid (flush acc) = default [] (acc !! sid).
Proof.
  intros Hs. unfold flush. rewrite (sent_to_msgs (fun k => default [] (acc !! k))) by apply NoDup_shards.
  by rewrite decide_True.
Qed.

(** A transaction with a route, and the shard it goes to. *)
Definition routable (tx : Transaction) : Prop := exists s, route tx = Ret s /\ s ∈ shards.

Definition goes_to (sid : Z) (tx : Transaction) : Prop := route tx = Ret sid.
#[local] Instance goes_to_dec sid tx : Decision (goes_to sid tx).
Proof.
  unfold goes_to. destruct (route tx) as [s | w]; [| by right].
  destruct (decide (s = sid)) as [-> | Hne]; [by left | right; congruence].
Defined.

Lemma send_loop_spec idx len acc txs :
  config_ok -> 0 <= idx -> idx + zlen txs = len -> (idx = 0 -> acc = ∅) -> Forall routable txs ->
  exists out, send_loop idx len acc txs = Ret out /\ Forall (fun m => ToShardID m ∈ shards) out /\
    forall sid, sid ∈ shards -> sent_to sid out = default [] (acc !! sid) ++ filter (goes_to sid) txs.
Proof.
  intros Hcfg. pose proof Hcfg as [_ HI].
  assert (forall acc, Forall (fun m => ToShardID m ∈ shards) (flush acc)) as Hfl.
  { intros a. apply Forall_forall. unfold flush. intros m (k & -> & Hk)%list_elem_of_fmap. done. }
  revert idx acc. induction txs as [| tx txs IH]; intros idx acc Hi Hlen Hacc Hr; cbn [send_loop]; unfold flush_due.
  - unfold zlen in Hlen. cbn in Hlen. destruct (Z.ltb_spec 0 idx); cbn [negb].
    + destruct (Z.eqb_spec InjectSpeed 0); [lia |]. destruct (Z.eqb_spec idx len); [| lia].
      rewrite orb_true_r. cbn [mbind outcome_bind]. eexists. split; [done |]. split; [done |].
      intros sid Hs. rewrite sent_to_flush by done. by rewrite filter_nil, app_nil_r.
    + cbn [mbind outcome_bind]. eexists. split; [done |]. split; [done |]. intros sid Hs.
      rewrite Hacc by lia. by rewrite lookup_empty.
  - apply Forall_cons in Hr as [(s & Hs & Hsin) Hr].
    assert (exists due, (if negb (0 <? idx) then Ret false else if InjectSpeed =? 0 then Panic "integer divide by zero"
      else Ret ((Z.rem idx InjectSpeed =? 0) || (idx =? len))) = Ret due) as [due ->].
    { destruct (0 <? idx); cbn; [| eauto]. destruct (Z.eqb_spec InjectSpeed 0); [lia | eauto]. }
    cbn [mbind outcome_bind]. rewrite Hs. cbn [mbind outcome_bind].
    set (acc' := if due then ∅ else acc).
    destruct (IH (idx + 1) (<[s := default [] (acc' !! s) ++ [tx]]> acc')) as (out & -> & Hin & Hout);
      [lia | unfold zlen in *; cbn in *; lia | lia | done |].
    cbn [mbind outcome_bind]. eexists. split; [done |].
    split; [apply Forall_app; split; [destruct due; [apply Hfl | done] | done] |].
    intros sid Hsid. rewrite sent_to_app, Hout by done. rewrite filter_cons.
    assert (sent_to sid (if due then flush acc else []) ++ default [] (acc' !! sid) = default [] (acc !! sid)) as Hd.
    { unfold acc'. destruct due; [| done]. rewrite sent_to_flush, lookup_empty by done. apply app_nil_r. }
    rewrite <- Hd, <- !app_assoc. f_equal. rewrite lookup_insert. destruct (decide (s = sid)) as [-> | Hne]; cbn.
    + rewrite decide_True by done. by rewrite <- app_assoc.
    + rewrite decide_False; [done |]. unfold goes_to. congruence.
Qed.

Lemma txSending_spec txs :
  config_ok -> Forall routable txs ->
  exists out, txSending txs = Ret out /\ Forall (fun m => ToShardID m ∈ shards) out /\
    forall sid, sid ∈ shards -> sent_to sid out = filter (goes_to sid) txs.
Proof.
  intros Hcfg Hr. destruct (send_loop_spec 0 (zlen txs) ∅ txs Hcfg) as (out & Ho & Hin & Hs); [lia | lia | done | done |].
  exists out. split; [done |]. split; [done |]. intros sid Hsid. rewrite Hs by done. by rewrite lookup_empty.
Qed.

End Sending.

(** ** [dealTxByBroker] *)

Section Dealing.
Context {cfg : Config} {dg : Digest} {md : MegDigest}.

Lemma formatted_ok s n :
  config_ok -> FormatStringToLength s 40 = Ret n -> n <> "error" -> addr_ok n.
Proof.
  intros [[HS _] _] Hf Hn. destruct (all_hex s) eqn:Hs.
  - destruct (FormatStringToLength_hex s 40) as (s' & Hf' & Hh & Hl); [lia | done |].
    rewrite Hf in Hf'. injection Hf' as <-. destruct (Addr2Shard_hex n HS Hh) as (sid & Hsid & Hr); [lia |].
    exists sid. split; [done |]. unfold shards. apply elem_of_seqZ. lia.
  - unfold FormatStringToLength in Hf. fold (all_hex s) in Hf. rewrite Hs in Hf. by injection Hf as <-.
Qed.

Lemma format_returns s : returns (FormatStringToLength s 40).
Proof.
  unfold FormatStringToLength. destruct (forallb isValidHexChar (bytes_of s)); [| by eexists].
  destruct (Z.ltb_spec 40 (strlen s)); [| by eexists]. rewrite str_from_drop by lia. by eexists.
Qed.

(** The batch so far: requests with routes, from the pool or from the batch. *)
Record batch_inv (old : list BrokerRawMeg) (seen : list TxPtr) (acc : list BrokerRawMeg * list TxPtr) : Prop := {
  ba_ok : forall m, m ∈ acc.1 -> meg_ok m;
  ba_ptrs : alloc_ptrs acc.1 `sublist_of` alloc_ptrs old ++ map ptr seen;
  ba_itxs : forall t, t ∈ acc.2 -> routable (tval t)
}.

Lemma classify_step b old seen acc t :
  config_ok -> BrokerAddress b <> [] -> 0 <= Value (tval t) -> Isbrokertx2 (tval t) = false ->
  batch_inv old seen acc ->
  exists acc', classify b acc t = Ret acc' /\ batch_inv old (seen ++ [t]) acc'.
Proof.
  intros Hcfg Hb Hv H2 [Hok Hptr Hit].
  assert (batch_inv old (seen ++ [t]) acc) as Hskip.
  { constructor; [done | | done]. rewrite map_app, app_assoc. by apply sublist_inserts_r. }
  unfold classify. destruct (format_returns (Recipient (tval t))) as [r Hr]. rewrite Hr. cbn.
  case_decide as Er; [by eexists |].
  destruct (format_returns (Sender (tval t))) as [s Hs]. rewrite Hs. cbn.
  case_decide as Es; [by eexists |]. case_decide as Ers; [by eexists |].
  pose proof (formatted_ok _ _ Hcfg Hr Er) as Hrok. pose proof (formatted_ok _ _ Hcfg Hs Es) as Hsok.
  destruct (fetch_ok _ Hcfg Hrok) as [Fr Ir]. destruct (fetch_ok _ Hcfg Hsok) as [Fs Is]. rewrite Fr, Fs. cbn.
  destruct (Z.eqb_spec (shard_of r) (shard_of s)) as [E | E]; cbn.
  - eexists. split; [done |]. constructor; cbn [fst snd].
    + done.
    + rewrite map_app, app_assoc. by apply sublist_inserts_r.
    + intros t' [Ht' | ->%list_elem_of_singleton]%elem_of_app; [by apply Hit |]. cbn.
      exists (shard_of s). split; [| done]. unfold route.
      destruct (IsBroker b r || IsBroker b s); cbn; rewrite Fs; cbn; by rewrite H2.
  - destruct (BrokerAddress b) as [| a0 l0]; [done |]. unfold idx. cbn. eexists. split; [done |].
    constructor; cbn [fst snd]; [| | done].
    + intros m [Hm | ->%list_elem_of_singleton]%elem_of_app; [by apply Hok |]. by split_and!.
    + unfold alloc_ptrs. rewrite !map_app, app_assoc. cbn. by apply sublist_app.
Qed.

Lemma classify_loop b old seen acc txs :
  config_ok -> BrokerAddress b <> [] ->
  (forall t, t ∈ txs -> 0 <= Value (tval t) /\ Isbrokertx2 (tval t) = false) ->
  batch_inv old seen acc ->
  exists acc', for_each (classify b) acc txs = Ret acc' /\ batch_inv old (seen ++ txs) acc'.
Proof.
  intros Hcfg Hb. revert seen acc. induction txs as [| t txs IH]; intros seen acc Ht Hacc; cbn [for_each].
  - exists acc. by rewrite app_nil_r.
  - destruct (Ht t) as [Hv H2]; [left |].
    destruct (classify_step b old seen acc t Hcfg Hb Hv H2 Hacc) as (a1 & -> & H1). cbn.
    destruct (IH _ _ ltac:(intros; apply Ht; by right) H1) as (a' & -> & H'). exists a'.
    split; [done |]. by rewrite <- app_assoc in H'.
Qed.

(** ** Sending the first halves *)

Lemma handleBrokerRawMag_spec c megs :
  config_ok -> (forall m, m ∈ megs -> meg_ok m) ->
  exists c' out, handleBrokerRawMag c megs = Ret (c', out) /\
    BrokerBalance (cBroker c') = BrokerBalance (cBroker c) /\ LockBalance (cBroker c') = LockBalance (cBroker c) /\
    ProfitBalance (cBroker c') = ProfitBalance (cBroker c) /\ BrokerAddress (cBroker c') = BrokerAddress (cBroker c) /\
    restBrokerRawMegPool c' = restBrokerRawMegPool c /\ nowDataNum c' = nowDataNum c /\
    txSending (map (fun m => make_tx1 (mkType1 m (rm_Broker m))) megs) = Ret out.
Proof.
  intros Hcfg Hm. unfold handleBrokerRawMag, handleBrokerType1Mes. rewrite map_map.
  destruct (txSending_spec (map (fun m => make_tx1 (mkType1 m (rm_Broker m))) megs) Hcfg) as (out & E & _).
  { apply Forall_forall. intros tx (m & -> & Hin)%list_elem_of_fmap. destruct (Hm m Hin) as (Hs & _ & _).
    destruct (fetch_ok _ Hcfg Hs) as [Fs Is]. exists (shard_of (Sender (tval (rm_Tx m)))). split; [| done].
    unfold route. cbn. by rewrite Fs. }
  rewrite E. cbn. eexists _, _. split; [done |]. done.
Qed.

(** The invariant of the committee for one token: funds in order, the pooled requests
    routable. *)
Record committee_ok (ty : string) (c : Committee) : Prop := {
  ck_funds : funds_ok ty (cBroker c);
  ck_brokers : BrokerAddress (cBroker c) <> [];
  ck_pool : forall m, m ∈ default [] (restBrokerRawMegPool c !! ty) -> meg_ok m
}.

Lemma funds_ok_step ty df dl b b' :
  fund_step df dl b b' -> funds_ok ty b ->
  (forall a k v, bal3 (BrokerBalance b) ty a k = Some v -> 0 <= v + df ty a k) ->
  (forall a k v, bal3 (LockBalance b) ty a k = Some v -> 0 <= v + dl ty a k) ->
  funds_ok ty b'.
Proof.
  intros Hst [Hreg Hcomp Hfree Hlock] Hf Hl. pose proof Hst as [A F L P D].
  assert (forall a m, default ∅ (BrokerBalance b' !! ty) !! a = Some m -> is_Some (default ∅ (BrokerBalance b !! ty) !! a))
    as Hdom by (intros a m Hm; apply D; eauto).
  constructor.
  - intros a m Hm. destruct (Hdom a m Hm) as [m0 Hm0]. unfold IsBroker. rewrite A. by eapply Hreg.
  - intros a m Hm. destruct (Hdom a m Hm) as [m0 Hm0]. destruct (Hcomp a m0 Hm0) as [Ho Hc].
    split; [| by eapply complete_step]. intros k. specialize (F ty a k).
    rewrite (bal3_default _ _ _ _ m Hm), (bal3_default _ _ _ _ m0 Hm0) in F. rewrite F, fmap_is_Some. apply Ho.
  - intros a k v Hv. rewrite F in Hv. apply fmap_Some in Hv as (v0 & Hv0 & ->). by apply Hf.
  - intros a k v Hv. rewrite L in Hv. apply fmap_Some in Hv as (v0 & Hv0 & ->). by apply Hl.
Qed.

Lemma meg_ok_routed m : config_ok -> meg_ok m -> routed m.
Proof.
  intros Hcfg ((s & Hs & _) & (r & Hr & _) & _). split; [by exists s | by exists r].
Qed.

Lemma accumulate_total (bal : gmap string (gmap Z Z)) a m :
  bal !! a = Some m -> over shards m -> accumulate bal !! a = Some (zsum_with (at_ m) shards).
Proof.
  intros Hm Ho. unfold accumulate. rewrite lookup_fmap, Hm. cbn. f_equal.
  apply over_sum; [apply NoDup_shards | done].
Qed.

(** The requests [B2E] is run on: at most a thousand, in order. *)
Definition capped (megs : list BrokerRawMeg) : list BrokerRawMeg :=
  if 1000 <? zlen megs then take 1000 megs else megs.

Lemma capped_sublist megs : capped megs `sublist_of` megs.
Proof. unfold capped. destruct (1000 <? zlen megs); [apply sublist_take | done]. Qed.

(** What the settlement leaves when it is applied to an allocation of [B2E]. *)
Lemma settle_allocation ch now b ty (megs res : list BrokerRawMeg) :
  config_ok -> funds_ok ty b -> alloc_ok (default ∅ (BrokerBalance b !! ty)) ch ->
  (forall m, m ∈ megs -> meg_ok m) ->
  (forall m, m ∈ res -> exists m0, m0 ∈ megs /\ cross_shard m0 /\ rm_Tx m = rm_Tx m0 /\
     is_Some (default ∅ (BrokerBalance b !! ty) !! rm_Broker m)) ->
  (forall a C, accumulate (default ∅ (BrokerBalance b !! ty)) !! a = Some C -> a ∈ map rm_Broker res -> spent a res <= C) ->
  (forall m, m ∈ res -> meg_ok m) /\
  exists b', settle ch now b res ty = Ret b' /\ funds_ok ty b' /\ BrokerAddress b' = BrokerAddress b /\
    forall a m, default ∅ (BrokerBalance b !! ty) !! a = Some m -> holdings b' ty a = holdings b ty a.
Proof.
  intros Hcfg Hf Hch Hmegs Hres Hw.
  assert (forall m, m ∈ res -> meg_ok m) as Hok.
  { intros m Hm. destruct (Hres m Hm) as (m0 & Hm0 & _ & E & _). unfold meg_ok. rewrite E. by apply Hmegs. }
  split; [done |].
  destruct (settle_spec ch now b res ty Hcfg Hf Hch) as (b' & df & dl & Hs & Hst & _ & Hdl & Hdf & Hz).
  { intros m Hm. split; [by apply Hok |]. destruct (Hres m Hm) as (_ & _ & _ & _ & Hb). done. }
  { intros a m Hm Ha. apply (Hw a); [| done]. apply accumulate_total; [done |].
    by apply (fo_complete _ _ Hf a m). }
  exists b'. split; [done |]. split_and!.
  - eapply funds_ok_step; [exact Hst | done | exact Hdf |]. intros a k v Hv.
    pose proof (fo_locked _ _ Hf a k v Hv). specialize (Hdl a k). lia.
  - apply (fs_addr _ _ _ _ Hst).
  - intros a m Hm. rewrite (fund_holdings _ _ _ _ _ _ Hst) by (by eapply (fo_complete _ _ Hf)).
    rewrite (Hz a m Hm). lia.
Qed.

(** C13: dealing with a batch keeps the brokers solvent. Whatever the order of the map
    ranges and the outcome of the sort, [dealTxByBroker] returns (unless a random
    draw of the rounding is missed, when it panics): every broker's free and
    locked balances are still non-negative in every shard, because the allocation
    transactions move free balance to the shards where the locks need it; what a
    broker holds in total is unchanged; and the requests left for the next round
    and the inner-shard transactions are well formed, so that the next round can
    be dealt with likewise. *)
Theorem dealTxByBroker_solvent choices ch c txs ty :
  config_ok -> committee_ok ty c ->
  alloc_ok (default ∅ (BrokerBalance (cBroker c) !! ty)) ch ->
  (forall cc, cc ∈ choices -> choice_ok (accumulate (default ∅ (BrokerBalance (cBroker c) !! ty))) cc) ->
  (forall t, t ∈ txs -> 0 <= Value (tval t) /\ Isbrokertx2 (tval t) = false) ->
  NoDup (alloc_ptrs (default [] (restBrokerRawMegPool c !! ty)) ++ map ptr txs) ->
  (exists c' itxs out, dealTxByBroker choices ch c txs ty = Ret (c', itxs, out) /\ committee_ok ty c' /\
     (forall a m, default ∅ (BrokerBalance (cBroker c) !! ty) !! a = Some m ->
        holdings (cBroker c') ty a = holdings (cBroker c) ty a) /\
     (forall t, t ∈ itxs -> routable (tval t))) \/
  (exists megs, b2e_misses choices megs (default ∅ (BrokerBalance (cBroker c) !! ty)) /\
     dealTxByBroker choices ch c txs ty = Panic "index out of range").
Proof.
  intros Hcfg [Hf Hb Hpool] Hch Hcc Htx Hnd. unfold dealTxByBroker.
  set (old := default [] (restBrokerRawMegPool c !! ty)) in *.
  set (bal := default ∅ (BrokerBalance (cBroker c) !! ty)) in *.
  destruct (classify_loop (cBroker c) old [] (old, []) txs Hcfg Hb Htx) as ([megs0 itxs] & -> & [Hok Hptr Hit]).
  { constructor; cbn; [done | by rewrite app_nil_r | intros t Ht; by apply not_elem_of_nil in Ht]. }
  cbn [mbind outcome_bind fst snd app] in *. fold (capped megs0).
  assert (forall m, m ∈ capped megs0 -> meg_ok m) as Hok'.
  { intros m Hm. apply Hok. eapply elem_of_sublist; [exact Hm | apply capped_sublist]. }
  assert (NoDup (alloc_ptrs (capped megs0))) as Hnd'.
  { eapply sublist_NoDup; [eapply sublist_NoDup; [exact Hnd | exact Hptr] |].
    apply (fmap_sublist (fun m => ptr (rm_Tx m))), capped_sublist. }
  destruct (B2E_spec choices (capped megs0) bal Hnd') as [(res & rest & E & _ & _ & Hres & Hrest & Hw) | [Hm ->]];
    [intros; by apply meg_ok_routed, Hok' | done | | right; by exists (capped megs0)].
  left. rewrite E. cbn [mbind outcome_bind].
  destruct (settle_allocation ch (nowDataNum c) (cBroker c) ty (capped megs0) res Hcfg Hf Hch Hok' Hres Hw)
    as (Hresok & b' & Hs & Hf' & Ha' & Hh). fold bal in Hs, Hh. unfold settle in Hs. fold bal in Hs.
  apply bind_Ret_inv in Hs as (gen & -> & Hs). apply bind_Ret_inv in Hs as (b1 & Hs1 & Hs2).
  cbn [mbind outcome_bind].
  assert (forall m, m ∈ default [] (<[ty:=rest]> (restBrokerRawMegPool c) !! ty) -> meg_ok m) as Hpool'.
  { intros m. rewrite lookup_insert_eq. cbn. auto. }
  destruct res as [| m0 res].
  { eexists _, _, _. split; [done |]. split_and!; [| done | done]. by constructor. }
  cbn [cBroker]. rewrite Hs1. cbn [mbind outcome_bind]. rewrite Hs2. cbn [mbind outcome_bind].
  set (c2 := with_broker b' _).
  destruct (handleBrokerRawMag_spec c2 (m0 :: res) Hcfg Hresok) as (c' & out & -> & Ebal & Elock & Eprof & Eaddr & Epool & _).
  cbn [mbind outcome_bind fst snd]. cbn in Ebal, Elock, Eprof, Eaddr, Epool.
  eexists c', itxs, out. split; [done |]. split_and!; [| | done].
  - constructor; [| by rewrite Eaddr, Ha' | by rewrite Epool].
    eapply (funds_ok_step ty nil3 nil3 b'); [| done | |].
    + constructor; rewrite ?Ebal, ?Elock, ?Eprof, ?Eaddr; [done | | | done | done]; intros; unfold nil3; by rewrite fmap_zero.
    + intros a k v Hv. pose proof (fo_free _ _ Hf' a k v Hv). unfold nil3. lia.
    + intros a k v Hv. pose proof (fo_locked _ _ Hf' a k v Hv). unfold nil3. lia.
  - intros a m Hm. rewrite <- (Hh a m Hm). unfold holdings. by rewrite Ebal, Elock.
Qed.
End Dealing.

(** ** Blocks and confirmations *)

Section Confirming.
Context {cfg : Config} {dg : Digest} {md : MegDigest}.

(** An executed first half: its parties route, and a registered broker that received
    it has its entries in the token. *)
Definition half_ok (b : Broker) (tx : Transaction) : Prop :=
  addr_ok (OriginalSender tx) /\ addr_ok (FinalRecipient tx) /\ 0 <= Value tx /\
  (IsBroker b (Recipient tx) = true -> complete (Txtype tx) b (Recipient tx)).

Lemma upd3_prof (m : Profits) ty a k f :
  is_Some (bal3 m ty a k) -> exists m', upd3 m ty a k f = Ret m' /\
    forall ty' a' k', is_Some (bal3 m' ty' a' k') <-> is_Some (bal3 m ty' a' k').
Proof.
  intros [x Hx]. destruct (upd3_spec m ty a k f x Hx) as (m' & Hm & Hb). exists m'. split; [done |].
  intros ty' a' k'. rewrite Hb. case_decide as E; [| done]. destruct E as (-> & -> & ->). rewrite Hx. by split; eexists.
Qed.

(** The change a release makes: either none, or the value moves from the lock in the
    recipient's shard to the free balance in the sender's shard. *)
Lemma release_spec b tx :
  config_ok -> half_ok b tx -> exists b' df dl, release b tx = Ret b' /\ fund_step df dl b b' /\
    (forall ty a k, 0 <= df ty a k) /\
    (forall ty a k v, bal3 (LockBalance b) ty a k = Some v -> 0 <= v -> 0 <= v + dl ty a k) /\
    (forall ty a, zsum_with (fun k => df ty a k + dl ty a k) shards = 0).
Proof.
  intros Hcfg (Hs & Hr & Hv & Hc). unfold release.
  destruct (fetch_ok _ Hcfg Hs) as [-> Is]. destruct (fetch_ok _ Hcfg Hr) as [-> Ir]. cbn.
  assert (exists b' df dl, Ret b = Ret b' /\ fund_step df dl b b' /\ (forall ty a k, 0 <= df ty a k) /\
    (forall ty a k v, bal3 (LockBalance b) ty a k = Some v -> 0 <= v -> 0 <= v + dl ty a k) /\
    (forall ty a, zsum_with (fun k => df ty a k + dl ty a k) shards = 0)) as Hnone.
  { exists b, nil3, nil3. unfold nil3. split_and!; [done | apply fund_refl | lia | lia |].
    intros. rewrite zsum_const. lia. }
  destruct (IsBroker b (Recipient tx)) eqn:Eb; [cbn | done]. specialize (Hc eq_refl).
  destruct (Hc _ Ir) as (_ & [l Hl] & _). destruct (Hc _ Is) as (Hfs & _ & Hps). rewrite Hl. cbn.
  destruct (Z.ltb_spec l (Value tx)); [done |].
  destruct (upd3_step (LockBalance b) (Txtype tx) (Recipient tx) (shard_of (FinalRecipient tx)) (- Value tx)
              (fun v => v - Value tx)) as (lk & -> & _ & Hlk); [eauto | lia |]. cbn.
  destruct (upd3_step (BrokerBalance b) (Txtype tx) (Recipient tx) (shard_of (OriginalSender tx)) (Value tx)
              (fun v => v + Value tx) Hfs) as (fr & -> & Hfd & Hfr); [lia |]. cbn.
  destruct (upd3_prof (ProfitBalance b) (Txtype tx) (Recipient tx) (shard_of (OriginalSender tx))
              (fun p => bf_Add (bf_prec p) p (bf_Mul 64 (bf_SetInt64 (i64 (Fee tx))) (Brokerage b))) Hps) as (pr & -> & Hpr). cbn.
  eexists _, _, _. split; [done |]. split; [by constructor |]. unfold one3. split_and!.
  - intros. case_decide; lia.
  - intros ty a k v Hlv Hv0. case_decide as E; [| lia]. destruct E as (-> & -> & ->).
    rewrite Hl in Hlv. injection Hlv as <-. lia.
  - intros ty a. rewrite zsum_with_add.
    assert (forall x w, x ∈ shards -> zsum_with (fun k => if decide (ty = Txtype tx /\ a = Recipient tx /\ k = x) then w else 0) shards =
              if decide (ty = Txtype tx /\ a = Recipient tx) then w else 0) as Hpt.
    { intros x w Hx. rewrite (zsum_with_point _ (fun _ => 0) shards x NoDup_shards Hx).
      - rewrite zsum_const. repeat case_decide; destruct_and?; subst; try lia; tauto.
      - intros y _ Hy. rewrite decide_False; [done |]. intros (_ & _ & ?). done. }
    rewrite !Hpt by done. case_decide; lia.
Qed.

Lemma half_ok_step df dl b b' tx : fund_step df dl b b' -> half_ok b tx -> half_ok b' tx.
Proof.
  intros Hst (Hs & Hr & Hv & Hc). split_and!; [done.. |]. unfold IsBroker. rewrite (fs_addr _ _ _ _ Hst).
  intros Hb. eapply complete_step; [done |]. by apply Hc.
Qed.

Lemma releases_spec b txs :
  config_ok -> Forall (half_ok b) txs -> (forall ty, funds_ok ty b) ->
  exists b', for_each release b txs = Ret b' /\ (forall ty, funds_ok ty b') /\
    BrokerAddress b' = BrokerAddress b /\
    (forall ty a, complete ty b a -> complete ty b' a /\ holdings b' ty a = holdings b ty a).
Proof.
  intros Hcfg Htx. revert b Htx. induction txs as [| tx txs IH]; intros b Htx Hf; cbn [for_each].
  - exists b. split_and!; done.
  - apply Forall_cons in Htx as [Ht Htx].
    destruct (release_spec b tx Hcfg Ht) as (b1 & df & dl & -> & Hst & Hdf & Hdl & Hz). cbn.
    destruct (IH b1) as (b' & -> & Hf' & Ha' & Hh').
    + eapply Forall_impl; [exact Htx |]. intros t. by apply half_ok_step with df dl.
    + intros ty. eapply funds_ok_step; [exact Hst | done | |].
      * intros a k v Hv. pose proof (fo_free _ _ (Hf ty) a k v Hv). specialize (Hdf ty a k). lia.
      * intros a k v Hv. apply Hdl; [done |]. by apply (fo_locked _ _ (Hf ty) a k).
    + exists b'. split_and!; [done | done | by rewrite Ha', (fs_addr _ _ _ _ Hst) |].
      intros ty a Hc. destruct (Hh' ty a) as [Hc' ->]; [by eapply complete_step |]. split; [done |].
      rewrite (fund_holdings _ _ _ _ _ _ Hst Hc), Hz. lia.
Qed.

(** The pending first halves have routable requests and brokers. *)
Definition pools_ok (c : Committee) : Prop :=
  forall h m, brokerConfirm1Pool c !! h = Some m -> meg_ok (m1_RawMeg m) /\ addr_ok (rm_Broker (m1_RawMeg m)).

Lemma tx2_routable m : config_ok -> meg_ok m -> addr_ok (rm_Broker m) -> routable (make_tx2 (mkType2 m (rm_Broker m))).
Proof.
  intros Hcfg (_ & Hr & _) Hb. destruct (fetch_ok _ Hcfg Hr) as [Fr Ir]. destruct (fetch_ok _ Hcfg Hb) as [Fb _].
  exists (shard_of (Recipient (tval (rm_Tx m)))). split; [| done]. unfold route. cbn. by rewrite Fb, Fr.
Qed.

Definition same_funds (b b' : Broker) : Prop :=
  BrokerBalance b' = BrokerBalance b /\ LockBalance b' = LockBalance b /\ ProfitBalance b' = ProfitBalance b /\
  BrokerAddress b' = BrokerAddress b.

Lemma createConfirm_spec c txs :
  config_ok -> pools_ok c ->
  exists c' out, createConfirm c txs = Ret (c', out) /\ same_funds (cBroker c) (cBroker c') /\
    brokerConfirm1Pool c' = brokerConfirm1Pool c.
Proof.
  intros Hcfg Hp. unfold createConfirm.
  set (c1s := omap (fun tx => brokerConfirm1Pool c !! TxHash tx) txs).
  set (c2s := omap (fun tx => brokerConfirm2Pool c !! TxHash tx) txs).
  assert (exists c1 out, (match c1s with [] => Ret (c, []) | _ => handleTx1ConfirmMag c c1s end) = Ret (c1, out) /\
    same_funds (cBroker c) (cBroker c1) /\ brokerConfirm1Pool c1 = brokerConfirm1Pool c) as (c1 & out & -> & Hsf & Hpl).
  { assert (exists c1 out, handleTx1ConfirmMag c c1s = Ret (c1, out) /\ same_funds (cBroker c) (cBroker c1) /\
      brokerConfirm1Pool c1 = brokerConfirm1Pool c) as Hgo.
    { unfold handleTx1ConfirmMag, handleBrokerType2Mes. rewrite map_map.
      match goal with |- context [txSending ?l] => destruct (txSending_spec l Hcfg) as (out & -> & _) end.
      - apply Forall_forall. intros tx (m & -> & [_ Hm]%list_elem_of_filter)%list_elem_of_fmap.
        apply list_elem_of_omap in Hm as (t & _ & Hm). destruct (Hp _ _ Hm). by apply tx2_routable.
      - cbn. eexists _, _. split; [done |]. done. }
    destruct c1s; [| done]. by exists c, []. }
  cbn. eexists _, _. split; [done |]. destruct c2s; [done |]. done.
Qed.

Lemma same_funds_ok ty b b' : same_funds b b' -> funds_ok ty b -> funds_ok ty b'.
Proof.
  intros (E1 & E2 & E3 & E4) [H1 H2 H3 H4]. unfold IsBroker, complete in *. constructor; unfold IsBroker, complete;
    rewrite ?E1, ?E2, ?E3, ?E4; done.
Qed.

(** A block leaves the brokers who they are, and every table of theirs as complete as it was. *)
Lemma HandleBlockInfo_spec c b :
  config_ok -> pools_ok c -> (forall ty, funds_ok ty (cBroker c)) ->
  Forall (half_ok (cBroker c)) (Broker1Txs b) ->
  exists c' out, HandleBlockInfo c b = Ret (c', out) /\ pools_ok c' /\ (forall ty, funds_ok ty (cBroker c')) /\
    BrokerAddress (cBroker c') = BrokerAddress (cBroker c) /\
    forall ty a, complete ty (cBroker c) a ->
      complete ty (cBroker c') a /\ holdings (cBroker c') ty a = holdings (cBroker c) ty a.
Proof.
  intros Hcfg Hp Hf Htx. unfold HandleBlockInfo. destruct (BlockBodyLength b =? 0); [eauto 10 |].
  destruct (releases_spec (cBroker c) (Broker1Txs b) Hcfg Htx Hf) as (br & -> & Hf' & Ha & Hh). cbn [mbind outcome_bind].
  destruct (createConfirm_spec (with_broker br c) (Broker1Txs b ++ Broker2Txs b) Hcfg) as (c' & out & -> & Hsf & Hpl); [done |].
  exists c', out. split; [done |]. split_and!.
  - unfold pools_ok. rewrite Hpl. done.
  - intros ty. eapply same_funds_ok; [exact Hsf | done].
  - destruct Hsf as (_ & _ & _ & ->). done.
  - intros ty a Hc. destruct (Hh ty a Hc) as [Hc' <-]. unfold complete, holdings in *. destruct Hsf as (-> & -> & -> & _). done.
Qed.

End Confirming.

(** ** The two halves of a brokered transfer *)

Section Halves.
Context {cfg : Config} {dg : Digest} {md : MegDigest}.

Definition tx1_of (m : BrokerRawMeg) : Transaction := make_tx1 (mkType1 m (rm_Broker m)).
Definition tx2_of (m : BrokerRawMeg) : Transaction := make_tx2 (mkType2 m (rm_Broker m)).

Lemma filter_all {A} (l : list A) (P : A -> Prop) `{HP : forall x, Decision (P x)} : Forall P l -> filter P l = l.
Proof. induction 1 as [| x l Hx _ IH]; [done |]. by rewrite filter_cons, decide_True, IH by done. Qed.

Lemma foldl_insert_last {A} (f : A -> string) {B} (g : A -> B) (l : list A) (p : gmap string B) x :
  NoDup (map f l) -> x ∈ l -> foldl (fun p m => <[f m := g m]> p) p l !! f x = Some (g x).
Proof.
  intros Hnd Hx. assert (forall l (p : gmap string B) k, k ∉ map f l ->
    foldl (fun p m => <[f m := g m]> p) p l !! k = p !! k) as Hskip.
  { clear. induction l as [| y l IH]; intros p k Hk; [done |]. cbn in *. apply not_elem_of_cons in Hk as [Hne Hk].
    rewrite IH by done. by rewrite lookup_insert_ne. }
  revert p. induction l as [| y l IH]; intros p; [by apply not_elem_of_nil in Hx |].
  cbn in *. apply NoDup_cons in Hnd as [Hni Hnd]. apply elem_of_cons in Hx as [-> | Hx].
  - rewrite Hskip by done. apply lookup_insert_eq.
  - by apply IH.
Qed.

(** The digests of the requests are remembered. *)
Lemma raw_remembered c (megs : list BrokerRawMeg) m :
  m ∈ megs -> is_Some (foldl (fun r meg => <[getBrokerRawMagDigest meg := meg]> r) (BrokerRawMegs (cBroker c)) megs
                        !! getBrokerRawMagDigest m).
Proof.
  generalize (BrokerRawMegs (cBroker c)). induction megs as [| x megs IH]; intros r Hm; [by apply not_elem_of_nil in Hm |].
  cbn. apply elem_of_cons in Hm as [-> | Hm]; [| by apply IH].
  assert (forall l (r : gmap string BrokerRawMeg) k, is_Some (r !! k) ->
    is_Some (foldl (fun r meg => <[getBrokerRawMagDigest meg := meg]> r) r l !! k)) as Hkeep.
  { clear. induction l as [| y l IH]; intros r k Hk; [done |]. cbn. apply IH, lookup_insert_is_Some'. by right. }
  apply Hkeep. rewrite lookup_insert_eq. eauto.
Qed.

(** The confirmations found for the executed first halves [txs], when each is the
    confirmation of the request [f] gives it: the second halves of those requests
    are sent. *)
Lemma createConfirm_sends c (megs f : list BrokerRawMeg) txs :
  config_ok -> (forall m, m ∈ f -> m ∈ megs) -> (forall m, m ∈ megs -> meg_ok m /\ addr_ok (rm_Broker m)) ->
  (forall m, m ∈ megs -> is_Some (BrokerRawMegs (cBroker c) !! getBrokerRawMagDigest m)) ->
  Forall2 (fun tx m => exists h, brokerConfirm1Pool c !! TxHash tx = Some (mkConfirm1 h m)) txs f -> f <> [] ->
  exists c' out, createConfirm c txs = Ret (c', out) /\ txSending (map tx2_of f) = Ret out.
Proof.
  intros Hcfg Hin Hmegs Hraw Hpool Hne. unfold createConfirm.
  set (c1s := omap (fun tx => brokerConfirm1Pool c !! TxHash tx) txs).
  assert (map m1_RawMeg c1s = f) as Hc1.
  { unfold c1s. clear Hin Hne. induction Hpool as [| tx m txs f [h Hh] _ IH]; [done |]. cbn. rewrite Hh. cbn. by rewrite IH. }
  assert (handleTx1ConfirmMag c c1s = match c1s with [] => Ret (c, []) | _ => handleTx1ConfirmMag c c1s end) as Hm.
  { destruct c1s; [| done]. cbn in Hc1. by subst f. }
  rewrite <- Hm. unfold handleTx1ConfirmMag, handleBrokerType2Mes. rewrite map_map.
  rewrite (filter_all c1s (fun m => bool_decide (is_Some (BrokerRawMegs (cBroker c) !! getBrokerRawMagDigest (m1_RawMeg m))) = true)).
  2: { apply Forall_forall. intros m Hm1. apply bool_decide_eq_true. apply Hraw, Hin. rewrite <- Hc1.
       apply list_elem_of_fmap. eauto. }
  assert (map (fun m => make_tx2 (mkType2 (m1_RawMeg m) (rm_Broker (m1_RawMeg m)))) c1s = map tx2_of f) as ->.
  { rewrite <- Hc1, map_map. done. }
  destruct (txSending_spec (map tx2_of f) Hcfg) as (out & -> & _).
  { apply Forall_forall. intros tx (m & -> & Hm1)%list_elem_of_fmap. destruct (Hmegs m (Hin m Hm1)).
    by apply tx2_routable. }
  cbn. eauto.
Qed.

(** After [handleBrokerRawMag], the state the confirmations are looked up in. *)
Lemma handleBrokerRawMag_state c megs c' out :
  handleBrokerRawMag c megs = Ret (c', out) ->
  brokerConfirm1Pool c' = foldl (fun p m => <[TxHash (tx1_of m) := mkConfirm1 (TxHash (tx1_of m)) m]> p)
    (brokerConfirm1Pool c) megs /\
  BrokerRawMegs (cBroker c') = foldl (fun r meg => <[getBrokerRawMagDigest meg := meg]> r) (BrokerRawMegs (cBroker c)) megs.
Proof.
  unfold handleBrokerRawMag, handleBrokerType1Mes. destruct (txSending _); cbn; [| done]. intros [= <- <-]. cbn.
  split; [| done]. generalize (brokerConfirm1Pool c). induction megs as [| m megs IH]; intros p; [done |]. cbn. apply IH.
Qed.

(** C27: every brokered request is completed once. When the first halves of the
    requests have distinct hashes, [handleBrokerRawMag] sends for each request its
    first half (from the sender to the broker), and once these are executed
    [createConfirm] sends for each request its second half (from the broker to the
    recipient, for the same value), each exactly once and in order. *)
Theorem brokered_transfer_completes c (megs : list BrokerRawMeg) :
  config_ok -> megs <> [] -> (forall m, m ∈ megs -> meg_ok m /\ addr_ok (rm_Broker m)) ->
  NoDup (map (fun m => TxHash (tx1_of m)) megs) ->
  exists c1 out1 c2 out2, handleBrokerRawMag c megs = Ret (c1, out1) /\ txSending (map tx1_of megs) = Ret out1 /\
    createConfirm c1 (map tx1_of megs) = Ret (c2, out2) /\ txSending (map tx2_of megs) = Ret out2 /\
    Forall (fun m => Sender (tx1_of m) = Sender (tval (rm_Tx m)) /\ Recipient (tx1_of m) = rm_Broker m /\
                     Sender (tx2_of m) = rm_Broker m /\ Recipient (tx2_of m) = Recipient (tval (rm_Tx m)) /\
                     Value (tx1_of m) = val (rm_Tx m) /\ Value (tx2_of m) = val (rm_Tx m)) megs.
Proof.
  intros Hcfg Hne Hok Hnd.
  destruct (handleBrokerRawMag_spec c megs Hcfg) as (c1 & out1 & E1 & _ & _ & _ & _ & _ & _ & Hout); [intros; by apply Hok |].
  destruct (handleBrokerRawMag_state _ _ _ _ E1) as [Hpool Hraw].
  destruct (createConfirm_sends c1 megs megs (map tx1_of megs) Hcfg) as (c2 & out2 & E2 & Hout2); [done | done | | | done |].
  { intros m Hm. rewrite Hraw. by apply raw_remembered. }
  { rewrite Hpool. apply Forall2_fmap_l. apply Forall2_same_length_lookup_2; [done |].
    intros i m m' Hi Hi'. rewrite Hi in Hi'. injection Hi' as <-. exists (TxHash (tx1_of m)).
    apply (foldl_insert_last (fun m => TxHash (tx1_of m)) (fun m => mkConfirm1 (TxHash (tx1_of m)) m)); [done |].
    by eapply list_elem_of_lookup_2. }
  exists c1, out1, c2, out2. split_and!; [done.. |]. apply Forall_forall. intros m _. done.
Qed.

(** And it is not when they collide: the hash of a first half does not depend on
    the recipient, so two requests of the same sender, broker, value, nonce, fee and
    token share it whatever the digest function. The confirmation of the first is
    then overwritten: when both first halves are executed, the second request's
    recipient is paid twice and the first request's recipient is never paid. *)
Theorem brokered_transfer_collides c m1 m2 :
  config_ok -> meg_ok m1 -> meg_ok m2 -> addr_ok (rm_Broker m2) -> rm_Broker m1 = rm_Broker m2 ->
  Sender (tval (rm_Tx m1)) = Sender (tval (rm_Tx m2)) -> val (rm_Tx m1) = val (rm_Tx m2) ->
  Nonce (tval (rm_Tx m1)) = Nonce (tval (rm_Tx m2)) -> Fee (tval (rm_Tx m1)) = Fee (tval (rm_Tx m2)) ->
  Txtype (tval (rm_Tx m1)) = Txtype (tval (rm_Tx m2)) ->
  exists c1 out1 c2 out2, handleBrokerRawMag c [m1; m2] = Ret (c1, out1) /\
    createConfirm c1 [tx1_of m1; tx1_of m2] = Ret (c2, out2) /\
    txSending [tx2_of m2; tx2_of m2] = Ret out2.
Proof.
  intros Hcfg Hok1 Hok2 Hb Eb Es Ev En Ef Et.
  assert (TxHash (tx1_of m1) = TxHash (tx1_of m2)) as Eh.
  { unfold tx1_of, make_tx1. cbn. by rewrite Eb, Es, Ev, En, Ef, Et. }
  assert (forall m, m ∈ [m1; m2] -> meg_ok m /\ addr_ok (rm_Broker m)) as Hok.
  { intros m Hm. repeat (apply elem_of_cons in Hm as [-> | Hm]); [by rewrite Eb | done | by apply not_elem_of_nil in Hm]. }
  destruct (handleBrokerRawMag_spec c [m1; m2] Hcfg) as (c1 & out1 & E1 & _); [intros; by apply Hok |].
  destruct (handleBrokerRawMag_state _ _ _ _ E1) as [Hpool Hraw].
  destruct (createConfirm_sends c1 [m1; m2] [m2; m2] [tx1_of m1; tx1_of m2] Hcfg) as (c2 & out2 & E2 & Hout2); [| done | | | done |].
  { intros m Hm. right.
    repeat (apply elem_of_cons in Hm as [-> | Hm]); [left | left | by apply not_elem_of_nil in Hm]. }
  { intros m Hm. rewrite Hraw. by apply raw_remembered. }
  { rewrite Hpool. cbn [foldl].
    constructor; [| constructor; [| constructor]]; exists (TxHash (tx1_of m2)); rewrite Eh; apply lookup_insert_eq. }
  exists c1, out1, c2, out2. done.
Qed.
End Halves.
