(* ===== verification/CommitteeExamples.v ===== *)
(** * The broker committee: initial state and examples

    The committee [NewBrokerCommitteeMod_b2e] builds satisfies the invariants of
    [CommitteeProofs], and the theorems there apply to concrete batches, blocks and
    requests. *)
From Stdlib Require Import ZArith Lia.
From stdpp Require Import base gmap strings list fin_maps.
From S2P Require Import Prelude Utils JournalTypes Core Message Floats Broker B2E B2EProofs Committee CommitteeProofs Server.

Lemma foldl_insert_lookup `{Countable K} {A} (x : A) (l : list K) k :
  foldl (fun (m : gmap K A) k => <[k := x]> m) ∅ l !! k = if decide (k ∈ l) then Some x else None.
Proof.
  case_decide as Hk; [by apply foldl_insert_const; left |].
  assert (forall m : gmap K A, m !! k = None -> foldl (fun m k => <[k := x]> m) m l !! k = None) as Hn.
  { induction l as [| y l IH]; intros m Hm; [done |]. apply not_elem_of_cons in Hk as [Hne Hk].
    cbn. apply IH; [done |]. by rewrite lookup_insert_ne. }
  by apply Hn.
Qed.

Section Initial.
Context {cfg : Config} {dg : Digest} {md : MegDigest}.

Lemma init_bal3 {A} (x : A) (addrs tys : list string) ty a k :
  bal3 (foldl (fun m ty => <[ty := init_shards addrs x]> m) ∅ tys) ty a k =
    if decide (ty ∈ tys /\ a ∈ addrs /\ k ∈ shards) then Some x else None.
Proof.
  unfold bal3. rewrite foldl_insert_lookup. destruct (decide (ty ∈ tys)) as [Ht | Ht]; cbn.
  2: { rewrite decide_False by tauto. done. }
  unfold init_shards. rewrite foldl_insert_lookup. destruct (decide (a ∈ addrs)) as [Ha | Ha]; cbn.
  2: { rewrite decide_False by tauto. done. }
  rewrite foldl_insert_lookup. repeat case_decide; tauto.
Qed.

(** The initial funds are in order in every token. *)
Lemma NewBroker_funds_ok ty file : 0 <= Init_broker_Balance -> funds_ok ty (NewBroker file).
Proof.
  intros Hi. unfold NewBroker. set (addrs := initBrokerAddr file BrokerNum).
  assert (forall a m, default ∅ ((foldl (fun m ty => <[ty := init_shards addrs Init_broker_Balance]> m) ∅ Transaction_Types : Balances) !! ty) !! a
            = Some m -> ty ∈ Transaction_Types /\ a ∈ addrs /\ over shards m) as Hin.
  { intros a m. rewrite foldl_insert_lookup. case_decide; cbn; [| done]. unfold init_shards.
    rewrite foldl_insert_lookup. case_decide; [| done]. intros [= <-]. split_and!; [done | done |].
    intros k. rewrite foldl_insert_lookup. case_decide; [by split; eauto | split; [done | by intros [? ?]]]. }
  constructor; cbn [BrokerBalance LockBalance ProfitBalance BrokerAddress]; unfold initBrokerBalance, initFloatBalance in *.
  - intros a m Hm. apply Hin in Hm as (_ & Ha & _). unfold IsBroker. cbn. by apply bool_decide_eq_true.
  - intros a m Hm. apply Hin in Hm as (Ht & Ha & Ho). split; [done |]. intros k Hk.
    cbn [BrokerBalance LockBalance ProfitBalance]. rewrite !init_bal3, !decide_True by done. split_and!; eauto.
  - intros a k v. rewrite init_bal3. case_decide; [intros [= <-]; lia | done].
  - intros a k v. rewrite init_bal3. case_decide; [intros [= <-]; lia | done].
Qed.

Lemma NewBrokerCommitteeMod_ok ty file :
  0 <= Init_broker_Balance -> initBrokerAddr file BrokerNum <> [] -> committee_ok ty (NewBrokerCommitteeMod file).
Proof.
  intros Hi Hb. constructor; cbn; [by apply NewBroker_funds_ok | done |].
  intros m. rewrite foldl_insert_lookup. case_decide; cbn; intros Hm; by apply not_elem_of_nil in Hm.
Qed.
End Initial.

(** ** Examples *)

Definition sample_megdigest : MegDigest := {| raw_digest := fun t b => b |}.

Definition cm0 : Committee := @NewBrokerCommitteeMod default_config [addr1].

Definition choice1 : b2e_choice := mkChoice [addr1] (fun l => l) [addr1] (fun _ => f64_lit 1 (-1)).

Definition alloc1 : alloc_choice :=
  mkAlloc [addr1] (fun _ => [3; 1; 0; 2]) (fun _ _ => [2; 0; 1; 3]) [addr1] (fun _ => [0; 1; 2; 3]) [1; 0; 3; 2].

(** A transfer of the given value between two addresses. *)
Definition transfer (p : positive) (s r : string) (v : Z) : TxPtr :=
  mkTxPtr p (mkTransaction s r 0 "" v "BKC" 5 "" 0 false false false false false
    "" "" "" false false false 0 0 None 0 0 [] false false [] "").

Lemma default_config_ok : @config_ok default_config.
Proof. unfold config_ok. cbn. lia. Qed.

Lemma bal_cm0 : default ∅ (BrokerBalance (cBroker cm0) !! "BKC") =
  {[ addr1 := list_to_map [(0, 10000); (1, 10000); (2, 10000); (3, 10000)] ]}.
Proof. vm_compute. reflexivity. Qed.

Lemma elem_of_0123 k : k ∈ @shards default_config <-> k = 0 \/ k = 1 \/ k = 2 \/ k = 3.
Proof. unfold shards. rewrite elem_of_seqZ. cbn. lia. Qed.

Lemma alloc1_ok : @alloc_ok default_config (default ∅ (BrokerBalance (cBroker cm0) !! "BKC")) alloc1.
Proof.
  rewrite bal_cm0.
  assert (forall b, b ∈ [addr1] <-> is_Some (({[ addr1 := list_to_map [(0, 10000); (1, 10000); (2, 10000); (3, 10000)] ]}
     : gmap string (gmap Z Z)) !! b)) as Hb.
  { intros b. rewrite lookup_singleton_is_Some, list_elem_of_singleton. split; congruence. }
  constructor; cbn [alloc1 ac_brokers ac_shards ac_inner ac_gen_brokers ac_gen_shards ac_apply].
  - exact Hb.
  - intros b k. rewrite elem_of_0123, !elem_of_cons, elem_of_nil. lia.
  - intros b k id. rewrite elem_of_0123, !elem_of_cons, elem_of_nil. lia.
  - split; [apply NoDup_singleton | exact Hb].
  - intros b. split; [closed_set |]. intros k. rewrite elem_of_0123, !elem_of_cons, elem_of_nil. lia.
  - apply (bool_decide_unpack _). vm_compute. exact I.
Qed.

Lemma choice1_ok : choice_ok (accumulate (default ∅ (BrokerBalance (cBroker cm0) !! "BKC"))) choice1.
Proof.
  rewrite bal_cm0. assert (accumulate {[ addr1 := list_to_map [(0, 10000); (1, 10000); (2, 10000); (3, 10000)] ]}
    = {[ addr1 := 40000 ]}) as -> by (vm_compute; reflexivity).
  assert (enumerates [addr1] {[ addr1 := 40000 ]}) as He.
  { intros b. rewrite lookup_singleton_is_Some, list_elem_of_singleton. split; congruence. }
  constructor; [exact He | exact He | reflexivity].
Qed.

(** A request of 25000 from shard 0 to shard 1, where the broker has 10000. *)
Definition batch1 : list TxPtr := [transfer 1 addr0 addr1 25000; transfer 2 addr0 addr4 70].

Lemma dealTxByBroker_solvent_witness :
  exists c' itxs out, @dealTxByBroker default_config sample_digest sample_megdigest [choice1] alloc1 cm0 batch1 "BKC"
      = Ret (c', itxs, out) /\ @committee_ok default_config "BKC" c' /\
    @holdings default_config (cBroker c') "BKC" addr1 = 40000 /\
    bal3 (LockBalance (cBroker c')) "BKC" addr1 1 = Some 25000.
Proof.
  destruct (@dealTxByBroker_solvent default_config sample_digest sample_megdigest [choice1] alloc1 cm0 batch1 "BKC")
    as [(c' & itxs & out & H1 & H2 & H3 & _) | (megs & _ & H)].
  - exact default_config_ok.
  - apply NewBrokerCommitteeMod_ok; [cbn; lia | discriminate].
  - exact alloc1_ok.
  - intros cc ->%list_elem_of_singleton. exact choice1_ok.
  - intros t Ht. unfold batch1 in Ht.
    repeat (apply elem_of_cons in Ht as [-> | Ht]); [cbn; split; [lia | done] .. | by apply not_elem_of_nil in Ht].
  - closed_set.
  - exists c', itxs, out. split; [exact H1 |]. split; [exact H2 |]. split.
    + rewrite (H3 addr1 _ ltac:(rewrite bal_cm0; apply lookup_singleton_eq)). vm_compute. reflexivity.
    + vm_compute in H1. injection H1 as <- _ _. vm_compute. reflexivity.
  - exfalso. vm_compute in H. discriminate H.
Defined.


(** The first half of the request above, executed. *)
Definition block1 : BlockInfoMsg :=
  mkBlockInfo 1 [] 0 0 0 0 0 [] 1
    [@make_tx1 sample_digest (mkType1 (mkRawMeg (transfer 1 addr0 addr1 500) addr1) addr1)] 0 [] [].

Lemma addr_ok_closed a s : @Addr2Shard default_config a = Ret s -> 0 <= s < 4 -> @addr_ok default_config a.
Proof. intros Ha Hs. exists s. split; [done |]. apply elem_of_0123. lia. Qed.


(** A digest that tells the first halves of the examples apart. *)
Definition value_digest : Digest := {| tx_digest := fun t => pretty.pretty (Value t) |}.

Definition req (p : positive) (r : string) (v : Z) : BrokerRawMeg := mkRawMeg (transfer p addr0 r v) addr1.

Lemma req_ok p r v : r = addr1 \/ r = "0000000000000000000000000000000000000002" -> 0 <= v ->
  @meg_ok default_config (req p r v) /\ @addr_ok default_config (rm_Broker (req p r v)).
Proof.
  intros Hr Hv. split; [| apply (addr_ok_closed _ 1); [vm_compute; reflexivity | lia]]. split_and!; [| | done].
  - apply (addr_ok_closed _ 0); [vm_compute; reflexivity | lia].
  - destruct Hr as [-> | ->]; [apply (addr_ok_closed _ 1) | apply (addr_ok_closed _ 2)]; (vm_compute; reflexivity) || lia.
Qed.

Lemma brokered_transfer_completes_witness :
  exists c1 out1 c2 out2,
    @handleBrokerRawMag default_config value_digest sample_megdigest cm0 [req 1 addr1 5; req 2 addr1 6] = Ret (c1, out1) /\
    @createConfirm default_config value_digest sample_megdigest c1 (map (@tx1_of value_digest) [req 1 addr1 5; req 2 addr1 6])
      = Ret (c2, out2) /\
    map Value (sent_to 1 out2) = [5; 6].
Proof.
  destruct (@brokered_transfer_completes default_config value_digest sample_megdigest cm0 [req 1 addr1 5; req 2 addr1 6])
    as (c1 & out1 & c2 & out2 & H1 & _ & H2 & H3 & _).
  - exact default_config_ok.
  - discriminate.
  - intros m Hm. repeat (apply elem_of_cons in Hm as [-> | Hm]); [.. | by apply not_elem_of_nil in Hm];
      (apply req_ok; [by left | lia]).
  - closed_set.
  - exists c1, out1, c2, out2. split; [exact H1 |]. split; [exact H2 |].
    vm_compute in H3. injection H3 as <-. vm_compute. reflexivity.
Defined.

(** Two transfers of 5 from the same sender through the same broker: the account of
    shard 2 is paid twice, the account of shard 1 never. *)
Lemma brokered_transfer_collides_witness :
  exists c1 out1 c2 out2,
    @handleBrokerRawMag default_config sample_digest sample_megdigest cm0
      [req 1 addr1 5; req 2 "0000000000000000000000000000000000000002" 5] = Ret (c1, out1) /\
    @createConfirm default_config sample_digest sample_megdigest c1
      (map (@tx1_of sample_digest) [req 1 addr1 5; req 2 "0000000000000000000000000000000000000002" 5]) = Ret (c2, out2) /\
    map Value (sent_to 1 out2) = [] /\ map Value (sent_to 2 out2) = [5; 5].
Proof.
  destruct (req_ok 1 addr1 5) as [Hm1 _]; [by left | lia |].
  destruct (req_ok 2 "0000000000000000000000000000000000000002" 5) as [Hm2 Hb2]; [by right | lia |].
  destruct (@brokered_transfer_collides default_config sample_digest sample_megdigest cm0
    (req 1 addr1 5) (req 2 "0000000000000000000000000000000000000002" 5) default_config_ok Hm1 Hm2 Hb2
    eq_refl eq_refl eq_refl eq_refl eq_refl eq_refl) as (c1 & out1 & c2 & out2 & H1 & H2 & H3).
  exists c1, out1, c2, out2. split; [exact H1 |]. split; [exact H2 |].
  vm_compute in H3. injection H3 as <-. split; vm_compute; reflexivity.
Defined.
