(* ===== verification/AccessList.v ===== *)
(** * The access list and the transient storage of a transaction

    Models [vm/state/access_list.go] and [vm/state/transient_storage.go]. A slot map
    is a set of hashes; the list's addresses point into the slice of slot maps, with
    [-1] for an address without slots. The deletions are the ones the journal was
    written for: they undo additions in reverse order. *)
From Stdlib Require Import ZArith Lia.
From stdpp Require Import base gmap sets strings list fin_maps.
From S2P Require Import Prelude.

(** ** [access_list.go] *)

Record accessList := mkAccessList {
  addresses : gmap Z Z;
  slots : list (gset Z)
}.

Definition newAccessList : accessList := mkAccessList ∅ [].

Definition ContainsAddress (al : accessList) (address : Z) : bool :=
  match addresses al !! address with Some _ => true | None => false end.

Definition Contains (al : accessList) (address slot : Z) : outcome (bool * bool) :=
  match addresses al !! address with
  | None => Ret (false, false)
  | Some i =>
      if i =? -1 then Ret (true, false)
      else m ← idx (slots al) i; Ret (true, bool_decide (slot ∈ m))
  end.

Definition AddAddress (al : accessList) (address : Z) : accessList * bool :=
  match addresses al !! address with
  | Some _ => (al, false)
  | None => (mkAccessList (<[address := -1]> (addresses al)) (slots al), true)
  end.

(** The new list and the flags [addrChange], [slotChange]. *)
Definition AddSlot (al : accessList) (address slot : Z) : outcome (accessList * (bool * bool)) :=
  let fresh_slot (addrPresent : bool) :=
    Ret (mkAccessList (<[address := zlen (slots al)]> (addresses al)) (slots al ++ [ {[slot]} ]),
         (negb addrPresent, true)) in
  match addresses al !! address with
  | None => fresh_slot false
  | Some i =>
      if i =? -1 then fresh_slot true
      else
        slotmap ← idx (slots al) i;
        if decide (slot ∈ slotmap) then Ret (al, (false, false))
        else
          s ← set_idx (slots al) i ({[slot]} ∪ slotmap);
          Ret (mkAccessList (addresses al) s, (false, true))
  end.

Definition DeleteSlot (al : accessList) (address slot : Z) : outcome accessList :=
  match addresses al !! address with
  | None => Panic "reverting slot change, address not present in list"
  | Some i =>
      slotmap ← idx (slots al) i;
      let slotmap' := slotmap ∖ {[slot]} in
      s ← set_idx (slots al) i slotmap';
      if decide (slotmap' = ∅) then
        s' ← slice s 0 i;
        Ret (mkAccessList (<[address := -1]> (addresses al)) s')
      else Ret (mkAccessList (addresses al) s)
  end.

Definition DeleteAddress (al : accessList) (address : Z) : accessList :=
  mkAccessList (delete address (addresses al)) (slots al).

(** ** What the list promises *)

(** Every index points at a non-empty slot map, and no two addresses share one. *)
Definition al_ok (al : accessList) : Prop :=
  (forall a i, addresses al !! a = Some i -> i <> -1 ->
     0 <= i /\ exists m, slots al !! Z.to_nat i = Some m /\ m <> ∅) /\
  (forall a b i, addresses al !! a = Some i -> addresses al !! b = Some i -> i <> -1 -> a = b).

(** The abstract list: the addresses, and the slots of each address. *)
Definition al_addrs (al : accessList) : gset Z := dom (addresses al).

Definition al_slots (al : accessList) (a : Z) : gset Z :=
  match addresses al !! a with
  | Some i => if i =? -1 then ∅ else default ∅ (slots al !! Z.to_nat i)
  | None => ∅
  end.

(** One journalled addition, and a run of them: the additions that changed the list,
    newest first, each with whether the address was new. *)
Inductive al_op := OpAddress (a : Z) | OpSlot (a s : Z).
Inductive al_change := AddedAddress (a : Z) | AddedSlot (a s : Z).

(** [AddAddressToAccessList] and [AddSlotToAccessList], with the journal entries
    they append. *)
Definition al_step (st : accessList * list al_change) (op : al_op)
  : outcome (accessList * list al_change) :=
  let '(al, j) := st in
  match op with
  | OpAddress a =>
      let '(al', added) := AddAddress al a in
      Ret (al', if added then AddedAddress a :: j else j)
  | OpSlot a s =>
      r ← AddSlot al a s;
      let '(al', (addrMod, slotMod)) := r in
      let j1 := if addrMod : bool then AddedAddress a :: j else j in
      Ret (al', if slotMod : bool then AddedSlot a s :: j1 else j1)
  end.

Definition al_undo (al : accessList) (c : al_change) : outcome accessList :=
  match c with
  | AddedAddress a => Ret (DeleteAddress al a)
  | AddedSlot a s => DeleteSlot al a s
  end.

(** ** Lemmas *)

Lemma newAccessList_ok : al_ok newAccessList.
Proof. split; intros; cbn in *; by rewrite lookup_empty in *. Qed.

Lemma al_ok_idx al a i :
  al_ok al -> addresses al !! a = Some i -> i <> -1 ->
  exists m, 0 <= i < zlen (slots al) /\ slots al !! Z.to_nat i = Some m /\ m <> ∅ /\ idx (slots al) i = Ret m.
Proof.
  intros [Hp _] Ha Hi. destruct (Hp a i Ha Hi) as (H0 & m & Hm & Hne).
  exists m. pose proof (lookup_lt_Some _ _ _ Hm). unfold zlen.
  split_and!; [done | lia | done | done | by apply idx_returns].
Qed.

Lemma Contains_ok al a s :
  al_ok al -> Contains al a s = Ret (bool_decide (a ∈ al_addrs al), bool_decide (s ∈ al_slots al a)).
Proof.
  intros Hok. unfold Contains, al_addrs, al_slots.
  destruct (addresses al !! a) as [i |] eqn:E.
  - rewrite (bool_decide_eq_true_2 (a ∈ _)) by (apply elem_of_dom; eauto).
    destruct (Z.eqb_spec i (-1)) as [-> | Hi].
    + rewrite bool_decide_eq_false_2; [done | apply not_elem_of_empty].
    + destruct (al_ok_idx al a i Hok E Hi) as (m & _ & Hm & _ & ->). cbn. by rewrite Hm.
  - rewrite !bool_decide_eq_false_2; [done | apply not_elem_of_empty | by apply not_elem_of_dom].
Qed.

Lemma AddAddress_ok al a :
  al_ok al ->
  let '(al', added) := AddAddress al a in
  al_ok al' /\ al_addrs al' = {[a]} ∪ al_addrs al /\ (forall b, al_slots al' b = al_slots al b) /\
  (added = true -> DeleteAddress al' a = al) /\ (added = false -> al' = al).
Proof.
  intros Hok. unfold AddAddress. destruct (addresses al !! a) as [i |] eqn:E.
  - split_and!; [done | | done | done | done].
    unfold al_addrs. assert (a ∈ dom (addresses al)) by (apply elem_of_dom; eauto). set_solver.
  - assert (Hl : forall b i, addresses (mkAccessList (<[a:=-1]> (addresses al)) (slots al)) !! b = Some i -> i <> -1 ->
                 addresses al !! b = Some i).
    { cbn. intros b i. rewrite lookup_insert. case_decide; congruence. }
    split_and!.
    + destruct Hok as [Hp Hi]. split; [intros b i H1 H2; eapply Hp; eauto | intros b c i H1 H2 H3; eapply Hi; eauto].
    + unfold al_addrs. cbn. by rewrite dom_insert_L.
    + intros b. unfold al_slots. cbn. rewrite lookup_insert. case_decide as Hb; [subst b; by rewrite E | done].
    + intros _. unfold DeleteAddress. cbn. rewrite delete_insert_id by done. by destruct al.
    + done.
Qed.

(** A slot map appended for an address that had none. *)
Lemma fresh_slot_ok al a s :
  al_ok al -> (addresses al !! a = None \/ addresses al !! a = Some (-1)) ->
  let al' := mkAccessList (<[a := zlen (slots al)]> (addresses al)) (slots al ++ [ {[s]} ]) in
  al_ok al' /\ al_addrs al' = {[a]} ∪ al_addrs al /\ al_slots al' a = {[s]} /\
  (forall b, b <> a -> al_slots al' b = al_slots al b) /\
  DeleteSlot al' a s = Ret (mkAccessList (<[a := -1]> (addresses al)) (slots al)).
Proof.
  intros [Hp Hi] Ha al'. assert (Hlt : forall b i, addresses al !! b = Some i -> i <> -1 -> 0 <= i < zlen (slots al)).
  { intros b i H1 H2. destruct (Hp b i H1 H2) as (? & m & Hm & _).
    apply lookup_lt_Some in Hm. unfold zlen. lia. }
  assert (Hz : Z.to_nat (zlen (slots al)) = length (slots al)) by (unfold zlen; lia).
  assert (Hn : zlen (slots al) <> -1) by (unfold zlen; lia).
  split_and!.
  - split.
    + cbn. intros b i. rewrite lookup_insert. case_decide as Hb.
      * intros [= <-] _. split; [unfold zlen; lia |]. exists {[s]}. rewrite Hz, lookup_app_r, Nat.sub_diag by done.
        split; [done | set_solver].
      * intros H1 H2. destruct (Hp b i H1 H2) as (? & m & Hm & ?). split; [done |]. exists m.
        split; [by apply lookup_app_l_Some | done].
    + cbn. intros b c i H1 H2 H3.
      apply lookup_insert_Some in H1 as [[Eb <-] | [_ H1]]; apply lookup_insert_Some in H2 as [[Ec Ei] | [_ H2]].
      * congruence.
      * destruct (Hlt c _ H2 H3). lia.
      * destruct (Hlt b _ H1 H3). lia.
      * by eapply Hi.
  - unfold al_addrs, al'. cbn. by rewrite dom_insert_L.
  - unfold al_slots, al'. cbn. rewrite lookup_insert_eq. destruct (Z.eqb_spec (zlen (slots al)) (-1)); [done |].
    by rewrite Hz, lookup_app_r, Nat.sub_diag.
  - intros b Hb. unfold al_slots, al'. cbn. rewrite lookup_insert_ne by done.
    destruct (addresses al !! b) as [i |] eqn:E; [| done].
    destruct (Z.eqb_spec i (-1)) as [| Hi']; [done |].
    pose proof (Hlt b i E Hi') as Hb'. unfold zlen in Hb'. by rewrite lookup_app_l by lia.
  - unfold DeleteSlot, al'. cbn. rewrite lookup_insert_eq.
    rewrite (idx_returns _ _ {[s]}); [cbn | unfold zlen; lia | by rewrite Hz, lookup_app_r, Nat.sub_diag].
    rewrite set_idx_returns by (unfold zlen; rewrite length_app; cbn; lia). cbn.
    rewrite decide_True by set_solver.
    rewrite Hz, insert_app_r_alt, Nat.sub_diag by lia. cbn. rewrite slice_prefix. cbn.
    by rewrite insert_insert_eq.
Qed.

(** A new slot of an address that already has some. *)
Lemma known_slot_ok al a s i m :
  al_ok al -> addresses al !! a = Some i -> i <> -1 -> 0 <= i < zlen (slots al) -> slots al !! Z.to_nat i = Some m ->
  m <> ∅ -> s ∉ m ->
  let al' := mkAccessList (addresses al) (<[Z.to_nat i := {[s]} ∪ m]> (slots al)) in
  al_ok al' /\ al_slots al' a = {[s]} ∪ m /\ (forall b, b <> a -> al_slots al' b = al_slots al b) /\
  DeleteSlot al' a s = Ret al.
Proof.
  intros [Hp Hinj] E Hi Hr Hm Hne Hnin al'.
  assert (Hl : <[Z.to_nat i := {[s]} ∪ m]> (slots al) !! Z.to_nat i = Some ({[s]} ∪ m)).
  { apply list_lookup_insert_eq. unfold zlen in Hr. lia. }
  split_and!.
  - split; [| exact Hinj]. cbn. intros b j Hb Hj. destruct (Hp b j Hb Hj) as (? & m' & Hm' & ?).
    split; [done |]. destruct (decide (i = j)) as [<- |].
    + exists ({[s]} ∪ m). split; [done | set_solver].
    + exists m'. rewrite list_lookup_insert_ne; [done | lia].
  - unfold al_slots. cbn. rewrite E. destruct (Z.eqb_spec i (-1)); [done |]. by rewrite Hl.
  - intros b Hb. unfold al_slots. cbn. destruct (addresses al !! b) as [j |] eqn:Eb; [| done].
    destruct (Z.eqb_spec j (-1)); [done |]. rewrite list_lookup_insert_ne; [done |].
    intros Heq. destruct (Hp b j Eb) as [? _]; [done |].
    apply Hb. eapply (Hinj b a i); [replace i with j by lia | |]; done.
  - unfold DeleteSlot. cbn. rewrite E. rewrite (idx_returns _ _ ({[s]} ∪ m)) by (done || lia). cbn.
    assert (Hd : ({[s]} ∪ m) ∖ {[s]} = m) by set_solver. rewrite Hd.
    rewrite set_idx_returns by (unfold zlen in *; rewrite length_insert; lia). cbn.
    rewrite decide_False by done. rewrite list_insert_insert_eq, list_insert_id by done. by destruct al.
Qed.

Lemma AddSlot_ok al a s :
  al_ok al ->
  exists al' addrMod slotMod,
    AddSlot al a s = Ret (al', (addrMod, slotMod)) /\ al_ok al' /\
    al_addrs al' = {[a]} ∪ al_addrs al /\ al_slots al' a = {[s]} ∪ al_slots al a /\
    (forall b, b <> a -> al_slots al' b = al_slots al b) /\
    addrMod = bool_decide (a ∉ al_addrs al) /\ slotMod = bool_decide (s ∉ al_slots al a) /\
    (slotMod = false -> al' = al /\ addrMod = false) /\
    (slotMod = true -> exists al1, DeleteSlot al' a s = Ret al1 /\
       (if addrMod then DeleteAddress al1 a else al1) = al).
Proof.
  intros Hok. unfold AddSlot. destruct (addresses al !! a) as [i |] eqn:E.
  - destruct (Z.eqb_spec i (-1)) as [-> | Hi].
    + destruct (fresh_slot_ok al a s Hok) as (H1 & H2 & H3 & H4 & H5); [by right |].
      assert (Hs : al_slots al a = ∅) by (unfold al_slots; by rewrite E).
      assert (Hin : a ∈ al_addrs al) by (apply elem_of_dom; eauto).
      do 3 eexists. split_and!; [reflexivity | done | done | rewrite H3, Hs; set_solver | done | | | done |].
      * by rewrite bool_decide_eq_false_2 by tauto.
      * by rewrite Hs, bool_decide_eq_true_2 by set_solver.
      * intros _. exists al. rewrite H5, insert_id by done. by destruct al.
    + destruct (al_ok_idx al a i Hok E Hi) as (m & Hr & Hm & Hne & ->). cbn.
      assert (Hs : al_slots al a = m).
      { unfold al_slots. rewrite E. destruct (Z.eqb_spec i (-1)); [done |]. by rewrite Hm. }
      assert (Hin : a ∈ al_addrs al) by (apply elem_of_dom; eauto).
      destruct (decide (s ∈ m)) as [Hin' | Hnin].
      * do 3 eexists. split_and!; [reflexivity | done | set_solver | set_solver | done | | | done | done].
        -- by rewrite bool_decide_eq_false_2 by tauto.
        -- rewrite Hs. by rewrite bool_decide_eq_false_2 by tauto.
      * destruct (known_slot_ok al a s i m Hok E Hi Hr Hm Hne Hnin) as (H1 & H2 & H3 & H4).
        rewrite set_idx_returns by done. cbn.
        do 3 eexists. split_and!; [reflexivity | done | set_solver | by rewrite Hs | done | | | done | by eauto].
        -- by rewrite bool_decide_eq_false_2 by tauto.
        -- rewrite Hs. by rewrite bool_decide_eq_true_2.
  - destruct (fresh_slot_ok al a s Hok) as (H1 & H2 & H3 & H4 & H5); [by left |].
    assert (Hs : al_slots al a = ∅) by (unfold al_slots; by rewrite E).
    assert (Hin : a ∉ al_addrs al) by by apply not_elem_of_dom.
    do 3 eexists. split_and!; [reflexivity | done | done | rewrite H3, Hs; set_solver | done | | | done |].
    + by rewrite bool_decide_eq_true_2.
    + by rewrite Hs, bool_decide_eq_true_2 by set_solver.
    + intros _. eexists. split; [exact H5 |]. cbn. unfold DeleteAddress. cbn.
      rewrite delete_insert_id by done. by destruct al.
Qed.

Lemma al_step_ok al j op :
  al_ok al ->
  exists al' cs, al_step (al, j) op = Ret (al', cs ++ j) /\ al_ok al' /\ for_each al_undo al' cs = Ret al /\
    al_addrs al' = {[match op with OpAddress a => a | OpSlot a _ => a end]} ∪ al_addrs al /\
    forall b, al_slots al' b =
      match op with OpSlot a s => if decide (b = a) then {[s]} ∪ al_slots al b else al_slots al b
                  | OpAddress _ => al_slots al b end.
Proof.
  intros Hok. destruct op as [a | a s]; cbn.
  - pose proof (AddAddress_ok al a Hok) as H. destruct (AddAddress al a) as [al' added].
    destruct H as (H1 & H2 & H3 & H4 & H5).
    exists al', (if added then [AddedAddress a] else []).
    split_and!; [by destruct added | done | | done | done].
    destruct added; cbn; [by rewrite H4 | by rewrite H5].
  - destruct (AddSlot_ok al a s Hok) as (al' & am & sm & -> & H1 & H2 & H3 & H4 & Ha & Hs & Hno & Hyes). cbn.
    exists al', ((if sm then [AddedSlot a s] else []) ++ (if am then [AddedAddress a] else [])).
    split_and!; [by destruct sm, am | done | | done |].
    + clear Ha Hs. destruct sm; cbn.
      * destruct (Hyes eq_refl) as (al1 & -> & Hal). cbn. destruct am; cbn; by rewrite Hal.
      * destruct (Hno eq_refl) as [-> ->]. done.
    + intros b. destruct (decide (b = a)) as [-> |]; [done | by apply H4].
Qed.

Lemma al_run_ok ops al j :
  al_ok al ->
  exists al' cs, for_each al_step (al, j) ops = Ret (al', cs ++ j) /\ al_ok al' /\
    for_each al_undo al' cs = Ret al /\
    al_addrs al' = al_addrs al ∪ list_to_set (map (fun op => match op with OpAddress a => a | OpSlot a _ => a end) ops) /\
    forall b s, s ∈ al_slots al' b <-> s ∈ al_slots al b \/ OpSlot b s ∈ ops.
Proof.
  revert al j. induction ops as [| op ops IH]; intros al j Hok.
  - exists al, []. split_and!; [done | done | done | set_solver |]. intros b s. rewrite elem_of_nil. tauto.
  - destruct (al_step_ok al j op Hok) as (al1 & c1 & Hs & Hok1 & Hu & Ha & Hsl).
    destruct (IH al1 (c1 ++ j) Hok1) as (al2 & c2 & Hr & Hok2 & Hu2 & Ha2 & Hsl2).
    exists al2, (c2 ++ c1). cbn [for_each]. rewrite Hs. cbn. rewrite Hr, app_assoc.
    split_and!; [done | done | | rewrite Ha2, Ha; set_solver |].
    + rewrite for_each_app, Hu2. cbn. done.
    + intros b s. rewrite Hsl2, Hsl, elem_of_cons. destruct op as [a | a s'].
      * split; [tauto | intros [? | [? | ?]]; [tauto | discriminate | tauto]].
      * case_decide as Hb.
        -- subst b. rewrite elem_of_union, elem_of_singleton.
           split; [intros [[-> | ?] | ?]; tauto | intros [? | [[= ->] | ?]]; tauto].
        -- split; [tauto | intros [? | [[= -> ->] | ?]]; tauto].
Qed.

(** ** [transient_storage.go] *)

Abbreviation Slots := (gmap Z Z).
Abbreviation transientStorage := (gmap Z Slots).

Definition newTransientStorage : transientStorage := ∅.

(** [Set] on the map of maps; the zero hash deletes. *)
Definition transient_Set (t : transientStorage) (addr key value : Z) : transientStorage :=
  if value =? 0 then
    match t !! addr with
    | Some inner =>
        let inner' := delete key inner in
        if decide (inner' = ∅) then delete addr t else <[addr := inner']> t
    | None => t
    end
  else <[addr := <[key := value]> (default ∅ (t !! addr))]> t.

Definition transient_Get (t : transientStorage) (addr key : Z) : Z :=
  match t !! addr with None => 0 | Some inner => default 0 (inner !! key) end.

(** No zero value is stored and no account has an empty map. *)
Definition transient_ok (t : transientStorage) : Prop :=
  forall a inner, t !! a = Some inner -> inner <> ∅ /\ forall k, inner !! k <> Some 0.

Lemma transient_Get_Set t a k v b l :
  transient_Get (transient_Set t a k v) b l =
    if decide (b = a /\ l = k) then v else transient_Get t b l.
Proof.
  unfold transient_Get, transient_Set.
  destruct (Z.eqb_spec v 0) as [-> | Hv].
  - destruct (t !! a) as [inner |] eqn:E.
    + case_decide as He.
      * rewrite lookup_delete. destruct (decide (a = b)) as [<- |].
        -- rewrite E. case_decide as Hd; [done |].
           assert (Hk : k <> l) by (intros ->; by apply Hd).
           rewrite <- (lookup_delete_ne inner k l Hk), He. done.
        -- rewrite decide_False by (intros [-> _]; done). done.
      * rewrite lookup_insert. destruct (decide (a = b)) as [<- |].
        -- rewrite E, lookup_delete. destruct (decide (k = l)) as [<- |].
           ++ by rewrite decide_True.
           ++ by rewrite decide_False by (intros [_ ->]; done).
        -- rewrite decide_False by (intros [-> _]; done). done.
    + case_decide as Hd; [| done]. destruct Hd as [-> _]. by rewrite E.
  - rewrite lookup_insert. destruct (decide (a = b)) as [<- |].
    + rewrite lookup_insert. destruct (decide (k = l)) as [<- |].
      * by rewrite decide_True.
      * rewrite decide_False by (intros [_ ->]; done). by destruct (t !! a).
    + rewrite decide_False by (intros [-> _]; done). done.
Qed.

Lemma transient_Set_ok t a k v : transient_ok t -> transient_ok (transient_Set t a k v).
Proof.
  intros Hok b inner. unfold transient_Set. destruct (Z.eqb_spec v 0) as [-> | Hv].
  - destruct (t !! a) as [m |] eqn:E; [| by apply Hok].
    destruct (Hok a m E) as [_ Hz]. case_decide as He.
    + intros [_ H]%lookup_delete_Some. by apply (Hok b).
    + intros [[-> <-] | [_ H]]%lookup_insert_Some; [| by apply (Hok b)].
      split; [done |]. intros l. rewrite lookup_delete_Some. intros [_ H]. by apply (Hz l).
  - intros [[-> <-] | [_ H]]%lookup_insert_Some; [| by apply (Hok b)].
    split; [apply insert_non_empty |]. intros l. rewrite lookup_insert_Some.
    intros [[_ ->] | [_ H]]; [done |]. destruct (t !! b) as [m |] eqn:E; cbn in H.
    + by apply (Hok b m E) in H.
    + by rewrite lookup_empty in H.
Qed.

(** Well-formed storages with the same contents are equal. *)
Lemma transient_ext t1 t2 :
  transient_ok t1 -> transient_ok t2 -> (forall a k, transient_Get t1 a k = transient_Get t2 a k) -> t1 = t2.
Proof.
  assert (Hone : forall t1 t2 a m1, transient_ok t1 -> transient_ok t2 ->
    (forall a k, transient_Get t1 a k = transient_Get t2 a k) -> t1 !! a = Some m1 ->
    exists m2, t2 !! a = Some m2).
  { intros u1 u2 a m1 H1 H2 He Hm. destruct (H1 a m1 Hm) as [Hne Hz].
    apply map_choose in Hne as (k & v & Hk). specialize (He a k). unfold transient_Get in He.
    rewrite Hm, Hk in He. cbn in He. destruct (u2 !! a) as [m2 |]; [eauto |]. subst v. by destruct (Hz k). }
  intros H1 H2 He. apply map_eq. intros a. destruct (t1 !! a) as [m1 |] eqn:E1.
  - destruct (Hone t1 t2 a m1) as [m2 E2]; [done.. |]. rewrite E2. f_equal. apply map_eq. intros k.
    specialize (He a k). unfold transient_Get in He. rewrite E1, E2 in He.
    destruct (H1 a m1 E1) as [_ Hz1], (H2 a m2 E2) as [_ Hz2].
    specialize (Hz1 k). specialize (Hz2 k).
    destruct (m1 !! k), (m2 !! k); cbn in He; congruence.
  - destruct (t2 !! a) as [m2 |] eqn:E2; [| done].
    destruct (Hone t2 t1 a m2) as [m1 E]; [done.. | by intros; rewrite He | done |]. congruence.
Qed.

(** ** Theorems *)

(** The access list holds exactly the addresses and slots added to it, and undoing
    the journalled additions newest first gives back the very list it started from,
    indices included: any run of additions returns, keeps the list well formed, makes
    [Contains] answer the two set memberships, and is inverted by [DeleteSlot] and
    [DeleteAddress]. *)
Theorem access_list_run (al : accessList) (ops : list al_op) :
  al_ok al ->
  exists al' cs, for_each al_step (al, []) ops = Ret (al', cs) /\ al_ok al' /\
    for_each al_undo al' cs = Ret al /\
    (forall a s, exists pa ps, Contains al' a s = Ret (pa, ps) /\
       (pa = true <-> a ∈ al_addrs al \/ OpAddress a ∈ ops \/ exists s', OpSlot a s' ∈ ops) /\
       (ps = true <-> s ∈ al_slots al a \/ OpSlot a s ∈ ops)).
Proof.
  intros Hok. destruct (al_run_ok ops al [] Hok) as (al' & cs & Hr & Hok' & Hu & Ha & Hs).
  exists al', cs. rewrite app_nil_r in Hr. split_and!; [done.. |]. intros a s.
  do 2 eexists. split; [by apply Contains_ok |]. rewrite !bool_decide_eq_true, Hs, Ha. split; [| done].
  rewrite elem_of_union, elem_of_list_to_set, list_elem_of_fmap. split.
  - intros [? | ([b | b s'] & -> & ?)]; eauto.
  - intros [? | [? | [s' ?]]]; [by left | right; by exists (OpAddress a) | right; by exists (OpSlot a s')].
Qed.

Lemma access_list_run_witness :
  exists al' cs, for_each al_step (newAccessList, []) [OpAddress 1; OpSlot 2 7; OpSlot 1 8; OpSlot 2 9] = Ret (al', cs) /\
    for_each al_undo al' cs = Ret newAccessList.
Proof.
  destruct (access_list_run newAccessList [OpAddress 1; OpSlot 2 7; OpSlot 1 8; OpSlot 2 9] newAccessList_ok)
    as (al' & cs & H1 & _ & H2 & _).
  exists al', cs. split; [exact H1 | exact H2].
Defined.
