(* ===== verification/StateDB.v ===== *)
(** * The account state of a shard and its journal

    Models the in-memory half of [vm/state]: the journal ([journal.go]), the state
    objects ([state_object.go]) and the state database ([statedb.go]), up to and
    including [Finalise]. What lies below, the trie database and its reader, is an
    argument ([StateReader]) whose reads succeed; [StateCommit] models committing to it.

    A Go pointer to a state object is only ever reached through the map
    [stateObjects], so a mutation through the pointer is an update of that map. *)
From Stdlib Require Import ZArith Lia.
From stdpp Require Import base gmap strings list fin_maps.
From S2P Require Import Prelude Utils JournalTypes AccessList.

(** ** Libraries and the node's environment *)

Record StateAccount := mkStateAccount {
  sa_Nonce : Z;
  sa_Balance : Z;
  sa_Root : Z;
  sa_CodeHash : Z
}.

(** The database below: accounts and storage at the original root, contract code by
    hash, and the hash of code. *)
Class StateReader := {
  reader_Account : Z -> option StateAccount;
  reader_Storage : Z -> Z -> Z;
  ContractCode : Z -> Z -> list Z;
  Keccak256Hash : list Z -> Z
}.

(** [global.ShardID], [global.NodeID] and [global.Ip_nodeTable]. *)
Class NodeEnv := {
  ShardID : Z;
  NodeID : Z;
  Ip_nodeTable : gmap Z (gmap Z string)
}.

Definition EmptyCodeHash : Z := 0xc5d2460186f7233c927e7db2dcc703c0e500b653ca82273b7bfad8045d85a470.
Definition EmptyRootHash : Z := 0x56e81f171bcc55a6ff8345e692c0f86e5b48e01b996cadc001622fb5e363b421.

Definition NewEmptyStateAccount : StateAccount := mkStateAccount 0 0 EmptyRootHash EmptyCodeHash.

(** [uint256.MustFromBig]: two's complement of a number below 256 bits. *)
Definition MustFromBig (z : Z) : outcome Z :=
  if Z.abs z <? 2 ^ 256 then Ret (u256 z) else Panic "overflow".

(** ** The journal ([journal.go]) *)

Record revision := mkRevision { Id : Z; JournalIndex : Z }.

Record journal := mkJournal {
  Entries : list JournalEntry;
  dirties : gmap Z Z;
  ValidRevisions : list revision;
  nextRevisionId : Z
}.

Definition newJournal : journal := mkJournal [] ∅ [] 0.

Definition journal_reset (j : journal) : journal := mkJournal [] ∅ [] 0.

Definition journal_length (j : journal) : Z := zlen (Entries j).

Definition journal_snapshot (j : journal) : journal * Z :=
  (mkJournal (Entries j) (dirties j)
     (ValidRevisions j ++ [mkRevision (nextRevisionId j) (journal_length j)]) (nextRevisionId j + 1),
   nextRevisionId j).

(** [dirty]: a missing counter reads as zero. *)
Definition journal_dirty (j : journal) (addr : Z) : journal :=
  mkJournal (Entries j) (<[addr := default 0 (dirties j !! addr) + 1]> (dirties j)) (ValidRevisions j)
    (nextRevisionId j).

Definition journal_append (j : journal) (entry : JournalEntry) : journal :=
  let j1 := mkJournal (Entries j ++ [entry]) (dirties j) (ValidRevisions j) (nextRevisionId j) in
  match dirtied entry with Some addr => journal_dirty j1 addr | None => j1 end.

(** One less change for the address; the counter is dropped at zero. *)
Definition undirty (j : journal) (entry : JournalEntry) : journal :=
  match dirtied entry with
  | None => j
  | Some addr =>
      let n := default 0 (dirties j !! addr) - 1 in
      mkJournal (Entries j) (if n =? 0 then delete addr (dirties j) else <[addr := n]> (dirties j))
        (ValidRevisions j) (nextRevisionId j)
  end.

Definition journal_Copy (j : journal) : journal :=
  mkJournal (map entry_copy (Entries j)) (dirties j) (ValidRevisions j) (nextRevisionId j).

(** [sort.Search] over the revisions: the first one whose id is at least [revid]. *)
Fixpoint search_revision (l : list revision) (revid : Z) : nat :=
  match l with
  | [] => O
  | r :: l' => if revid <=? Id r then O else S (search_revision l' revid)
  end.

(** ** State objects ([state_object.go]) *)

Record stateObject := mkObject {
  address : Z;
  origin : option StateAccount;
  data : StateAccount;
  code : list Z;
  originStorage : gmap Z Z;
  dirtyStorage : gmap Z Z;
  pendingStorage : gmap Z Z;
  uncommittedStorage : gmap Z Z;
  dirtyCode : bool;
  selfDestructed : bool;
  newContract : bool
}.

Definition obj_empty (o : stateObject) : bool :=
  (sa_Nonce (data o) =? 0) && (sa_Balance (data o) =? 0) && (sa_CodeHash (data o) =? EmptyCodeHash).

Definition newObject (addr : Z) (acct : option StateAccount) : stateObject :=
  mkObject addr acct (default NewEmptyStateAccount acct) [] ∅ ∅ ∅ ∅ false false false.

Definition obj_set_data (o : stateObject) (d : StateAccount) : stateObject :=
  mkObject (address o) (origin o) d (code o) (originStorage o) (dirtyStorage o) (pendingStorage o)
    (uncommittedStorage o) (dirtyCode o) (selfDestructed o) (newContract o).

Definition obj_setBalance (o : stateObject) (amount : Z) : stateObject :=
  obj_set_data o (mkStateAccount (sa_Nonce (data o)) amount (sa_Root (data o)) (sa_CodeHash (data o))).

Definition obj_setNonce (o : stateObject) (nonce : Z) : stateObject :=
  obj_set_data o (mkStateAccount nonce (sa_Balance (data o)) (sa_Root (data o)) (sa_CodeHash (data o))).

Definition obj_setCode (o : stateObject) (codeHash : Z) (c : list Z) : stateObject :=
  mkObject (address o) (origin o)
    (mkStateAccount (sa_Nonce (data o)) (sa_Balance (data o)) (sa_Root (data o)) codeHash) c
    (originStorage o) (dirtyStorage o) (pendingStorage o) (uncommittedStorage o) true
    (selfDestructed o) (newContract o).

Definition obj_set_storage (o : stateObject) (og dirty pending uncommitted : gmap Z Z) : stateObject :=
  mkObject (address o) (origin o) (data o) (code o) og dirty pending uncommitted (dirtyCode o)
    (selfDestructed o) (newContract o).

Definition obj_set_flags (o : stateObject) (destructed created : bool) : stateObject :=
  mkObject (address o) (origin o) (data o) (code o) (originStorage o) (dirtyStorage o) (pendingStorage o)
    (uncommittedStorage o) (dirtyCode o) destructed created.

Definition obj_setState (o : stateObject) (key value orig : Z) : stateObject :=
  obj_set_storage o (originStorage o)
    (if value =? orig then delete key (dirtyStorage o) else <[key := value]> (dirtyStorage o))
    (pendingStorage o) (uncommittedStorage o).

Section Objects.
Context `{rd : StateReader}.

(** [GetCommittedState]; [destructed] tells whether the account is in
    [stateObjectsDestruct]. The value read is cached in [originStorage]. *)
Definition obj_GetCommittedState (destructed : bool) (o : stateObject) (key : Z) : stateObject * Z :=
  match pendingStorage o !! key with
  | Some v => (o, v)
  | None =>
      match originStorage o !! key with
      | Some v => (o, v)
      | None =>
          let v := if destructed then 0 else reader_Storage (address o) key in
          (obj_set_storage o (<[key := v]> (originStorage o)) (dirtyStorage o) (pendingStorage o)
             (uncommittedStorage o), v)
      end
  end.

(** [getState]: the current value and the committed one. *)
Definition obj_getState (destructed : bool) (o : stateObject) (key : Z) : stateObject * (Z * Z) :=
  let '(o1, orig) := obj_GetCommittedState destructed o key in
  match dirtyStorage o1 !! key with
  | Some v => (o1, (v, orig))
  | None => (o1, (orig, orig))
  end.

(** [Code]: the cached code, or the database's for a non-empty hash. *)
Definition obj_Code (o : stateObject) : stateObject * list Z :=
  match code o with
  | [] =>
      if sa_CodeHash (data o) =? EmptyCodeHash then (o, [])
      else
        let c := ContractCode (address o) (sa_CodeHash (data o)) in
        (mkObject (address o) (origin o) (data o) c (originStorage o) (dirtyStorage o) (pendingStorage o)
           (uncommittedStorage o) (dirtyCode o) (selfDestructed o) (newContract o), c)
  | c => (o, c)
  end.

(** One iteration of [finalise] over the dirty slots. *)
Definition finalise_slot (destructed : bool) (o : stateObject) (kv : Z * Z) : stateObject :=
  let '(key, value) := kv in
  let o1 :=
    match uncommittedStorage o !! key with
    | Some orig =>
        if orig =? value
        then obj_set_storage o (originStorage o) (dirtyStorage o) (pendingStorage o)
               (delete key (uncommittedStorage o))
        else o
    | None =>
        let '(o', c) := obj_GetCommittedState destructed o key in
        obj_set_storage o' (originStorage o') (dirtyStorage o') (pendingStorage o')
          (<[key := c]> (uncommittedStorage o'))
    end in
  obj_set_storage o1 (originStorage o1) (dirtyStorage o1) (<[key := value]> (pendingStorage o1))
    (uncommittedStorage o1).

Definition obj_finalise (destructed : bool) (o : stateObject) : stateObject :=
  let o1 := fold_left (finalise_slot destructed) (map_to_list (dirtyStorage o)) o in
  obj_set_flags (obj_set_storage o1 (originStorage o1) ∅ (pendingStorage o1) (uncommittedStorage o1))
    (selfDestructed o1) false.
End Objects.

(** ** The state database ([statedb.go]) *)

(** An emitted log: [TxHash], [TxIndex], [Index], and its address, topics and data
    as one value of no further interest here. *)
Record LogEntry := mkLogEntry { lg_TxHash : Z; lg_TxIndex : Z; lg_Index : Z; lg_content : list Z }.

Inductive mutationType := update | deletion.
Record mutation := mkMutation { mut_typ : mutationType; mut_applied : bool }.

Record StateDB := mkStateDB {
  stateObjects : gmap Z stateObject;
  stateObjectsDestruct : gmap Z stateObject;
  mutations : gmap Z mutation;
  refund : Z;
  thash : Z;
  txIndex : Z;
  logs : gmap Z (list LogEntry);
  logSize : Z;
  preimages : gmap Z (list Z);
  access : accessList;
  transient : transientStorage;
  jrnl : journal
}.

(** The value [New] and [New2] build on a root that opens. *)
Definition New_StateDB : StateDB :=
  mkStateDB ∅ ∅ ∅ 0 0 0 ∅ 0 ∅ newAccessList newTransientStorage newJournal.

Definition db_objects (s : StateDB) (live : gmap Z stateObject) : StateDB :=
  mkStateDB live (stateObjectsDestruct s) (mutations s) (refund s) (thash s) (txIndex s) (logs s) (logSize s)
    (preimages s) (access s) (transient s) (jrnl s).
Definition db_journal (s : StateDB) (j : journal) : StateDB :=
  mkStateDB (stateObjects s) (stateObjectsDestruct s) (mutations s) (refund s) (thash s) (txIndex s) (logs s)
    (logSize s) (preimages s) (access s) (transient s) j.
Definition db_refund (s : StateDB) (r : Z) : StateDB :=
  mkStateDB (stateObjects s) (stateObjectsDestruct s) (mutations s) r (thash s) (txIndex s) (logs s)
    (logSize s) (preimages s) (access s) (transient s) (jrnl s).
Definition db_logs (s : StateDB) (l : gmap Z (list LogEntry)) (n : Z) : StateDB :=
  mkStateDB (stateObjects s) (stateObjectsDestruct s) (mutations s) (refund s) (thash s) (txIndex s) l n
    (preimages s) (access s) (transient s) (jrnl s).
Definition db_access (s : StateDB) (al : accessList) : StateDB :=
  mkStateDB (stateObjects s) (stateObjectsDestruct s) (mutations s) (refund s) (thash s) (txIndex s) (logs s)
    (logSize s) (preimages s) al (transient s) (jrnl s).
Definition db_transient (s : StateDB) (t : transientStorage) : StateDB :=
  mkStateDB (stateObjects s) (stateObjectsDestruct s) (mutations s) (refund s) (thash s) (txIndex s) (logs s)
    (logSize s) (preimages s) (access s) t (jrnl s).
Definition db_deletions (s : StateDB) (live dead : gmap Z stateObject) (m : gmap Z mutation) : StateDB :=
  mkStateDB live dead m (refund s) (thash s) (txIndex s) (logs s) (logSize s) (preimages s) (access s)
    (transient s) (jrnl s).

Definition SetTxContext (s : StateDB) (h ti : Z) : StateDB :=
  mkStateDB (stateObjects s) (stateObjectsDestruct s) (mutations s) (refund s) h ti (logs s) (logSize s)
    (preimages s) (access s) (transient s) (jrnl s).

Definition AddPreimage (s : StateDB) (hash : Z) (preimage : list Z) : StateDB :=
  match preimages s !! hash with
  | Some _ => s
  | None =>
      mkStateDB (stateObjects s) (stateObjectsDestruct s) (mutations s) (refund s) (thash s) (txIndex s) (logs s)
        (logSize s) (<[hash := preimage]> (preimages s)) (access s) (transient s) (jrnl s)
  end.

Definition setStateObject (s : StateDB) (o : stateObject) : StateDB :=
  db_objects s (<[address o := o]> (stateObjects s)).

Definition destructed_at (s : StateDB) (addr : Z) : bool :=
  match stateObjectsDestruct s !! addr with Some _ => true | None => false end.

Section Database.
Context `{cfg : Config} `{rd : StateReader} `{env : NodeEnv}.

Definition record_entry (s : StateDB) (e : JournalEntry) : StateDB := db_journal s (journal_append (jrnl s) e).

Definition getStateObject (s : StateDB) (addr : Z) : StateDB * option stateObject :=
  match stateObjects s !! addr with
  | Some o => (s, Some o)
  | None =>
      match stateObjectsDestruct s !! addr with
      | Some _ => (s, None)
      | None =>
          match reader_Account addr with
          | None => (s, None)
          | Some acct => let o := newObject addr (Some acct) in (setStateObject s o, Some o)
          end
      end
  end.

Definition createObject (s : StateDB) (addr : Z) : outcome (StateDB * stateObject) :=
  b ← MustFromBig Init_Balance;
  let o := obj_setBalance (newObject addr None) b in
  Ret (setStateObject (record_entry s (CreateObjectChange addr ShardID)) o, o).

Definition getOrNewStateObject (s : StateDB) (addr : Z) : outcome (StateDB * stateObject) :=
  match getStateObject s addr with
  | (s1, Some o) => Ret (s1, o)
  | (s1, None) => createObject s1 addr
  end.

(** *** Getters *)

Definition Exist (s : StateDB) (addr : Z) : bool :=
  match snd (getStateObject s addr) with Some _ => true | None => false end.

Definition Empty (s : StateDB) (addr : Z) : bool :=
  match snd (getStateObject s addr) with Some o => obj_empty o | None => true end.

Definition GetBalance (s : StateDB) (addr : Z) : outcome (StateDB * Z) :=
  r ← getOrNewStateObject s addr;
  Ret (fst r, sa_Balance (data (snd r))).

Definition GetNonce (s : StateDB) (addr : Z) : StateDB * Z :=
  let '(s1, o) := getStateObject s addr in
  (s1, match o with Some o => sa_Nonce (data o) | None => 0 end).

Definition GetCodeHash (s : StateDB) (addr : Z) : StateDB * Z :=
  let '(s1, o) := getStateObject s addr in
  (s1, match o with Some o => sa_CodeHash (data o) | None => 0 end).

Definition GetStorageRoot (s : StateDB) (addr : Z) : StateDB * Z :=
  let '(s1, o) := getStateObject s addr in
  (s1, match o with Some o => sa_Root (data o) | None => 0 end).

Definition GetCode (s : StateDB) (addr : Z) : StateDB * list Z :=
  match getStateObject s addr with
  | (s1, Some o) => let '(o1, c) := obj_Code o in (setStateObject s1 o1, c)
  | (s1, None) => (s1, [])
  end.

Definition GetState (s : StateDB) (addr hash : Z) : StateDB * Z :=
  match getStateObject s addr with
  | (s1, Some o) =>
      let '(o1, (v, _)) := obj_getState (destructed_at s1 addr) o hash in (setStateObject s1 o1, v)
  | (s1, None) => (s1, 0)
  end.

Definition GetCommittedState (s : StateDB) (addr hash : Z) : StateDB * Z :=
  match getStateObject s addr with
  | (s1, Some o) =>
      let '(o1, v) := obj_GetCommittedState (destructed_at s1 addr) o hash in (setStateObject s1 o1, v)
  | (s1, None) => (s1, 0)
  end.

Definition HasSelfDestructed (s : StateDB) (addr : Z) : StateDB * bool :=
  let '(s1, o) := getStateObject s addr in
  (s1, match o with Some o => selfDestructed o | None => false end).

Definition GetTransientState (s : StateDB) (addr key : Z) : Z := transient_Get (transient s) addr key.

(** *** Setters *)

(** [stateObject.SetBalance]: the journal keeps the low 64 bits of both amounts. *)
Definition obj_SetBalance (s : StateDB) (o : stateObject) (amount : Z) : StateDB :=
  setStateObject
    (record_entry s (BalanceChange (address o) (u64 (sa_Balance (data o))) (u64 amount) ShardID))
    (obj_setBalance o amount).

(** [touchChange]: address 3 (ripemd) is marked dirty a second time. *)
Definition touch (s : StateDB) (o : stateObject) : StateDB :=
  let s1 := record_entry s (TouchChange (address o) ShardID) in
  if address o =? 3 then db_journal s1 (journal_dirty (jrnl s1) 3) else s1.

Definition AddBalance (s : StateDB) (addr amount : Z) : outcome StateDB :=
  r ← getOrNewStateObject s addr;
  let '(s1, o) := r in
  if amount =? 0 then (if obj_empty o then Ret (touch s1 o) else Ret s1)
  else Ret (obj_SetBalance s1 o (u256 (sa_Balance (data o) + amount))).

Definition SubBalance (s : StateDB) (addr amount : Z) : outcome StateDB :=
  r ← getOrNewStateObject s addr;
  let '(s1, o) := r in
  if amount =? 0 then Ret s1 else Ret (obj_SetBalance s1 o (u256 (sa_Balance (data o) - amount))).

Definition SetBalance (s : StateDB) (addr amount : Z) : outcome StateDB :=
  r ← getOrNewStateObject s addr; Ret (obj_SetBalance (fst r) (snd r) amount).

Definition obj_SetNonce (s : StateDB) (o : stateObject) (nonce : Z) : StateDB :=
  setStateObject (record_entry s (NonceChange (address o) (sa_Nonce (data o)) nonce ShardID)) (obj_setNonce o nonce).

Definition SetNonce (s : StateDB) (addr nonce : Z) : outcome StateDB :=
  r ← getOrNewStateObject s addr; Ret (obj_SetNonce (fst r) (snd r) nonce).

Definition obj_SetCode (s : StateDB) (o : stateObject) (codeHash : Z) (c : list Z) : StateDB :=
  setStateObject (record_entry s (CodeChange (address o) codeHash c ShardID)) (obj_setCode o codeHash c).

Definition SetCode (s : StateDB) (addr : Z) (c : list Z) : outcome StateDB :=
  r ← getOrNewStateObject s addr; Ret (obj_SetCode (fst r) (snd r) (Keccak256Hash c) c).

Definition obj_SetState (s : StateDB) (o : stateObject) (key value : Z) : StateDB :=
  let '(o1, (prev, orig)) := obj_getState (destructed_at s (address o)) o key in
  if prev =? value then setStateObject s o1
  else setStateObject (record_entry s (StorageChange (address o) key prev orig value ShardID))
         (obj_setState o1 key value orig).

Definition SetState (s : StateDB) (addr key value : Z) : outcome StateDB :=
  r ← getOrNewStateObject s addr; Ret (obj_SetState (fst r) (snd r) key value).

Definition SelfDestruct (s : StateDB) (addr : Z) : StateDB :=
  match getStateObject s addr with
  | (s1, None) => s1
  | (s1, Some o) =>
      let '(s2, o2) :=
        if sa_Balance (data o) =? 0 then (s1, o) else (obj_SetBalance s1 o 0, obj_setBalance o 0) in
      if selfDestructed o2 then s2
      else setStateObject (record_entry s2 (SelfDestructChange addr ShardID))
             (obj_set_flags o2 true (newContract o2))
  end.

Definition Selfdestruct6780 (s : StateDB) (addr : Z) : StateDB :=
  match getStateObject s addr with
  | (s1, None) => s1
  | (s1, Some o) => if newContract o then SelfDestruct s1 addr else s1
  end.

Definition SetTransientState (s : StateDB) (addr key value : Z) : StateDB :=
  let prev := GetTransientState s addr key in
  if prev =? value then s
  else
    let s1 := record_entry s (TransientStorageChange addr key prev value ShardID) in
    db_transient s1 (transient_Set (transient s1) addr key value).

Definition AddRefund (s : StateDB) (gas : Z) : StateDB :=
  db_refund (record_entry s (RefundChange (refund s) gas ShardID)) (u64 (refund s + gas)).

Definition SubRefund (s : StateDB) (gas : Z) : outcome StateDB :=
  let s1 := record_entry s (RefundChange (refund s) (u64 (- gas)) ShardID) in
  if refund s <? gas then Panic "Refund counter below zero" else Ret (db_refund s1 (u64 (refund s - gas))).

Definition AddLog (s : StateDB) (content : list Z) : StateDB :=
  let s1 := record_entry s (AddLogChange (thash s) ShardID) in
  db_logs s1
    (<[thash s := default [] (logs s !! thash s) ++ [mkLogEntry (thash s) (txIndex s) (logSize s) content]]> (logs s))
    (u64 (logSize s + 1)).

Definition CreateAccount (s : StateDB) (addr : Z) : outcome StateDB :=
  r ← createObject s addr; Ret (fst r).

Definition CreateContract (s : StateDB) (addr : Z) : outcome StateDB :=
  match getStateObject s addr with
  | (_, None) => Panic "nil dereference"
  | (s1, Some o) =>
      if newContract o then Ret s1
      else Ret (record_entry (setStateObject s1 (obj_set_flags o (selfDestructed o) true))
                  (CreateContractChange addr ShardID))
  end.

Definition AddAddressToAccessList (s : StateDB) (addr : Z) : StateDB :=
  let '(al, added) := AddAddress (access s) addr in
  let s1 := db_access s al in
  if added : bool then record_entry s1 (AccessListAddAccountChange addr ShardID) else s1.

Definition AddSlotToAccessList (s : StateDB) (addr slot : Z) : outcome StateDB :=
  r ← AddSlot (access s) addr slot;
  let '(al, (addrMod, slotMod)) := r in
  let s1 := db_access s al in
  let s2 := if addrMod : bool then record_entry s1 (AccessListAddAccountChange addr ShardID) else s1 in
  Ret (if slotMod : bool then record_entry s2 (AccessListAddSlotChange addr slot ShardID) else s2).

(** [Prepare]: the access-list half of the body is commented out. *)
Definition Prepare (s : StateDB) : StateDB := db_transient s newTransientStorage.

(** *** Undoing and replaying one entry *)

(** The reverts that find the account missing leave the state alone. *)
Definition revert_obj (s : StateDB) (addr : Z) (f : stateObject -> stateObject) : StateDB :=
  match getStateObject s addr with
  | (s1, None) => s1
  | (s1, Some o) => setStateObject s1 (f o)
  end.

Definition Revert (s : StateDB) (ch : JournalEntry) : outcome StateDB :=
  match ch with
  | CreateObjectChange account _ => Ret (db_objects s (delete account (stateObjects s)))
  | CreateContractChange account _ =>
      Ret (revert_obj s account (fun o => obj_set_flags o (selfDestructed o) false))
  | SelfDestructChange account _ =>
      Ret (revert_obj s account (fun o => obj_set_flags o false (newContract o)))
  | TouchChange _ _ => Ret s
  | BalanceChange account prev _ _ => Ret (revert_obj s account (fun o => obj_setBalance o prev))
  | NonceChange account prev _ _ => Ret (revert_obj s account (fun o => obj_setNonce o prev))
  | CodeChange account _ _ _ => Ret (revert_obj s account (fun o => obj_setCode o EmptyCodeHash []))
  | StorageChange account key prevvalue origvalue _ _ =>
      Ret (revert_obj s account (fun o => obj_setState o key prevvalue origvalue))
  | TransientStorageChange account key prevalue _ _ =>
      Ret (db_transient s (transient_Set (transient s) account key prevalue))
  | RefundChange prev _ _ => Ret (db_refund s prev)
  | AddLogChange txhash _ =>
      let l := default [] (logs s !! txhash) in
      m ← (if zlen l =? 1 then Ret (delete txhash (logs s))
           else l' ← slice l 0 (zlen l - 1); Ret (<[txhash := l']> (logs s)));
      Ret (db_logs s m (u64 (logSize s - 1)))
  | AccessListAddAccountChange _ _ => Ret s
  | AccessListAddSlotChange _ _ _ => Ret s
  end.

(** [Execute] on a missing account dereferences nil, except for the entries that
    check for it. *)
Definition execute_obj (s : StateDB) (addr : Z) (f : stateObject -> stateObject) : outcome StateDB :=
  match getStateObject s addr with
  | (_, None) => Panic "nil dereference"
  | (s1, Some o) => Ret (setStateObject s1 (f o))
  end.

Definition Execute (s : StateDB) (ch : JournalEntry) : outcome StateDB :=
  match ch with
  | CreateObjectChange account _ =>
      b ← MustFromBig Init_Balance; Ret (setStateObject s (obj_setBalance (newObject account None) b))
  | CreateContractChange account _ =>
      execute_obj s account (fun o => obj_set_flags o (selfDestructed o) true)
  | SelfDestructChange account _ =>
      match getStateObject s account with
      | (s1, None) => Ret s1
      | (s1, Some o) =>
          let '(s2, o2) :=
            if sa_Balance (data o) =? 0 then (s1, o) else (obj_SetBalance s1 o 0, obj_setBalance o 0) in
          if selfDestructed o2 then Ret s2 else Ret (setStateObject s2 (obj_set_flags o2 true (newContract o2)))
      end
  | TouchChange _ _ => Ret s
  | BalanceChange account _ current _ => execute_obj s account (fun o => obj_setBalance o current)
  | NonceChange account _ current _ => execute_obj s account (fun o => obj_setNonce o current)
  | CodeChange account codeHash c _ => execute_obj s account (fun o => obj_setCode o codeHash c)
  | StorageChange account key _ _ current _ =>
      execute_obj s account (fun o =>
        let '(o1, (prev, orig)) := obj_getState (destructed_at s account) o key in
        if prev =? current then o1 else obj_setState o1 key current orig)
  | TransientStorageChange account key _ value _ =>
      if GetTransientState s account key =? value then Ret s
      else Ret (db_transient s (transient_Set (transient s) account key value))
  | RefundChange _ incr _ => Ret (db_refund s (u64 (refund s + incr)))
  | AddLogChange _ _ | AccessListAddAccountChange _ _ | AccessListAddSlotChange _ _ _ => Ret s
  end.

(** *** Snapshots *)

(** A rollback request for an entry that belongs to another shard, one per node of
    that shard. *)
Record RollbackMsg := mkRollback { rb_to : string; rb_log : Wrapper }.

Definition rollback_msgs (e : JournalEntry) : list RollbackMsg :=
  let nodes := default ∅ (Ip_nodeTable !! GetShardID e) in
  map (fun i => mkRollback (default "" (nodes !! Z.of_nat i)) (wrap e)) (seq 0 (size nodes)).

Fixpoint revert_entries (s : StateDB) (newest_first : list JournalEntry) : outcome (StateDB * list RollbackMsg) :=
  match newest_first with
  | [] => Ret (s, [])
  | e :: es =>
      r ← (if GetShardID e =? ShardID then s1 ← Revert s e; Ret (s1, []) else Ret (s, rollback_msgs e));
      let '(s1, out) := r in
      r2 ← revert_entries (db_journal s1 (undirty (jrnl s1) e)) es;
      Ret (fst r2, out ++ snd r2)
  end.

(** [journal.revert]. *)
Definition journal_revert (s : StateDB) (snapshot : Z) : outcome (StateDB * list RollbackMsg) :=
  r ← revert_entries s (rev (drop (Z.to_nat snapshot) (Entries (jrnl s))));
  let '(s1, out) := r in
  kept ← slice (Entries (jrnl s1)) 0 snapshot;
  Ret (db_journal s1 (mkJournal kept (dirties (jrnl s1)) (ValidRevisions (jrnl s1)) (nextRevisionId (jrnl s1))), out).

Definition Snapshot (s : StateDB) : StateDB * Z :=
  let '(j, id) := journal_snapshot (jrnl s) in (db_journal s j, id).

Definition RevertToSnapshot (s : StateDB) (revid : Z) : outcome (StateDB * list RollbackMsg) :=
  let i := search_revision (ValidRevisions (jrnl s)) revid in
  match ValidRevisions (jrnl s) !! i with
  | None => Panic "revision id cannot be reverted"
  | Some r =>
      if negb (Id r =? revid) then Panic "revision id cannot be reverted"
      else
        res ← journal_revert s (JournalIndex r);
        let '(s1, out) := res in
        Ret (db_journal s1 (mkJournal (Entries (jrnl s1)) (dirties (jrnl s1)) (take i (ValidRevisions (jrnl s1)))
               (nextRevisionId (jrnl s1))), out)
  end.

(** *** The end of a transaction *)

Definition mark (m : gmap Z mutation) (addr : Z) (t : mutationType) : gmap Z mutation :=
  <[addr := mkMutation t false]> m.

Definition finalise_account (deleteEmptyObjects : bool) (s : StateDB) (addr : Z) : StateDB :=
  match stateObjects s !! addr with
  | None => s
  | Some o =>
      if selfDestructed o || (deleteEmptyObjects && obj_empty o) then
        db_deletions s (delete (address o) (stateObjects s))
          (match stateObjectsDestruct s !! address o with
           | Some _ => stateObjectsDestruct s
           | None => <[address o := o]> (stateObjectsDestruct s)
           end) (mark (mutations s) addr deletion)
      else
        db_deletions s (<[addr := obj_finalise (destructed_at s (address o)) o]> (stateObjects s))
          (stateObjectsDestruct s) (mark (mutations s) addr update)
  end.

Definition clearJournalAndRefund (s : StateDB) : StateDB := db_refund (db_journal s (journal_reset (jrnl s))) 0.

Definition Finalise (deleteEmptyObjects : bool) (s : StateDB) : StateDB :=
  clearJournalAndRefund
    (fold_left (finalise_account deleteEmptyObjects) (map_to_list (dirties (jrnl s))).*1 s).

(** [SetStorage]: wipe an account and give it the listed slots. *)
Definition SetStorage (s : StateDB) (addr : Z) (slots : list (Z * Z)) : outcome StateDB :=
  let '(s1, obj) := getStateObject s addr in
  let s2 := match obj with
            | Some o => db_deletions s1 (stateObjects s1)
                          (match stateObjectsDestruct s1 !! addr with
                           | Some _ => stateObjectsDestruct s1
                           | None => <[addr := o]> (stateObjectsDestruct s1) end) (mutations s1)
            | None => s1 end in
  r ← createObject s2 addr;
  s3 ← for_each (fun st kv => o ← deref (stateObjects st !! addr); Ret (obj_SetState st o (fst kv) (snd kv)))
         (fst r) slots;
  match obj with
  | None => Ret s3
  | Some o =>
      n1 ← deref (stateObjects s3 !! addr);
      let s4 := obj_SetCode s3 n1 (sa_CodeHash (data o)) (code o) in
      n2 ← deref (stateObjects s4 !! addr);
      let s5 := obj_SetNonce s4 n2 (sa_Nonce (data o)) in
      n3 ← deref (stateObjects s5 !! addr);
      Ret (obj_SetBalance s5 n3 (sa_Balance (data o)))
  end.
End Database.
