(* ===== verification/StateDBSim.v ===== *)
(** * When two states cannot be told apart

    [StateDB.v] caches what it reads, so two databases that answer every query alike
    need not be equal. This file defines the coarser relation [db_sim] (same accounts,
    storage, code, logs, refund and transient storage as seen through the getters) and
    shows that undoing a journal entry respects it.

    Two parameters say how much is observed. [bal] is what is seen of a balance: all of
    it, or the low 64 bits the journal keeps. [cmp a] tells whether the code of the
    account [a] is compared: undoing a change of code makes it so. *)
From Stdlib Require Import ZArith Lia.
From stdpp Require Import base gmap strings list fin_maps.
From S2P Require Import Prelude Utils JournalTypes AccessList StateDB.

Section Similarity.
Context `{cfg : Config} `{rd : StateReader} `{env : NodeEnv}.

(** ** Observations *)

Definition live (s : StateDB) (a : Z) : option stateObject := snd (getStateObject s a).

Definition committed (d : bool) (o : stateObject) (k : Z) : Z := snd (obj_GetCommittedState d o k).
Definition current (d : bool) (o : stateObject) (k : Z) : Z := fst (snd (obj_getState d o k)).
Definition code_of (o : stateObject) : list Z := snd (obj_Code o).

Context (bal : Z -> Z).

(** What is seen of an account's data; [cc] tells whether its code is. *)
Definition view (cc : bool) (d : StateAccount) : StateAccount :=
  mkStateAccount (sa_Nonce d) (bal (sa_Balance d)) (sa_Root d) (if cc then sa_CodeHash d else 0).

(** [d] tells whether the account is among the destructed ones. *)
Record obj_sim (cc d : bool) (o p : stateObject) : Prop := {
  oe_address : address o = address p;
  oe_origin : origin o = origin p;
  oe_data : view cc (data o) = view cc (data p);
  oe_code : cc = true -> code_of o = code_of p;
  oe_destructed : selfDestructed o = selfDestructed p;
  oe_created : newContract o = newContract p;
  oe_committed : forall k, committed d o k = committed d p k;
  oe_current : forall k, current d o k = current d p k
}.

Record db_sim (cmp : Z -> bool) (s t : StateDB) : Prop := {
  de_dead : stateObjectsDestruct s = stateObjectsDestruct t;
  de_mutations : mutations s = mutations t;
  de_refund : refund s = refund t;
  de_thash : thash s = thash t;
  de_txIndex : txIndex s = txIndex t;
  de_logs : forall h, default [] (logs s !! h) = default [] (logs t !! h);
  de_logSize : logSize s = logSize t;
  de_preimages : preimages s = preimages t;
  de_transient : forall a k, GetTransientState s a k = GetTransientState t a k;
  de_live : forall a, option_Forall2 (obj_sim (cmp a) (destructed_at s a)) (live s a) (live t a)
}.

#[global] Instance obj_sim_equivalence cc d : Equivalence (obj_sim cc d).
Proof.
  split.
  - intros o. by split.
  - intros o p []. split; try done. intros. symmetry. auto.
  - intros o p q [] []. split; intros; solve [congruence | etrans; eauto | rewrite oe_code0; eauto].
Qed.

#[global] Instance db_sim_equivalence cmp : Equivalence (db_sim cmp).
Proof.
  split.
  - intros s. by split.
  - intros s t []. split; try done. intros a. specialize (de_live0 a). unfold destructed_at in *.
    rewrite <- de_dead0. destruct de_live0; constructor. by symmetry.
  - intros s t u [] []. split; intros; try (etrans; [eauto |]; by eauto).
    specialize (de_live0 a). specialize (de_live1 a). unfold destructed_at in *. rewrite <- de_dead0 in de_live1.
    destruct de_live0; inversion de_live1; subst; constructor. by etrans.
Qed.

(** Objects sit under their own address; the log counter is a machine word. *)
Record db_wf (s : StateDB) : Prop := {
  wf_address : forall a o, stateObjects s !! a = Some o -> address o = a;
  wf_logSize : is_u64 (logSize s)
}.

(** ** Objects *)

Lemma code_of_eq o :
  code_of o = match code o with
              | [] => if sa_CodeHash (data o) =? EmptyCodeHash then []
                      else ContractCode (address o) (sa_CodeHash (data o))
              | c => c
              end.
Proof. unfold code_of, obj_Code. destruct (code o); [by case_match | done]. Qed.

Lemma committed_storage d o og di pe un k :
  pe !! k = pendingStorage o !! k -> og !! k = originStorage o !! k ->
  committed d (obj_set_storage o og di pe un) k = committed d o k.
Proof.
  intros Hp Ho. unfold committed, obj_GetCommittedState. cbn. rewrite Hp, Ho.
  destruct (pendingStorage o !! k); [done |]. by destruct (originStorage o !! k).
Qed.

Lemma GetCommittedState_dirty d o k : dirtyStorage (fst (obj_GetCommittedState d o k)) = dirtyStorage o.
Proof. unfold obj_GetCommittedState. by repeat case_match. Qed.

Lemma current_eq d o k : current d o k = default (committed d o k) (dirtyStorage o !! k).
Proof.
  unfold current, committed, obj_getState. pose proof (GetCommittedState_dirty d o k) as Hd.
  destruct (obj_GetCommittedState d o k) as [o1 c]. cbn in *. rewrite Hd. by destruct (dirtyStorage o !! k).
Qed.

(** Reading a committed value fills the cache and changes no observation. *)
Lemma GetCommittedState_sim cc d o k : obj_sim cc d (fst (obj_GetCommittedState d o k)) o.
Proof.
  assert (Hc : forall l, committed d (fst (obj_GetCommittedState d o k)) l = committed d o l).
  { intros l. unfold obj_GetCommittedState at 1. destruct (pendingStorage o !! k); [done |].
    destruct (originStorage o !! k) eqn:E; [done |]. cbn.
    unfold committed, obj_GetCommittedState. cbn. destruct (pendingStorage o !! l); [done |].
    rewrite lookup_insert. destruct (decide (k = l)) as [<- |]; [by rewrite E | by destruct (originStorage o !! l)]. }
  split; try (unfold obj_GetCommittedState; by repeat case_match); [| done |].
  { unfold obj_GetCommittedState. destruct (pendingStorage o !! k); [done |].
    destruct (originStorage o !! k); [done |]. intros _. by rewrite !code_of_eq. }
  intros l. by rewrite !current_eq, Hc, GetCommittedState_dirty.
Qed.

Lemma obj_getState_spec cc d o k :
  exists o1, obj_getState d o k = (o1, (current d o k, committed d o k)) /\ obj_sim cc d o1 o.
Proof.
  exists (fst (obj_GetCommittedState d o k)). split; [| apply GetCommittedState_sim].
  rewrite current_eq. unfold committed, obj_getState. pose proof (GetCommittedState_dirty d o k) as Hd.
  destruct (obj_GetCommittedState d o k) as [o1 c]. cbn in *. rewrite Hd. by destruct (dirtyStorage o !! k).
Qed.

Lemma committed_same d o p k :
  address o = address p -> pendingStorage o = pendingStorage p -> originStorage o = originStorage p ->
  committed d o k = committed d p k.
Proof.
  intros Ha Hp Ho. unfold committed, obj_GetCommittedState. rewrite Hp, Ho, Ha.
  destruct (pendingStorage p !! k); [done |]. by destruct (originStorage p !! k).
Qed.

Lemma storage_same d o p :
  address o = address p -> pendingStorage o = pendingStorage p -> originStorage o = originStorage p ->
  dirtyStorage o = dirtyStorage p ->
  (forall k, committed d o k = committed d p k) /\ (forall k, current d o k = current d p k).
Proof.
  intros Ha Hp Ho Hd. split; intros k; [by apply committed_same |]. rewrite !current_eq, Hd.
  by rewrite (committed_same d o p).
Qed.

(** Same storage maps: the observations of the storage agree. *)
Definition same_storage (o p : stateObject) : Prop :=
  address o = address p /\ pendingStorage o = pendingStorage p /\ originStorage o = originStorage p /\
  dirtyStorage o = dirtyStorage p.

(** Two objects obtained from equivalent ones without touching the storage. *)
Lemma sim_keep_storage cc d o p o' p' cc' :
  obj_sim cc d o p -> same_storage o' o -> same_storage p' p -> origin o' = origin p' ->
  view cc' (data o') = view cc' (data p') -> (cc' = true -> code_of o' = code_of p') -> selfDestructed o' = selfDestructed p' -> newContract o' = newContract p' ->
  obj_sim cc' d o' p'.
Proof.
  intros [] (Ha & Hp & Ho & Hd) (Ha' & Hp' & Ho' & Hd') ? ? ? ? ?.
  destruct (storage_same d o' o Ha Hp Ho Hd) as [Hs1 Hs2].
  destruct (storage_same d p' p Ha' Hp' Ho' Hd') as [Hs3 Hs4].
  split; try done; [congruence | |]; intros k; congruence.
Qed.

Lemma obj_Code_sim cc d o : obj_sim cc d (fst (obj_Code o)) o.
Proof.
  unfold obj_Code. destruct (code o) eqn:E; [| done]. destruct (sa_CodeHash (data o) =? EmptyCodeHash) eqn:Eh; [done |].
  cbn. eapply (sim_keep_storage cc); [reflexivity | done.. | | done | done].
  intros _. rewrite !code_of_eq. cbn. rewrite E, Eh. by destruct (ContractCode _ _).
Qed.

Lemma committed_setState d o k v og l : committed d (obj_setState o k v og) l = committed d o l.
Proof. by apply committed_storage. Qed.

Lemma current_setState d o k v og l :
  current d (obj_setState o k v og) l =
    if decide (l = k) then (if v =? og then committed d o k else v) else current d o l.
Proof.
  rewrite !current_eq, committed_setState. cbn. destruct (decide (l = k)) as [-> |].
  - destruct (v =? og); [by rewrite lookup_delete_eq | by rewrite lookup_insert_eq].
  - destruct (v =? og); [by rewrite lookup_delete_ne | by rewrite lookup_insert_ne].
Qed.

(** The setters respect the relation. *)
Ltac keep_storage H :=
  eapply sim_keep_storage; [exact H | done | done | try (destruct H; cbn; congruence)..].

Lemma view_inv cc x y :
  view cc x = view cc y ->
  sa_Nonce x = sa_Nonce y /\ bal (sa_Balance x) = bal (sa_Balance y) /\ sa_Root x = sa_Root y /\
  (cc = true -> sa_CodeHash x = sa_CodeHash y).
Proof. intros [= H1 H2 H3 H4]. split_and!; [done.. |]. by intros ->. Qed.

Lemma code_of_data cc d o p x y :
  obj_sim cc d o p -> sa_CodeHash x = sa_CodeHash (data o) -> sa_CodeHash y = sa_CodeHash (data p) ->
  cc = true -> code_of (obj_set_data o x) = code_of (obj_set_data p y).
Proof.
  intros [Ha _ _ Hc _ _ _ _] Hx Hy Hcc. specialize (Hc Hcc). rewrite !code_of_eq in *. cbn. by rewrite Hx, Hy.
Qed.

Lemma sim_setBalance cc d o p b : obj_sim cc d o p -> obj_sim cc d (obj_setBalance o b) (obj_setBalance p b).
Proof.
  intros H. keep_storage H; [| by apply (code_of_data cc d)].
  destruct (view_inv _ _ _ (oe_data _ _ _ _ H)) as (H1 & _ & H3 & H4). unfold view. cbn. f_equal; [done.. |].
  destruct cc; [by apply H4 | done].
Qed.

Lemma sim_setNonce cc d o p b : obj_sim cc d o p -> obj_sim cc d (obj_setNonce o b) (obj_setNonce p b).
Proof.
  intros H. keep_storage H; [| by apply (code_of_data cc d)].
  destruct (view_inv _ _ _ (oe_data _ _ _ _ H)) as (_ & H2 & H3 & H4). unfold view. cbn. f_equal; [done.. |].
  destruct cc; [by apply H4 | done].
Qed.

(** Setting the code makes it alike, whether it was compared or not. *)
Lemma sim_setCode cc d o p h c : obj_sim cc d o p -> obj_sim true d (obj_setCode o h c) (obj_setCode p h c).
Proof.
  intros H. keep_storage H.
  - destruct (view_inv _ _ _ (oe_data _ _ _ _ H)) as (H1 & H2 & H3 & _). unfold view. cbn. by f_equal.
  - intros _. rewrite !code_of_eq. cbn. by rewrite (oe_address _ _ _ _ H).
Qed.

Lemma sim_set_flags cc d o p x y : obj_sim cc d o p -> obj_sim cc d (obj_set_flags o x y) (obj_set_flags p x y).
Proof.
  intros H. keep_storage H.
  intros Hcc. pose proof (oe_code _ _ _ _ H Hcc) as Hc. rewrite !code_of_eq in *. exact Hc.
Qed.

Lemma sim_setState cc d o p k v og : obj_sim cc d o p -> obj_sim cc d (obj_setState o k v og) (obj_setState p k v og).
Proof.
  intros []. split; try done.
  - intros Hcc. specialize (oe_code0 Hcc). rewrite !code_of_eq in *. done.
  - intros l. by rewrite !committed_setState.
  - intros l. by rewrite !current_setState, oe_committed0, oe_current0.
Qed.

Lemma sim_weaken cc cc' d o p : (cc' = true -> cc = true) -> obj_sim cc d o p -> obj_sim cc' d o p.
Proof.
  intros Hcc []. split; try done; [| auto]. destruct (view_inv _ _ _ oe_data0) as (H1 & H2 & H3 & H4).
  unfold view. f_equal; [done.. |]. destruct cc'; [auto | done].
Qed.

(** ** The live objects *)

Lemma live_eq s a :
  live s a = match stateObjects s !! a with
             | Some o => Some o
             | None => if destructed_at s a then None else newObject a ∘ Some <$> reader_Account a
             end.
Proof.
  unfold live, getStateObject, destructed_at. destruct (stateObjects s !! a); [done |].
  destruct (stateObjectsDestruct s !! a); [done |]. by destruct (reader_Account a).
Qed.

Lemma live_address s a o : db_wf s -> live s a = Some o -> address o = a.
Proof.
  intros Hwf. rewrite live_eq. destruct (stateObjects s !! a) eqn:E.
  - intros [= <-]. by apply (wf_address s Hwf).
  - destruct (destructed_at s a); [done |]. destruct (reader_Account a); [| done]. by intros [= <-].
Qed.

(** The database after looking an account up: only the cache of live objects moved. *)
Lemma load_spec s a :
  exists m, fst (getStateObject s a) = db_objects s m /\ (forall b, live (db_objects s m) b = live s b) /\
    m !! a = live s a /\ (db_wf s -> db_wf (db_objects s m)).
Proof.
  assert (Hs : db_objects s (stateObjects s) = s) by by destruct s.
  assert (Hl := live_eq s a). unfold getStateObject.
  destruct (stateObjects s !! a) as [o |] eqn:E.
  - exists (stateObjects s). rewrite Hs, Hl, E. by split_and!.
  - unfold destructed_at in Hl.
    destruct (stateObjectsDestruct s !! a) eqn:Ed; [exists (stateObjects s); rewrite Hs, Hl, E; by split_and! |].
    destruct (reader_Account a) as [acct |] eqn:Er; [| exists (stateObjects s); rewrite Hs, Hl, E; by split_and!].
    exists (<[a := newObject a (Some acct)]> (stateObjects s)). split_and!; [done | | |].
    + intros b. rewrite !live_eq. cbn. unfold destructed_at. cbn. rewrite lookup_insert.
      destruct (decide (a = b)) as [<- |]; [| done]. by rewrite E, Ed, Er.
    + rewrite lookup_insert_eq, Hl. done.
    + intros [Hw Hn]. split; [| done]. cbn. intros b o. rewrite lookup_insert_Some.
      intros [[<- <-] | [_ ?]]; [done | by apply Hw].
Qed.

Lemma live_put s o a : live (setStateObject s o) a = if decide (a = address o) then Some o else live s a.
Proof.
  rewrite !live_eq. cbn. unfold destructed_at. cbn. rewrite lookup_insert.
  destruct (decide (address o = a)) as [<- | Hne]; [by rewrite decide_True | by rewrite decide_False].
Qed.

Lemma put_wf s o : db_wf s -> db_wf (setStateObject s o).
Proof.
  intros [Hw Hn]. split; [| done]. cbn. intros a p. rewrite lookup_insert_Some.
  intros [[<- <-] | [_ ?]]; [done | by apply Hw].
Qed.

(** Databases that differ in their live objects, the journal and the access list. *)
Lemma sim_objects cmp s t :
  stateObjectsDestruct s = stateObjectsDestruct t -> mutations s = mutations t -> refund s = refund t ->
  thash s = thash t -> txIndex s = txIndex t -> logs s = logs t -> logSize s = logSize t ->
  preimages s = preimages t -> transient s = transient t ->
  (forall a, option_Forall2 (obj_sim (cmp a) (destructed_at s a)) (live s a) (live t a)) -> db_sim cmp s t.
Proof.
  intros ? ? ? ? ? Hl ? ? Ht ?. split; try done; [by rewrite Hl |].
  intros. unfold GetTransientState. by rewrite Ht.
Qed.

(** The journal and the access list are not observed. *)
Lemma live_journal s j a : live (db_journal s j) a = live s a.
Proof. by rewrite !live_eq. Qed.

Lemma sim_journal cmp s t j : db_sim cmp s t -> db_sim cmp (db_journal s j) t.
Proof.
  intros []. split; try done. intros a. rewrite live_journal. apply de_live0.
Qed.

Lemma sim_access cmp s t al : db_sim cmp s t -> db_sim cmp (db_access s al) t.
Proof.
  intros []. split; try done. intros a. specialize (de_live0 a). by rewrite live_eq in *.
Qed.

Lemma wf_journal s j : db_wf s -> db_wf (db_journal s j).
Proof. intros []. by split. Qed.

Lemma wf_access s al : db_wf s -> db_wf (db_access s al).
Proof. intros []. by split. Qed.

(** [revert_obj] seen through the live objects. *)
Lemma revert_obj_spec s a f :
  db_wf s -> (forall o, address (f o) = address o) ->
  exists m, revert_obj s a f = db_objects s m /\ db_wf (db_objects s m) /\
    forall b, live (db_objects s m) b = if decide (b = a) then f <$> live s a else live s b.
Proof.
  intros Hwf Hf. destruct (load_spec s a) as (m & Hm & Hl & Hma & Hw).
  unfold revert_obj. pose proof (eq_refl (live s a)) as He. unfold live in He at 1.
  destruct (getStateObject s a) as [s1 [o |]] eqn:E; cbn in Hm, He; subst s1.
  - assert (Ha : address (f o) = a) by (rewrite Hf; by apply (live_address s)).
    exists (<[a := f o]> m). unfold setStateObject. rewrite Ha. split_and!; [done | |].
    + pose proof (put_wf (db_objects s m) (f o) (Hw Hwf)) as H. unfold setStateObject in H. by rewrite Ha in H.
    + intros b. pose proof (live_put (db_objects s m) (f o) b) as H. unfold setStateObject in H. rewrite Ha in H.
      cbn in H. rewrite Hl in H. etrans; [exact H |]. rewrite <- He. done.
  - exists m. split_and!; [done | by apply Hw |]. intros b. rewrite Hl, <- He. case_decide as Hd; [by subst b | done].
Qed.

Lemma revert_obj_sim cmp cmp' s t a f :
  db_wf s -> db_wf t -> (forall o, address (f o) = address o) -> (forall b, b <> a -> cmp' b = true -> cmp b = true) ->
  (forall o p, obj_sim (cmp a) (destructed_at s a) o p -> obj_sim (cmp' a) (destructed_at s a) (f o) (f p)) ->
  db_sim cmp s t -> db_sim cmp' (revert_obj s a f) (revert_obj t a f).
Proof.
  intros Hs Ht Ha Hcmp Hf [].
  destruct (revert_obj_spec s a f Hs Ha) as (m1 & -> & _ & Hl1).
  destruct (revert_obj_spec t a f Ht Ha) as (m2 & -> & _ & Hl2).
  split; try done. intros b. rewrite Hl1, Hl2. change (destructed_at (db_objects s m1) b) with (destructed_at s b).
  case_decide as Hb; [| destruct (de_live0 b); constructor; eauto using sim_weaken]. subst b. destruct (de_live0 a) as [o p H |]; constructor. by apply Hf.
Qed.

Lemma revert_obj_wf s a f : db_wf s -> (forall o, address (f o) = address o) -> db_wf (revert_obj s a f).
Proof. intros Hs Ha. by destruct (revert_obj_spec s a f Hs Ha) as (m & -> & H & _). Qed.

(** ** Undoing respects the equivalence *)

Lemma drop_object_sim cmp s t a :
  db_sim cmp s t ->
  db_sim cmp (db_objects s (delete a (stateObjects s))) (db_objects t (delete a (stateObjects t))).
Proof.
  intros []. split; try done. intros b. specialize (de_live0 b).
  assert (Hd : destructed_at t b = destructed_at s b) by (unfold destructed_at; by rewrite de_dead0).
  rewrite !live_eq in *. unfold destructed_at in *. cbn. rewrite de_dead0 in *.
  destruct (decide (a = b)) as [<- |]; [| by rewrite !lookup_delete_ne]. rewrite !lookup_delete_eq. done.
Qed.

(** [AddLogChange.Revert] drops the last log of the transaction. *)
Definition pop_log (m : gmap Z (list LogEntry)) (h : Z) : outcome (gmap Z (list LogEntry)) :=
  let l := default [] (m !! h) in
  if zlen l =? 1 then Ret (delete h m) else l' ← slice l 0 (zlen l - 1); Ret (<[h := l']> m).

Lemma pop_log_spec m h l x :
  default [] (m !! h) = l ++ [x] ->
  exists m', pop_log m h = Ret m' /\
    forall h', default [] (m' !! h') = if decide (h' = h) then l else default [] (m !! h').
Proof.
  intros Hl. unfold pop_log. rewrite Hl. unfold zlen. rewrite length_app. cbn.
  destruct (Z.eqb_spec (Z.of_nat (length l + 1)) 1) as [He | He].
  - eexists. split; [done |]. intros h'. destruct (decide (h' = h)) as [-> |].
    + rewrite lookup_delete_eq. destruct l; [done | cbn in He; lia].
    + by rewrite lookup_delete_ne.
  - replace (Z.of_nat (length l + 1) - 1) with (zlen l) by (unfold zlen; lia). rewrite slice_prefix. cbn.
    eexists. split; [done |]. intros h'. destruct (decide (h' = h)) as [-> |].
    + by rewrite lookup_insert_eq.
    + by rewrite lookup_insert_ne.
Qed.

Lemma pop_log_inv m h m' : pop_log m h = Ret m' -> exists l x, default [] (m !! h) = l ++ [x].
Proof.
  unfold pop_log. intros Hr. destruct (default [] (m !! h)) as [| y l] eqn:E; [done |].
  destruct (exists_last (l := y :: l)) as (l' & x & ->); [done | eauto].
Qed.

Lemma pop_log_equiv m1 m2 h m1' :
  (forall h', default [] (m1 !! h') = default [] (m2 !! h')) -> pop_log m1 h = Ret m1' ->
  exists m2', pop_log m2 h = Ret m2' /\ forall h', default [] (m1' !! h') = default [] (m2' !! h').
Proof.
  intros He Hr. destruct (pop_log_inv m1 h m1' Hr) as (l & x & Hl).
  destruct (pop_log_spec m1 h l x Hl) as (n1 & Hn1 & H1). rewrite Hn1 in Hr. injection Hr as <-.
  rewrite He in Hl. destruct (pop_log_spec m2 h l x Hl) as (n2 & Hn2 & H2). exists n2. split; [done |].
  intros h'. by rewrite H1, H2, He.
Qed.

Lemma Revert_log s h i :
  Revert s (AddLogChange h i) = (m ← pop_log (logs s) h; Ret (db_logs s m (u64 (logSize s - 1)))).
Proof. done. Qed.

(** The entries that change the code of an account. *)
Definition changes_code (a : Z) (e : JournalEntry) : bool :=
  match e with CodeChange b _ _ _ => b =? a | _ => false end.
Definition code_changed (es : list JournalEntry) (a : Z) : bool := existsb (changes_code a) es.

Lemma db_sim_weaken cmp cmp' s t : (forall a, cmp' a = true -> cmp a = true) -> db_sim cmp s t -> db_sim cmp' s t.
Proof.
  intros Hc []. split; try done. intros a. destruct (de_live0 a); constructor. eauto using sim_weaken.
Qed.

(** Undoing an entry keeps the relation, and a change of code undone is compared. *)
Lemma Revert_proper cmp s t e s' :
  db_wf s -> db_wf t -> db_sim cmp s t -> Revert s e = Ret s' ->
  exists t', Revert t e = Ret t' /\ db_sim (fun a => cmp a || changes_code a e) s' t' /\ db_wf s' /\ db_wf t'.
Proof.
  intros Hs Ht He Hr. assert (Hor : forall b, cmp b || false = true -> cmp b = true) by (intros b; by rewrite orb_false_r).
  destruct e; try rewrite Revert_log in *; cbn -[Z.eqb] in Hr |- *;
    try (injection Hr as <-; eexists; split; [reflexivity |]; split_and!;
         [eapply db_sim_weaken, (revert_obj_sim cmp cmp); [exact Hor | done | done | done | auto | | exact He]
         | by apply revert_obj_wf | by apply revert_obj_wf];
         intros o p H; try rewrite (oe_destructed _ _ _ _ H); try rewrite (oe_created _ _ _ _ H);
         first [by apply sim_setBalance | by apply sim_setNonce | by apply sim_setState | by apply sim_set_flags]);
    try (injection Hr as <-; eexists; split; [reflexivity |]; split; [by eapply db_sim_weaken; [exact Hor |] | done]).
  - injection Hr as <-. eexists. split; [reflexivity |].
    split; [eapply db_sim_weaken; [exact Hor | by apply drop_object_sim] |].
    destruct Hs, Ht. split; split; try done; intros a o; cbn; rewrite lookup_delete_Some; intros [_ ?]; eauto.
  - injection Hr as <-. eexists. split; [reflexivity |]. split_and!; [| by apply revert_obj_wf | by apply revert_obj_wf].
    eapply (revert_obj_sim cmp); [done | done | done | | | exact He].
    + intros b Hb. destruct (Z.eqb_spec account b); [done | by rewrite orb_false_r].
    + intros o p H. cbn -[Z.eqb]. rewrite Z.eqb_refl, orb_true_r. by eapply sim_setCode.
  - injection Hr as <-. eexists. split; [reflexivity |]. eapply db_sim_weaken in He; [| exact Hor]. destruct He, Hs, Ht.
    split_and!; split; try done. intros a. specialize (de_live0 a). by rewrite !live_eq in *.
  - outcome_inv. destruct (pop_log_equiv (logs s) (logs t) txhash r) as (m & -> & Hm); [apply He | done |].
    eexists. split; [reflexivity |]. eapply db_sim_weaken in He; [| exact Hor]. destruct He, Hs, Ht.
    split_and!; split; try done; try apply u64_range; [cbn; by rewrite de_logSize0 |].
    intros a. specialize (de_live0 a). by rewrite !live_eq in *.
  - injection Hr as <-. eexists. split; [reflexivity |]. eapply db_sim_weaken in He; [| exact Hor]. destruct He, Hs, Ht.
    split_and!; split; try done.
    + intros a k. unfold GetTransientState in *. cbn. by rewrite !transient_Get_Set, de_transient0.
    + intros a. specialize (de_live0 a). by rewrite !live_eq in *.
Qed.

Lemma undo_sim cmp es s t s' :
  db_wf s -> db_wf t -> db_sim cmp s t -> for_each Revert s es = Ret s' ->
  exists t', for_each Revert t es = Ret t' /\ db_sim (fun a => cmp a || code_changed es a) s' t' /\ db_wf s' /\ db_wf t'.
Proof.
  revert cmp s t. induction es as [| e es IH]; intros cmp s t Hs Ht He Hr; cbn in Hr |- *.
  - outcome_inv. eexists. split_and!; [done | | done | done]. eapply db_sim_weaken; [| done]. intros a. by rewrite orb_false_r.
  - outcome_inv. destruct (Revert_proper cmp s t e r Hs Ht He) as (t1 & -> & He1 & Hs1 & Ht1); [done |].
    cbn. destruct (IH _ r t1 Hs1 Ht1 He1) as (t' & -> & Hst & Hw); [done |]. eexists. split_and!; [done | | apply Hw | apply Hw].
    eapply db_sim_weaken; [| done]. intros a. by rewrite orb_assoc.
Qed.

Lemma undo_proper es s t s' :
  db_wf s -> db_wf t -> db_sim (fun _ => true) s t -> for_each Revert s es = Ret s' ->
  exists t', for_each Revert t es = Ret t' /\ db_sim (fun _ => true) s' t' /\ db_wf s' /\ db_wf t'.
Proof.
  intros Hs Ht He Hr. destruct (undo_sim _ es s t s' Hs Ht He Hr) as (t' & Ht' & Hst & Hw).
  exists t'. split_and!; [done | by eapply db_sim_weaken; [| done] | apply Hw | apply Hw].
Qed.
End Similarity.
