(* ===== verification/StateDBProofs.v ===== *)
(** * Snapshots of the account state are exact

    Every operation of [StateDB.v] appends to the journal the entries that undo it
    ([journalled_by]), and [RevertToSnapshot] gives back a state that cannot be told
    apart from that of the snapshot, after any run of operations, nested snapshots and
    reverts included. *)
From Stdlib Require Import ZArith Lia.
From stdpp Require Import base gmap strings list fin_maps.
From S2P Require Import Prelude Utils JournalTypes AccessList StateDB StateDBSim.

(** The code of an object with its hash. *)
Definition obj_code `{rd : StateReader} (o : stateObject) : Z * list Z := (sa_CodeHash (data o), code_of o).

(** The code of an account with its hash; a missing account has none. *)
Definition code_or_empty `{rd : StateReader} (s : StateDB) (a : Z) : Z * list Z :=
  match live s a with Some o => obj_code o | None => (EmptyCodeHash, []) end.

(** What entries from [s] to [s'] say of code: it is the same, or it changed where there
    was none before, to something [good]. *)
Definition codes_kept `{rd : StateReader} (good : Z * list Z -> Prop) (s : StateDB) (es : list JournalEntry) (s' : StateDB)
  : Prop :=
  forall a, if code_changed es a then code_or_empty s a = (EmptyCodeHash, []) /\ good (code_or_empty s' a)
            else code_or_empty s' a = code_or_empty s a.

Section Journalled.
Context `{cfg : Config} `{rd : StateReader} `{env : NodeEnv} (bal : Z -> Z) (good : Z * list Z -> Prop).

#[local] Abbreviation sim := (db_sim bal (fun _ => true)).
#[local] Abbreviation osim := (obj_sim bal true).

(** ** Operations are undone by their own entries *)

(** [s'] was reached from [s] by appending entries of this shard that undo to [s]. *)
Definition journalled (s s' : StateDB) : Prop :=
  db_wf s' /\ ValidRevisions (jrnl s') = ValidRevisions (jrnl s) /\
  nextRevisionId (jrnl s') = nextRevisionId (jrnl s) /\
  exists es s'', Entries (jrnl s') = Entries (jrnl s) ++ es /\ Forall (fun e => GetShardID e = ShardID) es /\
    for_each Revert s' (rev es) = Ret s'' /\ db_wf s'' /\ sim s'' s /\ codes_kept good s es s'.



(** The same code is read from states that cannot be told apart. *)
Lemma code_or_empty_sim s t a : sim s t -> code_or_empty s a = code_or_empty t a.
Proof.
  intros H. unfold code_or_empty, obj_code. destruct (de_live _ _ _ _ H a) as [o p Ho |]; [| done].
  destruct (view_inv _ _ _ _ (oe_data _ _ _ _ _ Ho)) as (_ & _ & _ & ->); [| done]. by rewrite (oe_code _ _ _ _ _ Ho).
Qed.

Lemma code_changed_app es fs a : code_changed (es ++ fs) a = code_changed es a || code_changed fs a.
Proof. apply existsb_app. Qed.

Lemma codes_kept_trans s1 es s2 fs s3 : codes_kept good s1 es s2 -> codes_kept good s2 fs s3 -> codes_kept good s1 (es ++ fs) s3.
Proof.
  intros H1 H2 a. specialize (H1 a). specialize (H2 a). rewrite code_changed_app.
  destruct (code_changed es a), (code_changed fs a); cbn; repeat match goal with H : _ /\ _ |- _ => destruct H end;
    (split; congruence) || congruence.
Qed.

Lemma journalled_cache s s' : db_wf s' -> jrnl s' = jrnl s -> sim s' s -> journalled s s'.
Proof.
  intros Hw Hj He. unfold journalled. rewrite Hj. split_and!; [done.. |]. exists [], s'.
  rewrite app_nil_r. split_and!; [done.. |]. intros a. by apply code_or_empty_sim.
Qed.

Lemma journalled_refl s : db_wf s -> journalled s s.
Proof. intros. by apply journalled_cache. Qed.

Lemma journalled_trans s1 s2 s3 : db_wf s1 -> journalled s1 s2 -> journalled s2 s3 -> journalled s1 s3.
Proof.
  intros Hw (Hw2 & Hv & Hn & es & t1 & Hes & Hown & Hr & Hwt & Het & Hc)
            (Hw3 & Hv' & Hn' & fs & t2 & Hfs & Hown' & Hr' & Hwt' & Het' & Hc').
  destruct (undo_proper bal (rev es) s2 t2 t1) as (t3 & Hr3 & He3 & _ & Hw3'); [done.. | by symmetry | done |].
  split_and!; [done | congruence | congruence |]. exists (es ++ fs), t3.
  split_and!; [by rewrite Hfs, Hes, app_assoc | by apply Forall_app | | done | by rewrite <- He3 | by eapply codes_kept_trans].
  rewrite rev_app_distr, for_each_app, Hr'. done.
Qed.

Lemma journalled_entry s s' s'' e :
  db_wf s' -> jrnl s' = journal_append (jrnl s) e -> GetShardID e = ShardID ->
  Revert s' e = Ret s'' -> db_wf s'' -> sim s'' s -> codes_kept good s [e] s' -> journalled s s'.
Proof.
  intros Hw Hj Hsh Hr Hw' He Hc. unfold journalled. rewrite Hj.
  assert (Hja : Entries (journal_append (jrnl s) e) = Entries (jrnl s) ++ [e] /\
    ValidRevisions (journal_append (jrnl s) e) = ValidRevisions (jrnl s) /\
    nextRevisionId (journal_append (jrnl s) e) = nextRevisionId (jrnl s)).
  { unfold journal_append. by destruct (dirtied e). }
  destruct Hja as (-> & -> & ->). split_and!; [done.. |]. exists [e], s''.
  split_and!; [done | by constructor | | done | done | done]. cbn. by rewrite Hr.
Qed.

(** An entry that is no change of code, between states with the same objects. *)
Lemma codes_kept_live s e s' :
  (forall a, changes_code a e = false) -> (forall a, code_or_empty s' a = code_or_empty s a) -> codes_kept good s [e] s'.
Proof. intros He Hl a. unfold code_changed. cbn -[code_or_empty]. rewrite He. apply Hl. Qed.

Lemma journalled_load s a : db_wf s -> journalled s (fst (getStateObject s a)).
Proof.
  intros Hw. destruct (load_spec s a) as (m & -> & Hl & _ & Hm). apply journalled_cache; [by apply Hm | done |].
  apply sim_objects; try done. intros b. rewrite Hl. destruct (live s b); constructor. done.
Qed.

Lemma live_load s a b : live (fst (getStateObject s a)) b = live s b.
Proof. destruct (load_spec s a) as (m & -> & Hl & _). apply Hl. Qed.

Lemma code_of_setBalance o v : code_of (obj_setBalance o v) = code_of o.
Proof. by rewrite !code_of_eq. Qed.

Lemma code_of_setNonce o n : code_of (obj_setNonce o n) = code_of o.
Proof. by rewrite !code_of_eq. Qed.

Lemma code_of_set_flags o x y : code_of (obj_set_flags o x y) = code_of o.
Proof. by rewrite !code_of_eq. Qed.

Lemma code_of_setState o k v og : code_of (obj_setState o k v og) = code_of o.
Proof. by rewrite !code_of_eq. Qed.

(** An edit [f] of a live object, journalled by an entry whose revert applies [g]. *)
Lemma journalled_edit s a o e f g :
  db_wf s -> live s a = Some o -> GetShardID e = ShardID -> (forall o, address (f o) = address o) ->
  (forall o, address (g o) = address o) ->
  (forall t, Revert t e = Ret (revert_obj t a g)) -> osim (destructed_at s a) (g (f o)) o ->
  (forall b, b <> a -> changes_code b e = false) ->
  (if changes_code a e then obj_code o = (EmptyCodeHash, []) /\ good (obj_code (f o)) else obj_code (f o) = obj_code o) ->
  journalled s (setStateObject (record_entry s e) (f o)).
Proof.
  intros Hw Hl Hsh Hf Hg Hr He Hother Hcode. pose proof (live_address s a o Hw Hl) as Ha.
  set (s' := setStateObject (record_entry s e) (f o)).
  assert (Hw' : db_wf s') by by apply put_wf, wf_journal.
  assert (Hl' : forall b, live s' b = if decide (b = a) then Some (f o) else live s b).
  { intros b. unfold s'. rewrite live_put, Hf, Ha. unfold record_entry. by rewrite live_journal. }
  eapply journalled_entry; [done | done | done | apply Hr | by apply revert_obj_wf | |].
  - destruct (revert_obj_spec s' a g Hw' Hg) as (m & -> & _ & Hm). apply sim_objects; try done.
    intros b. rewrite Hm. change (destructed_at (db_objects s' m) b) with (destructed_at s b).
    destruct (decide (b = a)) as [-> | Hne].
    + rewrite Hl', decide_True, Hl by done. constructor. done.
    + rewrite Hl', decide_False by done. destruct (live s b); constructor. done.
  - intros b. unfold code_changed, code_or_empty. cbn. rewrite orb_false_r, Hl'.
    destruct (decide (b = a)) as [-> | Hne]; [by rewrite Hl | by rewrite Hother].
Qed.

(** What is seen of a balance survives the 64 bits the journal keeps. *)
Definition kept (b : Z) : Prop := bal (u64 b) = bal b.

Lemma journalled_setBalance s a o v :
  db_wf s -> live s a = Some o -> kept (sa_Balance (data o)) -> journalled s (obj_SetBalance s o v).
Proof.
  intros Hw Hl Hb. unfold obj_SetBalance. pose proof (live_address s a o Hw Hl) as Ha.
  eapply (journalled_edit s a o _ (fun o => obj_setBalance o v) (fun p => obj_setBalance p (u64 (sa_Balance (data o)))));
    [done.. | | | done |].
  - intros t. cbn. by rewrite Ha.
  - eapply (sim_keep_storage bal true); [reflexivity | done | done | done | | | done | done].
    + unfold view. cbn. by rewrite Hb.
    + intros _. by rewrite !code_of_setBalance.
  - cbn. unfold obj_code. by rewrite code_of_setBalance.
Qed.

Lemma journalled_setNonce s a o v : db_wf s -> live s a = Some o -> journalled s (obj_SetNonce s o v).
Proof.
  intros Hw Hl. unfold obj_SetNonce. pose proof (live_address s a o Hw Hl) as Ha.
  eapply (journalled_edit s a o _ (fun o => obj_setNonce o v) (fun p => obj_setNonce p (sa_Nonce (data o))));
    [done.. | | | done |].
  - intros t. cbn. by rewrite Ha.
  - destruct o as [? ? [] ? ? ? ? ? ? ? ?]. cbn in *. done.
  - cbn. unfold obj_code. by rewrite code_of_setNonce.
Qed.

Lemma journalled_setCode s a o h c :
  db_wf s -> live s a = Some o -> obj_code o = (EmptyCodeHash, []) -> good (obj_code (obj_setCode o h c)) ->
  journalled s (obj_SetCode s o h c).
Proof.
  intros Hw Hl Hc Hgood. unfold obj_SetCode. pose proof (live_address s a o Hw Hl) as Ha. pose proof Hc as Hc'. injection Hc as Hh Hc.
  eapply (journalled_edit s a o _ (fun o => obj_setCode o h c) (fun o => obj_setCode o EmptyCodeHash []));
    [done.. | | | |].
  - intros t. cbn. by rewrite Ha.
  - eapply (sim_keep_storage bal true); [reflexivity | done | done | done | | | done | done].
    + unfold view. cbn. by rewrite Hh.
    + intros _. by rewrite Hc, code_of_eq.
  - intros b Hb. cbn. apply Z.eqb_neq. congruence.
  - cbn -[Z.eqb]. by rewrite Ha, Z.eqb_refl.
Qed.

(** A live object replaced by one that cannot be told apart. *)
Lemma sim_put s a o o1 :
  db_wf s -> live s a = Some o -> osim (destructed_at s a) o1 o -> sim (setStateObject s o1) s.
Proof.
  intros Hw Hl He. assert (Ha : address o1 = a) by (rewrite (oe_address _ _ _ _ _ He); by apply (live_address s)).
  apply sim_objects; try done.
  intros b. rewrite live_put, Ha. change (destructed_at (setStateObject s o1) b) with (destructed_at s b).
  destruct (decide (b = a)) as [-> |]; [rewrite Hl; by constructor | by destruct (live s b); constructor].
Qed.

Lemma journalled_setState s a o k v : db_wf s -> live s a = Some o -> journalled s (obj_SetState s o k v).
Proof.
  intros Hw Hl. unfold obj_SetState. pose proof (live_address s a o Hw Hl) as Ha. rewrite Ha.
  destruct (obj_getState_spec bal true (destructed_at s a) o k) as (o1 & -> & He1).
  assert (Hput : journalled s (setStateObject s o1)).
  { apply journalled_cache; [by apply put_wf | done | by eapply sim_put]. }
  destruct (Z.eqb_spec (current (destructed_at s a) o k) v) as [_ | Hne]; [done |].
  set (e := StorageChange a k _ _ v ShardID). set (s1 := setStateObject s o1) in *.
  assert (Hs1 : live s1 a = Some o1).
  { unfold s1. rewrite live_put. rewrite decide_True; [done | by rewrite (oe_address _ _ _ _ _ He1)]. }
  apply (journalled_trans s s1); [done | done |].
  replace (setStateObject (record_entry s e) (obj_setState o1 k v (committed (destructed_at s a) o k)))
    with (setStateObject (record_entry s1 e) (obj_setState o1 k v (committed (destructed_at s a) o k))).
  2: { unfold s1, setStateObject, record_entry, db_objects, db_journal. cbn. by rewrite insert_insert_eq. }
  eapply (journalled_edit s1 a o1 e (fun o1 => obj_setState o1 k v (committed (destructed_at s a) o k))
            (fun p => obj_setState p k (current (destructed_at s a) o k) (committed (destructed_at s a) o k)));
    [by apply Hput | done | done | done | done | done | | done |].
  2: { cbn. unfold obj_code. by rewrite code_of_setState. }
  change (destructed_at s1 a) with (destructed_at s a). split; try done.
  - intros _. by rewrite !code_of_setState.
  - intros l. by rewrite !committed_setState.
  - intros l. rewrite !current_setState. destruct (decide (l = k)) as [-> |]; [| done].
    rewrite committed_setState, (oe_current _ _ _ _ _ He1), (oe_committed _ _ _ _ _ He1).
    destruct (Z.eqb_spec (current (destructed_at s a) o k) (committed (destructed_at s a) o k)); congruence.
Qed.

Lemma journalled_flags s a o e x y x' y' :
  db_wf s -> live s a = Some o -> GetShardID e = ShardID -> (forall b, changes_code b e = false) ->
  (forall t, Revert t e = Ret (revert_obj t a (fun p => obj_set_flags p (x' (selfDestructed p)) (y' (newContract p))))) ->
  x' x = selfDestructed o -> y' y = newContract o ->
  journalled s (setStateObject (record_entry s e) (obj_set_flags o x y)).
Proof.
  intros Hw Hl Hsh Hno Hr Hx Hy.
  eapply (journalled_edit s a o e (fun p => obj_set_flags p x y)); [done | done | done | done | | exact Hr | | done |]; [done | |].
  - eapply (sim_keep_storage bal true); [reflexivity | done | done | done | done | | done | done].
    intros _. by rewrite !code_of_set_flags.
  - rewrite Hno. unfold obj_code. by rewrite code_of_set_flags.
Qed.

Lemma journalled_create s a s' o :
  db_wf s -> live s a = None -> createObject s a = Ret (s', o) ->
  journalled s s' /\ live s' a = Some o /\ MustFromBig Init_Balance = Ret (sa_Balance (data o)) /\
  (forall b, b <> a -> live s' b = live s b) /\ obj_code o = (EmptyCodeHash, []).
Proof.
  intros Hw Hl Hc. unfold createObject in Hc.
  destruct (MustFromBig Init_Balance) as [r |] eqn:Er; cbn in Hc; [injection Hc as <- <- | discriminate].
  set (o := obj_setBalance (newObject a None) r).
  set (s' := setStateObject (record_entry s (CreateObjectChange a ShardID)) o).
  assert (Hso : stateObjects s !! a = None).
  { rewrite live_eq in Hl. by destruct (stateObjects s !! a). }
  assert (Hl' : forall b, live s' b = if decide (b = a) then Some o else live s b).
  { intros b. unfold s'. rewrite live_put. unfold record_entry. by rewrite live_journal. }
  split_and!; [| by rewrite Hl', decide_True | done | | by unfold obj_code; rewrite code_of_eq].
  - eapply journalled_entry; [by apply put_wf, wf_journal | done | done | done | | |].
    + split; [| apply Hw]. cbn. rewrite delete_insert_id by done. apply Hw.
    + cbn. unfold setStateObject, db_objects, record_entry. cbn. rewrite delete_insert_id by done.
      apply (sim_journal bal _ s s). done.
    + apply codes_kept_live; [done |]. intros b. unfold code_or_empty. rewrite Hl'.
      case_decide as Hb; [| done]. subst b. rewrite Hl. unfold obj_code. by rewrite code_of_eq.
  - intros b Hb. by rewrite Hl', decide_False.
Qed.

Lemma getOrNew_spec s a s' o :
  db_wf s -> getOrNewStateObject s a = Ret (s', o) ->
  journalled s s' /\ live s' a = Some o /\
  match live s a with
  | Some p => p = o
  | None => MustFromBig Init_Balance = Ret (sa_Balance (data o)) /\ obj_code o = (EmptyCodeHash, [])
  end.
Proof.
  intros Hw Hg. unfold getOrNewStateObject in Hg. pose proof (journalled_load s a Hw) as Hj.
  pose proof (live_load s a a) as Hla. unfold live in Hla at 2. unfold live at 2.
  destruct (getStateObject s a) as [s1 [p |]] eqn:E; cbn in *.
  - injection Hg as <- <-. done.
  - destruct (journalled_create s1 a s' o) as (H1 & H2 & Hb & _ & H3); [apply Hj | done | done |].
    split_and!; [by eapply journalled_trans | done..].
Qed.

(** ** The revert loop *)

Lemma Revert_journal s j e :
  Revert (db_journal s j) e = (s' ← Revert s e; Ret (db_journal s' j)).
Proof.
  assert (Hobj : forall a f, revert_obj (db_journal s j) a f = db_journal (revert_obj s a f) j).
  { intros a f. unfold revert_obj, getStateObject. cbn. destruct (stateObjects s !! a); [done |].
    destruct (stateObjectsDestruct s !! a); [done |]. by destruct (reader_Account a). }
  destruct e; cbn -[revert_obj slice]; rewrite ?Hobj; try done.
  destruct (zlen (default [] (logs s !! txhash)) =? 1); [done |].
  by destruct (slice _ _ _).
Qed.

Lemma Revert_jrnl s e s' : Revert s e = Ret s' -> jrnl s' = jrnl s.
Proof.
  assert (Hobj : forall a f, jrnl (revert_obj s a f) = jrnl s).
  { intros a f. unfold revert_obj, getStateObject. destruct (stateObjects s !! a); [done |].
    destruct (stateObjectsDestruct s !! a); [done |]. by destruct (reader_Account a). }
  destruct e; cbn -[revert_obj slice]; try (intros [= <-]; by rewrite ?Hobj).
  intros Hr. outcome_inv. done.
Qed.

Lemma undo_jrnl es s s' : for_each Revert s es = Ret s' -> jrnl s' = jrnl s.
Proof.
  intros Hr. eapply (for_each_inv (fun t => jrnl t = jrnl s)); [done | | done].
  intros t e t1 _ Ht H1. by rewrite (Revert_jrnl t e t1).
Qed.

Lemma undo_journal es s j :
  for_each Revert (db_journal s j) es = (s' ← for_each Revert s es; Ret (db_journal s' j)).
Proof.
  revert s. induction es as [| e es IH]; intros s; cbn; [done |].
  rewrite Revert_journal. destruct (Revert s e); cbn; [apply IH | done].
Qed.

(** The entries of this shard, which are undone here, and the requests for the others. *)
Definition own (es : list JournalEntry) : list JournalEntry := filter (fun e => GetShardID e = ShardID) es.
Definition requests (es : list JournalEntry) : list RollbackMsg :=
  flat_map (fun e => if GetShardID e =? ShardID then [] else rollback_msgs e) es.

Lemma own_app es fs : own (es ++ fs) = own es ++ own fs.
Proof. apply filter_app. Qed.

Lemma own_rev es : own (rev es) = rev (own es).
Proof.
  induction es as [| e es IH]; [done |]. change (e :: es) with ([e] ++ es) at 2. cbn [rev].
  rewrite !own_app, rev_app_distr, IH. f_equal. unfold own. rewrite filter_cons, filter_nil. by case_decide.
Qed.

Lemma own_all es : Forall (fun e => GetShardID e = ShardID) es -> own es = es.
Proof. induction 1 as [| e es He _ IH]; [done |]. unfold own in *. by rewrite filter_cons, decide_True, IH. Qed.

Lemma requests_own es : Forall (fun e => GetShardID e = ShardID) es -> requests es = [].
Proof. induction 1 as [| e es He _ IH]; [done |]. cbn. rewrite He, Z.eqb_refl. exact IH. Qed.

(** The loop is the plain undo of this shard's entries. *)
Lemma revert_entries_spec es s :
  revert_entries s es =
  (s' ← for_each Revert s (own es); Ret (db_journal s' (fold_left undirty es (jrnl s)), requests es)).
Proof.
  revert s. induction es as [| e es IH]; intros s; cbn -[own requests]; [by destruct s |].
  change (requests (e :: es)) with ((if GetShardID e =? ShardID then [] else rollback_msgs e) ++ requests es).
  unfold own at 1. rewrite filter_cons. fold (own es).
  destruct (Z.eqb_spec (GetShardID e) ShardID) as [He | He]; [rewrite decide_True by done | rewrite decide_False by done]; cbn -[own requests].
  - destruct (Revert s e) as [s1 |] eqn:E; cbn -[own requests]; [| done].
    rewrite IH, undo_journal by done. destruct (for_each Revert s1 (own es)) as [s2 |]; cbn -[own requests]; [| done].
    by rewrite (Revert_jrnl s e s1 E).
  - rewrite IH, undo_journal by done. by destruct (for_each Revert s (own es)).
Qed.

Lemma undirty_rest es j :
  Entries (fold_left undirty es j) = Entries j /\ ValidRevisions (fold_left undirty es j) = ValidRevisions j /\
  nextRevisionId (fold_left undirty es j) = nextRevisionId j.
Proof.
  revert j. induction es as [| e es IH]; intros j; cbn; [done |].
  destruct (IH (undirty j e)) as (-> & -> & ->). unfold undirty. by destruct (dirtied e).
Qed.

Lemma journal_revert_spec s l es s'' :
  Entries (jrnl s) = l ++ es -> for_each Revert s (rev (own es)) = Ret s'' ->
  exists j, journal_revert s (zlen l) = Ret (db_journal s'' j, requests (rev es)) /\ Entries j = l /\
    ValidRevisions j = ValidRevisions (jrnl s) /\ nextRevisionId j = nextRevisionId (jrnl s).
Proof.
  intros Hes Hr. unfold journal_revert, zlen. rewrite Nat2Z.id, Hes, drop_app_length.
  rewrite revert_entries_spec, own_rev, Hr. cbn -[slice].
  destruct (undirty_rest (rev es) (jrnl s)) as (-> & -> & ->).
  rewrite Hes. change (Z.of_nat (length l)) with (zlen l). rewrite slice_prefix. cbn. eauto.
Qed.

Lemma journal_revert_own s l es s'' :
  Entries (jrnl s) = l ++ es -> Forall (fun e => GetShardID e = ShardID) es ->
  for_each Revert s (rev es) = Ret s'' ->
  exists j, journal_revert s (zlen l) = Ret (db_journal s'' j, []) /\ Entries j = l /\
    ValidRevisions j = ValidRevisions (jrnl s) /\ nextRevisionId j = nextRevisionId (jrnl s).
Proof.
  intros Hes Hown Hr. rewrite <- (requests_own (rev es)) by by apply Forall_rev.
  apply journal_revert_spec; [done | by rewrite own_all].
Qed.

(** ** Operations *)

(** What is seen of the balance of an account, of a new one if it is missing, survives. *)
Definition balance_kept (s : StateDB) (a : Z) : Prop :=
  match live s a with
  | Some o => kept (sa_Balance (data o))
  | None => forall b, MustFromBig Init_Balance = Ret b -> kept b
  end.

Lemma getOrNew_kept s a s' o :
  db_wf s -> balance_kept s a -> getOrNewStateObject s a = Ret (s', o) ->
  journalled s s' /\ live s' a = Some o /\ kept (sa_Balance (data o)).
Proof.
  intros Hw Hf Hg. destruct (getOrNew_spec s a s' o Hw Hg) as (Hj & Hl & Hc). split_and!; [done.. |].
  unfold balance_kept in Hf. destruct (live s a) as [p |]; [by subst p |]. by apply Hf, Hc.
Qed.

Lemma code_or_empty_journal s j a : code_or_empty (db_journal s j) a = code_or_empty s a.
Proof. unfold code_or_empty. by rewrite live_journal. Qed.

Lemma journalled_touch s a o : db_wf s -> live s a = Some o -> journalled s (touch s o).
Proof.
  intros Hw Hl. unfold touch. set (e := TouchChange _ _). set (s1 := record_entry s e).
  assert (Hj : journalled s s1).
  { eapply (journalled_entry s s1 s1 e); [by apply wf_journal | done | done | done | by apply wf_journal | |].
    - by apply sim_journal.
    - apply codes_kept_live; [done |]. intros b. apply code_or_empty_journal. }
  destruct (address o =? 3); [| done].
  destruct Hj as (Hw1 & Hv & Hn & es & s'' & Hes & Hown & Hr & Hw'' & He & Hc).
  split_and!; [by apply wf_journal | done | done |]. exists es, (db_journal s'' (journal_dirty (jrnl s1) 3)).
  split_and!; [done | done | by rewrite undo_journal, Hr | by apply wf_journal | by apply sim_journal |].
  intros b. specialize (Hc b). by rewrite code_or_empty_journal.
Qed.

Lemma AddBalance_journalled s a v s' :
  db_wf s -> balance_kept s a -> AddBalance s a v = Ret s' -> journalled s s'.
Proof.
  intros Hw Hf Hr. unfold AddBalance in Hr. apply bind_Ret_inv in Hr as ([s1 o] & Hg & Hr).
  destruct (getOrNew_kept s a s1 o Hw Hf Hg) as (Hj & Hl & Hb).
  assert (Hw1 : db_wf s1) by apply Hj.
  destruct (v =? 0).
  - destruct (obj_empty o); injection Hr as <-; [| done].
    eapply journalled_trans; [done | done |]. by eapply journalled_touch.
  - injection Hr as <-. eapply journalled_trans; [done | done |]. by eapply journalled_setBalance.
Qed.

Lemma SubBalance_journalled s a v s' :
  db_wf s -> balance_kept s a -> SubBalance s a v = Ret s' -> journalled s s'.
Proof.
  intros Hw Hf Hr. unfold SubBalance in Hr. apply bind_Ret_inv in Hr as ([s1 o] & Hg & Hr).
  destruct (getOrNew_kept s a s1 o Hw Hf Hg) as (Hj & Hl & Hb).
  assert (Hw1 : db_wf s1) by apply Hj.
  destruct (v =? 0); injection Hr as <-; [done |].
  eapply journalled_trans; [done | done |]. by eapply journalled_setBalance.
Qed.

Lemma SelfDestruct_journalled s a : db_wf s -> balance_kept s a -> journalled s (SelfDestruct s a).
Proof.
  intros Hw Hf. unfold SelfDestruct. pose proof (journalled_load s a Hw) as Hj.
  pose proof (live_load s a a) as Hla. unfold balance_kept in Hf. unfold live in Hf, Hla at 2.
  destruct (getStateObject s a) as [s1 [o |]]; cbn in *; [| done].
  assert (Hw1 : db_wf s1) by apply Hj.
  assert (Hflag : forall t p, journalled s t -> live t a = Some p ->
    journalled s (if selfDestructed p then t
                  else setStateObject (record_entry t (SelfDestructChange a ShardID)) (obj_set_flags p true (newContract p)))).
  { intros t p Ht Hlt. destruct (selfDestructed p) eqn:Ed; [done |]. eapply journalled_trans; [done | done |].
    eapply (journalled_flags t a p _ _ _ (fun _ => false) id); [apply Ht | done | done | done | done | done | done]. }
  destruct (sa_Balance (data o) =? 0); [by apply Hflag |]. apply Hflag.
  - eapply journalled_trans; [done | done |]. by eapply journalled_setBalance.
  - unfold obj_SetBalance. rewrite live_put. cbn. by rewrite (live_address s1 a o Hw1 Hla), decide_True.
Qed.

Lemma journalled_simple s s' s'' e :
  db_wf s -> stateObjects s' = stateObjects s -> jrnl s' = journal_append (jrnl s) e -> GetShardID e = ShardID ->
  is_u64 (logSize s') -> Revert s' e = Ret s'' -> stateObjects s'' = stateObjects s -> is_u64 (logSize s'') ->
  sim s'' s -> stateObjectsDestruct s' = stateObjectsDestruct s -> (forall a, changes_code a e = false) -> journalled s s'.
Proof.
  intros [Hw Hn] Ho Hj Hsh Hn' Hr Ho' Hn'' He Hd Hno. eapply journalled_entry; try done.
  - split; [by rewrite Ho | done].
  - split; [by rewrite Ho' | done].
  - apply codes_kept_live; [done |]. intros a. unfold code_or_empty. rewrite !live_eq. unfold destructed_at. by rewrite Ho, Hd.
Qed.

Lemma AddLog_journalled s c : db_wf s -> journalled s (AddLog s c).
Proof.
  intros Hw. set (l := default [] (logs s !! thash s)). set (x := mkLogEntry (thash s) (txIndex s) (logSize s) c).
  destruct (pop_log_spec (<[thash s := l ++ [x]]> (logs s)) (thash s) l x) as (m' & Hm & Hp);
    [by rewrite lookup_insert_eq |].
  pose proof (wf_logSize s Hw) as Hn.
  eapply (journalled_simple s (AddLog s c) _ (AddLogChange (thash s) ShardID)); [done | done | done | done | | | | | | done | done].
  - apply u64_range.
  - rewrite Revert_log. cbn. fold l. fold x. rewrite Hm. cbn. reflexivity.
  - done.
  - apply u64_range.
  - split; try done.
    + cbn. intros h. rewrite Hp. destruct (decide (h = thash s)) as [-> |]; [done |]. by rewrite lookup_insert_ne.
    + cbn. unfold u64, is_u64 in *. rewrite Zminus_mod_idemp_l. rewrite Z.mod_small; lia.
    + intros a. rewrite (live_eq s). rewrite live_eq. cbn. unfold destructed_at. cbn. by case_match.
Qed.

Lemma SetTransient_journalled s a k v : db_wf s -> journalled s (SetTransientState s a k v).
Proof.
  intros Hw. unfold SetTransientState. destruct (GetTransientState s a k =? v); [by apply journalled_refl |].
  eapply (journalled_simple s _ _ (TransientStorageChange a k (GetTransientState s a k) v ShardID));
    [done | done | done | done | apply Hw | reflexivity | done | apply Hw | | done | done].
  split; try done.
  - intros b l. unfold GetTransientState. cbn. rewrite !transient_Get_Set. by case_decide as Hd; [destruct Hd; subst |].
  - intros b. rewrite (live_eq s), live_eq. cbn. unfold destructed_at. cbn. by case_match.
Qed.

Lemma refund_journalled s i r : db_wf s -> journalled s (db_refund (record_entry s (RefundChange (refund s) i ShardID)) r).
Proof.
  intros Hw. eapply (journalled_simple s _ _ (RefundChange (refund s) i ShardID));
    [done | done | done | done | apply Hw | reflexivity | done | apply Hw | | done | done].
  split; try done. intros b. rewrite (live_eq s), live_eq. cbn. unfold destructed_at. cbn. by case_match.
Qed.

Lemma journalled_access s al : db_wf s -> journalled s (db_access s al).
Proof. intros Hw. apply journalled_cache; [by apply wf_access | done | by apply sim_access]. Qed.

Lemma access_journalled s e :
  db_wf s -> GetShardID e = ShardID -> (forall t, Revert t e = Ret t) -> (forall a, changes_code a e = false) ->
  journalled s (record_entry s e).
Proof.
  intros Hw Hsh Hr Hno. eapply (journalled_entry s); [by apply wf_journal | done | done | apply Hr | by apply wf_journal | |].
  - by apply sim_journal.
  - apply codes_kept_live; [done |]. intros b. apply code_or_empty_journal.
Qed.

Lemma AddAddressToAccessList_journalled s a : db_wf s -> journalled s (AddAddressToAccessList s a).
Proof.
  intros Hw. unfold AddAddressToAccessList. destruct (AddAddress (access s) a) as [al [|]].
  - eapply journalled_trans; [done | by apply journalled_access |]. by apply access_journalled; [apply wf_access | ..].
  - by apply journalled_access.
Qed.

Lemma SetBalance_journalled s a v s' :
  db_wf s -> balance_kept s a -> SetBalance s a v = Ret s' -> journalled s s'.
Proof.
  intros Hw Hok Hr. apply bind_Ret_inv in Hr as ([s1 o] & Hg & [= <-]).
  destruct (getOrNew_kept s a s1 o Hw Hok Hg) as (Hj & Hl & Hb).
  eapply journalled_trans; [done | done |]. eapply journalled_setBalance; [apply Hj | done..].
Qed.

Lemma SetCode_journalled s a c s' :
  db_wf s -> code_or_empty s a = (EmptyCodeHash, []) ->
  (forall o, good (obj_code (obj_setCode o (Keccak256Hash c) c))) ->
  SetCode s a c = Ret s' -> journalled s s'.
Proof.
  intros Hw Hok Hgood Hr. apply bind_Ret_inv in Hr as ([s1 o] & Hg & [= <-]).
  destruct (getOrNew_spec s a s1 o Hw Hg) as (Hj & Hl & Hc).
  eapply journalled_trans; [done | done |].
  unfold code_or_empty in Hok. eapply journalled_setCode; [apply Hj | done | |]; destruct (live s a);
    [by subst | apply Hc | apply Hgood | apply Hgood].
Qed.

Lemma Selfdestruct6780_journalled s a :
  db_wf s -> balance_kept s a -> journalled s (Selfdestruct6780 s a).
Proof.
  intros Hw Hok. unfold Selfdestruct6780. pose proof (journalled_load s a Hw) as Hj.
  pose proof (live_load s a a) as Hl. destruct (getStateObject s a) as [s1 [o |]] eqn:E; cbn in *; [| done].
  destruct (newContract o); [| done]. eapply journalled_trans; [done | done |].
  apply SelfDestruct_journalled; [apply Hj |]. unfold balance_kept in *. by rewrite Hl.
Qed.

Lemma CreateContract_journalled s a s' :
  db_wf s -> CreateContract s a = Ret s' -> journalled s s'.
Proof.
  intros Hw Hr. unfold CreateContract in Hr. pose proof (journalled_load s a Hw) as Hj. pose proof (live_load s a a) as Hl.
  unfold live in Hl at 2. destruct (getStateObject s a) as [s1 [o |]]; cbn in *; [| done].
  destruct (newContract o) eqn:En; injection Hr as <-; [done |]. eapply journalled_trans; [done | done |].
  apply (journalled_flags s1 a o (CreateContractChange a ShardID) (selfDestructed o) true (fun b => b) (fun _ => false));
    [apply Hj | done | done | done | done | done | done].
Qed.

Lemma AddSlotToAccessList_journalled s a k s' :
  db_wf s -> AddSlotToAccessList s a k = Ret s' -> journalled s s'.
Proof.
  intros Hw Hr. unfold AddSlotToAccessList in Hr. apply bind_Ret_inv in Hr as ([al [am sm]] & _ & [= <-]).
  assert (H1 : forall b e t, journalled s t -> GetShardID e = ShardID -> (forall t, Revert t e = Ret t) ->
    (forall a, changes_code a e = false) -> journalled s (if b : bool then record_entry t e else t)).
  { intros b e t Ht He Hv Hno. destruct b; [| done]. eapply journalled_trans; [done | done |].
    apply access_journalled; [apply Ht | done | done | done]. }
  by repeat apply H1; [apply journalled_access | ..].
Qed.

End Journalled.

(** ** Runs of operations *)

(** Seen in full. *)
Abbreviation db_equiv := (db_sim (fun z => z) (fun _ => true)).
Abbreviation journalled_exactly := (journalled (fun z => z) (fun _ => True)).

Section Snapshots.
Context `{cfg : Config} `{rd : StateReader} `{env : NodeEnv}.

Inductive db_op :=
| OpAddBalance (a v : Z) | OpSubBalance (a v : Z) | OpSetBalance (a v : Z) | OpGetBalance (a : Z)
| OpSetNonce (a n : Z) | OpSetCode (a : Z) (c : list Z) | OpSetState (a k v : Z)
| OpSelfDestruct (a : Z) | OpSelfdestruct6780 (a : Z) | OpSetTransient (a k v : Z)
| OpAddRefund (g : Z) | OpSubRefund (g : Z) | OpAddLog (c : list Z)
| OpCreateAccount (a : Z) | OpCreateContract (a : Z)
| OpAccessAddress (a : Z) | OpAccessSlot (a k : Z)
| OpSnapshot | OpRevert (revid : Z).

Definition run_op (s : StateDB) (op : db_op) : outcome StateDB :=
  match op with
  | OpAddBalance a v => AddBalance s a v
  | OpSubBalance a v => SubBalance s a v
  | OpSetBalance a v => SetBalance s a v
  | OpGetBalance a => r ← GetBalance s a; Ret (fst r)
  | OpSetNonce a n => SetNonce s a n
  | OpSetCode a c => SetCode s a c
  | OpSetState a k v => SetState s a k v
  | OpSelfDestruct a => Ret (SelfDestruct s a)
  | OpSelfdestruct6780 a => Ret (Selfdestruct6780 s a)
  | OpSetTransient a k v => Ret (SetTransientState s a k v)
  | OpAddRefund g => Ret (AddRefund s g)
  | OpSubRefund g => SubRefund s g
  | OpAddLog c => Ret (AddLog s c)
  | OpCreateAccount a => CreateAccount s a
  | OpCreateContract a => CreateContract s a
  | OpAccessAddress a => Ret (AddAddressToAccessList s a)
  | OpAccessSlot a k => AddSlotToAccessList s a k
  | OpSnapshot => Ret (fst (Snapshot s))
  | OpRevert revid => r ← RevertToSnapshot s revid; Ret (fst r)
  end.

(** The balance of an account (of a new one, if it is missing) fits the 64 bits the
    journal keeps. *)
Definition balance_fits (s : StateDB) (a : Z) : bool :=
  match live s a with
  | Some o => (0 <=? sa_Balance (data o)) && (sa_Balance (data o) <? 2 ^ 64)
  | None => match MustFromBig Init_Balance with Ret b => b <? 2 ^ 64 | Panic _ => true end
  end.

Definition no_code (s : StateDB) (a : Z) : bool :=
  match live s a with
  | Some o => (sa_CodeHash (data o) =? EmptyCodeHash) && bool_decide (code o = [])
  | None => true
  end.

(** What the journal supports: balances of 64 bits, code set where there was none,
    accounts created where there was none, and reverts to later snapshots only. *)
Definition op_ok (id : Z) (s : StateDB) (op : db_op) : bool :=
  match op with
  | OpAddBalance a _ | OpSubBalance a _ | OpSetBalance a _ | OpSelfDestruct a | OpSelfdestruct6780 a => balance_fits s a
  | OpSetCode a _ => no_code s a
  | OpCreateAccount a => bool_decide (live s a = None)
  | OpRevert revid => id <? revid
  | _ => true
  end.

Fixpoint ops_ok (id : Z) (s : StateDB) (ops : list db_op) : bool :=
  match ops with
  | [] => true
  | op :: ops' => op_ok id s op && match run_op s op with Ret s' => ops_ok id s' ops' | Panic _ => false end
  end.

Lemma fits_kept s a : balance_fits s a = true -> balance_kept (fun z => z) s a.
Proof.
  unfold balance_fits, balance_kept, kept. destruct (live s a) as [p |].
  - intros [H1%Z.leb_le H2%Z.ltb_lt]%andb_true_iff. by apply u64_small.
  - intros Hf b Hb. rewrite Hb in Hf. apply Z.ltb_lt in Hf. unfold MustFromBig in Hb.
    destruct (Z.abs Init_Balance <? 2 ^ 256); [| done]. injection Hb as <-.
    apply u64_small. pose proof (u256_range Init_Balance) as [H0 _]. done.
Qed.

Lemma no_code_empty s a : no_code s a = true -> code_or_empty s a = (EmptyCodeHash, []).
Proof.
  unfold no_code, code_or_empty, obj_code. destruct (live s a) as [o |]; [| done].
  intros [H1%Z.eqb_eq H2%bool_decide_eq_true]%andb_true_iff. by rewrite code_of_eq, H2, H1.
Qed.

Lemma run_op_journalled id s op s' :
  db_wf s -> op_ok id s op = true -> run_op s op = Ret s' ->
  match op with OpSnapshot | OpRevert _ => True | _ => journalled_exactly s s' end.
Proof.
  intros Hw Hok Hr. destruct op; cbn in Hok, Hr; try done.
  - eapply AddBalance_journalled; eauto using fits_kept.
  - eapply SubBalance_journalled; eauto using fits_kept.
  - eapply SetBalance_journalled; eauto using fits_kept.
  - apply bind_Ret_inv in Hr as (r & Hr & [= <-]). apply bind_Ret_inv in Hr as ([s1 o] & Hg & [= <-]).
    by apply (getOrNew_spec (fun z => z) (fun _ => True) s a s1 o Hw).
  - apply bind_Ret_inv in Hr as ([s1 o] & Hg & [= <-]). destruct (getOrNew_spec (fun z => z) (fun _ => True) s a s1 o Hw Hg) as (Hj & Hl & _).
    eapply journalled_trans; [done | done |]. eapply journalled_setNonce; [apply Hj | done..].
  - eapply SetCode_journalled; eauto using no_code_empty.
  - apply bind_Ret_inv in Hr as ([s1 o] & Hg & [= <-]). destruct (getOrNew_spec (fun z => z) (fun _ => True) s a s1 o Hw Hg) as (Hj & Hl & _).
    eapply journalled_trans; [done | done |]. eapply journalled_setState; [apply Hj | done..].
  - injection Hr as <-. apply SelfDestruct_journalled; auto using fits_kept.
  - injection Hr as <-. apply Selfdestruct6780_journalled; auto using fits_kept.
  - injection Hr as <-. by apply SetTransient_journalled.
  - injection Hr as <-. by apply refund_journalled.
  - unfold SubRefund in Hr. destruct (refund s <? g); [done |]. injection Hr as <-. by apply refund_journalled.
  - injection Hr as <-. by apply AddLog_journalled.
  - apply bind_Ret_inv in Hr as ([s1 o] & Hg & [= <-]). apply bool_decide_eq_true in Hok.
    by apply (journalled_create (fun z => z) (fun _ => True) s a s1 o).
  - by eapply CreateContract_journalled.
  - injection Hr as <-. by apply AddAddressToAccessList_journalled.
  - by eapply AddSlotToAccessList_journalled.
Qed.

(** ** Snapshots *)

(** [s] was reached from [s0] after the snapshot [id] was taken in [s0]. *)
Definition since (s0 s : StateDB) (id : Z) : Prop :=
  db_wf s /\ id < nextRevisionId (jrnl s) /\
  (exists later, ValidRevisions (jrnl s) = ValidRevisions (jrnl s0) ++ mkRevision id (zlen (Entries (jrnl s0))) :: later /\
     Forall (fun r => id < Id r /\ zlen (Entries (jrnl s0)) <= JournalIndex r) later) /\
  exists es s'', Entries (jrnl s) = Entries (jrnl s0) ++ es /\ Forall (fun e => GetShardID e = ShardID) es /\
    for_each Revert s (rev es) = Ret s'' /\ db_wf s'' /\ db_equiv s'' s0.

Lemma since_journalled s0 s s' id : since s0 s id -> journalled_exactly s s' -> since s0 s' id.
Proof.
  intros (Hw & Hn & Hv & es & t1 & Hes & Hown & Hr & Hwt & Het)
         (Hw' & Hv' & Hn' & fs & t2 & Hfs & Hown' & Hr' & Hwt' & Het' & _).
  destruct (undo_proper (fun z => z) (rev es) s t2 t1) as (t3 & Hr3 & He3 & _ & Hw3'); [done.. | by symmetry | done |].
  unfold since. rewrite Hv', Hn'. split_and!; [done.. |]. exists (es ++ fs), t3.
  split_and!; [by rewrite Hfs, Hes, app_assoc | by apply Forall_app | | done | by rewrite <- He3].
  rewrite rev_app_distr, for_each_app, Hr'. done.
Qed.

Lemma since_snapshot s0 s id : since s0 s id -> since s0 (fst (Snapshot s)) id.
Proof.
  intros (Hw & Hn & (later & Hv & Hl) & es & t1 & Hes & Hown & Hr & Hwt & Het).
  unfold since, Snapshot, journal_snapshot. cbn. split_and!; [by apply wf_journal | lia | |].
  - exists (later ++ [mkRevision (nextRevisionId (jrnl s)) (journal_length (jrnl s))]).
    rewrite Hv, <- app_assoc. split; [done |]. apply Forall_app. split; [done |]. constructor; [| done]. cbn.
    split; [done |]. unfold journal_length, zlen. rewrite Hes, length_app. lia.
  - eexists es, _. split_and!; [done | done | rewrite undo_journal, Hr; reflexivity | by apply wf_journal | by apply sim_journal].
Qed.

Lemma search_skip l1 l2 r :
  Forall (fun x => Id x < r) l1 -> search_revision (l1 ++ l2) r = (length l1 + search_revision l2 r)%nat.
Proof.
  induction 1 as [| x l H _ IH]; cbn; [done |]. destruct (Z.leb_spec r (Id x)); [lia |]. by rewrite IH.
Qed.

Lemma journal_revert_inv s k r :
  journal_revert s k = Ret r -> 0 <= k <= zlen (Entries (jrnl s)).
Proof.
  assert (Hj : forall es t u o, revert_entries t es = Ret (u, o) -> Entries (jrnl u) = Entries (jrnl t)).
  { induction es as [| e es IH]; intros t u o Hr; cbn in Hr; [by injection Hr as <- _ |].
    apply bind_Ret_inv in Hr as ([t1 o1] & H1 & Hr). apply bind_Ret_inv in Hr as ([t2 o2] & H2 & [= <- _]).
    apply IH in H2. cbn in *. rewrite H2. unfold undirty.
    assert (jrnl t1 = jrnl t) as ->; [| by destruct (dirtied e)].
    destruct (GetShardID e =? ShardID); [| by injection H1 as <- _].
    apply bind_Ret_inv in H1 as (t3 & H3 & [= <- _]). by apply (Revert_jrnl t e). }
  unfold journal_revert. intros Hr. apply bind_Ret_inv in Hr as ([s1 out] & H1 & Hr).
  apply bind_Ret_inv in Hr as (kept & H2 & _). rewrite (Hj _ _ _ _ H1) in H2. unfold slice in H2.
  destruct (Z.leb_spec 0 0); [| lia]. destruct (Z.leb_spec 0 k); [| done].
  destruct (Z.leb_spec k (zlen (Entries (jrnl s)))); [lia | done].
Qed.

Lemma split_entries {A} (l es : list A) k :
  zlen l <= k <= zlen (l ++ es) -> exists e1 e2, es = e1 ++ e2 /\ zlen (l ++ e1) = k.
Proof.
  unfold zlen. rewrite length_app. intros Hk.
  exists (take (Z.to_nat k - length l) es), (drop (Z.to_nat k - length l) es).
  rewrite take_drop. split; [done |]. rewrite length_app, length_take. lia.
Qed.

Lemma undo_wf es s s' : db_wf s -> for_each Revert s es = Ret s' -> db_wf s'.
Proof. intros Hw Hr. by destruct (undo_proper (fun z => z) es s s s') as (? & _ & _ & ? & _). Qed.

Lemma since_revert s0 s s' id r out :
  Forall (fun x => Id x < id) (ValidRevisions (jrnl s0)) -> id < r ->
  since s0 s id -> RevertToSnapshot s r = Ret (s', out) -> since s0 s' id.
Proof.
  intros Hold Hlt (Hw & Hn & (later & Hv & Hl) & es & t1 & Hes & Hown & Hr & Hwt & Het) Hrv.
  unfold RevertToSnapshot in Hrv. set (i := search_revision _ r) in Hrv.
  assert (Hi : i = (length (ValidRevisions (jrnl s0)) + S (search_revision later r))%nat).
  { unfold i. rewrite Hv, search_skip by (eapply Forall_impl; [exact Hold | cbn; lia]). cbn.
    destruct (Z.leb_spec r id); [lia | done]. }
  destruct (ValidRevisions (jrnl s) !! i) as [x |] eqn:Ex; [| done].
  destruct (Id x =? r); [| done]. cbn in Hrv.
  apply bind_Ret_inv in Hrv as ([s2 out2] & Hj & [= <- <-]).
  assert (Hx : x ∈ later).
  { rewrite Hv, Hi, lookup_app_r in Ex by lia.
    replace (_ + _ - _)%nat with (S (search_revision later r)) in Ex by lia. by eapply list_elem_of_lookup_2. }
  rewrite Forall_forall in Hl. destruct (Hl x Hx) as [_ Hxi].
  destruct (journal_revert_inv s (JournalIndex x) _ Hj) as [_ Hle].
  destruct (split_entries (Entries (jrnl s0)) es (JournalIndex x)) as (e1 & e2 & He12 & Hz);
    [rewrite <- Hes; lia |]. subst es.
  apply Forall_app in Hown as [Hown1 Hown2]. rewrite rev_app_distr, for_each_app in Hr.
  apply bind_Ret_inv in Hr as (t2 & Hr2 & Hr1).
  destruct (journal_revert_own s (Entries (jrnl s0) ++ e1) e2 t2) as (j & Hj' & Hje & Hjv & Hjn);
    [by rewrite Hes, <- app_assoc | done | done |].
  rewrite <- Hz, Hj' in Hj. injection Hj as <- <-. cbn [jrnl db_journal].
  set (J := mkJournal _ _ _ _). change (db_journal (db_journal t2 j) J) with (db_journal t2 J).
  assert (Hw2 : db_wf t2) by (eapply undo_wf; [exact Hw | done]).
  unfold since. cbn [jrnl db_journal]. unfold J at 2 3 4. cbn [Entries ValidRevisions nextRevisionId].
  rewrite Hje, Hjv, Hjn. split_and!; [by apply wf_journal | done | |].
  - exists (take (search_revision later r) later). rewrite Hv, Hi, take_app_add. cbn. split; [done |].
    apply Forall_forall. intros y Hy%elem_of_take. destruct Hy as (k & Hy & _). apply Hl.
    by eapply list_elem_of_lookup_2.
  - exists e1. eexists. split_and!; [done | done | rewrite undo_journal, Hr1; reflexivity | by apply wf_journal |].
    by apply sim_journal.
Qed.

Lemma since_run s0 id ops s s' :
  Forall (fun x => Id x < id) (ValidRevisions (jrnl s0)) ->
  since s0 s id -> ops_ok id s ops = true -> for_each run_op s ops = Ret s' -> since s0 s' id.
Proof.
  intros Hold. revert s. induction ops as [| op ops IH]; intros s Hs Hok Hr; cbn in Hok, Hr.
  - injection Hr as <-. done.
  - apply andb_true_iff in Hok as [Hop Hok]. destruct (run_op s op) as [s1 |] eqn:E; cbn in Hr; [| done].
    apply (IH s1); [| done | done].
    pose proof (run_op_journalled id s op s1 (proj1 Hs) Hop E) as Hj.
    destruct op; try (by eapply since_journalled).
    + injection E as <-. by apply since_snapshot.
    + cbn in E, Hop. apply bind_Ret_inv in E as ([s2 out] & E & [= <-]). apply Z.ltb_lt in Hop.
      by apply (since_revert s0 s s2 id revid out).
Qed.

Lemma since_start s0 :
  db_wf s0 -> since s0 (fst (Snapshot s0)) (snd (Snapshot s0)).
Proof.
  intros Hw. unfold since, Snapshot, journal_snapshot. cbn. split_and!; [by apply wf_journal | lia | by exists [] |].
  eexists [], _. rewrite app_nil_r. split_and!; [done | done | reflexivity | by apply wf_journal | by apply sim_journal].
Qed.

Lemma RevertToSnapshot_spec (s0 s : StateDB) (ops : list db_op) :
  let id := nextRevisionId (jrnl s0) in
  db_wf s0 -> Forall (fun r => Id r < id) (ValidRevisions (jrnl s0)) ->
  ops_ok id (fst (Snapshot s0)) ops = true -> for_each run_op (fst (Snapshot s0)) ops = Ret s ->
  exists s', RevertToSnapshot s id = Ret (s', []) /\ db_equiv s' s0 /\
    Entries (jrnl s') = Entries (jrnl s0) /\ ValidRevisions (jrnl s') = ValidRevisions (jrnl s0).
Proof.
  intros id Hw Hold Hok Hr.
  destruct (since_run s0 id ops _ s Hold (since_start s0 Hw) Hok Hr)
    as (Hws & _ & (later & Hv & _) & es & s'' & Hes & Hown & Hu & _ & He).
  destruct (journal_revert_own s (Entries (jrnl s0)) es s'' Hes Hown Hu) as (j & Hj & Hje & Hjv & _).
  unfold RevertToSnapshot.
  assert (search_revision (ValidRevisions (jrnl s)) id = length (ValidRevisions (jrnl s0))) as ->.
  { rewrite Hv, search_skip by done. cbn. rewrite Z.leb_refl. lia. }
  rewrite Hv, lookup_app_r, Nat.sub_diag by done. cbn -[journal_revert]. rewrite Z.eqb_refl. cbn -[journal_revert].
  rewrite Hj, bind_Ret. eexists. split; [reflexivity |]. cbn [jrnl db_journal Entries ValidRevisions].
  rewrite Hjv, Hv, take_app_length. split_and!; [by do 2 apply sim_journal | done | done].
Qed.


(** The journal keeps 64 bits of a balance, so a larger one does not survive a
    revert: crediting any account and reverting leaves its balance modulo 2^64. *)
Theorem revert_truncates_balance (s0 s : StateDB) (a v : Z) (o : stateObject) :
  db_wf s0 -> Forall (fun r => Id r < nextRevisionId (jrnl s0)) (ValidRevisions (jrnl s0)) ->
  live s0 a = Some o -> v <> 0 -> AddBalance (fst (Snapshot s0)) a v = Ret s ->
  exists s' o', RevertToSnapshot s (nextRevisionId (jrnl s0)) = Ret (s', []) /\ live s' a = Some o' /\
    sa_Balance (data o') = u64 (sa_Balance (data o)).
Proof.
  intros Hw Hold Hl Hv Hr. pose proof (live_address s0 a o Hw Hl) as Ha.
  unfold AddBalance in Hr. apply bind_Ret_inv in Hr as ([s1 p] & Hg & Hr).
  assert (Hs : stateObjects s1 !! a = Some o /\ p = o /\ jrnl s1 = jrnl (fst (Snapshot s0)) /\ db_wf s1).
  { destruct (load_spec (fst (Snapshot s0)) a) as (m & Hm & _ & Hma & Hwm). unfold getOrNewStateObject in Hg.
    assert (Hl1 : live (fst (Snapshot s0)) a = Some o) by exact (eq_trans (live_journal _ _ _) Hl).
    rewrite Hl1 in Hma. unfold live in Hl1.
    destruct (getStateObject (fst (Snapshot s0)) a) as [s2 [q |]]; cbn in Hl1, Hm; [| done].
    injection Hl1 as ->. injection Hg as <- <-. subst s2. split_and!; [done | done | done |].
    apply Hwm. by apply wf_journal. }
  destruct Hs as (Hso & -> & Hj & Hw1).
  destruct (Z.eqb_spec v 0); [done |]. injection Hr as <-.
  set (b := u256 (sa_Balance (data o) + v)). set (s' := obj_SetBalance s1 o b).
  set (e := BalanceChange (address o) (u64 (sa_Balance (data o))) (u64 b) ShardID).
  assert (Hjs : jrnl s' = journal_append (jrnl (fst (Snapshot s0))) e) by (cbn; by rewrite Hj).
  assert (Hws : db_wf s') by by apply put_wf, wf_journal.
  assert (Hls : live s' a = Some (obj_setBalance o b)).
  { unfold s', obj_SetBalance. rewrite live_put, decide_True; [done | by rewrite <- Ha]. }
  set (g := fun q => obj_setBalance q (u64 (sa_Balance (data o)))).
  destruct (journal_revert_own s' (Entries (jrnl s0)) [e] (revert_obj s' (address o) g)) as (j & Hjr & Hje & Hjv & _);
    [by rewrite Hjs | by repeat constructor | done |].
  destruct (revert_obj_spec s' a g Hws) as (m & Hm & _ & Hlm); [done |].
  unfold RevertToSnapshot. rewrite Hjs. cbn -[journal_revert u64]. rewrite search_skip by done. cbn -[journal_revert u64].
  rewrite Z.leb_refl, Nat.add_0_r, lookup_app_r, Nat.sub_diag by done. cbn -[journal_revert u64].
  rewrite Z.eqb_refl. cbn -[journal_revert u64]. unfold journal_length. rewrite Hjr, bind_Ret.
  eexists _, _. split; [reflexivity |]. rewrite !live_journal, Ha, Hm, Hlm, decide_True, Hls by done. done.
Qed.
End Snapshots.

(** ** Witnesses *)

Definition sample_reader : StateReader := {|
  reader_Account := fun a => if a =? 1 then Some (mkStateAccount 4 500 EmptyRootHash EmptyCodeHash) else None;
  reader_Storage := fun a k => if (a =? 1) && (k =? 9) then 77 else 0;
  ContractCode := fun _ _ => [];
  Keccak256Hash := fun c => zlen c
|}.

Definition sample_env : NodeEnv := {| ShardID := 2; NodeID := 0; Ip_nodeTable := ∅ |}.

Definition sample_ops : list db_op :=
  [OpAddBalance 1 25; OpSubBalance 2 3; OpSetState 1 9 5; OpSetCode 2 [96; 0]; OpSnapshot; OpSetNonce 1 7;
   OpAddLog [1]; OpSetTransient 1 2 3; OpRevert 1; OpAddRefund 8; OpCreateContract 2; OpSelfDestruct 2;
   OpAccessSlot 1 4].


Lemma revert_truncates_balance_witness :
  let rich := setStateObject New_StateDB (obj_setBalance (newObject 5 None) (2 ^ 64 + 7)) in
  exists s s', @AddBalance default_config sample_reader sample_env (fst (Snapshot rich)) 5 1 = Ret s /\
    @RevertToSnapshot sample_reader sample_env s 0 = Ret (s', []) /\
    exists o, @live sample_reader s' 5 = Some o /\ sa_Balance (data o) = 7.
Proof.
  intros rich.
  destruct (@AddBalance default_config sample_reader sample_env (fst (Snapshot rich)) 5 1) as [s |] eqn:E;
    [| vm_compute in E; discriminate E].
  destruct (@revert_truncates_balance default_config sample_reader sample_env rich s 5 1
              (obj_setBalance (newObject 5 None) (2 ^ 64 + 7))) as (s' & o & H1 & H2 & H3).
  - apply put_wf. split; [intros a o H; cbn in H; by rewrite lookup_empty in H |].
    split; vm_compute; [discriminate | reflexivity].
  - constructor.
  - reflexivity.
  - discriminate.
  - exact E.
  - exists s, s'. split; [reflexivity |]. split; [exact H1 |]. exists o. split; [exact H2 |]. rewrite H3. reflexivity.
Defined.
