(* ===== verification/Analysis.v ===== *)
(** * Jump-destination analysis

    Models [vm/analysis.go]: the bit vector that marks the bytes of a program that are
    arguments of a PUSH instruction. The optimised routine writes runs of one to sixteen
    bits at once, into a vector with four spare bytes; the reference definition is a walk
    over the code. A byte of the code is taken modulo 256; a position is a [uint64] in the source; the length of a slice fits 63
    bits, so the additions on positions do not wrap. *)
From Stdlib Require Import ZArith Lia.
From stdpp Require Import base list.
From S2P Require Import Prelude.

(** ** Bit vectors *)

Abbreviation bitvec := (list Z).

Definition set2BitsMask : Z := 0x3.
Definition set3BitsMask : Z := 0x7.
Definition set4BitsMask : Z := 0xf.
Definition set5BitsMask : Z := 0x1f.
Definition set6BitsMask : Z := 0x3f.
Definition set7BitsMask : Z := 0x7f.

(** [bits[i] |= v]. *)
Definition or_at (bits : bitvec) (i v : Z) : outcome bitvec :=
  b ← idx bits i; set_idx bits i (Z.lor b v).

Definition set1 (bits : bitvec) (pos : Z) : outcome bitvec :=
  or_at bits (pos / 8) (u8 (Z.shiftl 1 (pos mod 8))).

Definition setN (bits : bitvec) (flag pos : Z) : outcome bitvec :=
  let a := u16 (Z.shiftl flag (pos mod 8)) in
  bits1 ← or_at bits (pos / 8) (u8 a);
  let b := u8 (Z.shiftr a 8) in
  if b =? 0 then Ret bits1 else set_idx bits1 (pos / 8 + 1) b.

Definition set8 (bits : bitvec) (pos : Z) : outcome bitvec :=
  let a := u8 (Z.shiftl 0xff (pos mod 8)) in
  bits1 ← or_at bits (pos / 8) a;
  set_idx bits1 (pos / 8 + 1) (Z.lxor a 0xff).

Definition set16 (bits : bitvec) (pos : Z) : outcome bitvec :=
  let a := u8 (Z.shiftl 0xff (pos mod 8)) in
  bits1 ← or_at bits (pos / 8) a;
  bits2 ← set_idx bits1 (pos / 8 + 1) 0xff;
  set_idx bits2 (pos / 8 + 2) (Z.lxor a 0xff).

Definition codeSegment (bits : bitvec) (pos : Z) : outcome bool :=
  b ← idx bits (pos / 8);
  Ret (Z.land (Z.shiftr b (pos mod 8)) 1 =? 0).

(** ** The analysis *)

Definition PUSH1 : Z := 0x60.
Definition PUSH32 : Z := 0x7f.

Definition i8 (b : Z) : Z := if b <? 128 then b else b - 256.

(** [for ; numbits >= w; numbits -= w { set(pc); pc += w }]. *)
Fixpoint wide_runs (n : nat) (w : Z) (set : bitvec -> Z -> outcome bitvec) (st : bitvec * Z * Z)
  : outcome (bitvec * Z * Z) :=
  let '(bits, pc, numbits) := st in
  match n with
  | O => Ret st
  | S n' => if w <=? numbits
            then bits1 ← set bits pc; wide_runs n' w set (bits1, pc + w, numbits - w)
            else Ret st
  end.

(** The last run, of fewer than eight bits. *)
Definition short_run (st : bitvec * Z * Z) : outcome (bitvec * Z) :=
  let '(bits, pc, numbits) := st in
  let put m := bits1 ← setN bits m pc; Ret (bits1, pc + numbits) in
  if numbits =? 1 then bits1 ← set1 bits pc; Ret (bits1, pc + 1)
  else if numbits =? 2 then put set2BitsMask
  else if numbits =? 3 then put set3BitsMask
  else if numbits =? 4 then put set4BitsMask
  else if numbits =? 5 then put set5BitsMask
  else if numbits =? 6 then put set6BitsMask
  else if numbits =? 7 then put set7BitsMask
  else Ret (bits, pc).

(** One iteration: the byte at [pc]. At most two runs of sixteen and one of eight fit
    the 32 bytes of the longest PUSH; the loops' bounds leave room. *)
Definition scan_op (bits : bitvec) (op pc : Z) : outcome (bitvec * Z) :=
  let pc1 := pc + 1 in
  if i8 op <? i8 PUSH1 then Ret (bits, pc1)
  else
    let numbits := u8 (op - PUSH1 + 1) in
    st1 ← (if 8 <=? numbits
           then st ← wide_runs 16 16 set16 (bits, pc1, numbits); wide_runs 32 8 set8 st
           else Ret (bits, pc1, numbits));
    short_run st1.

(** [pc] grows with every iteration, so the length of the code bounds their number. *)
Fixpoint scan_code (fuel : nat) (code : list Z) (bits : bitvec) (pc : Z) : outcome bitvec :=
  match fuel with
  | O => Ret bits
  | S fuel' =>
      if pc <? zlen code then
        op ← idx code pc;
        r ← scan_op bits (u8 op) pc;
        scan_code fuel' code (fst r) (snd r)
      else Ret bits
  end.

Definition codeBitmapInternal (code : list Z) (bits : bitvec) : outcome bitvec :=
  scan_code (S (length code)) code bits 0.

Definition codeBitmap (code : list Z) : outcome bitvec :=
  codeBitmapInternal code (replicate (Z.to_nat (zlen code / 8 + 1 + 4)) 0).

(** ** The reference: a walk over the code *)

Definition push_size (b : Z) : nat :=
  if (PUSH1 <=? b) && (b <=? PUSH32) then Z.to_nat (b - PUSH1 + 1) else O.

(** For every byte, whether it is an argument of a PUSH; [skip] arguments are pending. *)
Fixpoint push_data (skip : nat) (code : list Z) : list bool :=
  match code with
  | [] => []
  | b :: l => match skip with
              | S k => true :: push_data k l
              | O => false :: push_data (push_size (u8 b)) l
              end
  end.

Definition is_byte (b : Z) : Prop := 0 <= b < 256.

(** ** Runs of bits *)

Definition tb (bits : bitvec) (p : Z) : bool := Z.testbit (default 0 (bits !! Z.to_nat (p / 8))) (p mod 8).

(** [f] sets the [n] bits from [pos] and no other. *)
Definition sets_run (f : outcome bitvec) (bits : bitvec) (pos n : Z) : Prop :=
  exists bits', f = Ret bits' /\ zlen bits' = zlen bits /\
    forall p, 0 <= p -> tb bits' p = tb bits p || ((pos <=? p) && (p <? pos + n)).

Lemma tb_insert bits k x p :
  0 <= k < zlen bits -> 0 <= p ->
  tb (<[Z.to_nat k := x]> bits) p = if p / 8 =? k then Z.testbit x (p mod 8) else tb bits p.
Proof.
  intros Hk Hp. unfold tb, zlen in *. assert (0 <= p / 8) by (apply Z.div_pos; lia).
  destruct (Z.eqb_spec (p / 8) k) as [-> | Hne].
  - rewrite list_lookup_insert_eq; [done | lia].
  - rewrite list_lookup_insert_ne; [done | lia].
Qed.

Lemma or_at_spec bits i v :
  0 <= i < zlen bits ->
  exists x, or_at bits i v = Ret (<[Z.to_nat i := Z.lor x v]> bits) /\ bits !! Z.to_nat i = Some x.
Proof.
  intros Hi. destruct (lookup_lt_is_Some_2 bits (Z.to_nat i)) as [x Hx]; [unfold zlen in *; lia |].
  exists x. split; [| done]. unfold or_at. rewrite (idx_returns bits i x) by (done || lia). cbn.
  by apply set_idx_returns.
Qed.

Lemma tb_or bits k x v p :
  0 <= k < zlen bits -> bits !! Z.to_nat k = Some x -> 0 <= p ->
  tb (<[Z.to_nat k := Z.lor x v]> bits) p = tb bits p || ((p / 8 =? k) && Z.testbit v (p mod 8)).
Proof.
  intros Hk Hx Hp. rewrite tb_insert by done. destruct (Z.eqb_spec (p / 8) k) as [He | He]; cbn.
  - rewrite Z.lor_spec. f_equal. unfold tb. by rewrite He, Hx.
  - by rewrite orb_false_r.
Qed.

Lemma testbit_run n r i :
  0 <= n -> 0 <= r -> 0 <= i < 8 ->
  Z.testbit (u8 (Z.shiftl (Z.ones n) r)) i = (r <=? i) && (i <? r + n).
Proof.
  intros Hn Hr Hi. unfold u8. rewrite Z.mod_pow2_bits_low, Z.shiftl_spec, Z.testbit_ones by lia.
  destruct (Z.leb_spec 0 (i - r)), (Z.leb_spec r i), (Z.ltb_spec (i - r) n), (Z.ltb_spec i (r + n)); try lia; done.
Qed.

(** The bits that spill into the next byte. *)
Lemma testbit_spill n r i :
  0 <= n <= 8 -> 0 <= r < 8 -> 0 <= i < 8 ->
  Z.testbit (u8 (Z.shiftr (u16 (Z.shiftl (Z.ones n) r)) 8)) i = (i + 8 <? r + n).
Proof.
  intros Hn Hr Hi. unfold u8, u16.
  rewrite Z.mod_pow2_bits_low, Z.shiftr_spec, Z.mod_pow2_bits_low, Z.shiftl_spec, Z.testbit_ones by lia.
  destruct (Z.leb_spec 0 (i + 8 - r)), (Z.ltb_spec (i + 8 - r) n), (Z.ltb_spec (i + 8) (r + n)); try lia; done.
Qed.

Lemma testbit_rest r i :
  0 <= r < 8 -> 0 <= i < 8 -> Z.testbit (Z.lxor (u8 (Z.shiftl 255 r)) 255) i = (i <? r).
Proof.
  intros Hr Hi. rewrite Z.lxor_spec. change 255 with (Z.ones 8). rewrite testbit_run, Z.testbit_ones by lia.
  destruct (Z.leb_spec r i), (Z.ltb_spec i (r + 8)), (Z.leb_spec 0 i), (Z.ltb_spec i 8), (Z.ltb_spec i r); try lia; done.
Qed.

(** Decide a statement about the position of a bit. *)
Ltac bit_position p pos :=
  let H1 := fresh "Hdp" in let H2 := fresh "Hdq" in
  pose proof (Z.div_mod p 8 ltac:(lia)) as H1; pose proof (Z.mod_pos_bound p 8 ltac:(lia));
  pose proof (Z.div_mod pos 8 ltac:(lia)) as H2; pose proof (Z.mod_pos_bound pos 8 ltac:(lia));
  repeat match goal with
  | |- context [?a =? ?b] => destruct (Z.eqb_spec a b)
  | |- context [?a <=? ?b] => destruct (Z.leb_spec a b)
  | |- context [?a <? ?b] => destruct (Z.ltb_spec a b)
  end; cbn; rewrite ?orb_true_r, ?orb_false_r, ?andb_true_r, ?andb_false_r; try done; try lia.

Section Runs.
Context (bits : bitvec) (pos : Z) (Hpos : 0 <= pos) (Hclear : forall p, pos <= p -> tb bits p = false).

(** A byte beyond [pos] is clear. *)
Lemma next_clear p k : 0 <= p -> pos / 8 < k -> p / 8 = k -> tb bits p = false.
Proof using Hpos Hclear.
  intros Hp Hk He. apply Hclear. pose proof (Z.div_mod p 8 ltac:(lia)). pose proof (Z.mod_pos_bound p 8 ltac:(lia)).
  pose proof (Z.div_mod pos 8 ltac:(lia)). pose proof (Z.mod_pos_bound pos 8 ltac:(lia)). lia.
Qed.

Lemma set1_run : pos / 8 < zlen bits -> sets_run (set1 bits pos) bits pos 1.
Proof using Hpos.
  intros Hb. assert (0 <= pos / 8) by (apply Z.div_pos; lia).
  destruct (or_at_spec bits (pos / 8) (u8 (Z.shiftl 1 (pos mod 8)))) as (x & Hr & Hx); [lia |].
  eexists. split; [exact Hr |]. split; [unfold zlen; by rewrite length_insert |]. intros p Hp.
  rewrite tb_or by (done || lia). pose proof (Z.mod_pos_bound p 8 ltac:(lia)). pose proof (Z.mod_pos_bound pos 8 ltac:(lia)).
  change 1 with (Z.ones 1) at 1. rewrite testbit_run by lia. f_equal. bit_position p pos.
Qed.

Lemma setN_run n :
  1 <= n <= 8 -> pos / 8 + 1 < zlen bits -> sets_run (setN bits (Z.ones n) pos) bits pos n.
Proof using Hpos Hclear.
  intros Hn Hb. assert (0 <= pos / 8) by (apply Z.div_pos; lia). unfold setN.
  set (a := u16 (Z.shiftl (Z.ones n) (pos mod 8))).
  pose proof (Z.mod_pos_bound pos 8 ltac:(lia)) as Hm.
  assert (Ha : forall i, 0 <= i < 8 -> Z.testbit (u8 a) i = (pos mod 8 <=? i) && (i <? pos mod 8 + n)).
  { intros i Hi. rewrite <- testbit_run by lia. unfold a, u8, u16.
    by rewrite !Z.mod_pow2_bits_low by lia. }
  destruct (or_at_spec bits (pos / 8) (u8 a)) as (x & Hr & Hx); [lia |]. rewrite Hr. cbn -[u8].
  assert (Hs : forall i, 0 <= i < 8 -> Z.testbit (u8 (Z.shiftr a 8)) i = (i + 8 <? pos mod 8 + n)).
  { intros i Hi. apply testbit_spill; lia. }
  destruct (Z.eqb_spec (u8 (Z.shiftr a 8)) 0) as [E | E].
  - eexists. split; [reflexivity |]. split; [unfold zlen; by rewrite length_insert |]. intros p Hp.
    pose proof (Z.mod_pos_bound p 8 ltac:(lia)) as Hpm.
    rewrite tb_or, Ha by (done || lia). f_equal.
    pose proof (Hs 0 ltac:(lia)) as H0. rewrite E, Z.testbit_0_l in H0. symmetry in H0.
    apply Z.ltb_ge in H0. bit_position p pos.
  - rewrite set_idx_returns by (unfold zlen in *; rewrite length_insert; lia).
    eexists. split; [reflexivity |]. split; [unfold zlen; by rewrite !length_insert |]. intros p Hp.
    pose proof (Z.mod_pos_bound p 8 ltac:(lia)) as Hpm.
    rewrite tb_insert by (unfold zlen in *; rewrite ?length_insert; lia).
    rewrite tb_or, Ha, Hs by (done || lia).
    destruct (Z.eqb_spec (p / 8) (pos / 8 + 1)) as [He | He].
    + rewrite (next_clear p (pos / 8 + 1)) by lia. cbn. bit_position p pos.
    + f_equal. bit_position p pos.
Qed.

Lemma set8_run : pos / 8 + 1 < zlen bits -> sets_run (set8 bits pos) bits pos 8.
Proof using Hpos Hclear.
  intros Hb. assert (0 <= pos / 8) by (apply Z.div_pos; lia). unfold set8.
  destruct (or_at_spec bits (pos / 8) (u8 (Z.shiftl 255 (pos mod 8)))) as (x & Hr & Hx); [lia |].
  rewrite Hr. cbn -[u8]. rewrite set_idx_returns by (unfold zlen in *; rewrite length_insert; lia).
  eexists. split; [reflexivity |]. split; [unfold zlen; by rewrite !length_insert |]. intros p Hp.
  pose proof (Z.mod_pos_bound p 8 ltac:(lia)) as Hpm. pose proof (Z.mod_pos_bound pos 8 ltac:(lia)) as Hm.
  rewrite tb_insert by (unfold zlen in *; rewrite ?length_insert; lia).
  rewrite tb_or, testbit_rest by (done || lia). change 255 with (Z.ones 8). rewrite testbit_run by lia.
  destruct (Z.eqb_spec (p / 8) (pos / 8 + 1)) as [He | He].
  - rewrite (next_clear p (pos / 8 + 1)) by lia. cbn. bit_position p pos.
  - f_equal. bit_position p pos.
Qed.

Lemma set16_run : pos / 8 + 2 < zlen bits -> sets_run (set16 bits pos) bits pos 16.
Proof using Hpos Hclear.
  intros Hb. assert (0 <= pos / 8) by (apply Z.div_pos; lia). unfold set16.
  destruct (or_at_spec bits (pos / 8) (u8 (Z.shiftl 255 (pos mod 8)))) as (x & Hr & Hx); [lia |].
  rewrite Hr. cbn -[u8]. rewrite set_idx_returns by (unfold zlen in *; rewrite length_insert; lia).
  cbn -[u8]. rewrite set_idx_returns by (unfold zlen in *; rewrite !length_insert; lia).
  eexists. split; [reflexivity |]. split; [unfold zlen; by rewrite !length_insert |]. intros p Hp.
  pose proof (Z.mod_pos_bound p 8 ltac:(lia)) as Hpm. pose proof (Z.mod_pos_bound pos 8 ltac:(lia)) as Hm.
  do 2 rewrite tb_insert by (unfold zlen in *; rewrite ?length_insert; lia).
  rewrite tb_or, testbit_rest by (done || lia). change 255 with (Z.ones 8). rewrite testbit_run by lia.
  rewrite Z.testbit_ones by lia.
  destruct (Z.eqb_spec (p / 8) (pos / 8 + 2)) as [He | He]; [| destruct (Z.eqb_spec (p / 8) (pos / 8 + 1)) as [He' | He']].
  - rewrite (next_clear p (pos / 8 + 2)) by lia. cbn. bit_position p pos.
  - rewrite (next_clear p (pos / 8 + 1)) by lia. cbn. bit_position p pos.
  - f_equal. bit_position p pos.
Qed.
End Runs.

(** ** One instruction *)

Ltac Zify.zify_post_hook ::= Z.div_mod_to_equations.

Definition clear_from (bits : bitvec) (pos : Z) : Prop := forall p, pos <= p -> tb bits p = false.

Lemma sets_run_clear bits bits' pos n :
  0 <= pos -> 0 <= n -> clear_from bits pos ->
  (forall p, 0 <= p -> tb bits' p = tb bits p || ((pos <=? p) && (p <? pos + n))) -> clear_from bits' (pos + n).
Proof.
  intros Hp Hn Hc Hb p Hge. rewrite Hb by lia. rewrite Hc by lia. bit_position p pos.
Qed.

Lemma run_join (b1 b2 b3 : bitvec) pos n m :
  0 <= n -> 0 <= m ->
  (forall p, 0 <= p -> tb b2 p = tb b1 p || ((pos <=? p) && (p <? pos + n))) ->
  (forall p, 0 <= p -> tb b3 p = tb b2 p || ((pos + n <=? p) && (p <? pos + n + m))) ->
  forall p, 0 <= p -> tb b3 p = tb b1 p || ((pos <=? p) && (p <? pos + (n + m))).
Proof.
  intros Hn Hm H1 H2 p Hp. rewrite H2, H1, <- orb_assoc by done. f_equal.
  destruct (Z.leb_spec pos p), (Z.ltb_spec p (pos + n)), (Z.leb_spec (pos + n) p),
    (Z.ltb_spec p (pos + n + m)), (Z.ltb_spec p (pos + (n + m))); cbn; try done; lia.
Qed.

Lemma wide_runs_spec n w set bits pc nb :
  0 < w -> 0 <= pc -> 0 <= nb < w * Z.of_nat n -> clear_from bits pc ->
  (forall b p, zlen b = zlen bits -> pc <= p -> p + w <= pc + nb -> clear_from b p -> sets_run (set b p) b p w) ->
  exists bits', wide_runs n w set (bits, pc, nb) = Ret (bits', pc + (nb - nb mod w), nb mod w) /\
    zlen bits' = zlen bits /\
    forall p, 0 <= p -> tb bits' p = tb bits p || ((pc <=? p) && (p <? pc + (nb - nb mod w))).
Proof.
  intros Hw. revert bits pc nb. induction n as [| n IH]; intros bits pc nb Hpc Hnb Hc Hset; [lia |].
  cbn [wide_runs]. destruct (Z.leb_spec w nb) as [Hle | Hlt].
  - destruct (Hset bits pc) as (b1 & -> & Hl1 & H1); [done | lia | lia | done |]. rewrite bind_Ret.
    destruct (IH b1 (pc + w) (nb - w)) as (b2 & Hr & Hl2 & H2); [lia | lia | by eapply sets_run_clear; eauto; lia | |].
    { intros b p Hb Hge Hle' Hcb. apply Hset; [congruence | lia | lia | done]. }
    assert (Hm : (nb - w) mod w = nb mod w) by (rewrite <- (Z_mod_plus_full nb (-1) w); f_equal; lia).
    pose proof (Z.mod_le (nb - w) w ltac:(lia) ltac:(lia)) as Hml.
    rewrite Hm in *. exists b2. split_and!; [rewrite Hr; do 3 f_equal; lia | congruence |].
    intros p Hp. rewrite (run_join bits b1 b2 pc w (nb - w - nb mod w)) by (try done; lia).
    by replace (w + (nb - w - nb mod w)) with (nb - nb mod w) by lia.
  - rewrite Z.mod_small by lia. exists bits. split_and!; [do 3 f_equal; lia | done |]. intros p Hp.
    destruct (Z.leb_spec pc p), (Z.ltb_spec p (pc + (nb - nb))); cbn; rewrite ?orb_false_r; try done; lia.
Qed.

Lemma short_run_spec bits pc nb :
  0 <= pc -> 0 <= nb < 8 -> clear_from bits pc -> (1 <= nb -> pc / 8 + 1 < zlen bits) ->
  exists bits', short_run (bits, pc, nb) = Ret (bits', pc + nb) /\ zlen bits' = zlen bits /\
    forall p, 0 <= p -> tb bits' p = tb bits p || ((pc <=? p) && (p <? pc + nb)).
Proof.
  intros Hpc Hnb Hc Hb. unfold short_run.
  assert (HN : forall n, 2 <= n < 8 -> nb = n -> exists bits', (b ← setN bits (Z.ones n) pc; Ret (b, pc + nb)) = Ret (bits', pc + nb) /\
    zlen bits' = zlen bits /\ forall p, 0 <= p -> tb bits' p = tb bits p || ((pc <=? p) && (p <? pc + nb))).
  { intros n Hn ->. destruct (setN_run bits pc Hpc Hc n) as (b & -> & H1 & H2); [lia | apply Hb; lia |]. eauto. }
  destruct (Z.eqb_spec nb 1) as [-> |].
  { destruct (set1_run bits pc Hpc) as (b & -> & H1 & H2); [specialize (Hb ltac:(lia)); lia |]. eauto. }
  destruct (Z.eqb_spec nb 2); [by apply (HN 2) |]. destruct (Z.eqb_spec nb 3); [by apply (HN 3) |].
  destruct (Z.eqb_spec nb 4); [by apply (HN 4) |]. destruct (Z.eqb_spec nb 5); [by apply (HN 5) |].
  destruct (Z.eqb_spec nb 6); [by apply (HN 6) |]. destruct (Z.eqb_spec nb 7); [by apply (HN 7) |].
  exists bits. assert (nb = 0) as -> by lia. split_and!; [by rewrite Z.add_0_r | done |]. intros p Hp.
  destruct (Z.leb_spec pc p), (Z.ltb_spec p (pc + 0)); cbn; rewrite ?orb_false_r; try done; lia.
Qed.

(** The runs of a PUSH of [nb] arguments at [pos], from a vector of enough bytes. *)
Lemma push_runs bits pos nb :
  0 <= pos -> 1 <= nb <= 32 -> clear_from bits pos -> pos / 8 + 5 <= zlen bits ->
  exists bits', (st1 ← (if 8 <=? nb
                        then st ← wide_runs 16 16 set16 (bits, pos, nb); wide_runs 32 8 set8 st
                        else Ret (bits, pos, nb));
                 short_run st1) = Ret (bits', pos + nb) /\ zlen bits' = zlen bits /\
    forall p, 0 <= p -> tb bits' p = tb bits p || ((pos <=? p) && (p <? pos + nb)).
Proof.
  intros Hpos Hnb Hc Hb. destruct (Z.leb_spec 8 nb) as [Hge | Hlt].
  2: { rewrite bind_Ret. apply short_run_spec; try done; try lia. }
  destruct (wide_runs_spec 16 16 set16 bits pos nb) as (b1 & -> & Hl1 & H1); [lia | lia | lia | done | |].
  { intros b p Hb' Hge' Hle' Hcb. apply set16_run; [lia | done | lia]. }
  rewrite bind_Ret. set (p2 := pos + (nb - nb mod 16)) in *.
  assert (Hc1 : clear_from b1 p2) by (eapply sets_run_clear; eauto; lia).
  destruct (wide_runs_spec 32 8 set8 b1 p2 (nb mod 16)) as (b2 & -> & Hl2 & H2); [lia | lia | lia | done | |].
  { intros b p Hb' Hge' Hle' Hcb. apply set8_run; [lia | done | lia]. }
  rewrite bind_Ret. set (p3 := p2 + (nb mod 16 - (nb mod 16) mod 8)) in *.
  assert (Hc2 : clear_from b2 p3) by (eapply sets_run_clear; eauto; lia).
  destruct (short_run_spec b2 p3 ((nb mod 16) mod 8)) as (b3 & -> & Hl3 & H3); [lia | lia | done | lia |].
  exists b3. split_and!; [do 2 f_equal; lia | congruence |].
  assert (H13 := run_join b1 b2 b3 p2 (nb mod 16 - (nb mod 16) mod 8) ((nb mod 16) mod 8) ltac:(lia) ltac:(lia) H2 H3).
  intros p Hp.
  rewrite (run_join bits b1 b3 pos (nb - nb mod 16) (nb mod 16 - (nb mod 16) mod 8 + (nb mod 16) mod 8)
             ltac:(lia) ltac:(lia) H1 H13) by done.
  do 2 f_equal. f_equal. lia.
Qed.

Lemma push_size_range b : (push_size b <= 32)%nat.
Proof. unfold push_size, PUSH1, PUSH32. destruct (Z.leb_spec 96 b), (Z.leb_spec b 127); cbn; lia. Qed.

Lemma scan_op_spec bits op pc :
  is_byte op -> 0 <= pc -> clear_from bits pc -> (pc + 1) / 8 + 5 <= zlen bits ->
  exists bits', scan_op bits op pc = Ret (bits', pc + 1 + Z.of_nat (push_size op)) /\ zlen bits' = zlen bits /\
    forall p, 0 <= p -> tb bits' p = tb bits p || ((pc + 1 <=? p) && (p <? pc + 1 + Z.of_nat (push_size op))).
Proof.
  intros Hop Hpc Hc Hb. unfold is_byte in Hop. unfold scan_op, i8, push_size, PUSH1, PUSH32.
  destruct (Z.ltb_spec op 128), (Z.leb_spec 96 op), (Z.leb_spec op 127); try lia; cbn -[wide_runs short_run Z.to_nat].
  1: destruct (Z.ltb_spec op 96); [lia |].
  1: { unfold u8. rewrite Z.mod_small, Z2Nat.id by lia. apply push_runs; [lia | lia | | done].
       intros p Hp. apply Hc. lia. }
  all: destruct (Z.ltb_spec op 96), (Z.ltb_spec (op - 256) 96); try lia;
    (exists bits; split_and!; [do 2 f_equal; lia | done |]); intros p Hp;
    destruct (Z.leb_spec (pc + 1) p), (Z.ltb_spec p (pc + 1 + Z.of_nat 0)); cbn; rewrite ?orb_false_r; try done; lia.
Qed.

(** ** The whole code *)

Lemma push_data_skip k l : push_data k l = replicate (min k (length l)) true ++ push_data 0 (drop k l).
Proof.
  revert l. induction k as [| k IH]; intros [| b l]; try done. cbn [push_data length Nat.min replicate app drop].
  by rewrite IH.
Qed.

Lemma push_data_length k l : length (push_data k l) = length l.
Proof. revert k. induction l as [| b l IH]; intros [| k]; cbn; by rewrite ?IH. Qed.

(** The marks from an instruction's byte on. *)
Lemma push_data_step b l i :
  push_data 0 (b :: l) !! i =
    match i with
    | O => Some false
    | S j => if decide (j < push_size (u8 b))%nat then (if decide (j < length l)%nat then Some true else None)
             else push_data 0 (drop (push_size (u8 b)) l) !! (j - push_size (u8 b))%nat
    end.
Proof.
  destruct i as [| j]; [done |]. change (push_data 0 (b :: l) !! S j) with (push_data (push_size (u8 b)) l !! j).
  rewrite push_data_skip.
  destruct (decide (j < push_size (u8 b))%nat) as [Hlt | Hge].
  - destruct (decide (j < length l)%nat).
    + rewrite lookup_app_l by (rewrite length_replicate; lia). apply lookup_replicate_2. lia.
    + apply lookup_ge_None_2. rewrite length_app, length_replicate, push_data_length, length_drop. lia.
  - destruct (decide (push_size (u8 b) <= length l)%nat).
    + rewrite lookup_app_r by (rewrite length_replicate; lia). f_equal. rewrite length_replicate. lia.
    + rewrite (drop_ge l) by lia. cbn. rewrite app_nil_r. apply lookup_ge_None_2. rewrite length_replicate. lia.
Qed.

Lemma scan_code_spec fuel code bits pc :
  0 <= pc -> (zlen code < pc + Z.of_nat fuel) -> zlen bits = zlen code / 8 + 5 ->
  clear_from bits pc ->
  exists bits', scan_code fuel code bits pc = Ret bits' /\ zlen bits' = zlen bits /\
    (forall p, 0 <= p < pc -> tb bits' p = tb bits p) /\
    forall p, pc <= p < zlen code ->
      Some (tb bits' p) = push_data 0 (drop (Z.to_nat pc) code) !! Z.to_nat (p - pc).
Proof.
  revert bits pc. induction fuel as [| fuel IH]; intros bits pc Hpc Hf Hl Hc.
  { exists bits. split_and!; [done | done | done |]. intros p Hp. unfold zlen in *. lia. }
  cbn [scan_code]. destruct (Z.ltb_spec pc (zlen code)) as [Hlt | Hge].
  2: { exists bits. split_and!; [done | done | done |]. intros p Hp. lia. }
  destruct (lookup_lt_is_Some_2 code (Z.to_nat pc)) as [op Hop]; [unfold zlen in *; lia |].
  rewrite (idx_returns code pc op) by (done || lia). rewrite bind_Ret.
  assert (Hb : is_byte (u8 op)) by (apply Z.mod_pos_bound; lia).
  destruct (scan_op_spec bits (u8 op) pc) as (b1 & -> & Hl1 & H1); [done | done | done | lia |].
  rewrite bind_Ret. cbn [fst snd]. set (n := push_size (u8 op)) in *.
  destruct (IH b1 (pc + 1 + Z.of_nat n)) as (b2 & -> & Hl2 & Hlow & Hhigh); [lia | lia | congruence | |].
  { eapply (sets_run_clear bits b1 (pc + 1)); [lia | lia | | done]. intros p Hp. apply Hc. lia. }
  exists b2. split_and!; [done | congruence | |].
  - intros p Hp. rewrite Hlow, H1 by lia. destruct (Z.leb_spec (pc + 1) p); [lia |]. apply orb_false_r.
  - intros p Hp. rewrite (drop_S _ _ _ Hop), push_data_step. fold n.
    destruct (Z.to_nat (p - pc)) as [| j] eqn:Ej.
    { rewrite Hlow, H1, Hc by lia. destruct (Z.leb_spec (pc + 1) p); [lia | done]. }
    destruct (decide (j < n)%nat).
    + rewrite decide_True by (rewrite length_drop; unfold zlen in *; lia). rewrite Hlow, H1 by lia.
      destruct (Z.leb_spec (pc + 1) p), (Z.ltb_spec p (pc + 1 + Z.of_nat n)); try lia. by rewrite orb_true_r.
    + rewrite Hhigh by lia. rewrite drop_drop. f_equal; [lia |]. f_equal. f_equal. lia.
Qed.

Lemma codeSegment_tb bits p : 0 <= p -> p / 8 < zlen bits -> codeSegment bits p = Ret (negb (tb bits p)).
Proof.
  intros Hp Hl. unfold codeSegment, tb. assert (0 <= p / 8) by lia.
  destruct (lookup_lt_is_Some_2 bits (Z.to_nat (p / 8))) as [x Hx]; [unfold zlen in *; lia |].
  rewrite (idx_returns bits (p / 8) x) by (done || lia). rewrite bind_Ret, Hx. change (default 0 (Some x)) with x. f_equal.
  change 1 with (Z.ones 1). rewrite Z.land_ones by lia.
  change (2 ^ 1) with 2. rewrite <- Z.bit0_mod, Z.shiftr_spec, Z.add_0_l by (pose proof (Z.mod_pos_bound p 8); lia).
  by destruct (Z.testbit x (p mod 8)).
Qed.

Definition is_push_data (code : list Z) (p : Z) : bool := default false (push_data 0 code !! Z.to_nat p).

(** What the analysis of a program answers at every position of it. *)
Lemma codeBitmap_spec code :
  exists bits, codeBitmap code = Ret bits /\ zlen bits = zlen code / 8 + 5 /\
    forall p, 0 <= p < zlen code -> codeSegment bits p = Ret (negb (is_push_data code p)).
Proof.
  unfold codeBitmap, codeBitmapInternal. set (z := replicate _ 0).
  assert (Hz : zlen z = zlen code / 8 + 5) by (unfold z, zlen; rewrite length_replicate; unfold zlen; lia).
  destruct (scan_code_spec (S (length code)) code z 0) as (bits & -> & Hl & _ & Hm); [lia | unfold zlen; lia | done | |].
  { intros p Hp. unfold tb. destruct (z !! Z.to_nat (p / 8)) as [x |] eqn:E; cbn; [| apply Z.testbit_0_l].
    apply lookup_replicate_1 in E as [-> _]. apply Z.testbit_0_l. }
  exists bits. split_and!; [done | lia |]. intros p Hp. rewrite codeSegment_tb by lia. do 2 f_equal.
  specialize (Hm p Hp). change (drop (Z.to_nat 0) code) with code in Hm. rewrite Z.sub_0_r in Hm.
  unfold is_push_data. by rewrite <- Hm.
Qed.

(** C23: the optimised analysis is the plain walk over the code. For every code, the bit
    vector that [codeBitmap] fills with runs of up to sixteen bits at once is written
    within its bounds, and [codeSegment] reads from it, position by position, the list
    that a walk skipping the arguments of each PUSH gives. *)
Theorem codeBitmap_equiv code :
  exists bits, codeBitmap code = Ret bits /\
    map (codeSegment bits) (seqZ 0 (zlen code)) = map (fun b => Ret (negb b)) (push_data 0 code).
Proof.
  destruct (codeBitmap_spec code) as (bits & Hb & _ & Hs). exists bits. split; [done |].
  apply list_eq. intros i. rewrite !list_lookup_fmap.
  destruct (decide (i < length code)%nat) as [Hi | Hi].
  - rewrite lookup_seqZ_lt by (unfold zlen; lia). cbn [fmap option_fmap option_map]. rewrite Hs by (unfold zlen; lia). unfold is_push_data.
    rewrite Z.add_0_l, Nat2Z.id. destruct (lookup_lt_is_Some_2 (push_data 0 code) i) as [b ->]; [by rewrite push_data_length | done].
  - rewrite lookup_seqZ_ge, lookup_ge_None_2 by (unfold zlen; rewrite ?push_data_length; lia). done.
Qed.
