(* ===== verification/Machine.v ===== *)
(** * The data of the virtual machine

    The values the interpreter of [vm/] works on: 256-bit words, the stack
    ([stack.go]), the memory ([memory.go]), contracts ([contract.go]), the size
    arithmetic ([common.go], [memory_table.go]), the errors ([errors.go]) and the
    interface through which it reaches the account state ([interface.go]).

    The packages the machine only calls are arguments: [Uint256] is
    [holiman/uint256], [Crypto] the hash and signature functions, [Remote] the other
    shards. What the theorems need of words is stated in [Uint256Ok]. *)
From Stdlib Require Import ZArith Lia.
From stdpp Require Import base gmap strings list.
From S2P Require Import Prelude Utils JournalTypes Core StateDB Analysis.

(** ** Libraries *)

(** [uint256.Int]. [ToBig] is the value of a word. *)
Class Uint256 := {
  Int : Type;
  ToBig : Int -> Z;
  FromBig : Z -> Int;
  SetUint64 : Z -> Int;
  SetBytes : list Z -> Int;
  Uint64 : Int -> Z;
  IsUint64 : Int -> bool;
  IsZero : Int -> bool;
  Sign : Int -> Z;
  BitLen : Int -> Z;
  u_Add : Int -> Int -> Int;
  u_Sub : Int -> Int -> Int;
  u_Mul : Int -> Int -> Int;
  u_Div : Int -> Int -> Int;
  u_SDiv : Int -> Int -> Int;
  u_Mod : Int -> Int -> Int;
  u_SMod : Int -> Int -> Int;
  u_AddMod : Int -> Int -> Int -> Int;
  u_MulMod : Int -> Int -> Int -> Int;
  u_Exp : Int -> Int -> Int;
  u_ExtendSign : Int -> Int -> Int;
  u_Lt : Int -> Int -> bool;
  u_Gt : Int -> Int -> bool;
  u_Slt : Int -> Int -> bool;
  u_Sgt : Int -> Int -> bool;
  u_Eq : Int -> Int -> bool;
  u_And : Int -> Int -> Int;
  u_Or : Int -> Int -> Int;
  u_Xor : Int -> Int -> Int;
  u_Not : Int -> Int;
  u_Byte : Int -> Int -> Int;
  u_Lsh : Int -> Z -> Int;
  u_Rsh : Int -> Z -> Int;
  u_SRsh : Int -> Z -> Int;
  Uint64WithOverflow : Int -> Z * bool;
  LtUint64 : Int -> Z -> bool;
  GtUint64 : Int -> Z -> bool;
  Clear : Int;
  SetOne : Int;
  SetAllOne : Int;
  (* the low 20 bytes as an address, all 32 as a hash *)
  Bytes20 : Int -> Z;
  Bytes32 : Int -> Z
}.

(** What the interpreter relies on: a word has a value of 256 bits, of which [Uint64]
    is the low part and [IsUint64] tells whether it is the whole; addition is modulo
    2^256; constants and bytes have their value. *)
Class Uint256Ok (w : Uint256) : Prop := {
  ToBig_range : forall x, 0 <= ToBig x < 2 ^ 256;
  Uint64_spec : forall x, Uint64 x = ToBig x mod 2 ^ 64;
  IsUint64_spec : forall x, IsUint64 x = (ToBig x <? 2 ^ 64);
  Uint64WithOverflow_spec : forall x, Uint64WithOverflow x = (Uint64 x, negb (IsUint64 x));
  LtUint64_spec : forall x n, LtUint64 x n = (ToBig x <? n);
  IsZero_spec : forall x, IsZero x = (ToBig x =? 0);
  Add_spec : forall x y, ToBig (u_Add x y) = (ToBig x + ToBig y) mod 2 ^ 256;
  Gt_spec : forall x y, u_Gt x y = (ToBig y <? ToBig x);
  SetUint64_spec : forall n, 0 <= n < 2 ^ 64 -> ToBig (SetUint64 n) = n;
  SetBytes_spec : forall l, ToBig (SetBytes l) = bytes_to_Z l mod 2 ^ 256
}.

Definition of_bool `{w : Uint256} (b : bool) : Int := if b then SetOne else Clear.

(** [crypto] and the hash packages. *)
Class Crypto := {
  Keccak256 : list Z -> Z;
  Sha256 : list Z -> list Z;
  Ripemd160 : list Z -> list Z;
  ValidateSignatureValues : Z -> Z -> Z -> bool;
  Ecrecover : list Z -> list Z -> option (list Z);
  CreateAddress : Z -> Z -> Z;
  CreateAddress2 : Z -> Z -> Z -> Z
}.

(** ** Errors ([errors.go]) *)

(** [ErrOther] is an error built from a text: the answer of another shard, or that of a
    precompiled contract. *)
Inductive vmerr :=
| errStopToken | ErrOutOfGas | ErrCodeStoreOutOfGas | ErrDepth | ErrInsufficientBalance
| ErrContractAddressCollision | ErrExecutionReverted | ErrMaxInitCodeSizeExceeded | ErrInvalidJump
| ErrWriteProtection | ErrReturnDataOutOfBounds | ErrGasUintOverflow | ErrNonceUintOverflow
| ErrStackUnderflow (stackLen required : Z) | ErrStackOverflow (stackLen limit : Z)
| ErrInvalidOpCode (opcode : Z) | ErrOther (text : string).

#[export] Instance vmerr_eq_dec : EqDecision vmerr.
Proof. solve_decision. Defined.

(** ** Memory ([memory.go]) *)

Section Memory.
Context (maxAlloc : Z).

(** [copy] of [value] over the bytes of [store] from [off] on. *)
Definition copy_at (store : list Z) (off : Z) (value : list Z) : list Z :=
  let o := Z.to_nat off in
  let v := take (length store - o) value in
  take o store ++ v ++ drop (o + length v) store.

Definition mem_Set (store : list Z) (offset size : Z) (value : list Z) : outcome (list Z) :=
  if 0 <? size then
    if zlen store <? u64 (offset + size) then Panic "invalid memory: store empty"
    else _ ← slice store offset (u64 (offset + size));
         Ret (copy_at store offset (take (Z.to_nat size) value))
  else Ret store.

Definition mem_Set32 (store : list Z) (offset val : Z) : outcome (list Z) :=
  if zlen store <? u64 (offset + 32) then Panic "invalid memory: store empty"
  else _ ← slice store offset (zlen store); Ret (copy_at store offset (be_bytes 32 val)).

(** [Resize]: the allocation of the new bytes panics beyond the limit of the
    platform. *)
Definition mem_Resize (store : list Z) (size : Z) : outcome (list Z) :=
  if zlen store <? size then
    if maxAlloc <? size then Panic "makeslice: len out of range"
    else Ret (store ++ replicate (Z.to_nat (size - zlen store)) 0)
  else Ret store.

(** [GetCopy] and [GetPtr] read the same bytes. *)
Definition mem_GetCopy (store : list Z) (offset size : Z) : outcome (list Z) :=
  if size =? 0 then Ret [] else slice store offset (u64 (offset + size)).
Definition mem_GetPtr (store : list Z) (offset size : Z) : outcome (list Z) := mem_GetCopy store offset size.

Definition mem_Copy (store : list Z) (dst src len : Z) : outcome (list Z) :=
  if len =? 0 then Ret store
  else
    v ← slice store src (u64 (src + len));
    _ ← slice store dst (zlen store);
    Ret (copy_at store dst v).
End Memory.

(** ** Sizes ([common.go], [math.SafeMul], [math.SafeAdd]) *)

Definition MaxUint64 : Z := 2 ^ 64 - 1.

Definition toWordSize (size : Z) : Z :=
  if MaxUint64 - 31 <? size then MaxUint64 / 32 + 1 else (size + 31) / 32.

Definition SafeMul (x y : Z) : Z * bool := (u64 (x * y), 2 ^ 64 <=? x * y).
Definition SafeAdd (x y : Z) : Z * bool := (u64 (x + y), 2 ^ 64 <=? x + y).

(** [common.RightPadBytes] and [common.LeftPadBytes]. *)
Definition RightPadBytes (b : list Z) (l : Z) : list Z := b ++ replicate (Z.to_nat (l - zlen b)) 0.
Definition LeftPadBytes (b : list Z) (l : Z) : list Z := replicate (Z.to_nat (l - zlen b)) 0 ++ b.

Definition getData (data : list Z) (start size : Z) : outcome (list Z) :=
  let length := zlen data in
  let start := if length <? start then length else start in
  let e := u64 (start + size) in
  let e := if length <? e then length else e in
  d ← slice data start e;
  Ret (RightPadBytes d size).

Definition allZero (b : list Z) : bool := forallb (fun x => x =? 0) b.

Section Sizes.
Context `{w : Uint256}.

Definition calcMemSize64WithUint (off : Int) (length64 : Z) : Z * bool :=
  if length64 =? 0 then (0, false)
  else
    let '(offset64, overflow) := Uint64WithOverflow off in
    if overflow then (0, true)
    else let val := u64 (offset64 + length64) in (val, val <? offset64).

Definition calcMemSize64 (off l : Int) : Z * bool :=
  if IsUint64 l then calcMemSize64WithUint off (Uint64 l) else (0, true).

(** *** The stack ([stack.go]), its top first *)

Definition Back (st : list Int) (n : nat) : outcome Int := idx st (Z.of_nat n).

(** *** The memory an instruction touches ([memory_table.go]) *)

Definition memorySizeFunc := list Int -> outcome (Z * bool).

Definition size_at (off len : nat) : memorySizeFunc := fun st =>
  o ← Back st off; l ← Back st len; Ret (calcMemSize64 o l).

Definition memoryKeccak256 : memorySizeFunc := size_at 0 1.
Definition memoryCallDataCopy : memorySizeFunc := size_at 0 2.
Definition memoryReturnDataCopy : memorySizeFunc := size_at 0 2.
Definition memoryCodeCopy : memorySizeFunc := size_at 0 2.
Definition memoryExtCodeCopy : memorySizeFunc := size_at 1 3.
Definition memoryMLoad : memorySizeFunc := fun st => o ← Back st 0; Ret (calcMemSize64WithUint o 32).
Definition memoryMStore8 : memorySizeFunc := fun st => o ← Back st 0; Ret (calcMemSize64WithUint o 1).
Definition memoryMStore : memorySizeFunc := fun st => o ← Back st 0; Ret (calcMemSize64WithUint o 32).
Definition memoryMcopy : memorySizeFunc := fun st =>
  dst ← Back st 0; src ← Back st 1; len ← Back st 2;
  Ret (calcMemSize64 (if u_Gt src dst then src else dst) len).
Definition memoryCreate : memorySizeFunc := size_at 1 2.
Definition memoryCreate2 : memorySizeFunc := size_at 1 2.

(** The larger of the argument's and the result's range. *)
Definition memory_two (ro rs ao as_ : nat) : memorySizeFunc := fun st =>
  '(x, overflow) ← size_at ro rs st;
  if overflow : bool then Ret (0, true)
  else
    '(y, overflow) ← size_at ao as_ st;
    if overflow : bool then Ret (0, true) else Ret (if y <? x then x else y, false).

Definition memoryCall : memorySizeFunc := memory_two 5 6 3 4.
Definition memoryDelegateCall : memorySizeFunc := memory_two 4 5 2 3.
Definition memoryStaticCall : memorySizeFunc := memory_two 4 5 2 3.
Definition memoryReturn : memorySizeFunc := size_at 0 1.
Definition memoryRevert : memorySizeFunc := size_at 0 1.
Definition memoryLog : memorySizeFunc := size_at 0 1.

(** ** Contracts ([contract.go]) *)

Record Contract := mkContract {
  CallerAddress : Z;
  self : Z;
  analysis : option bitvec;
  Code : list Z;
  CodeHash : Z;
  Input : list Z;
  IsDeployment : bool;
  c_Gas : Z;
  c_value : option Int;
  c_UUID : string
}.

(** [ContractRef]: an account, or a contract that calls. *)
Inductive ContractRef := AccountRef (a : Z) | ContractOf (c : Contract).

Definition ref_Address (r : ContractRef) : Z :=
  match r with AccountRef a => a | ContractOf c => self c end.

(** The contract of a call, without code; the analyses found so far ([jumpdests]) are
    part of the machine's state. *)
Definition NewContract (caller : ContractRef) (object : Z) (value : option Int) (gas : Z) : Contract :=
  mkContract (ref_Address caller) object None [] 0 [] false gas value "".

Definition AsDelegate (caller : ContractRef) (c : Contract) : outcome Contract :=
  match caller with
  | AccountRef _ => Panic "interface conversion"
  | ContractOf parent =>
      Ret (mkContract (CallerAddress parent) (self c) (analysis c) (Code c) (CodeHash c) (Input c)
             (IsDeployment c) (c_Gas c) (c_value parent) (c_UUID c))
  end.

Definition SetCallCode (c : Contract) (hash : Z) (code : list Z) : Contract :=
  mkContract (CallerAddress c) (self c) (analysis c) code hash (Input c) (IsDeployment c) (c_Gas c)
    (c_value c) (c_UUID c).

Definition set_Input (c : Contract) (input : list Z) : Contract :=
  mkContract (CallerAddress c) (self c) (analysis c) (Code c) (CodeHash c) input (IsDeployment c) (c_Gas c)
    (c_value c) (c_UUID c).

Definition set_Gas (c : Contract) (gas : Z) : Contract :=
  mkContract (CallerAddress c) (self c) (analysis c) (Code c) (CodeHash c) (Input c) (IsDeployment c) gas
    (c_value c) (c_UUID c).

Definition set_analysis (c : Contract) (a : bitvec) : Contract :=
  mkContract (CallerAddress c) (self c) (Some a) (Code c) (CodeHash c) (Input c) (IsDeployment c) (c_Gas c)
    (c_value c) (c_UUID c).

Definition set_UUID (c : Contract) (u : string) : Contract :=
  mkContract (CallerAddress c) (self c) (analysis c) (Code c) (CodeHash c) (Input c) (IsDeployment c) (c_Gas c)
    (c_value c) u.

Definition set_deployment (c : Contract) : Contract :=
  mkContract (CallerAddress c) (self c) (analysis c) (Code c) (CodeHash c) (Input c) true (c_Gas c)
    (c_value c) (c_UUID c).

Definition GetOp (c : Contract) (n : Z) : outcome Z :=
  if n <? zlen (Code c) then idx (Code c) n else Ret 0.

(** [UseGas] and [RefundGas]. *)
Definition UseGas (c : Contract) (gas : Z) : Contract * bool :=
  if c_Gas c <? gas then (c, false) else (set_Gas c (u64 (c_Gas c - gas)), true).
Definition RefundGas (c : Contract) (gas : Z) : Contract :=
  if gas =? 0 then c else set_Gas c (u64 (c_Gas c + gas)).
End Sizes.

Arguments Contract {w}.
Arguments ContractRef {w}.
