(* ===== verification/Evm.v ===== *)
(** * Calls and contract creation

    Models [vm/evm.go] and the precompiled contracts it uses of [vm/contracts.go]: the
    entry points of a transaction ([Call], [Create]), the calls of the instructions
    ([OpCall], [CallCode], [DelegateCall], [StaticCall], [Create2]), their value
    transfers, snapshots and rollbacks, and the requests to other shards. The
    interpreter itself ([Run]) is an argument here, [run]; [Interpreter.v] ties the
    knot.

    A request to another shard is answered, or times out, in the same step: the
    goroutine that runs the machine does nothing else while it polls. *)
From Stdlib Require Import ZArith Lia.
From stdpp Require Import base gmap strings list.
From S2P Require Import Prelude Utils JournalTypes Core StateDB Analysis Machine.

(** ** The interface to the account state ([vm/interface.go]) *)

(** Every method may panic and may fill caches, so each gives a new state. The last
    one stands for [GetJournal().Entries = append(...)], which the machine performs on
    the state behind the interface. *)
Class StateDBI := {
  SDB : Type;
  i_CreateAccount : Z -> SDB -> outcome (SDB * unit);
  i_CreateContract : Z -> SDB -> outcome (SDB * unit);
  i_SubBalance : Z -> Z -> SDB -> outcome (SDB * unit);
  i_AddBalance : Z -> Z -> SDB -> outcome (SDB * unit);
  i_GetBalance : Z -> SDB -> outcome (SDB * Z);
  i_GetNonce : Z -> SDB -> outcome (SDB * Z);
  i_SetNonce : Z -> Z -> SDB -> outcome (SDB * unit);
  i_GetCodeHash : Z -> SDB -> outcome (SDB * Z);
  i_GetCode : Z -> SDB -> outcome (SDB * list Z);
  i_SetCode : Z -> list Z -> SDB -> outcome (SDB * unit);
  i_GetState : Z -> Z -> SDB -> outcome (SDB * Z);
  i_SetState : Z -> Z -> Z -> SDB -> outcome (SDB * unit);
  i_GetStorageRoot : Z -> SDB -> outcome (SDB * Z);
  i_GetTransientState : Z -> Z -> SDB -> outcome (SDB * Z);
  i_SetTransientState : Z -> Z -> Z -> SDB -> outcome (SDB * unit);
  i_Selfdestruct6780 : Z -> SDB -> outcome (SDB * unit);
  i_Exist : Z -> SDB -> outcome (SDB * bool);
  i_Empty : Z -> SDB -> outcome (SDB * bool);
  i_AddressInAccessList : Z -> SDB -> outcome (SDB * bool);
  i_SlotInAccessList : Z -> Z -> SDB -> outcome (SDB * (bool * bool));
  i_AddAddressToAccessList : Z -> SDB -> outcome (SDB * unit);
  i_AddSlotToAccessList : Z -> Z -> SDB -> outcome (SDB * unit);
  i_Prepare : SDB -> outcome (SDB * unit);
  i_AddLog : list Z -> SDB -> outcome (SDB * unit);
  i_Snapshot : SDB -> outcome (SDB * Z);
  i_RevertToSnapshot : Z -> SDB -> outcome (SDB * list RollbackMsg);
  i_AppendJournal : list JournalEntry -> SDB -> outcome (SDB * unit)
}.

(** ** Messages between shards ([message.go], [vm/state/A.go]) *)

Inductive CrossReq :=
| OpBalanceReq (Address : string) (FromShardId FromNodeId : Z)
| OpCallReq (Caller : list Z) (Addr Value Gas : Z) (Input : list Z) (FromShardId FromNodeId : Z) (Id UUID : string)
| OpStaticCallReq (Caller : list Z) (Addr Gas : Z) (Input : list Z) (FromShardId FromNodeId : Z) (Id UUID : string)
| OpCallCodeReq (Address : string) (FromShardId FromNodeId : Z)
| OpDelegateCallReq (Address : string) (FromShardId FromNodeId : Z)
| OpCreateReq (Caller : list Z) (Addr : Z) (Code : list Z) (Value Gas FromShardId FromNodeId : Z) (Id UUID : string).

Record OpCallRes := mkOpCallRes { cr_Journal : list Wrapper; cr_Ret : list Z; cr_Err : string; cr_Gas : Z }.
Record OpStaticCallRes := mkOpStaticCallRes { sr_Ret : list Z; sr_Err : string; sr_Gas : Z }.
Record OpCodeRes := mkOpCodeRes { or_CodeHash : Z; or_Code : list Z }.
Record OpCreateRes := mkOpCreateRes { kr_Addr : Z; kr_Ret : list Z; kr_Err : string; kr_Journal : list Wrapper }.

(** What a node sends while it executes. The last is the transaction that pays the fees
    of a contract to the coinbase account ([TransitionDb]). *)
Inductive EvmMsg :=
| Request (r : CrossReq) (to : string)
| Rollback (m : RollbackMsg)
| FeeTx (recipient : string) (value ToShardID : Z) (to : string).

(** The other shards: the answer to the last message of the history, or none in time,
    and the fresh identifiers of [uuid.New]. *)
Class Remote := {
  uuid : list EvmMsg -> string;
  balance_answer : list EvmMsg -> option Z;
  call_answer : list EvmMsg -> option OpCallRes;
  static_answer : list EvmMsg -> option OpStaticCallRes;
  code_answer : list EvmMsg -> option OpCodeRes;
  create_answer : list EvmMsg -> option OpCreateRes
}.

(** ** The machine *)

(** [BlockContext], [TxContext] and the configuration; [None] is a nil pointer. *)
Class EvmEnv := {
  GetHash : Z -> Z;
  Coinbase : Z;
  GasLimit : Z;
  BlockNumber : Z;
  BlockTime : Z;
  BaseFee : option Z;
  BlobBaseFee : option Z;
  Random : option Z;
  Origin : Z;
  GasPrice : option Z;
  BlobHashes : list Z;
  ChainID : option Z;
  aborted : bool;
  maxAlloc : Z
}.

Definition CallCreateDepth : Z := 1024.
Definition CallStipend : Z := 2300.

Section Machine.
Context `{w : Uint256} `{sdb : StateDBI} `{cr : Crypto}.

(** The state of an [EVM] and its interpreter that changes while it runs; [jumpdests]
    is the map the contracts of one transaction share. *)
Record Mach := mkMach {
  db : SDB;
  depth : Z;
  readOnly : bool;
  returnData : list Z;
  callGasTemp : Z;
  jumpdests : gmap Z bitvec;
  outbox : list EvmMsg
}.

Definition with_db (m : Mach) (s : SDB) : Mach :=
  mkMach s (depth m) (readOnly m) (returnData m) (callGasTemp m) (jumpdests m) (outbox m).
Definition with_depth (m : Mach) (d : Z) : Mach :=
  mkMach (db m) d (readOnly m) (returnData m) (callGasTemp m) (jumpdests m) (outbox m).
Definition with_readOnly (m : Mach) (b : bool) : Mach :=
  mkMach (db m) (depth m) b (returnData m) (callGasTemp m) (jumpdests m) (outbox m).
Definition with_returnData (m : Mach) (r : list Z) : Mach :=
  mkMach (db m) (depth m) (readOnly m) r (callGasTemp m) (jumpdests m) (outbox m).
Definition with_jumpdests (m : Mach) (j : gmap Z bitvec) : Mach :=
  mkMach (db m) (depth m) (readOnly m) (returnData m) (callGasTemp m) j (outbox m).
Definition with_outbox (m : Mach) (o : list EvmMsg) : Mach :=
  mkMach (db m) (depth m) (readOnly m) (returnData m) (callGasTemp m) (jumpdests m) o.

(** Computations on the machine. *)
Definition E (A : Type) : Type := Mach -> res (A * Mach).

#[global] Instance E_ret : MRet E := fun A a m => Val (a, m).
#[global] Instance E_bind : MBind E := fun A B f c m =>
  match c m with Val (a, m') => f a m' | Crash why => Crash why | Spin => Spin end.

Definition gets {A} (f : Mach -> A) : E A := fun m => Val (f m, m).
Definition modify (f : Mach -> Mach) : E unit := fun m => Val (tt, f m).
Definition E_of {A} (o : outcome A) : E A := fun m => match o with Ret a => Val (a, m) | Panic why => Crash why end.

(** A method of the account state. *)
Definition on_db {A} (op : SDB -> outcome (SDB * A)) : E A := fun m =>
  match op (db m) with Ret (s, a) => Val (a, with_db m s) | Panic why => Crash why end.

Definition send (msg : EvmMsg) : E unit := modify (fun m => with_outbox m (outbox m ++ [msg])).

(** ** Precompiled contracts ([contracts.go]) *)

(** [RequiredGas] and [Run]. *)
Record Precompiled := mkPrecompiled { RequiredGas : list Z -> Z; p_Run : list Z -> outcome (list Z * option vmerr) }.

Definition word_count (input : list Z) : Z := (zlen input + 31) / 32.

Definition dataCopy : Precompiled := mkPrecompiled (fun input => word_count input * 3 + 15) (fun input => Ret (input, None)).

Definition sha256hash : Precompiled :=
  mkPrecompiled (fun input => word_count input * 12 + 60) (fun input => Ret (Sha256 input, None)).

Definition ripemd160hash : Precompiled :=
  mkPrecompiled (fun input => word_count input * 120 + 600) (fun input => Ret (LeftPadBytes (Ripemd160 input) 32, None)).

Definition ecrecover : Precompiled := mkPrecompiled (fun _ => 3000) (fun input0 =>
  let input := RightPadBytes input0 128 in
  rb ← slice input 64 96;
  sb ← slice input 96 128;
  v0 ← idx input 63;
  pad ← slice input 32 63;
  let v := u8 (v0 - 27) in
  if negb (allZero pad) || negb (ValidateSignatureValues v (bytes_to_Z rb) (bytes_to_Z sb)) then Ret ([], None)
  else
    hash ← slice input 0 32;
    match Ecrecover hash (rb ++ sb ++ [v]) with
    | None => Ret ([], None)
    | Some pubKey =>
        rest ← slice pubKey 1 (zlen pubKey);
        Ret (LeftPadBytes (drop 12 (be_bytes 32 (Keccak256 rest))) 32, None)
    end).

(** [PrecompiledContractsHomestead], the set [activePrecompiledContracts] returns. *)
Definition precompile (addr : Z) : option Precompiled :=
  if addr =? 1 then Some ecrecover
  else if addr =? 2 then Some sha256hash
  else if addr =? 3 then Some ripemd160hash
  else if addr =? 4 then Some dataCopy
  else None.

(** The check of the supplied gas is commented out: the subtraction wraps. *)
Definition RunPrecompiledContract (p : Precompiled) (input : list Z) (suppliedGas : Z) : E (list Z * Z * option vmerr) :=
  r ← E_of (p_Run p input);
  mret (fst r, u64 (suppliedGas - u64 (RequiredGas p input)), snd r).

(** ** Value transfers *)

Definition CanTransfer (addr : Z) (amount : Int) : E bool :=
  b ← on_db (i_GetBalance addr); mret (ToBig amount <=? b).

Definition Transfer (sender recipient : Z) (amount : Int) : E unit :=
  _ ← on_db (i_SubBalance sender (ToBig amount)); on_db (i_AddBalance recipient (ToBig amount)).

Definition Transfer1 (sender recipient : Z) (amount : Int) : E unit := on_db (i_SubBalance sender (ToBig amount)).

(** ** Calls ([evm.go]) *)

Context `{cfg : Config} `{env : NodeEnv} `{rem : Remote}.
Context (run : Contract -> list Z -> bool -> E (list Z * option vmerr * Z)).

(** [Get_PartitionMap] of [vm/state_transition.go]: the partition map is not read. *)
Definition vm_Get_PartitionMap (key : string) : outcome Z := s ← Addr2Shard key; Ret (u64 s).

Definition address_hex (addr : Z) : string := EncodeToString (be_bytes 20 addr).

Definition shard_of (addr : Z) : E Z := E_of (vm_Get_PartitionMap (address_hex addr)).

(** The first node of a shard; a missing entry of the table is the empty string. *)
Definition node0 (shard : Z) : string := default "" (default ∅ (Ip_nodeTable !! shard) !! 0).

(** A contract called from an account starts with no analyses; one called from a
    contract shares those of its caller. *)
Definition new_contract (caller : ContractRef) (object : Z) (value : option Int) (gas : Z) : E Contract :=
  _ ← modify (fun m => match caller with AccountRef _ => with_jumpdests m ∅ | ContractOf _ => m end);
  mret (NewContract caller object value gas).

Definition append_journal (l : list Wrapper) : E unit := on_db (i_AppendJournal (map OriginalObj l)).

(** The end of every call: an error rolls the state back, and takes the gas unless the
    code reverted. *)
Definition finish_call (snapshot : Z) (r : list Z * Z * option vmerr) : E (list Z * Z * option vmerr) :=
  let '(ret, gas, err) := r in
  match err with
  | None => mret (ret, gas, None)
  | Some e =>
      msgs ← on_db (i_RevertToSnapshot snapshot);
      _ ← modify (fun m => with_outbox m (outbox m ++ map Rollback msgs));
      mret (ret, if decide (e = ErrExecutionReverted) then gas else 0, Some e)
  end.

(** A call to a contract of another shard. *)
Definition remote_call (caller : Z) (addr : Z) (input : list Z) (gas : Z) (value : Int) (shard : Z) (UUID : string)
  : E (list Z * Z * option vmerr) :=
  o ← gets outbox;
  _ ← send (Request (OpCallReq (be_bytes 20 caller) addr (Uint64 value) gas input ShardID NodeID (uuid o) UUID) (node0 shard));
  o1 ← gets outbox;
  let r := default (mkOpCallRes [] [] "timeout" 0) (call_answer o1) in
  if decide (cr_Err r = "") then
    _ ← append_journal (cr_Journal r); mret (cr_Ret r, cr_Gas r, None)
  else mret ([], cr_Gas r, Some (ErrOther (cr_Err r))).

(** The debit of a call, and the credit when the account is of this shard. *)
Definition call_transfer (caller addr : Z) (value : Int) (shard : Z) : E unit :=
  if shard =? ShardID then
    exist ← on_db (i_Exist addr);
    _ ← (if exist : bool then mret tt else on_db (i_CreateAccount addr));
    Transfer caller addr value
  else Transfer1 caller addr value.

(** The code at [addr], run in its own context. *)
Definition run_code (caller : ContractRef) (addr : Z) (input : list Z) (gas : Z) (value : Int) (UUID : string)
  : E (list Z * Z * option vmerr) :=
  code ← on_db (i_GetCode addr);
  match code with
  | [] => mret ([], gas, None)
  | _ =>
      c ← new_contract caller addr (Some value) gas;
      hash ← on_db (i_GetCodeHash addr);
      '(ret, err, rest) ← run (SetCallCode (set_UUID c UUID) hash code) input false;
      mret (ret, rest, err)
  end.

(** The bodies of [Call] and [OpCall] differ in the identifier of the transaction they
    hand on: to another shard ([UUID]) and to the contract called ([UUID']). This is the
    part from the snapshot on. *)
Definition call_run (caller : ContractRef) (addr : Z) (input : list Z) (gas : Z) (value : Int) (UUID : outcome string)
  (UUID' : string) : E (list Z * Z * option vmerr) :=
  snapshot ← on_db i_Snapshot;
  shard ← shard_of addr;
  _ ← call_transfer (ref_Address caller) addr value shard;
  r ← match precompile addr with
      | Some p => RunPrecompiledContract p input gas
      | None =>
          if shard =? ShardID then run_code caller addr input gas value UUID'
          else u ← E_of UUID; remote_call (ref_Address caller) addr input gas value shard u
      end;
  finish_call snapshot r.

Definition call_body (caller : ContractRef) (addr : Z) (input : list Z) (gas : Z) (value : Int) (UUID : outcome string)
  (UUID' : string) : E (list Z * Z * option vmerr) :=
  d ← gets depth;
  if CallCreateDepth <? d then mret ([], gas, Some ErrDepth)
  else
    can ← (if IsZero value then mret true else CanTransfer (ref_Address caller) value);
    if negb can then mret ([], gas, Some ErrInsufficientBalance)
    else call_run caller addr input gas value UUID UUID'.

Definition Call (caller : ContractRef) (addr : Z) (input : list Z) (gas : Z) (value : Int) (UUID : string)
  : E (list Z * Z * option vmerr) :=
  call_body caller addr input gas value (Ret UUID) UUID.

(** The identifier of a caller that is a contract; the type assertion panics on another. *)
Definition caller_UUID (caller : ContractRef) : outcome string :=
  match caller with AccountRef _ => Panic "interface conversion" | ContractOf c => Ret (c_UUID c) end.

Definition OpCall (caller : ContractRef) (addr : Z) (input : list Z) (gas : Z) (value : Int)
  : E (list Z * Z * option vmerr) :=
  call_body caller addr input gas value (caller_UUID caller) "".

(** The code of an account, from this shard or from its own; [req] is the request. *)
Definition fetch_code (req : CrossReq) (addr shard : Z) : E OpCodeRes :=
  if shard =? ShardID then
    hash ← on_db (i_GetCodeHash addr); code ← on_db (i_GetCode addr); mret (mkOpCodeRes hash code)
  else
    _ ← send (Request req (node0 shard));
    o ← gets outbox;
    mret (default (mkOpCodeRes 0 []) (code_answer o)).

Definition CallCode (caller : ContractRef) (addr : Z) (input : list Z) (gas : Z) (value : Int)
  : E (list Z * Z * option vmerr) :=
  d ← gets depth;
  if CallCreateDepth <? d then mret ([], gas, Some ErrDepth)
  else
    can ← CanTransfer (ref_Address caller) value;
    if negb can then mret ([], gas, Some ErrInsufficientBalance)
    else
      snapshot ← on_db i_Snapshot;
      r ← match precompile addr with
          | Some p => RunPrecompiledContract p input gas
          | None =>
              c ← new_contract caller (ref_Address caller) (Some value) gas;
              shard ← shard_of addr;
              res ← fetch_code (OpCallCodeReq (address_hex addr) ShardID NodeID) addr shard;
              '(ret, err, rest) ← run (SetCallCode c (or_CodeHash res) (or_Code res)) input false;
              mret (ret, rest, err)
          end;
      finish_call snapshot r.

Definition DelegateCall (caller : ContractRef) (addr : Z) (input : list Z) (gas : Z)
  : E (list Z * Z * option vmerr) :=
  d ← gets depth;
  if CallCreateDepth <? d then mret ([], gas, Some ErrDepth)
  else
    snapshot ← on_db i_Snapshot;
    r ← match precompile addr with
        | Some p => RunPrecompiledContract p input gas
        | None =>
            c0 ← new_contract caller (ref_Address caller) None gas;
            c ← E_of (AsDelegate caller c0);
            shard ← shard_of addr;
            res ← fetch_code (OpDelegateCallReq (address_hex addr) ShardID NodeID) addr shard;
            '(ret, err, rest) ← run (SetCallCode c (or_CodeHash res) (or_Code res)) input false;
            mret (ret, rest, err)
        end;
    finish_call snapshot r.

Definition remote_static (caller : ContractRef) (addr : Z) (input : list Z) (gas shard : Z)
  : E (list Z * Z * option vmerr) :=
  o ← gets outbox;
  u ← E_of (caller_UUID caller);
  _ ← send (Request (OpStaticCallReq (be_bytes 20 (ref_Address caller)) addr gas input ShardID NodeID (uuid o) u) (node0 shard));
  o1 ← gets outbox;
  let r := default (mkOpStaticCallRes [] "timeout" 0) (static_answer o1) in
  if decide (sr_Err r = "") then mret (sr_Ret r, sr_Gas r, None)
  else mret ([], sr_Gas r, Some (ErrOther (sr_Err r))).

Definition StaticCall (caller : ContractRef) (addr : Z) (input : list Z) (gas : Z)
  : E (list Z * Z * option vmerr) :=
  d ← gets depth;
  if CallCreateDepth <? d then mret ([], gas, Some ErrDepth)
  else
    snapshot ← on_db i_Snapshot;
    r ← match precompile addr with
        | Some p => RunPrecompiledContract p input gas
        | None =>
            shard ← shard_of addr;
            if shard =? ShardID then
              c ← new_contract caller addr (Some Clear) gas;
              hash ← on_db (i_GetCodeHash addr);
              code ← on_db (i_GetCode addr);
              '(ret, err, rest) ← run (SetCallCode c hash code) input true;
              mret (ret, rest, err)
            else remote_static caller addr input gas shard
        end;
    finish_call snapshot r.

(** *** Creation *)

Definition InitNewContract (c : Contract) (address : Z) : E (list Z * option vmerr * Z) :=
  '(ret, err, rest) ← run c [] false;
  match err with
  | Some _ => mret (ret, err, rest)
  | None => _ ← on_db (i_SetCode address ret); mret (ret, None, rest)
  end.

(** Whether something is already at the address: a nonce, code or storage. *)
Definition collides (address : Z) : E bool :=
  contractHash ← on_db (i_GetCodeHash address);
  storageRoot ← on_db (i_GetStorageRoot address);
  n ← on_db (i_GetNonce address);
  mret (negb (n =? 0) || (negb (contractHash =? 0) && negb (contractHash =? EmptyCodeHash))
        || (negb (storageRoot =? 0) && negb (storageRoot =? EmptyRootHash))).

(** Creation on this shard: the account, the value and the constructor's run. The gas
    of a failed constructor is kept. *)
Definition create_local (caller : ContractRef) (code : list Z) (hash gas : Z) (value : Int) (address : Z)
  : E (list Z * Z * Z * option vmerr) :=
  hit ← collides address;
  if hit : bool then mret ([], 0, 0, Some ErrContractAddressCollision)
  else
    snapshot ← on_db i_Snapshot;
    exist ← on_db (i_Exist address);
    _ ← (if exist : bool then mret tt else on_db (i_CreateAccount address));
    _ ← on_db (i_CreateContract address);
    _ ← Transfer (ref_Address caller) address value;
    c0 ← new_contract caller address (Some value) gas;
    '(ret, err, rest) ← InitNewContract (set_deployment (SetCallCode c0 hash code)) address;
    match err with
    | None => mret (ret, address, rest, None)
    | Some e =>
        msgs ← on_db (i_RevertToSnapshot snapshot);
        _ ← modify (fun m => with_outbox m (outbox m ++ map Rollback msgs));
        mret (ret, address, rest, Some e)
    end.

(** Creation on another shard: the caller is debited after the answer, and the debit
    rolled back on an error. *)
Definition create_remote (caller : ContractRef) (code : list Z) (gas : Z) (value : Int) (address shard : Z) (UUID : string)
  : E (list Z * Z * Z * option vmerr) :=
  snapshot ← on_db i_Snapshot;
  o ← gets outbox;
  _ ← send (Request (OpCreateReq (be_bytes 20 (ref_Address caller)) address code (Uint64 value) gas ShardID NodeID (uuid o) UUID)
              (node0 shard));
  o1 ← gets outbox;
  let r := default (mkOpCreateRes 0 [] "timeout" []) (create_answer o1) in
  _ ← on_db (i_SubBalance (ref_Address caller) (ToBig value));
  if decide (kr_Err r = "") then
    _ ← append_journal (kr_Journal r); mret (kr_Ret r, address, gas, None)
  else
    msgs ← on_db (i_RevertToSnapshot snapshot);
    _ ← modify (fun m => with_outbox m (outbox m ++ map Rollback msgs));
    mret (kr_Ret r, kr_Addr r, 0, Some (ErrOther (kr_Err r))).

Definition create (caller : ContractRef) (code : list Z) (hash gas : Z) (value : Int) (address : Z) (UUID : string)
  : E (list Z * Z * Z * option vmerr) :=
  d ← gets depth;
  if CallCreateDepth <? d then mret ([], 0, gas, Some ErrDepth)
  else
    can ← CanTransfer (ref_Address caller) value;
    if negb can then mret ([], 0, gas, Some ErrInsufficientBalance)
    else
      nonce ← on_db (i_GetNonce (ref_Address caller));
      if u64 (nonce + 1) <? nonce then mret ([], 0, gas, Some ErrNonceUintOverflow)
      else
        _ ← on_db (i_SetNonce (ref_Address caller) (u64 (nonce + 1)));
        shard ← shard_of address;
        if shard =? ShardID then create_local caller code hash gas value address
        else create_remote caller code gas value address shard UUID.

(** The hash of the code is only computed, and so only set, for [Create2]. *)
Definition Create (caller : ContractRef) (code : list Z) (gas : Z) (value : Int) (UUID : string)
  : E (list Z * Z * Z * option vmerr) :=
  nonce ← on_db (i_GetNonce (ref_Address caller));
  create caller code 0 gas value (CreateAddress (ref_Address caller) nonce) UUID.

Definition Create2 (caller : ContractRef) (code : list Z) (gas : Z) (endowment salt : Int) (UUID : string)
  : E (list Z * Z * Z * option vmerr) :=
  let hash := Keccak256 code in
  create caller code hash gas endowment (CreateAddress2 (ref_Address caller) (Bytes32 salt) hash) UUID.
End Machine.
