(* ===== verification/Instructions.v ===== *)
(** * The instructions

    Models [vm/instructions.go], the instructions of [vm/eips.go], the dynamic gas
    functions the active table refers to ([vm/gas_table.go], [vm/operations_acl.go]) and
    the jump destinations of [vm/contract.go].

    An instruction works on a frame, the program counter, stack, memory and contract of
    one call ([ScopeContext]), and on the machine. It gives the data returned and an
    error; [errStopToken] ends the run without one. *)
From Stdlib Require Import ZArith Lia.
From stdpp Require Import base gmap strings list.
From S2P Require Import Prelude Utils JournalTypes StateDB Analysis Machine Evm.

(** ** Opcodes ([opcodes.go]) that the code names *)

Definition JUMPDEST : Z := 0x5b.

Section Instructions.
Context `{w : Uint256} `{sdb : StateDBI} `{cr : Crypto} `{cfg : Config} `{env : NodeEnv} `{rem : Remote} `{ctx : EvmEnv}.

Record Frame := mkFrame {
  pc : Z;
  stack : list Int;
  store : list Z;
  lastGasCost : Z;
  contract : Contract
}.

Definition with_pc (f : Frame) (p : Z) : Frame := mkFrame p (stack f) (store f) (lastGasCost f) (contract f).
Definition with_stack (f : Frame) (s : list Int) : Frame := mkFrame (pc f) s (store f) (lastGasCost f) (contract f).
Definition with_store (f : Frame) (s : list Z) : Frame := mkFrame (pc f) (stack f) s (lastGasCost f) (contract f).
Definition with_cost (f : Frame) (g : Z) : Frame := mkFrame (pc f) (stack f) (store f) g (contract f).
Definition with_contract (f : Frame) (c : Contract) : Frame := mkFrame (pc f) (stack f) (store f) (lastGasCost f) c.

(** Computations on a frame and the machine. *)
Definition I (A : Type) : Type := Frame -> E (A * Frame).

#[global] Instance I_ret : MRet I := fun A a f m => Val (a, f, m).
#[global] Instance I_bind : MBind I := fun A B g c f m =>
  match c f m with Val (a, f', m') => g a f' m' | Crash why => Crash why | Spin => Spin end.

Definition frame : I Frame := fun f m => Val (f, f, m).
Definition update (g : Frame -> Frame) : I unit := fun f m => Val (tt, g f, m).
Definition evm {A} (c : E A) : I A := fun f m =>
  match c m with Val (a, m') => Val (a, f, m') | Crash why => Crash why | Spin => Spin end.
Definition try {A} (o : outcome A) : I A := evm (E_of o).

(** *** The stack *)

Definition push (x : Int) : I unit := update (fun f => with_stack f (x :: stack f)).

Definition pop : I Int :=
  f ← frame;
  match stack f with
  | [] => try (Panic "index out of range")
  | x :: st => _ ← update (fun f => with_stack f st); mret x
  end.

Definition back (n : nat) : I Int := f ← frame; try (Back (stack f) n).
Definition peek : I Int := back 0.

(** Writing through the pointer [peek] returns. *)
Definition set_top (x : Int) : I unit := _ ← pop; push x.

Definition dup (n : nat) : I unit := x ← back (n - 1); push x.

Definition swap (n : nat) : I unit :=
  f ← frame;
  x ← back 0;
  y ← back n;
  update (fun f => with_stack f (<[n := x]> (<[O := y]> (stack f)))).

(** *** The memory *)

Definition on_store (op : list Z -> outcome (list Z)) : I unit :=
  f ← frame; s ← try (op (store f)); update (fun f => with_store f s).

Definition read_store (op : list Z -> outcome (list Z)) : I (list Z) := f ← frame; try (op (store f)).

(** *** Results *)

Definition Result : Type := list Z * option vmerr.
Definition ok : I Result := mret ([], None).
Definition fail (e : vmerr) : I Result := mret ([], Some e).

(** ** Arithmetic and logic *)

Definition binop (g : Int -> Int -> Int) : I Result :=
  x ← pop; y ← peek; _ ← set_top (g x y); ok.

Definition opAdd : I Result := binop u_Add.
Definition opSub : I Result := binop u_Sub.
Definition opMul : I Result := binop u_Mul.
Definition opDiv : I Result := binop u_Div.
Definition opSdiv : I Result := binop u_SDiv.
Definition opMod : I Result := binop u_Mod.
Definition opSmod : I Result := binop u_SMod.
Definition opExp : I Result := binop u_Exp.
Definition opSignExtend : I Result := binop (fun back num => u_ExtendSign num back).
Definition opNot : I Result := x ← peek; _ ← set_top (u_Not x); ok.
Definition opLt : I Result := binop (fun x y => of_bool (u_Lt x y)).
Definition opGt : I Result := binop (fun x y => of_bool (u_Gt x y)).
Definition opSlt : I Result := binop (fun x y => of_bool (u_Slt x y)).
Definition opSgt : I Result := binop (fun x y => of_bool (u_Sgt x y)).
Definition opEq : I Result := binop (fun x y => of_bool (u_Eq x y)).
Definition opIszero : I Result := x ← peek; _ ← set_top (of_bool (IsZero x)); ok.
Definition opAnd : I Result := binop u_And.
Definition opOr : I Result := binop u_Or.
Definition opXor : I Result := binop u_Xor.
Definition opByte : I Result := binop (fun th val => u_Byte val th).

Definition opAddmod : I Result := x ← pop; y ← pop; z ← peek; _ ← set_top (u_AddMod x y z); ok.
Definition opMulmod : I Result := x ← pop; y ← pop; z ← peek; _ ← set_top (u_MulMod x y z); ok.

Definition opSHL : I Result :=
  binop (fun shift value => if LtUint64 shift 256 then u_Lsh value (Uint64 shift) else Clear).
Definition opSHR : I Result :=
  binop (fun shift value => if LtUint64 shift 256 then u_Rsh value (Uint64 shift) else Clear).
Definition opSAR : I Result :=
  binop (fun shift value =>
    if GtUint64 shift 256 then (if 0 <=? Sign value then Clear else SetAllOne)
    else u_SRsh value (Uint64 shift)).

(** [EnablePreimageRecording] is off in every configuration the program builds. *)
Definition opKeccak256 : I Result :=
  offset ← pop; size ← peek;
  d ← read_store (fun s => mem_GetPtr s (Uint64 offset) (Uint64 size));
  _ ← set_top (SetBytes (be_bytes 32 (Keccak256 d))); ok.

(** ** Environment *)

Definition push_bytes (l : list Z) : I Result := _ ← push (SetBytes l); ok.
Definition push_uint64 (n : Z) : I Result := _ ← push (SetUint64 n); ok.

(** [uint256.FromBig] of a nil pointer, and the push of its result, dereference it. *)
Definition push_big (b : option Z) : I Result := v ← try (deref b); _ ← push (FromBig v); ok.

Definition opAddress : I Result := f ← frame; push_bytes (be_bytes 20 (self (contract f))).
Definition opOrigin : I Result := push_bytes (be_bytes 20 Origin).
Definition opCaller : I Result := f ← frame; push_bytes (be_bytes 20 (CallerAddress (contract f))).
Definition opCallValue : I Result := f ← frame; v ← try (deref (c_value (contract f))); _ ← push v; ok.

(** A balance of another shard is asked for; no answer counts as zero. *)
Definition opBalance : I Result :=
  slot ← peek;
  let address := Bytes20 slot in
  shard ← evm (shard_of address);
  v ← (if shard =? ShardID then b ← evm (on_db (i_GetBalance address)); mret (FromBig b)
       else
         _ ← evm (send (Request (OpBalanceReq (address_hex address) ShardID NodeID) (node0 shard)));
         o ← evm (gets outbox);
         mret (SetUint64 (default 0 (balance_answer o))));
  _ ← set_top v; ok.

Definition opSelfBalance : I Result :=
  f ← frame; b ← evm (on_db (i_GetBalance (self (contract f)))); _ ← push (FromBig b); ok.

Definition opCallDataLoad : I Result :=
  x ← peek; f ← frame;
  let '(offset, overflow) := Uint64WithOverflow x in
  v ← (if overflow : bool then mret Clear
       else d ← try (getData (Input (contract f)) offset 32); mret (SetBytes d));
  _ ← set_top v; ok.

Definition opCallDataSize : I Result := f ← frame; push_uint64 (zlen (Input (contract f))).

(** The offset into the data copied; one beyond 64 bits is the largest of 64. *)
Definition data_offset (x : Int) : Z :=
  let '(o, overflow) := Uint64WithOverflow x in if overflow : bool then MaxUint64 else o.

Definition opCallDataCopy : I Result :=
  memOffset ← pop; dataOffset ← pop; length ← pop; f ← frame;
  d ← try (getData (Input (contract f)) (data_offset dataOffset) (Uint64 length));
  _ ← on_store (fun s => mem_Set s (Uint64 memOffset) (Uint64 length) d); ok.

Definition opReturnDataSize : I Result := r ← evm (gets returnData); push_uint64 (zlen r).

Definition opReturnDataCopy : I Result :=
  memOffset ← pop; dataOffset ← pop; length ← pop;
  r ← evm (gets returnData);
  let '(offset64, overflow) := Uint64WithOverflow dataOffset in
  if overflow : bool then fail ErrReturnDataOutOfBounds
  else
    let '(end64, overflow) := Uint64WithOverflow (u_Add dataOffset length) in
    if (overflow : bool) || (zlen r <? end64) then fail ErrReturnDataOutOfBounds
    else
      d ← try (slice r offset64 end64);
      _ ← on_store (fun s => mem_Set s (Uint64 memOffset) (Uint64 length) d); ok.

Definition opExtCodeSize : I Result :=
  slot ← peek; c ← evm (on_db (i_GetCode (Bytes20 slot))); _ ← set_top (SetUint64 (zlen c)); ok.

Definition opCodeSize : I Result := f ← frame; push_uint64 (zlen (Code (contract f))).

Definition opCodeCopy : I Result :=
  memOffset ← pop; codeOffset ← pop; length ← pop; f ← frame;
  d ← try (getData (Code (contract f)) (data_offset codeOffset) (Uint64 length));
  _ ← on_store (fun s => mem_Set s (Uint64 memOffset) (Uint64 length) d); ok.

Definition opExtCodeCopy : I Result :=
  a ← pop; memOffset ← pop; codeOffset ← pop; length ← pop;
  code ← evm (on_db (i_GetCode (Bytes20 a)));
  d ← try (getData code (data_offset codeOffset) (Uint64 length));
  _ ← on_store (fun s => mem_Set s (Uint64 memOffset) (Uint64 length) d); ok.

Definition opExtCodeHash : I Result :=
  slot ← peek;
  empty ← evm (on_db (i_Empty (Bytes20 slot)));
  v ← (if empty : bool then mret Clear
       else h ← evm (on_db (i_GetCodeHash (Bytes20 slot))); mret (SetBytes (be_bytes 32 h)));
  _ ← set_top v; ok.

Definition opGasprice : I Result := push_big GasPrice.

Definition opBlockhash : I Result :=
  num ← peek;
  let '(num64, overflow) := Uint64WithOverflow num in
  let upper := u64 BlockNumber in
  let lower := if upper <? 257 then 0 else upper - 256 in
  _ ← set_top (if overflow : bool then Clear
               else if (lower <=? num64) && (num64 <? upper) then SetBytes (be_bytes 32 (GetHash num64))
               else Clear);
  ok.

Definition opCoinbase : I Result := push_bytes (be_bytes 20 Coinbase).
Definition opTimestamp : I Result := push_uint64 BlockTime.
Definition opNumber : I Result := push_big (Some BlockNumber).
Definition opRandom : I Result := h ← try (deref Random); push_bytes (be_bytes 32 h).
Definition opGasLimit : I Result := push_uint64 GasLimit.
Definition opChainID : I Result := push_big ChainID.
Definition opBaseFee : I Result := push_big BaseFee.
Definition opBlobBaseFee : I Result := push_big BlobBaseFee.

Definition opBlobHash : I Result :=
  index ← peek;
  v ← (if LtUint64 index (zlen BlobHashes)
       then h ← try (idx BlobHashes (Uint64 index)); mret (SetBytes (be_bytes 32 h))
       else mret Clear);
  _ ← set_top v; ok.

(** ** Stack, memory, storage and control *)

Definition opPop : I Result := _ ← pop; ok.

Definition opMload : I Result :=
  v ← peek;
  d ← read_store (fun s => mem_GetPtr s (Uint64 v) 32);
  _ ← set_top (SetBytes d); ok.

Definition opMstore : I Result :=
  mStart ← pop; val ← pop;
  _ ← on_store (fun s => mem_Set32 s (Uint64 mStart) (Bytes32 val)); ok.

Definition opMstore8 : I Result :=
  off ← pop; val ← pop;
  _ ← on_store (fun s => set_idx s (Uint64 off) (u8 (Uint64 val))); ok.

Definition opSload : I Result :=
  loc ← peek; f ← frame;
  v ← evm (on_db (i_GetState (self (contract f)) (Bytes32 loc)));
  _ ← set_top (SetBytes (be_bytes 32 v)); ok.

Definition opSstore : I Result :=
  ro ← evm (gets readOnly);
  if ro : bool then fail ErrWriteProtection
  else
    loc ← pop; val ← pop; f ← frame;
    _ ← evm (on_db (i_SetState (self (contract f)) (Bytes32 loc) (Bytes32 val))); ok.

Definition opTload : I Result :=
  loc ← peek; f ← frame;
  v ← evm (on_db (i_GetTransientState (self (contract f)) (Bytes32 loc)));
  _ ← set_top (SetBytes (be_bytes 32 v)); ok.

Definition opTstore : I Result :=
  ro ← evm (gets readOnly);
  if ro : bool then fail ErrWriteProtection
  else
    loc ← pop; val ← pop; f ← frame;
    _ ← evm (on_db (i_SetTransientState (self (contract f)) (Bytes32 loc) (Bytes32 val))); ok.

(** [isCode]: the analysis of this contract, of its code hash, or a fresh one. *)
Definition isCode (udest : Z) : I bool :=
  f ← frame;
  let c := contract f in
  match analysis c with
  | Some a => try (codeSegment a udest)
  | None =>
      j ← evm (gets jumpdests);
      a ← (if CodeHash c =? 0 then try (codeBitmap (Code c))
           else match j !! CodeHash c with
                | Some a => mret a
                | None =>
                    a ← try (codeBitmap (Code c));
                    _ ← evm (modify (fun m => with_jumpdests m (<[CodeHash c := a]> (jumpdests m))));
                    mret a
                end);
      _ ← update (fun f => with_contract f (set_analysis (contract f) a));
      try (codeSegment a udest)
  end.

Definition validJumpdest (dest : Int) : I bool :=
  f ← frame;
  let code := Code (contract f) in
  let '(udest, overflow) := Uint64WithOverflow dest in
  if (overflow : bool) || (zlen code <=? udest) then mret false
  else
    b ← try (idx code udest);
    if negb (b =? JUMPDEST) then mret false else isCode udest.

(** [*pc = pos.Uint64() - 1]; the interpreter's loop adds one. *)
Definition jump_to (pos : Int) : I Result :=
  valid ← validJumpdest pos;
  if valid : bool then _ ← update (fun f => with_pc f (u64 (Uint64 pos - 1))); ok else fail ErrInvalidJump.

Definition opJump : I Result :=
  if aborted then fail errStopToken else pos ← pop; jump_to pos.

Definition opJumpi : I Result :=
  if aborted then fail errStopToken
  else pos ← pop; cond ← pop; if IsZero cond then ok else jump_to pos.

Definition opJumpdest : I Result := ok.
Definition opPc : I Result := f ← frame; push_uint64 (pc f).
Definition opMsize : I Result := f ← frame; push_uint64 (zlen (store f)).
Definition opGas : I Result := f ← frame; push_uint64 (c_Gas (contract f)).
Definition opSwap (n : nat) : I Result := _ ← swap n; ok.
Definition makeDup (n : nat) : I Result := _ ← dup n; ok.

Definition opMcopy : I Result :=
  dst ← pop; src ← pop; length ← pop;
  _ ← on_store (fun s => mem_Copy s (Uint64 dst) (Uint64 src) (Uint64 length)); ok.

Definition opPush0 : I Result := _ ← push Clear; ok.

Definition opPush1 : I Result :=
  _ ← update (fun f => with_pc f (u64 (pc f + 1)));
  f ← frame;
  if pc f <? zlen (Code (contract f)) then b ← try (idx (Code (contract f)) (pc f)); push_uint64 b
  else _ ← push Clear; ok.

(** [makePush]: the position after a byte of the code fits an [int]. *)
Definition makePush (size pushByteSize : Z) : I Result :=
  f ← frame;
  let codeLen := zlen (Code (contract f)) in
  let start := Z.min codeLen (u64 (pc f + 1)) in
  let e := Z.min codeLen (start + pushByteSize) in
  d ← try (slice (Code (contract f)) start e);
  _ ← push (SetBytes (RightPadBytes d pushByteSize));
  _ ← update (fun f => with_pc f (u64 (pc f + size)));
  ok.

(** ** Calls *)

Section Calls.
Context (run : Contract -> list Z -> bool -> E (list Z * option vmerr * Z)).

Definition refund_gas (g : Z) : I unit := update (fun f => with_contract f (RefundGas (contract f) g)).

(** What the two creations do with the outcome; [ignored] is an error that counts as
    none. *)
Definition created (ignored : option vmerr) (r : list Z * Z * Z * option vmerr) : I Result :=
  let '(res, addr, returnGas, suberr) := r in
  _ ← push (if decide (suberr = None \/ suberr = ignored) then SetBytes (be_bytes 20 addr) else Clear);
  _ ← refund_gas returnGas;
  if decide (suberr = Some ErrExecutionReverted) then
    _ ← evm (modify (fun m => with_returnData m res)); mret (res, None)
  else _ ← evm (modify (fun m => with_returnData m [])); ok.

Definition opCreate : I Result :=
  ro ← evm (gets readOnly);
  if ro : bool then fail ErrWriteProtection
  else
    value ← pop; offset ← pop; size ← pop;
    input ← read_store (fun s => mem_GetCopy s (Uint64 offset) (Uint64 size));
    f ← frame;
    r ← evm (Create run (ContractOf (contract f)) input (c_Gas (contract f)) value (c_UUID (contract f)));
    created (Some ErrCodeStoreOutOfGas) r.

Definition opCreate2 : I Result :=
  ro ← evm (gets readOnly);
  if ro : bool then fail ErrWriteProtection
  else
    endowment ← pop; offset ← pop; size ← pop; salt ← pop;
    input ← read_store (fun s => mem_GetCopy s (Uint64 offset) (Uint64 size));
    f0 ← frame;
    let gas := c_Gas (contract f0) - c_Gas (contract f0) / 64 in
    _ ← update (fun f => with_contract f (fst (UseGas (contract f) gas)));
    f ← frame;
    r ← evm (Create2 run (ContractOf (contract f)) input gas endowment salt (c_UUID (contract f)));
    created None r.

(** What the four calls do with the outcome. *)
Definition returned (retOffset retSize : Int) (r : list Z * Z * option vmerr) : I Result :=
  let '(ret, returnGas, err) := r in
  _ ← push (match err with None => SetOne | Some _ => Clear end);
  _ ← (if decide (err = None \/ err = Some ErrExecutionReverted)
       then on_store (fun s => mem_Set s (Uint64 retOffset) (Uint64 retSize) ret) else mret tt);
  _ ← refund_gas returnGas;
  _ ← evm (modify (fun m => with_returnData m ret));
  mret (ret, None).

Definition args_at (inOffset inSize : Int) : I (list Z) :=
  read_store (fun s => mem_GetPtr s (Uint64 inOffset) (Uint64 inSize)).

(** The gas of a call with a value. *)
Definition with_stipend (value : Int) (gas : Z) : Z := if IsZero value then gas else u64 (gas + CallStipend).

Definition opCall : I Result :=
  _ ← pop; gas ← evm (gets callGasTemp);
  addr ← pop; value ← pop; inOffset ← pop; inSize ← pop; retOffset ← pop; retSize ← pop;
  args ← args_at inOffset inSize;
  ro ← evm (gets readOnly);
  if ro && negb (IsZero value) then fail ErrWriteProtection
  else
    f ← frame;
    r ← evm (OpCall run (ContractOf (contract f)) (Bytes20 addr) args (with_stipend value gas) value);
    returned retOffset retSize r.

Definition opCallCode : I Result :=
  _ ← pop; gas ← evm (gets callGasTemp);
  addr ← pop; value ← pop; inOffset ← pop; inSize ← pop; retOffset ← pop; retSize ← pop;
  args ← args_at inOffset inSize;
  f ← frame;
  r ← evm (CallCode run (ContractOf (contract f)) (Bytes20 addr) args (with_stipend value gas) value);
  returned retOffset retSize r.

Definition opDelegateCall : I Result :=
  _ ← pop; gas ← evm (gets callGasTemp);
  addr ← pop; inOffset ← pop; inSize ← pop; retOffset ← pop; retSize ← pop;
  args ← args_at inOffset inSize;
  f ← frame;
  r ← evm (DelegateCall run (ContractOf (contract f)) (Bytes20 addr) args gas);
  returned retOffset retSize r.

Definition opStaticCall : I Result :=
  _ ← pop; gas ← evm (gets callGasTemp);
  addr ← pop; inOffset ← pop; inSize ← pop; retOffset ← pop; retSize ← pop;
  args ← args_at inOffset inSize;
  f ← frame;
  r ← evm (StaticCall run (ContractOf (contract f)) (Bytes20 addr) args gas);
  returned retOffset retSize r.
End Calls.

(** ** The ends of a run *)

Definition opReturn : I Result :=
  offset ← pop; size ← pop;
  ret ← read_store (fun s => mem_GetCopy s (Uint64 offset) (Uint64 size));
  mret (ret, Some errStopToken).

Definition opRevert : I Result :=
  offset ← pop; size ← pop;
  ret ← read_store (fun s => mem_GetCopy s (Uint64 offset) (Uint64 size));
  _ ← evm (modify (fun m => with_returnData m ret));
  mret (ret, Some ErrExecutionReverted).

Definition opUndefined : I Result :=
  f ← frame; b ← try (idx (Code (contract f)) (pc f)); fail (ErrInvalidOpCode b).

Definition opStop : I Result := fail errStopToken.

Definition opSelfdestruct6780 : I Result :=
  ro ← evm (gets readOnly);
  if ro : bool then fail ErrWriteProtection
  else
    beneficiary ← pop; f ← frame;
    let me := self (contract f) in
    balance ← evm (on_db (i_GetBalance me));
    _ ← evm (on_db (i_SubBalance me balance));
    _ ← evm (on_db (i_AddBalance (Bytes20 beneficiary) balance));
    _ ← evm (on_db (i_Selfdestruct6780 me));
    fail errStopToken.

Fixpoint pop_topics (n : nat) : I (list Z) :=
  match n with
  | O => mret []
  | S n' => x ← pop; l ← pop_topics n'; mret (Bytes32 x :: l)
  end.

Definition makeLog (size : nat) : I Result :=
  ro ← evm (gets readOnly);
  if ro : bool then fail ErrWriteProtection
  else
    mStart ← pop; mSize ← pop; topics ← pop_topics size;
    d ← read_store (fun s => mem_GetCopy s (Uint64 mStart) (Uint64 mSize));
    f ← frame;
    _ ← evm (on_db (i_AddLog (self (contract f) :: zlen topics :: topics ++ d ++ [u64 BlockNumber])));
    ok.

(** ** Gas *)

(** The cost of an instruction and an error, both of which the interpreter ignores;
    what the functions change is kept. *)
Definition Gas : Type := Z * option vmerr.
Definition gasFunc : Type := Z -> I Gas.

(** [memoryGasCost]; the quadratic part is exact for the sizes let through. *)
Definition memoryGasCost (newMemSize0 : Z) : I Gas :=
  if newMemSize0 =? 0 then mret (0, None)
  else if 0x1FFFFFFFE0 <? newMemSize0 then mret (0, Some ErrGasUintOverflow)
  else
    f ← frame;
    let newMemSizeWords := toWordSize newMemSize0 in
    let newMemSize := u64 (newMemSizeWords * 32) in
    if zlen (store f) <? newMemSize then
      let square := u64 (newMemSizeWords * newMemSizeWords) in
      let linCoef := u64 (newMemSizeWords * 3) in
      let quadCoef := square / 512 in
      let newTotalFee := u64 (linCoef + quadCoef) in
      let fee := u64 (newTotalFee - lastGasCost f) in
      _ ← update (fun f => with_cost f newTotalFee);
      mret (fee, None)
    else mret (0, None).

(** Gas added to a first amount unless one of the steps fails. *)
Definition add_gas (gas : Gas) (more : Z * bool) : Gas :=
  match gas with
  | (_, Some e) => (0, Some e)
  | (g, None) =>
      if snd more then (0, Some ErrGasUintOverflow)
      else let '(s, o) := SafeAdd g (fst more) in if o : bool then (0, Some ErrGasUintOverflow) else (s, None)
  end.

(** The cost per word of the length at a stack position. *)
Definition word_gas (x : Int) (perWord : Z) : Z * bool :=
  let '(n, overflow) := Uint64WithOverflow x in
  if overflow : bool then (0, true) else SafeMul (toWordSize n) perWord.

Definition memoryCopierGas (stackpos : nat) : gasFunc := fun memorySize =>
  g ← memoryGasCost memorySize; x ← back stackpos; mret (add_gas g (word_gas x 3)).

Definition makeGasLog (n : Z) : gasFunc := fun memorySize =>
  x ← back 1;
  let '(requestedSize, overflow) := Uint64WithOverflow x in
  if overflow : bool then mret (0, Some ErrGasUintOverflow)
  else
    g ← memoryGasCost memorySize;
    mret (add_gas (add_gas (add_gas g (375, false)) (n * 375, false)) (SafeMul requestedSize 8)).

Definition gasKeccak256 : gasFunc := fun memorySize =>
  g ← memoryGasCost memorySize; x ← back 1; mret (add_gas g (word_gas x 6)).

Definition pureMemoryGascost : gasFunc := memoryGasCost.

(** [gasCreateEip3860] and [gasCreate2Eip3860]: a price per word of the code. *)
Definition MaxInitCodeSize : Z := 2 * 24576.
Definition gas_create (perWord : Z) : gasFunc := fun memorySize =>
  g ← memoryGasCost memorySize;
  match g with
  | (_, Some e) => mret (0, Some e)
  | _ =>
      x ← back 2;
      let '(size, overflow) := Uint64WithOverflow x in
      if overflow : bool then mret (0, Some ErrGasUintOverflow)
      else if MaxInitCodeSize <? size then mret (0, Some ErrMaxInitCodeSizeExceeded)
      else mret (add_gas g (perWord * ((size + 31) / 32), false))
  end.
Definition gasCreateEip3860 : gasFunc := gas_create 2.
Definition gasCreate2Eip3860 : gasFunc := gas_create (2 + 6).

Definition gasExpEIP158 : gasFunc := fun _ =>
  x ← back 1; mret (add_gas (u64 ((BitLen x + 7) / 8) * 50, None) (10, false)).

(** The functions of [operations_acl.go]: the first three mark what they price as warm;
    the last returns at once for calls, SSTORE and SELFDESTRUCT. *)
Definition gasSLoadEIP2929 : gasFunc := fun _ =>
  loc ← peek; f ← frame;
  let me := self (contract f) in
  '(_, slotPresent) ← evm (on_db (i_SlotInAccessList me (Bytes32 loc)));
  if slotPresent : bool then mret (100, None)
  else _ ← evm (on_db (i_AddSlotToAccessList me (Bytes32 loc))); mret (2100, None).

Definition gasEip2929AccountCheck : gasFunc := fun _ =>
  x ← peek;
  present ← evm (on_db (i_AddressInAccessList (Bytes20 x)));
  if present : bool then mret (0, None)
  else _ ← evm (on_db (i_AddAddressToAccessList (Bytes20 x))); mret (2600 - 100, None).

Definition gasExtCodeCopyEIP2929 : gasFunc := fun memorySize =>
  g ← memoryCopierGas 3 memorySize;
  match g with
  | (_, Some e) => mret (0, Some e)
  | _ =>
      x ← peek;
      present ← evm (on_db (i_AddressInAccessList (Bytes20 x)));
      if present : bool then mret g
      else _ ← evm (on_db (i_AddAddressToAccessList (Bytes20 x))); mret (add_gas g (2600 - 100, false))
  end.

Definition no_gas : gasFunc := fun _ => mret (0, None).
End Instructions.
