(* ===== verification/Interpreter.v ===== *)
(** * The interpreter

    Models the active instruction table ([vm/jump_table.go] with the forks of
    [vm/eips.go] applied up to Cancun, the table [NewEVMInterpreter] selects) and
    [EVMInterpreter.Run] of [vm/interpreter.go].

    The loop of [Run] has no bound in the source: gas is computed but not charged. The
    model's runs take fuel, one unit per instruction, nested calls included, and end in
    [Spin] when it is used up. *)
From Stdlib Require Import ZArith Lia.
From stdpp Require Import base gmap strings list.
From S2P Require Import Prelude Utils JournalTypes StateDB Analysis Machine Evm Instructions.

(** ** The table *)

Definition StackLimit : Z := 1024.

Section Interpreter.
Context `{w : Uint256} `{sdb : StateDBI} `{cr : Crypto} `{cfg : Config} `{env : NodeEnv} `{rem : Remote} `{ctx : EvmEnv}.

Record operation := mkOperation {
  execute : I Result;
  constantGas : Z;
  dynamicGas : option gasFunc;
  minStack : Z;
  maxStack : Z;
  memorySize : option memorySizeFunc
}.

(** [minStack(pops, push)] and [maxStack(pop, push)]. *)
Definition op0 (e : I Result) (constant pops pushes : Z) : operation :=
  mkOperation e constant None pops (StackLimit + pops - pushes) None.
Definition op_gas (e : I Result) (constant : Z) (g : gasFunc) (pops pushes : Z) : operation :=
  mkOperation e constant (Some g) pops (StackLimit + pops - pushes) None.
Definition op_mem (e : I Result) (constant : Z) (g : gasFunc) (pops pushes : Z) (m : memorySizeFunc) : operation :=
  mkOperation e constant (Some g) pops (StackLimit + pops - pushes) (Some m).

(** Steps of constant cost. *)
Definition GasQuickStep : Z := 2.
Definition GasFastestStep : Z := 3.
Definition GasFastStep : Z := 5.
Definition GasMidStep : Z := 8.
Definition GasSlowStep : Z := 10.
Definition GasExtStep : Z := 20.

Section Table.
Context (run : Contract -> list Z -> bool -> E (list Z * option vmerr * Z)).

Definition arithmetic : list (Z * operation) :=
  [(0x00, op0 opStop 0 0 0);
   (0x01, op0 opAdd GasFastestStep 2 1);
   (0x02, op0 opMul GasFastStep 2 1);
   (0x03, op0 opSub GasFastestStep 2 1);
   (0x04, op0 opDiv GasFastStep 2 1);
   (0x05, op0 opSdiv GasFastStep 2 1);
   (0x06, op0 opMod GasFastStep 2 1);
   (0x07, op0 opSmod GasFastStep 2 1);
   (0x08, op0 opAddmod GasMidStep 3 1);
   (0x09, op0 opMulmod GasMidStep 3 1);
   (0x0a, op_gas opExp 0 gasExpEIP158 2 1);
   (0x0b, op0 opSignExtend GasFastStep 2 1);
   (0x10, op0 opLt GasFastestStep 2 1);
   (0x11, op0 opGt GasFastestStep 2 1);
   (0x12, op0 opSlt GasFastestStep 2 1);
   (0x13, op0 opSgt GasFastestStep 2 1);
   (0x14, op0 opEq GasFastestStep 2 1);
   (0x15, op0 opIszero GasFastestStep 1 1);
   (0x16, op0 opAnd GasFastestStep 2 1);
   (0x17, op0 opOr GasFastestStep 2 1);
   (0x18, op0 opXor GasFastestStep 2 1);
   (0x19, op0 opNot GasFastestStep 1 1);
   (0x1a, op0 opByte GasFastestStep 2 1);
   (0x1b, op0 opSHL GasFastestStep 2 1);
   (0x1c, op0 opSHR GasFastestStep 2 1);
   (0x1d, op0 opSAR GasFastestStep 2 1);
   (0x20, op_mem opKeccak256 30 gasKeccak256 2 1 memoryKeccak256)].

Definition environment : list (Z * operation) :=
  [(0x30, op0 opAddress GasQuickStep 0 1);
   (0x31, op_gas opBalance 100 gasEip2929AccountCheck 1 1);
   (0x32, op0 opOrigin GasQuickStep 0 1);
   (0x33, op0 opCaller GasQuickStep 0 1);
   (0x34, op0 opCallValue GasQuickStep 0 1);
   (0x35, op0 opCallDataLoad GasFastestStep 1 1);
   (0x36, op0 opCallDataSize GasQuickStep 0 1);
   (0x37, op_mem opCallDataCopy GasFastestStep (memoryCopierGas 2) 3 0 memoryCallDataCopy);
   (0x38, op0 opCodeSize GasQuickStep 0 1);
   (0x39, op_mem opCodeCopy GasFastestStep (memoryCopierGas 2) 3 0 memoryCodeCopy);
   (0x3a, op0 opGasprice GasQuickStep 0 1);
   (0x3b, op_gas opExtCodeSize 100 gasEip2929AccountCheck 1 1);
   (0x3c, op_mem opExtCodeCopy 100 gasExtCodeCopyEIP2929 4 0 memoryExtCodeCopy);
   (0x3d, op0 opReturnDataSize GasQuickStep 0 1);
   (0x3e, op_mem opReturnDataCopy GasFastestStep (memoryCopierGas 2) 3 0 memoryReturnDataCopy);
   (0x3f, op_gas opExtCodeHash 100 gasEip2929AccountCheck 1 1);
   (0x40, op0 opBlockhash GasExtStep 1 1);
   (0x41, op0 opCoinbase GasQuickStep 0 1);
   (0x42, op0 opTimestamp GasQuickStep 0 1);
   (0x43, op0 opNumber GasQuickStep 0 1);
   (0x44, op0 opRandom GasQuickStep 0 1);
   (0x45, op0 opGasLimit GasQuickStep 0 1);
   (0x46, op0 opChainID GasQuickStep 0 1);
   (0x47, op0 opSelfBalance GasFastStep 0 1);
   (0x48, op0 opBaseFee GasQuickStep 0 1);
   (0x49, op0 opBlobHash GasFastestStep 1 1);
   (0x4a, op0 opBlobBaseFee GasQuickStep 0 1)].

Definition memory_and_control : list (Z * operation) :=
  [(0x50, op0 opPop GasQuickStep 1 0);
   (0x51, op_mem opMload GasFastestStep pureMemoryGascost 1 1 memoryMLoad);
   (0x52, op_mem opMstore GasFastestStep pureMemoryGascost 2 0 memoryMStore);
   (0x53, op_mem opMstore8 GasFastestStep pureMemoryGascost 2 0 memoryMStore8);
   (0x54, op_gas opSload 0 gasSLoadEIP2929 1 1);
   (0x55, op_gas opSstore 0 no_gas 2 0);
   (0x56, op0 opJump GasMidStep 1 0);
   (0x57, op0 opJumpi GasSlowStep 2 0);
   (0x58, op0 opPc GasQuickStep 0 1);
   (0x59, op0 opMsize GasQuickStep 0 1);
   (0x5a, op0 opGas GasQuickStep 0 1);
   (0x5b, op0 opJumpdest 1 0 0);
   (0x5c, op0 opTload 100 1 1);
   (0x5d, op0 opTstore 100 2 0);
   (0x5e, op_mem opMcopy GasFastestStep (memoryCopierGas 2) 3 0 memoryMcopy);
   (0x5f, op0 opPush0 GasQuickStep 0 1);
   (0x60, op0 opPush1 GasFastestStep 0 1)].

(** PUSH2 to PUSH32, DUP1 to DUP16, SWAP1 to SWAP16, LOG0 to LOG4. *)
Definition pushes : list (Z * operation) :=
  map (fun n => (0x5f + Z.of_nat n, op0 (makePush (Z.of_nat n) (Z.of_nat n)) GasFastestStep 0 1)) (seq 2 31).
Definition dups : list (Z * operation) :=
  map (fun n => (0x7f + Z.of_nat n, op0 (makeDup n) GasFastestStep (Z.of_nat n) (Z.of_nat n + 1))) (seq 1 16).
Definition swaps : list (Z * operation) :=
  map (fun n => (0x8f + Z.of_nat n, op0 (opSwap n) GasFastestStep (Z.of_nat n + 1) (Z.of_nat n + 1))) (seq 1 16).
Definition logs_ops : list (Z * operation) :=
  map (fun n => (0xa0 + Z.of_nat n, op_mem (makeLog n) 0 (makeGasLog (Z.of_nat n)) (Z.of_nat n + 2) 0 memoryLog)) (seq 0 5).

Definition calls : list (Z * operation) :=
  [(0xf0, op_mem (opCreate run) 32000 gasCreateEip3860 3 1 memoryCreate);
   (0xf1, op_mem (opCall run) 100 no_gas 7 1 memoryCall);
   (0xf2, op_mem (opCallCode run) 100 no_gas 7 1 memoryCall);
   (0xf3, op_mem opReturn 0 pureMemoryGascost 2 0 memoryReturn);
   (0xf4, op_mem (opDelegateCall run) 100 no_gas 6 1 memoryDelegateCall);
   (0xf5, op_mem (opCreate2 run) 32000 gasCreate2Eip3860 4 1 memoryCreate2);
   (0xfa, op_mem (opStaticCall run) 100 no_gas 6 1 memoryStaticCall);
   (0xfd, op_mem opRevert 0 pureMemoryGascost 2 0 memoryRevert);
   (0xff, op_gas opSelfdestruct6780 5000 no_gas 1 0)].

Definition cancunInstructionSet : list (Z * operation) :=
  arithmetic ++ environment ++ memory_and_control ++ pushes ++ dups ++ swaps ++ logs_ops ++ calls.

(** The slots left unassigned: [minStack] is the zero of the struct. *)
Definition undefined_op : operation := mkOperation opUndefined 0 None 0 StackLimit None.

Definition lookup_op (op : Z) : operation :=
  match find (fun e => fst e =? op) cancunInstructionSet with Some e => snd e | None => undefined_op end.

(** ** One iteration of the loop *)

(** The memory the instruction needs, in whole words. [None] is an overflow. *)
Definition required_memory (o : operation) : I (option Z) :=
  match memorySize o with
  | None => mret (Some 0)
  | Some size =>
      f ← frame;
      '(memSize, overflow) ← try (size (stack f));
      if overflow : bool then mret None
      else
        let '(bytes, overflow) := SafeMul (toWordSize memSize) 32 in
        if overflow : bool then mret None else mret (Some bytes)
  end.

(** The part of an iteration between the stack check and the instruction: an error ends
    the run. The result and the error of the dynamic gas are overwritten. *)
Definition prepare (o : operation) : I (option vmerr) :=
  match dynamicGas o with
  | None => mret None
  | Some g =>
      m ← required_memory o;
      match m with
      | None => mret (Some ErrGasUintOverflow)
      | Some bytes =>
          _ ← g bytes;
          _ ← (if 0 <? bytes then on_store (fun s => mem_Resize maxAlloc s bytes) else mret tt);
          mret None
      end
  end.

(** [None]: go on with the next instruction. *)
Definition iteration : I (option Result) :=
  f ← frame;
  op ← try (GetOp (contract f) (pc f));
  let o := lookup_op op in
  let sLen := zlen (stack f) in
  if sLen <? minStack o then mret (Some ([], Some (ErrStackUnderflow sLen (minStack o))))
  else if maxStack o <? sLen then mret (Some ([], Some (ErrStackOverflow sLen (maxStack o))))
  else
    e ← prepare o;
    match e with
    | Some e => mret (Some ([], Some e))
    | None =>
        '(r, err) ← execute o;
        match err with
        | None => _ ← update (fun f => with_pc f (u64 (pc f + 1))); mret None
        | Some e => mret (Some (r, if decide (e = errStopToken) then None else Some e))
        end
    end.
End Table.

(** ** The loop and [Run] *)

(** [Run] around a loop: the depth, the read-only flag and the return data. The flag is
    cleared by the call that set it; the gas of the contract is part of the result. *)
Definition enter (loop : Frame -> E (Result * Frame)) (c : Contract) (input : list Z) (ro : bool)
  : E (list Z * option vmerr * Z) :=
  _ ← modify (fun m => with_depth m (depth m + 1));
  was ← gets readOnly;
  let sets := ro && negb was in
  _ ← modify (fun m => if sets then with_readOnly m true else m);
  _ ← modify (fun m => with_returnData m []);
  r ← (match Code c with
       | [] => mret ([], None, c_Gas c)
       | _ => '(r, f) ← loop (mkFrame 0 [] [] 0 (set_Input c input)); mret (r.1, r.2, c_Gas (contract f))
       end);
  _ ← modify (fun m => if sets then with_readOnly m false else m);
  _ ← modify (fun m => with_depth m (depth m - 1));
  mret r.

Fixpoint loop (fuel : nat) : Frame -> E (Result * Frame) := fun f m =>
  match fuel with
  | O => Spin
  | S fuel' =>
      match iteration (enter (loop fuel')) f m with
      | Val (None, f1, m1) => loop fuel' f1 m1
      | Val (Some r, f1, m1) => Val (r, f1, m1)
      | Crash why => Crash why
      | Spin => Spin
      end
  end.

Definition Run (fuel : nat) : Contract -> list Z -> bool -> E (list Z * option vmerr * Z) := enter (loop fuel).
End Interpreter.
