(* ===== verification/EvmInstances.v ===== *)
(** * The account state behind the machine's interface, and words

    [StateDB_interface] is the [*state.StateDB] the program passes for the interface
    [vm.StateDB]. [words] is a reference implementation of the 256-bit words, with the
    proof that it has the properties [Uint256Ok] asks for: the theorems about the machine
    hold of some words, and its runs can be evaluated. *)
From Stdlib Require Import ZArith Lia.
From stdpp Require Import base gmap strings list.
From S2P Require Import Prelude Utils JournalTypes Core AccessList StateDB Analysis Machine Evm.

(** ** The state database *)

Section Database.
Context `{cfg : Config} `{rd : StateReader} `{env : NodeEnv}.

Definition quietly {A} (s : StateDB) (a : A) : outcome (StateDB * A) := Ret (s, a).
Definition acting (m : outcome StateDB) : outcome (StateDB * unit) := s ← m; Ret (s, tt).

Definition db_AppendJournal (s : StateDB) (l : list JournalEntry) : StateDB :=
  db_journal s (mkJournal (Entries (jrnl s) ++ l) (dirties (jrnl s)) (ValidRevisions (jrnl s)) (nextRevisionId (jrnl s))).

Definition db_SlotInAccessList (a slot : Z) (s : StateDB) : outcome (StateDB * (bool * bool)) :=
  r ← Contains (access s) a slot; Ret (s, r).

#[global] Instance StateDB_interface : StateDBI := {|
  SDB := StateDB;
  i_CreateAccount a s := acting (CreateAccount s a);
  i_CreateContract a s := acting (CreateContract s a);
  i_SubBalance a v s := acting (SubBalance s a v);
  i_AddBalance a v s := acting (AddBalance s a v);
  i_GetBalance a s := GetBalance s a;
  i_GetNonce a s := Ret (GetNonce s a);
  i_SetNonce a n s := acting (SetNonce s a n);
  i_GetCodeHash a s := Ret (GetCodeHash s a);
  i_GetCode a s := Ret (GetCode s a);
  i_SetCode a c s := acting (SetCode s a c);
  i_GetState a k s := Ret (GetState s a k);
  i_SetState a k v s := acting (SetState s a k v);
  i_GetStorageRoot a s := Ret (GetStorageRoot s a);
  i_GetTransientState a k s := quietly s (GetTransientState s a k);
  i_SetTransientState a k v s := quietly (SetTransientState s a k v) tt;
  i_Selfdestruct6780 a s := quietly (Selfdestruct6780 s a) tt;
  i_Exist a s := quietly s (Exist s a);
  i_Empty a s := quietly s (Empty s a);
  i_AddressInAccessList a s := quietly s (ContainsAddress (access s) a);
  i_SlotInAccessList a k s := db_SlotInAccessList a k s;
  i_AddAddressToAccessList a s := quietly (AddAddressToAccessList s a) tt;
  i_AddSlotToAccessList a k s := acting (AddSlotToAccessList s a k);
  i_Prepare s := quietly (Prepare s) tt;
  i_AddLog c s := quietly (AddLog s c) tt;
  i_Snapshot s := Ret (Snapshot s);
  i_RevertToSnapshot id s := RevertToSnapshot s id;
  i_AppendJournal l s := quietly (db_AppendJournal s l) tt
|}.
End Database.

(** ** Reference words *)

Definition norm (z : Z) : Z := z mod 2 ^ 256.
Definition signed (z : Z) : Z := if norm z <? 2 ^ 255 then norm z else norm z - 2 ^ 256.

(** The power modulo 2^256, by squaring. *)
Fixpoint pow_mod (p : positive) (x : Z) : Z :=
  match p with
  | xH => norm x
  | xO q => pow_mod q (norm (x * x))
  | xI q => norm (x * pow_mod q (norm (x * x)))
  end.

Definition words : Uint256 := {|
  Int := Z;
  ToBig := norm;
  FromBig := norm;
  SetUint64 n := n;
  SetBytes l := norm (bytes_to_Z l);
  Uint64 x := norm x mod 2 ^ 64;
  IsUint64 x := norm x <? 2 ^ 64;
  IsZero x := norm x =? 0;
  Sign x := Z.sgn (signed x);
  BitLen x := if norm x =? 0 then 0 else Z.log2 (norm x) + 1;
  u_Add x y := norm (x + y);
  u_Sub x y := norm (x - y);
  u_Mul x y := norm (x * y);
  u_Div x y := norm x / norm y;
  u_SDiv x y := norm (Z.quot (signed x) (signed y));
  u_Mod x y := if norm y =? 0 then 0 else norm x mod norm y;
  u_SMod x y := if norm y =? 0 then 0 else norm (Z.rem (signed x) (signed y));
  u_AddMod x y z := if norm z =? 0 then 0 else (norm x + norm y) mod norm z;
  u_MulMod x y z := if norm z =? 0 then 0 else (norm x * norm y) mod norm z;
  u_Exp x y := match norm y with Zpos p => pow_mod p x | _ => 1 end;
  u_ExtendSign x b :=
    if norm b <? 31 then
      let bit := 8 * norm b + 7 in
      if Z.testbit (norm x) bit then Z.lor (norm x) (norm (- 2 ^ bit)) else norm x mod 2 ^ (bit + 1)
    else norm x;
  u_Lt x y := norm x <? norm y;
  u_Gt x y := norm y <? norm x;
  u_Slt x y := signed x <? signed y;
  u_Sgt x y := signed y <? signed x;
  u_Eq x y := norm x =? norm y;
  u_And x y := Z.land (norm x) (norm y);
  u_Or x y := Z.lor (norm x) (norm y);
  u_Xor x y := Z.lxor (norm x) (norm y);
  u_Not x := 2 ^ 256 - 1 - norm x;
  u_Byte x n := if norm n <? 32 then (norm x / 2 ^ (8 * (31 - norm n))) mod 256 else 0;
  u_Lsh x n := norm (norm x * 2 ^ n);
  u_Rsh x n := norm x / 2 ^ n;
  u_SRsh x n := norm (Z.shiftr (signed x) n);
  Uint64WithOverflow x := (norm x mod 2 ^ 64, negb (norm x <? 2 ^ 64));
  LtUint64 x n := norm x <? n;
  GtUint64 x n := n <? norm x;
  Clear := 0;
  SetOne := 1;
  SetAllOne := 2 ^ 256 - 1;
  Bytes20 x := norm x mod 2 ^ 160;
  Bytes32 x := norm x
|}.

Lemma words_ok : Uint256Ok words.
Proof.
  split; try done; cbn; unfold norm.
  - intros x. by apply Z.mod_pos_bound.
  - intros x y. by rewrite Z.mod_mod, Zplus_mod by done.
  - intros n Hn. apply Z.mod_small. assert (2 ^ 64 < 2 ^ 256) by (vm_compute; done). lia.
  - intros l. by rewrite Z.mod_mod.
Qed.
