(* ===== verification/MachineLaws.v ===== *)
(** * What the machine asks of the account state, and reasoning about its runs

    [StateDBLaws] is the contract between the machine and the account state: every
    method keeps an invariant and is journalled, and reverting to a snapshot gives back
    the state of the snapshot. The theorems about the machine are proved from it;
    [StateDBRefines.v] proves it of the state database.

    The rest of the file is a small program logic: [wpE c Q m] says that the
    computation [c], from machine [m], ends in a result and a machine with [Q], runs
    out of fuel, or crashes for one of the reasons in [allowed]. *)
From Stdlib Require Import ZArith Lia.
From stdpp Require Import base gmap strings list.
From S2P Require Import Prelude Utils JournalTypes StateDB Analysis Machine Evm.

(** ** The contract of the account state *)

(** A method returns, keeps the invariant and is journalled; [Q] relates the state, the
    result and the new state. *)
Definition acts {S A} (Inv : S -> Prop) (Step : S -> S -> Prop) (op : S -> outcome (S * A))
  (Q : S -> A -> S -> Prop) : Prop :=
  forall s, Inv s -> exists s' r, op s = Ret (s', r) /\ Inv s' /\ Step s s' /\ Q s r s'.

(** The length of a slice fits an [int]. *)
Definition short {A} (l : list A) : Prop := zlen l < 2 ^ 63.

(** The code hash that goes with some code: zero for none known, else its digest. *)
Definition hash_ok `{cr : Crypto} (h : Z) (c : list Z) : Prop := short c /\ (c <> [] -> h = 0 \/ Keccak256 c = h).

Definition no_code (h : Z) : Prop := h = 0 \/ h = EmptyCodeHash.

Class StateDBLaws (sdb : StateDBI) (cr : Crypto) (env : NodeEnv) := {
  (* well-formed states *)
  Inv : SDB -> Prop;
  (* what happened since is in the journal *)
  Step : SDB -> SDB -> Prop;
  (* no observation tells them apart *)
  Same : SDB -> SDB -> Prop;
  exists_at : SDB -> Z -> Prop;
  (* the code hash and the code of an account *)
  code_at : SDB -> Z -> Z * list Z;
  Step_refl : forall s, Inv s -> Step s s;
  Step_trans : forall s t u, Inv s -> Inv t -> Step s t -> Step t u -> Step s u;
  Same_refl : forall s, Same s s;
  Same_trans : forall s t u, Same s t -> Same t u -> Same s u;
  Same_code : forall s t a, Same s t -> code_at s a = code_at t a;
  code_at_ok : forall s a, Inv s -> hash_ok (fst (code_at s a)) (snd (code_at s a));
  (* the code of an account that has some does not change *)
  Step_code : forall s s' a, Step s s' -> snd (code_at s a) <> [] -> code_at s' a = code_at s a;
  GetBalance_law : forall a, acts Inv Step (i_GetBalance a) (fun s _ s' => exists_at s a -> Same s' s);
  SubBalance_law : forall a v, acts Inv Step (i_SubBalance a v) (fun _ _ _ => True);
  AddBalance_law : forall a v, acts Inv Step (i_AddBalance a v) (fun _ _ _ => True);
  GetNonce_law : forall a, acts Inv Step (i_GetNonce a) (fun s _ s' => Same s' s);
  SetNonce_law : forall a n, acts Inv Step (i_SetNonce a n) (fun _ _ _ => True);
  GetCodeHash_law : forall a, acts Inv Step (i_GetCodeHash a)
    (fun s h s' => h = fst (code_at s a) /\ Same s' s);
  GetCode_law : forall a, acts Inv Step (i_GetCode a)
    (fun s c s' => c = snd (code_at s a) /\ Same s' s);
  GetStorageRoot_law : forall a, acts Inv Step (i_GetStorageRoot a) (fun s _ s' => Same s' s);
  GetState_law : forall a k, acts Inv Step (i_GetState a k) (fun _ _ _ => True);
  SetState_law : forall a k v, acts Inv Step (i_SetState a k v) (fun _ _ _ => True);
  GetTransientState_law : forall a k, acts Inv Step (i_GetTransientState a k) (fun _ _ _ => True);
  SetTransientState_law : forall a k v, acts Inv Step (i_SetTransientState a k v) (fun _ _ _ => True);
  Selfdestruct6780_law : forall a, acts Inv Step (i_Selfdestruct6780 a) (fun _ _ _ => True);
  Exist_law : forall a, acts Inv Step (i_Exist a) (fun _ b s' => if b : bool then exists_at s' a else ~ exists_at s' a);
  Empty_law : forall a, acts Inv Step (i_Empty a) (fun _ _ _ => True);
  AddressInAccessList_law : forall a, acts Inv Step (i_AddressInAccessList a) (fun _ _ _ => True);
  SlotInAccessList_law : forall a k, acts Inv Step (i_SlotInAccessList a k) (fun _ _ _ => True);
  AddAddressToAccessList_law : forall a, acts Inv Step (i_AddAddressToAccessList a) (fun _ _ _ => True);
  AddSlotToAccessList_law : forall a k, acts Inv Step (i_AddSlotToAccessList a k) (fun _ _ _ => True);
  AddLog_law : forall c, acts Inv Step (i_AddLog c) (fun _ _ _ => True);
  (* entries of other shards only *)
  AppendJournal_law : forall l, Forall (fun e => GetShardID e <> ShardID) l ->
    acts Inv Step (i_AppendJournal l) (fun _ _ _ => True);
  CreateAccount_law : forall s a, Inv s -> ~ exists_at s a ->
    exists s', i_CreateAccount a s = Ret (s', tt) /\ Inv s' /\ Step s s' /\ exists_at s' a;
  CreateContract_law : forall s a, Inv s -> exists_at s a ->
    exists s', i_CreateContract a s = Ret (s', tt) /\ Inv s' /\ Step s s';
  (* code may be set, once and again, where there was none at the start *)
  SetCode_law : forall s0 s a c, short c -> Inv s0 -> Inv s -> Step s0 s -> no_code (fst (code_at s0 a)) ->
    exists s', i_SetCode a c s = Ret (s', tt) /\ Inv s' /\ Step s0 s';
  Snapshot_law : forall s, Inv s -> exists s1 id, i_Snapshot s = Ret (s1, id) /\ Inv s1 /\ Step s s1 /\
    forall s2, Inv s2 -> Step s1 s2 ->
      exists s3 msgs, i_RevertToSnapshot id s2 = Ret (s3, msgs) /\ Inv s3 /\ Step s s3 /\ Same s3 s;
  Snapshot_same : forall s s1 id, i_Snapshot s = Ret (s1, id) -> Same s1 s
}.

(** What is assumed of the libraries and of the other shards. *)
Class EvmAssumptions (cr : Crypto) (cfg : Config) (env : NodeEnv) (rem : Remote) (ctx : EvmEnv) : Prop := {
  alloc_limit : 0 <= maxAlloc < 2 ^ 63;
  Keccak_inj : forall c d, Keccak256 c = Keccak256 d -> c = d;
  Ecrecover_key : forall h s k, Ecrecover h s = Some k -> k <> [];
  some_shards : 0 < ShardNum;
  call_foreign : forall o r, call_answer o = Some r ->
    Forall (fun x => GetShardID (OriginalObj x) <> ShardID) (cr_Journal r);
  create_foreign : forall o r, create_answer o = Some r ->
    Forall (fun x => GetShardID (OriginalObj x) <> ShardID) (kr_Journal r);
  code_hash : forall o r, code_answer o = Some r -> hash_ok (or_CodeHash r) (or_Code r)
}.

(** ** Crashes *)

Definition out_of_memory : string := "makeslice: len out of range".

(** A pointer of the block or transaction context is nil. *)
Definition context_nil `{ctx : EvmEnv} : Prop :=
  GasPrice = None \/ ChainID = None \/ BaseFee = None \/ BlobBaseFee = None \/ Random = None.

Definition allowed `{ctx : EvmEnv} (why : string) : Prop :=
  why = out_of_memory \/ (why = "nil dereference" /\ context_nil).

(** ** The logic *)

Section Logic.
Context `{w : Uint256} `{sdb : StateDBI} `{cr : Crypto} `{cfg : Config} `{env : NodeEnv} `{rem : Remote} `{ctx : EvmEnv}.
Context `{laws : !StateDBLaws sdb cr env} `{hyps : !EvmAssumptions cr cfg env rem ctx}.

(** An analysis found so far is that of the code with its hash. *)
Definition jumpdests_ok (j : gmap Z bitvec) : Prop :=
  forall h b, j !! h = Some b -> exists c, Keccak256 c = h /\ codeBitmap c = Ret b.

Record MInv (m : Mach) : Prop := { mi_db : Inv (db m); mi_jumpdests : jumpdests_ok (jumpdests m) }.

(** From [m] to [m']: the invariant, the journal, and the flags a call restores. *)
Record mstep (m m' : Mach) : Prop := {
  ms_inv : MInv m';
  ms_step : Step (db m) (db m');
  ms_depth : depth m' = depth m;
  ms_readOnly : readOnly m' = readOnly m
}.

Lemma mstep_refl m : MInv m -> mstep m m.
Proof using Type. intros H. split; try done. apply Step_refl, H. Qed.

Lemma mstep_trans m1 m2 m3 : MInv m1 -> mstep m1 m2 -> mstep m2 m3 -> mstep m1 m3.
Proof using Type.
  intros H1 [] []. split; try congruence. eapply Step_trans; [apply H1 | apply ms_inv0 | done | done].
Qed.

Definition wpE {A} (c : E A) (Q : A -> Mach -> Prop) (m : Mach) : Prop :=
  match c m with Val (a, m') => Q a m' | Crash why => allowed why | Spin => True end.

Lemma wpE_bind {A B} (c : E A) (k : A -> E B) Q m :
  wpE c (fun a m' => wpE (k a) Q m') m -> wpE (c ≫= k) Q m.
Proof using Type. unfold wpE, mbind, E_bind. by destruct (c m) as [[a m'] | |]. Qed.

Lemma wpE_ret {A} (a : A) (Q : A -> Mach -> Prop) m : Q a m -> wpE (mret a) Q m.
Proof using Type. done. Qed.

Lemma wpE_mono {A} (c : E A) (P Q : A -> Mach -> Prop) m :
  wpE c P m -> (forall a m', P a m' -> Q a m') -> wpE c Q m.
Proof using Type. unfold wpE. destruct (c m) as [[a m'] | |]; eauto. Qed.

Lemma wpE_gets {A} (g : Mach -> A) (Q : A -> Mach -> Prop) m : Q (g m) m -> wpE (gets g) Q m.
Proof using Type. done. Qed.

Lemma wpE_modify g (Q : unit -> Mach -> Prop) m : Q tt (g m) -> wpE (modify g) Q m.
Proof using Type. done. Qed.

Lemma wpE_of {A} (o : outcome A) (Q : A -> Mach -> Prop) m a : o = Ret a -> Q a m -> wpE (E_of o) Q m.
Proof using Type. intros ->. done. Qed.

(** A method of the account state, in a machine reached from [m0]. *)
Lemma wpE_db {A} (op : SDB -> outcome (SDB * A)) P (Q : A -> Mach -> Prop) m0 m :
  acts Inv Step op P -> MInv m0 -> mstep m0 m ->
  (forall a s', P (db m) a s' -> mstep m0 (with_db m s') -> Q a (with_db m s')) -> wpE (on_db op) Q m.
Proof using Type.
  intros Ha H0 Hm HQ. destruct (Ha (db m)) as (s' & r & Hop & Hi & Hs & HP); [apply Hm |].
  unfold wpE, on_db. rewrite Hop. apply HQ; [done |]. eapply mstep_trans; [done | done |].
  split; try done. split; [done | apply Hm].
Qed.

(** A change of the machine that touches neither the state nor the flags. *)
Lemma mstep_quiet m0 m m' :
  mstep m0 m -> db m' = db m -> depth m' = depth m -> readOnly m' = readOnly m -> jumpdests m' = jumpdests m ->
  mstep m0 m'.
Proof using Type.
  intros [[] ? ? ?] Hd He Hr Hj. split; [split | ..]; rewrite ?Hd, ?He, ?Hr, ?Hj; done.
Qed.

Lemma mstep_outbox m0 m o : mstep m0 m -> mstep m0 (with_outbox m o).
Proof using Type. intros H. by eapply mstep_quiet. Qed.

Lemma mstep_returnData m0 m r : mstep m0 m -> mstep m0 (with_returnData m r).
Proof using Type. intros H. by eapply mstep_quiet. Qed.

Lemma jumpdests_ok_empty : jumpdests_ok ∅.
Proof using Type. intros h b. by rewrite lookup_empty. Qed.

Lemma mstep_jumpdests m0 m j : mstep m0 m -> jumpdests_ok j -> mstep m0 (with_jumpdests m j).
Proof using Type. intros [[] ? ? ?] Hj. by split. Qed.
End Logic.

Create HintDb evm.
#[export] Hint Resolve GetBalance_law SubBalance_law AddBalance_law GetNonce_law SetNonce_law GetCodeHash_law GetCode_law
  GetStorageRoot_law GetState_law SetState_law GetTransientState_law SetTransientState_law Selfdestruct6780_law
  Exist_law Empty_law AddressInAccessList_law SlotInAccessList_law AddAddressToAccessList_law
  AddSlotToAccessList_law AddLog_law AppendJournal_law : evm.
#[export] Hint Resolve mstep_outbox mstep_returnData mstep_refl jumpdests_ok_empty mstep_jumpdests : evm.
