(* ===== verification/EvmProofs.v ===== *)
(** * Calls and creations are safe and roll back

    For any interpreter that is safe ([run_ok]), the calls and creations of [Evm.v] are:
    they keep the machine's invariant, restore its flags and crash only for an allowed
    reason; and one that ends in an error leaves the account state as it found it. *)
From Stdlib Require Import ZArith Lia.
From stdpp Require Import base gmap strings list.
From S2P Require Import Prelude Utils JournalTypes StateDB Analysis Machine Evm MachineLaws.

Section Calls.
Context `{w : Uint256} `{sdb : StateDBI} `{cr : Crypto} `{cfg : Config} `{env : NodeEnv} `{rem : Remote} `{ctx : EvmEnv}.
Context `{laws : !StateDBLaws sdb cr env} `{hyps : !EvmAssumptions cr cfg env rem ctx}.

(** A contract that can be run. *)
Record CInv (c : Contract) : Prop := {
  ci_value : is_Some (c_value c);
  ci_hash : hash_ok (CodeHash c) (Code c);
  ci_input : short (Input c);
  ci_analysis : forall a, analysis c = Some a -> codeBitmap (Code c) = Ret a
}.

Definition caller_ok (r : ContractRef) : Prop := match r with AccountRef _ => True | ContractOf c => CInv c end.

(** One step of a computation: [m0] is where it started. *)
Ltac wp1 :=
  match goal with
  | |- wpE (mbind _ _) _ _ => apply wpE_bind
  | |- wpE (mret _) _ _ => apply wpE_ret
  | |- wpE (gets _) _ _ => apply wpE_gets
  | |- wpE (modify _) _ _ => apply wpE_modify
  | |- wpE (send _) _ _ => apply wpE_modify
  | |- wpE (on_db _) _ _ =>
      eapply wpE_db; [solve [eauto with evm] | eassumption | solve [eauto with evm] | cbv beta; intros]
  | |- wpE (if ?b then _ else _) _ _ => match type of b with list _ => fail 1 | _ => destruct b eqn:? end
  end.
Ltac wp := repeat (wp1; cbn [with_db with_outbox with_returnData db depth readOnly outbox]).

Lemma vm_Get_PartitionMap_returns a : exists sh, vm_Get_PartitionMap (address_hex a) = Ret sh.
Proof using hyps.
  unfold vm_Get_PartitionMap, address_hex. destruct (EncodeToString_hex (be_bytes 20 a)) as [Hh Hl].
  destruct (Addr2Shard_hex (EncodeToString (be_bytes 20 a))) as (sid & -> & _); [apply some_shards | done | |].
  { rewrite Hl. unfold zlen. rewrite be_bytes_length. lia. }
  cbn. eauto.
Qed.

Lemma wpE_shard a (Q : Z -> Mach -> Prop) m : (forall sh, Q sh m) -> wpE (shard_of a) Q m.
Proof using hyps.
  intros HQ. destruct (vm_Get_PartitionMap_returns a) as [sh Hs]. eapply wpE_of; [done | apply HQ].
Qed.

Lemma slice_returns {A} (l : list A) a b :
  0 <= a <= b -> b <= zlen l -> exists l', slice l a b = Ret l' /\ zlen l' = b - a.
Proof using Type.
  intros Hab Hb. unfold slice.
  destruct (Z.leb_spec 0 a), (Z.leb_spec a b), (Z.leb_spec b (zlen l)); try lia. cbn.
  eexists. split; [done |]. unfold zlen in *. rewrite length_take, length_drop. lia.
Qed.

Lemma RightPadBytes_length b n : zlen b <= n -> zlen (RightPadBytes b n) = n.
Proof using Type. unfold RightPadBytes, zlen. rewrite length_app, length_replicate. lia. Qed.

Lemma RightPadBytes_ge b n : n <= zlen (RightPadBytes b n).
Proof using Type. unfold RightPadBytes, zlen. rewrite length_app, length_replicate. lia. Qed.

Lemma ecrecover_returns input : exists r, p_Run ecrecover input = Ret r.
Proof using hyps.
  cbn -[slice idx]. set (b := RightPadBytes input 128). pose proof (RightPadBytes_ge input 128) as Hl. fold b in Hl.
  destruct (slice_returns b 64 96) as (rb & -> & _); [lia | lia |]. cbn -[slice idx].
  destruct (slice_returns b 96 128) as (sb & -> & _); [lia | lia |]. cbn -[slice idx].
  destruct (lookup_lt_is_Some_2 b (Z.to_nat 63)) as [v Hv]; [unfold zlen in *; lia |].
  rewrite (idx_returns b 63 v) by done. cbn -[slice idx].
  destruct (slice_returns b 32 63) as (pad & -> & _); [lia | lia |]. cbn -[slice idx].
  destruct (_ || _); [eauto |].
  destruct (slice_returns b 0 32) as (h & -> & _); [lia | lia |]. cbn -[slice idx].
  destruct (Ecrecover _ _) as [k |] eqn:Ek; [| eauto]. apply Ecrecover_key in Ek.
  destruct (slice_returns k 1 (zlen k)) as (rest & -> & _); [| lia | cbn; eauto].
  destruct k; [done |]. unfold zlen. cbn. lia.
Qed.

Lemma precompile_returns a p input : precompile a = Some p -> exists r, p_Run p input = Ret r.
Proof using hyps.
  unfold precompile. repeat case_match; intros [= <-]; [apply ecrecover_returns | cbn; eauto ..].
Qed.

Lemma wpE_precompiled a p input gas (Q : _ -> Mach -> Prop) m :
  precompile a = Some p -> (forall r, Q r m) -> wpE (RunPrecompiledContract p input gas) Q m.
Proof using hyps.
  intros Hp HQ. destruct (precompile_returns a p input Hp) as [r Hr].
  unfold RunPrecompiledContract. apply wpE_bind. eapply wpE_of; [done |]. apply wpE_ret, HQ.
Qed.

(** ** The end of a call *)

(** What a call promises: the machine's invariant, and on an error the state it began
    with. [s] is the state of the snapshot. *)
Definition rolled_back {R} (err : R -> option vmerr) (s : SDB) (m0 : Mach) (r : R) (m' : Mach) : Prop :=
  mstep m0 m' /\ (err r <> None -> Same (db m') s).

(** After a snapshot of [s] that gave [s1] and [id]. *)
Definition reverts_to (s s1 : SDB) (id : Z) : Prop :=
  forall s2, Inv s2 -> Step s1 s2 ->
    exists s3 msgs, i_RevertToSnapshot id s2 = Ret (s3, msgs) /\ Inv s3 /\ Step s s3 /\ Same s3 s.

(** A machine that goes on from the snapshot [s1] of the state of [m]. *)
Lemma wpE_snapshot (Q : Z -> Mach -> Prop) m0 m :
  MInv m0 -> mstep m0 m ->
  (forall s1 id, reverts_to (db m) s1 id -> mstep m0 (with_db m s1) -> MInv (with_db m s1) -> Q id (with_db m s1)) ->
  wpE (on_db i_Snapshot) Q m.
Proof using Type.
  intros H0 Hm HQ. destruct (Snapshot_law (db m)) as (s1 & id & Hs & Hi & Hst & Hr); [apply Hm |].
  unfold wpE, on_db. rewrite Hs. assert (Hi1 : MInv (with_db m s1)) by (split; [done | apply Hm]).
  apply HQ; [done | | done]. eapply mstep_trans; [done | done |]. by split.
Qed.

Lemma wpE_revert id (Q : list RollbackMsg -> Mach -> Prop) s s1 m0 m1 m :
  reverts_to s s1 id -> db m1 = s1 -> MInv m1 -> mstep m1 m ->
  (forall s3, Same s3 s -> Step s s3 -> Inv s3 -> forall msgs, Q msgs (with_db m s3)) ->
  MInv m0 -> wpE (on_db (i_RevertToSnapshot id)) Q m.
Proof using Type.
  intros Hr Hd Hi Hm HQ _. destruct (Hr (db m)) as (s3 & msgs & Hop & Hi3 & Hs3 & Hsame); [apply Hm | rewrite <- Hd; apply Hm |].
  unfold wpE, on_db. rewrite Hop. by apply HQ.
Qed.

(** Restoring the state of [m] keeps the flags and the analyses of where we are. *)
Lemma mstep_restore m0 m m1 m2 s3 :
  MInv m0 -> mstep m0 m -> mstep m1 m2 -> depth m1 = depth m -> readOnly m1 = readOnly m ->
  Inv s3 -> Step (db m) s3 -> mstep m0 (with_db m2 s3).
Proof using Type.
  intros H0 Hm H2 Hd Hr Hi Hs. eapply mstep_trans; [done | done |]. destruct H2 as [[] ? ? ?].
  split; cbn; [by split | done | congruence | congruence].
Qed.

Lemma finish_call_spec id s1 m0 m m2 r :
  MInv m0 -> mstep m0 m -> reverts_to (db m) s1 id -> MInv (with_db m s1) -> mstep (with_db m s1) m2 ->
  mstep m0 (with_db m s1) ->
  wpE (finish_call id r) (rolled_back (fun r => snd r) (db m) m0) m2.
Proof using Type.
  intros H0 Hm Hr Hi Hm2 H01. unfold finish_call. destruct r as [[ret gas] [e |]].
  - apply wpE_bind. eapply (wpE_revert id _ (db m) s1 m0 (with_db m s1)); [done | done | done | done | | done].
    intros s3 Hsame Hs3 Hi3 msgs. wp. split; [| done]. apply mstep_outbox. by apply (mstep_restore m0 m (with_db m s1)).
  - wp. split; [by eapply mstep_trans | done].
Qed.

(** ** The parts of a call *)

Lemma CanTransfer_spec a v (Q : bool -> Mach -> Prop) m0 m :
  MInv m0 -> mstep m0 m ->
  (forall b m', mstep m0 m' -> (exists_at (db m) a -> Same (db m') (db m)) -> Q b m') -> wpE (CanTransfer a v) Q m.
Proof using Type. intros H0 Hm HQ. unfold CanTransfer. wp. by apply HQ. Qed.

Lemma Transfer_spec a b v (Q : unit -> Mach -> Prop) m0 m :
  MInv m0 -> mstep m0 m -> (forall m', mstep m0 m' -> Q tt m') -> wpE (Transfer a b v) Q m.
Proof using Type. intros H0 Hm HQ. unfold Transfer. wp. destruct a1. by apply HQ. Qed.

(** The account of a callee or of a new contract is there afterwards. *)
Lemma ensure_account_spec {A} a (k : E A) (Q : A -> Mach -> Prop) m0 m :
  MInv m0 -> mstep m0 m -> (forall m', mstep m0 m' -> exists_at (db m') a -> wpE k Q m') ->
  wpE (exist ← on_db (i_Exist a); _ ← (if exist : bool then mret tt else on_db (i_CreateAccount a)); k) Q m.
Proof using Type.
  intros H0 Hm HQ. do 4 wp1; [wp; by apply HQ |].
  destruct (CreateAccount_law s' a) as (s1 & Hop & Hi & Hs & He); [apply (mi_db _ (ms_inv _ _ H1)) | done |].
  unfold wpE at 1, on_db. cbn. rewrite Hop. apply HQ; [| done]. eapply mstep_trans; [done | exact H1 |].
  split; try done. split; [done | apply (mi_jumpdests _ (ms_inv _ _ H1))].
Qed.

Lemma new_contract_spec caller object value gas (Q : Contract -> Mach -> Prop) m0 m :
  MInv m0 -> mstep m0 m -> (forall m', mstep m0 m' -> db m' = db m -> Q (NewContract caller object value gas) m') ->
  wpE (new_contract caller object value gas) Q m.
Proof using Type.
  intros H0 Hm HQ. unfold new_contract. wp. destruct caller; apply HQ; eauto with evm.
Qed.

Lemma call_transfer_spec caller addr v sh (Q : unit -> Mach -> Prop) m0 m :
  MInv m0 -> mstep m0 m -> (forall m', mstep m0 m' -> Q tt m') -> wpE (call_transfer caller addr v sh) Q m.
Proof using Type.
  intros H0 Hm HQ. unfold call_transfer, Transfer1. destruct (sh =? ShardID).
  - eapply ensure_account_spec; [done | done |]. intros m' Hm' _. by eapply Transfer_spec.
  - wp. destruct a. by apply HQ.
Qed.

(** The code of an account with its hash, from this shard or from another. *)
Lemma fetch_code_spec req addr sh (Q : OpCodeRes -> Mach -> Prop) m0 m :
  MInv m0 -> mstep m0 m ->
  (forall r m', mstep m0 m' -> hash_ok (or_CodeHash r) (or_Code r) -> Q r m') -> wpE (fetch_code req addr sh) Q m.
Proof using hyps.
  intros H0 Hm HQ. unfold fetch_code. destruct (sh =? ShardID).
  - wp. apply HQ; [done |]. cbn. destruct H as [-> Hc], H2 as [-> _]. cbn. rewrite (Same_code _ _ _ Hc). apply code_at_ok, Hm.
  - wp. apply HQ; [by apply mstep_outbox |]. destruct (code_answer _) as [r |] eqn:E; cbn; [by eapply code_hash | by split; [| intros []]].
Qed.

Lemma remote_call_spec caller addr input gas v sh u (Q : _ -> Mach -> Prop) m0 m :
  MInv m0 -> mstep m0 m -> (forall r m', mstep m0 m' -> Q r m') -> wpE (remote_call caller addr input gas v sh u) Q m.
Proof using hyps.
  intros H0 Hm HQ. unfold remote_call, append_journal. wp; [| apply HQ; by apply mstep_outbox].
  eapply wpE_db; [apply AppendJournal_law | eassumption | eauto with evm |].
  { destruct (call_answer _) as [r |] eqn:E; cbn; [| constructor]. apply Forall_map. by eapply call_foreign. }
  intros _ s' _ Hs. by apply wpE_ret, HQ.
Qed.

Lemma remote_static_spec c addr input gas sh (Q : _ -> Mach -> Prop) m0 m :
  MInv m0 -> mstep m0 m -> (forall r m', mstep m0 m' -> Q r m') ->
  wpE (remote_static (ContractOf c) addr input gas sh) Q m.
Proof using Type.
  intros H0 Hm HQ. unfold remote_static. wp. eapply wpE_of; [done |]. wp; apply HQ; by apply mstep_outbox.
Qed.

(** ** The calls, over a safe interpreter *)

Context (run : Contract -> list Z -> bool -> E (list Z * option vmerr * Z)).
Definition run_ok : Prop :=
  forall c input ro m, CInv c -> short input -> MInv m ->
    wpE (run c input ro) (fun r m' => mstep m m' /\ short (fst (fst r))) m.
Context (Hrun : run_ok).

Lemma wpE_run c input ro (Q : _ -> Mach -> Prop) m0 m :
  CInv c -> short input -> MInv m0 -> mstep m0 m ->
  (forall r m', mstep m0 m' -> short (fst (fst r)) -> Q r m') -> wpE (run c input ro) Q m.
Proof using Hrun.
  intros Hc Hi H0 Hm HQ. eapply wpE_mono; [apply Hrun; [done | done | apply Hm] |]. intros r m' [H' Hr].
  apply HQ; [by eapply mstep_trans | done].
Qed.

(** A fresh contract with code and a value. *)
Lemma CInv_new caller object value gas h code u :
  hash_ok h code -> CInv (SetCallCode (set_UUID (NewContract caller object (Some value) gas) u) h code).
Proof using Type. intros Hh. by split; cbn; [eauto | ..]. Qed.

Lemma run_code_spec caller addr input gas v u (Q : _ -> Mach -> Prop) m0 m :
  short input -> MInv m0 -> mstep m0 m -> (forall r m', mstep m0 m' -> Q r m') -> wpE (run_code run caller addr input gas v u) Q m.
Proof using Hrun.
  intros Hin H0 Hm HQ. unfold run_code. wp. destruct a as [| b l]; wp; [by apply HQ |].
  eapply new_contract_spec; [done | done |]. intros m1 Hm1 Hd1. cbn in Hd1. wp.
  eapply wpE_run; [| done | done | done |].
  - apply CInv_new. destruct H as [Hc Hs], H2 as [-> _]. rewrite Hd1, (Same_code _ _ _ Hs), Hc. apply code_at_ok, Hm.
  - intros [[ret err] rest] m' Hm' _. wp. by apply HQ.
Qed.

(** What every call promises of its result. *)
Definition call_post (caller : ContractRef) (m : Mach) (r : list Z * Z * option vmerr) (m' : Mach) : Prop :=
  mstep m m' /\ (snd r <> None -> exists_at (db m) (ref_Address caller) -> Same (db m') (db m)).

(** A snapshot, a computation that keeps the invariant, and the end of the call: the
    shape of every call after its checks. *)
Lemma snapshot_spec caller (body : E (list Z * Z * option vmerr)) m m1 :
  MInv m -> mstep m m1 -> (exists_at (db m) (ref_Address caller) -> Same (db m1) (db m)) ->
  (forall mi, MInv mi -> wpE body (fun _ m' => mstep mi m') mi) ->
  wpE (snapshot ← on_db i_Snapshot; r ← body; finish_call snapshot r) (call_post caller m) m1.
Proof using Type.
  intros H0 Hm1 Hs1 Hbody. apply wpE_bind. eapply wpE_snapshot; [done | done |]. intros s1 id Hr Hst Hi.
  apply wpE_bind. eapply wpE_mono; [by apply Hbody |]. intros r m3 Hm3.
  eapply wpE_mono; [by eapply (finish_call_spec id s1 m m1) |].
  intros r' m' [Hm' Hsame]. split; [done |]. intros He Hex. eapply Same_trans; [by apply Hsame | by apply Hs1].
Qed.

Lemma call_run_spec caller addr input gas v u u' m m1 :
  short input -> MInv m -> mstep m m1 -> (exists_at (db m) (ref_Address caller) -> Same (db m1) (db m)) -> returns u ->
  wpE (call_run run caller addr input gas v u u') (call_post caller m) m1.
Proof using hyps Hrun.
  intros Hin H0 Hm1 Hs1 [ua Hu].
  pose proof (snapshot_spec caller (shard ← shard_of addr; _ ← call_transfer (ref_Address caller) addr v shard;
     match precompile addr with
     | Some p => RunPrecompiledContract p input gas
     | None => if shard =? ShardID then run_code run caller addr input gas v u'
               else x ← E_of u; remote_call (ref_Address caller) addr input gas v shard x
     end) m m1 H0 Hm1 Hs1) as H.
  eapply wpE_mono; [| eauto]. unfold call_run.
  refine (_ (H _)).
  - unfold wpE, mbind, E_bind. destruct (on_db i_Snapshot m1) as [[id m2] | |]; [| done | done].
    destruct (shard_of addr m2) as [[sh m3] | |]; [| done | done].
    by destruct (call_transfer _ _ _ _ m3) as [[[] m4] | |].
  - intros mi Hi. apply wpE_bind, wpE_shard. intros sh. apply wpE_bind.
    eapply call_transfer_spec; [exact Hi | by apply mstep_refl |]. intros m2 Hm2.
    destruct (precompile addr) as [p |] eqn:Ep; [by eapply wpE_precompiled |].
    destruct (sh =? ShardID); [by eapply run_code_spec |].
    apply wpE_bind. eapply wpE_of; [done |]. by eapply remote_call_spec.
Qed.

Lemma call_body_spec caller addr input gas v u u' m :
  short input -> MInv m -> returns u -> wpE (call_body run caller addr input gas v u u') (call_post caller m) m.
Proof using hyps Hrun.
  intros Hin H0 Hu. pose proof (mstep_refl m H0) as Hm. assert (Hearly : forall r, call_post caller m r m).
  { intros r. split; [done | intros; apply Same_refl]. }
  unfold call_body. apply wpE_bind, wpE_gets. destruct (_ <? _); [by apply wpE_ret |]. apply wpE_bind.
  destruct (IsZero v); [apply wpE_ret; by apply call_run_spec; [.. | intros; apply Same_refl |] |].
  eapply CanTransfer_spec; [done | done |]. intros [|] m1 Hm1 Hs1; [by apply call_run_spec |].
  by apply wpE_ret.
Qed.

Lemma CallCode_spec caller addr input gas v m :
  short input -> MInv m -> wpE (CallCode run caller addr input gas v) (call_post caller m) m.
Proof using hyps Hrun.
  intros Hin H0. pose proof (mstep_refl m H0) as Hm.
  unfold CallCode. apply wpE_bind, wpE_gets.
  destruct (_ <? _); [apply wpE_ret; split; [done | intros; apply Same_refl] |]. apply wpE_bind.
  eapply CanTransfer_spec; [done | done |]. intros [|] m1 Hm1 Hs1; cbn [negb]; [| by apply wpE_ret].
  apply snapshot_spec; [done | done | done |]. intros mi Hi. pose proof (mstep_refl mi Hi) as Hmi.
  destruct (precompile addr) as [p |] eqn:Ep; [by eapply wpE_precompiled |].
  apply wpE_bind. eapply new_contract_spec; [done | done |]. intros m2 Hm2 _. apply wpE_bind, wpE_shard. intros sh.
  apply wpE_bind. eapply fetch_code_spec; [done | done |]. intros r m3 Hm3 Hr. apply wpE_bind.
  eapply wpE_run; [| done | done | done | by intros [[ret err] rest] m4 Hm4 _; apply wpE_ret].
  by split; cbn; [eauto | ..].
Qed.

Lemma DelegateCall_spec c addr input gas m :
  short input -> MInv m -> CInv c -> wpE (DelegateCall run (ContractOf c) addr input gas) (call_post (ContractOf c) m) m.
Proof using hyps Hrun.
  intros Hin H0 Hc. pose proof (mstep_refl m H0) as Hm.
  unfold DelegateCall. apply wpE_bind, wpE_gets.
  destruct (_ <? _); [apply wpE_ret; split; [done | intros; apply Same_refl] |].
  apply snapshot_spec; [done | done | intros; apply Same_refl |]. intros mi Hi. pose proof (mstep_refl mi Hi) as Hmi.
  destruct (precompile addr) as [p |] eqn:Ep; [by eapply wpE_precompiled |].
  apply wpE_bind. eapply new_contract_spec; [done | done |]. intros m2 Hm2 _.
  apply wpE_bind. eapply wpE_of; [reflexivity |]. apply wpE_bind, wpE_shard. intros sh.
  apply wpE_bind. eapply fetch_code_spec; [done | done |]. intros r m3 Hm3 Hr. apply wpE_bind.
  eapply wpE_run; [| done | done | done | by intros [[ret err] rest] m4 Hm4 _; apply wpE_ret].
  by split; cbn; [apply Hc | ..].
Qed.

Lemma StaticCall_spec c addr input gas m :
  short input -> MInv m -> wpE (StaticCall run (ContractOf c) addr input gas) (call_post (ContractOf c) m) m.
Proof using hyps Hrun.
  intros Hin H0. pose proof (mstep_refl m H0) as Hm.
  unfold StaticCall. apply wpE_bind, wpE_gets.
  destruct (_ <? _); [apply wpE_ret; split; [done | intros; apply Same_refl] |].
  apply snapshot_spec; [done | done | intros; apply Same_refl |]. intros mi Hi. pose proof (mstep_refl mi Hi) as Hmi.
  destruct (precompile addr) as [p |] eqn:Ep; [by eapply wpE_precompiled |].
  apply wpE_bind, wpE_shard. intros sh. destruct (sh =? ShardID); [| by eapply remote_static_spec].
  apply wpE_bind. eapply new_contract_spec; [done | done |]. intros m2 Hm2 _. wp.
  eapply wpE_run; [| done | done | done | by intros [[ret err] rest] m4 Hm4 _; apply wpE_ret].
  split; cbn; [eauto | | done | done]. destruct H as [-> Hc], H2 as [-> _]. cbn. rewrite (Same_code _ _ _ Hc). apply code_at_ok, Hm2.
Qed.

(** ** Creation *)

(** Nothing is at an address that does not collide. *)
Lemma collides_spec a (Q : bool -> Mach -> Prop) m0 m :
  MInv m0 -> mstep m0 m ->
  (forall b m', mstep m0 m' -> (b = false -> no_code (fst (code_at (db m) a))) -> Same (db m') (db m) -> Q b m') ->
  wpE (collides a) Q m.
Proof using Type.
  intros H0 Hm HQ. unfold collides. wp. destruct H as [-> Hc].
  apply HQ; [done | | by do 2 (eapply Same_trans; [eassumption |])].
  intros [[_ Hh]%orb_false_iff _]%orb_false_iff. unfold no_code.
  destruct (Z.eqb_spec (fst (code_at (db m) a)) 0) as [| Hn]; [by left |].
  destruct (Z.eqb_spec (fst (code_at (db m) a)) EmptyCodeHash) as [| Hn']; [by right |]. done.
Qed.

Lemma wpE_setcode a c (Q : unit -> Mach -> Prop) m0 m :
  short c -> MInv m0 -> mstep m0 m -> no_code (fst (code_at (db m0) a)) -> (forall m', mstep m0 m' -> Q tt m') ->
  wpE (on_db (i_SetCode a c)) Q m.
Proof using Type.
  intros Hsh H0 Hm Hn HQ. destruct (SetCode_law (db m0) (db m) a c) as (s' & Hop & Hi & Hs);
    [done | apply H0 | apply Hm | apply Hm | done |].
  unfold wpE, on_db. rewrite Hop. apply HQ. destruct Hm as [[] ? ? ?]. by split.
Qed.

Lemma wpE_create_contract a (Q : unit -> Mach -> Prop) m0 m :
  MInv m0 -> mstep m0 m -> exists_at (db m) a -> (forall m', mstep m0 m' -> Q tt m') ->
  wpE (on_db (i_CreateContract a)) Q m.
Proof using Type.
  intros H0 Hm He HQ. destruct (CreateContract_law (db m) a) as (s' & Hop & Hi & Hs); [apply Hm | done |].
  unfold wpE, on_db. rewrite Hop. apply HQ. eapply mstep_trans; [done | done |]. destruct Hm as [[] ? ? ?]. by split.
Qed.

Lemma create_local_spec caller code h gas v a m0 :
  MInv m0 -> hash_ok h code -> wpE (create_local run caller code h gas v a) (fun _ m' => mstep m0 m') m0.
Proof using Hrun.
  intros H0 Hh. pose proof (mstep_refl m0 H0) as Hm0. unfold create_local.
  apply wpE_bind. eapply collides_spec; [done | done |]. intros [|] m1 Hm1 Hn _; [by apply wpE_ret |].
  specialize (Hn eq_refl). apply wpE_bind. eapply wpE_snapshot; [done | done |]. intros s1 id Hr Hst Hi.
  set (mi := with_db m1 s1) in *. pose proof (mstep_refl mi Hi) as Hmi.
  eapply ensure_account_spec; [exact Hi | done |]. intros m2 Hm2 He. apply wpE_bind.
  eapply wpE_create_contract; [exact Hi | done | done |]. intros m3 Hm3. apply wpE_bind.
  eapply Transfer_spec; [exact Hi | done |]. intros m4 Hm4. apply wpE_bind.
  eapply new_contract_spec; [exact Hi | done |]. intros m5 Hm5 _. unfold InitNewContract. apply wpE_bind, wpE_bind.
  eapply wpE_run; [| done | exact Hi | done |]; [by split; cbn; [eauto | ..] |].
  intros [[ret err] rest] m6 Hm6 Hret. assert (Hm06 : mstep m0 m6) by by eapply mstep_trans.
  destruct err as [e |]; apply wpE_ret || apply wpE_bind.
  - apply wpE_bind. eapply (wpE_revert id _ (db m1) s1 m0 mi); [done | done | done | done | | done].
    intros s3 _ Hs3 Hi3 msgs. wp. apply mstep_outbox. by apply (mstep_restore m0 m1 mi).
  - eapply (wpE_setcode a ret _ m0); [done | done | done | done |]. intros m7 Hm7. by repeat apply wpE_ret.
Qed.

Lemma create_remote_spec caller code gas v a sh u m0 :
  MInv m0 -> wpE (create_remote caller code gas v a sh u) (fun _ m' => mstep m0 m') m0.
Proof using hyps.
  intros H0. pose proof (mstep_refl m0 H0) as Hm0. unfold create_remote.
  apply wpE_bind. eapply wpE_snapshot; [done | done |]. intros s1 id Hr Hst Hi.
  set (mi := with_db m0 s1) in *. pose proof (mstep_refl mi Hi) as Hmi.
  wp1. wp1. wp1. wp1. wp1. wp1. wp1.
  assert (Hmo : forall o, mstep mi (with_outbox mi o)) by (intros; by apply mstep_outbox).
  eapply (wpE_db _ _ _ mi); [apply SubBalance_law | done | done |]. intros _ s2 _ Hm2.
  case_decide.
  - unfold append_journal. apply wpE_bind. eapply (wpE_db _ _ _ mi); [apply AppendJournal_law | done | done |].
    { destruct (create_answer _) as [r |] eqn:E; cbn; [| constructor]. apply Forall_map. by eapply create_foreign. }
    intros _ s3 _ Hm3. apply wpE_ret. by eapply mstep_trans.
  - apply wpE_bind. eapply (wpE_revert id _ (db m0) s1 m0 mi); [done | done | done | done | | done].
    intros s3 _ Hs3 Hi3 msgs. wp. apply mstep_outbox. by apply (mstep_restore m0 m0 mi).
Qed.

Lemma create_spec caller code h gas v a u m0 :
  MInv m0 -> hash_ok h code -> wpE (create run caller code h gas v a u) (fun _ m' => mstep m0 m') m0.
Proof using hyps Hrun.
  intros H0 Hh. pose proof (mstep_refl m0 H0) as Hm0. unfold create.
  apply wpE_bind, wpE_gets. destruct (_ <? _); [by apply wpE_ret |].
  apply wpE_bind. eapply CanTransfer_spec; [done | done |]. intros [|] m1 Hm1 _; cbn [negb]; [| by apply wpE_ret].
  wp; [done |]. apply wpE_shard. intros sh.
  match goal with H : mstep m0 ?m |- wpE _ _ ?m => assert (Hlift : forall (c : E (list Z * Z * Z * option vmerr)),
    wpE c (fun _ m' => mstep m m') m -> wpE c (fun _ m' => mstep m0 m') m) by
    (intros c Hc; eapply wpE_mono; [exact Hc |]; intros; by eapply mstep_trans);
    pose proof (ms_inv _ _ H) end.
  destruct (sh =? ShardID); apply Hlift; [by apply create_local_spec | by apply create_remote_spec].
Qed.

Lemma Create_spec caller code gas v u m0 :
  short code -> MInv m0 -> wpE (Create run caller code gas v u) (fun _ m' => mstep m0 m') m0.
Proof using hyps Hrun.
  intros Hc H0. pose proof (mstep_refl m0 H0) as Hm0. unfold Create. apply wpE_bind.
  eapply (wpE_db _ _ _ m0); [apply GetNonce_law | done | done |]. intros n s1 _ Hm1.
  eapply wpE_mono; [apply create_spec; [apply Hm1 | by split; [| left]] |]. intros r m' Hm'. by eapply mstep_trans.
Qed.

Lemma Create2_spec caller code gas v salt u m0 :
  short code -> MInv m0 -> wpE (Create2 run caller code gas v salt u) (fun _ m' => mstep m0 m') m0.
Proof using hyps Hrun. intros Hc H0. unfold Create2. apply create_spec; [done | by split; [| right]]. Qed.
End Calls.
