(* ===== verification/FrameLogic.v ===== *)
(** * Reasoning about instructions

    The memory operations return on ranges that are covered; the size functions of
    [memory_table.go] compute such ranges. [wpI c Q f m] is [MachineLaws.wpE] for
    computations that also have a frame; [exec_ok] is what an entry of the instruction
    table promises: given the stack and the memory it asks for, an instruction crashes
    only for an allowed reason, keeps the invariants of the frame and of the machine,
    and changes the height of the stack as its entry says. The tactics at the end run
    an instruction symbolically. *)
From Stdlib Require Import ZArith Lia.
From stdpp Require Import base gmap strings list.
From S2P Require Import Prelude Utils JournalTypes StateDB Analysis Machine Evm Instructions MachineLaws EvmProofs.

(** ** Memory *)

(** The bytes [off, off + len) are there; an empty range may start anywhere. *)
Definition covers (s : list Z) (off len : Z) : Prop := len = 0 \/ off + len <= zlen s.

Lemma u64_sum a b n : 0 <= a -> 0 <= b -> a + b <= n -> n < 2 ^ 63 -> u64 (a + b) = a + b.
Proof. intros. apply u64_small. unfold is_u64. lia. Qed.

Lemma copy_at_length s off v : 0 <= off <= zlen s -> zlen (copy_at s off v) = zlen s.
Proof.
  intros H. unfold copy_at, zlen in *. rewrite !length_app, length_take, length_drop. rewrite length_take. lia.
Qed.

Section Memory.
Context (s : list Z) (off len : Z) (Hs : short s) (Ho : 0 <= off) (Hl : 0 <= len).

Lemma mem_Set_ok v : covers s off len -> exists s', mem_Set s off len v = Ret s' /\ zlen s' = zlen s.
Proof using Hs Ho Hl.
  unfold short in Hs. intros Hc. unfold mem_Set. destruct (Z.ltb_spec 0 len); [| eauto].
  destruct Hc as [| Hc]; [lia |]. rewrite (u64_sum off len (zlen s)) by lia.
  destruct (Z.ltb_spec (zlen s) (off + len)); [lia |].
  destruct (slice_returns s off (off + len)) as (x & -> & _); [lia | lia |]. cbn. eexists. split; [done |].
  apply copy_at_length. lia.
Qed.

Lemma mem_GetCopy_ok : covers s off len -> exists d, mem_GetCopy s off len = Ret d /\ zlen d = len.
Proof using Hs Ho Hl.
  unfold short in Hs. intros Hc. unfold mem_GetCopy. destruct (Z.eqb_spec len 0) as [-> |]; [by exists [] |].
  destruct Hc as [| Hc]; [lia |]. rewrite (u64_sum off len (zlen s)) by lia.
  destruct (slice_returns s off (off + len)) as (x & -> & Hx); [lia | lia |]. exists x. split; [done | lia].
Qed.
End Memory.

Lemma mem_Set32_ok s off v :
  short s -> 0 <= off -> off + 32 <= zlen s -> exists s', mem_Set32 s off v = Ret s' /\ zlen s' = zlen s.
Proof.
  intros Hs Ho Hc. unfold short in Hs. unfold mem_Set32. rewrite (u64_sum off 32 (zlen s)) by lia.
  destruct (Z.ltb_spec (zlen s) (off + 32)); [lia |].
  destruct (slice_returns s off (zlen s)) as (x & -> & _); [lia | lia |]. cbn. eexists. split; [done |].
  apply copy_at_length. lia.
Qed.

Lemma mem_Copy_ok s dst src len :
  short s -> 0 <= dst -> 0 <= src -> 0 <= len -> covers s dst len -> covers s src len ->
  exists s', mem_Copy s dst src len = Ret s' /\ zlen s' = zlen s.
Proof.
  intros Hs Hd Hsr Hl Hc1 Hc2. unfold short in Hs. unfold mem_Copy. destruct (Z.eqb_spec len 0); [eauto |].
  destruct Hc1, Hc2; try lia. rewrite (u64_sum src len (zlen s)) by lia.
  destruct (slice_returns s src (src + len)) as (x & -> & _); [lia | lia |].
  destruct (slice_returns s dst (zlen s)) as (y & Hy & _); [lia | lia |]. cbn -[slice]. rewrite Hy. cbn.
  eexists. split; [done |]. apply copy_at_length. lia.
Qed.

Lemma set_idx_ok (s : list Z) off v : 0 <= off -> off + 1 <= zlen s -> exists s', set_idx s off v = Ret s' /\ zlen s' = zlen s.
Proof.
  intros Ho Hc. rewrite set_idx_returns by lia. eexists. split; [done |]. unfold zlen. by rewrite length_insert.
Qed.

(** Data of any start, in a length that fits the memory. *)
Lemma getData_ok d start size :
  short d -> 0 <= start -> 0 <= size < 2 ^ 63 -> exists x, getData d start size = Ret x.
Proof.
  intros Hd Hst Hsz. unfold getData, short in *. set (st := if zlen d <? start then zlen d else start).
  assert (Hst' : 0 <= st <= zlen d).
  { unfold st, zlen. destruct (Z.ltb_spec (Z.of_nat (length d)) start); lia. }
  rewrite u64_small by (unfold is_u64; lia).
  destruct (slice_returns d st (if zlen d <? st + size then zlen d else st + size)) as (x & -> & _);
    [destruct (Z.ltb_spec (zlen d) (st + size)); lia | destruct (Z.ltb_spec (zlen d) (st + size)); lia |].
  cbn. eauto.
Qed.

Section Sizes.
Context `{w : Uint256} `{wok : !Uint256Ok w}.

Lemma Uint64_range x : 0 <= Uint64 x < 2 ^ 64.
Proof using wok. rewrite Uint64_spec. by apply Z.mod_pos_bound. Qed.

Lemma calcMemSize64WithUint_ok off k n :
  0 < k < 2 ^ 64 -> calcMemSize64WithUint off k = (n, false) -> n = Uint64 off + k.
Proof using wok.
  intros Hk. unfold calcMemSize64WithUint. destruct (Z.eqb_spec k 0); [lia |].
  rewrite Uint64WithOverflow_spec. destruct (negb _); [done |]. pose proof (Uint64_range off).
  intros [= <- Hlt%Z.ltb_ge]. unfold u64 in *.
  destruct (Z_lt_ge_dec (Uint64 off + k) (2 ^ 64)) as [| Hge]; [rewrite Z.mod_small; lia |].
  rewrite <- (Z.mod_unique (Uint64 off + k) (2 ^ 64) 1 (Uint64 off + k - 2 ^ 64)) in Hlt by lia. lia.
Qed.

Lemma calcMemSize64_ok off l n s :
  calcMemSize64 off l = (n, false) -> n <= zlen s -> covers s (Uint64 off) (Uint64 l) /\ ToBig l < 2 ^ 64.
Proof using wok.
  unfold calcMemSize64. destruct (IsUint64 l) eqn:El; [| done]. intros Hc Hn.
  rewrite IsUint64_spec in El. apply Z.ltb_lt in El. split; [| done].
  pose proof (Uint64_range l). destruct (Z.eq_dec (Uint64 l) 0); [by left | right].
  apply calcMemSize64WithUint_ok in Hc; lia.
Qed.
End Sizes.

(** ** The logic of instructions *)

Section Instructions.
Context `{w : Uint256} `{sdb : StateDBI} `{cr : Crypto} `{cfg : Config} `{env : NodeEnv} `{rem : Remote} `{ctx : EvmEnv}.
Context `{laws : !StateDBLaws sdb cr env} `{hyps : !EvmAssumptions cr cfg env rem ctx} `{wok : !Uint256Ok w}.

Definition wpI {A} (c : I A) (Q : A -> Frame -> Mach -> Prop) (f : Frame) (m : Mach) : Prop :=
  match c f m with Val (a, f', m') => Q a f' m' | Crash why => allowed why | Spin => True end.

Lemma wpI_bind {A B} (c : I A) (k : A -> I B) Q f m :
  wpI c (fun a f' m' => wpI (k a) Q f' m') f m -> wpI (c ≫= k) Q f m.
Proof using Type. unfold wpI, mbind, I_bind. by destruct (c f m) as [[[a f'] m'] | |]. Qed.

Lemma wpI_ret {A} (a : A) (Q : A -> Frame -> Mach -> Prop) f m : Q a f m -> wpI (mret a) Q f m.
Proof using Type. done. Qed.

Lemma wpI_mono {A} (c : I A) (P Q : A -> Frame -> Mach -> Prop) f m :
  wpI c P f m -> (forall a f' m', P a f' m' -> Q a f' m') -> wpI c Q f m.
Proof using Type. unfold wpI. destruct (c f m) as [[[a f'] m'] | |]; eauto. Qed.

Lemma wpI_frame (Q : Frame -> Frame -> Mach -> Prop) f m : Q f f m -> wpI frame Q f m.
Proof using Type. done. Qed.

Lemma wpI_update g (Q : unit -> Frame -> Mach -> Prop) f m : Q tt (g f) m -> wpI (update g) Q f m.
Proof using Type. done. Qed.

Lemma wpI_evm {A} (c : E A) (Q : A -> Frame -> Mach -> Prop) f m :
  wpE c (fun a m' => Q a f m') m -> wpI (evm c) Q f m.
Proof using Type. unfold wpI, wpE, evm. by destruct (c m) as [[a m'] | |]. Qed.

Lemma wpI_try {A} (o : outcome A) (Q : A -> Frame -> Mach -> Prop) f m a : o = Ret a -> Q a f m -> wpI (try o) Q f m.
Proof using Type. intros -> HQ. done. Qed.

Lemma wpI_deref {A} (o : option A) (Q : A -> Frame -> Mach -> Prop) f m :
  (o = None -> context_nil) -> (forall a, o = Some a -> Q a f m) -> wpI (try (deref o)) Q f m.
Proof using Type. intros Hn HQ. destruct o; [by apply HQ | right; eauto]. Qed.

Lemma wpI_pop p x st s g c (Q : Int -> Frame -> Mach -> Prop) m :
  Q x (mkFrame p st s g c) m -> wpI pop Q (mkFrame p (x :: st) s g c) m.
Proof using Type. done. Qed.

Lemma wpI_peek p x st s g c (Q : Int -> Frame -> Mach -> Prop) m :
  Q x (mkFrame p (x :: st) s g c) m -> wpI peek Q (mkFrame p (x :: st) s g c) m.
Proof using Type. done. Qed.

Lemma wpI_set_top y p x st s g c (Q : unit -> Frame -> Mach -> Prop) m :
  Q tt (mkFrame p (y :: st) s g c) m -> wpI (set_top y) Q (mkFrame p (x :: st) s g c) m.
Proof using Type. done. Qed.

Lemma wpI_push x p st s g c (Q : unit -> Frame -> Mach -> Prop) m :
  Q tt (mkFrame p (x :: st) s g c) m -> wpI (push x) Q (mkFrame p st s g c) m.
Proof using Type. done. Qed.

Lemma wpI_back n (Q : Int -> Frame -> Mach -> Prop) f m :
  (n < length (stack f))%nat -> (forall x, stack f !! n = Some x -> Q x f m) -> wpI (back n) Q f m.
Proof using Type.
  intros Hn HQ. destruct (lookup_lt_is_Some_2 _ _ Hn) as [x Hx]. unfold back. apply wpI_bind, wpI_frame.
  eapply wpI_try; [| by apply HQ]. unfold Back. apply idx_returns; [lia |]. by rewrite Nat2Z.id.
Qed.

Lemma wpI_on_store op (Q : unit -> Frame -> Mach -> Prop) p st s g c m :
  (exists s', op s = Ret s' /\ zlen s' = zlen s) ->
  (forall s', zlen s' = zlen s -> Q tt (mkFrame p st s' g c) m) -> wpI (on_store op) Q (mkFrame p st s g c) m.
Proof using Type.
  intros (s' & Hop & Hl) HQ. unfold on_store. apply wpI_bind, wpI_frame, wpI_bind. eapply wpI_try; [done |].
  apply wpI_update. by apply HQ.
Qed.

Lemma wpI_read_store op P (Q : list Z -> Frame -> Mach -> Prop) p st s g c m :
  (exists d, op s = Ret d /\ P d) -> (forall d, P d -> Q d (mkFrame p st s g c) m) ->
  wpI (read_store op) Q (mkFrame p st s g c) m.
Proof using Type.
  intros (d & Hop & Hd) HQ. unfold read_store. apply wpI_bind, wpI_frame. eapply wpI_try; [done | by apply HQ].
Qed.

(** ** What an instruction promises *)

Record FInv (f : Frame) : Prop := {
  fi_contract : CInv (contract f);
  fi_store : short (store f);
  fi_pc : 0 <= pc f < 2 ^ 64
}.

(** After an instruction: the invariants, and unless it ends the run the
    height of the stack; the data of a run that ends is short. *)
Record exec_post (f : Frame) (m : Mach) (pops pushes : Z) (r : Result) (f' : Frame) (m' : Mach) : Prop := {
  ep_step : mstep m m';
  ep_frame : FInv f';
  ep_stack : snd r = None -> zlen (stack f') = zlen (stack f) - pops + pushes;
  ep_data : snd r <> None -> short (fst r)
}.

(** The memory a size function asks for is there. *)
Definition mem_ready (size : option memorySizeFunc) (f : Frame) : Prop :=
  match size with
  | None => True
  | Some size => exists n, size (stack f) = Ret (n, false) /\ n <= zlen (store f)
  end.

Definition exec_ok (e : I Result) (size : option memorySizeFunc) (pops pushes : Z) : Prop :=
  forall f m, MInv m -> FInv f -> pops <= zlen (stack f) -> mem_ready size f -> wpI e (exec_post f m pops pushes) f m.

Lemma zlen_cons {A} (x : A) l : zlen (x :: l) = zlen l + 1.
Proof using Type. unfold zlen. cbn. lia. Qed.

Lemma zlen_insert {A} n (x : A) l : zlen (<[n := x]> l) = zlen l.
Proof using Type. unfold zlen. by rewrite length_insert. Qed.

(** A range of the memory an instruction may use. *)
Definition in_range (s : list Z) (o l : Z) : Prop := short s /\ 0 <= o /\ 0 <= l < 2 ^ 63 /\ covers s o l.

(** A size function that was satisfied, for a range of the stack and for a constant. *)
Lemma range_ready o l n s :
  calcMemSize64 o l = (n, false) -> n <= zlen s -> short s -> in_range s (Uint64 o) (Uint64 l) /\ ToBig l = Uint64 l.
Proof using wok.
  intros H Hn Hs. destruct (calcMemSize64_ok _ _ _ _ H Hn) as [Hc Hb].
  pose proof (Uint64_range l). pose proof (Uint64_range o). pose proof (ToBig_range l).
  split; [split_and!; try done; try lia; unfold covers, short in *; lia |].
  rewrite Uint64_spec, Z.mod_small; lia.
Qed.

Lemma fixed_ready o k n s :
  0 < k < 2 ^ 63 -> calcMemSize64WithUint o k = (n, false) -> n <= zlen s -> short s -> in_range s (Uint64 o) k.
Proof using wok.
  intros Hk H Hn Hs. apply calcMemSize64WithUint_ok in H; [| lia]. pose proof (Uint64_range o).
  split_and!; try done; try lia. right. lia.
Qed.

Lemma wpI_GetCopy o l (Q : list Z -> Frame -> Mach -> Prop) p st s g c m :
  in_range s o l -> (forall d, zlen d = l -> short d -> Q d (mkFrame p st s g c) m) ->
  wpI (read_store (fun s => mem_GetCopy s o l)) Q (mkFrame p st s g c) m.
Proof using Type.
  intros (Hs & Ho & Hl & Hc) HQ. destruct (mem_GetCopy_ok s o l) as (d & Hd & Hz); [done | done | lia | done |].
  eapply (wpI_read_store _ (fun d => zlen d = l)); [eauto |]. intros d' Hd'. apply HQ; [done | unfold short; lia].
Qed.

Lemma wpI_Set o l v (Q : unit -> Frame -> Mach -> Prop) p st s g c m :
  in_range s o l -> (forall s', zlen s' = zlen s -> Q tt (mkFrame p st s' g c) m) ->
  wpI (on_store (fun s => mem_Set s o l v)) Q (mkFrame p st s g c) m.
Proof using Type. intros (Hs & Ho & Hl & Hc) HQ. apply wpI_on_store; [apply mem_Set_ok; done || lia | done]. Qed.

Lemma wpI_getData d o l (Q : list Z -> Frame -> Mach -> Prop) f m :
  short d -> 0 <= o -> 0 <= l < 2 ^ 63 -> (forall x, Q x f m) -> wpI (try (getData d o l)) Q f m.
Proof using Type. intros Hd Ho Hl HQ. destruct (getData_ok d o l) as [x Hx]; [done .. |]. by eapply wpI_try. Qed.

Lemma data_offset_range x : 0 <= data_offset x.
Proof using wok.
  unfold data_offset. rewrite Uint64WithOverflow_spec. destruct (negb _); [done | apply Uint64_range].
Qed.

Lemma set_analysis_ok c a : CInv c -> codeBitmap (Code c) = Ret a -> CInv (set_analysis c a).
Proof using Type. intros [] Ha. split; cbn; [done .. |]. by intros ? [= <-]. Qed.

Lemma set_Gas_ok c g : CInv c -> CInv (set_Gas c g).
Proof using Type. intros []. by split. Qed.

Lemma RefundGas_ok c g : CInv c -> CInv (RefundGas c g).
Proof using Type. unfold RefundGas. case_match; [done | apply set_Gas_ok]. Qed.

Lemma UseGas_ok c g : CInv c -> CInv (fst (UseGas c g)).
Proof using Type. unfold UseGas. case_match; [done | apply set_Gas_ok]. Qed.

Lemma FInv_same p st s g c p' st' s' g' c' :
  FInv (mkFrame p st s g c) -> zlen s' = zlen s -> 0 <= p' < 2 ^ 64 -> CInv c' -> FInv (mkFrame p' st' s' g' c').
Proof using Type. intros [] Hs Hp Hc. split; cbn in *; [done | | done]. unfold short in *. by rewrite Hs. Qed.
End Instructions.

#[export] Hint Resolve set_analysis_ok set_Gas_ok RefundGas_ok UseGas_ok ci_input data_offset_range : evm.
#[export] Hint Extern 1 (0 <= _ < 2 ^ 63) => match goal with H : in_range _ _ _ |- _ => apply H end : evm.

(** Steps of an instruction on a frame whose stack is spelled out. *)
Ltac iwp1 :=
  lazymatch goal with
  | |- wpI (mbind _ _) _ _ _ => apply wpI_bind
  | |- wpI (mret _) _ _ _ => apply wpI_ret
  | |- wpI ok _ _ _ => apply wpI_ret
  | |- wpI (fail _) _ _ _ => apply wpI_ret
  | |- wpI frame _ _ _ => apply wpI_frame
  | |- wpI (update _) _ _ _ => apply wpI_update
  | |- wpI (evm (gets _)) _ _ _ => apply wpI_evm, wpE_gets
  | |- wpI (evm (modify _)) _ _ _ => apply wpI_evm, wpE_modify
  | |- wpI (evm (send _)) _ _ _ => apply wpI_evm, wpE_modify
  | |- wpI (evm (on_db _)) _ _ _ =>
      apply wpI_evm; eapply wpE_db; [solve [eauto with evm] | eassumption | solve [eauto with evm] | cbv beta; intros]
  | |- wpI pop _ _ _ => apply wpI_pop
  | |- wpI peek _ _ _ => apply wpI_peek
  | |- wpI (set_top _) _ _ _ => apply wpI_set_top
  | |- wpI (push _) _ _ _ => apply wpI_push
  | |- wpI (push_bytes _) _ _ _ => unfold push_bytes
  | |- wpI (push_uint64 _) _ _ _ => unfold push_uint64
  | |- wpI (read_store _) _ _ _ => apply wpI_GetCopy; [assumption | intros]
  | |- wpI (on_store (fun s => mem_Set s _ _ _)) _ _ _ => apply wpI_Set; [assumption | intros]
  | |- wpI (try (getData _ _ _)) _ _ _ =>
      apply wpI_getData; [solve [eauto with evm] | solve [eauto with evm] | solve [eauto with evm] | intros]
  | |- wpI (if ?b then _ else _) _ _ _ => destruct b eqn:?
  | |- wpI (let '(_, _) := Uint64WithOverflow ?x in _) _ _ _ => rewrite (Uint64WithOverflow_spec x)
  end.
Ltac isimpl := cbn [with_stack with_store with_pc with_cost with_contract pc stack store lastGasCost contract
  with_db with_outbox with_returnData with_jumpdests db depth readOnly returnData outbox jumpdests].
Ltac iwp := repeat (iwp1; isimpl).

(** What the satisfied size function says of the memory. *)
Ltac imem :=
  lazymatch goal with
  | Hmem : mem_ready _ _, Hs : short ?s |- _ =>
      let n := fresh "n" in let Hsz := fresh "Hsz" in let Hn := fresh "Hn" in let Hr := fresh "Hr" in
      destruct Hmem as (n & Hsz & Hn); cbn in Hsz, Hn; injection Hsz as Hsz;
      first [destruct (range_ready _ _ _ _ Hsz Hn Hs) as [Hr ?]
            | unshelve epose proof (fixed_ready _ _ _ _ _ Hsz Hn Hs) as Hr; [split; reflexivity |]]
  end.

(** An instruction that needs [n] words: the frame, its invariants and its stack. *)
Tactic Notation "istart" integer(n) :=
  let p := fresh "p" in let st := fresh "st" in let s := fresh "s" in let gc := fresh "gc" in let c := fresh "c" in
  let m := fresh "m" in let Hst := fresh "Hst" in
  intros [p st s gc c] m Hm Hf Hst Hmem; pose proof (mstep_refl m Hm) as Hm0;
  pose proof (fi_contract _ Hf) as Hc; pose proof (fi_store _ Hf) as Hs; pose proof (fi_pc _ Hf) as Hp;
  cbn [contract store pc stack] in Hc, Hs, Hp, Hst;
  do n (destruct st as [| ? st]; [exfalso; clear - Hst; unfold zlen in Hst; cbn in Hst; lia |]).

Ltac iend :=
  split; [eauto with evm
         | eapply FInv_same; [eassumption | solve [done | congruence] | solve [assumption | lia] | solve [eauto with evm]]
         | cbn; intros; rewrite ?zlen_cons, ?zlen_insert; solve [lia | done]
         | cbn; intros; try done].
