(* ===== verification/InstructionProofs.v ===== *)
(** * Every instruction is safe

    [exec_ok] for each instruction of the table, [gas_ok] for each dynamic gas
    function, and the jump destinations: [validJumpdest] accepts exactly the JUMPDEST
    bytes that are not the data of a push. *)
From Stdlib Require Import ZArith Lia.
From stdpp Require Import base gmap strings list.
From S2P Require Import Prelude Utils JournalTypes StateDB Analysis Machine Evm Instructions MachineLaws EvmProofs FrameLogic.

Section Instructions.
Context `{w : Uint256} `{sdb : StateDBI} `{cr : Crypto} `{cfg : Config} `{env : NodeEnv} `{rem : Remote} `{ctx : EvmEnv}.
Context `{laws : !StateDBLaws sdb cr env} `{hyps : !EvmAssumptions cr cfg env rem ctx} `{wok : !Uint256Ok w}.

(** ** Arithmetic and logic *)

Lemma binop_ok g : exec_ok (binop g) None 2 1.
Proof using Type. istart 2. unfold binop. iwp. iend. Qed.

Lemma opNot_ok : exec_ok opNot None 1 1.
Proof using Type. istart 1. unfold opNot. iwp. iend. Qed.

Lemma opIszero_ok : exec_ok opIszero None 1 1.
Proof using Type. istart 1. unfold opIszero. iwp. iend. Qed.

Lemma opAddmod_ok : exec_ok opAddmod None 3 1.
Proof using Type. istart 3. unfold opAddmod. iwp. iend. Qed.

Lemma opMulmod_ok : exec_ok opMulmod None 3 1.
Proof using Type. istart 3. unfold opMulmod. iwp. iend. Qed.

Lemma opKeccak256_ok : exec_ok opKeccak256 (Some memoryKeccak256) 2 1.
Proof using wok. istart 2. imem. unfold opKeccak256. iwp. iend. Qed.

(** ** Environment *)

Lemma push_value_ok (v : Frame -> Int) : exec_ok (f ← frame; _ ← push (v f); ok) None 0 1.
Proof using Type. istart 0. iwp. iend. Qed.

Lemma push_const_ok v : exec_ok (_ ← push v; ok) None 0 1.
Proof using Type. istart 0. iwp. iend. Qed.

Lemma push_big_ok b : (b = None -> context_nil) -> exec_ok (push_big b) None 0 1.
Proof using Type. intros Hb. istart 0. unfold push_big. iwp. apply wpI_deref; [done |]. intros v _. iwp. iend. Qed.

Lemma opRandom_ok : exec_ok opRandom None 0 1.
Proof using Type.
  istart 0. unfold opRandom. iwp. apply wpI_deref; [unfold context_nil; tauto |]. intros v _. iwp. iend.
Qed.

Lemma opCallValue_ok : exec_ok opCallValue None 0 1.
Proof using Type.
  istart 0. unfold opCallValue. iwp. destruct (ci_value _ Hc) as [v Hv]. eapply wpI_try; [by rewrite Hv |].
  iwp. iend.
Qed.

Lemma opBalance_ok : exec_ok opBalance None 1 1.
Proof using hyps. istart 1. unfold opBalance. iwp. apply wpI_evm, wpE_shard. intros sh. iwp; iend. Qed.

Lemma opSelfBalance_ok : exec_ok opSelfBalance None 0 1.
Proof using Type. istart 0. unfold opSelfBalance. iwp. iend. Qed.

Lemma opCallDataLoad_ok : exec_ok opCallDataLoad None 1 1.
Proof using wok.
  istart 1. unfold opCallDataLoad. iwp; [iend |].
  apply wpI_getData; [by apply Hc | apply Uint64_range | lia |]. intros d. iwp. iend.
Qed.

Lemma opCallDataCopy_ok : exec_ok opCallDataCopy (Some memoryCallDataCopy) 3 0.
Proof using wok. istart 3. imem. unfold opCallDataCopy. iwp. iend. Qed.

Lemma opCodeCopy_ok : exec_ok opCodeCopy (Some memoryCodeCopy) 3 0.
Proof using wok. istart 3. imem. pose proof (proj1 (ci_hash _ Hc)). unfold opCodeCopy. iwp. iend. Qed.

Lemma opExtCodeCopy_ok : exec_ok opExtCodeCopy (Some memoryExtCodeCopy) 4 0.
Proof using wok.
  istart 4. imem. unfold opExtCodeCopy. iwp.
  match goal with H : _ = snd (code_at _ _) /\ _ |- _ => destruct H as [-> _] end.
  pose proof (proj1 (code_at_ok (db m) (Bytes20 i) (mi_db _ Hm))). iwp. iend.
Qed.

Lemma opReturnDataSize_ok : exec_ok opReturnDataSize None 0 1.
Proof using Type. istart 0. unfold opReturnDataSize. iwp. iend. Qed.

Lemma Add_small x y :
  IsUint64 x = true -> IsUint64 (u_Add x y) = true -> ToBig y < 2 ^ 64 ->
  Uint64 x = ToBig x /\ Uint64 (u_Add x y) = ToBig x + ToBig y.
Proof using wok.
  rewrite !IsUint64_spec, !Z.ltb_lt, !Uint64_spec, Add_spec. intros Hx Hs Hy.
  pose proof (ToBig_range x). pose proof (ToBig_range y). assert (2 ^ 64 + 2 ^ 64 < 2 ^ 256) by (vm_compute; done).
  rewrite (Z.mod_small _ (2 ^ 256)) in * by lia. rewrite !Z.mod_small by lia. done.
Qed.

Lemma opReturnDataCopy_ok : exec_ok opReturnDataCopy (Some memoryReturnDataCopy) 3 0.
Proof using wok.
  istart 3. imem. unfold opReturnDataCopy. iwp; [iend | iend |].
  match goal with H : _ || _ = false |- _ => apply orb_false_iff in H as [?%negb_false_iff ?%Z.ltb_ge] end.
  match goal with H : negb _ = false |- _ => apply negb_false_iff in H end.
  pose proof Hr as (_ & _ & Hl & _). destruct (Add_small i0 i1) as [Hx Hxy]; [done | done | lia |].
  pose proof (ToBig_range i0). destruct (slice_returns (returnData m) (Uint64 i0) (Uint64 (u_Add i0 i1))) as (d & Hd & _);
    [lia | lia |]. eapply wpI_try; [done |]. iwp. iend.
Qed.

Lemma opExtCodeSize_ok : exec_ok opExtCodeSize None 1 1.
Proof using Type. istart 1. unfold opExtCodeSize. iwp. iend. Qed.

Lemma opExtCodeHash_ok : exec_ok opExtCodeHash None 1 1.
Proof using Type. istart 1. unfold opExtCodeHash. iwp; iend. Qed.

Lemma opBlockhash_ok : exec_ok opBlockhash None 1 1.
Proof using wok. istart 1. unfold opBlockhash. iwp. iend. Qed.

Lemma opBlobHash_ok : exec_ok opBlobHash None 1 1.
Proof using wok.
  istart 1. unfold opBlobHash. iwp; [| iend].
  match goal with H : LtUint64 _ _ = true |- _ => rewrite LtUint64_spec in H; apply Z.ltb_lt in H end.
  assert (Hu : 0 <= Uint64 i < zlen BlobHashes).
  { pose proof (ToBig_range i). pose proof (Uint64_range i). rewrite Uint64_spec in *.
    pose proof (Z.mod_le (ToBig i) (2 ^ 64)). lia. }
  destruct (lookup_lt_is_Some_2 BlobHashes (Z.to_nat (Uint64 i))) as [h Hh]; [unfold zlen in Hu; lia |].
  eapply wpI_try; [by apply idx_returns; [lia | exact Hh] |]. iwp. iend.
Qed.

(** ** Stack, memory and storage *)

Lemma opPop_ok : exec_ok opPop None 1 0.
Proof using Type. istart 1. unfold opPop. iwp. iend. Qed.

Lemma opMload_ok : exec_ok opMload (Some memoryMLoad) 1 1.
Proof using wok. istart 1. imem. unfold opMload. iwp. iend. Qed.

Lemma opMstore_ok : exec_ok opMstore (Some memoryMStore) 2 0.
Proof using wok.
  istart 2. imem. destruct Hr as (_ & Ho & _ & [|]); [done |]. unfold opMstore. iwp.
  apply wpI_on_store; [by apply mem_Set32_ok |]. intros s' Hs'. iwp. iend.
Qed.

Lemma opMstore8_ok : exec_ok opMstore8 (Some memoryMStore8) 2 0.
Proof using wok.
  istart 2. imem. destruct Hr as (_ & Ho & _ & [|]); [done |]. unfold opMstore8. iwp.
  apply wpI_on_store; [by apply set_idx_ok |]. intros s' Hs'. iwp. iend.
Qed.

(** Both ranges of a copy end before the size computed from the larger start. *)
Lemma mcopy_offsets dst src l n :
  calcMemSize64 (if u_Gt src dst then src else dst) l = (n, false) -> Uint64 l <> 0 ->
  Uint64 dst + Uint64 l <= n /\ Uint64 src + Uint64 l <= n.
Proof using wok.
  rewrite Gt_spec. unfold calcMemSize64. destruct (IsUint64 l); [| done]. intros H Hl.
  pose proof (Uint64_range l). set (big := if ToBig dst <? ToBig src then src else dst) in H.
  assert (Hbig : IsUint64 big = true).
  { unfold calcMemSize64WithUint in H. rewrite Uint64WithOverflow_spec in H.
    destruct (Z.eqb_spec (Uint64 l) 0); [done |]. by destruct (IsUint64 big). }
  apply calcMemSize64WithUint_ok in H; [| lia]. rewrite IsUint64_spec in Hbig. apply Z.ltb_lt in Hbig.
  pose proof (ToBig_range dst). pose proof (ToBig_range src). subst big.
  destruct (Z.ltb_spec (ToBig dst) (ToBig src)); rewrite (Uint64_spec src), (Uint64_spec dst) in *;
    rewrite (Z.mod_small (ToBig src)), (Z.mod_small (ToBig dst)) in * by lia; lia.
Qed.

Lemma opMcopy_ok : exec_ok opMcopy (Some memoryMcopy) 3 0.
Proof using wok.
  istart 3. imem. destruct Hr as (_ & _ & Hl & Hc'). unfold opMcopy. iwp.
  pose proof (Uint64_range i). pose proof (Uint64_range i0).
  assert (Hd : covers s (Uint64 i) (Uint64 i1) /\ covers s (Uint64 i0) (Uint64 i1)).
  { destruct (Z.eq_dec (Uint64 i1) 0) as [Hz | Hz]; [by split; left |]. destruct (mcopy_offsets i i0 i1 n); [done.. |].
    split; right; lia. }
  apply wpI_on_store; [apply mem_Copy_ok; tauto || lia |]. intros s' Hs'. iwp. iend.
Qed.

Lemma opSload_ok : exec_ok opSload None 1 1.
Proof using Type. istart 1. unfold opSload. iwp. iend. Qed.

Lemma opSstore_ok : exec_ok opSstore None 2 0.
Proof using Type. istart 2. unfold opSstore. iwp; iend. Qed.

Lemma opTload_ok : exec_ok opTload None 1 1.
Proof using Type. istart 1. unfold opTload. iwp. iend. Qed.

Lemma opTstore_ok : exec_ok opTstore None 2 0.
Proof using Type. istart 2. unfold opTstore. iwp; iend. Qed.

Lemma opJumpdest_ok : exec_ok opJumpdest None 0 0.
Proof using Type. istart 0. iwp. iend. Qed.

Lemma zlen_some {A} (l : list A) (n : nat) : Z.of_nat n < zlen l -> (n < length l)%nat.
Proof using Type. unfold zlen. lia. Qed.

Lemma makeDup_ok n : (0 < n)%nat -> exec_ok (makeDup n) None (Z.of_nat n) (Z.of_nat n + 1).
Proof using Type.
  intros Hn. istart 0. unfold makeDup, dup. iwp. apply wpI_back; [apply zlen_some; cbn; lia |]. intros x _. iwp. iend.
Qed.

Lemma opSwap_ok n : exec_ok (opSwap n) None (Z.of_nat n + 1) (Z.of_nat n + 1).
Proof using Type.
  istart 0. unfold opSwap, swap. iwp. apply wpI_back; [apply zlen_some; cbn; lia |]. intros x _. iwp.
  apply wpI_back; [apply zlen_some; cbn; lia |]. intros y _. iwp.
  iend.
Qed.

Lemma opPush1_ok : exec_ok opPush1 None 0 1.
Proof using Type.
  istart 0. unfold opPush1. pose proof (u64_range (p + 1)). unfold is_u64 in *. iwp; [| iend].
  match goal with H : (_ <? _) = true |- _ => apply Z.ltb_lt in H end.
  destruct (lookup_lt_is_Some_2 (Code c) (Z.to_nat (u64 (p + 1)))) as [h Hh]; [unfold zlen in *; lia |].
  eapply wpI_try; [by apply idx_returns; [lia | exact Hh] |]. iwp. iend.
Qed.

Lemma makePush_ok size n : 0 <= n -> exec_ok (makePush size n) None 0 1.
Proof using Type.
  intros Hn. istart 0. unfold makePush. iwp. pose proof (u64_range (p + 1)). pose proof (u64_range (p + size)).
  unfold is_u64 in *. set (start := Z.min _ (u64 (p + 1))). assert (0 <= start <= zlen (Code c)) by (unfold zlen in *; lia).
  destruct (slice_returns (Code c) start (Z.min (zlen (Code c)) (start + n))) as (d & Hd & _); [lia | lia |].
  eapply wpI_try; [done |]. iwp. iend.
Qed.

(** ** Jumps *)

(** A valid destination: a JUMPDEST byte of the code that is not the data of a push. *)
Definition is_jump_target (code : list Z) (d : Z) : bool :=
  (d <? zlen code) && bool_decide (code !! Z.to_nat d = Some JUMPDEST) && negb (is_push_data code d).

Lemma analysis_answers code a u :
  codeBitmap code = Ret a -> 0 <= u < zlen code -> codeSegment a u = Ret (negb (is_push_data code u)).
Proof using Type. intros Ha Hu. destruct (codeBitmap_spec code) as (a' & Ha' & _ & H). rewrite Ha in Ha'. injection Ha' as <-. by apply H. Qed.

(** A cached analysis of the contract's code hash is that of its code. *)
Lemma cached_analysis c m a :
  CInv c -> MInv m -> Code c <> [] -> CodeHash c <> 0 -> jumpdests m !! CodeHash c = Some a -> codeBitmap (Code c) = Ret a.
Proof using hyps.
  intros Hc Hm Hne Hh Ha. destruct (mi_jumpdests _ Hm _ _ Ha) as (c0 & Hk & Hb).
  destruct (ci_hash _ Hc) as [_ [? | Hk']]; [done | done |]. rewrite <- Hk' in Hk. by apply Keccak_inj in Hk as ->.
Qed.

(** Alike but for the analysis that is cached. *)
Definition same_but_analysis (c c' : Contract) : Prop := c' = c \/ exists a, c' = set_analysis c a.

Lemma same_code c c' : same_but_analysis c c' -> Code c' = Code c.
Proof using Type. by intros [-> | [a ->]]. Qed.

Lemma isCode_total u f m :
  MInv m -> FInv f -> 0 <= u < zlen (Code (contract f)) ->
  exists c m', isCode u f m = Val (negb (is_push_data (Code (contract f)) u), with_contract f c, m') /\
    CInv c /\ same_but_analysis (contract f) c /\ mstep m m'.
Proof using hyps.
  intros Hm Hf Hu. destruct f as [p st s g c]. cbn [contract with_contract pc stack store lastGasCost] in *.
  pose proof (fi_contract _ Hf) as Hc. cbn in Hc. pose proof (mstep_refl m Hm) as Hm0.
  assert (Hne : Code c <> []) by (intros E; rewrite E in Hu; unfold zlen in Hu; cbn in Hu; lia).
  unfold isCode, try, evm, E_of, mbind, I_bind, frame. cbn [contract]. destruct (analysis c) as [a |] eqn:Ea.
  { rewrite (analysis_answers (Code c) a) by (by apply Hc || done). exists c, m. split_and!; [done | done | by left | done]. }
  cbn -[codeBitmap codeSegment]. destruct (codeBitmap_spec (Code c)) as (a & Ha & _).
  destruct (Z.eqb_spec (CodeHash c) 0) as [Hz | Hz]; cbn -[codeBitmap codeSegment].
  { rewrite Ha. cbn -[codeBitmap codeSegment]. rewrite (analysis_answers (Code c) a) by done. eexists _, _. split_and!; [done | by apply set_analysis_ok | right; by eexists | done]. }
  destruct (jumpdests m !! CodeHash c) as [b |] eqn:Eb; cbn -[codeBitmap codeSegment].
  { apply cached_analysis in Eb; [| done..]. rewrite (analysis_answers (Code c) b) by done. eexists _, _. split_and!; [done | by apply set_analysis_ok | right; by eexists | done]. }
  rewrite Ha. cbn -[codeBitmap codeSegment]. rewrite (analysis_answers (Code c) a) by done. eexists _, _. split; [done |].
  split; [by apply set_analysis_ok |]. split; [right; by eexists |]. apply mstep_jumpdests; [done |]. intros h b.
  destruct (decide (CodeHash c = h)) as [<- |]; [rewrite lookup_insert_eq | rewrite lookup_insert_ne by done; apply Hm].
  intros [= <-]. destruct (ci_hash _ Hc) as [_ [? | Hk]]; [done | done |]. eauto.
Qed.

(** The test of a jump's destination, on every destination and code. *)
Lemma validJumpdest_total d f m :
  MInv m -> FInv f ->
  exists c m', validJumpdest d f m = Val (is_jump_target (Code (contract f)) (ToBig d), with_contract f c, m') /\
    CInv c /\ same_but_analysis (contract f) c /\ mstep m m'.
Proof using hyps wok.
  intros Hm Hf. assert (Hsame : same_but_analysis (contract f) (contract f)) by by left. assert (Hstay : f = with_contract f (contract f)) by by destruct f.
  pose proof (fi_contract _ Hf) as Hc. pose proof (mstep_refl m Hm) as Hm0.
  assert (Hlen : zlen (Code (contract f)) < 2 ^ 63) by apply (ci_hash _ Hc).
  unfold validJumpdest. rewrite Uint64WithOverflow_spec, IsUint64_spec. unfold mbind, I_bind at 1, frame.
  pose proof (ToBig_range d). unfold is_jump_target.
  destruct (Z.ltb_spec (ToBig d) (2 ^ 64)) as [Hlt | Hge]; cbn [negb orb].
  - assert (Hu : Uint64 d = ToBig d) by (rewrite Uint64_spec, Z.mod_small; lia). rewrite Hu.
    destruct (Z.leb_spec (zlen (Code (contract f))) (ToBig d)); destruct (Z.ltb_spec (ToBig d) (zlen (Code (contract f)))); try lia.
    { exists (contract f), m. by rewrite <- Hstay. }
    destruct (lookup_lt_is_Some_2 (Code (contract f)) (Z.to_nat (ToBig d))) as [b Hb]; [unfold zlen in *; lia |].
    unfold I_bind at 1, try, evm. rewrite (idx_returns _ _ b), Hb by (done || lia). cbn [E_of andb].
    destruct (Z.eqb_spec b JUMPDEST) as [-> | Hb']; cbn [negb].
    + rewrite bool_decide_true by done. apply isCode_total; [done | done | lia].
    + rewrite bool_decide_false by congruence. exists (contract f), m. by rewrite <- Hstay.
  - destruct (Z.ltb_spec (ToBig d) (zlen (Code (contract f)))); [lia |]. exists (contract f), m. by rewrite <- Hstay.
Qed.

Lemma jump_to_ok d f m f0 m0 pops :
  MInv m -> FInv f -> mstep m0 m -> MInv m0 -> zlen (stack f) = zlen (stack f0) - pops ->
  wpI (jump_to d) (exec_post f0 m0 pops 0) f m.
Proof using hyps wok.
  intros Hm Hf Hm0 H0 Hst. destruct (validJumpdest_total d f m Hm Hf) as (c & m' & Hv & Hc & _ & Hm').
  unfold jump_to. apply wpI_bind. unfold wpI at 1. rewrite Hv. destruct f as [p st s g c0].
  assert (mstep m0 m') by by eapply mstep_trans. pose proof (u64_range (Uint64 d - 1)). unfold is_u64 in *. cbn in Hst.
  pose proof (fi_pc _ Hf) as Hp. cbn in Hp. destruct (is_jump_target _ _); isimpl; iwp; iend.
Qed.

Lemma opJump_ok : exec_ok opJump None 1 0.
Proof using hyps wok.
  istart 1. unfold opJump. destruct aborted; iwp; [iend |].
  apply jump_to_ok; [done | by eapply FInv_same | done | done | cbn; rewrite zlen_cons; lia].
Qed.

Lemma opJumpi_ok : exec_ok opJumpi None 2 0.
Proof using hyps wok.
  istart 2. unfold opJumpi. destruct aborted; iwp; [iend | iend |].
  apply jump_to_ok; [done | by eapply FInv_same | done | done | cbn; rewrite !zlen_cons; lia].
Qed.

(** ** The ends of a run, logs *)

Lemma opStop_ok : exec_ok opStop None 0 0.
Proof using Type. istart 0. unfold opStop. iwp. iend. Qed.

Lemma opReturn_ok : exec_ok opReturn (Some memoryReturn) 2 0.
Proof using wok. istart 2. imem. unfold opReturn. iwp. iend. Qed.

Lemma opRevert_ok : exec_ok opRevert (Some memoryRevert) 2 0.
Proof using wok. istart 2. imem. unfold opRevert. iwp. iend. Qed.

Lemma opSelfdestruct6780_ok : exec_ok opSelfdestruct6780 None 1 0.
Proof using Type. istart 1. unfold opSelfdestruct6780. iwp; iend. Qed.

Lemma wpI_pop_topics n (Q : list Z -> Frame -> Mach -> Prop) p st s g c m :
  Z.of_nat n <= zlen st -> (forall l st', zlen st' = zlen st - Z.of_nat n -> Q l (mkFrame p st' s g c) m) ->
  wpI (pop_topics n) Q (mkFrame p st s g c) m.
Proof using Type.
  revert st Q. induction n as [| n IH]; intros st Q Hn HQ; cbn [pop_topics]; [iwp; apply HQ; lia |].
  destruct st as [| x st]; [unfold zlen in Hn; cbn in Hn; lia |]. rewrite zlen_cons in *. iwp.
  apply IH; [lia |]. intros l st' Hl. iwp. apply HQ. lia.
Qed.

Lemma makeLog_ok n : exec_ok (makeLog n) (Some memoryLog) (Z.of_nat n + 2) 0.
Proof using wok.
  istart 2. imem. unfold makeLog. iwp; [iend |]. rewrite !zlen_cons in Hst.
  apply wpI_pop_topics; [lia |]. intros l st' Hl. iwp. iend.
Qed.

(** ** Calls, over a safe interpreter *)

Context (run : Contract -> list Z -> bool -> E (list Z * option vmerr * Z)) (Hrun : run_ok run).

Lemma created_ok ign r p st s g c m f0 m0 pops :
  CInv c -> short s -> 0 <= p < 2 ^ 64 -> mstep m0 m -> zlen st = zlen (stack f0) - pops ->
  wpI (created ign r) (exec_post f0 m0 pops 1) (mkFrame p st s g c) m.
Proof using Type.
  intros Hc Hs Hp Hm Hst. assert (Hf : FInv (mkFrame p st s g c)) by done. destruct r as [[[out a] gas] e].
  unfold created, refund_gas. iwp; iend.
Qed.

Lemma opCreate_ok : exec_ok (opCreate run) (Some memoryCreate) 3 1.
Proof using hyps wok Hrun.
  istart 3. imem. unfold opCreate. iwp; [iend |]. apply wpI_evm.
  eapply wpE_mono; [by apply Create_spec |]. intros r m' Hm'.
  apply created_ok; [done .. | cbn; rewrite !zlen_cons; lia].
Qed.

Lemma opCreate2_ok : exec_ok (opCreate2 run) (Some memoryCreate2) 4 1.
Proof using hyps wok Hrun.
  istart 4. imem. unfold opCreate2. iwp; [iend |]. apply wpI_evm.
  eapply wpE_mono; [by apply Create2_spec |]. intros r m' Hm'.
  apply created_ok; [by apply UseGas_ok | done .. | cbn; rewrite !zlen_cons; lia].
Qed.

Lemma returned_ok ro rs r p st s g c m f0 m0 pops :
  CInv c -> short s -> 0 <= p < 2 ^ 64 -> mstep m0 m -> zlen st = zlen (stack f0) - pops ->
  in_range s (Uint64 ro) (Uint64 rs) -> wpI (returned ro rs r) (exec_post f0 m0 pops 1) (mkFrame p st s g c) m.
Proof using Type.
  intros Hc Hs Hp Hm Hst Hr. assert (Hf : FInv (mkFrame p st s g c)) by done. destruct r as [[out gas] e].
  unfold returned, refund_gas. iwp; iend.
Qed.

(** The size function of the calls covers the result's range and the argument's. *)
Lemma two_ready ro rs ao as_ n s (z1 z2 : Z * bool) :
  z1 = calcMemSize64 ro rs -> z2 = calcMemSize64 ao as_ ->
  (let '(x, overflow) := z1 in
   if overflow : bool then Ret (0, true)
   else let '(y, overflow) := z2 in
        if overflow : bool then Ret (0, true) else Ret (if y <? x then x else y, false)) = Ret (n, false) ->
  n <= zlen s -> short s -> in_range s (Uint64 ro) (Uint64 rs) /\ in_range s (Uint64 ao) (Uint64 as_).
Proof using wok.
  destruct z1 as [x []]; [done |]. destruct z2 as [y []]; [done |]. intros H1 H2 [= <-] Hn Hs.
  destruct (Z.ltb_spec y x); (split; [eapply range_ready; [done | lia | done] |];
    eapply range_ready; [done | lia | done]).
Qed.

(** The shape the four calls share: the argument read, the call, its outcome. *)
Ltac icall :=
  lazymatch goal with
  | Hmem : mem_ready _ _ |- _ =>
      let n := fresh "n" in let Hsz := fresh "Hsz" in let Hn := fresh "Hn" in
      destruct Hmem as (n & Hsz & Hn); cbn -[calcMemSize64] in Hsz, Hn; eapply two_ready in Hsz as [? ?]; [| done..]
  end.

Lemma opCall_ok : exec_ok (opCall run) (Some memoryCall) 7 1.
Proof using hyps wok Hrun.
  istart 7. icall. unfold opCall, args_at. iwp; [iend |]. apply wpI_evm.
  eapply wpE_mono; [apply call_body_spec; [done | done | done | by eexists] |]. intros r m' [Hm' _].
  apply returned_ok; [done .. | cbn; rewrite !zlen_cons; lia | done].
Qed.

Lemma opCallCode_ok : exec_ok (opCallCode run) (Some memoryCall) 7 1.
Proof using hyps wok Hrun.
  istart 7. icall. unfold opCallCode, args_at. iwp. apply wpI_evm.
  eapply wpE_mono; [by apply CallCode_spec |]. intros r m' [Hm' _].
  apply returned_ok; [done .. | cbn; rewrite !zlen_cons; lia | done].
Qed.

Lemma opDelegateCall_ok : exec_ok (opDelegateCall run) (Some memoryDelegateCall) 6 1.
Proof using hyps wok Hrun.
  istart 6. icall. unfold opDelegateCall, args_at. iwp. apply wpI_evm.
  eapply wpE_mono; [by apply DelegateCall_spec |]. intros r m' [Hm' _].
  apply returned_ok; [done .. | cbn; rewrite !zlen_cons; lia | done].
Qed.

Lemma opStaticCall_ok : exec_ok (opStaticCall run) (Some memoryStaticCall) 6 1.
Proof using hyps wok Hrun.
  istart 6. icall. unfold opStaticCall, args_at. iwp. apply wpI_evm.
  eapply wpE_mono; [by apply StaticCall_spec |]. intros r m' [Hm' _].
  apply returned_ok; [done .. | cbn; rewrite !zlen_cons; lia | done].
Qed.

(** ** Gas *)

(** A gas function keeps the frame but for the memory cost last computed. *)
Definition gas_ok (g : gasFunc) (pops : Z) : Prop :=
  forall p st s gc c m bytes, MInv m -> pops <= zlen st ->
    wpI (g bytes) (fun _ f' m' => mstep m m' /\ exists gc', f' = mkFrame p st s gc' c) (mkFrame p st s gc c) m.

Lemma memoryGasCost_ok n : gas_ok memoryGasCost n.
Proof using Type.
  intros p st s gc c m bytes Hm _. pose proof (mstep_refl m Hm). unfold memoryGasCost. iwp; eauto.
Qed.

Lemma wpI_memory_gas bytes (Q : Gas -> Frame -> Mach -> Prop) p st s gc c m :
  MInv m -> (forall gas gc' m', mstep m m' -> Q gas (mkFrame p st s gc' c) m') ->
  wpI (memoryGasCost bytes) Q (mkFrame p st s gc c) m.
Proof using Type.
  intros Hm HQ. eapply wpI_mono; [by apply (memoryGasCost_ok 0); [| unfold zlen; lia] |].
  intros gas f' m' [Hm' [gc' ->]]. by apply HQ.
Qed.

Lemma memoryCopierGas_ok pos n : Z.of_nat pos < n -> gas_ok (memoryCopierGas pos) n.
Proof using Type.
  intros Hpos p st s gc c m bytes Hm Hst. unfold memoryCopierGas. apply wpI_bind, wpI_memory_gas; [done |].
  intros gas gc' m' Hm'. iwp. apply wpI_back; [apply zlen_some; cbn; lia |]. intros x _. iwp. eauto.
Qed.

Lemma gasKeccak256_ok : gas_ok gasKeccak256 2.
Proof using Type.
  intros p st s gc c m bytes Hm Hst. unfold gasKeccak256. apply wpI_bind, wpI_memory_gas; [done |].
  intros gas gc' m' Hm'. iwp. apply wpI_back; [apply zlen_some; cbn; lia |]. intros x _. iwp. eauto.
Qed.

Lemma makeGasLog_ok k n : 2 <= n -> gas_ok (makeGasLog k) n.
Proof using wok.
  intros Hn p st s gc c m bytes Hm Hst. pose proof (mstep_refl m Hm). unfold makeGasLog. iwp.
  apply wpI_back; [apply zlen_some; cbn; lia |]. intros x _. iwp; [eauto |].
  apply wpI_memory_gas; [done |]. intros gas gc' m' Hm'. iwp. eauto.
Qed.

Lemma gas_create_ok k n : 3 <= n -> gas_ok (gas_create k) n.
Proof using wok.
  intros Hn p st s gc c m bytes Hm Hst. unfold gas_create. apply wpI_bind, wpI_memory_gas; [done |].
  intros [gas [e |]] gc' m' Hm'; [iwp; eauto |]. iwp. apply wpI_back; [apply zlen_some; cbn; lia |]. intros x _.
  iwp; eauto.
Qed.

Lemma gasExpEIP158_ok : gas_ok gasExpEIP158 2.
Proof using Type.
  intros p st s gc c m bytes Hm Hst. pose proof (mstep_refl m Hm). unfold gasExpEIP158. iwp.
  apply wpI_back; [apply zlen_some; cbn; lia |]. intros x _. iwp. eauto.
Qed.

(** The two functions that mark an account or a slot as warm. *)
Lemma wpI_peek_some (Q : Int -> Frame -> Mach -> Prop) f m :
  1 <= zlen (stack f) -> (forall x, Q x f m) -> wpI peek Q f m.
Proof using Type. intros Hst HQ. apply wpI_back; [apply zlen_some; lia | eauto]. Qed.

Lemma gasSLoadEIP2929_ok : gas_ok gasSLoadEIP2929 1.
Proof using Type.
  intros p st s gc c m bytes Hm Hst. pose proof (mstep_refl m Hm). unfold gasSLoadEIP2929. apply wpI_bind.
  apply wpI_peek_some; [done |]. intros x. iwp. destruct a as [[] []]; iwp; eauto.
Qed.

Lemma gasEip2929AccountCheck_ok : gas_ok gasEip2929AccountCheck 1.
Proof using Type.
  intros p st s gc c m bytes Hm Hst. pose proof (mstep_refl m Hm). unfold gasEip2929AccountCheck. apply wpI_bind.
  apply wpI_peek_some; [done |]. intros x. iwp; eauto.
Qed.

Lemma gasExtCodeCopyEIP2929_ok : gas_ok gasExtCodeCopyEIP2929 4.
Proof using Type.
  intros p st s gc c m bytes Hm Hst. unfold gasExtCodeCopyEIP2929. apply wpI_bind.
  eapply wpI_mono; [apply (memoryCopierGas_ok 3 4); [lia | done | done] |]. intros [gas [e |]] f' m' [Hm' [gc' ->]].
  { iwp. eauto. }
  apply wpI_bind, wpI_peek_some; [cbn; lia |]. intros x. iwp; eauto.
Qed.

Lemma no_gas_ok n : gas_ok no_gas n.
Proof using Type. intros p st s gc c m bytes Hm _. pose proof (mstep_refl m Hm). unfold no_gas. iwp. eauto. Qed.
End Instructions.
