(* ===== verification/InterpreterProofs.v ===== *)
(** * The interpreter is safe

    Every entry of the instruction table keeps its promise, so an iteration of the loop,
    the loop and [Run] do: for any fuel a run crashes only when memory cannot be
    allocated or a pointer of the context is nil, and otherwise keeps the machine's
    invariant. *)
From Stdlib Require Import ZArith Lia.
From stdpp Require Import base gmap strings list.
From S2P Require Import Prelude Utils JournalTypes StateDB Analysis Machine Evm Instructions Interpreter.
From S2P Require Import MachineLaws EvmProofs FrameLogic InstructionProofs.

Section Interpreter.
Context `{w : Uint256} `{sdb : StateDBI} `{cr : Crypto} `{cfg : Config} `{env : NodeEnv} `{rem : Remote} `{ctx : EvmEnv}.
Context `{laws : !StateDBLaws sdb cr env} `{hyps : !EvmAssumptions cr cfg env rem ctx} `{wok : !Uint256Ok w}.

(** ** The table *)

Definition size_ok (size : option memorySizeFunc) (pops : Z) : Prop :=
  match size with None => True | Some size => forall st, pops <= zlen st -> exists r, size st = Ret r /\ is_u64 (fst r) end.

Record entry_ok (o : operation) : Prop := {
  eo_execute : exec_ok (execute o) (memorySize o) (minStack o) (StackLimit + minStack o - maxStack o);
  eo_gas : match dynamicGas o with Some g => gas_ok g (minStack o) | None => memorySize o = None end;
  eo_size : size_ok (memorySize o) (minStack o)
}.

Lemma op0_ok e k pops pushes : exec_ok e None pops pushes -> entry_ok (op0 e k pops pushes).
Proof using Type.
  intros H. split; cbn; [| done | done]. by replace (StackLimit + pops - (StackLimit + pops - pushes)) with pushes by lia.
Qed.

Lemma op_gas_ok e k g pops pushes : exec_ok e None pops pushes -> gas_ok g pops -> entry_ok (op_gas e k g pops pushes).
Proof using Type.
  intros H Hg. split; cbn; [| done | done]. by replace (StackLimit + pops - (StackLimit + pops - pushes)) with pushes by lia.
Qed.

Lemma op_mem_ok e k g pops pushes size :
  exec_ok e (Some size) pops pushes -> gas_ok g pops -> size_ok (Some size) pops -> entry_ok (op_mem e k g pops pushes size).
Proof using Type.
  intros H Hg Hs. split; cbn; [| done | done]. by replace (StackLimit + pops - (StackLimit + pops - pushes)) with pushes by lia.
Qed.

Lemma Back_returns (st : list Int) n : Z.of_nat n < zlen st -> exists x, Back st n = Ret x.
Proof using Type.
  intros Hn. destruct (lookup_lt_is_Some_2 st n) as [x Hx]; [by apply zlen_some |]. exists x. unfold Back.
  apply idx_returns; [lia |]. by rewrite Nat2Z.id.
Qed.

Lemma calcMemSize64WithUint_range o k : is_u64 (fst (calcMemSize64WithUint o k)).
Proof using wok.
  unfold calcMemSize64WithUint. rewrite Uint64WithOverflow_spec. repeat case_match; try done. apply u64_range.
Qed.

Lemma calcMemSize64_range o l : is_u64 (fst (calcMemSize64 o l)).
Proof using wok. unfold calcMemSize64. case_match; [apply calcMemSize64WithUint_range | done]. Qed.

Lemma size_at_returns a b st :
  Z.of_nat a < zlen st -> Z.of_nat b < zlen st -> exists r, size_at a b st = Ret r /\ is_u64 (fst r).
Proof using wok.
  intros Ha Hb. destruct (Back_returns st a Ha) as [x Hx], (Back_returns st b Hb) as [y Hy].
  unfold size_at. rewrite Hx. cbn. rewrite Hy. cbn. eauto using calcMemSize64_range.
Qed.

Lemma size_at_ok a b pops : Z.of_nat a < pops -> Z.of_nat b < pops -> size_ok (Some (size_at a b)) pops.
Proof using wok. intros Ha Hb st Hst. apply size_at_returns; lia. Qed.

Lemma one_size_ok k pops : 0 < pops -> size_ok (Some (fun st => o ← Back st 0; Ret (calcMemSize64WithUint o k))) pops.
Proof using wok.
  intros Hp st Hst. destruct (Back_returns st 0) as [x ->]; [lia |]. cbn. eauto using calcMemSize64WithUint_range.
Qed.

Lemma memoryMcopy_ok : size_ok (Some memoryMcopy) 3.
Proof using wok.
  intros st Hst. destruct (Back_returns st 0), (Back_returns st 1), (Back_returns st 2); try lia.
  unfold memoryMcopy. repeat match goal with H : Back _ _ = _ |- _ => rewrite H; cbn end. eauto using calcMemSize64_range.
Qed.

Lemma memory_two_ok a b c d pops :
  Z.of_nat a < pops -> Z.of_nat b < pops -> Z.of_nat c < pops -> Z.of_nat d < pops -> size_ok (Some (memory_two a b c d)) pops.
Proof using wok.
  intros Ha Hb Hc Hd st Hst. destruct (size_at_returns a b st) as ([x ox] & Hx & Hrx); [lia | lia |].
  destruct (size_at_returns c d st) as ([y oy] & Hy & Hry); [lia | lia |].
  unfold memory_two. rewrite Hx. cbn. destruct ox; [by eexists |]. rewrite Hy. cbn. destruct oy; [by eexists |].
  eexists. split; [done |]. by destruct (y <? x).
Qed.

Context (run : Contract -> list Z -> bool -> E (list Z * option vmerr * Z)) (Hrun : run_ok run).

Create HintDb table.
#[local] Hint Resolve op0_ok op_gas_ok op_mem_ok binop_ok opNot_ok opIszero_ok opAddmod_ok opMulmod_ok opKeccak256_ok
  push_value_ok push_const_ok opRandom_ok opCallValue_ok opBalance_ok opSelfBalance_ok opCallDataLoad_ok
  opCallDataCopy_ok opCodeCopy_ok opExtCodeCopy_ok opReturnDataSize_ok opReturnDataCopy_ok opExtCodeSize_ok
  opExtCodeHash_ok opBlockhash_ok opBlobHash_ok opPop_ok opMload_ok opMstore_ok opMstore8_ok opMcopy_ok opSload_ok
  opSstore_ok opTload_ok opTstore_ok opJumpdest_ok opPush1_ok opJump_ok opJumpi_ok opStop_ok opReturn_ok opRevert_ok
  opSelfdestruct6780_ok opCreate_ok opCreate2_ok opCall_ok opCallCode_ok opDelegateCall_ok opStaticCall_ok
  memoryGasCost_ok gasKeccak256_ok gasExpEIP158_ok gasSLoadEIP2929_ok gasEip2929AccountCheck_ok
  gasExtCodeCopyEIP2929_ok no_gas_ok memoryMcopy_ok : table.
#[local] Hint Extern 2 (size_ok _ _) => eapply one_size_ok; lia : table.
#[local] Hint Extern 2 (exec_ok _ None 0 1) =>
  apply push_big_ok; unfold context_nil; first [discriminate | tauto] : table.
#[local] Hint Extern 2 (gas_ok (memoryCopierGas _) _) => apply memoryCopierGas_ok; lia : table.
#[local] Hint Extern 2 (gas_ok _ _) => apply gas_create_ok; lia : table.
#[local] Hint Extern 2 (size_ok _ _) => apply size_at_ok; lia : table.
#[local] Hint Extern 2 (size_ok _ _) => apply memory_two_ok; lia : table.

Ltac entry :=
  lazymatch goal with
  | |- entry_ok (op0 _ _ _ _) => apply op0_ok
  | |- entry_ok (op_gas _ _ _ _ _) => apply op_gas_ok
  | |- entry_ok (op_mem _ _ _ _ _ _) => apply op_mem_ok
  end; solve [eauto 3 with table].
Ltac entries := repeat (apply Forall_cons_2; [cbn [snd]; entry |]); apply Forall_nil_2.

Lemma arithmetic_ok : Forall (fun e => entry_ok (snd e)) arithmetic.
Proof using hyps wok. unfold arithmetic. entries. Qed.

Lemma environment_ok : Forall (fun e => entry_ok (snd e)) environment.
Proof using hyps wok. unfold environment. entries. Qed.

Lemma memory_and_control_ok : Forall (fun e => entry_ok (snd e)) memory_and_control.
Proof using hyps wok. unfold memory_and_control. entries. Qed.

Lemma calls_ok : Forall (fun e => entry_ok (snd e)) (calls run).
Proof using hyps wok Hrun. unfold calls. entries. Qed.

Lemma pushes_ok : Forall (fun e => entry_ok (snd e)) pushes.
Proof using Type. apply Forall_map, Forall_true. intros n. apply op0_ok, makePush_ok. lia. Qed.

Lemma dups_ok : Forall (fun e => entry_ok (snd e)) dups.
Proof using Type.
  apply Forall_map, Forall_forall. intros n [Hn _]%elem_of_seq. by apply op0_ok, makeDup_ok.
Qed.

Lemma swaps_ok : Forall (fun e => entry_ok (snd e)) swaps.
Proof using Type. apply Forall_map, Forall_true. intros n. apply op0_ok, opSwap_ok. Qed.

Lemma logs_ok : Forall (fun e => entry_ok (snd e)) logs_ops.
Proof using wok.
  apply Forall_map, Forall_true. intros n. apply op_mem_ok; [apply makeLog_ok | apply makeGasLog_ok; lia |].
  apply size_at_ok; lia.
Qed.

Lemma cancunInstructionSet_ok : Forall (fun e => entry_ok (snd e)) (cancunInstructionSet run).
Proof using hyps wok Hrun.
  unfold cancunInstructionSet. repeat apply Forall_app_2; auto using arithmetic_ok, environment_ok, memory_and_control_ok,
    calls_ok, pushes_ok, dups_ok, swaps_ok, logs_ok.
Qed.

(** An opcode has an entry that is ok, or is undefined and not zero. *)
Lemma lookup_op_ok op : entry_ok (lookup_op run op) \/ (lookup_op run op = undefined_op /\ op <> 0).
Proof using hyps wok Hrun.
  unfold lookup_op. destruct (find _ _) as [e |] eqn:Ef.
  - left. apply find_some in Ef as [Hin _]. apply list_elem_of_In in Hin.
    exact (proj1 (Forall_forall _ _) cancunInstructionSet_ok e Hin).
  - right. split; [done |]. intros ->. done.
Qed.

(** ** One iteration *)

Lemma toWordSize_bound n b : 0 <= n < 2 ^ 64 -> SafeMul (toWordSize n) 32 = (b, false) -> n <= b < 2 ^ 64.
Proof using Type.
  unfold SafeMul, toWordSize, MaxUint64. intros Hn [= <- Hb%Z.leb_gt]. unfold u64.
  destruct (Z.ltb_spec (2 ^ 64 - 1 - 31) n).
  - exfalso. vm_compute in Hb. done.
  - rewrite Z.mod_small by (pose proof (Z.div_pos (n + 31) 32); lia).
    pose proof (Z_div_mod_eq_full (n + 31) 32). pose proof (Z.mod_pos_bound (n + 31) 32). lia.
Qed.

Lemma mem_Resize_ok s size :
  short s -> size < 2 ^ 64 -> 0 <= maxAlloc < 2 ^ 63 ->
  mem_Resize maxAlloc s size = Panic out_of_memory \/
  exists s', mem_Resize maxAlloc s size = Ret s' /\ short s' /\ zlen s <= zlen s' /\ size <= zlen s'.
Proof using Type.
  intros Hs Hz Ha. unfold mem_Resize, short in *. destruct (Z.ltb_spec (zlen s) size); [| right; exists s; split_and!; done || lia].
  destruct (Z.ltb_spec maxAlloc size); [by left | right]. eexists. split; [done |].
  unfold zlen in *. rewrite length_app, length_replicate. lia.
Qed.

(** After the part before the instruction: an error, or the memory is there. *)
Definition prepared (o : operation) p st c m (e : option vmerr) (f' : Frame) (m' : Mach) : Prop :=
  mstep m m' /\ match e with
  | Some _ => True
  | None => exists s' gc', f' = mkFrame p st s' gc' c /\ FInv f' /\ mem_ready (memorySize o) f'
  end.

Lemma grow_ok o g b p st s gc c m :
  gas_ok g (minStack o) -> MInv m -> FInv (mkFrame p st s gc c) -> minStack o <= zlen st -> b < 2 ^ 64 ->
  (forall s' gc', b <= zlen s' -> mem_ready (memorySize o) (mkFrame p st s' gc' c)) ->
  wpI (_ ← g b; _ ← (if 0 <? b then on_store (fun s => mem_Resize maxAlloc s b) else mret tt); mret None)
    (prepared o p st c m) (mkFrame p st s gc c) m.
Proof using hyps.
  intros Hg Hm Hf Hst Hb Hready. pose proof (fi_store _ Hf) as Hs. cbn in Hs.
  apply wpI_bind. eapply wpI_mono; [by apply Hg |]. intros _ f' m' [Hm' [gc' ->]].
  destruct (Z.ltb_spec 0 b) as [Hpos | Hneg].
  - unfold on_store. iwp.
    destruct (mem_Resize_ok s b) as [Hp | (s' & Hp & Hs' & _ & Hge)]; [done | done | apply alloc_limit | |].
    + unfold wpI, try, evm, E_of. rewrite Hp. by left.
    + eapply wpI_try; [done |]. iwp. split; [done |]. exists s', gc'. split_and!; [done | | by apply Hready].
      destruct Hf. by split.
  - iwp. split; [done |]. exists s, gc'. split_and!; [done | by destruct Hf | apply Hready; unfold zlen in *; lia].
Qed.

Lemma prepare_ok o p st s gc c m :
  entry_ok o -> MInv m -> FInv (mkFrame p st s gc c) -> minStack o <= zlen st ->
  wpI (prepare o) (prepared o p st c m) (mkFrame p st s gc c) m.
Proof using hyps wok.
  intros [_ Hg Hz] Hm Hf Hst. pose proof (mstep_refl m Hm) as Hm0.
  unfold prepare. destruct (dynamicGas o) as [g |].
  2: { iwp. split; [done |]. exists s, gc. split_and!; [done | done | by rewrite Hg]. }
  unfold required_memory. destruct (memorySize o) as [size |] eqn:Eo; cbn in Hz.
  - destruct (Hz st Hst) as ([n overflow] & Hn & Hr). iwp. eapply wpI_try; [done |]. unfold is_u64 in Hr.
    destruct overflow; [iwp; by split |].
    destruct (SafeMul (toWordSize n) 32) as [b ob] eqn:Eb. destruct ob; [iwp; by split |].
    apply toWordSize_bound in Eb; [| done]. apply wpI_ret. cbv beta iota. apply grow_ok; [done .. | lia |].
    intros s' gc' Hs'. rewrite Eo. exists n. split; [done | cbn; lia].
  - apply wpI_bind, wpI_ret. cbv beta iota. apply grow_ok; [done .. |]. intros. by rewrite Eo.
Qed.

(** What the loop keeps. *)
Definition LInv (f : Frame) : Prop := FInv f /\ zlen (stack f) <= StackLimit.

Definition iteration_post (m : Mach) (r : option Result) (f' : Frame) (m' : Mach) : Prop :=
  mstep m m' /\ match r with None => LInv f' | Some r => short (fst r) end.

Lemma GetOp_returns c p : 0 <= p -> exists op, GetOp c p = Ret op /\ (op <> 0 -> p < zlen (Code c)).
Proof using Type.
  intros Hp. unfold GetOp. destruct (Z.ltb_spec p (zlen (Code c))); [| by exists 0].
  destruct (lookup_lt_is_Some_2 (Code c) (Z.to_nat p)) as [b Hb]; [unfold zlen in *; lia |].
  exists b. split; [by apply idx_returns | done].
Qed.

Lemma execute_ok o p st s gc c m m0 :
  entry_ok o -> MInv m0 -> mstep m0 m -> FInv (mkFrame p st s gc c) -> minStack o <= zlen st -> zlen st <= maxStack o ->
  mem_ready (memorySize o) (mkFrame p st s gc c) ->
  wpI ('(r, err) ← execute o;
       match err with
       | None => _ ← update (fun f => with_pc f (u64 (pc f + 1))); mret None
       | Some e => mret (Some (r, if decide (e = errStopToken) then None else Some e))
       end) (iteration_post m0) (mkFrame p st s gc c) m.
Proof using Type.
  intros He Hm0 Hm Hf Hmin Hmax Hmem. apply wpI_bind.
  eapply wpI_mono; [apply (eo_execute _ He); [apply Hm | done | done | done] |].
  intros [r [e |]] f' m' [Hs Hf' Hst Hd]; cbn in Hst, Hd.
  - iwp. split; [by eapply mstep_trans | by apply Hd].
  - iwp. split; [by eapply mstep_trans |]. specialize (Hst eq_refl). split; [| cbn; lia].
    destruct Hf'. split; cbn; [done | done | apply u64_range].
Qed.

Lemma undefined_iteration f m m0 :
  mstep m0 m -> 0 <= pc f < zlen (Code (contract f)) ->
  wpI opUndefined (fun r f' m' => mstep m0 m' /\ exists b, r = ([], Some (ErrInvalidOpCode b))) f m.
Proof using Type.
  intros Hm Hp. destruct (lookup_lt_is_Some_2 (Code (contract f)) (Z.to_nat (pc f))) as [b Hb]; [unfold zlen in *; lia |].
  unfold opUndefined. iwp. eapply wpI_try; [by apply idx_returns; [lia |] |]. iwp. eauto.
Qed.

Lemma iteration_ok f m : MInv m -> LInv f -> wpI (iteration run) (iteration_post m) f m.
Proof using hyps wok Hrun.
  intros Hm [Hf Hst]. pose proof (mstep_refl m Hm) as Hm0. destruct f as [p st s gc c]. cbn in Hst.
  pose proof (fi_pc _ Hf) as Hp. cbn in Hp. unfold iteration. iwp.
  destruct (GetOp_returns c p) as (op & Hop & Hp'); [lia |]. eapply wpI_try; [done |].
  destruct (Z.ltb_spec (zlen st) (minStack (lookup_op run op))); [iwp; by split |].
  destruct (Z.ltb_spec (maxStack (lookup_op run op)) (zlen st)); [iwp; by split |].
  destruct (lookup_op_ok op) as [Ho | [-> Hne]].
  - apply wpI_bind. eapply wpI_mono; [by apply prepare_ok |]. intros e f' m' [Hm' He].
    destruct e as [e |]; [iwp; by split |]. destruct He as (s' & gc' & -> & Hf' & Hmem). by apply execute_ok.
  - apply wpI_bind, wpI_ret, wpI_bind. eapply wpI_mono; [apply (undefined_iteration _ m m); [done | cbn; split; [lia | auto]] |].
    intros r f' m' [Hm' [b ->]]. iwp. by split.
Qed.
End Interpreter.

(** ** The loop and [Run] *)

Section Loop.
Context `{w : Uint256} `{sdb : StateDBI} `{cr : Crypto} `{cfg : Config} `{env : NodeEnv} `{rem : Remote} `{ctx : EvmEnv}.
Context `{laws : !StateDBLaws sdb cr env} `{hyps : !EvmAssumptions cr cfg env rem ctx} `{wok : !Uint256Ok w}.

Definition loop_ok (l : Frame -> E (Result * Frame)) : Prop :=
  forall f m, MInv m -> LInv f -> wpE (l f) (fun r m' => mstep m m' /\ short (fst (fst r))) m.

(** A frame to start from. *)
Lemma LInv_start c input : CInv c -> short input -> LInv (mkFrame 0 [] [] 0 (set_Input c input)).
Proof using Type. intros [] Hi. by split; [split; [split | ..] |]. Qed.

(** Where the loop runs: one call deeper, and in read-only mode when asked for. *)
Definition entered (ro : bool) (m : Mach) : Mach :=
  let m1 := with_depth m (depth m + 1) in
  let m2 := if ro && negb (readOnly m) then with_readOnly m1 true else m1 in with_returnData m2 [].

(** Leaving restores the flags. *)
Definition left_from (ro : bool) (m m3 : Mach) : Mach :=
  let m4 := if ro && negb (readOnly m) then with_readOnly m3 false else m3 in with_depth m4 (depth m4 - 1).

Lemma mstep_left ro m m3 : MInv m -> mstep (entered ro m) m3 -> mstep m (left_from ro m m3).
Proof using Type.
  intros Hm [[] Hs Hd Hr]. unfold left_from, entered in *.
  destruct ro, (readOnly m) eqn:E; cbn in *; split; cbn; (try split); (done || congruence || lia).
Qed.

Lemma enter_ok l : loop_ok l -> run_ok (enter l).
Proof using Type.
  intros Hl c input ro m Hc Hi Hm.
  assert (He : MInv (entered ro m)) by (unfold entered; destruct ro, (readOnly m); cbn; by destruct Hm).
  assert (Hbody : wpE (match Code c with
       | [] => mret ([], None, c_Gas c)
       | _ => '(r, f) ← l (mkFrame 0 [] [] 0 (set_Input c input)); mret (r.1, r.2, c_Gas (contract f))
       end) (fun r m3 => mstep m (left_from ro m m3) /\ short (fst (fst r))) (entered ro m)).
  { destruct (Code c); [apply wpE_ret; split; [by apply mstep_left, mstep_refl | done] |].
    apply wpE_bind. eapply wpE_mono; [by apply Hl, LInv_start |]. intros [r f] m3 [Hm3 Hr].
    apply wpE_ret. split; [by apply mstep_left | done]. }
  unfold enter. apply wpE_bind, wpE_modify, wpE_bind, wpE_gets, wpE_bind, wpE_modify, wpE_bind, wpE_modify, wpE_bind.
  eapply wpE_mono; [exact Hbody |]. intros r m3 H3. by apply wpE_bind, wpE_modify, wpE_bind, wpE_modify, wpE_ret.
Qed.

Lemma loop_is_ok fuel : loop_ok (loop fuel).
Proof using hyps wok.
  induction fuel as [| fuel IH]; intros f m Hm Hf; [done |].
  pose proof (iteration_ok (enter (loop fuel)) (enter_ok _ IH) f m Hm Hf) as Hit.
  unfold wpE, wpI in *. cbn [loop]. destruct (iteration _ f m) as [[[[r |] f1] m1] | |]; [| | done | done].
  - destruct Hit as [H1 Hr]. by split.
  - destruct Hit as [H1 Hf1]. specialize (IH f1 m1 (ms_inv _ _ H1) Hf1). unfold wpE in IH.
    destruct (loop fuel f1 m1) as [[r m'] | |]; [| done | done]. destruct IH as [H2 Hr].
    split; [by eapply mstep_trans | done].
Qed.

Lemma Run_ok fuel : run_ok (Run fuel).
Proof using hyps wok. apply enter_ok, loop_is_ok. Qed.

(** C4: a run of any contract on any input, however long, either ends in a machine whose
    state, journal and flags are in order, or is still going, or has crashed for one of
    two reasons: memory the process cannot allocate, or a nil pointer in the block or
    transaction context. No instruction indexes out of range, no call leaves the depth
    or the read-only flag changed, no state method panics. *)
Theorem Run_safe fuel c input ro m :
  CInv c -> short input -> MInv m ->
  match Run fuel c input ro m with
  | Val (r, m') => MInv m' /\ Step (db m) (db m') /\ depth m' = depth m /\ readOnly m' = readOnly m
  | Crash why => allowed why
  | Spin => True
  end.
Proof using hyps wok.
  intros Hc Hi Hm. pose proof (Run_ok fuel c input ro m Hc Hi Hm) as H. unfold wpE in H.
  destruct (Run fuel c input ro m) as [[r m'] | |]; [| done | done]. by destruct H as [[] _].
Qed.

End Loop.
