(* ===== verification/StateDBRefines.v ===== *)
(** * The state database keeps the machine's contract

    An instance of [MachineLaws.StateDBLaws] for [state.StateDB]: every method the
    machine calls returns, keeps the database's invariant and is journalled, and
    reverting to a snapshot gives back a state that cannot be told apart from that of
    the snapshot, balances seen modulo 2^64 (the journal keeps no more of them). The
    theorems about the machine hold of the program's own account state through it. *)
From Stdlib Require Import ZArith Lia.
From stdpp Require Import base gmap strings list fin_maps.
From S2P Require Import Prelude Utils JournalTypes Core AccessList StateDB StateDBSim StateDBProofs Machine Evm EvmInstances.
From S2P Require Import MachineLaws.

(** What the database below and the hash are assumed to do: accounts have a code hash,
    the code found under it has that hash, and the hash is that of the machine. *)
Class ReaderOk (cfg : Config) (rd : StateReader) (cr : Crypto) : Prop := {
  hash_agrees : forall c, Keccak256Hash c = Keccak256 c;
  hash_empty : Keccak256 [] = EmptyCodeHash;
  hash_nonzero : forall c, Keccak256 c <> 0;
  hash_injective : forall c d, Keccak256 c = Keccak256 d -> c = d;
  reader_hash : forall a acct, reader_Account a = Some acct -> sa_CodeHash acct <> 0;
  reader_code : forall a h, h <> EmptyCodeHash -> hash_ok h (ContractCode a h);
  initial_balance : Z.abs Init_Balance < 2 ^ 256
}.

Section Laws.
Context `{cfg : Config} `{rd : StateReader} `{env : NodeEnv} `{cr : Crypto} `{rok : !ReaderOk cfg rd cr}.

(** A code hash and code that go together. *)
Definition code_ok (p : Z * list Z) : Prop := fst p <> 0 /\ hash_ok (fst p) (snd p).

#[local] Abbreviation sim := (db_sim u64 (fun _ => true)).
#[local] Abbreviation journalled := (journalled u64 code_ok).

Record db_inv (s : StateDB) : Prop := {
  inv_wf : db_wf s;
  inv_access : al_ok (access s);
  inv_revisions : Forall (fun r => Id r < nextRevisionId (jrnl s)) (ValidRevisions (jrnl s));
  inv_code : forall a, code_ok (code_or_empty s a)
}.

(** From [s] to [s']: revisions were added, and the entries added undo to [s]. Entries of
    other shards are skipped by the undoing. *)
Definition db_step (s s' : StateDB) : Prop :=
  (exists later, ValidRevisions (jrnl s') = ValidRevisions (jrnl s) ++ later) /\
  nextRevisionId (jrnl s) <= nextRevisionId (jrnl s') /\
  exists es s'', Entries (jrnl s') = Entries (jrnl s) ++ es /\ for_each Revert s' (rev (own es)) = Ret s'' /\
    db_wf s'' /\ sim s'' s /\ codes_kept code_ok s (own es) s'.

Definition db_exists (s : StateDB) (a : Z) : Prop := is_Some (live s a).
Definition db_code (s : StateDB) (a : Z) : Z * list Z := match live s a with Some o => obj_code o | None => (0, []) end.

(** ** The step relation *)

Lemma step_journalled s s' : journalled s s' -> db_step s s'.
Proof using Type.
  intros (Hw & Hv & Hn & es & s'' & Hes & Hown & Hr & Hw'' & He & Hc).
  split; [exists []; by rewrite app_nil_r | split; [lia |]]. exists es, s''. by rewrite own_all.
Qed.

Lemma step_refl s : db_inv s -> db_step s s.
Proof using Type. intros Hi. by apply step_journalled, journalled_refl, Hi. Qed.

Lemma step_trans s t u : db_inv t -> db_step s t -> db_step t u -> db_step s u.
Proof using Type.
  intros Ht ((l1 & Hv1) & Hn1 & es & t1 & Hes & Hr1 & Hw1 & He1 & Hc1)
            ((l2 & Hv2) & Hn2 & fs & t2 & Hfs & Hr2 & Hw2 & He2 & Hc2).
  destruct (undo_proper u64 (rev (own es)) t t2 t1) as (t3 & Hr3 & He3 & _ & Hw3);
    [apply Ht | done | by symmetry | done |].
  split; [exists (l1 ++ l2); by rewrite Hv2, Hv1, app_assoc | split; [lia |]]. exists (es ++ fs), t3.
  rewrite own_app. split_and!; [by rewrite Hfs, Hes, app_assoc | | done | by rewrite <- He3 | by eapply codes_kept_trans].
  rewrite rev_app_distr, for_each_app, Hr2. done.
Qed.

Lemma inv_journalled s s' : db_inv s -> journalled s s' -> al_ok (access s') -> db_inv s'.
Proof using Type.
  intros [Hw Ha Hr Hc] (Hw' & Hv & Hn & es & _ & _ & _ & _ & _ & _ & Hk) Ha'.
  split; [done | done | by rewrite Hv, Hn |]. intros a. specialize (Hk a). destruct (code_changed es a); [apply Hk |].
  rewrite Hk. apply Hc.
Qed.

(** A method that is journalled and leaves the access list alone. *)
Lemma acts_journalled {A} (op : StateDB -> outcome (StateDB * A)) (Q : StateDB -> A -> StateDB -> Prop) :
  (forall s, db_inv s -> exists s' r, op s = Ret (s', r) /\ journalled s s' /\ access s' = access s /\ Q s r s') ->
  acts db_inv db_step op Q.
Proof using Type.
  intros H s Hs. destruct (H s Hs) as (s' & r & Hop & Hj & Ha & HQ). exists s', r.
  split_and!; [done | | by apply step_journalled | done]. eapply inv_journalled; [done | done |]. rewrite Ha. apply Hs.
Qed.

Lemma acting_journalled (op : StateDB -> outcome StateDB) :
  (forall s, db_inv s -> exists s', op s = Ret s' /\ journalled s s' /\ access s' = access s) ->
  acts db_inv db_step (fun s => acting (op s)) (fun _ _ _ => True).
Proof using Type.
  intros H. apply acts_journalled. intros s Hs. destruct (H s Hs) as (s' & Hop & Hj & Ha).
  exists s', tt. unfold acting. by rewrite Hop.
Qed.

(** ** Accounts *)

Lemma MustFromBig_init : MustFromBig Init_Balance = Ret (u256 Init_Balance).
Proof using rok. unfold MustFromBig. pose proof initial_balance. destruct (Z.ltb_spec (Z.abs Init_Balance) (2 ^ 256)); [done | lia]. Qed.

Lemma kept_always b : kept u64 b.
Proof using Type. unfold kept. apply u64_small, u64_range. Qed.

Lemma balance_kept_always s a : balance_kept u64 s a.
Proof using Type. unfold balance_kept. case_match; intros; apply kept_always. Qed.

Lemma load_access s a : access (fst (getStateObject s a)) = access s.
Proof using Type. by destruct (load_spec s a) as (m & -> & _). Qed.

Lemma load_sim s a : sim (fst (getStateObject s a)) s.
Proof using Type.
  destruct (load_spec s a) as (m & -> & Hl & _). apply sim_objects; try done. intros b. rewrite Hl.
  by destruct (live s b); constructor.
Qed.

Lemma getOrNew_returns s a :
  db_wf s -> exists s1 o, getOrNewStateObject s a = Ret (s1, o) /\ journalled s s1 /\ live s1 a = Some o /\
    access s1 = access s /\ (db_exists s a -> sim s1 s).
Proof using rok.
  intros Hw. destruct (getOrNewStateObject s a) as [[s1 o] |] eqn:E.
  - exists s1, o. destruct (getOrNew_spec u64 code_ok s a s1 o Hw E) as (Hj & Hl & _).
    unfold getOrNewStateObject in E. pose proof (load_access s a) as Ha. pose proof (load_sim s a) as Hs.
    unfold db_exists, live. destruct (getStateObject s a) as [s2 [p |]]; cbn in *.
    + injection E as <- <-. done.
    + unfold createObject in E. rewrite MustFromBig_init in E. injection E as <- <-. split_and!; [done.. |].
      intros [? [=]].
  - unfold getOrNewStateObject in E. destruct (getStateObject s a) as [s2 [p |]]; [done |].
    unfold createObject in E. by rewrite MustFromBig_init in E.
Qed.

(** A setter: the object is found or created, then edited. *)
Lemma setter_journalled (set : StateDB -> stateObject -> StateDB) s a :
  db_inv s -> (forall t o, db_wf t -> live t a = Some o -> journalled t (set t o)) ->
  (forall t o, access (set t o) = access t) ->
  exists s', (r ← getOrNewStateObject s a; Ret (set (fst r) (snd r))) = Ret s' /\ journalled s s' /\ access s' = access s.
Proof using rok.
  intros Hs Hset Hacc. destruct (getOrNew_returns s a (inv_wf _ Hs)) as (s1 & o & -> & Hj & Hl & Ha & _).
  cbn. eexists. split; [done |]. split; [| by rewrite Hacc].
  eapply journalled_trans; [apply Hs | done |]. apply Hset; [apply Hj | done].
Qed.

Lemma obj_SetBalance_access s o v : access (obj_SetBalance s o v) = access s.
Proof using Type. done. Qed.

Lemma obj_SetState_access s o k v : access (obj_SetState s o k v) = access s.
Proof using Type.
  unfold obj_SetState. destruct (obj_getState _ o k) as [o1 [x y]]. by destruct (x =? v).
Qed.

Lemma AddBalance_acts a v : acts db_inv db_step (fun s => acting (AddBalance s a v)) (fun _ _ _ => True).
Proof using rok.
  apply acting_journalled. intros s Hs.
  destruct (getOrNew_returns s a (inv_wf _ Hs)) as (s1 & o & Hg & Hj & Hl & Ha & _).
  destruct (AddBalance s a v) as [s' |] eqn:E.
  - exists s'. split; [done |].
    split; [eapply AddBalance_journalled; [apply Hs | apply balance_kept_always | done] |].
    unfold AddBalance in E. rewrite Hg in E. cbn in E. unfold touch in E.
    repeat case_match; by simplify_eq.
  - unfold AddBalance in E. rewrite Hg in E. cbn in E. by repeat case_match.
Qed.

Lemma SubBalance_acts a v : acts db_inv db_step (fun s => acting (SubBalance s a v)) (fun _ _ _ => True).
Proof using rok.
  apply acting_journalled. intros s Hs.
  destruct (getOrNew_returns s a (inv_wf _ Hs)) as (s1 & o & Hg & Hj & Hl & Ha & _).
  destruct (SubBalance s a v) as [s' |] eqn:E.
  - exists s'. split; [done |].
    split; [eapply SubBalance_journalled; [apply Hs | apply balance_kept_always | done] |].
    unfold SubBalance in E. rewrite Hg in E. cbn in E. repeat case_match; by simplify_eq.
  - unfold SubBalance in E. rewrite Hg in E. cbn in E. by repeat case_match.
Qed.

Lemma SetNonce_acts a n : acts db_inv db_step (fun s => acting (SetNonce s a n)) (fun _ _ _ => True).
Proof using rok.
  apply acting_journalled. intros s Hs. apply (setter_journalled (fun t o => obj_SetNonce t o n)); [done | | done].
  intros t o Hw Hl. by eapply journalled_setNonce.
Qed.

Lemma SetState_acts a k v : acts db_inv db_step (fun s => acting (SetState s a k v)) (fun _ _ _ => True).
Proof using rok.
  apply acting_journalled. intros s Hs. apply (setter_journalled (fun t o => obj_SetState t o k v)); [done | |].
  - intros t o Hw Hl. by eapply journalled_setState.
  - intros t o. apply obj_SetState_access.
Qed.

(** ** Reads *)

Lemma code_at_sim s t a : sim s t -> db_code s a = db_code t a.
Proof using Type.
  intros H. pose proof (code_or_empty_sim u64 s t a H) as Hc. unfold code_or_empty, db_code in *.
  by destruct (de_live _ _ _ _ H a).
Qed.

(** A read that only fills caches. *)
Lemma reading_acts {A} (op : StateDB -> StateDB * A) (Q : StateDB -> A -> Prop) :
  (forall s, db_inv s -> db_wf (fst (op s)) /\ jrnl (fst (op s)) = jrnl s /\ access (fst (op s)) = access s /\
    sim (fst (op s)) s /\ Q s (snd (op s))) ->
  acts db_inv db_step (fun s => Ret (op s)) (fun s r s' => Q s r /\ sim s' s).
Proof using Type.
  intros H. apply acts_journalled. intros s Hs. destruct (H s Hs) as (Hw & Hj & Ha & He & HQ).
  exists (fst (op s)), (snd (op s)). split_and!; [by destruct (op s) | by apply journalled_cache | done | done | done].
Qed.

Lemma load_facts s a :
  db_inv s -> db_wf (fst (getStateObject s a)) /\ jrnl (fst (getStateObject s a)) = jrnl s /\
    access (fst (getStateObject s a)) = access s /\ sim (fst (getStateObject s a)) s.
Proof using Type.
  intros Hs. split_and!; [| | apply load_access | apply load_sim].
  - destruct (load_spec s a) as (m & -> & _ & _ & Hw). by apply Hw, Hs.
  - by destruct (load_spec s a) as (m & -> & _).
Qed.

(** The object found, replaced by one with its caches filled. *)
Lemma fill_facts s a o1 :
  db_inv s -> (forall o, live s a = Some o -> obj_sim u64 true (destructed_at s a) o1 o) -> is_Some (live s a) ->
  let s' := setStateObject (fst (getStateObject s a)) o1 in
  db_wf s' /\ jrnl s' = jrnl s /\ access s' = access s /\ sim s' s.
Proof using Type.
  intros Hs Ho [o Hl]. destruct (load_facts s a Hs) as (Hw & Hj & Ha & He). cbn.
  split_and!; [by apply put_wf | done | done |]. etrans; [| exact He].
  assert (Hd : destructed_at (fst (getStateObject s a)) a = destructed_at s a).
  { unfold destructed_at. by rewrite (de_dead _ _ _ _ He). }
  eapply sim_put; [done | by rewrite live_load | rewrite Hd; by apply Ho].
Qed.

Lemma acts_weaken {A} (op : StateDB -> outcome (StateDB * A)) (P Q : StateDB -> A -> StateDB -> Prop) :
  acts db_inv db_step op P -> (forall s r s', P s r s' -> Q s r s') -> acts db_inv db_step op Q.
Proof using Type. intros H HPQ s Hs. destruct (H s Hs) as (s' & r & ? & ? & ? & ?). exists s', r. eauto. Qed.

Lemma GetNonce_acts a : acts db_inv db_step (fun s => Ret (GetNonce s a)) (fun s _ s' => sim s' s).
Proof using Type.
  eapply acts_weaken; [apply (reading_acts (fun s => GetNonce s a) (fun _ _ => True)) | by intros ? ? ? [_ Hb]]. intros s Hs.
  pose proof (load_facts s a Hs). unfold GetNonce. destruct (getStateObject s a). cbn in *. tauto.
Qed.

Lemma GetStorageRoot_acts a : acts db_inv db_step (fun s => Ret (GetStorageRoot s a)) (fun s _ s' => sim s' s).
Proof using Type.
  eapply acts_weaken; [apply (reading_acts (fun s => GetStorageRoot s a) (fun _ _ => True)) | by intros ? ? ? [_ Hb]]. intros s Hs.
  pose proof (load_facts s a Hs). unfold GetStorageRoot. destruct (getStateObject s a). cbn in *. tauto.
Qed.

Lemma GetCodeHash_acts a :
  acts db_inv db_step (fun s => Ret (GetCodeHash s a)) (fun s h s' => h = fst (db_code s a) /\ sim s' s).
Proof using Type.
  apply (reading_acts (fun s => GetCodeHash s a) (fun s h => h = fst (db_code s a))). intros s Hs.
  pose proof (load_facts s a Hs) as H. unfold GetCodeHash, db_code, live. destruct (getStateObject s a) as [s1 [o |]]; cbn in *; tauto.
Qed.

Lemma GetCode_acts a :
  acts db_inv db_step (fun s => Ret (GetCode s a)) (fun s c s' => c = snd (db_code s a) /\ sim s' s).
Proof using Type.
  apply (reading_acts (fun s => GetCode s a) (fun s c => c = snd (db_code s a))). intros s Hs.
  pose proof (load_facts s a Hs) as H. pose proof (fill_facts s a) as Hf. unfold GetCode, db_code, obj_code, code_of, live in *.
  destruct (getStateObject s a) as [s1 [o |]]; cbn in *; [| tauto].
  specialize (Hf (fst (obj_Code o)) Hs). pose proof (obj_Code_sim u64 true (destructed_at s a) o) as Hc.
  destruct (obj_Code o) as [o1 c]. cbn in *. destruct Hf as (? & ? & ? & ?); [by intros ? [= <-] | eauto | tauto].
Qed.

Lemma GetState_acts a k : acts db_inv db_step (fun s => Ret (GetState s a k)) (fun _ _ _ => True).
Proof using Type.
  eapply acts_weaken; [apply (reading_acts (fun s => GetState s a k) (fun _ _ => True)) | done]. intros s Hs.
  pose proof (load_facts s a Hs) as H. pose proof (fill_facts s a) as Hf. unfold GetState, live in *.
  destruct (getStateObject s a) as [s1 [o |]]; cbn in *; [| tauto]. destruct H as (_ & _ & _ & He).
  assert (Hd : destructed_at s1 a = destructed_at s a) by (unfold destructed_at; by rewrite (de_dead _ _ _ _ He)).
  destruct (obj_getState_spec u64 true (destructed_at s a) o k) as (o1 & Ho & Ho1). rewrite Hd, Ho. cbn.
  destruct (Hf o1 Hs) as (? & ? & ? & ?); [by intros ? [= <-] | eauto | done].
Qed.

Lemma GetBalance_acts a :
  acts db_inv db_step (fun s => GetBalance s a) (fun s _ s' => db_exists s a -> sim s' s).
Proof using rok.
  apply acts_journalled. intros s Hs. destruct (getOrNew_returns s a (inv_wf _ Hs)) as (s1 & o & Hg & Hj & _ & Ha & He).
  unfold GetBalance. rewrite Hg. cbn. eexists _, _. split_and!; done.
Qed.

(** A method that gives the state back. *)
Lemma quiet_acts {A} (r : StateDB -> A) (Q : StateDB -> A -> StateDB -> Prop) :
  (forall s, db_inv s -> Q s (r s) s) -> acts db_inv db_step (fun s => quietly s (r s)) Q.
Proof using Type. intros HQ s Hs. exists s, (r s). split_and!; [done | done | by apply step_refl | auto]. Qed.

Lemma Exist_spec s a : if Exist s a then db_exists s a else ~ db_exists s a.
Proof using Type. unfold Exist, db_exists, live. destruct (snd (getStateObject s a)); [eauto | by intros [? [=]]]. Qed.

(** ** Journalled setters *)

Lemma setting_acts (op : StateDB -> StateDB) :
  (forall s, db_inv s -> journalled s (op s) /\ access (op s) = access s) ->
  acts db_inv db_step (fun s => quietly (op s) tt) (fun _ _ _ => True).
Proof using Type. intros H. apply acts_journalled. intros s Hs. destruct (H s Hs). exists (op s), tt. done. Qed.

Lemma SelfDestruct_access s a : access (SelfDestruct s a) = access s.
Proof using Type.
  unfold SelfDestruct. pose proof (load_access s a) as Ha. destruct (getStateObject s a) as [s1 [o |]]; cbn in *; [| done].
  repeat case_match; simplify_eq; done.
Qed.

Lemma Selfdestruct6780_acts a : acts db_inv db_step (fun s => quietly (Selfdestruct6780 s a) tt) (fun _ _ _ => True).
Proof using cfg.
  apply setting_acts. intros s Hs.
  split; [apply Selfdestruct6780_journalled; [apply Hs | apply balance_kept_always] |].
  unfold Selfdestruct6780. pose proof (load_access s a) as Ha. destruct (getStateObject s a) as [s1 [o |]]; cbn in *; [| done].
  destruct (newContract o); [by rewrite SelfDestruct_access | done].
Qed.

Lemma SetTransientState_acts a k v :
  acts db_inv db_step (fun s => quietly (SetTransientState s a k v) tt) (fun _ _ _ => True).
Proof using Type.
  apply setting_acts. intros s Hs. split; [apply SetTransient_journalled, Hs |]. unfold SetTransientState. by case_match.
Qed.

Lemma AddLog_acts c : acts db_inv db_step (fun s => quietly (AddLog s c) tt) (fun _ _ _ => True).
Proof using Type. apply setting_acts. intros s Hs. split; [apply AddLog_journalled, Hs | done]. Qed.

(** ** The access list *)

Lemma AddAddressToAccessList_acts a :
  acts db_inv db_step (fun s => quietly (AddAddressToAccessList s a) tt) (fun _ _ _ => True).
Proof using Type.
  intros s Hs. exists (AddAddressToAccessList s a), tt.
  assert (Hj : journalled s (AddAddressToAccessList s a)) by apply AddAddressToAccessList_journalled, Hs.
  split_and!; [done | | by apply step_journalled | done]. eapply inv_journalled; [done | done |].
  pose proof (AddAddress_ok (access s) a (inv_access _ Hs)) as H. unfold AddAddressToAccessList.
  destruct (AddAddress (access s) a) as [al []]; apply H.
Qed.

Lemma AddSlotToAccessList_acts a k :
  acts db_inv db_step (fun s => acting (AddSlotToAccessList s a k)) (fun _ _ _ => True).
Proof using Type.
  intros s Hs. destruct (AddSlot_ok (access s) a k (inv_access _ Hs)) as (al & am & sm & Hadd & Hal & _).
  destruct (AddSlotToAccessList s a k) as [s' |] eqn:E.
  - exists s', tt. assert (Hj : journalled s s') by (eapply AddSlotToAccessList_journalled; [apply Hs | done]).
    unfold acting. split_and!; [done | | by apply step_journalled | done].
    eapply inv_journalled; [done | done |]. unfold AddSlotToAccessList in E. rewrite Hadd in E. cbn in E.
    injection E as <-. by destruct am, sm.
  - unfold AddSlotToAccessList in E. by rewrite Hadd in E.
Qed.

Lemma SlotInAccessList_acts a k :
  acts db_inv db_step (db_SlotInAccessList a k) (fun _ _ _ => True).
Proof using Type.
  intros s Hs. unfold db_SlotInAccessList. rewrite Contains_ok by apply Hs. cbn.
  eexists _, _. split_and!; [done | done | by apply step_refl | done].
Qed.

(** ** Entries of other shards *)

Lemma own_foreign l : Forall (fun e => GetShardID e <> ShardID) l -> own l = [].
Proof using Type. induction 1 as [| e l He _ IH]; [done |]. unfold own in *. by rewrite filter_cons, decide_False, IH. Qed.

Lemma AppendJournal_acts l :
  Forall (fun e => GetShardID e <> ShardID) l ->
  acts db_inv db_step (fun s => quietly (db_AppendJournal s l) tt) (fun _ _ _ => True).
Proof using cfg.
  intros Hl s Hs. exists (db_AppendJournal s l), tt. split_and!; [done | | | done].
  - destruct Hs as [[] ? ? ?]. split; [by split | done | done |]. intros a. unfold db_AppendJournal.
    by rewrite code_or_empty_journal.
  - split; [exists []; by rewrite app_nil_r | split; [done |]]. exists l, (db_AppendJournal s l).
    rewrite own_foreign by done. split_and!; [done | done | by apply wf_journal, Hs | by apply sim_journal |].
    intros a. cbn. unfold db_AppendJournal. by rewrite code_or_empty_journal.
Qed.

(** ** Creation *)

Lemma CreateAccount_returns s a :
  db_inv s -> ~ db_exists s a ->
  exists s', acting (CreateAccount s a) = Ret (s', tt) /\ db_inv s' /\ db_step s s' /\ db_exists s' a.
Proof using rok.
  intros Hs Hn. assert (Hl : live s a = None) by (destruct (live s a) eqn:E; [destruct Hn; by eexists | done]).
  unfold CreateAccount. destruct (createObject s a) as [[s1 o] |] eqn:E.
  2: { unfold createObject in E. by rewrite MustFromBig_init in E. }
  destruct (journalled_create u64 code_ok s a s1 o (inv_wf _ Hs) Hl E) as (Hj & Hlive & _). cbn. exists s1.
  split_and!; [done | | by apply step_journalled | by eexists]. eapply inv_journalled; [done | done |].
  unfold createObject in E. rewrite MustFromBig_init in E. injection E as <- <-. apply Hs.
Qed.

Lemma CreateContract_returns s a :
  db_inv s -> db_exists s a -> exists s', acting (CreateContract s a) = Ret (s', tt) /\ db_inv s' /\ db_step s s'.
Proof using Type.
  intros Hs [o Ho]. destruct (CreateContract s a) as [s' |] eqn:E.
  - exists s'. assert (Hj : journalled s s') by (eapply CreateContract_journalled; [apply Hs | done]).
    split_and!; [done | | by apply step_journalled]. eapply inv_journalled; [done | done |].
    pose proof (load_access s a) as Ha. unfold CreateContract in E.
    destruct (getStateObject s a) as [s1 [p |]]; cbn in *; [| done]. assert (access s' = access s) as ->; [| apply Hs].
    destruct (newContract p); by injection E as <-.
  - unfold CreateContract in E. unfold live in Ho. destruct (getStateObject s a) as [s1 [p |]]; [| done].
    by destruct (newContract p).
Qed.

Lemma code_changed_rev es a : code_changed (rev es) a = code_changed es a.
Proof using Type.
  induction es as [| e es IH]; [done |]. cbn [rev]. rewrite code_changed_app, IH. cbn. rewrite orb_false_r. apply orb_comm.
Qed.

(** Where no code was known, there was none. *)
Lemma no_code_empty_at s a : db_inv s -> no_code (fst (db_code s a)) -> code_or_empty s a = (EmptyCodeHash, []).
Proof using rok.
  intros Hs Hn. pose proof (inv_code _ Hs a) as [Hz [_ Hk]]. unfold code_or_empty, db_code in *.
  destruct (live s a) as [o |]; [| done]. destruct Hn as [Hn | Hn]; [done |].
  destruct (obj_code o) as [h c]. cbn in *. subst h. f_equal. destruct c as [| x c]; [done |].
  destruct Hk as [Hk | Hk]; [done | done |]. rewrite <- hash_empty in Hk. by apply hash_injective in Hk.
Qed.

Lemma setCode_ok o c : short c -> code_ok (obj_code (obj_setCode o (Keccak256Hash c) c)).
Proof using rok.
  intros Hc. rewrite hash_agrees. split; [apply hash_nonzero |]. unfold obj_code. cbn [fst snd]. rewrite code_of_eq. cbn.
  destruct c as [| x c]; [| by split; [| right]]. rewrite hash_empty. by split.
Qed.

(** The states before a change of code and after it is undone, told apart at most by
    that code. *)
Lemma undo_setCode s a o h c :
  db_wf s -> live s a = Some o ->
  exists r, Revert (obj_SetCode s o h c) (CodeChange a h c ShardID) = Ret r /\ db_wf r /\
    forall cmp, (forall b, b <> a -> cmp b = true) -> (cmp a = true -> obj_code o = (EmptyCodeHash, [])) -> db_sim u64 cmp s r.
Proof using Type.
  intros Hw Hl. pose proof (live_address s a o Hw Hl) as Ha. set (g := fun p => obj_setCode p EmptyCodeHash []).
  set (s' := obj_SetCode s o h c). assert (Hw' : db_wf s') by by apply put_wf, wf_journal.
  assert (Hl' : forall b, live s' b = if decide (b = a) then Some (obj_setCode o h c) else live s b).
  { intros b. unfold s', obj_SetCode. rewrite live_put. cbn. unfold record_entry. by rewrite live_journal, Ha. }
  destruct (revert_obj_spec s' a g Hw') as (m & Hm & Hwm & Hlm); [done |]. exists (db_objects s' m).
  split_and!; [by rewrite <- Hm | done |]. intros cmp Hother Hsame.
  apply sim_objects; try done. intros b. rewrite Hlm, !Hl'. destruct (decide (b = a)) as [-> |].
  - rewrite decide_True, Hl by done. constructor. symmetry.
    eapply (sim_keep_storage u64 (cmp a)); [reflexivity | done | done | done | | | done | done].
    + unfold view. cbn. destruct (cmp a); [| done]. injection (Hsame eq_refl) as Hh _. by rewrite Hh.
    + intros Hc. injection (Hsame Hc) as _ Hcode. by rewrite Hcode, code_of_eq.
  - destruct (live s b); constructor. by apply (sim_weaken u64 true).
Qed.

(** ** Code *)

(** Setting code where there was none at the start, and none or some since. *)
Lemma SetCode_step s0 s a o c :
  db_inv s0 -> db_inv s -> db_step s0 s -> live s a = Some o -> short c -> code_or_empty s0 a = (EmptyCodeHash, []) ->
  db_step s0 (obj_SetCode s o (Keccak256Hash c) c).
Proof using rok.
  intros H0 Hs ((later & Hv) & Hn & es & t & Hes & Hr & Hw & He & Hc) Hl Hsh Hnone.
  pose proof (live_address s a o (inv_wf _ Hs) Hl) as Ha.
  set (h := Keccak256Hash c). set (e := CodeChange a h c ShardID). set (s' := obj_SetCode s o h c).
  destruct (undo_setCode s a o h c (inv_wf _ Hs) Hl) as (r & Hre & Hwr & Hsim).
  assert (Hl' : forall b, live s' b = if decide (b = a) then Some (obj_setCode o h c) else live s b).
  { intros b. unfold s', obj_SetCode. rewrite live_put. cbn. unfold record_entry. by rewrite live_journal, Ha. }
  assert (Hundo : exists t', for_each Revert r (rev (own es)) = Ret t' /\ db_wf t' /\ sim t' s0).
  { pose proof (Hc a) as Hca. destruct (code_changed (own es) a) eqn:Ech.
    - destruct (undo_sim u64 (fun b => negb (b =? a)) (rev (own es)) s r t) as (t' & Ht' & Hst & _ & Hwt');
        [apply Hs | done | | done |].
      { apply Hsim; [intros b Hb; by apply negb_true_iff, Z.eqb_neq | by rewrite Z.eqb_refl]. }
      exists t'. split_and!; [done | done |]. symmetry in He. etrans; [| symmetry; exact He].
      symmetry. eapply db_sim_weaken; [| exact Hst]. intros b _. cbv beta. rewrite code_changed_rev.
      destruct (Z.eqb_spec b a) as [-> |]; [by rewrite Ech | done].
    - destruct (undo_proper u64 (rev (own es)) s r t) as (t' & Ht' & Hst & _ & Hwt'); [apply Hs | done | | done |].
      { apply Hsim; [done |]. intros _. unfold code_or_empty in Hca at 1. rewrite Hl in Hca. congruence. }
      exists t'. split_and!; [done | done |]. by rewrite <- Hst. }
  destruct Hundo as (t' & Ht' & Hwt' & Hst'). split_and!; [by exists later | done |]. exists (es ++ [e]), t'.
  assert (own [e] = [e]) as Hone by (unfold own; rewrite filter_cons, filter_nil; by rewrite decide_True).
  rewrite own_app, Hone, rev_app_distr. split_and!; [| | done | done |].
  - cbn. rewrite Ha, Hes, <- app_assoc. done.
  - change (for_each Revert s' ([e] ++ rev (own es)) = Ret t'). rewrite for_each_app. cbn [for_each].
    unfold e, s'. rewrite Hre. exact Ht'.
  - intros b. rewrite code_changed_app. specialize (Hc b). unfold code_or_empty at 2 3. rewrite Hl'.
    cbn -[Z.eqb]. rewrite orb_false_r. destruct (Z.eqb_spec a b) as [<- | Hne].
    + rewrite orb_true_r, decide_True by done. split; [done | by apply setCode_ok].
    + rewrite orb_false_r, decide_False by done. exact Hc.
Qed.

Lemma SetCode_inv s a o c : db_inv s -> live s a = Some o -> short c -> db_inv (obj_SetCode s o (Keccak256Hash c) c).
Proof using rok.
  intros [Hw Ha Hr Hc] Hl Hsh. split; [by apply put_wf, wf_journal | done | done |]. intros b.
  unfold code_or_empty, obj_SetCode. rewrite live_put. cbn. unfold record_entry. rewrite live_journal.
  case_decide; [by apply setCode_ok | apply Hc].
Qed.

Lemma SetCode_returns s0 s a c :
  short c -> db_inv s0 -> db_inv s -> db_step s0 s -> no_code (fst (db_code s0 a)) ->
  exists s', acting (SetCode s a c) = Ret (s', tt) /\ db_inv s' /\ db_step s0 s'.
Proof using rok.
  intros Hsh H0 Hs Hst Hn. apply no_code_empty_at in Hn; [| done].
  destruct (getOrNew_returns s a (inv_wf _ Hs)) as (s1 & o & Hg & Hj & Hl & Ha & _).
  assert (Hs1 : db_inv s1) by (eapply inv_journalled; [done | done |]; rewrite Ha; apply Hs).
  unfold SetCode. rewrite Hg. cbn. eexists. split; [done |]. split; [by eapply SetCode_inv |].
  apply (SetCode_step s0 s1 a); try done. eapply step_trans; [exact Hs | done | by apply step_journalled].
Qed.

(** ** Snapshots *)

Lemma Revert_access s e s' : Revert s e = Ret s' -> access s' = access s.
Proof using Type.
  assert (Hobj : forall a f, access (revert_obj s a f) = access s).
  { intros a f. unfold revert_obj. pose proof (load_access s a). by destruct (getStateObject s a) as [s1 [o |]]. }
  destruct e; cbn -[revert_obj slice]; try (intros [= <-]; by rewrite ?Hobj).
  intros Hr. outcome_inv. done.
Qed.

Lemma undo_access es s s' : for_each Revert s es = Ret s' -> access s' = access s.
Proof using Type.
  intros Hr. eapply (for_each_inv (fun t => access t = access s)); [done | | done].
  intros t e t1 _ Ht H1. by rewrite (Revert_access t e t1).
Qed.

(** The revision a snapshot made is found however many came after it. *)
Lemma search_own l x later id :
  Forall (fun r => Id r < id) l -> Id x = id -> search_revision (l ++ x :: later) id = length l.
Proof using Type. intros Hl Hx. rewrite search_skip by done. cbn. rewrite Hx, Z.leb_refl. lia. Qed.

Lemma Snapshot_returns s :
  db_inv s -> exists s1 id, Ret (Snapshot s) = Ret (s1, id) /\ db_inv s1 /\ db_step s s1 /\
    forall s2, db_inv s2 -> db_step s1 s2 ->
      exists s3 msgs, RevertToSnapshot s2 id = Ret (s3, msgs) /\ db_inv s3 /\ db_step s s3 /\ sim s3 s.
Proof using cfg.
  intros Hs. set (id := nextRevisionId (jrnl s)). set (x := mkRevision id (zlen (Entries (jrnl s)))).
  set (s1 := fst (Snapshot s)). exists s1, id. pose proof (inv_revisions _ Hs) as Hrev.
  assert (Hsim1 : sim s1 s) by by apply sim_journal.
  split_and!; [done | | |].
  - split; [by apply wf_journal, Hs | apply Hs | | intros a; unfold s1; cbn; rewrite code_or_empty_journal; apply Hs].
    cbn. apply Forall_app. split; [eapply Forall_impl; [exact Hrev | cbn; lia] |]. repeat constructor. cbn. lia.
  - split; [by exists [x] | split; [cbn; lia |]]. exists [], s1. rewrite app_nil_r.
    split_and!; [done | done | by apply wf_journal, Hs | done |]. intros a. by apply (code_or_empty_sim u64).
  - intros s2 Hs2 ((later & Hv) & Hn & es & t & Hes & Hr & Hw & He & Hc).
    change (ValidRevisions (jrnl s1)) with (ValidRevisions (jrnl s) ++ [x]) in Hv. rewrite <- app_assoc in Hv. cbn in Hv.
    change (nextRevisionId (jrnl s1)) with (id + 1) in Hn. change (Entries (jrnl s1)) with (Entries (jrnl s)) in Hes.
    destruct (journal_revert_spec s2 (Entries (jrnl s)) es t Hes Hr) as (j & Hj & Hje & Hjv & Hjn).
    unfold RevertToSnapshot. rewrite Hv, search_own, lookup_app_r, Nat.sub_diag by done.
    cbn -[journal_revert]. unfold id at 1. rewrite Z.eqb_refl. cbn -[journal_revert]. rewrite Hj, bind_Ret.
    eexists _, _. split; [reflexivity |]. cbn [jrnl db_journal Entries ValidRevisions]. rewrite Hjv, Hv, take_app_length, Hjn.
    set (J := mkJournal _ _ _ _). assert (Hsame : sim (db_journal (db_journal t j) J) s).
    { do 2 apply sim_journal. by rewrite He. }
    split_and!; [split | | exact Hsame].
    + by do 2 apply wf_journal.
    + cbn. rewrite (undo_access _ _ _ Hr). apply Hs2.
    + cbn. eapply Forall_impl; [exact Hrev | cbn]. unfold id in *. lia.
    + intros a. rewrite (code_or_empty_sim u64 _ s a Hsame). apply Hs.
    + split; [exists []; cbn; by rewrite app_nil_r | split; [cbn; unfold id in *; lia |]]. exists [], (db_journal (db_journal t j) J).
      rewrite app_nil_r. split_and!; [done | done | by do 2 apply wf_journal | done |].
      intros a. by apply (code_or_empty_sim u64).
Qed.

Lemma db_code_ok s a : db_inv s -> hash_ok (fst (db_code s a)) (snd (db_code s a)).
Proof using Type.
  intros Hs. pose proof (inv_code _ Hs a) as [_ Hh]. unfold code_or_empty, db_code in *. by destruct (live s a).
Qed.

Lemma snapshot_same s s1 id : Ret (Snapshot s) = Ret (s1, id) -> sim s1 s.
Proof using Type. intros [= <- <-]. by apply sim_journal. Qed.

Lemma step_code s s' a : db_step s s' -> snd (db_code s a) <> [] -> db_code s' a = db_code s a.
Proof using Type.
  intros (_ & _ & es & s2 & _ & _ & _ & _ & Hc) Hn. specialize (Hc a). unfold code_or_empty, db_code in *.
  destruct (code_changed (own es) a); [destruct Hc as [Hc _] |]; destruct (live s a) as [o |]; try done.
  - rewrite Hc in Hn. done.
  - destruct (live s' a) as [o' |]; [done |]. rewrite <- Hc in Hn. done.
Qed.

(** The contract of [MachineLaws] holds of the state database: what the machine's
    theorems say of any account state with this contract they say of the program's. *)
#[global] Instance StateDB_laws : StateDBLaws StateDB_interface cr env.
Proof using rok.
  refine (Build_StateDBLaws StateDB_interface cr env db_inv db_step sim db_exists db_code
    step_refl _ _ _ (fun s t a => code_at_sim s t a) (fun s a => db_code_ok s a) step_code GetBalance_acts SubBalance_acts AddBalance_acts GetNonce_acts SetNonce_acts
    GetCodeHash_acts GetCode_acts GetStorageRoot_acts GetState_acts SetState_acts _ SetTransientState_acts
    Selfdestruct6780_acts _ _ _ SlotInAccessList_acts AddAddressToAccessList_acts AddSlotToAccessList_acts AddLog_acts
    AppendJournal_acts CreateAccount_returns CreateContract_returns SetCode_returns Snapshot_returns snapshot_same).
  - intros s t u _. apply step_trans.
  - intros s. reflexivity.
  - intros s t u. apply transitivity.
  - intros a k. by apply quiet_acts.
  - intros a. apply quiet_acts. intros s _. apply Exist_spec.
  - intros a. by apply quiet_acts.
  - intros a. by apply quiet_acts.
Defined.

Lemma New_StateDB_inv : db_inv New_StateDB.
Proof using rok.
  split; [split; [done | by vm_compute] | apply newAccessList_ok | constructor |].
  intros a. unfold code_or_empty, live, getStateObject. cbn. rewrite !lookup_empty. destruct (reader_Account a) as [acct |] eqn:E; cbn.
  - unfold obj_code. rewrite code_of_eq. cbn. split; [by eapply reader_hash |]. cbn.
    destruct (Z.eqb_spec (sa_CodeHash acct) EmptyCodeHash); [by split | by apply reader_code].
  - by split.
Qed.

End Laws.
