(* ===== verification/Termination.v ===== *)
(** * Which runs end

    Gas is computed and not charged, so nothing bounds a run from outside. This file
    shows what does end, and that more fuel changes nothing once it is enough:

    - code without jumps, calls and creations ends within one unit of fuel per byte of
      code, whatever the input, the stack and the state;
    - a run that ended with some fuel ends the same way with more. *)
From Stdlib Require Import ZArith Lia.
From stdpp Require Import base gmap strings list.
From S2P Require Import Prelude Utils JournalTypes StateDB Analysis Machine Evm Instructions Interpreter.
From S2P Require Import MachineLaws EvmProofs FrameLogic InstructionProofs InterpreterProofs.

Section Steady.
Context `{w : Uint256} `{sdb : StateDBI} `{cr : Crypto} `{cfg : Config} `{env : NodeEnv} `{rem : Remote} `{ctx : EvmEnv}.

(** ** Computations that end *)

Definition calm {A} (c : E A) : Prop := forall m, c m <> Spin.

(** Ends, and leaves the program counter and the code alone. *)
Definition steady {A} (c : I A) : Prop :=
  forall f m, match c f m with
              | Val (_, f', _) => pc f' = pc f /\ Code (contract f') = Code (contract f)
              | Crash _ => True
              | Spin => False
              end.

Lemma calm_bind {A B} (c : E A) (k : A -> E B) : calm c -> (forall a, calm (k a)) -> calm (c ≫= k).
Proof using Type.
  intros Hc Hk m. unfold mbind, E_bind. specialize (Hc m). destruct (c m) as [[a m'] | |]; [apply Hk | done | done].
Qed.

Lemma calm_of {A} (o : outcome A) : calm (E_of o).
Proof using Type. intros m. by destruct o. Qed.

Lemma calm_db {A} (op : SDB -> outcome (SDB * A)) : calm (on_db op).
Proof using Type. intros m. unfold on_db. by destruct (op (db m)) as [[s a] |]. Qed.

Lemma steady_bind {A B} (c : I A) (k : A -> I B) : steady c -> (forall a, steady (k a)) -> steady (c ≫= k).
Proof using Type.
  intros Hc Hk f m. unfold mbind, I_bind. specialize (Hc f m). destruct (c f m) as [[[a f'] m'] | |]; [| done | done].
  specialize (Hk a f' m'). destruct (k a f' m') as [[[b f2] m2] | |]; [| done | done]. destruct Hc, Hk. split; congruence.
Qed.

Lemma steady_ret {A} (a : A) : steady (mret a).
Proof using Type. done. Qed.

Lemma steady_frame : steady frame.
Proof using Type. done. Qed.

Lemma steady_update g : (forall f, pc (g f) = pc f /\ Code (contract (g f)) = Code (contract f)) -> steady (update g).
Proof using Type. intros Hg f m. apply Hg. Qed.

Lemma steady_evm {A} (c : E A) : calm c -> steady (evm c).
Proof using Type. intros Hc f m. unfold evm. specialize (Hc m). by destruct (c m) as [[a m'] | |]. Qed.

Lemma steady_try {A} (o : outcome A) : steady (try o).
Proof using Type. apply steady_evm, calm_of. Qed.

Lemma steady_pop : steady pop.
Proof using Type. intros [p st s g c] m. by destruct st. Qed.

Lemma steady_push x : steady (push x).
Proof using Type. done. Qed.

Lemma steady_back n : steady (back n).
Proof using Type. apply steady_bind; [done | intros f; apply steady_try]. Qed.

Lemma steady_set_top x : steady (set_top x).
Proof using Type. apply steady_bind; [apply steady_pop | done]. Qed.

Lemma steady_on_store op : steady (on_store op).
Proof using Type. apply steady_bind; [done | intros f]. apply steady_bind; [apply steady_try | by intros]. Qed.

Lemma steady_read_store op : steady (read_store op).
Proof using Type. apply steady_bind; [done | intros f; apply steady_try]. Qed.

Lemma steady_pop_topics n : steady (pop_topics n).
Proof using Type.
  induction n as [| n IH]; [done |]. apply steady_bind; [apply steady_pop | intros x].
  by apply steady_bind; [| intros].
Qed.

Lemma steady_swap n : steady (swap n).
Proof using Type.
  apply steady_bind; [done | intros f]. apply steady_bind; [apply steady_back | intros x].
  by apply steady_bind; [apply steady_back | intros y].
Qed.
End Steady.

Ltac calm1 :=
  lazymatch goal with
  | |- calm (mbind _ _) => apply calm_bind; [| intros]
  | |- calm (on_db _) => apply calm_db
  | |- calm (E_of _) => apply calm_of
  | |- calm (if ?b then _ else _) => destruct b
  | |- calm _ => done
  end.

Ltac head_of c := lazymatch c with ?f _ => head_of f | _ => c end.

Ltac steady1 :=
  lazymatch goal with
  | |- steady (mbind _ _) => apply steady_bind; [| intros]
  | |- steady (mret _) => apply steady_ret
  | |- steady frame => apply steady_frame
  | |- steady ok => apply steady_ret
  | |- steady (fail _) => apply steady_ret
  | |- steady pop => apply steady_pop
  | |- steady peek => apply steady_back
  | |- steady (back _) => apply steady_back
  | |- steady (push _) => apply steady_push
  | |- steady (set_top _) => apply steady_set_top
  | |- steady (try _) => apply steady_try
  | |- steady (on_store _) => apply steady_on_store
  | |- steady (read_store _) => apply steady_read_store
  | |- steady (pop_topics _) => apply steady_pop_topics
  | |- steady (swap _) => apply steady_swap
  | |- steady (update _) => apply steady_update; done
  | |- steady (evm (shard_of _)) => apply steady_evm, calm_of
  | |- steady (evm _) => apply steady_evm; repeat calm1
  | |- steady (if ?b then _ else _) => destruct b
  | |- steady (let '(_, _) := ?x in _) => destruct x
  | |- steady (match ?x with _ => _ end) => destruct x
  | |- steady ?c => let h := head_of c in unfold h
  end.
Ltac steady := repeat steady1.

Section Table.
Context `{w : Uint256} `{sdb : StateDBI} `{cr : Crypto} `{cfg : Config} `{env : NodeEnv} `{rem : Remote} `{ctx : EvmEnv}.

(** ** Straight-line instructions *)

(** Not a jump, a call or a creation. *)
Definition straight (op : Z) : bool :=
  negb (existsb (Z.eqb op) [0x56; 0x57; 0xf0; 0xf1; 0xf2; 0xf4; 0xf5; 0xfa]).

(** Ends, keeps the code and does not step back; at most 32 bytes are skipped. *)
Definition advances (c : I Result) : Prop :=
  forall f m, 0 <= pc f < 2 ^ 63 ->
    match c f m with
    | Val (_, f', _) => pc f <= pc f' <= pc f + 32 /\ Code (contract f') = Code (contract f)
    | Crash _ => True
    | Spin => False
    end.

Lemma steady_advances c : steady c -> advances c.
Proof using Type. intros Hc f m Hp. specialize (Hc f m). destruct (c f m) as [[[r f'] m'] | |]; [| done | done]. intuition lia. Qed.

Definition entry_steady (o : operation) : Prop :=
  advances (execute o) /\ match dynamicGas o with Some g => forall b, steady (g b) | None => True end.

Lemma op0_steady e k pops pushes : steady e -> entry_steady (op0 e k pops pushes).
Proof using Type. intros He. split; [by apply steady_advances | done]. Qed.

Lemma op_gas_steady e k g pops pushes : steady e -> (forall b, steady (g b)) -> entry_steady (op_gas e k g pops pushes).
Proof using Type. intros He Hg. split; [by apply steady_advances | done]. Qed.

Lemma op_mem_steady e k g pops pushes size :
  steady e -> (forall b, steady (g b)) -> entry_steady (op_mem e k g pops pushes size).
Proof using Type. intros He Hg. split; [by apply steady_advances | done]. Qed.

(** A step of the program counter within an instruction, then something steady. *)
Lemma advances_step n (k : unit -> I Result) :
  0 <= n <= 32 -> (forall u, steady (k u)) -> advances (_ ← Instructions.update (fun f => with_pc f (u64 (pc f + n))); k tt).
Proof using Type.
  intros Hn Hk f m Hp. unfold mbind, I_bind, Instructions.update. specialize (Hk tt (with_pc f (u64 (pc f + n))) m).
  assert (Hu : u64 (pc f + n) = pc f + n) by (apply u64_small; unfold is_u64; lia).
  destruct (k tt _ m) as [[[r f'] m'] | |]; [| done | done]. destruct Hk as [Hk1 Hk2]. cbn in Hk1, Hk2.
  rewrite Hk1, Hu. split; [lia | done].
Qed.

Lemma opPush1_advances : advances opPush1.
Proof using Type. apply (advances_step 1 (fun _ => _)); [lia | intros _]. steady. Qed.

Lemma makePush_advances n : 0 <= n <= 32 -> advances (makePush n n).
Proof using Type.
  intros Hn f m Hp. unfold makePush. unfold mbind, I_bind, frame, try, evm, E_of. cbn -[slice RightPadBytes u64].
  destruct (slice _ _ _) as [d |]; [| done]. cbn -[RightPadBytes u64].
  rewrite u64_small by (unfold is_u64; lia). split; [lia | done].
Qed.

Ltac entry :=
  lazymatch goal with
  | |- straight _ = true -> entry_steady (op0 opPush1 _ _ _) => intros _; split; [apply opPush1_advances | done]
  | |- straight ?op = true -> _ =>
      let b := eval vm_compute in (straight op) in
      lazymatch b with
      | false => intros H; vm_compute in H; discriminate H
      | true => intros _
      end
  end;
  lazymatch goal with
  | |- entry_steady (op0 _ _ _ _) => apply op0_steady
  | |- entry_steady (op_gas _ _ _ _ _) => apply op_gas_steady; [| intros]
  | |- entry_steady (op_mem _ _ _ _ _ _) => apply op_mem_steady; [| intros]
  | |- _ => idtac
  end; steady.
Ltac entries := repeat (apply Forall_cons_2; [cbn [fst snd]; entry |]); apply Forall_nil_2.

Lemma arithmetic_steady : Forall (fun e => straight (fst e) = true -> entry_steady (snd e)) arithmetic.
Proof using Type. unfold arithmetic. entries. Qed.

Lemma environment_steady : Forall (fun e => straight (fst e) = true -> entry_steady (snd e)) environment.
Proof using Type. unfold environment. entries. Qed.

Lemma memory_and_control_steady : Forall (fun e => straight (fst e) = true -> entry_steady (snd e)) memory_and_control.
Proof using Type. unfold memory_and_control. entries. Qed.

Context (run : Contract -> list Z -> bool -> E (list Z * option vmerr * Z)).

Lemma calls_steady : Forall (fun e => straight (fst e) = true -> entry_steady (snd e)) (calls run).
Proof using Type. unfold calls. entries. Qed.

Lemma pushes_steady : Forall (fun e => straight (fst e) = true -> entry_steady (snd e)) pushes.
Proof using Type.
  apply Forall_map, Forall_forall. intros n Hn%elem_of_seq _. cbn. split; [apply makePush_advances; lia | done].
Qed.

Lemma dups_steady : Forall (fun e => straight (fst e) = true -> entry_steady (snd e)) dups.
Proof using Type. apply Forall_map, Forall_true. intros n _. apply op0_steady. steady. Qed.

Lemma swaps_steady : Forall (fun e => straight (fst e) = true -> entry_steady (snd e)) swaps.
Proof using Type. apply Forall_map, Forall_true. intros n _. apply op0_steady. steady. Qed.

Lemma logs_steady : Forall (fun e => straight (fst e) = true -> entry_steady (snd e)) logs_ops.
Proof using Type. apply Forall_map, Forall_true. intros n _. apply op_mem_steady; [| intros]; steady. Qed.

Lemma lookup_op_steady op : straight op = true -> entry_steady (lookup_op run op).
Proof using Type.
  intros Hs. unfold lookup_op. destruct (find _ _) as [e |] eqn:Ef.
  - apply find_some in Ef as [Hin He%Z.eqb_eq]. apply list_elem_of_In in Hin. subst op.
    assert (Hall : Forall (fun e => straight (fst e) = true -> entry_steady (snd e)) (cancunInstructionSet run)).
    { unfold cancunInstructionSet. repeat apply Forall_app_2; auto using arithmetic_steady, environment_steady,
        memory_and_control_steady, calls_steady, pushes_steady, dups_steady, swaps_steady, logs_steady. }
    exact (proj1 (Forall_forall _ _) Hall e Hin Hs).
  - split; [| done]. apply steady_advances. cbn. steady.
Qed.

(** ** The loop *)

Lemma steady_required_memory o : steady (required_memory o).
Proof using Type.
  unfold required_memory. destruct (memorySize o); [| done]. apply steady_bind; [done | intros f].
  apply steady_bind; [apply steady_try | intros [n []]]; [done |]. by destruct (SafeMul _ _) as [b []].
Qed.

Lemma steady_prepare o : entry_steady o -> steady (prepare o).
Proof using Type.
  intros [_ Hg]. unfold prepare. destruct (dynamicGas o) as [g |]; [| done].
  apply steady_bind; [apply steady_required_memory | intros [b |]]; [| done].
  apply steady_bind; [apply Hg | intros r]. apply steady_bind; [| done]. destruct (0 <? b); [apply steady_on_store | done].
Qed.

(** An iteration on straight-line code ends the run or goes forward. *)
Lemma iteration_forward f m :
  Forall (fun b => straight b = true) (Code (contract f)) -> short (Code (contract f)) -> 0 <= pc f <= zlen (Code (contract f)) + 32 ->
  match iteration run f m with
  | Val (None, f', _) => pc f < pc f' <= pc f + 33 /\ pc f < zlen (Code (contract f)) /\ Code (contract f') = Code (contract f)
  | Spin => False
  | _ => True
  end.
Proof using Type.
  intros Hc Hs Hp. unfold short in Hs. unfold iteration, mbind. cbn -[GetOp lookup_op u64].
  unfold I_bind at 1, try, evm, E_of. destruct (GetOp (contract f) (pc f)) as [op |] eqn:Eop; [| done].
  assert (Hop : straight op = true /\ (pc f < zlen (Code (contract f)) \/ op = 0)).
  { unfold GetOp in Eop. destruct (Z.ltb_spec (pc f) (zlen (Code (contract f)))); [| by injection Eop as <-; auto].
    split; [| by left]. unfold idx in Eop. destruct (Z.ltb_spec (pc f) 0); [done |].
    destruct (Code (contract f) !! Z.to_nat (pc f)) as [b |] eqn:Eb; [| done]. injection Eop as <-.
    rewrite Forall_lookup in Hc. by eapply Hc. }
  destruct Hop as [Hop Hend]. pose proof (lookup_op_steady op Hop) as Ho.
  destruct (zlen (stack f) <? _); [done |]. destruct (_ <? zlen (stack f)); [done |].
  unfold I_bind at 1. pose proof (steady_prepare _ Ho f m) as Hpre.
  destruct (prepare _ f m) as [[[[e |] f1] m1] | |]; [done | | done | done]. destruct Hpre as [Hp1 Hc1].
  unfold I_bind at 1. pose proof (proj1 Ho f1 m1) as Hex. rewrite Hp1 in Hex.
  destruct Hend as [Hend | ->].
  - specialize (Hex ltac:(lia)). destruct (execute _ f1 m1) as [[[[r [e |]] f2] m2] | |]; [done | | done | done].
    cbn -[u64]. rewrite u64_small by (unfold is_u64; lia). destruct Hex. split_and!; [lia | lia | lia | congruence].
  - done.
Qed.
End Table.

Section Straight.
Context `{w : Uint256} `{sdb : StateDBI} `{cr : Crypto} `{cfg : Config} `{env : NodeEnv} `{rem : Remote} `{ctx : EvmEnv}.

Lemma loop_straight fuel f m :
  Forall (fun b => straight b = true) (Code (contract f)) -> short (Code (contract f)) ->
  0 <= pc f <= zlen (Code (contract f)) + 32 -> zlen (Code (contract f)) - pc f < Z.of_nat fuel -> (0 < fuel)%nat ->
  loop fuel f m <> Spin.
Proof using Type.
  revert f m. induction fuel as [| fuel IH]; intros f m Hc Hs Hp Hf Hpos; [lia |]. cbn [loop].
  pose proof (iteration_forward (enter (loop fuel)) f m Hc Hs Hp) as H.
  destruct (iteration _ f m) as [[[[r |] f1] m1] | |]; [done | | done | done]. destruct H as (Hp1 & Hlt & Hc1).
  apply IH; rewrite ?Hc1; [done | done | lia | lia | lia].
Qed.

Lemma Run_straight fuel c input ro m :
  Forall (fun b => straight b = true) (Code c) -> short (Code c) -> (length (Code c) < fuel)%nat ->
  Run fuel c input ro m <> Spin.
Proof using Type.
  intros Hc Hs Hf. unfold Run, enter, mbind, E_bind, modify, gets. cbn -[loop].
  set (m1 := with_returnData _ _). destruct (Code c) as [| b l] eqn:E; [done |].
  pose proof (loop_straight fuel (mkFrame 0 [] [] 0 (set_Input c input)) m1) as H. cbn [contract pc set_Input Code] in H.
  rewrite E in H. specialize (H Hc Hs). unfold zlen in H.
  destruct (loop fuel _ m1) as [[[r f] m2] | |]; [done | done |]. destruct H; [lia | lia | lia | done].
Qed.
End Straight.

Section Termination.
Context `{w : Uint256} `{sdb : StateDBI} `{cr : Crypto} `{cfg : Config} `{env : NodeEnv} `{rem : Remote} `{ctx : EvmEnv}.
Context `{laws : !StateDBLaws sdb cr env} `{hyps : !EvmAssumptions cr cfg env rem ctx} `{wok : !Uint256Ok w}.

(** C29: code without jumps, calls and creations ends: with one unit of fuel more than it
    has bytes, a run returns a result in a machine that is in order, or crashes for want
    of memory or over a nil pointer of the context. It never runs on. *)
Theorem straight_line_terminates fuel c input ro m :
  CInv c -> short input -> MInv m -> Forall (fun b => straight b = true) (Code c) -> (length (Code c) < fuel)%nat ->
  (exists r m', Run fuel c input ro m = Val (r, m') /\ MInv m') \/
  (exists why, Run fuel c input ro m = Crash why /\ allowed why).
Proof using hyps wok.
  intros Hc Hi Hm Hs Hf. pose proof (Run_ok fuel c input ro m Hc Hi Hm) as H. unfold wpE in H.
  pose proof (Run_straight fuel c input ro m Hs (proj1 (ci_hash _ Hc)) Hf) as Hns.
  destruct (Run fuel c input ro m) as [[r m'] | why |]; [| by eauto | done]. left. exists r, m'. split; [done | apply H].
Qed.
End Termination.

(** ** More fuel *)

Section Fuel.
Context `{w : Uint256} `{sdb : StateDBI} `{cr : Crypto} `{cfg : Config} `{env : NodeEnv} `{rem : Remote} `{ctx : EvmEnv}.

(** [c'] does what [c] does, unless [c] runs out of fuel. *)
Definition E_le {A} (c c' : E A) : Prop := forall m, c m = Spin \/ c m = c' m.
Definition I_le {A} (c c' : I A) : Prop := forall f m, c f m = Spin \/ c f m = c' f m.

Lemma E_le_refl {A} (c : E A) : E_le c c.
Proof using Type. by right. Qed.

Lemma I_le_refl {A} (c : I A) : I_le c c.
Proof using Type. by right. Qed.

Lemma E_le_bind {A B} (c c' : E A) (k k' : A -> E B) : E_le c c' -> (forall a, E_le (k a) (k' a)) -> E_le (c ≫= k) (c' ≫= k').
Proof using Type.
  intros Hc Hk m. unfold mbind, E_bind. destruct (Hc m) as [-> | <-]; [by left |].
  destruct (c m) as [[a m'] | |]; [apply Hk | by right | by right].
Qed.

Lemma I_le_bind {A B} (c c' : I A) (k k' : A -> I B) : I_le c c' -> (forall a, I_le (k a) (k' a)) -> I_le (c ≫= k) (c' ≫= k').
Proof using Type.
  intros Hc Hk f m. unfold mbind, I_bind. destruct (Hc f m) as [-> | <-]; [by left |].
  destruct (c f m) as [[[a f'] m'] | |]; [apply Hk | by right | by right].
Qed.

Lemma I_le_evm {A} (c c' : E A) : E_le c c' -> I_le (evm c) (evm c').
Proof using Type. intros Hc f m. unfold evm. destruct (Hc m) as [-> | <-]; [by left | by right]. Qed.

Context (run run' : Contract -> list Z -> bool -> E (list Z * option vmerr * Z)).
Context (Hle : forall c input ro, E_le (run c input ro) (run' c input ro)).

Ltac le1 :=
  lazymatch goal with
  | |- E_le ?c ?c => apply E_le_refl
  | |- I_le ?c ?c => apply I_le_refl
  | |- E_le (run _ _ _) _ => apply Hle
  | |- E_le (mbind _ _) _ => apply E_le_bind; [| intros]
  | |- I_le (mbind _ _) _ => apply I_le_bind; [| intros]
  | |- I_le (evm _) _ => apply I_le_evm
  | |- E_le (if ?b then _ else _) _ => destruct b
  | |- E_le (match ?x with _ => _ end) _ => destruct x
  | |- I_le (if ?b then _ else _) _ => destruct b
  | |- I_le (match ?x with _ => _ end) _ => destruct x
  | |- I_le (execute _) _ => idtac
  | |- E_le ?c _ => let h := head_of c in unfold h
  | |- I_le ?c _ => let h := head_of c in unfold h
  end.
Ltac le := repeat (progress le1).

(** The tables differ in the calls and creations only. *)
Lemma lookup_op_le op :
  let o := lookup_op run op in let o' := lookup_op run' op in
  I_le (execute o) (execute o') /\ dynamicGas o = dynamicGas o' /\ minStack o = minStack o' /\ maxStack o = maxStack o' /\
  memorySize o = memorySize o'.
Proof using Hle.
  assert (Hcalls : Forall2 (fun e e' => fst e = fst e' /\ I_le (execute (snd e)) (execute (snd e')) /\
    dynamicGas (snd e) = dynamicGas (snd e') /\ minStack (snd e) = minStack (snd e') /\ maxStack (snd e) = maxStack (snd e') /\
    memorySize (snd e) = memorySize (snd e')) (cancunInstructionSet run) (cancunInstructionSet run')).
  { unfold cancunInstructionSet. repeat (apply Forall2_app; [apply Forall_Forall2_diag, Forall_true; intros; split_and!; try done; apply I_le_refl |]).
    unfold calls. repeat (apply Forall2_cons_2;
      [cbn [fst snd op_mem op_gas execute dynamicGas minStack maxStack memorySize];
       refine (conj eq_refl (conj _ (conj eq_refl (conj eq_refl (conj eq_refl eq_refl))))); le |]).
    apply Forall2_nil_2. }
  unfold lookup_op. induction Hcalls as [| e e' l l' (He & Hx) _ IH]; cbn [find].
  - split_and!; try done. apply I_le_refl.
  - rewrite <- He. destruct (fst e =? op); [done | exact IH].
Qed.

Lemma iteration_le : I_le (iteration run) (iteration run').
Proof using Hle.
  unfold iteration. apply I_le_bind; [apply I_le_refl | intros f]. apply I_le_bind; [apply I_le_refl | intros op].
  destruct (lookup_op_le op) as (Hx & Hg & Hmin & Hmax & Hsz). unfold prepare, required_memory. rewrite Hg, Hmin, Hmax, Hsz.
  le; exact Hx.
Qed.
End Fuel.

Section Monotone.
Context `{w : Uint256} `{sdb : StateDBI} `{cr : Crypto} `{cfg : Config} `{env : NodeEnv} `{rem : Remote} `{ctx : EvmEnv}.

Lemma enter_le (l l' : Frame -> E (Result * Frame)) c input ro :
  (forall f, E_le (l f) (l' f)) -> E_le (enter l c input ro) (enter l' c input ro).
Proof using Type.
  intros Hl. unfold enter. do 4 (apply E_le_bind; [apply E_le_refl | intros]).
  apply E_le_bind; [| intros; apply E_le_refl]. destruct (Code c); [apply E_le_refl |].
  apply E_le_bind; [apply Hl | intros; apply E_le_refl].
Qed.

Lemma loop_le fuel fuel' f : (fuel <= fuel')%nat -> E_le (loop fuel f) (loop fuel' f).
Proof using Type.
  revert fuel' f. induction fuel as [| fuel IH]; intros fuel' f Hle m; [by left |].
  destruct fuel' as [| fuel']; [lia |]. cbn [loop].
  destruct (iteration_le (enter (loop fuel)) (enter (loop fuel')) (fun c i r => enter_le _ _ c i r (fun f => IH fuel' f ltac:(lia))) f m)
    as [-> | <-]; [by left |].
  destruct (iteration _ f m) as [[[[r |] f1] m1] | |]; [by right | apply IH; lia | by right | by right].
Qed.

(** The fuel of a run is only a bound. A run that ended, in a result or in a crash,
    ends the same way with any larger amount: the model's runs approximate one
    execution of the code. *)
Theorem Run_fuel fuel fuel' c input ro m :
  (fuel <= fuel')%nat -> Run fuel c input ro m <> Spin -> Run fuel' c input ro m = Run fuel c input ro m.
Proof using Type.
  intros Hf Hr. destruct (enter_le (loop fuel) (loop fuel') c input ro (fun f => loop_le fuel fuel' f Hf) m); [done | by symmetry].
Qed.
End Monotone.
