(* ===== verification/Execution.v ===== *)
(** * Executing one transaction on the account state

    Models [ExeTx] of [chain/blockchain.go] with the functions it is made of:
    [ApplyTransactionWithEVM], [Get_PartitionMap], [isZeroArray] and the messages the
    leader sends. The interpreter behind [vm.ApplyMessage] is an argument
    ([ApplyMessage]): a function of the state, the message and the header that gives
    the new state and either a result or an error. *)
From Stdlib Require Import ZArith Lia Ascii.
From stdpp Require Import base gmap strings list fin_maps.
From S2P Require Import Prelude Utils JournalTypes Core AccessList StateDB StateDBSim StateDBProofs.

(** ** The virtual machine's interface *)

(** [vm.ExecutionResult]; [res_Err] is the text of [Err], empty for nil. *)
Record ExecutionResult := mkExecutionResult {
  UsedGas : Z;
  RefundedGas : Z;
  res_Err : string;
  ReturnData : list Z;
  ContractAddr : Z
}.

Class EVM := {
  ApplyMessage : StateReader -> StateDB -> Transaction -> BlockHeader -> string ->
                 outcome (StateDB * (ExecutionResult + string))
}.

(** ** Messages to the supervisor *)

Record TxInfo := mkTxInfo {
  ti_TxHash : string; ti_IsContract : bool; ti_GasUsed : Z; ti_GasPrice : Z; ti_GasLimit : Z;
  ti_IsSuccess : bool; ti_ExecuteTime : Z; ti_From : Z; ti_To : Z; ti_Input : list Z; ti_Value : Z;
  ti_UUID : string; ti_Res : list Z
}.

Inductive ExeMsg :=
| CTxInfo (m : TxInfo)
| CContractCreateSuccess (shard : Z) (addr : Z)
| CContractExecuteSuccess (shard : Z) (addr : Z)
| OpExeLogOrRollback (m : RollbackMsg).

(** The partition map of the process ([global.PartitionMap]). *)
Abbreviation PartitionMap := (gmap string Z).

Definition Update_PartitionMap (pm : PartitionMap) (key : string) (v : Z) : PartitionMap := <[key := v]> pm.

Section Execution.
Context `{cfg : Config} `{rd : StateReader} `{env : NodeEnv} `{vm : EVM}.

Definition Get_PartitionMap (pm : PartitionMap) (key : string) : outcome Z :=
  match pm !! key with
  | None => s ← Addr2Shard key; Ret (u64 s)
  | Some v => Ret v
  end.

(** [ApplyTransactionWithEVM]: a result that carries an error is an error. *)
Definition ApplyTransactionWithEVM (s : StateDB) (tx : Transaction) (bh : BlockHeader)
  : outcome (StateDB * (ExecutionResult + string)) :=
  r ← ApplyMessage rd s tx bh (UUID tx);
  let '(s1, res) := r in
  match res with
  | inr err => Ret (s1, inr err)
  | inl x => if decide (res_Err x = "") then Ret (s1, inl x) else Ret (s1, inr (res_Err x))
  end.

Definition bytes_Z (s : string) : list Z := map (fun c => Z.of_N (N_of_ascii c)) (bytes_of s).

(** [common.Hash(tx.TxHash)]: the conversion panics on fewer than 32 bytes. *)
Definition common_Hash (h : string) : outcome Z :=
  if strlen h <? 32 then Panic "slice to array conversion" else Ret (bytes_to_Z (take 32 (bytes_Z h))).

(** The entries of the journal since a snapshot, copied and wrapped: what the leader
    puts in [tx.Log]. *)
Definition journal_log (j : journal) (snap : Z) : outcome (list Wrapper) :=
  let c := journal_Copy j in
  r ← deref (ValidRevisions c !! search_revision (ValidRevisions c) snap);
  Ret (map wrap (drop (Z.to_nat (JournalIndex r)) (Entries c))).

Definition tx_set_log (l : list Wrapper) (t : Transaction) : Transaction :=
  mkTransaction (Sender t) (Recipient t) (Nonce t) (Signature t) (Value t) (Txtype t) (Fee t)
    (TxHash t) (Time t) (Relayed t) (HasBroker t) (SenderIsBroker t) (IsAllocatedSender t)
    (IsAllocatedRecipent t) (OriginalSender t) (FinalRecipient t) (RawTxHash t) (Isbrokertx1 t)
    (Isbrokertx2 t) (ShouldHandleInBlock t) (IncreaseOrDecrease t) (Gas t) (GasPrice t) (To t)
    (From t) (Data t) (IsContract t) (IsBrokerContract t) l (UUID t).

(** The stored outcome of a contract transaction, also [m.Res]: the address of a
    created contract, the returned data, or the error text. *)
Definition contract_res (res : ExecutionResult + string) : list Z :=
  match res with
  | inl r => if ContractAddr r =? 0 then ReturnData r else be_bytes 20 (ContractAddr r)
  | inr err => bytes_Z err
  end.

Definition tx_info (now : Z) (tx : Transaction) (price : Z) (res : ExecutionResult + string) : TxInfo :=
  mkTxInfo (TxHash tx) true (match res with inl r => UsedGas r | inr _ => 0 end) (u64 price) (Gas tx)
    (match res with inl r => bool_decide (res_Err r = "") | inr _ => false end) now (From tx) (To tx)
    (Data tx) (Value tx) (UUID tx) (contract_res res).

(** The messages of a broker contract: [res] is nil after an error. *)
Definition broker_contract_msgs (tx : Transaction) (res : ExecutionResult + string) : outcome (list ExeMsg) :=
  if negb (IsBrokerContract tx) then Ret []
  else match res with
       | inr _ => Panic "nil dereference"
       | inl r =>
           if To tx =? 0 then Ret [CContractCreateSuccess ShardID (ContractAddr r)]
           else if decide (res_Err r = "") then Ret [CContractExecuteSuccess ShardID (From tx)] else Ret []
       end.

(** What executing a transaction yields: the state, the transaction (its log is
    filled in), the stored contract result and the messages. *)
Record ExeResult := mkExeResult {
  er_state : StateDB; er_tx : Transaction; er_stored : option (string * list Z); er_msgs : list ExeMsg
}.

(** The leader's half of [ExeTx] for contract transactions. *)
Definition exe_contract (now : Z) (s : StateDB) (tx : Transaction) (bh : BlockHeader) (i : Z) : outcome ExeResult :=
  price ← deref (GasPrice tx);
  let '(s1, snap) := Snapshot s in
  h ← common_Hash (TxHash tx);
  r ← ApplyTransactionWithEVM (SetTxContext s1 h i) tx bh;
  let '(s2, res) := r in
  let info := CTxInfo (tx_info now tx price res) in
  broker ← broker_contract_msgs tx res;
  match res with
  | inr _ =>
      rv ← RevertToSnapshot s2 snap;
      Ret (mkExeResult (fst rv) (tx_set_log [] tx) (Some (UUID tx, contract_res res))
             (map OpExeLogOrRollback (snd rv) ++ info :: broker))
  | inl _ =>
      log ← (match Entries (jrnl s2) with [] => Ret (Log tx) | _ => journal_log (jrnl s2) snap end);
      Ret (mkExeResult s2 (tx_set_log log tx) (Some (UUID tx, contract_res res)) (info :: broker))
  end.

(** The transfers: which balances a transaction moves on this shard. *)
Definition exe_transfer (pm : PartitionMap) (s : StateDB) (tx : Transaction) : outcome StateDB :=
  if IsAllocatedSender tx || IsAllocatedRecipent tx then
    s1 ← (if IsAllocatedSender tx then a ← address_of_hex (Sender tx); SubBalance s a (u256 (Value tx)) else Ret s);
    if IsAllocatedRecipent tx then a ← address_of_hex (Recipient tx); AddBalance s1 a (u256 (Value tx)) else Ret s1
  else
    s1 ← (if Relayed tx then Ret s
          else
            here ← Get_PartitionMap pm (Sender tx);
            if ((here =? ShardID) || HasBroker tx) && negb (Isbrokertx2 tx) then
              a ← address_of_hex (Sender tx);
              t ← SubBalance s a (u256 (Value tx));
              SubBalance t a (u256 (Fee tx))
            else Ret s);
    there ← Get_PartitionMap pm (Recipient tx);
    if ((there =? ShardID) || HasBroker tx) && negb (Isbrokertx1 tx) then
      a ← address_of_hex (Recipient tx);
      r1 ← GetBalance s1 a;
      s2 ← AddBalance (fst r1) a (u256 (Value tx));
      r2 ← GetBalance s2 a;
      Ret (fst r2)
    else Ret s1.

Definition ExeTx (now : Z) (pm : PartitionMap) (s : StateDB) (bh : BlockHeader) (i : Z) (tx : Transaction)
  : outcome ExeResult :=
  if IsContract tx then
    if NodeID =? 0 then exe_contract now s tx bh i
    else
      s1 ← for_each (fun t w => Execute t (OriginalObj w)) s (Log tx);
      Ret (mkExeResult s1 tx None [])
  else
    s1 ← exe_transfer pm s tx;
    Ret (mkExeResult s1 tx None []).

(** ** Balances *)

(** The balance of an account: a missing one starts from [Init_Balance]. *)
Definition balance_at (s : StateDB) (a : Z) : Z :=
  match live s a with Some o => sa_Balance (data o) | None => u256 Init_Balance end.

Record accounts_ok (s : StateDB) : Prop := {
  ao_wf : db_wf s;
  ao_balance : forall a, is_u256 (balance_at s a)
}.

(** What a transfer adds to the balance of [a] on this shard: [sh] and [rh] tell
    whether its sender and its recipient are accounts of this shard. *)
Definition exe_delta (sh rh : bool) (tx : Transaction) (sender recipient a : Z) : Z :=
  let pays := if IsAllocatedSender tx || IsAllocatedRecipent tx then IsAllocatedSender tx
              else negb (Relayed tx) && (sh || HasBroker tx) && negb (Isbrokertx2 tx) in
  let fee := if IsAllocatedSender tx || IsAllocatedRecipent tx then 0 else Fee tx in
  let receives := if IsAllocatedSender tx || IsAllocatedRecipent tx then IsAllocatedRecipent tx
                  else (rh || HasBroker tx) && negb (Isbrokertx1 tx) in
  (if pays && (a =? sender) then - (Value tx + fee) else 0) +
  (if receives && (a =? recipient) then Value tx else 0).

Lemma u256_add_r x y : u256 (x + u256 y) = u256 (x + y).
Proof. unfold u256. apply Zplus_mod_idemp_r. Qed.
Lemma u256_sub_r x y : u256 (x - u256 y) = u256 (x - y).
Proof. unfold u256. apply Zminus_mod_idemp_r. Qed.
Lemma u256_add_l x y : u256 (u256 x + y) = u256 (x + y).
Proof. unfold u256. apply Zplus_mod_idemp_l. Qed.
Lemma u256_sub_l x y : u256 (u256 x - y) = u256 (x - y).
Proof. unfold u256. apply Zminus_mod_idemp_l. Qed.

Lemma getOrNew_balance s a :
  Z.abs Init_Balance < 2 ^ 256 -> accounts_ok s ->
  exists s1 o, getOrNewStateObject s a = Ret (s1, o) /\ accounts_ok s1 /\ live s1 a = Some o /\
    sa_Balance (data o) = balance_at s a /\ forall b, balance_at s1 b = balance_at s b.
Proof.
  intros Hi [Hw Hb]. pose proof (journalled_load (fun z => z) (fun _ => True) s a Hw) as Hj. pose proof (live_load s a) as Hl.
  unfold getOrNewStateObject. pose proof (eq_refl (live s a)) as He. unfold live in He at 1.
  destruct (getStateObject s a) as [s1 [o |]] eqn:E; cbn in *.
  - exists s1, o. assert (Hbal : forall b, balance_at s1 b = balance_at s b) by (intros b; unfold balance_at; by rewrite Hl).
    split_and!; [done | split; [apply Hj | intros b; rewrite Hbal; apply Hb] | by rewrite Hl | | done].
    unfold balance_at. by rewrite <- He.
  - assert (Hm : MustFromBig Init_Balance = Ret (u256 Init_Balance)).
    { unfold MustFromBig. destruct (Z.ltb_spec (Z.abs Init_Balance) (2 ^ 256)); [done | lia]. }
    destruct (createObject s1 a) as [[s2 o] |] eqn:Ec.
    2: { unfold createObject in Ec. rewrite Hm in Ec. discriminate Ec. }
    destruct (journalled_create (fun z => z) (fun _ => True) s1 a s2 o) as (H1 & H2 & Hx & H3 & _); [apply Hj | by rewrite Hl | done |].
    assert (Hxo : sa_Balance (data o) = u256 Init_Balance) by congruence.
    assert (Hbal : forall b, balance_at s2 b = balance_at s b).
    { intros b. unfold balance_at. destruct (decide (b = a)) as [-> |].
      - by rewrite H2, <- He, Hxo.
      - by rewrite H3, Hl. }
    exists s2, o. split_and!; [done | split; [apply H1 | intros b; rewrite Hbal; apply Hb] | done | | done].
    unfold balance_at. by rewrite <- He.
Qed.

Lemma obj_SetBalance_balance s a o v :
  db_wf s -> live s a = Some o -> is_u256 v -> accounts_ok s ->
  accounts_ok (obj_SetBalance s o v) /\
  forall b, balance_at (obj_SetBalance s o v) b = if decide (b = a) then v else balance_at s b.
Proof.
  intros Hw Hl Hv Hok. pose proof (live_address s a o Hw Hl) as Ha.
  assert (Hb : forall b, balance_at (obj_SetBalance s o v) b = if decide (b = a) then v else balance_at s b).
  { intros b. unfold balance_at, obj_SetBalance. rewrite live_put. cbn. rewrite Ha.
    destruct (decide (b = a)); [done |]. unfold record_entry. by rewrite live_journal. }
  split; [| done]. split; [by apply put_wf, wf_journal |]. intros b. rewrite Hb. case_decide; [done | apply Hok].
Qed.

Lemma touch_balance s a o :
  live s a = Some o -> accounts_ok s -> accounts_ok (touch s o) /\ forall b, balance_at (touch s o) b = balance_at s b.
Proof.
  intros Hl [Hw Hb].
  assert (H : forall b, balance_at (touch s o) b = balance_at s b).
  { intros b. unfold balance_at, touch, record_entry. destruct (address o =? 3); by rewrite !live_journal. }
  split; [| done]. split; [| intros b; rewrite H; apply Hb].
  unfold touch, record_entry. destruct (address o =? 3); by repeat apply wf_journal.
Qed.

(** Crediting and debiting, modulo 2^256. *)
Lemma AddBalance_balance s a v :
  Z.abs Init_Balance < 2 ^ 256 -> accounts_ok s ->
  exists s', AddBalance s a (u256 v) = Ret s' /\ accounts_ok s' /\
    forall b, balance_at s' b = if decide (b = a) then u256 (balance_at s a + v) else balance_at s b.
Proof.
  intros Hi Hok. destruct (getOrNew_balance s a Hi Hok) as (s1 & o & Hg & Hok1 & Hl & Hbo & Hb).
  unfold AddBalance. rewrite Hg. cbn -[u256]. destruct (Z.eqb_spec (u256 v) 0) as [Hz | _].
  - assert (Hu : u256 (balance_at s a + v) = balance_at s a).
    { rewrite <- u256_add_r, Hz, Z.add_0_r. apply u256_small, Hok. }
    rewrite Hu. destruct (obj_empty o).
    + destruct (touch_balance s1 a o Hl Hok1) as [Ht Htb]. eexists. split_and!; [done | done |].
      intros b. rewrite Htb, Hb. case_decide; by subst.
    + eexists. split_and!; [done | done |]. intros b. rewrite Hb. case_decide; by subst.
  - destruct (obj_SetBalance_balance s1 a o (u256 (sa_Balance (data o) + u256 v))) as [H1 H2];
      [apply Hok1 | done | apply u256_range | done |].
    eexists. split_and!; [done | done |]. intros b. rewrite H2, Hbo, u256_add_r, Hb. done.
Qed.

Lemma SubBalance_balance s a v :
  Z.abs Init_Balance < 2 ^ 256 -> accounts_ok s ->
  exists s', SubBalance s a (u256 v) = Ret s' /\ accounts_ok s' /\
    forall b, balance_at s' b = if decide (b = a) then u256 (balance_at s a - v) else balance_at s b.
Proof.
  intros Hi Hok. destruct (getOrNew_balance s a Hi Hok) as (s1 & o & Hg & Hok1 & Hl & Hbo & Hb).
  unfold SubBalance. rewrite Hg. cbn -[u256]. destruct (Z.eqb_spec (u256 v) 0) as [Hz | _].
  - assert (Hu : u256 (balance_at s a - v) = balance_at s a).
    { rewrite <- u256_sub_r, Hz, Z.sub_0_r. apply u256_small, Hok. }
    rewrite Hu. eexists. split_and!; [done | done |]. intros b. rewrite Hb. case_decide; by subst.
  - destruct (obj_SetBalance_balance s1 a o (u256 (sa_Balance (data o) - u256 v))) as [H1 H2];
      [apply Hok1 | done | apply u256_range | done |].
    eexists. split_and!; [done | done |]. intros b. rewrite H2, Hbo, u256_sub_r, Hb. done.
Qed.

Lemma GetBalance_balance s a :
  Z.abs Init_Balance < 2 ^ 256 -> accounts_ok s ->
  exists s', GetBalance s a = Ret (s', balance_at s a) /\ accounts_ok s' /\ forall b, balance_at s' b = balance_at s b.
Proof.
  intros Hi Hok. destruct (getOrNew_balance s a Hi Hok) as (s1 & o & Hg & Hok1 & Hl & Hbo & Hb).
  unfold GetBalance. rewrite Hg. cbn. rewrite Hbo. eauto.
Qed.

Lemma debit_balance s a v f :
  Z.abs Init_Balance < 2 ^ 256 -> accounts_ok s ->
  exists s1 s', SubBalance s a (u256 v) = Ret s1 /\ SubBalance s1 a (u256 f) = Ret s' /\ accounts_ok s' /\
    forall b, balance_at s' b = if decide (b = a) then u256 (balance_at s a - (v + f)) else balance_at s b.
Proof.
  intros Hi Hok. destruct (SubBalance_balance s a v Hi Hok) as (s1 & H1 & Hok1 & Hb1).
  destruct (SubBalance_balance s1 a f Hi Hok1) as (s2 & H2 & Hok2 & Hb2).
  exists s1, s2. split_and!; [done.. |]. intros b. rewrite Hb2, !Hb1. rewrite (decide_True (P := a = a)) by done.
  rewrite u256_sub_l. destruct (decide (b = a)); [f_equal; lia | done].
Qed.

Lemma exe_transfer_spec pm s tx sa ra hs hr :
  Z.abs Init_Balance < 2 ^ 256 -> accounts_ok s ->
  address_of_hex (Sender tx) = Ret sa -> address_of_hex (Recipient tx) = Ret ra ->
  Get_PartitionMap pm (Sender tx) = Ret hs -> Get_PartitionMap pm (Recipient tx) = Ret hr ->
  exists s', exe_transfer pm s tx = Ret s' /\ accounts_ok s' /\
    forall a, balance_at s' a = u256 (balance_at s a + exe_delta (hs =? ShardID) (hr =? ShardID) tx sa ra a).
Proof.
  intros Hi Hok Hsa Hra Hhs Hhr. unfold exe_transfer, exe_delta.
  assert (Hid : forall t a, accounts_ok t -> u256 (balance_at t a + 0) = balance_at t a).
  { intros t a Ht. rewrite Z.add_0_r. apply u256_small, Ht. }
  destruct (IsAllocatedSender tx || IsAllocatedRecipent tx).
  - assert (exists s1, (if IsAllocatedSender tx then a ← address_of_hex (Sender tx); SubBalance s a (u256 (Value tx)) else Ret s) = Ret s1 /\
      accounts_ok s1 /\ forall a, balance_at s1 a = u256 (balance_at s a + (if IsAllocatedSender tx && (a =? sa) then - (Value tx + 0) else 0))) as (s1 & -> & Hok1 & Hb1).
    { destruct (IsAllocatedSender tx); cbn -[u256]; [| exists s; split_and!; [done | done | intros; by rewrite Hid]].
      rewrite Hsa. destruct (SubBalance_balance s sa (Value tx) Hi Hok) as (s1 & H1 & Hok1 & Hb1). exists s1.
      split_and!; [done | done |]. intros a. rewrite Hb1. destruct (Z.eqb_spec a sa) as [-> |].
      - rewrite decide_True by done. f_equal. lia.
      - by rewrite decide_False, Hid. }
    cbn -[u256]. destruct (IsAllocatedRecipent tx); cbn -[u256].
    + rewrite Hra. destruct (AddBalance_balance s1 ra (Value tx) Hi Hok1) as (s2 & H2 & Hok2 & Hb2). exists s2.
      split_and!; [done | done |]. intros a. rewrite Hb2, !Hb1. destruct (Z.eqb_spec a ra) as [-> |].
      * rewrite decide_True, u256_add_l by done. f_equal. lia.
      * rewrite decide_False by done. f_equal. lia.
    + exists s1. split_and!; [done | done |]. intros a. rewrite Hb1. f_equal. lia.
  - set (pays := negb (Relayed tx) && ((hs =? ShardID) || HasBroker tx) && negb (Isbrokertx2 tx)).
    assert (Hpay : exists s1, (if Relayed tx then Ret s else
        here ← Get_PartitionMap pm (Sender tx);
        if ((here =? ShardID) || HasBroker tx) && negb (Isbrokertx2 tx) then
          a ← address_of_hex (Sender tx); t ← SubBalance s a (u256 (Value tx)); SubBalance t a (u256 (Fee tx))
        else Ret s) = Ret s1 /\ accounts_ok s1 /\
      forall a, balance_at s1 a = u256 (balance_at s a + (if pays && (a =? sa) then - (Value tx + Fee tx) else 0))).
    { unfold pays. destruct (Relayed tx); cbn -[u256]; [exists s; split_and!; [done | done | intros; by rewrite Hid] |].
      rewrite Hhs. cbn -[u256]. destruct (((hs =? ShardID) || HasBroker tx) && negb (Isbrokertx2 tx)); cbn -[u256];
        [| exists s; split_and!; [done | done | intros; by rewrite Hid]].
      rewrite Hsa. cbn -[u256]. destruct (debit_balance s sa (Value tx) (Fee tx) Hi Hok) as (t & s1 & H1 & H2 & Hok1 & Hb1).
      rewrite H1. cbn -[u256]. exists s1. split_and!; [done | done |]. intros a. rewrite Hb1.
      destruct (Z.eqb_spec a sa) as [-> |]; [rewrite decide_True by done; f_equal; lia | by rewrite decide_False, Hid]. }
    destruct Hpay as (s1 & -> & Hok1 & Hb1). cbn -[u256]. rewrite Hhr. cbn -[u256].
    destruct (((hr =? ShardID) || HasBroker tx) && negb (Isbrokertx1 tx)); cbn -[u256].
    + rewrite Hra. cbn -[u256]. destruct (GetBalance_balance s1 ra Hi Hok1) as (t1 & -> & Hok2 & Hb2). cbn -[u256].
      destruct (AddBalance_balance t1 ra (Value tx) Hi Hok2) as (t2 & -> & Hok3 & Hb3). cbn -[u256].
      destruct (GetBalance_balance t2 ra Hi Hok3) as (t3 & -> & Hok4 & Hb4). cbn -[u256].
      exists t3. split_and!; [done | done |]. intros a. rewrite Hb4, Hb3, !Hb2, !Hb1.
      destruct (Z.eqb_spec a ra) as [-> |]; [rewrite decide_True, u256_add_l by done | rewrite decide_False by done]; f_equal; lia.
    + exists s1. split_and!; [done | done |]. intros a. rewrite Hb1. f_equal. lia.
Qed.

(** ** Theorems *)

(** An ordinary transaction moves exactly its value. On an account state with
    256-bit balances, [ExeTx] returns and changes the balance of every account, modulo
    2^256, by what the transaction's flags say: an allocated sender or recipient alone
    is debited or credited; otherwise the sender of this shard (or of a brokered
    transaction) pays value and fee unless the transaction was relayed or is the second
    half of a brokered transfer, and the recipient receives the value unless it is the
    first half. Nothing else moves and no message is sent. *)
Theorem ExeTx_transfer (now : Z) (pm : PartitionMap) (s : StateDB) (bh : BlockHeader) (i : Z) (tx : Transaction)
  (sa ra hs hr : Z) :
  Z.abs Init_Balance < 2 ^ 256 -> accounts_ok s -> IsContract tx = false ->
  address_of_hex (Sender tx) = Ret sa -> address_of_hex (Recipient tx) = Ret ra ->
  Get_PartitionMap pm (Sender tx) = Ret hs -> Get_PartitionMap pm (Recipient tx) = Ret hr ->
  exists s', ExeTx now pm s bh i tx = Ret (mkExeResult s' tx None []) /\ accounts_ok s' /\
    forall a, balance_at s' a = u256 (balance_at s a + exe_delta (hs =? ShardID) (hr =? ShardID) tx sa ra a).
Proof.
  intros Hi Hok Hc Hsa Hra Hhs Hhr. unfold ExeTx. rewrite Hc.
  destruct (exe_transfer_spec pm s tx sa ra hs hr) as (s' & -> & H1 & H2); [done.. |]. cbn. eauto.
Qed.

(** A contract transaction that fails leaves no trace in the account state: when
    the machine's run is a sequence of state operations the journal supports and ends
    in an error, the leader's [ExeTx] returns a state equivalent to the one before (up
    to the transaction context), an empty log, the error text as stored result, and no
    cross-shard rollback. *)
Theorem ExeTx_failed_contract (now : Z) (pm : PartitionMap) (s s2 : StateDB) (bh : BlockHeader) (i h price : Z)
  (tx : Transaction) (ops : list db_op) (err : string) :
  let id := nextRevisionId (jrnl s) in
  let s1 := SetTxContext s h i in
  NodeID = 0 -> IsContract tx = true -> IsBrokerContract tx = false -> GasPrice tx = Some price ->
  common_Hash (TxHash tx) = Ret h ->
  db_wf s -> Forall (fun r => Id r < id) (ValidRevisions (jrnl s)) ->
  for_each run_op (fst (Snapshot s1)) ops = Ret s2 -> ops_ok id (fst (Snapshot s1)) ops = true ->
  ApplyMessage rd (fst (Snapshot s1)) tx bh (UUID tx) = Ret (s2, inr err) ->
  exists r, ExeTx now pm s bh i tx = Ret r /\ db_equiv (er_state r) s1 /\ Log (er_tx r) = [] /\
    er_stored r = Some (UUID tx, bytes_Z err) /\ er_msgs r = [CTxInfo (tx_info now tx price (inr err))].
Proof.
  intros id s1 Hn Hc Hb Hp Hh Hw Hv Hr Hok Hm. unfold ExeTx, exe_contract, broker_contract_msgs.
  rewrite Hc, Hn, Hp, Hb, Hh. cbn -[RevertToSnapshot]. unfold ApplyTransactionWithEVM.
  change (SetTxContext (db_journal s _) h i) with (fst (Snapshot s1)). rewrite Hm. cbn -[RevertToSnapshot].
  destruct (RevertToSnapshot_spec s1 s2 ops) as (s' & Hrv & He & _); [by destruct Hw | done | done | done |].
  change (nextRevisionId (jrnl s)) with (nextRevisionId (jrnl s1)). rewrite Hrv. cbn. eexists. split; [reflexivity |]. by split_and!.
Qed.

(** A broker contract whose execution fails stops the leader: the result is nil
    and its contract address, or its error field, is read all the same. *)
Theorem ExeTx_broker_failure (now : Z) (pm : PartitionMap) (s s2 : StateDB) (bh : BlockHeader) (i h : Z)
  (tx : Transaction) (err : string) :
  NodeID = 0 -> IsContract tx = true -> IsBrokerContract tx = true -> common_Hash (TxHash tx) = Ret h ->
  ApplyMessage rd (SetTxContext (fst (Snapshot s)) h i) tx bh (UUID tx) = Ret (s2, inr err) ->
  ExeTx now pm s bh i tx = Panic "nil dereference".
Proof.
  intros Hn Hc Hb Hh Hm. unfold ExeTx, exe_contract, broker_contract_msgs. rewrite Hc, Hn, Hb, Hh.
  destruct (GasPrice tx); [| done]. cbn -[SetTxContext Snapshot] in *. unfold ApplyTransactionWithEVM.
  destruct (Snapshot s) as [t snap] eqn:E. cbn -[SetTxContext] in *. rewrite Hm. done.
Qed.
End Execution.

(** ** Witnesses *)

Definition hex0 : string := "0000000000000000000000000000000000000000".
Definition hex1 : string := "0000000000000000000000000000000000000001".
Definition hash32 : string := "0123456789abcdef0123456789abcdef".

(** A machine that touches two accounts and fails. *)
Definition failing_ops : list db_op := [OpAddBalance 7 3; OpSetState 1 9 5; OpAddLog [1]].

Definition failing_evm : EVM := {|
  ApplyMessage := fun rd s _ _ _ =>
    s' ← for_each (@run_op default_config rd sample_env) s failing_ops; Ret (s', inr "out of gas")
|}.

Definition sample_header : BlockHeader := mkBlockHeader "" "" "" 1 0 0 "" 0 "" 0.

Definition transfer_sample (a b : string) (v : Z) : Transaction :=
  mkTransaction a b 0 "" v "BKC" 0 "" 0 false false false false false "" "" "" false false false 0 0
       None 0 0 [] false false [] "".

Definition contract_call (broker : bool) : Transaction :=
  tx_set_hash hash32
    (mkTransaction "" "" 0 "" 0 "" 0 "" 0 false false false false false "" "" "" false false false 0 21000
       (Some 2) 9 8 [] true broker [] "id").

Lemma New_StateDB_wf : db_wf New_StateDB.
Proof.
  split; [intros a o H; cbn in H; by rewrite lookup_empty in H |]. split; vm_compute; [discriminate | reflexivity].
Qed.

Lemma New_StateDB_accounts : @accounts_ok default_config sample_reader New_StateDB.
Proof.
  split; [apply New_StateDB_wf |]. intros a. unfold balance_at. rewrite live_eq. cbn.
  destruct (a =? 1); cbn; split; vm_compute; congruence.
Qed.

Lemma ExeTx_transfer_witness :
  exists s', @ExeTx default_config sample_reader sample_env failing_evm 0 (<[hex1 := 2]> (<[hex0 := 2]> ∅)) New_StateDB sample_header 0
      (transfer_sample hex1 hex0 30) = Ret (mkExeResult s' (transfer_sample hex1 hex0 30) None []) /\
    @balance_at default_config sample_reader s' 1 = 470 /\ @balance_at default_config sample_reader s' 0 = 10030.
Proof.
  destruct (@ExeTx_transfer default_config sample_reader sample_env failing_evm 0 (<[hex1 := 2]> (<[hex0 := 2]> ∅)) New_StateDB
              sample_header 0 (transfer_sample hex1 hex0 30) 1 0 2 2) as (s' & H1 & _ & H2).
  - vm_compute. reflexivity.
  - apply New_StateDB_accounts.
  - reflexivity.
  - vm_compute. reflexivity.
  - vm_compute. reflexivity.
  - vm_compute. reflexivity.
  - vm_compute. reflexivity.
  - exists s'. split; [exact H1 |]. rewrite !H2. split; vm_compute; reflexivity.
Defined.

Lemma ExeTx_failed_contract_witness :
  exists r, @ExeTx default_config sample_reader sample_env failing_evm 0 ∅ New_StateDB sample_header 3 (contract_call false) = Ret r /\
    er_stored r = Some ("id", bytes_Z "out of gas") /\ Log (er_tx r) = [].
Proof.
  destruct (common_Hash hash32) as [h |] eqn:Eh; [| vm_compute in Eh; discriminate Eh].
  destruct (for_each (@run_op default_config sample_reader sample_env)
              (fst (Snapshot (SetTxContext New_StateDB h 3))) failing_ops) as [s2 |] eqn:E;
    [| vm_compute in Eh; injection Eh as <-; vm_compute in E; discriminate E].
  destruct (@ExeTx_failed_contract default_config sample_reader sample_env failing_evm 0 ∅ New_StateDB s2
              sample_header 3 h 2 (contract_call false) failing_ops "out of gas") as (r & H1 & _ & H3 & H4 & _).
  - reflexivity.
  - reflexivity.
  - reflexivity.
  - reflexivity.
  - exact Eh.
  - apply New_StateDB_wf.
  - constructor.
  - exact E.
  - clear E. vm_compute in Eh. injection Eh as <-. vm_compute. reflexivity.
  - cbn -[for_each Snapshot SetTxContext failing_ops]. rewrite E. reflexivity.
  - exists r. split; [exact H1 |]. split; [exact H4 | exact H3].
Defined.

Lemma ExeTx_broker_failure_witness :
  @ExeTx default_config sample_reader sample_env failing_evm 0 ∅ New_StateDB sample_header 3 (contract_call true)
  = Panic "nil dereference".
Proof.
  destruct (common_Hash hash32) as [h |] eqn:Eh; [| vm_compute in Eh; discriminate Eh].
  destruct (@ApplyMessage failing_evm sample_reader (SetTxContext (fst (Snapshot New_StateDB)) h 3) (contract_call true)
              sample_header "id") as [[s2 res] |] eqn:E; [| vm_compute in Eh; injection Eh as <-; vm_compute in E; discriminate E].
  apply (@ExeTx_broker_failure default_config sample_reader sample_env failing_evm 0 ∅ New_StateDB s2 sample_header 3 h
           (contract_call true) "out of gas"); [reflexivity | reflexivity | reflexivity | exact Eh |].
  vm_compute in Eh. injection Eh as <-. vm_compute in E |- *. congruence.
Defined.
