(* ===== verification/Transition.v ===== *)
(** * Applying a contract transaction

    Models [vm/state_transition.go] and the environment [ExeTx] builds for the machine
    ([NewEVMBlockContext], [NewEVMTxContext] and [NewEVM] as [chain/blockchain.go] calls
    them), and ties the machine to [Execution.v]: [machine] is an implementation of the
    interface [EVM] that [ExeTx] is written against.

    The purchase of gas ([preCheck], [buyGas], [refundGas]) is commented out at its call
    sites and [IntrinsicGas] returns zero at once, so every execution starts with no gas
    at all; what is left at the end is subtracted from zero. *)
From Stdlib Require Import ZArith Lia.
From stdpp Require Import base gmap strings list.
From S2P Require Import Prelude Utils JournalTypes Core AccessList StateDB StateDBSim StateDBProofs Execution Analysis.
From S2P Require Import Machine Evm Instructions Interpreter EvmInstances MachineLaws EvmProofs InterpreterProofs StateDBRefines.

(** The errors of [TransitionDb], and the texts of errors ([fmt.Errorf]). *)
Inductive txerr := TransferOver (from : Z) | InsufficientFunds (from value have : Z).

Class ErrorText := {
  tx_error : txerr -> string;
  vm_error : vmerr -> string
}.

(** [global.View] is zero from the construction of a node on. *)
Definition View : Z := 0.

Section Transition.
Context `{w : Uint256} `{sdb : StateDBI} `{cr : Crypto} `{cfg : Config} `{env : NodeEnv} `{rem : Remote} `{ctx : EvmEnv}.
Context `{txt : ErrorText} (run : Contract -> list Z -> bool -> E (list Z * option vmerr * Z)).

(** [core.Message], the fields that are read. *)
Record Message := mkMessage { msg_From : Z; msg_To : Z; msg_Value : Z; msg_GasPrice : Z; msg_Data : list Z }.

(** The account of a sender seen for the first time. *)
Definition ensure_sender (from : Z) : E unit :=
  exist ← on_db (i_Exist from); if exist : bool then mret tt else on_db (i_CreateAccount from).

(** The checks before the call: the value fits, and the sender has it. *)
Definition check_value (msg : Message) : E (option txerr) :=
  if 2 ^ 256 <=? Z.abs (msg_Value msg) then mret (Some (TransferOver (msg_From msg)))
  else
    let value := FromBig (msg_Value msg) in
    can ← (if IsZero value then mret true else CanTransfer (msg_From msg) value);
    if can : bool then mret None
    else
      balance ← on_db (i_GetBalance (msg_From msg));
      mret (Some (InsufficientFunds (msg_From msg) (Uint64 value) (u64 balance))).

(** The call or the creation: what it returned, the address of a new contract, the gas
    left and its error. *)
Definition apply_call (msg : Message) (UUID : string) : E (list Z * Z * Z * option vmerr) :=
  let value := FromBig (msg_Value msg) in
  if msg_To msg =? 0 then Create run (AccountRef (msg_From msg)) (msg_Data msg) 0 value UUID
  else
    n ← on_db (i_GetNonce (msg_From msg));
    _ ← on_db (i_SetNonce (msg_From msg) (u64 (n + 1)));
    '(ret, gas, err) ← Call run (AccountRef (msg_From msg)) (msg_To msg) (msg_Data msg) 0 value UUID;
    mret (ret, 0, gas, err).

(** The reward of the coinbase account: a transaction injected into its shard. *)
Definition pay_fee (gasUsed price : Z) : E unit :=
  let fee := u_Mul (SetUint64 gasUsed) (FromBig price) in
  if NodeID =? View then
    sid ← shard_of Coinbase;
    send (FeeTx (address_hex Coinbase) (i64 (Uint64 fee)) sid (node0 sid))
  else mret tt.

Definition TransitionDb (msg : Message) (UUID : string) : E (ExecutionResult + txerr) :=
  _ ← ensure_sender (msg_From msg);
  bad ← check_value msg;
  match bad with
  | Some e => mret (inr e)
  | None =>
      _ ← on_db i_Prepare;
      '(ret, addr, gasRemaining, vmerr) ← apply_call msg UUID;
      let gasUsed := u64 (0 - gasRemaining) in
      _ ← pay_fee gasUsed (msg_GasPrice msg);
      mret (inl (mkExecutionResult gasUsed 0 (from_option vm_error "" vmerr) ret addr))
  end.
End Transition.

(** ** The environment of a transaction *)

(** [NewEVMBlockContext] with the coinbase [ExeTx] sets, [NewEVMTxContext], and the
    arguments [ExeTx] gives [NewEVM]: the fees, the random value and the configuration
    are nil. [hashes] is [GetHashFn] of the chain. *)
Definition tx_env (hashes : Z -> Z) (limit : Z) (bh : BlockHeader) (msg : Message) : EvmEnv := {|
  GetHash := hashes;
  Evm.Coinbase := Core.Coinbase bh;
  Evm.GasLimit := Core.GasLimit bh;
  BlockNumber := Number bh;
  BlockTime := u64 (HTime bh);
  BaseFee := None;
  BlobBaseFee := None;
  Random := None;
  Origin := msg_From msg;
  Evm.GasPrice := Some (msg_GasPrice msg);
  BlobHashes := [];
  ChainID := None;
  aborted := false;
  maxAlloc := limit
|}.

(** The message of a transaction; [ExeTx] has dereferenced the gas price. *)
Definition message_of (tx : Transaction) : Message :=
  mkMessage (From tx) (To tx) (Value tx) (default 0 (Core.GasPrice tx)) (Data tx).

Section Machine.
Context (w : Uint256) (cr : Crypto) (cfg : Config) (env : NodeEnv) (rem : Remote) (txt : ErrorText).
Context (hashes : Z -> Z) (limit : Z) (fuel : nat) (earlier : list EvmMsg).

(** A fresh machine on a state; [earlier] is what the node has sent before. *)
Definition new_machine {rd : StateReader} (s : StateDB) : @Mach (@StateDB_interface cfg rd env) :=
  mkMach s 0 false [] 0 ∅ earlier.

Definition ApplyMessage_run (rd : StateReader) (s : StateDB) (tx : Transaction) (bh : BlockHeader) (UUID : string) :=
  let ctx := tx_env hashes limit bh (message_of tx) in
  TransitionDb (Run fuel) (message_of tx) UUID (new_machine s).

(** The interpreter behind [ExeTx]. A run that is cut short by the fuel has no outcome;
    it counts as a panic of its own. *)
Definition machine : EVM := {|
  ApplyMessage := fun rd s tx bh UUID =>
    match ApplyMessage_run rd s tx bh UUID with
    | Val (inl r, m) => Ret (db m, inl r)
    | Val (inr e, m) => Ret (db m, inr (tx_error e))
    | Crash why => Panic why
    | Spin => Panic "out of fuel"
    end
|}.
End Machine.
