(* ===== verification/TransitionProofs.v ===== *)
(** * Contract transactions are all or nothing

    The machine of [Interpreter.v] on the database of [StateDB.v], behind [ExeTx]: a
    contract transaction keeps the database's invariant, and one that fails leaves
    nothing behind but an empty transient storage. *)
From Stdlib Require Import ZArith Lia.
From stdpp Require Import base gmap strings list.
From S2P Require Import Prelude Utils JournalTypes Core AccessList StateDB StateDBSim StateDBProofs Execution Analysis.
From S2P Require Import Machine Evm Instructions Interpreter EvmInstances MachineLaws EvmProofs FrameLogic InterpreterProofs StateDBRefines.
From S2P Require Import Transition.

Section Transition.
Context (w : Uint256) (cr : Crypto) (cfg : Config) (rd : StateReader) (env : NodeEnv) (rem : Remote) (ctx : EvmEnv) (txt : ErrorText).
Context (wok : Uint256Ok w) (rok : ReaderOk cfg rd cr) (hyps : EvmAssumptions cr cfg env rem ctx).

#[local] Existing Instances w cr cfg rd env rem ctx txt wok rok hyps.
#[local] Existing Instance StateDB_laws.
#[local] Abbreviation sim := (db_sim u64 (fun _ => true)).
#[local] Abbreviation Mach := (@Mach (@StateDB_interface cfg rd env)).

(** ** [Prepare] *)

(** The machine with its transient storage reset. *)
Definition prepared (m : Mach) : Mach := with_db m (Prepare (db m)).

Lemma load_prepare s a :
  getStateObject (Prepare s) a = (Prepare (fst (getStateObject s a)), snd (getStateObject s a)).
Proof using Type.
  unfold getStateObject. cbn. destruct (stateObjects s !! a); [done |]. destruct (stateObjectsDestruct s !! a); [done |].
  by destruct (reader_Account a).
Qed.

Lemma live_prepare s a : live (Prepare s) a = live s a.
Proof using Type. unfold live. by rewrite load_prepare. Qed.

Lemma code_prepare s a : code_or_empty (Prepare s) a = code_or_empty s a.
Proof using Type. unfold code_or_empty. by rewrite live_prepare. Qed.

Lemma inv_prepare s : db_inv s -> db_inv (Prepare s).
Proof using Type. intros [[] ? ? ?]. split; [by split | done | done |]. intros a. by rewrite code_prepare. Qed.

Lemma sim_prepare s t : sim s t -> sim (Prepare s) (Prepare t).
Proof using Type.
  intros []. split; try done. intros a. rewrite !live_prepare. apply de_live.
Qed.

Lemma MInv_prepared (m : Mach) : MInv m -> MInv (prepared m).
Proof using Type. intros []. split; [by apply inv_prepare | done]. Qed.

(** A computation that neither reads nor writes the transient storage. *)
Definition commutes {A} (c : E A) : Prop :=
  forall m : Mach, c (prepared m) = match c m with Val (a, m') => Val (a, prepared m') | Crash why => Crash why | Spin => Spin end.

Lemma commutes_ret {A} (a : A) : commutes (mret a).
Proof using Type. done. Qed.

Lemma commutes_bind {A B} (c : E A) (k : A -> E B) : commutes c -> (forall a, commutes (k a)) -> commutes (c ≫= k).
Proof using Type.
  intros Hc Hk m. unfold mbind, E_bind. rewrite Hc. destruct (c m) as [[a m'] | |]; [apply Hk | done | done].
Qed.

Lemma commutes_db {A} (op : StateDB -> outcome (StateDB * A)) :
  (forall s, op (Prepare s) = match op s with Ret (s', a) => Ret (Prepare s', a) | Panic why => Panic why end) ->
  commutes (on_db op).
Proof using Type. intros Hop m. unfold on_db, prepared. cbn. rewrite Hop. by destruct (op (db m)) as [[s' a] |]. Qed.

Lemma create_prepare s a :
  createObject (Prepare s) a = match createObject s a with Ret (s', o) => Ret (Prepare s', o) | Panic why => Panic why end.
Proof using Type. unfold createObject. by destruct (MustFromBig Init_Balance). Qed.

Lemma commutes_Exist a : commutes (on_db (i_Exist a)).
Proof using Type. apply commutes_db. intros s. cbn. unfold quietly, Exist. by rewrite load_prepare. Qed.

Lemma commutes_CreateAccount a : commutes (on_db (i_CreateAccount a)).
Proof using Type.
  apply commutes_db. intros s. cbn. unfold acting, CreateAccount. rewrite create_prepare. by destruct (createObject s a) as [[s' o] |].
Qed.

Lemma commutes_GetBalance a : commutes (on_db (i_GetBalance a)).
Proof using Type.
  apply commutes_db. intros s. cbn. unfold GetBalance, getOrNewStateObject. rewrite load_prepare.
  destruct (getStateObject s a) as [s1 [o |]]; cbn; [done |]. rewrite create_prepare. by destruct (createObject s1 a) as [[s' o] |].
Qed.

(** ** The part before the call *)

Definition early (msg : Message) : E (option txerr) := _ ← ensure_sender (msg_From msg); check_value msg.

Lemma commutes_early msg : commutes (early msg).
Proof using Type.
  unfold early, ensure_sender, check_value, CanTransfer.
  repeat first [apply commutes_bind; [| intros] | apply commutes_Exist | apply commutes_CreateAccount | apply commutes_GetBalance
    | apply commutes_ret | match goal with |- commutes (if ?b then _ else _) => destruct b end].
Qed.

Lemma ensure_sender_spec a (m : Mach) : MInv m -> wpE (ensure_sender a) (fun _ m' => mstep m m') m.
Proof using rok hyps.
  intros Hm. pose proof (mstep_refl m Hm) as Hm0.
  pose proof (ensure_account_spec a (mret tt) (fun _ m' => mstep m m') m m Hm Hm0) as H.
  unfold ensure_sender. unfold wpE, mbind, E_bind in *. destruct (on_db (i_Exist a) m) as [[b m1] | |]; [| |].
  - destruct b; [apply H; done |]. destruct (on_db (i_CreateAccount a) m1) as [[u m2] | |]; apply H; intros; by apply wpE_ret.
  - apply H. intros. by apply wpE_ret.
  - done.
Qed.

Lemma check_value_spec msg (m0 m : Mach) : MInv m0 -> mstep m0 m -> wpE (check_value msg) (fun _ m' => mstep m0 m') m.
Proof using rok hyps.
  intros H0 Hm. unfold check_value. destruct (2 ^ 256 <=? _); [by apply wpE_ret |]. apply wpE_bind.
  assert (Hend : forall (can : bool) m', mstep m0 m' ->
    wpE (if can then mret None else balance ← on_db (i_GetBalance (msg_From msg));
      mret (Some (InsufficientFunds (msg_From msg) (Uint64 (FromBig (msg_Value msg))) (u64 balance)))) (fun _ m' => mstep m0 m') m').
  { intros [] m' Hm'; [by apply wpE_ret |]. apply wpE_bind. eapply wpE_db; [apply GetBalance_law | done | done |].
    intros b s' _ Hs'. by apply wpE_ret. }
  destruct (IsZero _); [by apply wpE_ret, (Hend true m) |].
  eapply CanTransfer_spec; [done | done |]. intros can m' Hm' _. by apply Hend.
Qed.

Lemma early_spec msg (m : Mach) : MInv m -> wpE (early msg) (fun _ m' => mstep m m') m.
Proof using rok hyps.
  intros Hm. unfold early. apply wpE_bind. eapply wpE_mono; [by apply ensure_sender_spec |]. intros u m1 Hm1.
  by apply check_value_spec.
Qed.

(** ** The call *)

Context (fuel : nat).

Lemma apply_call_spec msg UUID (m : Mach) :
  MInv m -> short (msg_Data msg) -> wpE (apply_call (Run fuel) msg UUID) (fun _ m' => mstep m m') m.
Proof using wok rok hyps.
  intros Hm Hd. pose proof (mstep_refl m Hm) as Hm0. unfold apply_call. destruct (msg_To msg =? 0).
  - by apply (Create_spec (Run fuel) (Run_ok fuel)).
  - apply wpE_bind. eapply wpE_db; [apply GetNonce_law | done | done |]. intros n s1 _ Hs1.
    apply wpE_bind. eapply wpE_db; [apply SetNonce_law | exact Hm | done |]. intros u s2 _ Hs2. apply wpE_bind.
    eapply wpE_mono; [apply (call_body_spec (Run fuel) (Run_ok fuel)); [done | apply Hs2 | by eexists] |].
    intros [[ret gas] err] m' [Hm' _]. apply wpE_ret. by eapply mstep_trans.
Qed.

Lemma pay_fee_spec used price (m0 m : Mach) : mstep m0 m -> wpE (pay_fee used price) (fun _ m' => mstep m0 m') m.
Proof using hyps.
  intros Hm. unfold pay_fee. destruct (NodeID =? View); [| by apply wpE_ret]. apply wpE_bind, wpE_shard. intros sh.
  apply wpE_modify. by apply mstep_outbox.
Qed.

(** From a machine [m]: an error of the checks, with what they did journalled; or a
    result, with all that was done journalled from [m] with its transient storage
    reset. *)
Lemma TransitionDb_spec msg UUID (m : Mach) :
  MInv m -> short (msg_Data msg) ->
  wpE (TransitionDb (Run fuel) msg UUID)
    (fun r m' => match r with inr _ => mstep m m' | inl _ => mstep (prepared m) m' end) m.
Proof using wok rok hyps.
  intros Hm Hd. pose proof (early_spec msg m Hm) as He. pose proof (early_spec msg (prepared m) (MInv_prepared m Hm)) as Hp.
  pose proof (commutes_early msg m) as Hc. unfold TransitionDb. unfold early, mbind, E_bind in He, Hp, Hc.
  unfold wpE in He, Hp. rewrite Hc in Hp. unfold wpE, mbind, E_bind.
  destruct (ensure_sender (msg_From msg) m) as [[u m1] | |]; [| done | done].
  destruct (check_value msg m1) as [[[e |] m2] | |]; [done | | done | done]. clear Hc He.
  pose proof (apply_call_spec msg UUID (prepared m2) (ms_inv _ _ Hp) Hd) as Ha. cbn. unfold wpE in Ha.
  change (with_db m2 (Prepare (db m2))) with (prepared m2).
  destruct (apply_call (Run fuel) msg UUID (prepared m2)) as [[[[[ret addr] gas] err] m3] | |]; [| done | done].
  assert (H3 : mstep (prepared m) m3) by (eapply mstep_trans; [by apply MInv_prepared | done | done]).
  pose proof (pay_fee_spec (u64 (0 - gas)) (msg_GasPrice msg) (prepared m) m3 H3) as Hf. unfold wpE in Hf.
  destruct (pay_fee _ _ m3) as [[u' m4] | |]; done.
Qed.
End Transition.

(** ** [ExeTx] on the machine *)

Section ExeTx.
Context (w : Uint256) (cr : Crypto) (cfg : Config) (rd : StateReader) (env : NodeEnv) (rem : Remote) (txt : ErrorText).
Context (hashes : Z -> Z) (limit : Z) (fuel : nat) (earlier : list EvmMsg).
Context (wok : Uint256Ok w) (rok : ReaderOk cfg rd cr).
Context (hyps : forall bh msg, EvmAssumptions cr cfg env rem (tx_env hashes limit bh msg)).

#[local] Existing Instances w cr cfg rd env rem txt wok rok.
#[local] Existing Instance StateDB_laws.
#[local] Abbreviation sim := (db_sim u64 (fun _ => true)).
#[local] Instance vm : EVM := machine w cr cfg env rem txt hashes limit fuel earlier.

Lemma MInv_new s : db_inv s -> MInv (new_machine cfg env earlier s).
Proof using Type. intros Hs. split; [done |]. apply jumpdests_ok_empty. Qed.

Lemma inv_context s h i : db_inv s -> db_inv (SetTxContext s h i).
Proof using Type.
  intros [[] ? ? Hc]. split; [by split | done | done |]. intros a. specialize (Hc a). unfold code_or_empty in *.
  by rewrite live_eq in *.
Qed.

(** What the machine did to the state it was given. *)
Lemma ApplyMessage_spec s tx bh u :
  db_inv s -> short (Data tx) ->
  match ApplyMessage rd s tx bh u with
  | Ret (s', _) => db_inv s' /\ (db_step s s' \/ db_step (Prepare s) s')
  | Panic why => why = "out of fuel" \/ why = out_of_memory \/ why = "nil dereference"
  end.
Proof using wok rok hyps.
  intros Hs Hd. pose proof (TransitionDb_spec w cr cfg rd env rem (tx_env hashes limit bh (message_of tx)) txt wok rok
    (hyps bh _) fuel (message_of tx) u (new_machine cfg env earlier s) (MInv_new s Hs) Hd) as H.
  cbn [ApplyMessage vm machine]. unfold wpE in H. unfold ApplyMessage_run. cbv zeta.
  destruct (TransitionDb _ _ _ _) as [[[r | e] m'] | why |]; [| | | by left].
  - split; [apply (mi_db _ (ms_inv _ _ H)) | right; apply (ms_step _ _ H)].
  - split; [apply (mi_db _ (ms_inv _ _ H)) | left; apply (ms_step _ _ H)].
  - destruct H as [-> | [-> _]]; auto.
Qed.

(** Reverting to the snapshot [ExeTx] took, after a run. *)
Lemma revert_run s0 s2 :
  db_inv s0 -> db_inv s2 -> db_step (fst (Snapshot s0)) s2 \/ db_step (Prepare (fst (Snapshot s0))) s2 ->
  exists s3 msgs, RevertToSnapshot s2 (nextRevisionId (jrnl s0)) = Ret (s3, msgs) /\ db_inv s3 /\
    sim (Prepare s3) (Prepare s0).
Proof using rok.
  intros H0 H2 Hst.
  assert (Hone : forall t, db_inv t -> nextRevisionId (jrnl t) = nextRevisionId (jrnl s0) -> db_step (fst (Snapshot t)) s2 ->
    exists s3 msgs, RevertToSnapshot s2 (nextRevisionId (jrnl s0)) = Ret (s3, msgs) /\ db_inv s3 /\ sim s3 t).
  { intros t Ht Hn Hstep. destruct (Snapshot_returns t Ht) as (s1 & id & Hsnap & _ & _ & Hrev). injection Hsnap as <- <-.
    destruct (Hrev s2 H2 Hstep) as (s3 & msgs & Hr & Hi & _ & Hsim). rewrite <- Hn. eauto. }
  destruct Hst as [Hst | Hst].
  - destruct (Hone s0 H0 eq_refl Hst) as (s3 & msgs & Hr & Hi & Hsim). exists s3, msgs. split_and!; [done | done |].
    by apply sim_prepare.
  - destruct (Hone (Prepare s0) (inv_prepare _ _ _ H0) eq_refl Hst) as (s3 & msgs & Hr & Hi & Hsim).
    exists s3, msgs. split_and!; [done | done |]. by apply sim_prepare in Hsim.
Qed.


(** The revision of the snapshot is still there after a run, for the log of a success. *)
Lemma journal_log_returns s0 s2 :
  db_inv s0 -> db_step (fst (Snapshot s0)) s2 \/ db_step (Prepare (fst (Snapshot s0))) s2 ->
  exists l, journal_log (jrnl s2) (nextRevisionId (jrnl s0)) = Ret l.
Proof using Type.
  intros H0 Hst. assert (Hv : exists later, ValidRevisions (jrnl s2) =
    ValidRevisions (jrnl s0) ++ mkRevision (nextRevisionId (jrnl s0)) (zlen (Entries (jrnl s0))) :: later).
  { destruct Hst as [((later & ->) & _) | ((later & ->) & _)]; exists later; cbn; by rewrite <- app_assoc. }
  destruct Hv as [later Hv]. unfold journal_log. cbn [ValidRevisions journal_Copy]. rewrite Hv, search_own, lookup_app_r, Nat.sub_diag;
    [cbn; eauto | done | apply H0 | done].
Qed.

(** C28: executing a contract transaction returns a state that is in order, whatever the
    contract, the input and the outcome; it fails to return only when the machine does:
    its run goes on for ever, it asks for more memory than there is, or it reads a value
    the environment of [ExeTx] leaves nil. *)
Theorem contract_execution_invariant (now : Z) (pm : gmap string Z) (s : StateDB) (bh : BlockHeader) (i h price : Z) (tx : Transaction) :
  NodeID = 0 -> IsContract tx = true -> IsBrokerContract tx = false -> Core.GasPrice tx = Some price ->
  common_Hash (TxHash tx) = Ret h -> short (Data tx) -> db_inv s ->
  match ExeTx now pm s bh i tx with
  | Ret r => db_inv (er_state r)
  | Panic why => why = "out of fuel" \/ why = out_of_memory \/ why = "nil dereference"
  end.
Proof using wok rok hyps.
  intros Hn Hc Hb Hp Hh Hd Hs. set (s0 := SetTxContext s h i).
  assert (H0 : db_inv s0) by by apply inv_context.
  assert (H1 : db_inv (fst (Snapshot s0))) by (destruct (Snapshot_returns s0 H0) as (s1 & id & [= <- <-] & H1 & _); exact H1).
  pose proof (ApplyMessage_spec (fst (Snapshot s0)) tx bh (UUID tx) H1 Hd) as Hm.
  unfold ExeTx, exe_contract, broker_contract_msgs. rewrite Hc, Hn, Hp, Hb, Hh. cbn -[RevertToSnapshot ApplyTransactionWithEVM].
  change (SetTxContext (db_journal s _) h i) with (fst (Snapshot s0)). unfold ApplyTransactionWithEVM.
  destruct (ApplyMessage rd (fst (Snapshot s0)) tx bh (UUID tx)) as [[s2 res] | why]; [| exact Hm].
  destruct Hm as [H2 Hst]. destruct (revert_run s0 s2 H0 H2 Hst) as (s3 & msgs & Hrev & H3 & _).
  destruct (journal_log_returns s0 s2 H0 Hst) as [l Hl].
  change (nextRevisionId (jrnl s0)) with (nextRevisionId (jrnl s)) in Hrev, Hl.
  destruct res as [x | e]; cbn -[RevertToSnapshot journal_log]; [case_decide; cbn -[RevertToSnapshot journal_log] |];
    [| by rewrite Hrev | by rewrite Hrev].
  destruct (Entries (jrnl s2)); cbn -[journal_log]; [done |]. by rewrite Hl.
Qed.
End ExeTx.
