(* ===== verification/EvmTheorems.v ===== *)
(** * What running contracts on this machine means for a node

    Theorems on jumps, gas and memory, and a concrete node on which the theorems of the machine are applied. *)
From Stdlib Require Import ZArith Lia.
From stdpp Require Import base gmap strings list countable.
From S2P Require Import Prelude Utils JournalTypes Core AccessList StateDB StateDBSim StateDBProofs Analysis Machine Evm Instructions.
From S2P Require Import Interpreter EvmInstances MachineLaws EvmProofs FrameLogic InstructionProofs InterpreterProofs StateDBRefines Termination Execution Transition TransitionProofs.

(** ** What running contracts on this machine means for a node

    The destinations a jump accepts, and three ways in which a contract can stop the node
    that runs it: gas is not charged, the error of the memory's price is ignored, and
    parts of the block's context are nil. *)

Section Jumps.
Context `{w : Uint256} `{sdb : StateDBI} `{cr : Crypto} `{cfg : Config} `{env : NodeEnv} `{rem : Remote} `{ctx : EvmEnv}.
Context `{laws : !StateDBLaws sdb cr env} `{hyps : !EvmAssumptions cr cfg env rem ctx} `{wok : !Uint256Ok w}.

(** A jump is allowed exactly to the JUMPDEST bytes of the code that are not the data
    of a push, for every destination of 256 bits and every code, with the analysis
    taken from the contract, from the map of analyses by code hash, or made anew; the
    test always answers and changes nothing but the cached analysis. *)
Theorem validJumpdest_exact d f m :
  MInv m -> FInv f ->
  exists c m', validJumpdest d f m = Val (is_jump_target (Code (contract f)) (ToBig d), with_contract f c, m') /\
    CInv c /\ same_but_analysis (contract f) c /\ mstep m m'.
Proof using hyps wok. apply validJumpdest_total. Qed.

(** ** Single steps *)

(** An iteration whose instruction has no dynamic gas. *)
Lemma iteration_step run f m op o :
  GetOp (contract f) (pc f) = Ret op -> lookup_op run op = o -> minStack o <= zlen (stack f) <= maxStack o -> dynamicGas o = None ->
  iteration run f m =
  match execute o f m with
  | Val (r, None, f', m') => Val (None, with_pc f' (u64 (pc f' + 1)), m')
  | Val (r, Some e, f', m') => Val (Some (r, if decide (e = errStopToken) then None else Some e), f', m')
  | Crash why => Crash why
  | Spin => Spin
  end.
Proof using Type.
  intros Hop Ho Hst Hg. unfold iteration, mbind, I_bind, frame, try, evm, E_of. rewrite Hop, Ho.
  destruct (Z.ltb_spec (zlen (stack f)) (minStack o)); [lia |]. destruct (Z.ltb_spec (maxStack o) (zlen (stack f))); [lia |].
  unfold prepare. rewrite Hg. cbn. destruct (execute o f m) as [[[[r [e |]] f'] m'] | |]; done.
Qed.

Lemma iteration_prepare run f m op o why :
  GetOp (contract f) (pc f) = Ret op -> lookup_op run op = o -> minStack o <= zlen (stack f) <= maxStack o ->
  prepare o f m = Crash why -> iteration run f m = Crash why.
Proof using Type.
  intros Hop Ho Hst Hp. unfold iteration, mbind, I_bind, frame, try, evm, E_of. rewrite Hop, Ho.
  destruct (Z.ltb_spec (zlen (stack f)) (minStack o)); [lia |]. destruct (Z.ltb_spec (maxStack o) (zlen (stack f))); [lia |].
  by rewrite Hp.
Qed.

(** ** A loop *)

(** JUMPDEST; PUSH1 0; JUMP. *)
Definition spinning_code : list Z := [0x5b; 0x60; 0x00; 0x56].

(** The three iterations of the loop, from and to its start. *)
Lemma spin_round s g c m :
  CInv c -> Code c = spinning_code -> short s -> MInv m -> aborted = false ->
  exists f1 f2 m3 c3,
    (forall run, iteration run (mkFrame 0 [] s g c) m = Val (None, f1, m)) /\
    (forall run, iteration run f1 m = Val (None, f2, m)) /\
    (forall run, iteration run f2 m = Val (None, mkFrame 0 [] s g c3, m3)) /\
    CInv c3 /\ Code c3 = spinning_code /\ MInv m3.
Proof using hyps wok.
  intros Hc Hcode Hs Hm Ha. set (zero := SetUint64 0). assert (Hz : ToBig zero = 0) by by apply SetUint64_spec.
  assert (Hf : FInv (mkFrame 3 [] s g c)) by by split.
  destruct (validJumpdest_total zero (mkFrame 3 [] s g c) m Hm Hf) as (c3 & m3 & Hv & Hc3 & Hsame & Hm3).
  cbn [contract] in Hv, Hsame. rewrite Hz, Hcode in Hv. change (is_jump_target spinning_code 0) with true in Hv.
  exists (mkFrame 1 [] s g c), (mkFrame 3 [zero] s g c), m3, c3.
  split_and!; [| | | done | by rewrite (same_code _ _ Hsame) | apply Hm3].
  - intros run. rewrite (iteration_step run _ _ 0x5b (op0 opJumpdest 1 0 0)); [done | cbn; unfold GetOp; by rewrite Hcode | done | split; vm_compute; discriminate | done].
  - intros run. rewrite (iteration_step run _ _ 0x60 (op0 opPush1 GasFastestStep 0 1)); [| cbn; unfold GetOp; by rewrite Hcode | done | split; vm_compute; discriminate | done].
    cbn [execute op0]. unfold opPush1, mbind, I_bind, Instructions.update, frame. cbn [contract with_pc pc]. rewrite Hcode. done.
  - intros run. rewrite (iteration_step run _ _ 0x56 (op0 opJump GasMidStep 1 0)); [| cbn; unfold GetOp; by rewrite Hcode | done | split; vm_compute; discriminate | done].
    cbn [execute op0]. unfold opJump. rewrite Ha. unfold jump_to, mbind, I_bind, pop, mbind, I_bind, frame, Instructions.update. cbn [stack with_stack].
    cbn -[validJumpdest u64]. unfold with_stack. cbn -[validJumpdest u64]. rewrite Hv. cbn -[u64].
    unfold with_pc. cbn -[u64]. rewrite Uint64_spec, Hz. done.
Qed.

Lemma spins fuel s g c m :
  CInv c -> Code c = spinning_code -> short s -> MInv m -> aborted = false -> loop fuel (mkFrame 0 [] s g c) m = Spin.
Proof using hyps wok.
  intros Hc Hcode Hs Hm Ha. revert g c m Hc Hcode Hm. induction (lt_wf fuel) as [fuel _ IH]. intros g c m Hc Hcode Hm.
  destruct (spin_round s g c m Hc Hcode Hs Hm Ha) as (f1 & f2 & m3 & c3 & H1 & H2 & H3 & Hc3 & Hcode3 & Hm3).
  destruct fuel as [| fuel]; [done |]. cbn [loop]. rewrite H1.
  destruct fuel as [| fuel]; [done |]. cbn [loop]. rewrite H2.
  destruct fuel as [| fuel]; [done |]. cbn [loop]. rewrite H3. apply IH; [lia | done..].
Qed.

(** A contract can hold a node for ever. No amount of fuel ends the run of a loop of
    three instructions, whatever gas the call came with: [Run] computes the price of
    every instruction and charges none of them. *)
Theorem gas_does_not_bound fuel c input ro m :
  CInv c -> Code c = spinning_code -> short input -> MInv m -> aborted = false -> Run fuel c input ro m = Spin.
Proof using hyps wok.
  intros Hc Hcode Hi Hm Ha. assert (He : MInv (entered ro m)) by (unfold entered; destruct ro, (readOnly m); cbn; by destruct Hm).
  unfold Run, enter, mbind, E_bind, modify, gets. rewrite Hcode. cbn -[loop].
  change (with_returnData _ []) with (entered ro m).
  rewrite (spins fuel [] 0 (set_Input c input)); [done | | done | done | done | done]. by destruct Hc.
Qed.

(** ** Memory *)

(** PUSH8 2^62; MLOAD. *)
Definition greedy_code : list Z := [0x67; 0x40; 0; 0; 0; 0; 0; 0; 0; 0x51].

Lemma greedy_push run c m :
  Code c = greedy_code ->
  iteration run (mkFrame 0 [] [] 0 c) m = Val (None, mkFrame 9 [SetBytes [0x40; 0; 0; 0; 0; 0; 0; 0]] [] 0 c, m).
Proof using Type.
  intros Hcode. rewrite (iteration_step run _ _ 0x67 (op0 (makePush 8 8) GasFastestStep 0 1));
    [| cbn; unfold GetOp; by rewrite Hcode | done | split; vm_compute; discriminate | done].
  cbn [execute op0]. unfold makePush, mbind, I_bind, frame, try, evm, E_of. cbn [contract pc]. rewrite Hcode. done.
Qed.

Lemma greedy_load run c m x :
  Code c = greedy_code -> ToBig x = 2 ^ 62 -> maxAlloc < 2 ^ 62 -> iteration run (mkFrame 9 [x] [] 0 c) m = Crash out_of_memory.
Proof using wok.
  intros Hcode Hx Ha. assert (Hsize : memoryMLoad [x] = Ret (2 ^ 62 + 32, false)).
  { change (memoryMLoad [x]) with (Ret (calcMemSize64WithUint x 32)). unfold calcMemSize64WithUint. rewrite Uint64WithOverflow_spec, Uint64_spec, IsUint64_spec, Hx. done. }
  eapply (iteration_prepare run _ _ 0x51 (op_mem opMload GasFastestStep pureMemoryGascost 1 1 memoryMLoad));
    [cbn; unfold GetOp; by rewrite Hcode | reflexivity | split; vm_compute; discriminate |].
  unfold prepare, required_memory. cbn [dynamicGas memorySize op_mem]. unfold mbind, I_bind, frame, try, evm, E_of.
  cbn [stack]. rewrite Hsize. cbn -[mem_Resize].
  change (2 ^ 64 <=? toWordSize (2 ^ 62 + 32) * 32) with false. change (u64 (toWordSize (2 ^ 62 + 32) * 32)) with 4611686018427387936.
  cbn -[mem_Resize]. unfold on_store, mem_Resize. cbn. destruct (Z.ltb_spec maxAlloc 4611686018427387936); [done | lia].
Qed.

(** A contract can stop a node. A load from an address of 2^62 has a price that
    overflows, but the error of the price is ignored and the memory is resized: on a
    machine that cannot allocate so much the process panics. *)
Theorem memory_price_ignored fuel c input ro m :
  Code c = greedy_code -> maxAlloc < 2 ^ 62 -> Run (S (S fuel)) c input ro m = Crash out_of_memory.
Proof using wok.
  intros Hcode Ha. unfold Run, enter, mbind, E_bind, modify, gets. rewrite Hcode. cbn [greedy_code loop].
  rewrite greedy_push by done. rewrite greedy_load; [done | done | | done]. by rewrite SetBytes_spec.
Qed.
End Jumps.

(** ** The context *)

Section Context_.
Context `{w : Uint256} `{sdb : StateDBI} `{cr : Crypto} `{cfg : Config} `{env : NodeEnv} `{rem : Remote}.

(** PREVRANDAO, CHAINID, BASEFEE, BLOBBASEFEE. *)
Definition nil_readers : list Z := [0x44; 0x46; 0x48; 0x4a].

(** Four instructions stop the node that executes them in a transaction: the values
    they read are nil in the environment [ExeTx] builds, for every block and message. *)
Theorem nil_context_crashes fuel hashes limit bh msg op c input ro m :
  op ∈ nil_readers -> Code c = [op] ->
  Run (ctx := tx_env hashes limit bh msg) (S fuel) c input ro m = Crash "nil dereference".
Proof using Type.
  intros Hop Hcode. unfold Run, enter, mbind, E_bind, modify, gets. rewrite Hcode. cbn [loop].
  set (f := mkFrame 0 [] [] 0 (set_Input c input)). set (m1 := with_returnData _ _).
  assert (Hget : GetOp (contract f) (pc f) = Ret op) by (cbn; unfold GetOp; cbn; by rewrite Hcode).
  assert (Hit : forall run, iteration (ctx := tx_env hashes limit bh msg) run f m1 = Crash "nil dereference"); [| by rewrite Hit].
  intros run. set (ctx := tx_env hashes limit bh msg). unfold nil_readers in Hop. set_unfold in Hop.
  assert (Hstep : forall x o, op = x -> lookup_op run x = o -> minStack o = 0 -> 0 <= maxStack o -> dynamicGas o = None ->
    execute o f m1 = Crash "nil dereference" -> iteration (ctx := ctx) run f m1 = Crash "nil dereference").
  { intros x o -> Ho Hmin Hmax Hg Hx. rewrite (iteration_step run f m1 x o); [by rewrite Hx | done | done | | done].
    rewrite Hmin. done. }
  destruct Hop as [-> | [-> | [-> | [-> | []]]]].
  - by apply (Hstep 0x44 (op0 opRandom GasQuickStep 0 1)).
  - by apply (Hstep 0x46 (op0 opChainID GasQuickStep 0 1)).
  - by apply (Hstep 0x48 (op0 opBaseFee GasQuickStep 0 1)).
  - by apply (Hstep 0x4a (op0 opBlobBaseFee GasQuickStep 0 1)).
Qed.
End Context_.

(** ** A node, and runs of the machine on it

    Concrete instances of everything the machine's theorems take as given (words, hashes,
    other shards, the database below), the proofs that they have the properties the
    theorems ask for, and the theorems applied to them. The hash is an injective encoding
    of the code, the other shards never answer, and the database below holds one account
    with money and one contract. *)

Module Node.

Definition hash (l : list Z) : Z := match l with [] => EmptyCodeHash | _ => EmptyCodeHash + Z.pos (encode l) end.

Lemma hash_inj c d : hash c = hash d -> c = d.
Proof.
  unfold hash. destruct c, d; intros H; [done | | |].
  - pose proof (Pos2Z.is_pos (encode (z :: d))). lia.
  - pose proof (Pos2Z.is_pos (encode (z :: c))). lia.
  - apply (inj encode). apply (inj Z.pos). lia.
Qed.

Lemma hash_positive c : 0 < hash c.
Proof. unfold hash. assert (0 < EmptyCodeHash) by done. destruct c; lia. Qed.

#[export] Instance crypto : Crypto := {|
  Keccak256 := hash;
  Sha256 l := l;
  Ripemd160 l := l;
  ValidateSignatureValues _ _ _ := true;
  Ecrecover _ _ := None;
  CreateAddress a n := 0x4000 + 4 * n;
  CreateAddress2 _ _ _ := 0x5000
|}.

(** PUSH1 5; PUSH1 1; SSTORE; INVALID: it writes to its storage and fails. *)
Definition failing_code : list Z := [0x60; 5; 0x60; 1; 0x55; 0xfe].

#[export] Instance reader : StateReader := {|
  reader_Account a :=
    if a =? 8 then Some (mkStateAccount 4 500 EmptyRootHash EmptyCodeHash)
    else if a =? 0x4000 then Some (mkStateAccount 1 0 EmptyRootHash (hash failing_code)) else None;
  reader_Storage _ _ := 0;
  ContractCode _ h := if h =? hash failing_code then failing_code else [];
  Keccak256Hash := hash
|}.

#[export] Instance node : NodeEnv := {| ShardID := 0; NodeID := 0; Ip_nodeTable := ∅ |}.

#[export] Instance silence : Remote := {|
  uuid _ := "";
  balance_answer _ := None;
  call_answer _ := None;
  static_answer _ := None;
  code_answer _ := None;
  create_answer _ := None
|}.

#[export] Instance texts : ErrorText := {|
  tx_error _ := "invalid transaction";
  vm_error _ := "execution failed"
|}.

#[export] Existing Instance words.
#[export] Existing Instance words_ok.
#[export] Existing Instance default_config.

Definition block_header : BlockHeader := mkBlockHeader "" "" "" 1 0 0 "" 0 "" 12.
Definition message : Message := mkMessage 8 0x4000 0 2 [].

#[export] Instance context : EvmEnv := tx_env (fun _ => 0) (2 ^ 40) block_header message.

Lemma assumptions bh msg : EvmAssumptions crypto default_config node silence (tx_env (fun _ => 0) (2 ^ 40) bh msg).
Proof. split; try done. apply hash_inj. Qed.

#[export] Instance context_ok : EvmAssumptions crypto default_config node silence context := assumptions _ _.

#[export] Instance reader_ok : ReaderOk default_config reader crypto.
Proof.
  split; try done.
  - intros c. pose proof (hash_positive c). cbn. lia.
  - apply hash_inj.
  - intros a acct. cbn. destruct (a =? 8); [by intros [= <-] |]. destruct (a =? 0x4000); [| done]. intros [= <-]. done.
  - intros a h _. cbn [ContractCode reader]. destruct (Z.eqb_spec h (hash failing_code)) as [-> |]; split; try done. by right.
Qed.

#[export] Existing Instance StateDB_laws.

(** The word of a number. *)
Definition word (n : Z) : Int := SetUint64 n.

(** A fresh machine, and a contract with some code. *)
Definition fresh : Mach := mkMach (New_StateDB : SDB) 0 false [] 0 ∅ [].
Definition contract_of (code : list Z) : Contract := SetCallCode (NewContract (AccountRef 8) 0x4000 (Some (word 0)) 100) (hash code) code.

Lemma fresh_ok : MInv fresh.
Proof. split; [apply New_StateDB_inv | apply jumpdests_ok_empty]. Qed.

Lemma contract_of_ok code : short code -> CInv (contract_of code).
Proof. intros Hc. split; [by eexists | split; [done | by right] | done | done]. Qed.

(** The result of a run. *)
Definition result (r : res (list Z * option vmerr * Z * Mach)) : option (list Z * option vmerr * Z) :=
  match r with Val (x, _) => Some x | _ => None end.
End Node.
Import Node.

(** ** The machine *)

(** PUSH1 2; PUSH1 3; ADD; PUSH1 0; MSTORE; PUSH1 32; PUSH1 0; RETURN. *)
Definition adding_code : list Z := [0x60; 2; 0x60; 3; 0x01; 0x60; 0; 0x52; 0x60; 32; 0x60; 0; 0xf3].

Lemma adding_run : result (Run 9 (contract_of adding_code) [] false fresh) = Some (replicate 31 0 ++ [5], None, 100).
Proof. vm_compute. reflexivity. Qed.

Lemma Run_safe_witness :
  match Run 9 (contract_of adding_code) [] false fresh with
  | Val (r, m') => MInv m' /\ Step (db fresh) (db m') /\ depth m' = depth fresh /\ readOnly m' = readOnly fresh
  | Crash why => allowed why
  | Spin => True
  end.
Proof.
  apply (Run_safe 9 (contract_of adding_code) [] false fresh).
  - apply contract_of_ok. reflexivity.
  - reflexivity.
  - apply fresh_ok.
Defined.

Lemma straight_line_terminates_witness :
  (exists r m', Run 14 (contract_of adding_code) [] false fresh = Val (r, m') /\ MInv m') \/
  (exists why, Run 14 (contract_of adding_code) [] false fresh = Crash why /\ allowed why).
Proof.
  apply (straight_line_terminates 14 (contract_of adding_code) [] false fresh).
  - apply contract_of_ok. reflexivity.
  - reflexivity.
  - apply fresh_ok.
  - vm_compute. repeat constructor.
  - vm_compute. lia.
Defined.

Lemma Run_fuel_witness : Run 1000 (contract_of adding_code) [] false fresh = Run 9 (contract_of adding_code) [] false fresh.
Proof.
  apply (Run_fuel 9 1000 (contract_of adding_code) [] false fresh).
  - lia.
  - intros H. pose proof adding_run as Hr. rewrite H in Hr. discriminate Hr.
Defined.

Lemma failing_call :
  match Call (Run 9) (AccountRef 8) 0x4000 [] 0 (word 0) "id" fresh with
  | Val (_, _, Some e, _) => e = ErrInvalidOpCode 0xfe
  | _ => False
  end.
Proof. vm_compute. reflexivity. Qed.


(** ** Jumps, loops and crashes *)

(** PUSH1 0x5b; JUMPDEST: the second byte is data. *)
Lemma validJumpdest_exact_witness :
  (exists c m', validJumpdest (word 2) (mkFrame 0 [] [] 0 (contract_of [0x60; 0x5b; 0x5b])) fresh =
     Val (true, with_contract (mkFrame 0 [] [] 0 (contract_of [0x60; 0x5b; 0x5b])) c, m')) /\
  (exists c m', validJumpdest (word 1) (mkFrame 0 [] [] 0 (contract_of [0x60; 0x5b; 0x5b])) fresh =
     Val (false, with_contract (mkFrame 0 [] [] 0 (contract_of [0x60; 0x5b; 0x5b])) c, m')).
Proof.
  assert (Hf : FInv (mkFrame 0 [] [] 0 (contract_of [0x60; 0x5b; 0x5b]))) by (split; [by apply contract_of_ok | done | done]).
  split.
  - destruct (validJumpdest_exact (word 2) _ fresh fresh_ok Hf) as (c & m' & H & _). exists c, m'. exact H.
  - destruct (validJumpdest_exact (word 1) _ fresh fresh_ok Hf) as (c & m' & H & _). exists c, m'. exact H.
Defined.

Lemma gas_does_not_bound_witness : Run 1000 (contract_of spinning_code) [] false fresh = Spin.
Proof.
  apply (gas_does_not_bound 1000 (contract_of spinning_code) [] false fresh).
  - apply contract_of_ok. reflexivity.
  - reflexivity.
  - reflexivity.
  - apply fresh_ok.
  - reflexivity.
Defined.

Lemma memory_price_ignored_witness : Run 2 (contract_of greedy_code) [] false fresh = Crash out_of_memory.
Proof. apply (memory_price_ignored 0 (contract_of greedy_code) [] false fresh); reflexivity. Defined.

Lemma nil_context_crashes_witness : Run 1 (contract_of [0x48]) [] false fresh = Crash "nil dereference".
Proof.
  apply (nil_context_crashes 0 (fun _ => 0) (2 ^ 40) block_header message 0x48 (contract_of [0x48]) [] false fresh).
  - unfold nil_readers. set_solver.
  - reflexivity.
Defined.

(** ** Transactions *)


(** A call of the contract that fails, from account 8. *)
Definition failing_tx : Transaction :=
  tx_set_hash hash32
    (mkTransaction "" "" 0 "" 0 "" 0 "" 0 false false false false false "" "" "" false false false 0 21000
       (Some 2) 0x4000 8 [] true false [] "id").

#[local] Abbreviation exec := (@ExeTx default_config reader node
  (machine words crypto default_config node silence texts (fun _ => 0) (2 ^ 40) 20 []) 0 ∅ New_StateDB block_header 3 failing_tx).

Lemma contract_execution_invariant_witness : exists r, exec = Ret r /\ db_inv (er_state r).
Proof.
  destruct (common_Hash hash32) as [h |] eqn:Eh; [| vm_compute in Eh; discriminate Eh].
  assert (H : match exec with
              | Ret r => db_inv (er_state r)
              | Panic why => why = "out of fuel" \/ why = out_of_memory \/ why = "nil dereference"
              end).
  { apply (contract_execution_invariant words crypto default_config reader node silence texts (fun _ => 0) (2 ^ 40) 20 []
      words_ok reader_ok assumptions 0 ∅ New_StateDB block_header 3 h 2 failing_tx
      eq_refl eq_refl eq_refl eq_refl Eh eq_refl New_StateDB_inv). }
  destruct exec as [r |] eqn:E; [| vm_compute in E; discriminate E].
  exists r. split; [reflexivity |]. exact H.
Defined.


