(* ===== verification/TrieEncoding.v ===== *)
(** * Keys of the trie

    Models [vm/trie/encoding.go]: the three encodings of a key (bytes, one nibble per
    byte with an optional terminator, and the compact form stored on disk) and the
    conversions between them. [hexToCompactInPlace] overwrites its argument while it
    reads it, so its loop runs on the shared buffer.

    The compact form loses nothing, the in-place conversion computes the same bytes as
    the allocating one, and the key of a leaf is recovered from its nibbles. *)
From Stdlib Require Import ZArith Lia.
From stdpp Require Import base strings list.
From S2P Require Import Prelude.

Abbreviation bytes := (list Z).

(** A byte, a nibble, and the terminator that ends the key of a value. *)
Definition is_byte (b : Z) : Prop := 0 <= b < 256.
Definition is_nibble (b : Z) : Prop := 0 <= b < 16.
Definition terminator : Z := 16.

Definition hasTerm (s : bytes) : outcome bool :=
  if 0 <? zlen s then b ← idx s (zlen s - 1); Ret (b =? 16) else Ret false.

(** [for bi, ni := 0, 0; ni < len(nibbles); bi, ni = bi+1, ni+2]: the loop advances by
    two, so half the length is fuel enough. *)
Fixpoint decode_loop (fuel : nat) (nibbles buf : bytes) (bi ni : Z) : outcome bytes :=
  match fuel with
  | O => Ret buf
  | S fuel =>
      if ni <? zlen nibbles then
        hi ← idx nibbles ni;
        lo ← idx nibbles (ni + 1);
        buf ← set_idx buf bi (Z.lor (u8 (Z.shiftl hi 4)) lo);
        decode_loop fuel nibbles buf (bi + 1) (ni + 2)
      else Ret buf
  end.

(** [decodeNibbles(nibbles, bytes[off:])] *)
Definition decodeNibbles (nibbles buf : bytes) (off : Z) : outcome bytes :=
  _ ← slice buf off (zlen buf);
  decode_loop (S (length nibbles)) nibbles buf off 0.

Definition hexToCompact (hex : bytes) : outcome bytes :=
  t ← hasTerm hex;
  '(term, hex) ← (if t : bool then h ← slice hex 0 (zlen hex - 1); Ret (1, h) else Ret (0, hex));
  let buf := replicate (Z.to_nat (zlen hex / 2 + 1)) 0 in
  buf ← set_idx buf 0 (u8 (Z.shiftl term 5));
  '(buf, hex) ← (if Z.land (zlen hex) 1 =? 1 then
      b0 ← idx buf 0;
      h0 ← idx hex 0;
      buf ← set_idx buf 0 (Z.lor (Z.lor b0 (Z.shiftl 1 4)) h0);
      hex ← slice hex 1 (zlen hex);
      Ret (buf, hex)
    else Ret (buf, hex));
  decodeNibbles hex buf 1.

(** The loop of [hexToCompactInPlace]: reads and writes go to the same buffer. *)
Fixpoint in_place_loop (fuel : nat) (hex : bytes) (hexLen bi ni : Z) : outcome bytes :=
  match fuel with
  | O => Ret hex
  | S fuel =>
      if ni <? hexLen then
        hi ← idx hex ni;
        lo ← idx hex (ni + 1);
        hex ← set_idx hex bi (Z.lor (u8 (Z.shiftl hi 4)) lo);
        in_place_loop fuel hex hexLen (bi + 1) (ni + 2)
      else Ret hex
  end.

Definition hexToCompactInPlace (hex : bytes) : outcome bytes :=
  let hexLen := zlen hex in
  t ← (if 0 <? hexLen then b ← idx hex (hexLen - 1); Ret (b =? 16) else Ret false);
  let '(firstByte, hexLen) := if t : bool then (Z.shiftl 1 5, hexLen - 1) else (0, hexLen) in
  let binLen := hexLen / 2 + 1 in
  '(firstByte, ni) ← (if Z.land hexLen 1 =? 1 then
      h0 ← idx hex 0; Ret (Z.lor (Z.lor firstByte (Z.shiftl 1 4)) h0, 1)
    else Ret (firstByte, 0));
  hex ← in_place_loop (S (length hex)) hex hexLen 1 ni;
  hex ← set_idx hex 0 firstByte;
  slice hex 0 binLen.

Fixpoint nibbles_of (str : bytes) : bytes :=
  match str with [] => [] | b :: str => b / 16 :: b mod 16 :: nibbles_of str end.

Definition keybytesToHex (str : bytes) : bytes := nibbles_of str ++ [16].

Definition compactToHex (compact : bytes) : outcome bytes :=
  if zlen compact =? 0 then Ret compact else
  let base := keybytesToHex compact in
  b0 ← idx base 0;
  base ← (if b0 <? 2 then slice base 0 (zlen base - 1) else Ret base);
  let chop := u8 (2 - Z.land b0 1) in
  slice base chop (zlen base).

Definition hexToKeybytes (hex : bytes) : outcome bytes :=
  t ← hasTerm hex;
  hex ← (if t : bool then slice hex 0 (zlen hex - 1) else Ret hex);
  if negb (Z.land (zlen hex) 1 =? 0) then Panic "can't convert hex key of odd length" else
  decodeNibbles hex (replicate (Z.to_nat (zlen hex / 2)) 0) 0.

Fixpoint prefixLen (a b : bytes) : nat :=
  match a, b with
  | x :: a, y :: b => if x =? y then S (prefixLen a b) else O
  | _, _ => O
  end.

(** ** Packing nibbles *)

Definition pack2 (hi lo : Z) : Z := Z.lor (u8 (Z.shiftl hi 4)) lo.

Fixpoint pack (ns : bytes) : bytes :=
  match ns with hi :: lo :: ns => pack2 hi lo :: pack ns | _ => [] end.

(** Two nibbles at a time. *)
Lemma pairs_ind (P : bytes -> Prop) :
  P [] -> (forall a b l, P l -> P (a :: b :: l)) -> forall l, Nat.Even (length l) -> P l.
Proof.
  intros H0 H2 l [k Hk]. revert l Hk. induction k as [| k IH]; intros l Hk.
  - apply nil_length_inv in Hk. by subst.
  - destruct l as [| a [| b l]]; cbn in Hk; [lia | lia |]. apply H2, IH. lia.
Qed.

Lemma pack_length ns : Nat.Even (length ns) -> (2 * length (pack ns) = length ns)%nat.
Proof. revert ns. apply pairs_ind; [done |]. intros a b l IH. cbn. lia. Qed.

Lemma pack2_nibbles hi lo : is_nibble hi -> is_nibble lo -> pack2 hi lo = 16 * hi + lo.
Proof.
  intros Hh Hl. unfold pack2, u8. rewrite Z.shiftl_mul_pow2 by lia.
  rewrite Z.mod_small by (unfold is_nibble in *; lia).
  assert (Z.land (hi * 2 ^ 4) lo = 0) as Hd.
  { apply Z.bits_inj'. intros n Hn. rewrite Z.land_spec, Z.bits_0.
    destruct (Z.lt_ge_cases n 4).
    - by rewrite Z.mul_pow2_bits_low.
    - rewrite (Z.bits_above_log2 lo); [by rewrite andb_false_r | unfold is_nibble in *; lia |].
      destruct (Z.eq_dec lo 0) as [-> | Hz]; [cbn; lia |].
      apply Z.log2_lt_pow2; [unfold is_nibble in *; lia |].
      apply Z.lt_le_trans with (2 ^ 4); [unfold is_nibble in *; lia | apply Z.pow_le_mono_r; lia]. }
  rewrite <- Z.add_nocarry_lor by done. lia.
Qed.

Lemma idx_nat {A} (l : list A) (n : nat) a : l !! n = Some a -> idx l (Z.of_nat n) = Ret a.
Proof. intros H. apply idx_returns; [lia |]. by rewrite Nat2Z.id. Qed.

Lemma set_idx_nat {A} (l : list A) (n : nat) a : (n < length l)%nat -> set_idx l (Z.of_nat n) a = Ret (<[n := a]> l).
Proof. intros H. rewrite set_idx_returns by (unfold zlen; lia). by rewrite Nat2Z.id. Qed.

Lemma slice_nat {A} (l : list A) (a b : nat) :
  (a <= b <= length l)%nat -> slice l (Z.of_nat a) (Z.of_nat b) = Ret (take (b - a) (drop a l)).
Proof.
  intros H. unfold slice, zlen.
  destruct (Z.leb_spec 0 (Z.of_nat a)); [| lia]. destruct (Z.leb_spec (Z.of_nat a) (Z.of_nat b)); [| lia].
  destruct (Z.leb_spec (Z.of_nat b) (Z.of_nat (length l))); [| lia]. cbn -[Z.to_nat].
  rewrite Nat2Z.id. by replace (Z.to_nat (Z.of_nat b - Z.of_nat a)) with (b - a)%nat by lia.
Qed.

(** ** The loops *)

Lemma drop_2 {A} (l : list A) n x y r :
  drop n l = x :: y :: r -> l !! n = Some x /\ l !! S n = Some y /\ drop (S (S n)) l = r.
Proof.
  intros H. pose proof (lookup_drop l n 0) as H0. pose proof (lookup_drop l n 1) as H1.
  rewrite H in H0, H1. cbn in H0, H1. rewrite Nat.add_0_r in H0.
  replace (n + 1)%nat with (S n) in H1 by lia. repeat split; [done | done |].
  replace (S (S n)) with (n + 2)%nat by lia. by rewrite <- drop_drop, H.
Qed.

Lemma decode_loop_ends fuel nibbles buf bi : decode_loop fuel nibbles buf bi (zlen nibbles) = Ret buf.
Proof. destruct fuel; cbn; [done |]. by rewrite Z.ltb_irrefl. Qed.

(** Filling the buffer from [bi] on with the packed nibbles. *)
Lemma decode_loop_spec nibbles rest : Nat.Even (length rest) -> forall fuel buf bi ni,
  drop ni nibbles = rest -> (bi + length (pack rest) <= length buf)%nat -> (length rest <= fuel)%nat ->
  (ni <= length nibbles)%nat ->
  exists buf', decode_loop fuel nibbles buf (Z.of_nat bi) (Z.of_nat ni) = Ret buf' /\ length buf' = length buf /\
    take (bi + length (pack rest)) buf' = take bi buf ++ pack rest.
Proof.
  revert rest. refine (pairs_ind _ _ _).
  - intros fuel buf bi ni Hd _ _ Hn. exists buf.
    assert (Z.of_nat ni = zlen nibbles) as ->.
    { unfold zlen. assert (length (drop ni nibbles) = 0%nat) as Hz by (by rewrite Hd). rewrite length_drop in Hz. lia. }
    rewrite decode_loop_ends. cbn. rewrite Nat.add_0_r, app_nil_r. done.
  - intros hi lo rest IH fuel buf bi ni Hd Hb Hf Hn. destruct fuel as [| fuel]; [cbn in Hf; lia |].
    assert (ni + 2 <= length nibbles)%nat as Hlen.
    { assert (length (drop ni nibbles) = S (S (length rest))) as Hl by (by rewrite Hd). rewrite length_drop in Hl. lia. }
    destruct (drop_2 _ _ _ _ _ Hd) as (H0 & H1 & Hd'). cbn [decode_loop].
    destruct (Z.ltb_spec (Z.of_nat ni) (zlen nibbles)) as [_ | Hge]; [| unfold zlen in Hge; lia].
    rewrite (idx_nat _ _ _ H0), bind_Ret. replace (Z.of_nat ni + 1) with (Z.of_nat (S ni)) by lia.
    rewrite (idx_nat _ _ _ H1), bind_Ret. cbn in Hb, Hf. rewrite set_idx_nat by lia. rewrite bind_Ret.
    replace (Z.of_nat bi + 1) with (Z.of_nat (S bi)) by lia. replace (Z.of_nat ni + 2) with (Z.of_nat (S (S ni))) by lia.
    destruct (IH fuel (<[bi := pack2 hi lo]> buf) (S bi) (S (S ni)) Hd') as (buf' & Hrun & Hl & Ht);
      [rewrite length_insert; lia | lia | lia |].
    exists buf'. split; [exact Hrun |]. rewrite length_insert in Hl. split; [done |].
    cbn [pack length]. replace (bi + S (length (pack rest)))%nat with (S bi + length (pack rest))%nat by lia.
    rewrite Ht. rewrite (take_S_r _ _ (pack2 hi lo)) by (rewrite list_lookup_insert_eq; [done | lia]).
    rewrite take_insert_ge by lia. by rewrite <- app_assoc.
Qed.

Lemma decodeNibbles_spec nibbles buf off :
  Nat.Even (length nibbles) -> (off + length (pack nibbles) = length buf)%nat ->
  decodeNibbles nibbles buf (Z.of_nat off) = Ret (take off buf ++ pack nibbles).
Proof.
  intros He Hl. unfold decodeNibbles, zlen. rewrite slice_nat by lia. rewrite bind_Ret.
  destruct (decode_loop_spec nibbles nibbles He (S (length nibbles)) buf off 0) as (buf' & Hrun & Hl' & Ht);
    [done | lia | lia | lia |].
  change (Z.of_nat 0) with 0 in Hrun. rewrite Hrun. f_equal. rewrite <- Ht. rewrite take_ge; [done | lia].
Qed.

Lemma idx_0 {A} (x : A) l : idx (x :: l) 0 = Ret x.
Proof. done. Qed.

Lemma set_idx_0 {A} (x y : A) l : set_idx (x :: l) 0 y = Ret (y :: l).
Proof. change 0 with (Z.of_nat 0). rewrite set_idx_nat by (cbn; lia). done. Qed.

Lemma slice_1 {A} (x : A) l : slice (x :: l) 1 (zlen (x :: l)) = Ret l.
Proof.
  change 1 with (Z.of_nat 1). unfold zlen. rewrite slice_nat by (cbn; lia). cbn [drop length].
  rewrite drop_0, take_ge; [done | lia].
Qed.

Lemma slice_2 {A} (x y : A) l : slice (x :: y :: l) 2 (zlen (x :: y :: l)) = Ret l.
Proof.
  change 2 with (Z.of_nat 2). unfold zlen. rewrite slice_nat by (cbn; lia). cbn [drop length].
  rewrite drop_0, take_ge; [done | lia].
Qed.

Lemma decodeNibbles_tail nibbles b buf :
  Nat.Even (length nibbles) -> length buf = length (pack nibbles) ->
  decodeNibbles nibbles (b :: buf) 1 = Ret (b :: pack nibbles).
Proof. intros He Hl. apply (decodeNibbles_spec nibbles (b :: buf) 1 He). cbn. lia. Qed.

(** The in-place loop writes behind what it still has to read. *)
Lemma in_place_loop_spec hexLen rest : Nat.Even (length rest) -> forall fuel hex tail bi ni,
  drop ni hex = rest ++ tail -> hexLen = Z.of_nat (ni + length rest) -> (bi <= S ni)%nat ->
  (ni <= length hex)%nat -> (length rest <= fuel)%nat ->
  exists hex', in_place_loop fuel hex hexLen (Z.of_nat bi) (Z.of_nat ni) = Ret hex' /\ length hex' = length hex /\
    take (bi + length (pack rest)) hex' = take bi hex ++ pack rest.
Proof.
  revert rest. refine (pairs_ind _ _ _).
  - intros fuel hex tail bi ni Hd -> _ _ _. exists hex. cbn. rewrite !Nat.add_0_r, app_nil_r.
    destruct fuel; cbn; rewrite ?Z.ltb_irrefl; done.
  - intros hi lo rest IH fuel hex tail bi ni Hd -> Hb Hn Hf. destruct fuel as [| fuel]; [cbn in Hf; lia |].
    assert (S (S (ni + length rest)) <= length hex)%nat as Hlen.
    { assert (length (drop ni hex) = S (S (length rest + length tail))) as Hl by (by rewrite Hd; cbn; rewrite length_app).
      rewrite length_drop in Hl. lia. }
    destruct (drop_2 _ _ _ _ _ Hd) as (H0 & H1 & Hd'). cbn [in_place_loop].
    destruct (Z.ltb_spec (Z.of_nat ni) (Z.of_nat (ni + length (hi :: lo :: rest)))) as [_ | Hge]; [| cbn in Hge; lia].
    rewrite (idx_nat _ _ _ H0), bind_Ret. replace (Z.of_nat ni + 1) with (Z.of_nat (S ni)) by lia.
    rewrite (idx_nat _ _ _ H1), bind_Ret. cbn in Hf. rewrite set_idx_nat by lia. rewrite bind_Ret.
    replace (Z.of_nat bi + 1) with (Z.of_nat (S bi)) by lia. replace (Z.of_nat ni + 2) with (Z.of_nat (S (S ni))) by lia.
    destruct (IH fuel (<[bi := pack2 hi lo]> hex) tail (S bi) (S (S ni))) as (hex' & Hrun & Hl & Ht);
      [by rewrite drop_insert_lt by lia | cbn; lia | lia | rewrite length_insert; lia | lia |].
    exists hex'. split; [exact Hrun |]. rewrite length_insert in Hl. split; [done |]. cbn [pack length].
    replace (bi + S (length (pack rest)))%nat with (S bi + length (pack rest))%nat by lia. rewrite Ht.
    rewrite (take_S_r _ _ (pack2 hi lo)) by (rewrite list_lookup_insert_eq; [done | lia]).
    rewrite take_insert_ge by lia. by rewrite <- app_assoc.
Qed.

(** ** The three encodings *)

(** The nibbles of a key, and the flags of its compact form. *)
Definition compact_of (ns : bytes) (term : bool) : bytes :=
  let flag := if term then 32 else 0 in
  if Nat.odd (length ns)
  then match ns with n0 :: ns => Z.lor (Z.lor flag 16) n0 :: pack ns | [] => [] end
  else flag :: pack ns.

Definition with_term (ns : bytes) (term : bool) : bytes := if term then ns ++ [16] else ns.

Lemma nibbles_no_term ns : Forall is_nibble ns -> hasTerm ns = Ret false.
Proof.
  intros H. unfold hasTerm. destruct (Z.ltb_spec 0 (zlen ns)) as [Hl | Hl]; [| done].
  unfold zlen in *. destruct ns as [| n ns] using rev_ind; [cbn in Hl; lia |]. clear IHns.
  rewrite length_app. replace (Z.of_nat (length ns + length [n]) - 1) with (Z.of_nat (length ns)) by (cbn; lia).
  rewrite (idx_nat _ _ n) by apply list_lookup_middle, eq_refl. rewrite bind_Ret.
  rewrite Forall_app, Forall_singleton in H. unfold is_nibble in H. destruct (Z.eqb_spec n 16); [lia | done].
Qed.

Lemma term_has_term ns : hasTerm (ns ++ [16]) = Ret true.
Proof.
  unfold hasTerm, zlen. rewrite length_app. destruct (Z.ltb_spec 0 (Z.of_nat (length ns + length [16]))); [| cbn in *; lia].
  replace (Z.of_nat (length ns + length [16]) - 1) with (Z.of_nat (length ns)) by (cbn; lia).
  rewrite (idx_nat _ _ 16) by apply list_lookup_middle, eq_refl. done.
Qed.

Lemma drop_term {A} (ns : list A) x : slice (ns ++ [x]) 0 (zlen (ns ++ [x]) - 1) = Ret ns.
Proof.
  replace (zlen (ns ++ [x]) - 1) with (zlen ns) by (unfold zlen; rewrite length_app; cbn; lia). apply slice_prefix.
Qed.

Lemma land_odd n : (Z.land (Z.of_nat n) 1 =? 1) = Nat.odd n.
Proof.
  change 1 with (Z.ones 1) at 1. rewrite Z.land_ones by lia.
  destruct (Nat.Even_or_Odd n) as [He | Ho].
  - pose proof He as [k ->]. rewrite <- Nat.negb_even. assert (Nat.even (2 * k) = true) as -> by by apply Nat.even_spec.
    cbn. apply Z.eqb_neq. replace (Z.of_nat (k + (k + 0))) with (Z.of_nat k * 2) by lia. by rewrite Z.mod_mul.
  - assert (Nat.odd n = true) as -> by by apply Nat.odd_spec. destruct Ho as [k ->].
    apply Z.eqb_eq. replace (Z.of_nat (2 * k + 1)) with (1 + Z.of_nat k * 2) by lia. by rewrite Z.mod_add.
Qed.

Lemma even_of_odd n : Nat.odd n = false -> Nat.Even n.
Proof. intros H. apply Nat.even_spec. rewrite <- Nat.negb_odd. by rewrite H. Qed.

Lemma even_pred {A} (x : A) l : Nat.odd (length (x :: l)) = true -> Nat.Even (length l).
Proof. intros H. apply Nat.even_spec. by rewrite <- Nat.odd_succ. Qed.

Lemma half_length (ns : bytes) : Nat.Even (length ns) -> Z.to_nat (zlen ns / 2) = length (pack ns).
Proof. intros He. pose proof (pack_length ns He). unfold zlen. Z.div_mod_to_equations. lia. Qed.

Lemma half_odd (n0 : Z) (ns : bytes) : Nat.Even (length ns) -> Z.to_nat (zlen (n0 :: ns) / 2) = length (pack ns).
Proof. intros He. pose proof (pack_length ns He). unfold zlen. cbn [length]. Z.div_mod_to_equations. lia. Qed.

Lemma half_plus (ns : bytes) : Z.to_nat (zlen ns / 2 + 1) = S (Z.to_nat (zlen ns / 2)).
Proof. unfold zlen. Z.div_mod_to_equations. lia. Qed.

Lemma hexToCompact_body (ns : bytes) (flag : Z) (term : bool) : flag = (if term then 1 else 0) ->
  (let buf := replicate (Z.to_nat (zlen ns / 2 + 1)) 0 in
   buf ← set_idx buf 0 (u8 (Z.shiftl flag 5));
   '(buf, hex) ← (if Z.land (zlen ns) 1 =? 1 then
       b0 ← idx buf 0; h0 ← idx ns 0;
       buf ← set_idx buf 0 (Z.lor (Z.lor b0 (Z.shiftl 1 4)) h0);
       hex ← slice ns 1 (zlen ns); Ret (buf, hex)
     else Ret (buf, ns));
   decodeNibbles hex buf 1) = Ret (compact_of ns term).
Proof.
  intros ->. cbn zeta. rewrite half_plus. cbn [replicate]. unfold compact_of.
  assert ((Z.land (zlen ns) 1 =? 1) = Nat.odd (length ns)) as -> by apply land_odd. rewrite set_idx_0, bind_Ret.
  assert (u8 ((if term then 1 else 0) ≪ 5) = if term then 32 else 0) as -> by by destruct term.
  destruct (Nat.odd (length ns)) eqn:Ho.
  - destruct ns as [| n0 ns]; [done |]. apply even_pred in Ho.
    rewrite !idx_0, !bind_Ret, set_idx_0, bind_Ret, slice_1, !bind_Ret.
    apply decodeNibbles_tail; [done |]. by rewrite length_replicate, half_odd.
  - apply even_of_odd in Ho. rewrite bind_Ret. apply decodeNibbles_tail; [done |]. by rewrite length_replicate, half_length.
Qed.

Lemma hexToCompact_spec ns term : Forall is_nibble ns -> hexToCompact (with_term ns term) = Ret (compact_of ns term).
Proof.
  intros Hn. unfold hexToCompact, with_term. destruct term.
  - rewrite term_has_term, bind_Ret, drop_term. cbn [mbind outcome_bind]. by apply (hexToCompact_body ns 1 true).
  - rewrite nibbles_no_term by done. cbn [mbind outcome_bind]. by apply (hexToCompact_body ns 0 false).
Qed.

(** The last part of the in-place conversion, once its flag byte is known. *)
Lemma in_place_spec (hex rest tail : bytes) (flag : Z) (ni : nat) :
  Nat.Even (length rest) -> drop ni hex = rest ++ tail -> (ni <= 1)%nat -> (1 <= length hex)%nat -> (ni <= length hex)%nat ->
  (hex' ← in_place_loop (S (length hex)) hex (Z.of_nat (ni + length rest)) 1 (Z.of_nat ni);
   hex' ← set_idx hex' 0 flag;
   slice hex' 0 (Z.of_nat (ni + length rest) / 2 + 1)) = Ret (flag :: pack rest).
Proof.
  intros He Hd Hn Hl Hl2.
  assert (length rest + length tail = length hex - ni)%nat as Hlen by by rewrite <- length_app, <- Hd, length_drop.
  destruct (in_place_loop_spec _ rest He (S (length hex)) hex tail 1 ni Hd eq_refl) as (hex' & Hrun & Hl' & Ht); [lia.. |].
  change (Z.of_nat 1) with 1 in Hrun. rewrite Hrun, bind_Ret.
  destruct hex' as [| h hex']; [cbn in Hl'; lia |]. rewrite set_idx_0, bind_Ret.
  pose proof (pack_length rest He) as Hp.
  replace (Z.of_nat (ni + length rest) / 2 + 1) with (Z.of_nat (1 + length (pack rest))) by (Z.div_mod_to_equations; lia).
  change 0 with (Z.of_nat 0). rewrite slice_nat.
  - rewrite drop_0, Nat.sub_0_r. destruct hex as [| h0 hex]; [cbn in Hl; lia |].
    cbn in Ht. injection Ht as _ Ht. cbn. by rewrite Ht.
  - assert (length (take (1 + length (pack rest)) (h :: hex')) = 1 + length (pack rest))%nat as Hk.
    { rewrite Ht, length_app, length_take. lia. }
    rewrite length_take in Hk. cbn [length] in *. lia.
Qed.

Lemma with_term_drop (ns : bytes) term : with_term ns term = ns ++ (if term then [16] else []).
Proof. destruct term; cbn; [done | by rewrite app_nil_r]. Qed.

Lemma hexToCompactInPlace_spec ns term :
  Forall is_nibble ns -> with_term ns term <> [] -> hexToCompactInPlace (with_term ns term) = Ret (compact_of ns term).
Proof.
  intros Hns Hne. unfold hexToCompactInPlace. fold (hasTerm (with_term ns term)).
  assert (hasTerm (with_term ns term) = Ret term) as ->.
  { destruct term; [apply term_has_term | by apply nibbles_no_term]. }
  rewrite bind_Ret.
  assert ((if term then (1 ≪ 5, zlen (with_term ns term) - 1) else (0, zlen (with_term ns term))) =
          ((if term then 32 else 0), Z.of_nat (length ns))) as ->.
  { destruct term; [| done]. unfold zlen, with_term. rewrite length_app. f_equal. cbn. lia. }
  cbn beta iota zeta. rewrite land_odd. unfold compact_of.
  assert (1 <= length (with_term ns term))%nat as Hl.
  { destruct (with_term ns term); [done | cbn; lia]. }
  destruct (Nat.odd (length ns)) eqn:Ho.
  - destruct ns as [| n0 ns]; [done |]. apply even_pred in Ho. rewrite with_term_drop in *.
    cbn [app]. rewrite idx_0, !bind_Ret. by apply (in_place_spec (n0 :: ns ++ (if term then [16] else [])) ns (if term then [16] else []) _ 1);
      [| | lia | cbn; lia | cbn; lia].
  - apply even_of_odd in Ho. rewrite bind_Ret.
    by apply (in_place_spec _ ns (if term then [16] else []) _ 0); [| rewrite drop_0; apply with_term_drop | lia | | lia].
Qed.

(** ** Reading the encodings back *)

Lemma nibbles_of_app a b : nibbles_of (a ++ b) = nibbles_of a ++ nibbles_of b.
Proof. induction a as [| x a IH]; cbn; [done | by rewrite IH]. Qed.

Lemma nibbles_of_nibbles l : Forall is_byte l -> Forall is_nibble (nibbles_of l).
Proof.
  induction 1 as [| b l Hb Hl IH]; cbn; [done |]. unfold is_byte, is_nibble in *.
  repeat constructor; [apply Z.div_pos; lia | apply Z.div_lt_upper_bound; lia | apply Z.mod_pos_bound; lia.. | done].
Qed.

Lemma nibbles_of_even l : Nat.Even (length (nibbles_of l)).
Proof. induction l as [| b l [k IH]]; [by exists 0%nat |]. exists (S k). cbn. rewrite IH. lia. Qed.

Lemma nibbles_of_pack ns : Nat.Even (length ns) -> Forall is_nibble ns -> nibbles_of (pack ns) = ns.
Proof.
  revert ns. refine (pairs_ind _ _ _); [done |]. intros a b l IH H. rewrite !Forall_cons in H. destruct H as (Ha & Hb & Hl).
  cbn. rewrite pack2_nibbles, IH by done. unfold is_nibble in *. f_equal; [| f_equal].
  - rewrite Z.add_comm, Z.mul_comm, Z.div_add, Z.div_small; lia.
  - rewrite Z.add_comm, Z.mul_comm, Z.mod_add, Z.mod_small; lia.
Qed.

Lemma pack_nibbles_of l : Forall is_byte l -> pack (nibbles_of l) = l.
Proof.
  induction 1 as [| b l Hb Hl IH]; [done |]. cbn. rewrite IH. f_equal.
  pose proof (nibbles_of_nibbles [b]) as Hn. rewrite Forall_singleton in Hn. specialize (Hn Hb). cbn in Hn.
  rewrite !Forall_cons in Hn. rewrite pack2_nibbles by tauto. symmetry. apply Z.div_mod. lia.
Qed.

Lemma lor_nibble flag n : (flag = 16 \/ flag = 48) -> is_nibble n -> Z.lor flag n = flag + n.
Proof.
  intros Hf Hn. assert (Forall (fun k => Z.lor 16 k = 16 + k /\ Z.lor 48 k = 48 + k) (seqZ 0 16)) as H by (repeat constructor).
  rewrite Forall_forall in H. destruct (H n) as [H16 H48]; [apply elem_of_seqZ; unfold is_nibble in Hn; lia |]. by destruct Hf as [-> | ->].
Qed.

(** The compact form with its flags read off: two nibbles of flags, or one flag and the
    first nibble. *)
Lemma nibbles_of_compact ns term : Forall is_nibble ns ->
  nibbles_of (compact_of ns term) =
    (if Nat.odd (length ns) then [(if term then 3 else 1)] else [(if term then 2 else 0); 0]) ++ ns.
Proof.
  intros H. unfold compact_of. destruct (Nat.odd (length ns)) eqn:Ho.
  - destruct ns as [| n0 ns]; [done |]. apply even_pred in Ho. apply Forall_cons in H as [H0 H].
    cbn [nibbles_of]. rewrite nibbles_of_pack by done.
    assert (Z.lor (Z.lor (if term then 32 else 0) 16) n0 = (if term then 48 else 16) + n0) as ->.
    { destruct term; cbn [Z.lor]; apply lor_nibble; auto. }
    cbn [app]. unfold is_nibble in H0. f_equal; [| f_equal]; destruct term; Z.div_mod_to_equations; lia.
  - apply even_of_odd in Ho. cbn [nibbles_of]. rewrite nibbles_of_pack by done. by destruct term.
Qed.

Lemma compactToHex_spec ns term : Forall is_nibble ns -> compactToHex (compact_of ns term) = Ret (with_term ns term).
Proof.
  intros H. unfold compactToHex, keybytesToHex. rewrite nibbles_of_compact by done.
  assert ((zlen (compact_of ns term) =? 0) = false) as ->.
  { apply Z.eqb_neq. unfold compact_of, zlen. destruct (Nat.odd (length ns)) eqn:Ho; [| cbn; lia].
    destruct ns; [done | cbn; lia]. }
  destruct (Nat.odd (length ns)), term; cbn [app]; rewrite idx_0, bind_Ret; cbn [Z.ltb Z.compare Pos.compare Pos.compare_cont].
  - rewrite bind_Ret. apply slice_1.
  - change (1 :: ns ++ [16]) with ((1 :: ns) ++ [16]). rewrite drop_term, bind_Ret. apply slice_1.
  - rewrite bind_Ret. apply slice_2.
  - change (0 :: 0 :: ns ++ [16]) with ((0 :: 0 :: ns) ++ [16]). rewrite drop_term, bind_Ret. apply slice_2.
Qed.

Lemma hexToKeybytes_spec key : Forall is_byte key -> hexToKeybytes (keybytesToHex key) = Ret key.
Proof.
  intros H. unfold hexToKeybytes, keybytesToHex. rewrite term_has_term, bind_Ret, drop_term, bind_Ret.
  pose proof (nibbles_of_even key) as He.
  assert (Z.land (zlen (nibbles_of key)) 1 = 0) as ->.
  { destruct He as [k Hk]. unfold zlen. rewrite Hk. change 1 with (Z.ones 1). rewrite Z.land_ones by lia.
    replace (Z.of_nat (2 * k)) with (Z.of_nat k * 2) by lia. by rewrite Z.mod_mul. }
  cbn -[decodeNibbles Z.to_nat Z.div]. rewrite half_length by done.
  change 0 with (Z.of_nat 0) at 2. rewrite decodeNibbles_spec; [| done | by rewrite length_replicate].
  cbn. by rewrite pack_nibbles_of.
Qed.

(** A key of the trie, as nibbles with or without the terminator. *)
Definition hex_ok (k : bytes) : Prop := exists ns term, Forall is_nibble ns /\ k = with_term ns term.

(** The compact form of a key loses nothing: for every key of nibbles, with or without the terminator, [hexToCompact]
    returns, [compactToHex] gives the key back, and unless the key is empty the in-place conversion, which overwrites the
    nibbles it reads, computes the same bytes. *)
Theorem compact_roundtrip k : hex_ok k ->
  exists c, hexToCompact k = Ret c /\ compactToHex c = Ret k /\ (k <> [] -> hexToCompactInPlace k = Ret c).
Proof.
  intros (ns & term & Hns & ->). exists (compact_of ns term).
  auto using hexToCompact_spec, compactToHex_spec, hexToCompactInPlace_spec.
Qed.

Lemma compact_roundtrip_witness :
  exists c, hexToCompact [1; 15; 3; 16] = Ret c /\ compactToHex c = Ret [1; 15; 3; 16] /\
    ([1; 15; 3; 16] <> [] -> hexToCompactInPlace [1; 15; 3; 16] = Ret c).
Proof.
  apply (compact_roundtrip [1; 15; 3; 16]). exists [1; 15; 3], true. split; [| reflexivity].
  repeat constructor; cbn; lia.
Defined.

(** The in-place conversion of the empty key writes the flag byte past its end. *)
Lemma in_place_empty : hexToCompact [] = Ret [0] /\ hexToCompactInPlace [] = Panic "index out of range".
Proof. done. Qed.
