(* ===== verification/Trie.v ===== *)
(** * The Merkle Patricia trie

    Models [vm/trie]: the nodes and their cached hashes ([node.go]), decoding a stored
    node, the reader of stored nodes ([trie_reader.go]), the tracer of changes
    ([tracer.go]), and the operations of [trie.go]: [New], [Get], [GetNode], [Update],
    [Delete] and what they do with nodes that are not loaded yet.

    A node interface that is [nil] is the constructor [Nil]. [rlp] of go-ethereum and the
    database below the trie are arguments. The recursion of the operations follows hash
    nodes into the database, which no measure of the node bounds, so it runs on fuel:
    [Spin] when it ends. Slices that alias ([append(prefix, ...)]) are read before they
    are overwritten, so paths are values here. *)
From Stdlib Require Import ZArith Lia.
From stdpp Require Import base gmap strings list pretty.
From S2P Require Import Prelude Utils JournalTypes Core TrieEncoding.

(** ** Nodes ([node.go]) *)

(** [nodeFlag]: the cached hash, [nil] when it is not known, and whether the node has to
    be written. *)
Record nodeFlag := mkFlag { f_hash : option bytes; f_dirty : bool }.

Inductive node :=
| Nil
| fullNode (Children : list node) (flags : nodeFlag)
| shortNode (Key : bytes) (Val : node) (flags : nodeFlag)
| hashNode (h : bytes)
| valueNode (v : bytes).

Definition is_nil (n : node) : bool := match n with Nil => true | _ => false end.

Definition node_cache (n : node) : outcome (option bytes * bool) :=
  match n with
  | Nil => Panic "nil dereference"
  | fullNode _ f | shortNode _ _ f => Ret (f_hash f, f_dirty f)
  | hashNode _ | valueNode _ => Ret (None, true)
  end.

Definition no_children : list node := replicate 17 Nil.

(** [common.BytesToHash]: the last 32 bytes. *)
Definition BytesToHash (b : bytes) : Z := u256 (bytes_to_Z b).
Definition hash_bytes (h : Z) : bytes := be_bytes 32 h.

(** ** [rlp]

    What the code uses of go-ethereum's [rlp]: taking the first value of an encoding
    apart, counting the values of a list, and the encodings of a string and of a list
    with the given content. *)
Inductive Kind := KByte | KString | KList.

Class RLP := {
  Split : bytes -> string + (Kind * bytes * bytes);
  SplitString : bytes -> string + (bytes * bytes);
  SplitList : bytes -> string + (bytes * bytes);
  CountValues : bytes -> Z;
  EncodeString : bytes -> bytes;
  EncodeList : bytes -> bytes
}.

Definition EmptyString : bytes := [0x80].

(** Errors of [decodeNode], with the path [wrapError] collects. *)
Inductive decodeErr :=
| ErrUnexpectedEOF
| ErrRlp (text : string)
| ErrElements (c : Z)
| ErrValueNode (text : string)
| ErrOversized (size : Z)
| ErrStringSize (size : Z)
| DecodeError (what : decodeErr) (stack : list string).

Definition wrapError (err : decodeErr) (ctx : string) : decodeErr :=
  match err with DecodeError what stack => DecodeError what (stack ++ [ctx]) | _ => DecodeError err [ctx] end.

Definition hashLen : Z := 32.

Section Decode.
Context `{rlp : RLP}.

Definition decodeRef (decodeNode : option bytes -> bytes -> res (decodeErr + node)) (buf : bytes) :
    res (decodeErr + (node * bytes)) :=
  match Split buf with
  | inl e => mret (inl (ErrRlp e))
  | inr (KList, _, rest) =>
      if hashLen <? zlen buf - zlen rest then mret (inl (ErrOversized (zlen buf - zlen rest))) else
      r ← decodeNode None buf;
      mret match r with inl e => inl e | inr n => inr (n, rest) end
  | inr (KString, [], rest) => mret (inr (Nil, rest))
  | inr (KString, val, rest) =>
      if zlen val =? 32 then mret (inr (hashNode val, rest)) else mret (inl (ErrStringSize (zlen val)))
  | inr (KByte, val, _) => mret (inl (ErrStringSize (zlen val)))
  end.

Definition decodeShort decodeNode (hash : option bytes) (elems : bytes) : res (decodeErr + node) :=
  match SplitString elems with
  | inl e => mret (inl (ErrRlp e))
  | inr (kbuf, rest) =>
      let flag := mkFlag hash false in
      key ← of_outcome (compactToHex kbuf);
      t ← of_outcome (hasTerm key);
      if t : bool then
        match SplitString rest with
        | inl e => mret (inl (ErrValueNode e))
        | inr (val, _) => mret (inr (shortNode key (valueNode val) flag))
        end
      else
        r ← decodeRef decodeNode rest;
        mret match r with inl e => inl (wrapError e "val") | inr (r, _) => inr (shortNode key r flag) end
  end.

(** The loop over the sixteen children, [i] of them done. *)
Fixpoint decodeChildren decodeNode (todo : nat) (i : Z) (elems : bytes) (done : list node) :
    res (decodeErr + (list node * bytes)) :=
  match todo with
  | O => mret (inr (done, elems))
  | S todo =>
      r ← decodeRef decodeNode elems;
      match r with
      | inl e => mret (inl (wrapError e ("[" +:+ pretty i +:+ "]")))
      | inr (cld, rest) => decodeChildren decodeNode todo (i + 1) rest (done ++ [cld])
      end
  end.

Definition decodeFull decodeNode (hash : option bytes) (elems : bytes) : res (decodeErr + node) :=
  r ← decodeChildren decodeNode 16 0 elems [];
  match r with
  | inl e => mret (inl e)
  | inr (cs, rest) =>
      match SplitString rest with
      | inl e => mret (inl (ErrRlp e))
      | inr (val, _) => mret (inr (fullNode (cs ++ [if 0 <? zlen val then valueNode val else Nil]) (mkFlag hash false)))
      end
  end.

(** [decodeNode] copies its argument and is [decodeNodeUnsafe]. *)
Fixpoint decodeNode (fuel : nat) (hash : option bytes) (buf : bytes) : res (decodeErr + node) :=
  match fuel with
  | O => Spin
  | S fuel =>
      if zlen buf =? 0 then mret (inl ErrUnexpectedEOF) else
      match SplitList buf with
      | inl e => mret (inl (ErrRlp e))
      | inr (elems, _) =>
          let c := CountValues elems in
          if c =? 2 then
            r ← decodeShort (decodeNode fuel) hash elems;
            mret match r with inl e => inl (wrapError e "short") | inr n => inr n end
          else if c =? 17 then
            r ← decodeFull (decodeNode fuel) hash elems;
            mret match r with inl e => inl (wrapError e "full") | inr n => inr n end
          else mret (inl (ErrElements c))
      end
  end.

(** An encoding nests at most as deep as it is long. *)
Definition mustDecodeNode (hash : option bytes) (buf : bytes) : res node :=
  r ← decodeNode (S (length buf)) hash buf;
  match r with inl _ => Crash "invalid trie node" | inr n => mret n end.

End Decode.

(** ** The tracer ([tracer.go]) *)

Record tracer := mkTracer { inserts : gset bytes; deletes : gset bytes; accessList : gmap bytes bytes }.

Definition newTracer : tracer := mkTracer ∅ ∅ ∅.
Definition onRead (t : tracer) (path val : bytes) : tracer := mkTracer (inserts t) (deletes t) (<[path := val]> (accessList t)).
Definition onInsert (t : tracer) (path : bytes) : tracer :=
  if decide (path ∈ deletes t) then mkTracer (inserts t) (deletes t ∖ {[path]}) (accessList t)
  else mkTracer (inserts t ∪ {[path]}) (deletes t) (accessList t).
Definition onDelete (t : tracer) (path : bytes) : tracer :=
  if decide (path ∈ inserts t) then mkTracer (inserts t ∖ {[path]}) (deletes t) (accessList t)
  else mkTracer (inserts t) (deletes t ∪ {[path]}) (accessList t).

(** The order is that of a map range. *)
Definition deletedNodes (t : tracer) : list bytes :=
  base.filter (fun path => path ∈ dom (accessList t)) (elements (deletes t)).

(** ** The reader ([trie_reader.go]) *)

(** [database.Reader]: [Node(owner, path, hash)] *)
Abbreviation Reader := (Z -> bytes -> Z -> string + bytes).

Inductive trieErr :=
| ErrCommitted
| MissingNodeError (Owner NodeHash : Z) (Path : bytes) (err : option string)
| ErrNonConsensus.

(** [banned] is set by tests only; it is kept because [node] reads it. *)
Record trieReader := mkReader { r_owner : Z; r_reader : option Reader; banned : option (gset bytes) }.

Definition EmptyRootHash : Z := 0x56e81f171bcc55a6ff8345e692c0f86e5b48e01b996cadc001622fb5e363b421.

(** [db] is [db.Reader(stateRoot)]. *)
Definition newTrieReader (db : Z -> string + Reader) (stateRoot owner : Z) : trieErr + trieReader :=
  if decide (stateRoot = 0 \/ stateRoot = EmptyRootHash) then inr (mkReader owner None None) else
  match db stateRoot with
  | inl e => inl (MissingNodeError owner stateRoot [] (Some e))
  | inr r => inr (mkReader owner (Some r) None)
  end.

Definition newEmptyReader : trieReader := mkReader 0 None None.

Definition reader_node (r : trieReader) (path : bytes) (hash : Z) : trieErr + bytes :=
  if match banned r with Some b => bool_decide (path ∈ b) | None => false end
  then inl (MissingNodeError (r_owner r) hash path None)
  else match r_reader r with
  | None => inl (MissingNodeError (r_owner r) hash path None)
  | Some rd =>
      match rd (r_owner r) path hash with
      | inl e => inl (MissingNodeError (r_owner r) hash path (Some e))
      | inr [] => inl (MissingNodeError (r_owner r) hash path None)
      | inr blob => inr blob
      end
  end.

(** ** The operations on nodes ([trie.go]) *)

(** The operations change the tracer beside their result. *)
Definition T (A : Type) : Type := tracer -> res (A * tracer).
#[global] Instance T_ret : MRet T := fun A a t => Val (a, t).
#[global] Instance T_bind : MBind T := fun A B f c t =>
  match c t with Val (a, t') => f a t' | Crash why => Crash why | Spin => Spin end.
Definition T_of {A} (o : outcome A) : T A := fun t => match o with Ret a => Val (a, t) | Panic why => Crash why end.
Definition T_res {A} (o : res A) : T A := fun t => match o with Val a => Val (a, t) | Crash why => Crash why | Spin => Spin end.
Definition trace (f : tracer -> tracer) : T unit := fun t => Val (tt, f t).
Definition spin {A} : T A := fun _ => Spin.

Definition newFlag : nodeFlag := mkFlag None true.

Section Operations.
Context `{rlp : RLP} (reader : trieReader).

Definition resolveAndTrack (n : bytes) (prefix : bytes) : T (trieErr + node) :=
  match reader_node reader prefix (BytesToHash n) with
  | inl e => mret (inl e)
  | inr blob =>
      trace (fun t => onRead t prefix blob);;
      rn ← T_res (mustDecodeNode (Some n) blob);
      mret (inr rn)
  end.

Definition resolve (n : node) (prefix : bytes) : T (trieErr + node) :=
  match n with hashNode h => resolveAndTrack h prefix | _ => mret (inr n) end.

(** [n.copy()] with one child replaced. *)
Definition set_child (cs : list node) (i : Z) (c : node) : T (list node) := T_of (set_idx cs i c).

(** The value, the node to put in place of the one searched, whether a stored node was
    loaded, and the error. *)
Fixpoint get (fuel : nat) (origNode : node) (key : bytes) (pos : Z) : T (option bytes * node * bool * option trieErr) :=
  match fuel with
  | O => spin
  | S fuel =>
      match origNode with
      | Nil => mret (None, Nil, false, None)
      | valueNode v => mret (Some v, origNode, false, None)
      | shortNode nKey nVal flags =>
          found ← (if zlen key - pos <? zlen nKey then mret false
                   else s ← T_of (slice key pos (pos + zlen nKey)); mret (bool_decide (nKey = s)));
          if negb found then mret (None, origNode, false, None) else
          '(value, newnode, didResolve, err) ← get fuel nVal key (pos + zlen nKey);
          mret (value, match err, didResolve with None, true => shortNode nKey newnode flags | _, _ => origNode end,
                didResolve, err)
      | fullNode cs flags =>
          k ← T_of (idx key pos);
          c ← T_of (idx cs k);
          '(value, newnode, didResolve, err) ← get fuel c key (pos + 1);
          match err, didResolve with
          | None, true => cs ← set_child cs k newnode; mret (value, fullNode cs flags, didResolve, err)
          | _, _ => mret (value, origNode, didResolve, err)
          end
      | hashNode h =>
          p ← T_of (slice key 0 pos);
          r ← resolveAndTrack h p;
          match r with
          | inl e => mret (None, origNode, true, Some e)
          | inr child =>
              '(value, newnode, _, err) ← get fuel child key pos;
              mret (value, newnode, true, err)
          end
      end
  end.

(** [value.(valueNode)] *)
Definition as_value (n : node) : T bytes := match n with valueNode v => mret v | _ => T_of (Panic "interface conversion") end.

Fixpoint insert (fuel : nat) (n : node) (prefix key : bytes) (value : node) : T (bool * node * option trieErr) :=
  match fuel with
  | O => spin
  | S fuel =>
      if zlen key =? 0 then
        match n with
        | valueNode v => w ← as_value value; mret (negb (bool_decide (v = w)), value, None)
        | _ => mret (true, value, None)
        end
      else match n with
      | shortNode nKey nVal flags =>
          let matchlen := prefixLen key nKey in
          if (matchlen =? length nKey)%nat then
            '(dirty, nn, err) ← insert fuel nVal (prefix ++ take matchlen key) (drop matchlen key) value;
            match err with
            | None => if dirty : bool then mret (true, shortNode nKey nn newFlag, None) else mret (false, n, None)
            | Some _ => mret (false, n, err)
            end
          else
            nk ← T_of (idx nKey (Z.of_nat matchlen));
            '(_, c1, err) ← insert fuel Nil (prefix ++ take (S matchlen) nKey) (drop (S matchlen) nKey) nVal;
            cs ← set_child no_children nk c1;
            match err with
            | Some _ => mret (false, Nil, err)
            | None =>
                k ← T_of (idx key (Z.of_nat matchlen));
                '(_, c2, err) ← insert fuel Nil (prefix ++ take (S matchlen) key) (drop (S matchlen) key) value;
                cs ← set_child cs k c2;
                match err with
                | Some _ => mret (false, Nil, err)
                | None =>
                    let branch := fullNode cs newFlag in
                    if (matchlen =? 0)%nat then mret (true, branch, None) else
                    trace (fun t => onInsert t (prefix ++ take matchlen key));;
                    mret (true, shortNode (take matchlen key) branch newFlag, None)
                end
            end
      | fullNode cs flags =>
          k ← T_of (idx key 0);
          c ← T_of (idx cs k);
          '(dirty, nn, err) ← insert fuel c (prefix ++ [k]) (drop 1 key) value;
          match err with
          | Some _ => mret (false, n, err)
          | None =>
              if dirty : bool then cs ← set_child cs k nn; mret (true, fullNode cs newFlag, None)
              else mret (false, n, None)
          end
      | Nil =>
          trace (fun t => onInsert t prefix);;
          mret (true, shortNode key value newFlag, None)
      | hashNode h =>
          r ← resolveAndTrack h prefix;
          match r with
          | inl e => mret (false, Nil, Some e)
          | inr rn =>
              '(dirty, nn, err) ← insert fuel rn prefix key value;
              match err with
              | Some _ => mret (false, rn, err)
              | None => if dirty : bool then mret (true, nn, None) else mret (false, rn, None)
              end
          end
      | valueNode _ => T_of (Panic "invalid node")
      end
  end.

(** The loop of [delete] over the children: the index of the only one left, -1 for
    none, -2 for several. *)
Fixpoint only_child (cs : list node) (i pos : Z) : Z :=
  match cs with
  | [] => pos
  | c :: cs => if is_nil c then only_child cs (i + 1) pos
               else if pos =? -1 then only_child cs (i + 1) i else -2
  end.

(** The end of the [fullNode] case: a node with one child left becomes a short node. *)
Definition reduce (cs : list node) (prefix : bytes) : T (bool * node * option trieErr) :=
  let pos := only_child cs 0 (-1) in
  if 0 <=? pos then
    c ← T_of (idx cs pos);
    if negb (pos =? 16) then
      r ← resolve c (prefix ++ [pos]);
      match r with
      | inl e => mret (false, Nil, Some e)
      | inr (shortNode cKey cVal _) =>
          trace (fun t => onDelete t (prefix ++ [pos]));;
          mret (true, shortNode (pos :: cKey) cVal newFlag, None)
      | inr _ => mret (true, shortNode [pos] c newFlag, None)
      end
    else mret (true, shortNode [pos] c newFlag, None)
  else mret (true, fullNode cs newFlag, None).

Fixpoint delete (fuel : nat) (n : node) (prefix key : bytes) : T (bool * node * option trieErr) :=
  match fuel with
  | O => spin
  | S fuel =>
      match n with
      | shortNode nKey nVal flags =>
          let matchlen := prefixLen key nKey in
          if (matchlen <? length nKey)%nat then mret (false, n, None)
          else if (matchlen =? length key)%nat then
            trace (fun t => onDelete t prefix);;
            mret (true, Nil, None)
          else
            '(dirty, child, err) ← delete fuel nVal (prefix ++ take (length nKey) key) (drop (length nKey) key);
            match err with
            | Some _ => mret (false, n, err)
            | None =>
                if dirty : bool then
                  match child with
                  | shortNode cKey cVal _ =>
                      trace (fun t => onDelete t (prefix ++ nKey));;
                      mret (true, shortNode (nKey ++ cKey) cVal newFlag, None)
                  | _ => mret (true, shortNode nKey child newFlag, None)
                  end
                else mret (false, n, None)
            end
      | fullNode cs flags =>
          k ← T_of (idx key 0);
          c ← T_of (idx cs k);
          '(dirty, nn, err) ← delete fuel c (prefix ++ [k]) (drop 1 key);
          match err with
          | Some _ => mret (false, n, err)
          | None =>
              if dirty : bool then
                cs ← set_child cs k nn;
                if negb (is_nil nn) then mret (true, fullNode cs newFlag, None) else reduce cs prefix
              else mret (false, n, None)
          end
      | valueNode _ => mret (true, Nil, None)
      | Nil => mret (false, Nil, None)
      | hashNode h =>
          r ← resolveAndTrack h prefix;
          match r with
          | inl e => mret (false, Nil, Some e)
          | inr rn =>
              '(dirty, nn, err) ← delete fuel rn prefix key;
              match err with
              | Some _ => mret (false, rn, err)
              | None => if dirty : bool then mret (true, nn, None) else mret (false, rn, None)
              end
          end
      end
  end.

(** The stored form of the node at a path, and how many nodes were loaded to reach it. *)
Fixpoint getNode (fuel : nat) (origNode : node) (path : bytes) (pos : Z) : T (option bytes * node * Z * option trieErr) :=
  match fuel with
  | O => spin
  | S fuel =>
      if is_nil origNode then mret (None, Nil, 0, None) else
      if zlen path <=? pos then
        h ← (match origNode with hashNode h => mret (Some h) | _ => c ← T_of (node_cache origNode); mret (fst c) end);
        match h with
        | None => mret (None, origNode, 0, Some ErrNonConsensus)
        | Some h =>
            match reader_node reader path (BytesToHash h) with
            | inl e => mret (None, origNode, 1, Some e)
            | inr blob => mret (Some blob, origNode, 1, None)
            end
        end
      else match origNode with
      | Nil | valueNode _ => mret (None, Nil, 0, None)
      | shortNode nKey nVal flags =>
          found ← (if zlen path - pos <? zlen nKey then mret false
                   else s ← T_of (slice path pos (pos + zlen nKey)); mret (bool_decide (nKey = s)));
          if negb found then mret (None, origNode, 0, None) else
          '(item, newnode, resolved, err) ← getNode fuel nVal path (pos + zlen nKey);
          mret (item, match err with None => if 0 <? resolved then shortNode nKey newnode flags else origNode
                      | Some _ => origNode end, resolved, err)
      | fullNode cs flags =>
          k ← T_of (idx path pos);
          c ← T_of (idx cs k);
          '(item, newnode, resolved, err) ← getNode fuel c path (pos + 1);
          match err with
          | None => if 0 <? resolved then cs ← set_child cs k newnode; mret (item, fullNode cs flags, resolved, err)
                    else mret (item, origNode, resolved, err)
          | Some _ => mret (item, origNode, resolved, err)
          end
      | hashNode h =>
          p ← T_of (slice path 0 pos);
          r ← resolveAndTrack h p;
          match r with
          | inl e => mret (None, origNode, 1, Some e)
          | inr child =>
              '(item, newnode, resolved, err) ← getNode fuel child path pos;
              mret (item, newnode, resolved + 1, err)
          end
      end
  end.

End Operations.

(** ** The trie *)

Record Trie := mkTrie {
  root : node; owner : Z; committed : bool; unhashed : Z; t_reader : trieReader; t_tracer : tracer
}.

Definition with_root (t : Trie) (n : node) : Trie := mkTrie n (owner t) (committed t) (unhashed t) (t_reader t) (t_tracer t).
Definition with_tracer (t : Trie) (tr : tracer) : Trie := mkTrie (root t) (owner t) (committed t) (unhashed t) (t_reader t) tr.
Definition count_change (t : Trie) : Trie := mkTrie (root t) (owner t) (committed t) (unhashed t + 1) (t_reader t) (t_tracer t).

(** Run an operation on the nodes with the tracer of the trie. *)
Definition on_trie {A} (t : Trie) (op : T A) : res (A * Trie) :=
  '(a, tr) ← op (t_tracer t); mret (a, with_tracer t tr).

Section Trie.
Context `{rlp : RLP} (fuel : nat).

Record ID := mkID { StateRoot : Z; Owner : Z; Root : Z }.
Definition TrieID (r : Z) : ID := mkID r 0 r.
Definition StorageTrieID (stateRoot owner root : Z) : ID := mkID stateRoot owner root.

Definition New (id : ID) (db : Z -> string + Reader) : res (trieErr + Trie) :=
  match newTrieReader db (StateRoot id) (Owner id) with
  | inl e => mret (inl e)
  | inr reader =>
      let trie := mkTrie Nil (Owner id) false 0 reader newTracer in
      if decide (Root id = 0 \/ Root id = EmptyRootHash) then mret (inr trie) else
      '(r, trie) ← on_trie trie (resolveAndTrack reader (hash_bytes (Root id)) []);
      mret match r with inl e => inl e | inr rootnode => inr (with_root trie rootnode) end
  end.

(** The error of [New] is dropped: the trie is [nil] when there is one. *)
Definition NewEmpty (db : Z -> string + Reader) : res (option Trie) :=
  r ← New (TrieID EmptyRootHash) db;
  mret match r with inl _ => None | inr t => Some t end.

Definition Get (t : Trie) (key : bytes) : res (option bytes * option trieErr * Trie) :=
  if committed t then mret (None, Some ErrCommitted, t) else
  '(value, newroot, didResolve, err, t) ← on_trie t (get (t_reader t) fuel (root t) (keybytesToHex key) 0);
  mret (value, err, match err, didResolve with None, true => with_root t newroot | _, _ => t end).

Definition GetNode (t : Trie) (path : bytes) : res (option bytes * Z * option trieErr * Trie) :=
  if committed t then mret (None, 0, Some ErrCommitted, t) else
  path ← of_outcome (compactToHex path);
  '(item, newroot, resolved, err, t) ← on_trie t (getNode (t_reader t) fuel (root t) path 0);
  match err with
  | Some _ => mret (None, resolved, err, t)
  | None => mret (item, resolved, None, if 0 <? resolved then with_root t newroot else t)
  end.

Definition update (t : Trie) (key value : bytes) : res (option trieErr * Trie) :=
  let t := count_change t in
  let k := keybytesToHex key in
  '(_, n, err, t) ← (if negb (zlen value =? 0) then on_trie t (insert (t_reader t) fuel (root t) [] k (valueNode value))
                     else on_trie t (delete (t_reader t) fuel (root t) [] k));
  match err with Some _ => mret (err, t) | None => mret (None, with_root t n) end.

Definition Update (t : Trie) (key value : bytes) : res (option trieErr * Trie) :=
  if committed t then mret (Some ErrCommitted, t) else update t key value.

Definition Delete (t : Trie) (key : bytes) : res (option trieErr * Trie) :=
  if committed t then mret (Some ErrCommitted, t) else
  let t := count_change t in
  '(_, n, err, t) ← on_trie t (delete (t_reader t) fuel (root t) [] (keybytesToHex key));
  match err with Some _ => mret (err, t) | None => mret (None, with_root t n) end.

(** The blobs that were read. *)
Definition Witness (t : Trie) : gset bytes := list_to_set (map snd (map_to_list (accessList (t_tracer t)))).

Definition Reset (t : Trie) : Trie := mkTrie Nil 0 false 0 (t_reader t) newTracer.

End Trie.
