(* ===== verification/TrieHash.v ===== *)
(** * Hashing and committing a trie

    Models [vm/trie/node-enc.go], [hasher.go], [commiter.go], the node sets of
    [trienode/node.go], and [Hash] and [Commit] of [trie.go].

    The hasher works on all children of a full node at once when many nodes changed; the
    goroutines write disjoint elements, so the result is that of the loop. [keccak] is an
    argument. *)
From Stdlib Require Import ZArith Lia.
From stdpp Require Import base gmap strings list.
From S2P Require Import Prelude Utils JournalTypes Core TrieEncoding Trie.

Section Hash.
Context `{rlp : RLP} (keccak : bytes -> bytes).

(** ** Encoding ([node-enc.go]) *)

(** A child that is [nil] is written as the empty string. *)
Fixpoint encode (n : node) : bytes :=
  match n with
  | Nil => EmptyString
  | fullNode cs _ => EncodeList (concat (map encode cs))
  | shortNode k v _ => EncodeList (EncodeString k ++ encode v)
  | hashNode h => EncodeString h
  | valueNode v => EncodeString v
  end.

Definition nodeToBytes (n : node) : bytes := encode n.

(** ** The hasher ([hasher.go]) *)

Definition hashData (data : bytes) : node := hashNode (keccak data).

(** [shortnodeToHash] and [fullnodeToHash]: small nodes stay inside their parent. *)
Definition nodeToHash (n : node) (force : bool) : node :=
  let enc := encode n in
  if (zlen enc <? 32) && negb force then n else hashData enc.

Definition hash_of (n : node) : option bytes := match n with hashNode h => Some h | _ => None end.

Definition nilValueNode : node := valueNode [].

(** The node in the form its hash is taken of, or its hash, and the node with the hashes
    cached. *)
Fixpoint hash (n : node) (force : bool) : outcome (node * node) :=
  match n with
  | Nil => Panic "nil dereference"
  | shortNode k v f =>
      match f_hash f with
      | Some h => Ret (hashNode h, n)
      | None =>
          ck ← hexToCompact k;
          '(cv, cached) ← match v with fullNode _ _ | shortNode _ _ _ => hash v false | _ => Ret (v, v) end;
          let hashed := nodeToHash (shortNode ck cv f) force in
          Ret (hashed, shortNode k cached (mkFlag (hash_of hashed) (f_dirty f)))
      end
  | fullNode cs f =>
      match f_hash f with
      | Some h => Ret (hashNode h, n)
      | None =>
          '(ccs, cached) ← (fix children (i : nat) (cs : list node) : outcome (list node * list node) :=
            match cs with
            | [] => Ret ([], [])
            | c :: cs =>
                '(cc, cac) ← (if (i <? 16)%nat then
                    (if is_nil c then Ret (nilValueNode, Nil) else hash c false)
                  else Ret (c, c));
                '(ccs, cached) ← children (S i) cs;
                Ret (cc :: ccs, cac :: cached)
            end) 0%nat cs;
          let hashed := nodeToHash (fullNode ccs f) force in
          Ret (hashed, fullNode cached (mkFlag (hash_of hashed) (f_dirty f)))
      end
  | hashNode _ | valueNode _ => Ret (n, n)
  end.

(** ** [Hash] *)

Definition as_hash (n : node) : outcome bytes := match n with hashNode h => Ret h | _ => Panic "interface conversion" end.

Definition hashRoot (t : Trie) : outcome (node * node * Trie) :=
  match root t with
  | Nil => Ret (hashNode (hash_bytes EmptyRootHash), Nil, t)
  | n => '(hashed, cached) ← hash n true;
         Ret (hashed, cached, mkTrie (root t) (owner t) (committed t) 0 (t_reader t) (t_tracer t))
  end.

Definition Hash (t : Trie) : outcome (Z * Trie) :=
  '(hashed, cached, t) ← hashRoot t;
  h ← as_hash hashed;
  Ret (BytesToHash h, with_root t cached).

(** ** Node sets ([trienode/node.go]) *)

Record Node := mkNode { nd_Hash : Z; nd_Blob : bytes }.
Definition IsDeleted (n : Node) : bool := zlen (nd_Blob n) =? 0.
Definition NewDeleted : Node := mkNode 0 [].

Record leaf := mkLeaf { lf_Blob : bytes; lf_Parent : Z }.

Record NodeSet := mkNodeSet { ns_Owner : Z; Leaves : list leaf; Nodes : gmap bytes Node; ns_updates : Z; ns_deletes : Z }.

Definition NewNodeSet (owner : Z) : NodeSet := mkNodeSet owner [] ∅ 0 0.

Definition AddNode (s : NodeSet) (path : bytes) (n : Node) : NodeSet :=
  mkNodeSet (ns_Owner s) (Leaves s) (<[path := n]> (Nodes s))
    (if IsDeleted n then ns_updates s else ns_updates s + 1) (if IsDeleted n then ns_deletes s + 1 else ns_deletes s).

Definition AddLeaf (s : NodeSet) (parent : Z) (blob : bytes) : NodeSet :=
  mkNodeSet (ns_Owner s) (Leaves s ++ [mkLeaf blob parent]) (Nodes s) (ns_updates s) (ns_deletes s).

Definition set_Size (s : NodeSet) : Z * Z := (ns_updates s, ns_deletes s).

(** The range over a map, in the order [map_to_list] gives: every entry touches its own path. *)
Definition set_Merge (s : NodeSet) (owner : Z) (nodes : gmap bytes Node) : option NodeSet :=
  if negb (ns_Owner s =? owner) then None else
  Some (foldl (fun s '(path, n) =>
    let s := match Nodes s !! path with
      | Some prev => mkNodeSet (ns_Owner s) (Leaves s) (Nodes s)
          (if IsDeleted prev then ns_updates s else ns_updates s - 1) (if IsDeleted prev then ns_deletes s - 1 else ns_deletes s)
      | None => s
      end in AddNode s path n) s (map_to_list nodes)).

(** ** The committer ([commiter.go]) *)

Section Commit.
Context (tr : tracer) (collectLeaf : bool).

Definition store (s : NodeSet) (path : bytes) (n : node) : outcome (node * NodeSet) :=
  '(h, _) ← node_cache n;
  match h with
  | None => Ret (n, if decide (path ∈ dom (accessList tr)) then AddNode s path NewDeleted else s)
  | Some h =>
      let nhash := BytesToHash h in
      let s := AddNode s path (mkNode nhash (nodeToBytes n)) in
      Ret (hashNode h, match n with
        | shortNode _ (valueNode v) _ => if collectLeaf then AddLeaf s nhash v else s
        | _ => s
        end)
  end.

Definition is_full (n : node) : bool := match n with fullNode _ _ => true | _ => false end.

Fixpoint commit (s : NodeSet) (path : bytes) (n : node) : outcome (node * NodeSet) :=
  match n with
  | Nil => Panic "nil dereference"
  | shortNode k v f =>
      match f_hash f, f_dirty f with
      | Some h, false => Ret (hashNode h, s)
      | _, _ =>
          '(cv, s) ← (if is_full v then commit s (path ++ k) v else Ret (v, s));
          ck ← hexToCompact k;
          store s path (shortNode ck cv f)
      end
  | fullNode cs f =>
      match f_hash f, f_dirty f with
      | Some h, false => Ret (hashNode h, s)
      | _, _ =>
          '(kids, s) ← (fix commitChildren (i : nat) (cs : list node) (s : NodeSet) : outcome (list node * NodeSet) :=
            match cs with
            | [] => Ret ([], s)
            | c :: cs =>
                '(cc, s) ← (if (i <? 16)%nat then
                    match c with Nil | hashNode _ => Ret (c, s) | _ => commit s (path ++ [Z.of_nat i]) c end
                  else Ret (c, s));
                '(ccs, s) ← commitChildren (S i) cs s;
                Ret (cc :: ccs, s)
            end) 0%nat cs s;
          store s path (fullNode kids f)
      end
  | hashNode _ => Ret (n, s)
  | valueNode _ => Panic "invalid node"
  end.

End Commit.

(** ** [Commit] *)

Definition closed (t : Trie) (n : node) : Trie := mkTrie n (owner t) true (unhashed t) (t_reader t) (t_tracer t).

Definition deleted_set (t : Trie) : NodeSet :=
  foldl (fun s path => AddNode s path NewDeleted) (NewNodeSet (owner t)) (deletedNodes (t_tracer t)).

Definition Commit (t : Trie) (collectLeaf : bool) : outcome (Z * option NodeSet * Trie) :=
  match root t with
  | Nil =>
      if zlen (deletedNodes (t_tracer t)) =? 0 then Ret (EmptyRootHash, None, closed t Nil)
      else Ret (EmptyRootHash, Some (deleted_set t), closed t Nil)
  | _ =>
      '(rootHash, t) ← Hash t;
      '(h, dirty) ← node_cache (root t);
      if negb dirty then Ret (rootHash, None, closed t (hashNode (default [] h))) else
      '(n, s) ← commit (t_tracer t) collectLeaf (deleted_set t) [] (root t);
      h ← as_hash n;
      Ret (rootHash, Some s, closed t (hashNode h))
  end.

End Hash.
