(* ===== verification/TrieProofs.v ===== *)
(** * The trie is a finite map

    A well-formed trie over a database that holds its unloaded nodes behaves as a map
    from byte strings to non-empty byte strings: every operation returns within fuel
    linear in the length of the key, without an error, and reads and changes exactly the
    binding it names.

    [Has] is the content of a node at a path, through the nodes that are not loaded;
    [WF] is the canonical form the operations keep: no short node below a short node, at
    least two children in a full node, values exactly where keys end. *)
From Stdlib Require Import ZArith Lia.
From stdpp Require Import base gmap strings list.
From S2P Require Import Prelude Utils JournalTypes Core TrieEncoding Trie TrieHash.

Definition nibbles (p : bytes) : Prop := Forall is_nibble p.

(** A whole key: nibbles and the terminator. *)
Definition full_key (k : bytes) : Prop := exists q, nibbles q /\ k = q ++ [16].

Lemma keybytes_full key : Forall is_byte key -> full_key (keybytesToHex key).
Proof. intros H. exists (nibbles_of key). split; [by apply nibbles_of_nibbles | done]. Qed.

Lemma nibbles_app p q : nibbles (p ++ q) <-> nibbles p /\ nibbles q.
Proof. apply Forall_app. Qed.

Lemma full_key_split p k : full_key (p ++ k) -> k <> [] -> nibbles p /\ full_key k.
Proof.
  intros (q & Hq & H) Hk. destruct (exists_last Hk) as (k' & x & ->). rewrite app_assoc in H.
  apply app_inj_tail in H as [<- ->]. apply nibbles_app in Hq as [Hp Hk']. split; [done | by exists k'].
Qed.

Lemma full_key_pre p k : full_key (p ++ k) -> k <> [] -> nibbles p.
Proof. intros H Hk. by destruct (full_key_split p k H Hk). Qed.

Lemma full_key_not_nibbles k : full_key k -> ~ nibbles k.
Proof.
  intros (q & Hq & ->) H. apply nibbles_app in H as [_ H]. inversion H as [| ? ? H1]; subst. unfold is_nibble in H1. lia.
Qed.

Lemma full_key_nil : ~ full_key [].
Proof. intros (q & _ & H). by destruct q. Qed.

(** The first element of a whole key is a child index. *)
Lemma full_key_head x k : full_key (x :: k) -> 0 <= x < 17.
Proof.
  intros ([| y q] & Hq & H); injection H as -> ->; [lia |]. inversion Hq as [| ? ? H1]; subst. unfold is_nibble in H1. lia.
Qed.

(** A key is exhausted exactly after the terminator. *)
Lemma full_key_term x k : full_key (x :: k) -> (x = 16 <-> k = []).
Proof.
  intros ([| y q] & Hq & H); injection H as -> ->; [done |]. inversion Hq as [| ? ? H1]; subst.
  unfold is_nibble in H1. split; [lia | by destruct q].
Qed.

Lemma full_key_common p a b : full_key (p ++ a) -> full_key (p ++ b) -> a = [] -> b = [].
Proof.
  intros Ha Hb ->. rewrite app_nil_r in Ha. destruct b as [| x b]; [done |].
  destruct (full_key_split p (x :: b) Hb) as [Hp _]; [done |]. by apply full_key_not_nibbles in Ha.
Qed.

(** ** Common prefixes *)

Lemma prefixLen_spec a b : exists c a' b', a = c ++ a' /\ b = c ++ b' /\ prefixLen a b = length c /\
  match a', b' with x :: _, y :: _ => x <> y | _, _ => True end.
Proof.
  revert b. induction a as [| x a IH]; intros [| y b]; cbn.
  - by exists [], [], [].
  - by exists [], [], (y :: b).
  - by exists [], (x :: a), [].
  - destruct (Z.eqb_spec x y) as [-> | Hne].
    + destruct (IH b) as (c & a' & b' & -> & -> & Hl & Hd). exists (y :: c), a', b'. cbn. auto.
    + by exists [], (x :: a), (y :: b).
Qed.

#[export] Instance head_dec (key : bytes) x : Decision (exists r, key = x :: r).
Proof.
  destruct key as [| y r]; [right; by intros (r & ?) |].
  destruct (decide (y = x)) as [-> | Hne]; [left; eauto | right; intros (r' & He); by injection He].
Defined.

#[export] Instance node_nil_dec (n : node) : Decision (n = Nil).
Proof. destruct n; first [by left | by right]. Defined.

(** ** Runs *)

Lemma T_bind_Val {A B} (c : T A) (f : A -> T B) tr a tr' : c tr = Val (a, tr') -> (c ≫= f) tr = f a tr'.
Proof. unfold mbind, T_bind. by intros ->. Qed.

Lemma T_of_Ret {A} (o : outcome A) a tr : o = Ret a -> T_of o tr = Val (a, tr).
Proof. by intros ->. Qed.

Section Content.
Context `{rlp : RLP} (keccak : bytes -> bytes) (reader : trieReader).

(** The database holds [n] under the hash [h] at path [p]. *)
Definition resolves (h p : bytes) (n : node) : Prop :=
  exists blob, reader_node reader p (BytesToHash h) = inr blob /\ mustDecodeNode (Some h) blob = Val n.

Lemma resolves_fun h p n n' : resolves h p n -> resolves h p n' -> n = n'.
Proof. intros (b & H1 & H2) (b' & H1' & H2'). rewrite H1 in H1'. injection H1' as <-. rewrite H2 in H2'. by injection H2'. Qed.

Lemma resolves_run h p n tr : resolves h p n -> exists tr', resolveAndTrack reader h p tr = Val (inr n, tr').
Proof.
  intros (b & H1 & H2). unfold resolveAndTrack. rewrite H1. unfold mbind, T_bind, trace, T_res. rewrite H2. eauto.
Qed.

(** ** Content *)

Inductive Has : bytes -> node -> bytes -> bytes -> Prop :=
| Has_value p v : Has p (valueNode v) [] v
| Has_short p k c f rest v : Has (p ++ k) c rest v -> Has p (shortNode k c f) (k ++ rest) v
| Has_full p cs f i c rest v : cs !! i = Some c -> Has (p ++ [Z.of_nat i]) c rest v ->
    Has p (fullNode cs f) (Z.of_nat i :: rest) v
| Has_hash p h n k v : resolves h p n -> Has p n k v -> Has p (hashNode h) k v.

Lemma Has_nil p k v : ~ Has p Nil k v.
Proof. inversion 1. Qed.

Lemma Has_value_inv p v k w : Has p (valueNode v) k w <-> k = [] /\ w = v.
Proof. split; [inversion 1; subst; auto | intros [-> ->]; constructor]. Qed.

Lemma Has_short_inv p k c f key v : Has p (shortNode k c f) key v <-> exists rest, key = k ++ rest /\ Has (p ++ k) c rest v.
Proof. split; [inversion 1; subst; eauto | intros (rest & -> & H); by constructor]. Qed.

Lemma Has_full_inv p cs f key v : Has p (fullNode cs f) key v <->
  exists i c rest, key = Z.of_nat i :: rest /\ cs !! i = Some c /\ Has (p ++ [Z.of_nat i]) c rest v.
Proof. split; [inversion 1; subst; eauto 6 | intros (i & c & rest & -> & Hc & H); by econstructor]. Qed.

(** The content below one child. *)
Lemma Has_child p cs f x c rest v : 0 <= x -> cs !! Z.to_nat x = Some c ->
  Has p (fullNode cs f) (x :: rest) v <-> Has (p ++ [x]) c rest v.
Proof.
  intros Hx Hc. assert (Z.of_nat (Z.to_nat x) = x) as Hid by lia. rewrite Has_full_inv. split.
  - intros (i & c' & r' & He & Hi & H). injection He as -> ->. rewrite Nat2Z.id in Hc. rewrite Hc in Hi. by injection Hi as ->.
  - intros H. exists (Z.to_nat x), c, rest. by rewrite Hid.
Qed.

Lemma Has_hash_inv p h n key v : resolves h p n -> Has p (hashNode h) key v <-> Has p n key v.
Proof.
  intros Hr. split; [inversion 1; subst; by rewrite (resolves_fun _ _ _ _ Hr ltac:(eassumption)) | by apply Has_hash].
Qed.

Lemma Has_fun p n k v w : Has p n k v -> Has p n k w -> v = w.
Proof.
  intros H. revert w. induction H as [p v | p k c f rest v H IH | p cs f i c rest v Hc H IH | p h n k v Hr H IH]; intros w H'.
  - apply Has_value_inv in H' as [_ ->]. done.
  - apply Has_short_inv in H' as (rest' & He & H'). apply app_inv_head in He as ->. auto.
  - apply Has_full_inv in H' as (i' & c' & rest' & He & Hc' & H'). injection He as Hi ->. apply Nat2Z.inj in Hi as <-.
    rewrite Hc in Hc'. injection Hc' as <-. auto.
  - rewrite (Has_hash_inv _ _ _ _ _ Hr) in H'. auto.
Qed.

(** ** Well-formed nodes *)

(** What may stand below a short node. *)
Definition tip (p : bytes) (c : node) : Prop :=
  match c with
  | valueNode _ | fullNode _ _ => True
  | hashNode h => exists cs f, resolves h p (fullNode cs f)
  | _ => False
  end.

Definition loaded (n : node) : Prop := match n with fullNode _ _ | shortNode _ _ _ => True | _ => False end.

#[export] Instance loaded_dec n : Decision (loaded n).
Proof using Type. destruct n; apply _. Defined.

(** *** Encodings and hashes

    The encoding a node is hashed with, without regard to what is cached or loaded: a child is
    embedded when it is small and referred to by its hash otherwise. *)

Definition compact (k : bytes) : bytes := match hexToCompact k with Ret c => c | Panic _ => [] end.

Definition embed (c : node) (e : bytes) : bytes :=
  if decide (loaded c) then if zlen e <? 32 then e else EncodeString (keccak e) else e.

Fixpoint node_rlp (n : node) : bytes :=
  match n with
  | Nil => EmptyString
  | fullNode cs _ => EncodeList (concat (map (fun c => embed c (node_rlp c)) cs))
  | shortNode k c _ => EncodeList (EncodeString (compact k) ++ embed c (node_rlp c))
  | hashNode h => EncodeString h
  | valueNode v => EncodeString v
  end.

Definition ref_rlp (c : node) : bytes := embed c (node_rlp c).

(** [h] is the hash of a node with encoding [e] at [p]; only the root has one when it is small. *)
Definition linked (p h e : bytes) : Prop := h = keccak e /\ (p <> [] -> 32 <= zlen e).

Definition node_flag (n : node) : option nodeFlag := match n with fullNode _ f | shortNode _ _ f => Some f | _ => None end.
Definition subnodes (n : node) : list node := match n with fullNode cs _ => cs | shortNode _ c _ => [c] | _ => [] end.

(** A node that is not embedded in its parent has its hash cached. *)
Definition flagged (n : node) : Prop := forall f, node_flag n = Some f -> 32 <= zlen (node_rlp n) -> is_Some (f_hash f).

(** The database holds the node under its hash, perhaps with less of it loaded. *)
Definition kept (p h : bytes) (n : node) : Prop :=
  exists n', resolves h p n' /\ loaded n' /\ node_rlp n' = node_rlp n /\ forall k v, Has p n' k v <-> Has p n k v.

(** A cached hash is right, and so are the hashes below it; a node that is not dirty is in the database, or in its parent. *)
Definition flag_ok (p : bytes) (n : node) (f : nodeFlag) : Prop :=
  match f_hash f with
  | Some h => linked p h (node_rlp n) /\ Forall flagged (subnodes n) /\ (f_dirty f = false -> kept p h n)
  | None => f_dirty f = true \/ (p <> [] /\ zlen (node_rlp n) < 32)
  end.

Lemma flag_new p n : flag_ok p n newFlag.
Proof using Type. by left. Qed.

(** The flag of a node from the database. *)
Lemma decode_flag fuel hash buf n : decodeNode fuel hash buf = Val (inr n) -> node_flag n = Some (mkFlag hash false).
Proof using Type.
  clear keccak reader. destruct fuel as [| fuel]; cbn [decodeNode]; [done |]. destruct (zlen buf =? 0); [done |]. destruct (SplitList buf) as [e | [elems rest]]; [done |].
  destruct (CountValues elems =? 2).
  - unfold decodeShort. destruct (SplitString elems) as [e | [kbuf r]]; [done |]. destruct (compactToHex kbuf) as [key |]; [| done]. cbn.
    destruct (hasTerm key) as [[] |]; cbn; [| | done].
    + destruct (SplitString r) as [e | [val r']]; [done |]. cbn. by intros [= <-].
    + destruct (decodeRef _ r) as [[e | [c r']] | |]; cbn; [done | by intros [= <-] | done | done].
  - destruct (CountValues elems =? 17); [| done]. unfold decodeFull. destruct (decodeChildren _ _ _ _ _) as [[e | [cs r]] | |]; cbn; [done | | done | done].
    destruct (SplitString r) as [e | [val r']]; cbn; [done | by intros [= <-]].
Qed.

Lemma resolves_flag h p n : resolves h p n -> node_flag n = Some (mkFlag (Some h) false).
Proof using Type.
  intros (b & _ & H). unfold mustDecodeNode in H. destruct (decodeNode _ _ _) as [[e | n'] | |] eqn:E; cbn in H; [done | | done | done].
  injection H as <-. by eapply decode_flag.
Qed.

Lemma resolves_flagged h p n : resolves h p n -> flagged n.
Proof using Type. intros Hr f Hf _. rewrite (resolves_flag _ _ _ Hr) in Hf. injection Hf as <-. by exists h. Qed.

(** A flag stays right when what the node shows does. *)
Lemma flag_ok_same p n n' f : flag_ok p n f -> node_rlp n' = node_rlp n -> (Forall flagged (subnodes n) -> Forall flagged (subnodes n')) ->
  (forall k v, Has p n' k v <-> Has p n k v) -> flag_ok p n' f.
Proof using Type.
  unfold flag_ok. intros Hf He Hk Hs. rewrite He. destruct (f_hash f) as [h |]; [| done]. destruct Hf as (H1 & H2 & H3). split_and!; [done | by apply Hk |].
  intros Hd. destruct (H3 Hd) as (x & Hr & Hl & Hx & Hh). exists x. rewrite He. split_and!; [done.. |]. intros k v. by rewrite Hh, Hs.
Qed.

Definition two_children (cs : list node) : Prop :=
  exists i j a b, i <> j /\ cs !! i = Some a /\ cs !! j = Some b /\ a <> Nil /\ b <> Nil.

Inductive WF : bytes -> node -> Prop :=
| WF_value q v : nibbles q -> v <> [] -> WF (q ++ [16]) (valueNode v)
| WF_short p k c f : nibbles p -> k <> [] -> WF (p ++ k) c -> tip (p ++ k) c -> flag_ok p (shortNode k c f) f ->
    WF p (shortNode k c f)
| WF_full p cs f : nibbles p -> length cs = 17%nat ->
    (forall i c, cs !! i = Some c -> c <> Nil -> WF (p ++ [Z.of_nat i]) c) -> two_children cs ->
    flag_ok p (fullNode cs f) f -> WF p (fullNode cs f)
| WF_hash p h n : nibbles p -> resolves h p n -> loaded n -> WF p n -> linked p h (node_rlp n) -> WF p (hashNode h).

#[local] Hint Resolve flag_new : core.

Definition WFo (p : bytes) (n : node) : Prop := n = Nil \/ WF p n.

Lemma WF_nibbles p n : WF p n -> match n with valueNode _ => full_key p | _ => nibbles p end.
Proof using Type. destruct 1; try done. by exists q. Qed.

Lemma WF_not_nil p : ~ WF p Nil.
Proof using Type. inversion 1. Qed.

Lemma WF_short_inv p k c f : WF p (shortNode k c f) ->
  nibbles p /\ k <> [] /\ WF (p ++ k) c /\ tip (p ++ k) c.
Proof using Type. inversion 1; subst; auto. Qed.

Lemma WF_short_flag p k c f : WF p (shortNode k c f) -> flag_ok p (shortNode k c f) f.
Proof using Type. by inversion 1. Qed.

Lemma WF_full_flag p cs f : WF p (fullNode cs f) -> flag_ok p (fullNode cs f) f.
Proof using Type. by inversion 1. Qed.

Lemma WF_flag p n f : WF p n -> node_flag n = Some f -> flag_ok p n f.
Proof using Type. destruct n; try done; intros Hw [= <-]; [by apply WF_full_flag | by apply WF_short_flag]. Qed.

Lemma WF_linked p n f h : WF p n -> node_flag n = Some f -> f_hash f = Some h -> linked p h (node_rlp n).
Proof using Type. intros Hw Hf Hh. pose proof (WF_flag p n f Hw Hf) as H. unfold flag_ok in H. rewrite Hh in H. apply H. Qed.

(** Every key of a well-formed node is a whole key. *)
Lemma WF_keys p n k v : WF p n -> Has p n k v -> full_key (p ++ k) /\ v <> [].
Proof using Type.
  intros Hw. revert k v. induction Hw as [q v' Hq Hv | p k c f Hp Hk Hw IH Ht Hfo | p cs f Hp Hl Hw IH H2 Hfo | p h n Hp Hr Hl Hw IH Hlk];
    intros key v H.
  - apply Has_value_inv in H as [-> ->]. rewrite app_nil_r. split; [by exists q | done].
  - apply Has_short_inv in H as (rest & -> & H). rewrite app_assoc. auto.
  - apply Has_full_inv in H as (i & c & rest & -> & Hc & H). replace (p ++ Z.of_nat i :: rest) with ((p ++ [Z.of_nat i]) ++ rest)
      by (by rewrite <- app_assoc). eapply IH; [done | | done]. intros ->. by apply Has_nil in H.
  - rewrite (Has_hash_inv _ _ _ _ _ Hr) in H. auto.
Qed.

(** ** The same content *)

(** The hash of a node as the root. *)
Definition root_digest (n : node) : bytes := match n with hashNode h => h | _ => keccak (node_rlp n) end.

(** [n'] may stand for [n] at [p]: it is well formed, has the same content, and may stand below a
    short node if [n] may. *)
Record same (p : bytes) (n n' : node) : Prop := {
  sm_wf : WF p n';
  sm_has : forall k v, Has p n' k v <-> Has p n k v;
  sm_tip : tip p n -> tip p n';
  sm_ref : p <> [] -> ref_rlp n' = ref_rlp n;
  sm_root : root_digest n' = root_digest n;
  sm_flagged : flagged n -> flagged n'
}.

Lemma same_refl p n : WF p n -> same p n n.
Proof using Type. by split. Qed.

Lemma same_short p k c c' f : WF p (shortNode k c f) -> same (p ++ k) c c' -> same p (shortNode k c f) (shortNode k c' f).
Proof using Type.
  intros Hws [Hw' Hs Ht' Hr _ Hfl]. pose proof Hws as (Hp & Hk & Hw & Ht)%WF_short_inv.
  assert (node_rlp (shortNode k c' f) = node_rlp (shortNode k c f)) as He.
  { cbn [node_rlp]. fold (ref_rlp c'). fold (ref_rlp c). rewrite Hr; [done |]. by destruct p, k. }
  assert (forall key v, Has p (shortNode k c' f) key v <-> Has p (shortNode k c f) key v) as Hh by (intros key v; rewrite !Has_short_inv; by setoid_rewrite Hs).
  split; [constructor; auto | done | done | | |].
  - eapply flag_ok_same; [by apply WF_short_flag | done | | done]. cbn. rewrite !Forall_singleton. done.
  - intros _. unfold ref_rlp. by rewrite He.
  - unfold root_digest. by rewrite He.
  - intros H x Hx. rewrite He. by apply H.
Qed.

Lemma two_children_insert cs i c' : c' <> Nil -> two_children cs -> two_children (<[i := c']> cs).
Proof using Type.
  intros Hn' (a & b & ca & cb & Hab & Ha & Hb & Hna & Hnb).
  exists a, b, (if decide (a = i) then c' else ca), (if decide (b = i) then c' else cb).
  split; [done |]. repeat split; repeat case_decide; subst; try done;
    rewrite ?list_lookup_insert_eq, ?list_lookup_insert_ne by (done || by eapply lookup_lt_Some); done.
Qed.

Lemma Has_full_insert p cs f f' x c' key w : 0 <= x < zlen cs ->
  Has p (fullNode (<[Z.to_nat x := c']> cs) f') key w <->
  (exists r, key = x :: r /\ Has (p ++ [x]) c' r w) \/ ((forall r, key <> x :: r) /\ Has p (fullNode cs f) key w).
Proof using Type.
  unfold zlen. intros Hx. assert (Z.of_nat (Z.to_nat x) = x) as Hid by lia. split.
  - intros H. pose proof H as (i & c & r & -> & Hc & H')%Has_full_inv. destruct (decide (i = Z.to_nat x)) as [-> | Hi].
    + left. rewrite Hid in *. exists r. split; [done |]. rewrite list_lookup_insert_eq in Hc by lia. by injection Hc as ->.
    + right. rewrite list_lookup_insert_ne in Hc by done. split; [intros r' He; injection He; lia | by eapply Has_full].
  - intros [(r & -> & H) | [Hne H]].
    + rewrite <- Hid at 2. eapply Has_full; [by apply list_lookup_insert_eq; lia | by rewrite Hid].
    + apply Has_full_inv in H as (i & c & r & -> & Hc & H). eapply Has_full; [| done].
      rewrite list_lookup_insert_ne; [done |]. intros <-. apply (Hne r). by rewrite Hid.
Qed.

Lemma WF_full_insert p cs f f' x c' : WF p (fullNode cs f) -> 0 <= x < zlen cs -> WF (p ++ [x]) c' ->
  flag_ok p (fullNode (<[Z.to_nat x := c']> cs) f') f' -> WF p (fullNode (<[Z.to_nat x := c']> cs) f').
Proof using Type.
  unfold zlen. intros Hw Hx Hw' Hfl. inversion Hw as [| | ? ? ? Hp Hl Hws H2 |]; subst.
  assert (c' <> Nil) by (intros ->; by eapply WF_not_nil).
  constructor; [done | by rewrite length_insert | | by apply two_children_insert | done].
  intros j d Hd Hdn. destruct (decide (j = Z.to_nat x)) as [-> | Hj].
  - rewrite list_lookup_insert_eq in Hd by lia. injection Hd as <-. by rewrite Z2Nat.id by lia.
  - rewrite list_lookup_insert_ne in Hd by done. auto.
Qed.

Lemma node_rlp_insert cs f f' i c c' : cs !! i = Some c -> ref_rlp c' = ref_rlp c ->
  node_rlp (fullNode (<[i := c']> cs) f') = node_rlp (fullNode cs f).
Proof using Type.
  intros Hc Hr. cbn [node_rlp]. do 2 f_equal. change (map ref_rlp (<[i := c']> cs) = map ref_rlp cs).
  apply list_eq. intros j. rewrite !list_lookup_fmap.
  destruct (decide (j = i)) as [-> | Hj]; [| by rewrite list_lookup_insert_ne].
  rewrite list_lookup_insert_eq by by eapply lookup_lt_Some. rewrite Hc. cbn. by rewrite Hr.
Qed.

Lemma same_full p cs f x c c' : WF p (fullNode cs f) -> 0 <= x < zlen cs -> cs !! Z.to_nat x = Some c ->
  same (p ++ [x]) c c' -> same p (fullNode cs f) (fullNode (<[Z.to_nat x := c']> cs) f).
Proof using Type.
  intros Hw Hx Hc [Hw' Hs _ Hr _ Hfl].
  assert (node_rlp (fullNode (<[Z.to_nat x := c']> cs) f) = node_rlp (fullNode cs f)) as He.
  { eapply node_rlp_insert; [done |]. apply Hr. by destruct p. }
  assert (forall key v, Has p (fullNode (<[Z.to_nat x := c']> cs) f) key v <-> Has p (fullNode cs f) key v) as Hh.
  { intros key v. rewrite (Has_full_insert _ _ f) by done. split.
    - intros [(r & -> & H) | [_ H]]; [| done]. rewrite (Has_child _ _ _ x _ _ _ ltac:(lia) Hc). by apply Hs.
    - intros H. destruct (decide (exists r, key = x :: r)) as [(r & ->) | Hne].
      + left. exists r. split; [done |]. apply Hs. by rewrite (Has_child _ _ _ x _ _ _ ltac:(lia) Hc) in H.
      + right. split; [intros r ->; apply Hne; by exists r | done]. }
  split; [| done | done | intros _; unfold ref_rlp; by rewrite He | unfold root_digest; by rewrite He |].
  - eapply WF_full_insert; [done.. |]. eapply flag_ok_same; [by apply WF_full_flag | done | | done]. cbn. intros H. apply Forall_insert; [done |].
    apply Hfl. rewrite Forall_lookup in H. by eapply H.
  - intros H y Hy. rewrite He. by apply H.
Qed.

Lemma same_hash p h n n' : resolves h p n -> loaded n -> linked p h (node_rlp n) -> same p n n' -> same p (hashNode h) n'.
Proof using Type.
  intros Hr Hl [-> Hsz] [Hw' Hs Ht Hrf Hrt Hfl]. split; [done | | | | | intros _; by eapply Hfl, resolves_flagged].
  - intros k v. by rewrite Hs, (Has_hash_inv _ _ _ _ _ Hr).
  - intros (cs & f & Hr'). rewrite (resolves_fun _ _ _ _ Hr Hr') in Ht. by apply Ht.
  - intros Hp. rewrite Hrf by done. unfold ref_rlp, embed. rewrite decide_True by done. rewrite decide_False by (by intros []).
    destruct (Z.ltb_spec (zlen (node_rlp n)) 32); [specialize (Hsz Hp); lia | done].
  - rewrite Hrt. by destruct n.
Qed.

(** ** [get] *)

(** Fuel enough for a key of [len] elements: two units per element, as a node may have to be loaded
    for each. *)
Definition need (n : node) (len : nat) : nat := (2 * len + match n with hashNode _ => 2 | _ => 1 end)%nat.

Lemma need_bound n len : (need n len <= 2 * len + 2)%nat.
Proof using Type. unfold need. destruct n; lia. Qed.

Lemma path_slice (p k rest : bytes) : slice (p ++ k ++ rest) (zlen p) (zlen p + zlen k) = Ret k.
Proof using Type.
  unfold zlen. rewrite <- Nat2Z.inj_add, slice_nat by (rewrite !length_app; lia).
  rewrite drop_app_length. replace (length p + length k - length p)%nat with (length k) by lia. by rewrite take_app_length.
Qed.

Lemma path_idx (p : bytes) x rest : idx (p ++ x :: rest) (zlen p) = Ret x.
Proof using Type. apply idx_nat. by apply list_lookup_middle. Qed.

Definition got (p : bytes) (n : node) (rest : bytes) (run : res (option bytes * node * bool * option trieErr * tracer)) : Prop :=
  exists value n' b tr', run = Val (value, n', b, None, tr') /\ same p n n' /\ forall v, value = Some v <-> Has p n rest v.

(** The test of the short node. *)
Lemma short_found (p k rest : bytes) : exists r, forall tr,
  (if zlen (p ++ rest) - zlen p <? zlen k then mret false
   else s ← T_of (slice (p ++ rest) (zlen p) (zlen p + zlen k)); mret (bool_decide (k = s))) tr = Val (r, tr) /\
  (r = true <-> exists rest', rest = k ++ rest').
Proof using Type.
  assert (zlen (p ++ rest) - zlen p = zlen rest) as -> by (unfold zlen; rewrite length_app; lia).
  destruct (Z.ltb_spec (zlen rest) (zlen k)) as [Hlt | Hge].
  - exists false. intros tr. split; [done |]. split; [done |]. intros (r' & ->). unfold zlen in Hlt. rewrite length_app in Hlt. lia.
  - unfold zlen in Hge. exists (bool_decide (k = take (length k) rest)). intros tr.
    assert (slice (p ++ rest) (zlen p) (zlen p + zlen k) = Ret (take (length k) rest)) as ->.
    { unfold zlen. rewrite <- Nat2Z.inj_add, slice_nat by (rewrite length_app; lia).
      rewrite drop_app_length. by replace (length p + length k - length p)%nat with (length k) by lia. }
    split; [done |]. rewrite bool_decide_eq_true. split.
    + intros He. exists (drop (length k) rest). rewrite He at 1. by rewrite take_drop.
    + intros (r' & ->). by rewrite take_app_length.
Qed.

Lemma get_spec p n : WF p n -> forall rest fuel tr, full_key (p ++ rest) -> (need n (length rest) <= fuel)%nat ->
  got p n rest (get reader fuel n (p ++ rest) (zlen p) tr).
Proof using Type.
  induction 1 as [q v' Hq Hv | p k c f Hp Hk Hw IH Ht Hfo | p cs f Hp Hl Hw IH H2 Hfo | p h n Hp Hr Hl Hw IH Hlk]; intros rest fuel tr Hfk Hf;
    (destruct fuel as [| fuel]; [unfold need in Hf; lia |]); cbn [get].
  - assert (rest = []) as ->. { destruct rest as [| x rest]; [done |]. apply full_key_split in Hfk as [Hn _]; [| done].
      apply full_key_not_nibbles in Hn; [done | by exists q]. }
    do 4 eexists. split; [done |]. split; [by apply same_refl; constructor |]. intros v. rewrite Has_value_inv. naive_solver.
  - destruct (short_found p k rest) as (r & Hr). destruct (Hr tr) as [Hrun Hfound].
    rewrite (T_bind_Val _ _ _ _ _ Hrun). destruct r; cbn [negb].
    + destruct (proj1 Hfound eq_refl) as (rest' & ->).
      assert (zlen p + zlen k = zlen (p ++ k)) as -> by (unfold zlen; rewrite length_app; lia).
      rewrite app_assoc in Hfk |- *. rewrite length_app in Hf. assert (0 < length k)%nat by (destruct k; cbn; [done | lia]).
      destruct (IH rest' fuel tr Hfk) as (value & n' & b & tr' & Hg & Hs & Hval);
        [pose proof (need_bound c (length rest')); unfold need in Hf; lia |].
      rewrite (T_bind_Val _ _ _ _ _ Hg). do 4 eexists. split; [done |]. split.
      * destruct b; [apply same_short; [by constructor | done] | by apply same_refl; constructor].
      * intros v. rewrite Hval, Has_short_inv. split; [eauto | intros (r' & He & H3); by apply app_inv_head in He as ->].
    + do 4 eexists. split; [done |]. split; [by apply same_refl; constructor |].
      intros v. rewrite Has_short_inv. split; [done |]. intros (r' & He & _). naive_solver.
  - destruct rest as [| x rest]; [rewrite app_nil_r in Hfk; by apply full_key_not_nibbles in Hfk |].
    destruct (full_key_split _ _ Hfk) as [_ Hrest]; [done |]. pose proof (full_key_head _ _ Hrest) as Hx.
    rewrite (T_bind_Val _ _ _ _ _ (T_of_Ret _ _ tr (path_idx p x rest))).
    destruct (lookup_lt_is_Some_2 cs (Z.to_nat x)) as [c Hc]; [lia |].
    rewrite (T_bind_Val _ _ _ _ _ (T_of_Ret _ _ tr (idx_returns cs x c ltac:(lia) Hc))).
    assert (zlen p + 1 = zlen (p ++ [x])) as -> by (unfold zlen; rewrite length_app; cbn; lia).
    replace (p ++ x :: rest) with ((p ++ [x]) ++ rest) in Hfk |- * by (by rewrite <- app_assoc).
    assert (Z.of_nat (Z.to_nat x) = x) as Hid by lia.
    destruct (decide (c = Nil)) as [-> | Hn].
    + destruct fuel as [| fuel]; [unfold need in Hf; cbn in Hf; lia |].
      rewrite (T_bind_Val _ _ tr (None, Nil, false, None) tr) by done.
      do 4 eexists. split; [done |]. split; [by apply same_refl; constructor |]. intros v. rewrite (Has_child _ _ _ x _ _ _ ltac:(lia) Hc).
      split; [done | by intros ?%Has_nil].
    + specialize (IH _ _ Hc Hn). rewrite Hid in IH. cbn [length] in Hf.
      destruct (IH rest fuel tr Hfk) as (value & n' & b & tr' & Hg & Hs & Hval);
        [pose proof (need_bound c (length rest)); unfold need in Hf; lia |].
      rewrite (T_bind_Val _ _ _ _ _ Hg).
      assert (forall v, value = Some v <-> Has p (fullNode cs f) (x :: rest) v) as Hval'
        by (intros v; by rewrite Hval, (Has_child _ _ _ x _ _ _ ltac:(lia) Hc)).
      destruct b.
      * unfold set_child. rewrite (T_bind_Val _ _ _ _ _ (T_of_Ret _ _ tr' (set_idx_returns cs x n' ltac:(unfold zlen; lia)))).
        do 4 eexists. split; [done |]. split; [by eapply same_full; [constructor | unfold zlen; lia | |] | done].
      * do 4 eexists. split; [done |]. split; [by apply same_refl; constructor | done].
  - unfold zlen. assert (slice (p ++ rest) 0 (Z.of_nat (length p)) = Ret p) as -> by apply slice_prefix.
    rewrite (T_bind_Val _ _ tr p tr) by done.
    destruct (resolves_run h p n tr Hr) as (tr1 & Hrun). rewrite (T_bind_Val _ _ _ _ _ Hrun).
    destruct (IH rest fuel tr1 Hfk) as (value & n' & b & tr' & Hg & Hs & Hval);
      [destruct n; try done; unfold need in *; lia |].
    unfold zlen in Hg. rewrite (T_bind_Val _ _ _ _ _ Hg). do 4 eexists. split; [done |].
    split; [by eapply same_hash |]. intros v. by rewrite Hval, (Has_hash_inv _ _ _ _ _ Hr).
Qed.

(** ** [insert] *)

(** A node reached over the nibbles [k]. *)
Definition graft (k : bytes) (c : node) : node := match k with [] => c | _ => shortNode k c newFlag end.

Lemma Has_graft p k c key w : Has p (graft k c) key w <-> exists r, key = k ++ r /\ Has (p ++ k) c r w.
Proof using Type.
  destruct k as [| x k]; [| apply Has_short_inv].
  rewrite app_nil_r. split; [intros H; by exists key | by intros (r & -> & H)].
Qed.

Lemma WF_graft p k c : WF (p ++ k) c -> tip (p ++ k) c -> (k <> [] -> nibbles p) -> WF p (graft k c).
Proof using Type.
  destruct k as [| x k]; cbn; [by rewrite app_nil_r |]. intros Hw Ht Hp. constructor; auto.
Qed.

Lemma insert_nil fuel p k c tr : exists tr', insert reader (S fuel) Nil p k c tr = Val (true, graft k c, None, tr').
Proof using Type. destruct k; cbn [insert]; eauto. Qed.

(** The branch at which two keys part. *)
Lemma branch_spec p x y cx cy : nibbles p -> 0 <= x < 17 -> 0 <= y < 17 -> x <> y -> WF (p ++ [x]) cx -> WF (p ++ [y]) cy ->
  let b := fullNode (<[Z.to_nat x := cx]> (<[Z.to_nat y := cy]> no_children)) newFlag in
  WF p b /\ forall key w, Has p b key w <->
    (exists r, key = x :: r /\ Has (p ++ [x]) cx r w) \/ (exists r, key = y :: r /\ Has (p ++ [y]) cy r w).
Proof using Type.
  intros Hp Hx Hy Hne Hwx Hwy b.
  assert (forall i c, no_children !! i = Some c -> c = Nil) as Hnil by (intros i c Hi; by apply lookup_replicate in Hi as [-> _]).
  split.
  - constructor; [done | by rewrite !length_insert | | | apply flag_new].
    + intros i c Hc Hn. destruct (decide (i = Z.to_nat x)) as [-> | Hix].
      { rewrite list_lookup_insert_eq in Hc by (rewrite length_insert; cbn; lia). injection Hc as <-. by rewrite Z2Nat.id by lia. }
      rewrite list_lookup_insert_ne in Hc by done. destruct (decide (i = Z.to_nat y)) as [-> | Hiy].
      { rewrite list_lookup_insert_eq in Hc by (cbn; lia). injection Hc as <-. by rewrite Z2Nat.id by lia. }
      rewrite list_lookup_insert_ne in Hc by done. by apply Hnil in Hc.
    + exists (Z.to_nat x), (Z.to_nat y), cx, cy. split; [lia |].
      rewrite list_lookup_insert_eq by (rewrite length_insert; cbn; lia).
      rewrite list_lookup_insert_ne by lia. rewrite list_lookup_insert_eq by (cbn; lia).
      repeat split; intros ->; by eapply WF_not_nil.
  - intros key w. unfold b. rewrite (Has_full_insert _ _ newFlag) by (unfold zlen; rewrite length_insert; cbn; lia).
    rewrite (Has_full_insert _ _ newFlag) by (unfold zlen; cbn; lia). split.
    + intros [H | [_ [H | [_ H]]]]; [by left | by right |]. apply Has_full_inv in H as (i & c & r & -> & Hc & H).
      apply Hnil in Hc as ->. by apply Has_nil in H.
    + intros [H | (r & -> & H)]; [by left |]. right. split; [congruence |]. left. eauto.
Qed.

(** [n'] is [n] with [rest] bound to [v]. *)
Record stored (p : bytes) (n : node) (rest v : bytes) (n' : node) : Prop := {
  st_wf : WF p n';
  st_has : forall k w, Has p n' k w <-> if decide (k = rest) then w = v else Has p n k w;
  st_tip : tip p n -> tip p n'
}.

Lemma stored_same p n rest v : WF p n -> Has p n rest v -> stored p n rest v n.
Proof using Type.
  intros Hw H. split; [done | | done]. intros k w. case_decide as He; [subst | done].
  split; [intros H'; by eapply Has_fun | by intros ->].
Qed.

Definition inserted (p : bytes) (n : node) (rest v : bytes) (run : res (bool * node * option trieErr * tracer)) : Prop :=
  exists d n' tr', run = Val (d, n', None, tr') /\ stored p n rest v n' /\ (d = false -> Has p n rest v).

Lemma WF_leaf_value p v : full_key p -> v <> [] -> WF p (valueNode v).
Proof using Type. intros (q & Hq & ->) Hv. by constructor. Qed.

Lemma stored_nil p rest v : full_key (p ++ rest) -> v <> [] -> stored p Nil rest v (graft rest (valueNode v)).
Proof using Type.
  intros Hfk Hv. split; [| | done].
  - apply WF_graft; [by apply WF_leaf_value | done | by apply full_key_pre].
  - intros k w. rewrite Has_graft. case_decide as He.
    + subst. split; [intros (r & He & [-> ->]%Has_value_inv); done | intros ->; exists []; rewrite app_nil_r; split; [done | constructor]].
    + split; [intros (r & -> & [-> _]%Has_value_inv); by rewrite app_nil_r in He | by intros ?%Has_nil].
Qed.

Lemma stored_short p k c f r v c' : WF p (shortNode k c f) -> stored (p ++ k) c r v c' ->
  stored p (shortNode k c f) (k ++ r) v (shortNode k c' newFlag).
Proof using Type.
  intros (Hp & Hk & Hw & Ht)%WF_short_inv [Hw' Hs Ht']. split; [by constructor; auto | | done].
  intros key w. rewrite !Has_short_inv. case_decide as He.
  - subst. split; [intros (r' & He & H); apply app_inv_head in He as <-; apply Hs in H; by case_decide |].
    intros ->. exists r. split; [done |]. apply Hs. by case_decide.
  - rewrite Has_short_inv. split; intros (r' & -> & H); exists r'; (split; [done |]);
      [apply Hs in H | apply Hs]; case_decide; congruence.
Qed.

Lemma stored_full p cs f x r v c c' : WF p (fullNode cs f) -> 0 <= x < zlen cs -> cs !! Z.to_nat x = Some c ->
  stored (p ++ [x]) c r v c' -> stored p (fullNode cs f) (x :: r) v (fullNode (<[Z.to_nat x := c']> cs) newFlag).
Proof using Type.
  intros Hw Hx Hc [Hw' Hs _]. split; [by eapply WF_full_insert | | done].
  intros key w. rewrite (Has_full_insert _ _ f) by done. split.
  - intros [(r' & -> & H) | [Hne H]]; [| by rewrite decide_False]. apply Hs in H. repeat case_decide; try congruence.
    by rewrite (Has_child _ _ _ x _ _ _ ltac:(lia) Hc).
  - intros H. destruct (decide (exists r, key = x :: r)) as [(r' & ->) | Hne].
    + left. exists r'. split; [done |]. apply Hs. repeat case_decide; try congruence.
      by rewrite (Has_child _ _ _ x _ _ _ ltac:(lia) Hc) in H.
    + right. split; [intros r' ->; apply Hne; by exists r' |]. case_decide; [| done]. subst. destruct Hne. by exists r.
Qed.

Lemma stored_hash p h n rest v n' : resolves h p n -> stored p n rest v n' -> stored p (hashNode h) rest v n'.
Proof using Type.
  intros Hr [Hw Hs Ht]. split; [done | |].
  - intros k w. rewrite Hs. case_decide; [done |]. by rewrite (Has_hash_inv _ _ _ _ _ Hr).
  - intros (cs & f & Hr'). rewrite (resolves_fun _ _ _ _ Hr Hr') in Ht. by apply Ht.
Qed.

(** A short node split where the keys part. *)
Lemma stored_split p m x k y r c f v : WF p (shortNode (m ++ y :: r) c f) -> full_key (p ++ m ++ x :: k) -> x <> y -> v <> [] ->
  stored p (shortNode (m ++ y :: r) c f) (m ++ x :: k) v
    (graft m (fullNode (<[Z.to_nat x := graft k (valueNode v)]> (<[Z.to_nat y := graft r c]> no_children)) newFlag)).
Proof using Type.
  intros (Hp & _ & Hw & Ht)%WF_short_inv Hfk Hne Hv. rewrite app_assoc in Hfk.
  destruct (full_key_split _ _ Hfk) as [Hpm Hxk]; [done |]. pose proof (full_key_head _ _ Hxk) as Hx.
  assert (full_key ((p ++ m) ++ [x] ++ k)) as Hfk' by done. rewrite app_assoc in Hfk'.
  replace (p ++ m ++ y :: r) with (((p ++ m) ++ [y]) ++ r) in Hw, Ht by (by rewrite <- !app_assoc).
  assert (0 <= y < 17 /\ (r <> [] -> nibbles ((p ++ m) ++ [y]))) as [Hy Hyr].
  { pose proof (WF_nibbles _ _ Hw) as Hn.
    assert (nibbles (((p ++ m) ++ [y]) ++ r) \/ full_key (((p ++ m) ++ [y]) ++ r)) as [[H _]%nibbles_app | Hk]
      by (destruct c; auto).
    - split; [| done]. apply nibbles_app in H as [_ H]. unfold nibbles in H. rewrite Forall_singleton in H. unfold is_nibble in H. lia.
    - split; [| by apply full_key_pre]. rewrite <- app_assoc in Hk.
      destruct (full_key_split _ _ Hk) as [_ H]; [done |]. by apply full_key_head in H. }
  destruct (branch_spec (p ++ m) x y (graft k (valueNode v)) (graft r c)) as [Hwb Hb]; [done.. | | |].
  { apply WF_graft; [by apply WF_leaf_value | done | by apply full_key_pre]. }
  { by apply WF_graft. }
  split; [apply WF_graft; [done | done | by intros _] | | done].
  intros key w. rewrite Has_graft. setoid_rewrite Hb. setoid_rewrite Has_graft. split.
  - intros (? & -> & [(? & -> & s & -> & [-> ->]%Has_value_inv) | (? & -> & s & -> & H)]).
    + rewrite app_nil_r. by rewrite decide_True.
    + rewrite decide_False by (intros He; apply app_inv_head in He; congruence). apply Has_short_inv. exists s.
      split; [by rewrite <- app_assoc |]. by rewrite <- !app_assoc in H.
  - case_decide as He.
    + intros ->. subst. exists (x :: k). split; [done |]. left. exists k. split; [done |]. exists []. rewrite app_nil_r.
      split; [done | constructor].
    + intros (s & -> & H)%Has_short_inv. exists (y :: r ++ s). split; [by rewrite <- app_assoc |]. right. exists (r ++ s). split; [done |].
      exists s. split; [done |]. by rewrite <- !app_assoc.
Qed.

Lemma prefix_whole (key k : bytes) : (prefixLen key k =? length k)%nat = true -> exists r, key = k ++ r /\ prefixLen key k = length k.
Proof using Type.
  intros H%Nat.eqb_eq. destruct (prefixLen_spec key k) as (m & a' & b' & -> & -> & Hl & _). rewrite Hl in H.
  rewrite length_app in H. assert (b' = []) as -> by (apply nil_length_inv; lia). rewrite app_nil_r in *. eauto.
Qed.

(** Two keys that part: the one inserted goes on, because a whole key is no prefix of another. *)
Lemma prefix_parts p key k c f : WF p (shortNode k c f) -> full_key (p ++ key) -> (prefixLen key k =? length k)%nat = false ->
  exists m x a y b, key = m ++ x :: a /\ k = m ++ y :: b /\ prefixLen key k = length m /\ x <> y.
Proof using Type.
  intros (Hp & Hk & Hw & Ht)%WF_short_inv Hfk H%Nat.eqb_neq.
  destruct (prefixLen_spec key k) as (m & a' & b' & -> & -> & Hl & Hd). rewrite Hl in H.
  destruct b' as [| y b']; [by rewrite app_nil_r in H |].
  destruct a' as [| x a']; [| by exists m, x, a', y, b']. exfalso.
  rewrite app_nil_r in Hfk. pose proof (WF_nibbles _ _ Hw) as Hn.
  assert (nibbles (p ++ m)) as Hpm; [| by apply full_key_not_nibbles in Hfk].
  rewrite app_assoc in Hn. destruct c; try (by apply nibbles_app in Hn as [Hn _]). by eapply full_key_pre.
Qed.

Lemma insert_split fuel p m x a y b c f v tr : (2 <= fuel)%nat -> WF p (shortNode (m ++ y :: b) c f) ->
  full_key (p ++ m ++ x :: a) -> x <> y -> v <> [] -> prefixLen (m ++ x :: a) (m ++ y :: b) = length m ->
  inserted p (shortNode (m ++ y :: b) c f) (m ++ x :: a) v
    (insert reader fuel (shortNode (m ++ y :: b) c f) p (m ++ x :: a) (valueNode v) tr).
Proof using Type.
  intros Hf Hw Hfk Hne Hv Hl. destruct fuel as [| [| fuel]]; [lia.. |]. pose proof (stored_split _ _ _ _ _ _ _ _ _ Hw Hfk Hne Hv) as Hst.
  pose proof (st_wf _ _ _ _ _ Hst) as Hwb.
  assert (0 <= x < 17 /\ 0 <= y < 17) as [Hx Hy].
  { split.
    - rewrite app_assoc in Hfk. destruct (full_key_split _ _ Hfk) as [_ H]; [done |]. by apply full_key_head in H.
    - pose proof Hw as (_ & _ & Hwc & _)%WF_short_inv. pose proof (WF_nibbles _ _ Hwc) as Hn.
      assert (nibbles (p ++ m ++ y :: b) \/ full_key (p ++ m ++ y :: b)) as [H | H] by (destruct c; auto).
      + rewrite !nibbles_app in H. destruct H as (_ & _ & H). inversion H as [| ? ? H1]; subst. unfold is_nibble in H1. lia.
      + rewrite app_assoc in H. destruct (full_key_split _ _ H) as [_ H']; [done |]. by apply full_key_head in H'. }
  cbn [insert]. assert ((zlen (m ++ x :: a) =? 0) = false) as ->
    by (apply Z.eqb_neq; unfold zlen; rewrite length_app; cbn; lia).
  rewrite Hl. assert ((length m =? length (m ++ y :: b))%nat = false) as -> by (apply Nat.eqb_neq; rewrite length_app; cbn; lia).
  rewrite (T_bind_Val _ _ _ _ _ (T_of_Ret _ _ tr (path_idx m y b))).
  assert (forall z s, drop (S (length m)) (m ++ z :: s) = s) as Hdrop
    by (intros z s; by rewrite <- Nat.add_1_r, <- drop_drop, drop_app_length).
  rewrite !Hdrop. destruct (insert_nil fuel (p ++ take (S (length m)) (m ++ y :: b)) b c tr) as (tr1 & H1).
  rewrite (T_bind_Val _ _ _ _ _ H1). unfold set_child.
  rewrite (T_bind_Val _ _ _ _ _ (T_of_Ret _ _ tr1 (set_idx_returns no_children y (graft b c) ltac:(unfold zlen; cbn; lia)))).
  rewrite (T_bind_Val _ _ _ _ _ (T_of_Ret _ _ tr1 (path_idx m x a))).
  destruct (insert_nil fuel (p ++ take (S (length m)) (m ++ x :: a)) a (valueNode v) tr1) as (tr2 & H2).
  rewrite (T_bind_Val _ _ _ _ _ H2).
  rewrite (T_bind_Val _ _ _ _ _ (T_of_Ret _ _ tr2 (set_idx_returns (<[Z.to_nat y := graft b c]> no_children) x
    (graft a (valueNode v)) ltac:(unfold zlen; rewrite length_insert; cbn; lia)))).
  destruct m as [| z m]; cbn [length Nat.eqb graft app] in *.
  - do 3 eexists. split; [done |]. split; [done | discriminate].
  - assert (take (S (length m)) (z :: m ++ x :: a) = z :: m) as -> by (cbn; by rewrite take_app_length).
    do 3 eexists. split; [unfold mbind, T_bind, trace; done |]. split; [done | discriminate].
Qed.

Lemma insert_spec p n : WF p n -> forall rest fuel tr v, full_key (p ++ rest) -> v <> [] -> (need n (length rest) <= fuel)%nat ->
  inserted p n rest v (insert reader fuel n p rest (valueNode v) tr).
Proof using Type.
  induction 1 as [q v' Hq Hv' | p k c f Hp Hk Hw IH Ht Hfo | p cs f Hp Hl Hw IH H2 Hfo | p h n Hp Hr Hl Hw IH Hlk];
    intros rest fuel tr v Hfk Hv Hf; (destruct fuel as [| fuel]; [unfold need in Hf; lia |]).
  - assert (rest = []) as ->.
    { destruct rest as [| x rest]; [done |]. apply full_key_pre in Hfk; [| done]. apply full_key_not_nibbles in Hfk; [done | by exists q]. }
    cbn. do 3 eexists. split; [done |]. rewrite app_nil_r in Hfk. split; [split; [by apply WF_leaf_value | | done] |].
    + intros k w. rewrite Has_value_inv. destruct (decide (k = [])) as [-> | He]; [naive_solver |].
      rewrite Has_value_inv. naive_solver.
    + intros Hd. apply negb_false_iff, bool_decide_eq_true in Hd as ->. constructor.
  - assert (WF p (shortNode k c f)) as Hws by by constructor.
    destruct (prefixLen rest k =? length k)%nat eqn:Hm.
    + cbn [insert]. destruct (prefix_whole _ _ Hm) as (r & -> & Hlen).
      assert ((zlen (k ++ r) =? 0) = false) as ->.
      { apply Z.eqb_neq. unfold zlen. rewrite length_app. destruct k; [done | cbn; lia]. }
      rewrite Hm, Hlen, take_app_length, drop_app_length. rewrite app_assoc in Hfk. rewrite length_app in Hf.
      assert (0 < length k)%nat by (destruct k; cbn; [done | lia]).
      destruct (IH r fuel tr v Hfk Hv) as (d & n' & tr' & Hrun & Hst & Hd);
        [pose proof (need_bound c (length r)); unfold need in Hf; lia |].
      rewrite (T_bind_Val _ _ _ _ _ Hrun). destruct d; do 3 eexists; (split; [done |]); split; try done.
      * by apply stored_short.
      * apply stored_same; [done |]. constructor. auto.
      * intros _. constructor. auto.
    + destruct (prefix_parts _ _ _ _ _ Hws Hfk Hm) as (m & x & a & y & b & -> & -> & Hlen & Hne).
      apply insert_split; try done. unfold need in Hf. rewrite length_app in Hf. cbn in Hf. lia.
  - destruct rest as [| x rest]; [rewrite app_nil_r in Hfk; by apply full_key_not_nibbles in Hfk |].
    assert (WF p (fullNode cs f)) as Hwf by by constructor.
    destruct (full_key_split _ _ Hfk) as [_ Hrest]; [done |]. pose proof (full_key_head _ _ Hrest) as Hx.
    destruct (lookup_lt_is_Some_2 cs (Z.to_nat x)) as [c Hc]; [lia |]. cbn [insert].
    assert ((zlen (x :: rest) =? 0) = false) as -> by done.
    rewrite (T_bind_Val _ _ _ _ _ (T_of_Ret _ _ tr (idx_0 x rest))).
    rewrite (T_bind_Val _ _ _ _ _ (T_of_Ret _ _ tr (idx_returns cs x c ltac:(lia) Hc))). cbn [drop]. rewrite drop_0.
    assert (full_key ((p ++ [x]) ++ rest)) as Hfk' by (by rewrite <- app_assoc).
    assert (inserted (p ++ [x]) c rest v (insert reader fuel c (p ++ [x]) rest (valueNode v) tr)) as (d & n' & tr' & Hrun & Hst & Hd).
    { destruct (decide (c = Nil)) as [-> | Hn].
      - destruct fuel as [| fuel]; [unfold need in Hf; cbn in Hf; lia |].
        destruct (insert_nil fuel (p ++ [x]) rest (valueNode v) tr) as (tr' & ->).
        do 3 eexists. split; [done |]. split; [by apply stored_nil | discriminate].
      - specialize (IH _ _ Hc Hn). rewrite Z2Nat.id in IH by lia. apply IH; [done.. |]. cbn [length] in Hf.
        pose proof (need_bound c (length rest)). unfold need in Hf. lia. }
    rewrite (T_bind_Val _ _ _ _ _ Hrun). destruct d.
    + unfold set_child. rewrite (T_bind_Val _ _ _ _ _ (T_of_Ret _ _ tr' (set_idx_returns cs x n' ltac:(unfold zlen; lia)))).
      do 3 eexists. split; [done |]. split; [eapply stored_full; [done | unfold zlen; lia | done | done] | discriminate].
    + assert (Has p (fullNode cs f) (x :: rest) v) by (rewrite (Has_child _ _ _ x _ _ _ ltac:(lia) Hc); auto).
      do 3 eexists. split; [done |]. split; [by apply stored_same | done].
  - destruct rest as [| x rest]; [rewrite app_nil_r in Hfk; by apply full_key_not_nibbles in Hfk |].
    cbn [insert]. assert ((zlen (x :: rest) =? 0) = false) as -> by done.
    destruct (resolves_run h p n tr Hr) as (tr1 & Hrun). rewrite (T_bind_Val _ _ _ _ _ Hrun).
    destruct (IH (x :: rest) fuel tr1 v Hfk Hv) as (d & n' & tr' & Hi & Hst & Hd); [destruct n; try done; unfold need in *; lia |].
    rewrite (T_bind_Val _ _ _ _ _ Hi). destruct d; do 3 eexists; (split; [done |]).
    + split; [by eapply stored_hash | discriminate].
    + specialize (Hd eq_refl). split; [eapply stored_hash; [done | by apply stored_same] | intros _; by econstructor].
Qed.
End Content.
