(* ===== verification/TrieMap.v ===== *)
(** * The trie refines a map

    Deletion keeps the canonical form of a trie, and the operations of a trie over a database are those of a finite map. *)
From Stdlib Require Import ZArith Lia.
From stdpp Require Import base gmap strings list.
From S2P Require Import Prelude Utils JournalTypes Core TrieEncoding Trie TrieHash TrieProofs.

(** ** Deletion keeps the canonical form

    [delete] of [Trie.v] removes one binding of a well-formed node and reduces the nodes
    above it: a full node with one child left becomes a short node, merged with the short
    node below it, also when that one has to be loaded first. *)

(** ** The only child *)

Lemma only_child_known cs i pos : pos <> -1 ->
  (Forall (fun c => c = Nil) cs /\ only_child cs i pos = pos) \/ ((exists j c, cs !! j = Some c /\ c <> Nil) /\ only_child cs i pos = -2).
Proof.
  intros Hp. revert i. induction cs as [| c cs IH]; intros i; cbn; [by left |].
  destruct (decide (c = Nil)) as [-> | Hn]; cbn.
  - destruct (IH (i + 1)) as [[H ->] | [(j & c & Hc & Hn) ->]]; [left; by auto | right].
    split; [by exists (S j), c | done].
  - right. split; [by exists 0%nat, c |]. destruct (Z.eqb_spec pos (-1)); [done |]. by destruct c.
Qed.

Lemma only_child_spec cs i : 0 <= i ->
  (Forall (fun c => c = Nil) cs /\ only_child cs i (-1) = -1) \/
  (exists j c, cs !! j = Some c /\ c <> Nil /\ (forall j' c', cs !! j' = Some c' -> j' <> j -> c' = Nil) /\
    only_child cs i (-1) = i + Z.of_nat j) \/
  (two_children cs /\ only_child cs i (-1) = -2).
Proof.
  revert i. induction cs as [| c cs IH]; intros i Hi; cbn; [by left |]. destruct (decide (c = Nil)) as [-> | Hn]; cbn.
  - destruct (IH (i + 1)) as [[H ->] | [(j & c & Hc & Hn & Ho & ->) | [(a & b & ca & cb & Hab & Ha & Hb & Hna & Hnb) ->]]]; [lia | ..].
    + left. by auto.
    + right. left. exists (S j), c. split_and!; [done | done | | lia].
      intros [| j'] c' Hc' Hne; [by injection Hc' as <- | eapply Ho; [done | lia]].
    + right. right. split; [| done]. exists (S a), (S b), ca, cb. auto.
  - assert (is_nil c = false) as -> by by destruct c.
    destruct (only_child_known cs (i + 1) i) as [[H ->] | [(j & d & Hd & Hnd) ->]]; [lia | |].
    + right. left. exists 0%nat, c. split_and!; [done | done | | lia].
      intros [| j'] c' Hc' Hne; [done |]. rewrite Forall_lookup in H. by eapply H.
    + right. right. split; [| done]. exists 0%nat, (S j), c, d. auto.
Qed.

Section Delete.
Context `{rlp : RLP} (keccak : bytes -> bytes) (reader : trieReader).
#[local] Hint Resolve flag_new : core.
#[local] Abbreviation Has := (Has reader).
#[local] Abbreviation WF := (WF keccak reader).
#[local] Abbreviation tip := (tip reader).
#[local] Abbreviation resolves := (resolves reader).

(** A short node below a short node is one short node. *)
Lemma Has_merge p k ck c f f1 f2 key w : Has p (shortNode (k ++ ck) c f) key w <-> Has p (shortNode k (shortNode ck c f1) f2) key w.
Proof using Type.
  rewrite !Has_short_inv. split.
  - intros (r & -> & H). exists (ck ++ r). rewrite <- app_assoc. split; [done |]. constructor. by rewrite <- app_assoc.
  - intros (r & -> & H). apply Has_short_inv in H as (r' & -> & H). exists r'. rewrite <- !app_assoc in *. done.
Qed.

Lemma WF_merge p k ck c f : nibbles p -> k <> [] -> WF (p ++ k) (shortNode ck c f) -> WF p (shortNode (k ++ ck) c newFlag).
Proof using Type.
  intros Hp Hk (Hpk & Hck & Hw & Ht)%WF_short_inv. rewrite <- app_assoc in *. constructor; auto.
  by destruct k.
Qed.

(** A full node whose only child is at [j] is a short node. *)
Lemma Has_only p cs f j c f' key w : cs !! j = Some c -> (forall j' c', cs !! j' = Some c' -> j' <> j -> c' = Nil) ->
  Has p (shortNode [Z.of_nat j] c f') key w <-> Has p (fullNode cs f) key w.
Proof using Type.
  intros Hc Ho. rewrite Has_short_inv, Has_full_inv. split.
  - intros (r & -> & H). exists j, c, r. done.
  - intros (i & d & r & -> & Hd & H). destruct (decide (i = j)) as [-> | Hi].
    + rewrite Hc in Hd. injection Hd as <-. eauto.
    + rewrite (Ho _ _ Hd Hi) in H. by apply Has_nil in H.
Qed.

Lemma reduce_spec p cs tr : nibbles p -> length cs = 17%nat ->
  (forall i c, cs !! i = Some c -> c <> Nil -> WF (p ++ [Z.of_nat i]) c) -> (exists i c, cs !! i = Some c /\ c <> Nil) ->
  exists n' tr', reduce reader cs p tr = Val (true, n', None, tr') /\ WF p n' /\ loaded n' /\
    forall key w, Has p n' key w <-> Has p (fullNode cs newFlag) key w.
Proof using Type.
  intros Hp Hl Hw (i0 & c0 & Hc0 & Hn0). unfold reduce.
  destruct (only_child_spec cs 0) as [[H _] | [(j & c & Hc & Hn & Ho & ->) | [H2 ->]]]; [lia | ..].
  - rewrite Forall_lookup in H. by apply H in Hc0.
  - rewrite Z.add_0_l. destruct (Z.leb_spec 0 (Z.of_nat j)); [| lia].
    rewrite (T_bind_Val _ _ _ _ _ (T_of_Ret _ _ tr (idx_nat cs j c Hc))). specialize (Hw _ _ Hc Hn).
    assert (j < 17)%nat by (rewrite <- Hl; by eapply lookup_lt_Some).
    destruct (Z.eqb_spec (Z.of_nat j) 16) as [H16 | H16]; cbn [negb].
    + do 2 eexists. split; [done |]. split; [| split; [done | intros; by apply Has_only]].
      constructor; try done. rewrite H16 in *. apply WF_nibbles in Hw. destruct c; try done;
        (rewrite nibbles_app in Hw; destruct Hw as [_ Hw]; inversion Hw as [| ? ? H1]; unfold is_nibble in H1; lia).
    + assert (exists cn tr1, resolve reader c (p ++ [Z.of_nat j]) tr = Val (inr cn, tr1) /\ WF (p ++ [Z.of_nat j]) cn /\ loaded cn /\
        (forall k v, Has (p ++ [Z.of_nat j]) cn k v <-> Has (p ++ [Z.of_nat j]) c k v) /\
        (forall cs f, cn = fullNode cs f -> tip (p ++ [Z.of_nat j]) c)) as (cn & tr1 & Hrun & Hwn & Hln & Hs & Htip).
      { inversion Hw as [q v Hq Hv He | | | q h n Hq Hr Hld Hwn]; subst.
        - apply app_inj_tail in He as [_ He]. lia.
        - do 2 eexists. split; [done |]. split; [done |]. split; [done |]. split; [done |]. intros ? ? ?. done.
        - do 2 eexists. split; [done |]. split; [done |]. split; [done |]. split; [done |]. done.
        - destruct (resolves_run reader h _ n tr Hr) as (tr1 & Hrun). exists n, tr1. split; [done |]. split; [done |]. split; [done |].
          split; [intros; by rewrite (Has_hash_inv _ _ _ _ _ _ Hr) |]. intros cs' f' ->. by exists cs', f'. }
      rewrite (T_bind_Val _ _ _ _ _ Hrun). destruct cn as [| ccs cf | ck cv cf | |]; try done.
      * do 2 eexists. split; [done |]. split; [constructor; try done; by eapply Htip |]. split; [done | intros; by apply Has_only].
      * do 2 eexists. split; [done |]. split; [by apply (WF_merge p [Z.of_nat j] _ _ cf) |]. split; [done |]. intros key w.
        rewrite (Has_merge p [Z.of_nat j] ck cv newFlag cf newFlag), <- (Has_only p cs newFlag j c newFlag) by done.
        rewrite !(Has_short_inv _ _ [_]). by setoid_rewrite Hs.
  - do 2 eexists. split; [done |]. split; [by constructor | done].
Qed.

(** ** [delete] *)

Record removed (p : bytes) (n : node) (rest : bytes) (n' : node) : Prop := {
  rm_wf : WFo keccak reader p n';
  rm_has : forall k w, Has p n' k w <-> k <> rest /\ Has p n k w
}.

Definition deleted (p : bytes) (n : node) (rest : bytes) (run : res (bool * node * option trieErr * tracer)) : Prop :=
  exists d n' tr', run = Val (d, n', None, tr') /\ removed p n rest n' /\ (d = false -> forall w, ~ Has p n rest w) /\
    (d = true -> tip p n -> nibbles p -> loaded n').

Lemma removed_same p n rest : WF p n -> (forall w, ~ Has p n rest w) -> removed p n rest n.
Proof using Type. intros Hw H. split; [by right |]. intros k w. split; [intros Hk; split; [intros ->; by eapply H | done] | by intros [_ ?]]. Qed.

(** The answer when nothing was found. *)
Lemma deleted_same p n rest tr : WF p n -> (forall w, ~ Has p n rest w) -> deleted p n rest (Val (false, n, None, tr)).
Proof using Type. intros Hw H. do 3 eexists. split; [done |]. split; [by apply removed_same | done]. Qed.

Lemma delete_short_found p k c f r tr fuel : WF p (shortNode k c f) -> r <> [] -> full_key (p ++ k ++ r) ->
  prefixLen (k ++ r) k = length k ->
  deleted (p ++ k) c r (delete reader fuel c (p ++ k) r tr) ->
  deleted p (shortNode k c f) (k ++ r) (delete reader (S fuel) (shortNode k c f) p (k ++ r) tr).
Proof using Type.
  intros Hws Hr Hfk Hlen (d & n' & tr' & Hrun & [Hwn Hhn] & Hd & Hld). pose proof Hws as (Hp & Hk & Hw & Ht)%WF_short_inv.
  assert (nibbles (p ++ k)) as Hpk by (rewrite app_assoc in Hfk; by eapply full_key_pre).
  assert (forall n2, (forall key w, Has p n2 key w <-> Has p (shortNode k n' newFlag) key w) ->
    forall key w, Has p n2 key w <-> key <> k ++ r /\ Has p (shortNode k c f) key w) as Hcontent.
  { intros n2 Hn2 key w. rewrite Hn2, !Has_short_inv. setoid_rewrite Hhn. split.
    - intros (r' & -> & Hne & H). split; [by intros ?%app_inv_head | eauto].
    - intros (Hne & r' & -> & H). exists r'. split; [done |]. split; [by intros -> | done]. }
  cbn [delete]. rewrite Hlen, Nat.ltb_irrefl. assert ((length k =? length (k ++ r))%nat = false) as ->.
  { apply Nat.eqb_neq. rewrite length_app. destruct r; [done | cbn; lia]. }
  rewrite take_app_length, drop_app_length, (T_bind_Val _ _ _ _ _ Hrun).
  destruct d; [| apply deleted_same; [done |]; intros w (r' & He & H)%Has_short_inv;
                 apply app_inv_head in He as <-; by eapply Hd].
  specialize (Hld eq_refl Ht Hpk). destruct Hwn as [-> | Hwn]; [done |]. destruct n' as [| ncs nf | nk nv nf | |]; try done.
  - do 3 eexists. split; [done |]. split; [split; [right; by constructor | by apply Hcontent] | done].
  - do 3 eexists. split; [unfold mbind, T_bind, trace; done |].
    split; [split; [right; by eapply WF_merge | apply Hcontent; intros; apply Has_merge] | done].
Qed.

Lemma delete_short_whole p k c f tr fuel : WF p (shortNode k c f) -> full_key (p ++ k) -> prefixLen k k = length k ->
  deleted p (shortNode k c f) k (delete reader (S fuel) (shortNode k c f) p k tr).
Proof using Type.
  intros (Hp & Hk & Hw & Ht)%WF_short_inv Hfk Hlen. cbn [delete]. rewrite Hlen, Nat.ltb_irrefl, Nat.eqb_refl.
  do 3 eexists. split; [unfold mbind, T_bind, trace; done |]. split; [| done]. split; [by left |]. intros key w.
  split; [by intros ?%Has_nil |]. intros (Hne & (r & -> & H)%Has_short_inv). destruct Hne.
  destruct (WF_keys _ _ _ _ _ _ Hw H) as [Hkr _]. rewrite (full_key_common (p ++ k) [] r); [by rewrite app_nil_r | by rewrite app_nil_r | done | done].
Qed.

Lemma delete_child p cs f x c r fuel tr : WF p (fullNode cs f) -> 0 <= x < 17 -> cs !! Z.to_nat x = Some c ->
  deleted (p ++ [x]) c r (delete reader fuel c (p ++ [x]) r tr) ->
  deleted p (fullNode cs f) (x :: r) (delete reader (S fuel) (fullNode cs f) p (x :: r) tr).
Proof using Type.
  intros Hwf Hx Hc (d & n' & tr' & Hrun & [Hwn Hhn] & Hd & _). inversion Hwf as [| | ? ? ? Hp Hl Hws H2 Hfo |]; subst.
  assert (0 <= x < zlen cs) as Hxl by (unfold zlen; lia).
  cbn [delete]. rewrite (T_bind_Val _ _ _ _ _ (T_of_Ret _ _ tr (idx_0 x r))).
  rewrite (T_bind_Val _ _ _ _ _ (T_of_Ret _ _ tr (idx_returns cs x c ltac:(lia) Hc))). cbn [drop].
  rewrite drop_0, (T_bind_Val _ _ _ _ _ Hrun). destruct d; [| apply deleted_same; [done |]; intros w H;
    rewrite (Has_child _ _ _ _ x _ _ _ ltac:(lia) Hc) in H; by eapply Hd].
  unfold set_child. rewrite (T_bind_Val _ _ _ _ _ (T_of_Ret _ _ tr' (set_idx_returns cs x n' Hxl))).
  assert (forall key w, Has p (fullNode (<[Z.to_nat x := n']> cs) newFlag) key w <-> key <> x :: r /\ Has p (fullNode cs f) key w) as Hcontent.
  { intros key w. rewrite (Has_full_insert _ _ _ f) by done. split.
    - intros [(r' & -> & [Hne H]%Hhn) | [Hne H]]; (split; [congruence || apply Hne |]); [| done].
      by rewrite (Has_child _ _ _ _ x _ _ _ ltac:(lia) Hc).
    - intros [Hne H]. destruct (decide (exists r', key = x :: r')) as [(r' & ->) | Hh].
      + left. exists r'. split; [done |]. apply Hhn. split; [congruence |]. by rewrite (Has_child _ _ _ _ x _ _ _ ltac:(lia) Hc) in H.
      + right. split; [intros r' ->; apply Hh; by exists r' | done]. }
  destruct Hwn as [-> | Hwn].
  - cbn [is_nil negb]. destruct (reduce_spec p (<[Z.to_nat x := Nil]> cs) tr') as (n2 & tr2 & Hred & Hw2 & Hl2 & Hh2);
      [done | by rewrite length_insert | | |].
    + intros i d Hi Hn. destruct (decide (i = Z.to_nat x)) as [-> | Hix].
      * rewrite list_lookup_insert_eq in Hi by lia. by injection Hi as <-.
      * rewrite list_lookup_insert_ne in Hi by done. auto.
    + destruct H2 as (i & j & a & b & Hij & Hi & Hj & Ha & Hb). destruct (decide (i = Z.to_nat x)) as [-> | Hix].
      * exists j, b. by rewrite list_lookup_insert_ne.
      * exists i, a. by rewrite list_lookup_insert_ne.
    + rewrite Hred. do 3 eexists. split; [done |]. split; [| done]. split; [by right |]. intros. by rewrite Hh2.
  - assert (is_nil n' = false) as -> by (destruct n'; [by apply WF_not_nil in Hwn | done..]).
    do 3 eexists. split; [done |]. split; [| done]. split; [right; by eapply WF_full_insert | done].
Qed.

Lemma delete_spec p n : WF p n -> forall rest fuel tr, full_key (p ++ rest) -> (need n (length rest) <= fuel)%nat ->
  deleted p n rest (delete reader fuel n p rest tr).
Proof using Type.
  induction 1 as [q v' Hq Hv' | p k c f Hp Hk Hw IH Ht Hfo | p cs f Hp Hl Hw IH H2 Hfo | p h n Hp Hr Hl Hw IH Hlk];
    intros rest fuel tr Hfk Hf; (destruct fuel as [| fuel]; [unfold need in Hf; lia |]).
  - assert (rest = []) as ->.
    { destruct rest as [| x rest]; [done |]. apply full_key_pre in Hfk; [| done]. apply full_key_not_nibbles in Hfk; [done | by exists q]. }
    do 3 eexists. split; [done |]. rewrite app_nil_r in Hfk. split; [split; [by left |] |].
    + intros k w. rewrite Has_value_inv. split; [by intros ?%Has_nil | naive_solver].
    + split; [done |]. intros _ _ H. by apply full_key_not_nibbles in Hfk.
  - assert (WF p (shortNode k c f)) as Hws by by constructor.
    destruct (prefixLen rest k =? length k)%nat eqn:Hm.
    + destruct (prefix_whole _ _ Hm) as (r & -> & Hlen). destruct r as [| x r].
      * rewrite app_nil_r in *. by apply delete_short_whole.
      * apply delete_short_found; try done. rewrite app_assoc in Hfk. apply IH; [done |]. rewrite length_app in Hf.
        assert (0 < length k)%nat by (destruct k; cbn; [done | lia]).
        pose proof (need_bound c (length (x :: r))). unfold need in Hf. lia.
    + destruct (prefix_parts _ _ _ _ _ _ _ Hws Hfk Hm) as (m & x & a & y & b & -> & -> & Hlen & Hne). cbn [delete]. rewrite Hlen.
      assert ((length m <? length (m ++ y :: b))%nat = true) as -> by (apply Nat.ltb_lt; rewrite length_app; cbn; lia).
      apply deleted_same; [done |]. intros w (r' & He & _)%Has_short_inv. rewrite <- app_assoc in He.
      apply app_inv_head in He. by injection He as ? _.
  - destruct rest as [| x rest]; [rewrite app_nil_r in Hfk; by apply full_key_not_nibbles in Hfk |].
    destruct (full_key_split _ _ Hfk) as [_ Hrest]; [done |]. pose proof (full_key_head _ _ Hrest) as Hx.
    destruct (lookup_lt_is_Some_2 cs (Z.to_nat x)) as [c Hc]; [lia |]. eapply delete_child; [by constructor | done | done |].
    destruct (decide (c = Nil)) as [-> | Hn].
    + destruct fuel as [| fuel]; [unfold need in Hf; cbn in Hf; lia |].
      do 3 eexists. split; [done |]. split; [| split; [by intros _ w ?%Has_nil | done]]. split; [by left |].
      intros k w. split; [by intros ?%Has_nil | by intros [_ ?%Has_nil]].
    + specialize (IH _ _ Hc Hn). rewrite Z2Nat.id in IH by lia. apply IH; [by rewrite <- app_assoc |]. cbn [length] in Hf.
      pose proof (need_bound c (length rest)). unfold need in Hf. lia.
  - destruct rest as [| x rest]; [rewrite app_nil_r in Hfk; by apply full_key_not_nibbles in Hfk |].
    cbn [delete]. destruct (resolves_run reader h p n tr Hr) as (tr1 & Hrun). rewrite (T_bind_Val _ _ _ _ _ Hrun).
    destruct (IH (x :: rest) fuel tr1 Hfk) as (d & n' & tr' & Hi & [Hwn Hhn] & Hd & Hld); [destruct n; try done; unfold need in *; lia |].
    rewrite (T_bind_Val _ _ _ _ _ Hi).
    assert (forall k w, Has p (hashNode h) k w <-> Has p n k w) as Hh by (intros; by apply Has_hash_inv).
    destruct d; do 3 eexists; (split; [done |]).
    + split; [split; [done |]; intros; by rewrite Hhn, Hh |]. split; [done |]. intros _ (cs & f & Hr') Hn.
      apply Hld; [done | by rewrite (resolves_fun _ _ _ _ _ Hr Hr') | done].
    + specialize (Hd eq_refl). split; [split; [by right |]; intros k w; rewrite Hh |].
      * split; [intros H; split; [intros ->; by eapply Hd | done] | by intros [_ ?]].
      * split; [intros _ w H; rewrite Hh in H; by eapply Hd | done].
Qed.
End Delete.

(** ** The trie refines a map

    The operations of a trie over a database, against the finite map they implement. *)

Lemma nibbles_of_inj a b : Forall is_byte a -> Forall is_byte b -> nibbles_of a = nibbles_of b -> a = b.
Proof. intros Ha Hb H. by rewrite <- (pack_nibbles_of a Ha), H, pack_nibbles_of. Qed.

Lemma keybytesToHex_inj a b : Forall is_byte a -> Forall is_byte b -> keybytesToHex a = keybytesToHex b -> a = b.
Proof. intros Ha Hb H. apply app_inj_tail in H as [H _]. by apply nibbles_of_inj. Qed.

Section Map.
Context `{rlp : RLP} (keccak : bytes -> bytes).

(** ** The map a trie stands for *)

(** The content of a node is the map [m], its keys as nibbles. *)
Definition content (reader : trieReader) (n : node) (m : gmap bytes bytes) : Prop :=
  forall k v, Has reader [] n k v <-> exists key, Forall is_byte key /\ k = keybytesToHex key /\ m !! key = Some v.

Record represents (t : Trie) (m : gmap bytes bytes) : Prop := {
  rp_open : committed t = false;
  rp_wf : WFo keccak (t_reader t) [] (root t);
  rp_content : content (t_reader t) (root t) m;
  rp_keys : forall key v, m !! key = Some v -> Forall is_byte key
}.

(** Enough fuel for a key: two units for each nibble and the terminator. *)
Definition key_fuel (key : bytes) : nat := (4 * length key + 4)%nat.

Lemma nibbles_of_length l : length (nibbles_of l) = (2 * length l)%nat.
Proof using Type. induction l as [| b l IH]; cbn; [done | lia]. Qed.

Lemma key_need n key fuel : (key_fuel key <= fuel)%nat -> (need n (length (keybytesToHex key)) <= fuel)%nat.
Proof using Type.
  intros H. pose proof (need_bound n (length (keybytesToHex key))) as Hn. unfold keybytesToHex, key_fuel in *.
  rewrite length_app, nibbles_of_length in *. cbn in *. lia.
Qed.

Lemma content_key reader n m key v : content reader n m -> Forall is_byte key ->
  Has reader [] n (keybytesToHex key) v <-> m !! key = Some v.
Proof using Type.
  intros Hc Hk. rewrite (Hc _ v). split; [intros (key' & Hk' & He & H) | eauto].
  by apply keybytesToHex_inj in He as ->.
Qed.

(** An operation on the nodes of the trie that ends without an error. *)
Lemma on_trie_run {A} (t : Trie) (op : T A) a tr : op (t_tracer t) = Val (a, tr) -> on_trie t op = Val (a, with_tracer t tr).
Proof using Type. unfold on_trie. by intros ->. Qed.

(** ** Each operation *)

Lemma Get_spec fuel t m key : represents t m -> Forall is_byte key -> (key_fuel key <= fuel)%nat ->
  exists t', Get fuel t key = Val (m !! key, None, t') /\ represents t' m.
Proof using Type.
  intros [Ho Hw Hc Hd] Hk Hf. unfold Get. rewrite Ho.
  assert (exists value n' b tr', get (t_reader t) fuel (root t) (keybytesToHex key) 0 (t_tracer t) = Val (value, n', b, None, tr') /\
    WFo keccak (t_reader t) [] n' /\ (forall k v, Has (t_reader t) [] n' k v <-> Has (t_reader t) [] (root t) k v) /\
    value = m !! key) as (value & n' & b & tr' & Hrun & Hw' & Hs & ->).
  { destruct Hw as [He | Hw].
    - rewrite He in *. destruct fuel; [unfold key_fuel in Hf; lia |]. do 4 eexists. split; [done |]. split; [by left |]. split; [done |].
      destruct (m !! key) as [v |] eqn:Hm; [| done]. apply (content_key _ _ _ _ _ Hc Hk) in Hm. by apply Has_nil in Hm.
    - destruct (get_spec keccak _ [] _ Hw (keybytesToHex key) fuel (t_tracer t)) as (value & n' & b & tr' & Hrun & [Hw' Hs _] & Hv);
        [by apply keybytes_full | by apply key_need |].
      do 4 eexists. split; [done |]. split; [by right |]. split; [done |]. apply option_eq. intros v.
      by rewrite Hv, (content_key _ _ _ _ _ Hc Hk). }
  unfold mbind, res_bind. rewrite (on_trie_run _ _ _ _ Hrun). eexists. split; [done |].
  destruct b; split; cbn; try done. intros k v. rewrite Hs. apply Hc.
Qed.

Lemma content_insert reader n n' m key v : content reader n m -> Forall is_byte key ->
  (forall k w, Has reader [] n' k w <-> if decide (k = keybytesToHex key) then w = v else Has reader [] n k w) ->
  content reader n' (<[key := v]> m).
Proof using Type.
  intros Hc Hk Hs k w. rewrite Hs. case_decide as He.
  - subst. split; [intros ->; exists key; by rewrite lookup_insert_eq |]. intros (key' & Hk' & He & H).
    apply keybytesToHex_inj in He as <-; try done. rewrite lookup_insert_eq in H. by injection H.
  - rewrite (Hc k w). split; intros (key' & Hk' & -> & H); exists key'; (split; [done |]); (split; [done |]).
    + rewrite lookup_insert_ne; [done | by intros ->].
    + rewrite lookup_insert_ne in H; [done | by intros ->].
Qed.

Lemma content_delete reader n n' m key : content reader n m -> Forall is_byte key ->
  (forall k w, Has reader [] n' k w <-> k <> keybytesToHex key /\ Has reader [] n k w) -> content reader n' (base.delete key m).
Proof using Type.
  intros Hc Hk Hs k w. rewrite Hs, (Hc k w). split.
  - intros (Hne & key' & Hk' & -> & H). exists key'. rewrite lookup_delete_ne; [done | by intros ->].
  - intros (key' & Hk' & -> & [Hne H]%lookup_delete_Some).
    split; [intros He; apply keybytesToHex_inj in He; congruence | eauto].
Qed.

Lemma insert_root fuel t m key v : represents t m -> Forall is_byte key -> v <> [] -> (key_fuel key <= fuel)%nat ->
  exists d n' tr', insert (t_reader t) fuel (root t) [] (keybytesToHex key) (valueNode v) (t_tracer t) = Val (d, n', None, tr') /\
    WFo keccak (t_reader t) [] n' /\ content (t_reader t) n' (<[key := v]> m).
Proof using Type.
  intros [Ho Hw Hc Hd] Hk Hv Hf. pose proof (keybytes_full key Hk) as Hfk.
  assert (inserted keccak (t_reader t) [] (root t) (keybytesToHex key) v
    (insert (t_reader t) fuel (root t) [] (keybytesToHex key) (valueNode v) (t_tracer t))) as (d & n' & tr' & Hrun & [Hw' Hs _] & _).
  { destruct Hw as [-> | Hw]; [| by apply insert_spec, key_need].
    destruct fuel; [unfold key_fuel in Hf; lia |].
    destruct (insert_nil (t_reader t) fuel [] (keybytesToHex key) (valueNode v) (t_tracer t)) as (tr' & ->).
    do 3 eexists. split; [done |]. split; [by apply stored_nil | discriminate]. }
  do 3 eexists. split; [done |]. split; [by right | by eapply content_insert].
Qed.

Lemma delete_root fuel t m key : represents t m -> Forall is_byte key -> (key_fuel key <= fuel)%nat ->
  exists d n' tr', delete (t_reader t) fuel (root t) [] (keybytesToHex key) (t_tracer t) = Val (d, n', None, tr') /\
    WFo keccak (t_reader t) [] n' /\ content (t_reader t) n' (base.delete key m).
Proof using Type.
  intros [Ho Hw Hc Hd] Hk Hf. pose proof (keybytes_full key Hk) as Hfk. destruct Hw as [He | Hw].
  - rewrite He in *. destruct fuel; [unfold key_fuel in Hf; lia |]. do 3 eexists. split; [done |]. split; [by left |].
    eapply content_delete; [done | done |]. intros k w. split; [by intros ?%Has_nil | by intros [_ ?%Has_nil]].
  - destruct (delete_spec keccak _ [] _ Hw (keybytesToHex key) fuel (t_tracer t)) as (d & n' & tr' & Hrun & [Hw' Hs] & _);
      [done | by apply key_need |].
    do 3 eexists. split; [done |]. split; [done | by eapply content_delete].
Qed.

Lemma Delete_spec fuel t m key : represents t m -> Forall is_byte key -> (key_fuel key <= fuel)%nat ->
  exists t', Delete fuel t key = Val (None, t') /\ represents t' (base.delete key m).
Proof using Type.
  intros H Hk Hf. destruct (delete_root fuel t m key H Hk Hf) as (d & n' & tr' & Hrun & Hw & Hc). destruct H as [Ho _ _ Hd].
  unfold Delete. rewrite Ho. unfold mbind, res_bind. rewrite (on_trie_run (count_change t) (delete (t_reader (count_change t)) fuel (root (count_change t)) [] (keybytesToHex key)) _ _ Hrun).
  eexists. split; [done |]. split; cbn; try done. intros key' v [_ ?]%lookup_delete_Some. eauto.
Qed.

(** The map an update gives: an empty value deletes. *)
Definition map_update (m : gmap bytes bytes) (key value : bytes) : gmap bytes bytes :=
  match value with [] => base.delete key m | _ => <[key := value]> m end.

Lemma Update_spec fuel t m key value : represents t m -> Forall is_byte key -> (key_fuel key <= fuel)%nat ->
  exists t', Update fuel t key value = Val (None, t') /\ represents t' (map_update m key value).
Proof using Type.
  intros H Hk Hf. pose proof H as [Ho _ _ Hd]. unfold Update, update. rewrite Ho. destruct value as [| b value].
  - destruct (delete_root fuel t m key H Hk Hf) as (d & n' & tr' & Hrun & Hw & Hc). cbn [zlen length negb Z.eqb Z.of_nat].
    unfold mbind, res_bind. rewrite (on_trie_run (count_change t) (delete (t_reader (count_change t)) fuel (root (count_change t)) [] (keybytesToHex key)) _ _ Hrun).
    eexists. split; [done |]. split; cbn; try done. intros key' v [_ ?]%lookup_delete_Some. eauto.
  - destruct (insert_root fuel t m key (b :: value) H Hk) as (d & n' & tr' & Hrun & Hw & Hc); [done | done |].
    assert ((zlen (b :: value) =? 0) = false) as -> by done. cbn [negb].
    unfold mbind, res_bind. rewrite (on_trie_run (count_change t) (insert (t_reader (count_change t)) fuel (root (count_change t)) [] (keybytesToHex key)
      (valueNode (b :: value))) _ _ Hrun).
    eexists. split; [done |]. split; cbn; try done. intros key' v [[<- _] | [_ ?]]%lookup_insert_Some; eauto.
Qed.

(** ** Sequences of operations *)

Inductive trie_op := OpGet (key : bytes) | OpUpdate (key value : bytes) | OpDelete (key : bytes).

Definition op_key (o : trie_op) : bytes := match o with OpGet k | OpUpdate k _ | OpDelete k => k end.

(** What an operation answers: a value, and its error. *)
Definition run_op (fuel : nat) (t : Trie) (o : trie_op) : res (option bytes * option trieErr * Trie) :=
  match o with
  | OpGet k => Get fuel t k
  | OpUpdate k v => '(err, t) ← Update fuel t k v; mret (None, err, t)
  | OpDelete k => '(err, t) ← Delete fuel t k; mret (None, err, t)
  end.

Fixpoint run_ops (fuel : nat) (t : Trie) (ops : list trie_op) : res (list (option bytes * option trieErr) * Trie) :=
  match ops with
  | [] => mret ([], t)
  | o :: ops =>
      '(value, err, t) ← run_op fuel t o;
      '(answers, t) ← run_ops fuel t ops;
      mret ((value, err) :: answers, t)
  end.

(** The same on the map, where nothing can fail. *)
Definition map_op (m : gmap bytes bytes) (o : trie_op) : option bytes * gmap bytes bytes :=
  match o with
  | OpGet k => (m !! k, m)
  | OpUpdate k v => (None, map_update m k v)
  | OpDelete k => (None, base.delete k m)
  end.

Fixpoint map_ops (m : gmap bytes bytes) (ops : list trie_op) : list (option bytes) * gmap bytes bytes :=
  match ops with
  | [] => ([], m)
  | o :: ops => let '(value, m) := map_op m o in let '(answers, m) := map_ops m ops in (value :: answers, m)
  end.

Definition op_ok (fuel : nat) (o : trie_op) : Prop := Forall is_byte (op_key o) /\ (key_fuel (op_key o) <= fuel)%nat.

Lemma run_op_spec fuel t m o : represents t m -> op_ok fuel o ->
  exists t', run_op fuel t o = Val ((map_op m o).1, None, t') /\ represents t' (map_op m o).2.
Proof using Type.
  intros H [Hk Hf]. destruct o as [k | k v | k]; cbn in *.
  - by apply Get_spec.
  - destruct (Update_spec fuel t m k v H Hk Hf) as (t' & -> & H'). eauto.
  - destruct (Delete_spec fuel t m k H Hk Hf) as (t' & -> & H'). eauto.
Qed.

Lemma run_ops_spec fuel t m ops : represents t m -> Forall (op_ok fuel) ops ->
  exists t', run_ops fuel t ops = Val (map (fun v => (v, None)) (map_ops m ops).1, t') /\ represents t' (map_ops m ops).2.
Proof using Type.
  intros H Hops. revert t m H. induction Hops as [| o ops Ho Hops IH]; intros t m H; [by exists t |]. cbn [run_ops map_ops].
  destruct (run_op_spec fuel t m o H Ho) as (t1 & -> & H1). destruct (map_op m o) as [v m1]. cbn in H1.
  destruct (IH t1 m1 H1) as (t2 & Hrun & H2). unfold mbind, res_bind. rewrite Hrun. destruct (map_ops m1 ops) as [vs m2]. cbn in *. eauto.
Qed.

(** C6: the trie refines a map. On a well-formed trie over a database that holds its unloaded nodes, every sequence of
    [Get], [Update] and [Delete] on byte keys returns, with fuel linear in the longest key, without an error and with the
    answers of the finite map the trie stands for; the trie that is left stands for the map that is left and is well formed
    again. *)
Theorem trie_refines_map fuel t m ops : represents t m -> Forall (op_ok fuel) ops ->
  exists t', run_ops fuel t ops = Val (map (fun v => (v, None)) (map_ops m ops).1, t') /\ represents t' (map_ops m ops).2.
Proof using Type. apply run_ops_spec. Qed.

(** A new trie is empty. *)
Lemma represents_empty owner reader n : represents (mkTrie Nil owner false n reader newTracer) ∅.
Proof using Type.
  split; cbn; [done | by left | | done]. intros k v. split; [by intros ?%Has_nil | intros (key & _ & _ & H); by rewrite lookup_empty in H].
Qed.
End Map.

