(* ===== verification/TrieRoot.v ===== *)
(** * The root hash depends on the content alone

    The shape of a well-formed trie follows from its content, and so does the hash that [Hash] computes. *)
From Stdlib Require Import ZArith Lia.
From stdpp Require Import base gmap strings list.
From S2P Require Import Prelude Utils JournalTypes Core TrieEncoding Trie TrieHash TrieProofs TrieMap.

(** ** The root hash depends on the content alone

    Two well-formed tries with the same content have the same root hash, whatever the order of
    the updates that built them, the parts of them that are loaded, and the databases below
    them: the well-formed node for a content is unique, up to what is cached and loaded. *)

Section Canonical.
Context `{rlp : RLP} (keccak : bytes -> bytes).
#[local] Abbreviation WF := (WF keccak).
#[local] Abbreviation same := (same keccak).
#[local] Abbreviation ref_rlp := (ref_rlp keccak).
#[local] Abbreviation node_rlp := (node_rlp keccak).
#[local] Abbreviation root_digest := (root_digest keccak).

Section OneReader.
Context (reader : trieReader).

(** Two keys that differ in their first element. *)
Definition parts (p : bytes) (n : node) : Prop :=
  exists x y k1 k2 v1 v2, x <> y /\ Has reader p n (x :: k1) v1 /\ Has reader p n (y :: k2) v2.

Lemma WF_nonempty p n : WF reader p n -> exists k v, Has reader p n k v.
Proof using Type.
  induction 1 as [q v Hq Hv | p k c f Hp Hk Hw IH Ht Hfo | p cs f Hp Hl Hw IH H2 Hfo | p h n Hp Hr Hl Hw IH Hlk].
  - exists [], v. constructor.
  - destruct IH as (r & v & H). exists (k ++ r), v. by constructor.
  - destruct H2 as (i & _ & a & _ & _ & Hi & _ & Ha & _). destruct (IH i a Hi Ha) as (r & v & H). eexists _, _. by econstructor.
  - destruct IH as (r & v & H). eexists _, _. by econstructor.
Qed.

Lemma full_parts p cs f : WF reader p (fullNode cs f) -> parts p (fullNode cs f).
Proof using Type.
  inversion 1 as [| | ? ? ? Hp Hl Hw (i & j & a & b & Hij & Hi & Hj & Ha & Hb) Hfo |]; subst.
  destruct (WF_nonempty _ _ (Hw _ _ Hi Ha)) as (r1 & v1 & H1). destruct (WF_nonempty _ _ (Hw _ _ Hj Hb)) as (r2 & v2 & H2).
  exists (Z.of_nat i), (Z.of_nat j), r1, r2, v1, v2. split; [lia |]. split; by econstructor.
Qed.

(** A node that is loaded where it can be. *)
Definition opened (n : node) : Prop := loaded n \/ exists v, n = valueNode v.

Lemma open_node p n : WF reader p n -> exists n', same reader p n n' /\ opened n'.
Proof using Type.
  intros Hw. pose proof Hw as Hw0. destruct Hw as [q v Hq Hv | p k c f | p cs f | p h n Hp Hr Hl Hw Hlk].
  - exists (valueNode v). split; [by apply same_refl | right; eauto].
  - eexists. split; [by apply same_refl | by left].
  - eexists. split; [by apply same_refl | by left].
  - exists n. split; [eapply same_hash; [done.. | by apply same_refl] | by left].
Qed.

Lemma tip_parts p c : WF reader p c -> tip reader p c -> (exists v, c = valueNode v) \/ parts p c.
Proof using Type.
  intros Hw Ht. destruct (open_node p c Hw) as (c' & [Hw' Hs Ht' _ _] & Ho). specialize (Ht' Ht).
  destruct c as [| cs f | k c f | h | v]; try done; [right; by eapply full_parts | | left; eauto].
  right. inversion Hw as [| | | ? ? n Hp Hr Hl Hwn Hlk]; subst.
  destruct Ht as (cs & f & Hr'). rewrite (resolves_fun _ _ _ _ _ Hr Hr') in Hwn.
  destruct (full_parts _ _ _ Hwn) as (x & y & k1 & k2 & v1 & v2 & Hne & H1 & H2).
  exists x, y, k1, k2, v1, v2. split; [done |]. split; (eapply Has_hash; [exact Hr' | done]).
Qed.

(** The key of a short node is all that its keys have in common. *)
Lemma short_longest p k c f d : WF reader p (shortNode k c f) ->
  (forall key v, Has reader p (shortNode k c f) key v -> exists r, key = (k ++ d) ++ r) -> d = [].
Proof using Type.
  intros (Hp & Hk & Hw & Ht)%WF_short_inv Hall. destruct (tip_parts _ _ Hw Ht) as [(v & ->) | (x & y & k1 & k2 & v1 & v2 & Hne & H1 & H2)].
  - destruct (Hall (k ++ []) v) as (r & He); [by constructor; constructor |]. rewrite <- app_assoc in He.
    apply app_inv_head in He. by destruct d.
  - destruct (Hall (k ++ x :: k1) v1) as (r1 & He1); [by constructor |].
    destruct (Hall (k ++ y :: k2) v2) as (r2 & He2); [by constructor |].
    rewrite <- app_assoc in He1, He2. apply app_inv_head in He1, He2. destruct d as [| z d]; [done |]. cbn in *. congruence.
Qed.
End OneReader.

Lemma app_common (a b c d : bytes) : a ++ c = b ++ d -> (exists e, b = a ++ e) \/ (exists e, a = b ++ e).
Proof using Type.
  revert b. induction a as [| x a IH]; intros [| y b] H; [by left; exists [] | left; by exists (y :: b) | right; by exists (x :: a) |].
  injection H as -> H. destruct (IH b H) as [(e & ->) | (e & ->)]; [left | right]; by exists e.
Qed.

Section TwoReaders.
Context (r1 r2 : trieReader).

Definition agree (p : bytes) (n1 n2 : node) : Prop := (p <> [] -> ref_rlp n1 = ref_rlp n2) /\ root_digest n1 = root_digest n2.

Lemma agree_rlp p n1 n2 : loaded n1 -> loaded n2 -> node_rlp n1 = node_rlp n2 -> agree p n1 n2.
Proof using Type.
  intros H1 H2 He. split.
  - intros _. unfold ref_rlp, embed. rewrite !decide_True by done. by rewrite He.
  - destruct n1, n2; try done; unfold root_digest; by rewrite He.
Qed.

(** Parting keys cannot all begin alike. *)
Lemma short_no_parts r p k c f : WF r p (shortNode k c f) -> ~ parts r p (shortNode k c f).
Proof using Type.
  intros (_ & Hk & _ & _)%WF_short_inv (x & y & k1 & k2 & v1 & v2 & Hne & H1 & H2).
  apply Has_short_inv in H1 as (s1 & He1 & _), H2 as (s2 & He2 & _). destruct k; [done |]. cbn in *. congruence.
Qed.

Lemma parts_same p n1 n2 : (forall k v, Has r1 p n1 k v <-> Has r2 p n2 k v) -> parts r1 p n1 <-> parts r2 p n2.
Proof using Type. intros H. unfold parts. by setoid_rewrite H. Qed.

Lemma canonical_opened p n1 : WF r1 p n1 -> forall n2, WF r2 p n2 -> opened n2 ->
  (forall k v, Has r1 p n1 k v <-> Has r2 p n2 k v) -> agree p n1 n2.
Proof using Type.
  induction 1 as [q v Hq Hv | p k c f Hp Hk Hw IH Ht Hfo | p cs f Hp Hl Hw IH H2 Hfo | p h n Hp Hr Hl Hw IH Hlk]; intros n2 Hw2 Ho Hs.
  - pose proof (WF_nibbles _ _ _ _ Hw2) as Hn. assert (full_key (q ++ [16])) as Hfk by by exists q.
    destruct n2; try (by apply full_key_not_nibbles in Hfk).
    assert (v0 = v) as -> by (apply (proj1 (Has_value_inv r1 (q ++ [16]) v [] v0)), Hs; constructor). done.
  - assert (WF r1 p (shortNode k c f)) as Hw1 by by constructor.
    destruct n2 as [| cs2 f2 | k2 c2 f2 | h2 | v2].
    + by apply WF_not_nil in Hw2.
    + apply full_parts in Hw2. rewrite <- (parts_same _ _ _ Hs) in Hw2. by apply short_no_parts in Hw2.
    + assert (k2 = k) as ->.
      { destruct (WF_nonempty _ _ _ Hw1) as (key & v & H). pose proof H as H'. apply Hs in H'.
        apply Has_short_inv in H as (s1 & -> & _), H' as (s2 & He & _). destruct (app_common _ _ _ _ He) as [(d & ->) | (d & ->)].
        - rewrite (short_longest r1 p k c f d) by (done || intros key w (s & -> & _)%Hs%Has_short_inv; eauto). by rewrite app_nil_r.
        - rewrite (short_longest r2 p k2 c2 f2 d) by (done || intros key w (s & -> & _)%Hs%Has_short_inv; eauto). by rewrite app_nil_r. }
      pose proof Hw2 as (_ & _ & Hwc2 & Htc2)%WF_short_inv. destruct (open_node _ _ _ Hwc2) as (c2' & [Hw2' Hs2 _ Href _] & Ho2).
      destruct (IH c2' Hw2' Ho2) as [Hag _].
      { intros s w. rewrite Hs2. specialize (Hs (k ++ s) w). rewrite !Has_short_inv in Hs.
        assert (forall r p' c', (exists rest, k ++ s = k ++ rest /\ Has r p' c' rest w) <-> Has r p' c' s w) as Hx.
        { intros r p' c'. split; [intros (rest & He & H); by apply app_inv_head in He as <- | eauto]. }
        by rewrite !Hx in Hs. }
      assert (p ++ k <> []) as Hne by (by destruct p, k).
      apply agree_rlp; [done.. |]. cbn [TrieProofs.node_rlp]. do 2 f_equal. fold (ref_rlp c) (ref_rlp c2). by rewrite Hag, Href.
    + destruct Ho as [Ho | (v & Hv)]; done.
    + apply WF_nibbles in Hw2. by apply full_key_not_nibbles in Hw2.
  - assert (WF r1 p (fullNode cs f)) as Hw1 by by constructor. pose proof (full_parts _ _ _ _ Hw1) as Hpt.
    destruct n2 as [| cs2 f2 | k2 c2 f2 | h2 | v2].
    + by apply WF_not_nil in Hw2.
    + inversion Hw2 as [| | ? ? ? _ Hl2 Hws2 _ _ |]; subst. apply agree_rlp; [done.. |]. cbn [TrieProofs.node_rlp]. do 2 f_equal.
      change (map ref_rlp cs = map ref_rlp cs2). apply list_eq. intros i. rewrite !list_lookup_fmap.
      destruct (cs !! i) as [c |] eqn:Hc.
      2: { destruct (cs2 !! i) eqn:Hc2; [| done]. apply lookup_lt_Some in Hc2. apply lookup_ge_None in Hc. lia. }
      destruct (lookup_lt_is_Some_2 cs2 i) as [c2 Hc2]; [rewrite Hl2, <- Hl; by eapply lookup_lt_Some |]. rewrite Hc2. cbn. f_equal.
      assert (forall s w, Has r1 (p ++ [Z.of_nat i]) c s w <-> Has r2 (p ++ [Z.of_nat i]) c2 s w) as Hsc.
      { intros s w. specialize (Hs (Z.of_nat i :: s) w).
        by rewrite (Has_child r1 p cs f (Z.of_nat i) c), (Has_child r2 p cs2 f2 (Z.of_nat i) c2) in Hs by (lia || by rewrite Nat2Z.id). }
      assert (p ++ [Z.of_nat i] <> []) as Hne by by destruct p.
      destruct (decide (c = Nil)) as [-> | Hn], (decide (c2 = Nil)) as [-> | Hn2]; [done | | |].
      * destruct (WF_nonempty _ _ _ (Hws2 _ _ Hc2 Hn2)) as (s & w & H). apply Hsc in H. by apply Has_nil in H.
      * destruct (WF_nonempty _ _ _ (Hw _ _ Hc Hn)) as (s & w & H). apply Hsc in H. by apply Has_nil in H.
      * destruct (open_node _ _ _ (Hws2 _ _ Hc2 Hn2)) as (c2' & [Hw2' Hs2 _ Href _] & Ho2).
        destruct (IH _ _ Hc Hn c2' Hw2' Ho2) as [Hag _]; [intros; by rewrite Hs2 |]. by rewrite Hag, Href.
    + rewrite (parts_same _ _ _ Hs) in Hpt. by apply short_no_parts in Hpt.
    + destruct Ho as [Ho | (v & Hv)]; done.
    + apply WF_nibbles in Hw2. by apply full_key_not_nibbles in Hw2.
  - destruct (same_hash _ _ _ _ _ _ Hr Hl Hlk (same_refl _ _ _ _ Hw)) as [_ Hs1 _ Href Hrt].
    destruct (IH n2 Hw2 Ho) as [Hag Hroot]; [intros; by rewrite <- Hs, Hs1 |].
    split; [intros Hne; by rewrite <- Href, Hag | by rewrite <- Hrt].
Qed.

Lemma canonical p n1 n2 : WF r1 p n1 -> WF r2 p n2 -> (forall k v, Has r1 p n1 k v <-> Has r2 p n2 k v) -> agree p n1 n2.
Proof using Type.
  intros Hw1 Hw2 Hs. destruct (open_node _ _ _ Hw2) as (n2' & [Hw2' Hs2 _ Href Hrt] & Ho).
  destruct (canonical_opened _ _ Hw1 n2' Hw2' Ho) as [Hag Hroot]; [intros; by rewrite Hs2 |].
  split; [intros Hne; by rewrite <- Href, Hag | by rewrite <- Hrt].
Qed.
End TwoReaders.
End Canonical.

(** ** The root hash

    [hash] of [hasher.go] computes the hash of the encoding of a node whatever hashes are cached in it, and
    caches right ones; so [Hash] gives the same root for every trie with the same content. *)

(** The empty string is encoded as one byte. *)
Class RLPEmpty (rlp : RLP) := { EncodeString_nil : EncodeString [] = EmptyString }.

Section Root.
Context `{rlp : RLP} `{rlpe : !RLPEmpty rlp} (keccak : bytes -> bytes) (reader : trieReader).
#[local] Abbreviation WF := (WF keccak reader).
#[local] Abbreviation same := (same keccak reader).
#[local] Abbreviation ref_rlp := (ref_rlp keccak).
#[local] Abbreviation node_rlp := (node_rlp keccak).
#[local] Abbreviation hash := (hash keccak).
#[local] Abbreviation nodeToHash := (nodeToHash keccak).
#[local] Abbreviation flagged := (flagged keccak).

Lemma compact_hex k : nibbles k \/ full_key k -> hexToCompact k = Ret (compact k).
Proof using Type.
  intros H. unfold compact. destruct H as [H | (q & Hq & ->)].
  - pose proof (hexToCompact_spec k false H) as Hc. cbn in Hc. by rewrite Hc.
  - pose proof (hexToCompact_spec q true Hq) as Hc. cbn in Hc. by rewrite Hc.
Qed.

Lemma WF_short_compact p k c f : WF p (shortNode k c f) -> hexToCompact k = Ret (compact k).
Proof using Type.
  intros (Hp & Hk & Hw & Ht)%WF_short_inv. apply compact_hex. pose proof (WF_nibbles _ _ _ _ Hw) as Hn.
  assert (nibbles (p ++ k) \/ full_key (p ++ k)) as [H | H] by (destruct c; auto).
  - left. by apply nibbles_app in H as [_ H].
  - right. by destruct (full_key_split _ _ H Hk).
Qed.

(** ** A node and its children *)

Definition same_child (p : bytes) (i : nat) (c c' : node) : Prop := (c = Nil /\ c' = Nil) \/ same (p ++ [Z.of_nat i]) c c'.

Lemma same_child_ref p i c c' : same_child p i c c' -> ref_rlp c' = ref_rlp c.
Proof using Type. intros [[-> ->] | [_ _ _ H _]]; [done |]. apply H. by destruct p. Qed.

Lemma same_children p cs cs' f f' : WF p (fullNode cs f) -> length cs' = length cs ->
  (forall i c c', cs !! i = Some c -> cs' !! i = Some c' -> same_child p i c c') ->
  (node_rlp (fullNode cs' f') = node_rlp (fullNode cs f) -> flag_ok keccak reader p (fullNode cs' f') f') -> flagged (fullNode cs' f') ->
  same p (fullNode cs f) (fullNode cs' f').
Proof using Type.
  intros Hw Hl Hs Hf Hfl.
  assert (node_rlp (fullNode cs' f') = node_rlp (fullNode cs f)) as He.
  { cbn [TrieProofs.node_rlp]. do 2 f_equal. change (map ref_rlp cs' = map ref_rlp cs). apply list_eq. intros i.
    rewrite !list_lookup_fmap. destruct (cs !! i) as [c |] eqn:Hc.
    - destruct (lookup_lt_is_Some_2 cs' i) as [c' Hc']; [rewrite Hl; by eapply lookup_lt_Some |]. rewrite Hc'. cbn.
      by rewrite (same_child_ref _ _ _ _ (Hs _ _ _ Hc Hc')).
    - apply lookup_ge_None in Hc. assert (cs' !! i = None) as -> by (apply lookup_ge_None; lia). done. }
  assert (forall i c c', cs !! i = Some c -> cs' !! i = Some c' -> (c = Nil <-> c' = Nil)) as Hnil.
  { intros i c c' Hc Hc'. destruct (Hs _ _ _ Hc Hc') as [[-> ->] | [Hwc Hsc _ _ _]]; [done |]. split; intros ->.
    - destruct (WF_nonempty _ _ _ _ Hwc) as (k & v & H). apply Hsc in H. by apply Has_nil in H.
    - by apply WF_not_nil in Hwc. }
  assert (forall i c, cs !! i = Some c -> exists c', cs' !! i = Some c') as Hin.
  { intros i c Hc. apply lookup_lt_is_Some_2. rewrite Hl. by eapply lookup_lt_Some. }
  assert (forall i c', cs' !! i = Some c' -> exists c, cs !! i = Some c) as Hni.
  { intros i c Hc. apply lookup_lt_is_Some_2. rewrite <- Hl. by eapply lookup_lt_Some. }
  inversion Hw as [| | ? ? ? Hp Hl0 Hws H2 Hfo |]; subst. split; [| | done | intros _; unfold ref_rlp | unfold root_digest | done].
  - constructor; [done | congruence | | | by apply Hf].
    + intros i c' Hc' Hn. destruct (Hni _ _ Hc') as (c & Hc). destruct (Hs _ _ _ Hc Hc') as [[_ ->] | [Hwc _ _ _ _]]; done.
    + destruct H2 as (i & j & a & b & Hij & Hi & Hj & Ha & Hb). destruct (Hin _ _ Hi) as (a' & Hi'), (Hin _ _ Hj) as (b' & Hj').
      exists i, j, a', b'. split; [done |]. split; [done |]. split; [done |].
      split; [by rewrite <- (Hnil _ _ _ Hi Hi') | by rewrite <- (Hnil _ _ _ Hj Hj')].
  - intros k v. rewrite !Has_full_inv. split; intros (i & c & rest & -> & Hc & H).
    + destruct (Hni _ _ Hc) as (c0 & Hc0). destruct (Hs _ _ _ Hc0 Hc) as [[_ ->] | [_ Hsc _ _ _]]; [by apply Has_nil in H |].
      apply Hsc in H. eauto 6.
    + destruct (Hin _ _ Hc) as (c1 & Hc1). destruct (Hs _ _ _ Hc Hc1) as [[-> _] | [_ Hsc _ _ _]]; [by apply Has_nil in H |].
      apply Hsc in H. eauto 6.
  - by rewrite He.
  - by rewrite He.
Qed.

(** ** The hasher *)

(** What the hasher returns for a child. *)
Definition hashes_to (p : bytes) (n : node) (run : outcome (node * node)) : Prop :=
  exists hashed cached, run = Ret (hashed, cached) /\ encode hashed = ref_rlp n /\ same p n cached /\ flagged cached.

(** The hash of a node that stands for its encoding, forced or not. *)
Lemma nodeToHash_ref x n : loaded n -> encode x = node_rlp n -> encode (nodeToHash x false) = ref_rlp n.
Proof using Type.
  intros Hl He. unfold nodeToHash, TrieProofs.ref_rlp, embed. rewrite He, decide_True by done.
  destruct (zlen (node_rlp n) <? 32); cbn; [by rewrite He | done].
Qed.

(** The flag a node gets whose children have theirs. *)
Lemma nodeToHash_flag p n n' x f force : (forall h, x <> hashNode h) -> encode x = node_rlp n -> node_rlp n' = node_rlp n -> (force = true -> p = []) ->
  flag_ok keccak reader p n f -> f_hash f = None -> Forall flagged (subnodes n') ->
  flag_ok keccak reader p n' (mkFlag (hash_of (nodeToHash x force)) (f_dirty f)).
Proof using Type.
  intros Hx He He' Hf Hfo Hn Hk. unfold flag_ok in Hfo. rewrite Hn in Hfo. unfold flag_ok, nodeToHash, TrieHash.nodeToHash. cbn [f_hash f_dirty]. rewrite He, He'.
  destruct (Z.ltb_spec (zlen (node_rlp n)) 32) as [Hlt | Hge]; [destruct force |]; cbn [andb negb hash_of hashData].
  - split_and!; [split; [done |]; intros []; by apply Hf | done |]. intros Hd. destruct Hfo as [Hfo | [[] _]]; [congruence | by apply Hf].
  - destruct x; try done. by destruct (Hx h).
  - split_and!; [split; [done | lia] | done |]. intros Hd. destruct Hfo as [Hfo | [_ ?]]; [congruence | lia].
Qed.

Lemma nodeToHash_flagged n x f force : node_flag n = Some (mkFlag (hash_of (nodeToHash x force)) (f_dirty f)) -> encode x = node_rlp n -> flagged n.
Proof using Type.
  intros Hn He f' Hf' Hsz. rewrite Hn in Hf'. injection Hf' as <-. unfold nodeToHash, TrieHash.nodeToHash. cbn [f_hash]. rewrite He.
  destruct (Z.ltb_spec (zlen (node_rlp n)) 32); [lia |]. cbn. by eexists.
Qed.

Lemma same_short_flag p k c c' f f' : WF p (shortNode k c f) -> same (p ++ k) c c' ->
  (node_rlp (shortNode k c' f') = node_rlp (shortNode k c f) -> flag_ok keccak reader p (shortNode k c' f') f') -> flagged (shortNode k c' f') ->
  same p (shortNode k c f) (shortNode k c' f').
Proof using Type.
  intros Hws Hs Hf Hfl. pose proof (same_short _ _ _ _ _ _ _ Hws Hs) as [Hw' Hh _ _ _ _]. destruct Hs as [Hw1 _ _ Hr _].
  pose proof Hws as (Hp & Hk & Hw & Ht)%WF_short_inv. pose proof Hw' as (_ & _ & Hwc & Htc)%WF_short_inv.
  assert (node_rlp (shortNode k c' f') = node_rlp (shortNode k c f)) as He.
  { cbn [TrieProofs.node_rlp]. fold (ref_rlp c') (ref_rlp c). rewrite Hr; [done |]. by destruct p, k. }
  split; [constructor; auto | | done | intros _; unfold TrieProofs.ref_rlp; by rewrite He | unfold root_digest; by rewrite He | done].
  intros key v. rewrite <- (Hh key v), !Has_short_inv. done.
Qed.

(** The whole step for a short node, its child done. *)
Lemma hash_short p k c f force : WF p (shortNode k c f) -> f_hash f = None -> hashes_to (p ++ k) c (hash c false) ->
  (force = true -> p = []) ->
  exists x cached, encode x = node_rlp (shortNode k c f) /\ (forall h, x <> hashNode h) /\
    hash (shortNode k c f) force = Ret (nodeToHash x force, cached) /\ same p (shortNode k c f) cached /\ flagged cached /\
    node_flag cached = Some (mkFlag (hash_of (nodeToHash x force)) (f_dirty f)).
Proof using Type.
  intros Hw Hf (cv & cac & Hrun & Henc & Hs & Hfl) Hforce. exists (shortNode (compact k) cv f).
  assert (encode (shortNode (compact k) cv f) = node_rlp (shortNode k c f)) as He.
  { cbn [encode TrieProofs.node_rlp]. by rewrite Henc. }
  eexists. split; [done |]. split; [done |]. split; [| apply and_wlog_l].
  - cbn [TrieHash.hash]. rewrite Hf, (WF_short_compact _ _ _ _ Hw), bind_Ret.
    assert (match c with fullNode _ _ | shortNode _ _ _ => hash c false | _ => Ret (c, c) end = Ret (cv, cac)) as ->; [| by rewrite bind_Ret].
    destruct c; try done.
  - intros [Hfc _]. apply same_short_flag; [done | done | | done]. intros He'. eapply nodeToHash_flag; [done | done | done | done | by apply WF_short_flag | done |].
    cbn. by rewrite Forall_singleton.
  - split; [| reflexivity]. eapply nodeToHash_flagged; [reflexivity |]. rewrite He. cbn [TrieProofs.node_rlp]. fold (ref_rlp cac) (ref_rlp c). destruct Hs as [_ _ _ Hr _]. rewrite Hr; [done |].
    apply WF_short_inv in Hw as (_ & Hk & _). by destruct p, k.
Qed.

Definition hash_children : nat -> list node -> outcome (list node * list node) :=
  fix children (i : nat) (cs : list node) : outcome (list node * list node) :=
    match cs with
    | [] => Ret ([], [])
    | c :: cs =>
        '(cc, cac) ← (if (i <? 16)%nat then (if is_nil c then Ret (nilValueNode, Nil) else hash c false) else Ret (c, c));
        '(ccs, cached) ← children (S i) cs;
        Ret (cc :: ccs, cac :: cached)
    end.

Lemma hash_children_spec p cs i :
  (forall j c, cs !! j = Some c -> c <> Nil -> WF (p ++ [Z.of_nat (i + j)]) c) ->
  (forall j c, cs !! j = Some c -> c <> Nil -> (i + j < 16)%nat -> hashes_to (p ++ [Z.of_nat (i + j)]) c (hash c false)) ->
  (forall j c, cs !! j = Some c -> (16 <= i + j)%nat -> ~ loaded c) ->
  exists ccs cached, hash_children i cs = Ret (ccs, cached) /\ map encode ccs = map ref_rlp cs /\ length cached = length cs /\
    (forall j c c', cs !! j = Some c -> cached !! j = Some c' -> same_child p (i + j) c c') /\ Forall flagged cached.
Proof using rlpe.
  revert i. induction cs as [| c cs IH]; intros i Hw Hh Hlast; [by exists [], [] |].
  destruct (IH (S i)) as (ccs & cached & Hrun & Henc & Hl & Hs & Hfs).
  { intros j d Hd. rewrite Nat.add_succ_comm. by apply Hw. }
  { intros j d Hd. rewrite Nat.add_succ_comm. by apply Hh. }
  { intros j d Hd. rewrite Nat.add_succ_comm. by apply Hlast. }
  assert (exists cc cac, (if (i <? 16)%nat then (if is_nil c then Ret (nilValueNode, Nil) else hash c false) else Ret (c, c)) = Ret (cc, cac) /\
    encode cc = ref_rlp c /\ same_child p i c cac /\ flagged cac) as (cc & cac & Hc & Hec & Hsc & Hfc).
  { destruct (decide (c = Nil)) as [-> | Hn].
    - cbn [is_nil]. destruct (i <? 16)%nat; do 2 eexists; (split; [done |]); (split; [| by split; [left |]]); [apply EncodeString_nil | done].
    - assert (is_nil c = false) as -> by by destruct c. destruct (Nat.ltb_spec i 16) as [Hi | Hi].
      + destruct (Hh 0%nat c eq_refl Hn) as (hd & cd & Hr & He & Hsm & Hfc); [lia |]. rewrite Nat.add_0_r in Hsm.
        do 2 eexists. split; [done |]. split; [done | by split; [right |]].
      + do 2 eexists. split; [done |]. specialize (Hw 0%nat c eq_refl Hn). rewrite Nat.add_0_r in Hw.
        specialize (Hlast 0%nat c eq_refl ltac:(lia)). split; [| split; [right; by apply same_refl | by destruct c]].
        unfold TrieProofs.ref_rlp, embed. rewrite decide_False by done. by destruct c. }
  exists (cc :: ccs), (cac :: cached). cbn [hash_children]. fold (hash_children (S i) cs) in Hrun |- *.
  rewrite Hc, bind_Ret. split; [| split; [by cbn; rewrite Hec, Henc | split; [cbn; by rewrite Hl | split; [| by constructor]]]].
  - change ((hash_children (S i) cs ≫= λ '(ccs0, cached0), Ret (cc :: ccs0, cac :: cached0)) = Ret (cc :: ccs, cac :: cached)).
    by rewrite Hrun.
  - intros [| j] d d' Hd Hd'.
    + injection Hd as <-. injection Hd' as <-. by rewrite Nat.add_0_r.
    + rewrite <- Nat.add_succ_comm. by apply Hs.
Qed.

Lemma last_child p cs f i c : WF p (fullNode cs f) -> cs !! i = Some c -> (16 <= i)%nat -> ~ loaded c.
Proof using Type.
  inversion 1 as [| | ? ? ? Hp Hl Hws H2 Hfo |]; subst. intros Hc Hi Hld.
  assert (i = 16%nat) as -> by (apply lookup_lt_Some in Hc; lia). specialize (Hws _ _ Hc ltac:(by intros ->)).
  pose proof (WF_nibbles _ _ _ _ Hws) as Hn. destruct c; try done; apply nibbles_app in Hn as [_ Hn];
    inversion Hn as [| ? ? Hb]; unfold is_nibble in Hb; lia.
Qed.

Lemma hash_full p cs f force : WF p (fullNode cs f) -> f_hash f = None ->
  (forall i c, cs !! i = Some c -> c <> Nil -> hashes_to (p ++ [Z.of_nat i]) c (hash c false)) -> (force = true -> p = []) ->
  exists x cached, encode x = node_rlp (fullNode cs f) /\ (forall h, x <> hashNode h) /\
    hash (fullNode cs f) force = Ret (nodeToHash x force, cached) /\ same p (fullNode cs f) cached /\ flagged cached /\
    node_flag cached = Some (mkFlag (hash_of (nodeToHash x force)) (f_dirty f)).
Proof using rlpe.
  intros Hw Hf Hh Hforce. destruct (hash_children_spec p cs 0) as (ccs & cached & Hrun & Henc & Hl & Hs & Hfs).
  { inversion Hw; subst. auto. }
  { intros j c Hc Hn _. by apply Hh. }
  { intros j c Hc Hj. by eapply last_child. }
  exists (fullNode ccs f). assert (encode (fullNode ccs f) = node_rlp (fullNode cs f)) as He.
  { cbn [encode TrieProofs.node_rlp]. by rewrite Henc. }
  assert (forall f', node_rlp (fullNode cached f') = node_rlp (fullNode cs f)) as He'.
  { intros f'. cbn [TrieProofs.node_rlp]. do 2 f_equal. change (map ref_rlp cached = map ref_rlp cs). apply list_eq. intros i. rewrite !list_lookup_fmap.
    destruct (cs !! i) as [c |] eqn:Hc.
    - destruct (lookup_lt_is_Some_2 cached i) as [c' Hc']; [rewrite Hl; by eapply lookup_lt_Some |]. rewrite Hc'. cbn. by rewrite (same_child_ref _ _ _ _ (Hs _ _ _ Hc Hc')).
    - apply lookup_ge_None in Hc. assert (cached !! i = None) as -> by (apply lookup_ge_None; lia). done. }
  eexists. split; [done |]. split; [done |]. split; [| apply and_wlog_l].
  - cbn [TrieHash.hash]. rewrite Hf. unfold hash_children in Hrun. rewrite Hrun. reflexivity.
  - intros [Hfc _]. apply same_children; [done | done | done | | done]. intros _. eapply nodeToHash_flag; [done | done | apply He' | done | by apply WF_full_flag | done | done].
  - split; [| reflexivity]. eapply nodeToHash_flagged; [reflexivity |]. by rewrite He, He'.
Qed.

(** A cached hash is returned as it is. *)
Lemma hash_cached n h force : match n with fullNode _ f | shortNode _ _ f => f_hash f = Some h | _ => False end ->
  hash n force = Ret (hashNode h, n).
Proof using Type. destruct n; try done; cbn [TrieHash.hash]; by intros ->. Qed.

Lemma linked_ref p h n : loaded n -> p <> [] -> linked keccak p h (node_rlp n) -> EncodeString h = ref_rlp n.
Proof using Type.
  intros Hl Hp [-> Hs]. unfold TrieProofs.ref_rlp, embed. rewrite decide_True by done.
  destruct (Z.ltb_spec (zlen (node_rlp n)) 32); [specialize (Hs Hp); lia | done].
Qed.

Lemma hash_flagged n f h : node_flag n = Some f -> f_hash f = Some h -> flagged n.
Proof using Type. intros Hn Hh f' Hf' _. rewrite Hn in Hf'. injection Hf' as <-. by rewrite Hh. Qed.

Lemma hash_child p n : WF p n -> p <> [] -> hashes_to p n (hash n false).
Proof using rlpe.
  induction 1 as [q v Hq Hv | p k c f Hp Hk Hw IH Ht Hfo | p cs f Hp Hl Hw IH H2 Hfo | p h n Hp Hr Hl Hw IH Hlk]; intros Hne.
  - do 2 eexists. split; [done |]. split; [done | by split; [apply same_refl; constructor |]].
  - assert (WF p (shortNode k c f)) as Hws by by constructor. destruct (f_hash f) as [h |] eqn:Hfh.
    + rewrite (hash_cached _ h) by done. do 2 eexists. split; [done |]. split; [by apply (linked_ref p); [| | eapply (WF_linked _ _ p (shortNode k c f) f)] | split; [by apply same_refl | by apply (hash_flagged _ f h)]].
    + destruct (hash_short p k c f false Hws Hfh) as (x & cached & He & Hx & -> & Hs & Hfl & _); [apply IH; by destruct p, k | done |].
      do 2 eexists. split; [done |]. split; [by apply nodeToHash_ref | done].
  - assert (WF p (fullNode cs f)) as Hws by by constructor. destruct (f_hash f) as [h |] eqn:Hfh.
    + rewrite (hash_cached _ h) by done. do 2 eexists. split; [done |]. split; [by apply (linked_ref p); [| | eapply (WF_linked _ _ p (fullNode cs f) f)] | split; [by apply same_refl | by apply (hash_flagged _ f h)]].
    + destruct (hash_full p cs f false Hws Hfh) as (x & cached & He & Hx & -> & Hs & Hfl & _); [intros i c Hc Hn; apply IH; [done.. |]; by destruct p | done |].
      do 2 eexists. split; [done |]. split; [by apply nodeToHash_ref | done].
  - do 2 eexists. split; [done |]. split; [done | by split; [apply same_refl; econstructor |]].
Qed.

(** The root is hashed even when it is small. *)
Lemma hash_root n : WF [] n -> exists cached, hash n true = Ret (hashNode (root_digest keccak n), cached) /\ same [] n cached /\
  (loaded n -> exists d, node_flag cached = Some (mkFlag (Some (root_digest keccak n)) d)).
Proof using rlpe.
  intros Hw. assert (forall x, nodeToHash x true = hashNode (keccak (encode x))) as Hforce
    by (intros x; unfold nodeToHash; by rewrite andb_false_r).
  destruct n as [| cs f | k c f | h | v].
  - by apply WF_not_nil in Hw.
  - destruct (f_hash f) as [h |] eqn:Hfh.
    + rewrite (hash_cached _ h) by done. destruct (WF_linked _ _ _ _ f h Hw eq_refl Hfh) as [-> _]. eexists. split; [done | split; [by apply same_refl |]]. intros _. exists (f_dirty f). cbn [node_flag]. unfold root_digest. rewrite <- Hfh. by destruct f.
    + destruct (hash_full [] cs f true Hw Hfh) as (x & cached & He & _ & -> & Hs & Hfl & Hnf); [| done |].
      { intros i c Hc Hn. inversion Hw; subst. apply hash_child; [auto | done]. }
      rewrite Hforce, He. rewrite Hforce, He in Hnf. eauto 10.
  - destruct (f_hash f) as [h |] eqn:Hfh.
    + rewrite (hash_cached _ h) by done. destruct (WF_linked _ _ _ _ f h Hw eq_refl Hfh) as [-> _]. eexists. split; [done | split; [by apply same_refl |]]. intros _. exists (f_dirty f). cbn [node_flag]. unfold root_digest. rewrite <- Hfh. by destruct f.
    + pose proof Hw as (_ & Hk & Hwc & _)%WF_short_inv.
      destruct (hash_short [] k c f true Hw Hfh) as (x & cached & He & _ & -> & Hs & Hfl & Hnf); [by apply hash_child | done |].
      rewrite Hforce, He. rewrite Hforce, He in Hnf. eauto 10.
  - eexists. split; [done | by split; [apply same_refl |]].
  - apply WF_nibbles in Hw. by apply full_key_nil in Hw.
Qed.
End Root.

(** ** [Hash] *)

Section HashTheorems.
Context `{rlp : RLP} `{rlpe : !RLPEmpty rlp} (keccak : bytes -> bytes).

Definition trie_root (t : Trie) : Z := match root t with Nil => EmptyRootHash | n => BytesToHash (root_digest keccak n) end.

Lemma Hash_spec t m : represents keccak t m ->
  exists t', Hash keccak t = Ret (trie_root t, t') /\ represents keccak t' m /\ trie_root t' = trie_root t /\
    t_reader t' = t_reader t /\ t_tracer t' = t_tracer t /\ owner t' = owner t.
Proof using rlpe.
  intros [Ho Hw Hc Hd]. unfold Hash, hashRoot, trie_root. destruct Hw as [He | Hw].
  - rewrite He in *. eexists. split; [vm_compute; reflexivity |]. cbn. split; [split; cbn; try done; by left | done].
  - destruct (hash_root keccak (t_reader t) (root t) Hw) as (cached & Hrun & [Hw' Hs _ _ Hrt] & Hnf).
    destruct (root t) as [| cs f | k c f | h | v] eqn:Hroot; [by apply WF_not_nil in Hw | ..]; rewrite Hrun; cbn [mbind outcome_bind as_hash];
      (eexists; split; [done |]); (split; [split; cbn; [done | by right | intros k0 v0; rewrite Hs; apply Hc | done] |]);
      (split; [| done]); cbn [root with_root]; rewrite <- Hrt; (destruct cached; [by apply WF_not_nil in Hw' | done..]).
Qed.

Lemma root_by_content t1 t2 m : represents keccak t1 m -> represents keccak t2 m -> trie_root t1 = trie_root t2.
Proof using Type.
  intros [_ Hw1 Hc1 _] [_ Hw2 Hc2 _]. unfold trie_root.
  assert (forall k v, Has (t_reader t1) [] (root t1) k v <-> Has (t_reader t2) [] (root t2) k v) as Hs
    by (intros k v; by rewrite (Hc1 k v), (Hc2 k v)).
  destruct Hw1 as [He1 | Hw1], Hw2 as [He2 | Hw2].
  - by rewrite He1, He2.
  - destruct (WF_nonempty _ _ _ _ Hw2) as (k & v & H). apply Hs in H. rewrite He1 in H. by apply Has_nil in H.
  - destruct (WF_nonempty _ _ _ _ Hw1) as (k & v & H). apply Hs in H. rewrite He2 in H. by apply Has_nil in H.
  - destruct (canonical keccak _ _ _ _ _ Hw1 Hw2 Hs) as [_ Hroot].
    destruct (root t1) eqn:H1; [by apply WF_not_nil in Hw1 | ..]; (destruct (root t2) eqn:H2; [by apply WF_not_nil in Hw2 | ..]);
      by rewrite Hroot.
Qed.

(** C7: the root hash is a function of the content. Two tries, whatever databases lie below them, whatever parts of them are
    loaded and whatever hashes are cached in them, that go through any two sequences of operations which leave the same map,
    have the same root hash, and hashing them changes neither map. *)
Theorem root_hash_by_content fuel t1 m1 ops1 t2 m2 ops2 :
  represents keccak t1 m1 -> Forall (op_ok fuel) ops1 -> represents keccak t2 m2 -> Forall (op_ok fuel) ops2 ->
  (map_ops m1 ops1).2 = (map_ops m2 ops2).2 ->
  exists a1 t1' a2 t2' h t1'' t2'', run_ops fuel t1 ops1 = Val (a1, t1') /\ run_ops fuel t2 ops2 = Val (a2, t2') /\
    Hash keccak t1' = Ret (h, t1'') /\ Hash keccak t2' = Ret (h, t2'') /\
    represents keccak t1'' (map_ops m1 ops1).2 /\ represents keccak t2'' (map_ops m1 ops1).2.
Proof using rlpe.
  intros H1 Ho1 H2 Ho2 He. destruct (run_ops_spec keccak fuel t1 m1 ops1 H1 Ho1) as (t1' & Hr1 & Hrep1).
  destruct (run_ops_spec keccak fuel t2 m2 ops2 H2 Ho2) as (t2' & Hr2 & Hrep2). rewrite <- He in Hrep2.
  destruct (Hash_spec _ _ Hrep1) as (t1'' & Hh1 & Hrep1' & _). destruct (Hash_spec _ _ Hrep2) as (t2'' & Hh2 & Hrep2' & _).
  rewrite <- (root_by_content _ _ _ Hrep1 Hrep2) in Hh2.
  eexists _, t1', _, t2', _, t1'', t2''. do 5 (split; [eassumption |]). done.
Qed.
End HashTheorems.

