(* ===== verification/TxTree.v ===== *)
(** * The transaction root of a block

    Models [GetTxTreeRoot] of [chain/blockchain.go]: a fresh trie in memory, one update for each
    transaction, and the root hash; [Encode] of a transaction ([encoding/gob]) is an argument. The
    error of an update is dropped, as in the code.

    The root that the header of a block carries for its body is a function of the set of
    transactions: it does not depend on their order. *)
From Stdlib Require Import ZArith Lia Ascii.
From stdpp Require Import base gmap strings list.
From S2P Require Import Prelude Utils JournalTypes Core AccessList StateDB StateDBSim StateDBProofs Execution.
From S2P Require Import TrieEncoding Trie TrieHash TrieProofs TrieMap TrieRoot.

Section TxTree.
Context `{rlp : RLP} (keccak : bytes -> bytes) (Encode : Transaction -> bytes).

(** The nodes of a fresh trie are all in memory, so the fuel of an update is that of its key. *)
Definition update_tx (t : Trie) (tx : Transaction) : res Trie :=
  let key := bytes_Z (TxHash tx) in
  '(_, t) ← Update (key_fuel key) t key (Encode tx);
  mret t.

Fixpoint update_txs (t : Trie) (txs : list Transaction) : res Trie :=
  match txs with [] => mret t | tx :: txs => t ← update_tx t tx; update_txs t txs end.

(** [NewEmpty] dereferenced. *)
Definition GetTxTreeRoot (db : Z -> string + Reader) (txs : list Transaction) : res bytes :=
  o ← NewEmpty db;
  match o with
  | None => Crash "nil dereference"
  | Some t =>
      t ← update_txs t txs;
      '(h, _) ← of_outcome (Hash keccak t);
      mret (hash_bytes h)
  end.

(** ** The map of the transactions *)

Definition tx_key (tx : Transaction) : bytes := bytes_Z (TxHash tx).

Definition tx_map (txs : list Transaction) (m : gmap bytes bytes) : gmap bytes bytes :=
  foldl (fun m tx => map_update m (tx_key tx) (Encode tx)) m txs.

Lemma bytes_Z_bytes s : Forall is_byte (bytes_Z s).
Proof using Type.
  unfold bytes_Z. apply Forall_forall. intros b Hb. apply list_elem_of_In, in_map_iff in Hb as (c & <- & _).
  pose proof (N_ascii_bounded c). unfold is_byte. lia.
Qed.

Lemma bytes_Z_inj s1 s2 : bytes_Z s1 = bytes_Z s2 -> s1 = s2.
Proof using Type.
  intros H. rewrite <- (of_bytes_of s1), <- (of_bytes_of s2). f_equal. revert H. unfold bytes_Z. generalize (bytes_of s1) (bytes_of s2).
  induction l as [| a l IH]; intros [| b l'] H; try done. injection H as H1 H2. f_equal; [| by apply IH].
  apply N2Z.inj in H1. by rewrite <- (ascii_N_embedding a), <- (ascii_N_embedding b), H1.
Qed.

Lemma update_txs_spec txs t m : represents keccak t m ->
  exists t', update_txs t txs = Val t' /\ represents keccak t' (tx_map txs m).
Proof using Type.
  revert t m. induction txs as [| tx txs IH]; intros t m H; [by exists t |]. cbn [update_txs].
  destruct (Update_spec keccak (key_fuel (bytes_Z (TxHash tx))) t m (bytes_Z (TxHash tx)) (Encode tx)) as (t1 & Hrun & H1);
    [done | apply bytes_Z_bytes | done |].
  unfold update_tx. rewrite Hrun. cbn [mbind res_bind]. by apply IH.
Qed.

(** With different hashes the map holds exactly the transactions. *)
Lemma tx_map_lookup txs k v : (forall tx, tx ∈ txs -> Encode tx <> []) -> NoDup (map TxHash txs) ->
  tx_map txs ∅ !! k = Some v <-> exists tx, tx ∈ txs /\ k = tx_key tx /\ v = Encode tx.
Proof using Type.
  unfold tx_map. induction txs as [| tx txs IH] using rev_ind; intros He Hn.
  { cbn. rewrite lookup_empty. split; [done | intros (tx & H%not_elem_of_nil & _); done]. }
  rewrite map_app in Hn. apply NoDup_app in Hn as (Hn & Hd & _). rewrite foldl_app. cbn [foldl].
  assert (Encode tx <> []) as Hne by (apply He, elem_of_app; right; by left).
  assert (forall tx', tx' ∈ txs -> tx_key tx' <> tx_key tx) as Hk.
  { intros tx' Ht Heq%bytes_Z_inj. apply (Hd (TxHash tx')); [apply list_elem_of_In, in_map, list_elem_of_In, Ht |].
    rewrite Heq. cbn. by left. }
  assert (map_update (foldl (fun m tx => map_update m (tx_key tx) (Encode tx)) ∅ txs) (tx_key tx) (Encode tx) =
    <[tx_key tx := Encode tx]> (foldl (fun m tx => map_update m (tx_key tx) (Encode tx)) ∅ txs)) as -> by (by destruct (Encode tx)).
  rewrite lookup_insert_Some, IH by (done || intros; apply He, elem_of_app; by left). setoid_rewrite elem_of_app. setoid_rewrite list_elem_of_singleton.
  split.
  - intros [[<- <-] | [Hne' (tx' & Ht & -> & ->)]]; eauto.
  - intros (tx' & [Ht | ->] & -> & ->); [right | by left]. split; [symmetry; by apply Hk | eauto].
Qed.

Lemma NewEmpty_spec db : exists t, NewEmpty db = Val (Some t) /\ represents keccak t ∅.
Proof using Type. eexists. split; [reflexivity |]. apply represents_empty. Qed.

Lemma GetTxTreeRoot_spec `{!RLPEmpty rlp} db txs :
  exists t, represents keccak t (tx_map txs ∅) /\ GetTxTreeRoot db txs = Val (hash_bytes (trie_root keccak t)).
Proof using Type.
  destruct (NewEmpty_spec db) as (t0 & H0 & Hr0). destruct (update_txs_spec txs t0 ∅ Hr0) as (t & Hrun & Hr).
  exists t. split; [done |]. destruct (Hash_spec keccak t _ Hr) as (t' & Hh & _).
  unfold GetTxTreeRoot. rewrite H0. cbn [mbind res_bind]. unfold mbind, res_bind. rewrite Hrun. cbn. by rewrite Hh.
Qed.

(** C30: the transaction root of a block is a function of the set of its transactions: for transactions with different hashes
    and non-empty encodings [GetTxTreeRoot] returns, and any order of the same transactions gives the same root, whatever the
    databases the two tries are given. *)
Theorem tx_root_unordered `{!RLPEmpty rlp} db1 db2 txs1 txs2 :
  (forall tx, tx ∈ txs1 -> Encode tx <> []) -> NoDup (map TxHash txs1) -> txs1 ≡ₚ txs2 ->
  exists h, GetTxTreeRoot db1 txs1 = Val h /\ GetTxTreeRoot db2 txs2 = Val h.
Proof using Type.
  intros He Hn Hp. destruct (GetTxTreeRoot_spec db1 txs1) as (t1 & H1 & ->). destruct (GetTxTreeRoot_spec db2 txs2) as (t2 & H2 & ->).
  assert (tx_map txs2 ∅ = tx_map txs1 ∅) as Hm.
  { apply map_eq. intros k. apply option_eq. intros v. rewrite !tx_map_lookup; try done; try (by rewrite <- Hp).
    - by setoid_rewrite Hp.
    - intros tx. rewrite <- Hp. apply He. }
  rewrite Hm in H2. rewrite (root_by_content keccak t1 t2 _ H1 H2). eauto.
Qed.
End TxTree.
