(* ===== verification/TrieIterator.v ===== *)
(** * The node iterator

    [vm/trie/iterator.go]: a pre-order walk over the nodes of a trie that keeps its position in a stack, and the iterator over
    the keys and values built on it. The top of the stack is the head of the list; the pool of used states only saves
    allocations, so a state is a fresh value. The difference and union of iterators are not modelled. *)
From Stdlib Require Import ZArith Lia.
From stdpp Require Import base gmap strings list.
From S2P Require Import Prelude Utils Core TrieEncoding Trie TrieHash.

Record nodeIteratorState := mkIterState { is_hash : Z; is_node : node; is_parent : Z; is_index : Z; is_pathlen : Z }.

Inductive iterErr := errIteratorEnd | seekError (key : bytes) (err : trieErr) | iterError (err : trieErr).

(** [resolver]: by owner, path and hash; an empty blob is none. *)
Record nodeIterator := mkIterator {
  it_trie : Trie; it_stack : list nodeIteratorState; it_path : bytes; it_err : option iterErr; resolver : option (Z -> bytes -> Z -> bytes)
}.

Definition it_with_trie (t : Trie) (it : nodeIterator) : nodeIterator := mkIterator t (it_stack it) (it_path it) (it_err it) (resolver it).
Definition it_at (stack : list nodeIteratorState) (path : bytes) (it : nodeIterator) : nodeIterator := mkIterator (it_trie it) stack path (it_err it) (resolver it).
Definition it_with_err (e : option iterErr) (it : nodeIterator) : nodeIterator := mkIterator (it_trie it) (it_stack it) (it_path it) e (resolver it).
Definition AddResolver (it : nodeIterator) (r : Z -> bytes -> Z -> bytes) : nodeIterator := mkIterator (it_trie it) (it_stack it) (it_path it) (it_err it) (Some r).

(** ** The order of the children of a full node: the value first *)

Definition prevChildIndex (index : Z) : Z := if index =? 0 then 16 else if index =? 16 then -1 else if index =? 17 then 15 else index - 1.
Definition nextChildIndex (index : Z) : Z := if index =? -1 then 16 else if index =? 15 then 17 else if index =? 16 then 0 else index + 1.

(** [bytes.Compare(a, b) >= 0]. *)
Fixpoint bytes_ge (a b : bytes) : bool :=
  match a, b with
  | _, [] => true
  | [], _ :: _ => false
  | x :: a, y :: b => if x =? y then bytes_ge a b else y <? x
  end.

Definition reachedPath (path target : bytes) : outcome bool :=
  t ← hasTerm path;
  path ← (if t : bool then slice path 0 (zlen path - 1) else Ret path);
  Ret (bytes_ge path target).

Section Iterator.
Context `{rlp : RLP} (keccak : bytes -> bytes).

(** ** Where the iterator is *)

Definition it_Hash (it : nodeIterator) : Z := match it_stack it with [] => 0 | st :: _ => is_hash st end.
Definition it_Parent (it : nodeIterator) : Z := match it_stack it with [] => 0 | st :: _ => is_parent st end.
Definition it_Path (it : nodeIterator) : bytes := it_path it.
Definition Leaf (it : nodeIterator) : outcome bool := hasTerm (it_path it).

Definition LeafKey (it : nodeIterator) : outcome bytes :=
  match it_stack it with
  | mkIterState _ (valueNode _) _ _ _ :: _ => hexToKeybytes (it_path it)
  | _ => Panic "not at leaf"
  end.

Definition LeafBlob (it : nodeIterator) : outcome bytes :=
  match it_stack it with mkIterState _ (valueNode v) _ _ _ :: _ => Ret v | _ => Panic "not at leaf" end.

Definition it_Error (it : nodeIterator) : option trieErr :=
  match it_err it with None | Some errIteratorEnd => None | Some (seekError _ e) | Some (iterError e) => Some e end.

(** ** Resolving nodes *)

Definition resolved_by (it : nodeIterator) (path : bytes) (hash : bytes) : option bytes :=
  match resolver it with
  | None => None
  | Some r => match r (owner (it_trie it)) path (BytesToHash hash) with [] => None | blob => Some blob end
  end.

Definition resolveHash (it : nodeIterator) (hash path : bytes) : res (trieErr + node) :=
  early ← match resolved_by it path hash with
    | None => mret None
    | Some blob => r ← decodeNode (S (length blob)) (Some hash) blob; mret match r with inr n => Some n | inl _ => None end
    end;
  match early with
  | Some n => mret (inr n)
  | None =>
      match reader_node (t_reader (it_trie it)) path (BytesToHash hash) with
      | inl e => mret (inl e)
      | inr blob => n ← mustDecodeNode (Some hash) blob; mret (inr n)
      end
  end.

Definition resolveBlob (it : nodeIterator) (hash path : bytes) : trieErr + bytes :=
  match resolved_by it path hash with
  | Some blob => inr blob
  | None => reader_node (t_reader (it_trie it)) path (BytesToHash hash)
  end.

Definition NodeBlob (it : nodeIterator) : option bytes * nodeIterator :=
  if it_Hash it =? 0 then (None, it) else
  match resolveBlob it (hash_bytes (it_Hash it)) (it_path it) with
  | inl e => (None, it_with_err (Some (iterError e)) it)
  | inr blob => (Some blob, it)
  end.

Definition state_resolve (it : nodeIterator) (st : nodeIteratorState) (path : bytes) : res (option trieErr * nodeIteratorState) :=
  match is_node st with
  | hashNode hash =>
      r ← resolveHash it hash path;
      mret match r with
           | inl e => (Some e, st)
           | inr n => (None, mkIterState (BytesToHash hash) n (is_parent st) (is_index st) (is_pathlen st))
           end
  | _ => mret (None, st)
  end.

(** ** The next child *)

(** The loop visits at most seventeen slots, so eighteen rounds are enough. *)
Fixpoint find_slot (fuel : nat) (cs : list node) (index : Z) : res (option (node * Z)) :=
  match fuel with
  | O => Spin
  | S fuel =>
      if index <? zlen cs then
        c ← of_outcome (idx cs index);
        match c with Nil => find_slot fuel cs (nextChildIndex index) | _ => mret (Some (c, index)) end
      else mret None
  end.

Definition child_state (child : node) (ancestor : Z) (path : bytes) : res nodeIteratorState :=
  '(hash, _) ← of_outcome (node_cache child);
  mret (mkIterState (BytesToHash (default [] hash)) child ancestor (-1) (zlen path)).

Definition findChild (path : bytes) (cs : list node) (index ancestor : Z) : res (option (nodeIteratorState * bytes * Z)) :=
  r ← find_slot 18 cs index;
  match r with
  | None => mret None
  | Some (child, index) => st ← child_state child ancestor path; mret (Some (st, path ++ [u8 index], index))
  end.

Definition set_index (i : Z) (st : nodeIteratorState) : nodeIteratorState := mkIterState (is_hash st) (is_node st) (is_parent st) i (is_pathlen st).

(** The state of the child, its path, and the parent with its index moved. *)
Definition nextChild (path : bytes) (parent : nodeIteratorState) (ancestor : Z) : res (option (nodeIteratorState * bytes * nodeIteratorState)) :=
  match is_node parent with
  | fullNode cs _ =>
      r ← findChild path cs (nextChildIndex (is_index parent)) ancestor;
      mret match r with Some (st, p, index) => Some (st, p, set_index (prevChildIndex index) parent) | None => None end
  | shortNode key val _ =>
      if is_index parent <? 0 then st ← child_state val ancestor path; mret (Some (st, path ++ key, parent)) else mret None
  | _ => mret None
  end.

(** Towards a key: the last child before it. *)
Fixpoint advance (fuel : nat) (path : bytes) (cs : list node) (ancestor : Z) (key : bytes) (best : nodeIteratorState * bytes * Z) : res (nodeIteratorState * bytes * Z) :=
  match fuel with
  | O => Spin
  | S fuel =>
      r ← findChild path cs (nextChildIndex best.2) ancestor;
      match r with
      | None => mret best
      | Some next => past ← of_outcome (reachedPath next.1.2 key); if past : bool then mret best else advance fuel path cs ancestor key next
      end
  end.

Definition nextChildAt (path : bytes) (parent : nodeIteratorState) (ancestor : Z) (key : bytes) : res (option (nodeIteratorState * bytes * nodeIteratorState)) :=
  match is_node parent with
  | fullNode cs _ =>
      r ← findChild path cs (nextChildIndex (is_index parent)) ancestor;
      match r with
      | None => mret None
      | Some first =>
          past ← of_outcome (reachedPath first.1.2 key);
          best ← (if past : bool then mret first else advance 18 path cs ancestor key first);
          mret (Some (best.1, set_index (prevChildIndex best.2) parent))
      end
  | shortNode key' val _ =>
      if is_index parent <? 0 then st ← child_state val ancestor path; mret (Some (st, path ++ key', parent)) else mret None
  | _ => mret None
  end.

(** ** Moving *)

Definition it_init (it : nodeIterator) : res (option trieErr * nodeIteratorState * nodeIterator) :=
  '(root, t) ← of_outcome (Hash keccak (it_trie it));
  let it := it_with_trie t it in
  '(err, st) ← state_resolve it (mkIterState (if root =? EmptyRootHash then 0 else root) (Trie.root t) 0 (-1) 0) [];
  mret (err, st, it).

(** A step: the new state, its path and whether a parent's index moves with it. *)
Record Peeked := mkPeeked { pk_state : nodeIteratorState; pk_path : bytes; pk_child : bool }.

(** Up from the top of the stack until a node has another child. *)
Fixpoint climb (it : nodeIterator) (next : bytes -> nodeIteratorState -> Z -> res (option (nodeIteratorState * bytes * nodeIteratorState)))
    (stack : list nodeIteratorState) (path : bytes) : res ((iterErr + Peeked) * nodeIterator) :=
  match stack with
  | [] => mret (inl errIteratorEnd, it_at [] path it)
  | parent :: rest =>
      let ancestor := if is_hash parent =? 0 then is_parent parent else is_hash parent in
      r ← next path parent ancestor;
      match r with
      | Some (st, p, parent) =>
          '(err, st) ← state_resolve it st p;
          mret (match err with Some e => inl (iterError e) | None => inr (mkPeeked st p true) end, it_at (parent :: rest) path it)
      | None => path ← of_outcome (slice path 0 (is_pathlen parent)); climb it next rest path
      end
  end.

(** [pop]: the stack of the source is not empty there. *)
Definition it_pop (it : nodeIterator) : res nodeIterator :=
  match it_stack it with
  | [] => Crash "index out of range"
  | last :: rest => path ← of_outcome (slice (it_path it) 0 (is_pathlen last)); mret (it_at rest path it)
  end.

Definition start (it : nodeIterator) : res ((iterErr + Peeked) * nodeIterator) :=
  '(err, st, it) ← it_init it;
  mret (match err with Some e => inl (iterError e) | None => inr (mkPeeked st [] false) end, it).

Definition peek (it : nodeIterator) (descend : bool) : res ((iterErr + Peeked) * nodeIterator) :=
  match it_stack it with
  | [] => start it
  | _ =>
      it ← (if descend then mret it else it_pop it);
      climb it nextChild (it_stack it) (it_path it)
  end.

Definition peekSeek (it : nodeIterator) (seekKey : bytes) : res ((iterErr + Peeked) * nodeIterator) :=
  match it_stack it with
  | [] => start it
  | _ =>
      it ← (if decide (it_path it `prefix_of` seekKey) then mret it else it_pop it);
      climb it (fun path parent ancestor => nextChildAt path parent ancestor seekKey) (it_stack it) (it_path it)
  end.

Definition push (p : Peeked) (it : nodeIterator) : nodeIterator :=
  it_at (pk_state p ::
    (if pk_child p then match it_stack it with parent :: rest => set_index (nextChildIndex (is_index parent)) parent :: rest | [] => [] end else it_stack it))
    (pk_path p) it.

Fixpoint seek_loop (fuel : nat) (key prefix : bytes) (it : nodeIterator) : res (option iterErr * nodeIterator) :=
  match fuel with
  | O => Spin
  | S fuel =>
      '(r, it) ← peekSeek it key;
      match r with
      | inl errIteratorEnd => mret (Some errIteratorEnd, it)
      | inl (seekError _ e) | inl (iterError e) => mret (Some (seekError prefix e), it)
      | inr p => past ← of_outcome (reachedPath (pk_path p) key); if past : bool then mret (None, it) else seek_loop fuel key prefix (push p it)
      end
  end.

Definition seek (fuel : nat) (prefix : bytes) (it : nodeIterator) : res (option iterErr * nodeIterator) :=
  let key := keybytesToHex prefix in
  key ← of_outcome (slice key 0 (zlen key - 1));
  seek_loop fuel key prefix it.

Definition newNodeIterator (fuel : nat) (t : Trie) (start : bytes) : res nodeIterator :=
  '(root, t) ← of_outcome (Hash keccak t);
  if root =? EmptyRootHash then mret (mkIterator t [] [] (Some errIteratorEnd) None) else
  '(err, it) ← seek fuel start (mkIterator t [] [] None None);
  mret (it_with_err err it).

(** [Trie.NodeIterator]. *)
Definition NodeIterator (fuel : nat) (t : Trie) (start : bytes) : res (trieErr + nodeIterator) :=
  if committed t then mret (inl ErrCommitted) else it ← newNodeIterator fuel t start; mret (inr it).

Definition Next (fuel : nat) (it : nodeIterator) (descend : bool) : res (bool * nodeIterator) :=
  match it_err it with
  | Some errIteratorEnd => mret (false, it)
  | _ =>
      '(go, it) ← match it_err it with
        | Some (seekError key _) =>
            '(err, it) ← seek fuel key it;
            mret (match err with None => true | Some _ => false end, it_with_err err it)
        | _ => mret (true, it)
        end;
      if go : bool then
        '(r, it) ← peek it descend;
        match r with
        | inl e => mret (false, it_with_err (Some e) it)
        | inr p => mret (true, push p (it_with_err None it))
        end
      else mret (false, it)
  end.

(** ** Keys and values *)

Record Iterator := mkKV { nodeIt : nodeIterator; kv_Key : option bytes; kv_Value : option bytes; kv_Err : option trieErr }.

Definition NewIterator (it : nodeIterator) : Iterator := mkKV it None None None.

Fixpoint kv_Next (fuel : nat) (it : Iterator) : res (bool * Iterator) :=
  match fuel with
  | O => Spin
  | S fuel' =>
      '(more, n) ← Next fuel (nodeIt it) true;
      if more : bool then
        leaf ← of_outcome (Leaf n);
        if leaf : bool then k ← of_outcome (LeafKey n); v ← of_outcome (LeafBlob n); mret (true, mkKV n (Some k) (Some v) (kv_Err it))
        else kv_Next fuel' (mkKV n (kv_Key it) (kv_Value it) (kv_Err it))
      else mret (false, mkKV n None None (it_Error n))
  end.
End Iterator.
