(* ===== verification/TrieIteratorProofs.v ===== *)
(** * The node iterator lists a trie

    The nodes a walk of the iterator lists, and the keys and values that the loop over them gives. *)
From Stdlib Require Import ZArith Lia.
From stdpp Require Import base gmap strings list.
From S2P Require Import Prelude Utils Core TrieEncoding Trie TrieHash TrieProofs TrieMap TrieRoot TrieIterator.

(** ** The walk of the node iterator

    From a state whose node stands at a path, the iterator lists the nodes below it, each once, and then goes on from the rest
    of its stack; the values it lists are those the node holds. *)

(** ** The order of the slots *)

(** The slot visited at step [j], and the index before it. *)
Definition slot_at (j : nat) : Z := match j with O => 16 | S j => if (j <? 16)%nat then Z.of_nat j else 17 end.
Definition index_before (j : nat) : Z := match j with O => -1 | S j => slot_at j end.

Lemma slot_cases j : (j <= 17)%nat -> j = 0%nat \/ (exists i, (i < 16)%nat /\ j = S i /\ slot_at j = Z.of_nat i) \/ j = 17%nat.
Proof. intros Hj. destruct j as [| j]; [by left |]. destruct (decide (j = 16%nat)) as [-> | H]; [by right; right |]. right. left. exists j. unfold slot_at. destruct (Nat.ltb_spec j 16); [done | lia]. Qed.

Lemma next_slot j : (j <= 17)%nat -> nextChildIndex (index_before j) = slot_at j.
Proof.
  intros [-> | [(i & Hi & -> & Hs) | ->]]%slot_cases; [done | | done]. rewrite Hs. destruct i as [| i]; [done |]. unfold index_before, slot_at. destruct (Nat.ltb_spec i 16); [| lia].
  unfold nextChildIndex. destruct (Z.eqb_spec (Z.of_nat i) (-1)); [lia |]. destruct (Z.eqb_spec (Z.of_nat i) 15); [lia |]. destruct (Z.eqb_spec (Z.of_nat i) 16); lia.
Qed.

Lemma prev_slot j : (j <= 16)%nat -> prevChildIndex (slot_at j) = index_before j.
Proof.
  intros Hj. destruct (slot_cases j ltac:(lia)) as [-> | [(i & Hi & -> & Hs) | ->]]; [done | | lia]. rewrite Hs. destruct i as [| i]; [done |]. unfold index_before, slot_at. destruct (Nat.ltb_spec i 16); [| lia].
  unfold prevChildIndex. destruct (Z.eqb_spec (Z.of_nat (S i)) 0); [lia |]. destruct (Z.eqb_spec (Z.of_nat (S i)) 16); [lia |]. destruct (Z.eqb_spec (Z.of_nat (S i)) 17); lia.
Qed.

Lemma slot_range j : (j <= 16)%nat -> 0 <= slot_at j < 17.
Proof. intros Hj. destruct (slot_cases j ltac:(lia)) as [-> | [(i & Hi & -> & ->) | ->]]; [cbn; lia | lia | lia]. Qed.

Lemma slot_inj j j' : (j <= 16)%nat -> (j' <= 16)%nat -> slot_at j = slot_at j' -> j = j'.
Proof. intros Hj Hj'. destruct (slot_cases j ltac:(lia)) as [-> | [(i & Hi & -> & ->) | ->]], (slot_cases j' ltac:(lia)) as [-> | [(i' & Hi' & -> & ->) | ->]]; cbn; lia. Qed.

Lemma slot_onto i : (i < 17)%nat -> exists j, (j <= 16)%nat /\ slot_at j = Z.of_nat i.
Proof. intros Hi. destruct (decide (i = 16%nat)) as [-> | H]; [by exists 0%nat; split; [lia |] |]. exists (S i). split; [lia |]. unfold slot_at. destruct (Nat.ltb_spec i 16); [done | lia]. Qed.

(** ** Walks *)

Definition item : Type := bytes * Z * node.

Section Walk.
Context `{rlp : RLP} (keccak : bytes -> bytes) (b : nodeIterator) (Hno : resolver b = None).
#[local] Abbreviation rd := (t_reader (it_trie b)).
#[local] Abbreviation WF := (WF keccak rd).
#[local] Abbreviation Has := (Has rd).
#[local] Abbreviation up := (climb b nextChild).

(** The items from a position until the iterator is where it would be at another one. *)
Inductive walks (S' : list nodeIteratorState) (P' : bytes) : list nodeIteratorState -> bytes -> list item -> Prop :=
| walks_done S P : up S P = up S' P' -> walks S' P' S P []
| walks_step S P st p par rest P1 l : up S P = Val (inr (mkPeeked st p true), it_at (par :: rest) P1 b) ->
    walks S' P' (st :: set_index (nextChildIndex (is_index par)) par :: rest) p l -> walks S' P' S P ((p, is_hash st, is_node st) :: l).

Lemma walks_same S' P' S P S1 P1 l : up S P = up S1 P1 -> walks S' P' S1 P1 l -> walks S' P' S P l.
Proof using Type. clear. intros He Hw. destruct Hw as [S1 P1 H1 | S1 P1 st p par rest P2 l H1 Hw]; [apply walks_done; congruence | eapply walks_step; [by rewrite He | done]]. Qed.

Lemma walks_app S2 P2 S1 P1 S P l1 l2 : walks S1 P1 S P l1 -> walks S2 P2 S1 P1 l2 -> walks S2 P2 S P (l1 ++ l2).
Proof using Type. clear. intros H1 H2. induction H1 as [S P He | S P st p par rest P3 l He _ IH]; [by eapply walks_same | by eapply walks_step]. Qed.

(** What a list of the nodes at and below a node is. *)
Record listing (p : bytes) (n : node) (l : list item) : Prop := {
  ls_values : forall q v, (exists h, (q, h, valueNode v) ∈ l) <-> exists k, q = p ++ k /\ Has p n k v;
  ls_kinds : forall q h x, (q, h, x) ∈ l -> match x with valueNode _ => full_key q | shortNode _ _ _ | fullNode _ _ => nibbles q | _ => False end;
  ls_below : forall q h x, (q, h, x) ∈ l -> p `prefix_of` q;
  ls_once : NoDup l.*1.*1
}.

(** The state of a node at the path [p], once resolved, is followed by the nodes below it. *)
Definition walked (p : bytes) (n : node) : Prop :=
  forall st0, is_node st0 = n -> is_index st0 = -1 -> 0 <= is_pathlen st0 <= zlen p ->
  exists st l, state_resolve b st0 p = Val (None, st) /\ listing p n ((p, is_hash st, is_node st) :: l) /\
    forall rest, walks rest (take (Z.to_nat (is_pathlen st0)) p) (st :: rest) p l.

Lemma slice_to (p : bytes) L : 0 <= L <= zlen p -> slice p 0 L = Ret (take (Z.to_nat L) p).
Proof using Type.
  clear. intros HL. unfold slice. rewrite (proj2 (Z.leb_le 0 0)), (proj2 (Z.leb_le 0 L)), (proj2 (Z.leb_le L (zlen p))) by lia. cbn. by rewrite Z.sub_0_r.
Qed.

(** A state with no further child is popped. *)
Lemma up_pop st rest p : (forall a, nextChild p st a = Val None) -> 0 <= is_pathlen st <= zlen p -> up (st :: rest) p = up rest (take (Z.to_nat (is_pathlen st)) p).
Proof using Type. clear. intros Hn HL. cbn [climb]. rewrite Hn. cbn [mbind res_bind]. by rewrite slice_to. Qed.

Lemma walked_value q v : nibbles q -> v <> [] -> walked (q ++ [16]) (valueNode v).
Proof using Type.
  clear. intros Hq Hv st0 Hn Hi HL. exists st0, []. split_and!.
  - unfold state_resolve. by rewrite Hn.
  - rewrite Hn. split.
    + intros r w. split.
      * intros (h & [= -> -> ->]%list_elem_of_singleton). exists []. rewrite app_nil_r. split; [done | constructor].
      * intros (k & -> & [-> ->]%Has_value_inv). exists (is_hash st0). rewrite app_nil_r. left.
    + intros r h x [= -> -> ->]%list_elem_of_singleton. by exists q.
    + intros r h x [= -> -> ->]%list_elem_of_singleton. done.
    + cbn. apply NoDup_singleton.
  - intros rest. apply walks_done. apply up_pop; [intros a; unfold nextChild; by rewrite Hn | done].
Qed.

Lemma cache_ok n : n <> Nil -> exists h d, node_cache n = Ret (h, d).
Proof using Type. clear. destruct n; [done | | | |]; intros _; by eexists _, _. Qed.

(** Down to a child and back. *)
Lemma walk_child c p k : walked (p ++ k) c -> c <> Nil -> forall a, exists st0 st l, child_state c a p = Val st0 /\ state_resolve b st0 (p ++ k) = Val (None, st) /\
  listing (p ++ k) c ((p ++ k, is_hash st, is_node st) :: l) /\ forall rest, walks rest p (st :: rest) (p ++ k) l.
Proof using Type.
  clear. intros Hw Hc a. destruct (cache_ok c Hc) as (h & d & Hch). unfold child_state. rewrite Hch. cbn [of_outcome mbind res_bind].
  destruct (Hw (mkIterState (BytesToHash (default [] h)) c a (-1) (zlen p))) as (st & l & Hr & Hl & Hwalk); [done | done | cbn; unfold zlen; rewrite length_app; lia |].
  eexists _, st, l. split_and!; [done.. |]. intros rest. specialize (Hwalk rest). cbn [is_pathlen] in Hwalk. unfold zlen in Hwalk. by rewrite Nat2Z.id, take_app_length in Hwalk.
Qed.

Lemma walked_short p k c f : nibbles p -> k <> [] -> c <> Nil -> walked (p ++ k) c -> walked p (shortNode k c f).
Proof using Type.
  clear. intros Hp Hk Hc Hw st0 Hn Hi HL. set (a := if is_hash st0 =? 0 then is_parent st0 else is_hash st0). destruct (walk_child c p k Hw Hc a) as (c0 & cs & l & Hst & Hres & Hl & Hwalk).
  exists st0, ((p ++ k, is_hash cs, is_node cs) :: l). split_and!.
  - unfold state_resolve. by rewrite Hn.
  - rewrite Hn. destruct Hl as [Lv Lk Lb Lo]. split.
    + intros q v. split.
      * intros (h & [He | Hin]%elem_of_cons); [done |]. destruct (proj1 (Lv q v) (ex_intro _ h Hin)) as (r & -> & Hr). exists (k ++ r). rewrite app_assoc. split; [done | by constructor].
      * intros (x & -> & (r & -> & Hr)%Has_short_inv). destruct (proj2 (Lv ((p ++ k) ++ r) v)) as [h Hh]; [by exists r |]. exists h. rewrite app_assoc. by right.
    + intros q h x [[= -> -> ->] | Hin]%elem_of_cons; [done | by apply (Lk q h x)].
    + intros q h x [[= -> -> ->] | Hin]%elem_of_cons; [done |]. etransitivity; [| by apply (Lb q h x)]. by eexists.
    + cbn [fmap list_fmap fst]. apply NoDup_cons. split; [| done]. intros Hin. change (p ∈ ((p ++ k, is_hash cs, is_node cs) :: l).*1.*1) in Hin.
      apply list_elem_of_fmap in Hin as ([q h] & -> & Hin). apply list_elem_of_fmap in Hin as ([[q' h'] x] & [= -> ->] & Hin). destruct (Lb _ _ _ Hin) as [r Hr]. cbn [fst] in Hr.
      apply (f_equal length) in Hr. rewrite !length_app in Hr. destruct k; [done | cbn in Hr; lia].
  - intros rest. eapply (walks_step _ _ _ _ _ _ st0 rest p).
    + cbn [climb]. unfold nextChild. rewrite Hn, Hi. cbn [Z.ltb Z.compare]. fold a. rewrite Hst. cbn [mbind res_bind mret res_ret]. rewrite Hres. done.
    + rewrite Hi. rewrite <- (app_nil_r l). eapply walks_app; [apply Hwalk |]. apply walks_done. apply (up_pop (set_index (nextChildIndex (-1)) st0)); [intros x; unfold nextChild; cbn; by rewrite Hn | done].
Qed.

(** ** Full nodes *)

Lemma slot_child (cs : list node) j : length cs = 17%nat -> (j <= 16)%nat -> exists c, cs !! Z.to_nat (slot_at j) = Some c /\ idx cs (slot_at j) = Ret c /\ (slot_at j <? zlen cs) = true.
Proof using Type.
  clear. intros Hl Hj. pose proof (slot_range j Hj) as Hr. destruct (lookup_lt_is_Some_2 cs (Z.to_nat (slot_at j))) as [c Hc]; [lia |]. exists c. split_and!; [done | |].
  - unfold idx. rewrite (proj2 (Z.ltb_ge _ _)) by lia. by rewrite Hc.
  - apply Z.ltb_lt. unfold zlen. lia.
Qed.

Lemma find_slot_more cs : length cs = 17%nat -> forall d j f f', (j + d = 17)%nat -> (d < f)%nat -> (d < f')%nat -> find_slot f cs (slot_at j) = find_slot f' cs (slot_at j).
Proof using Type.
  clear. intros Hl. induction d as [| d IH]; intros j [| f] [| f'] Hj Hf Hf'; try lia; cbn [find_slot].
  - replace j with 17%nat by lia. unfold zlen. by rewrite Hl.
  - destruct (slot_child cs j Hl ltac:(lia)) as (c & _ & -> & ->). cbn [of_outcome mbind res_bind]. destruct c; try done. pose proof (next_slot (S j) ltac:(lia)) as Hn. cbn [index_before] in Hn. rewrite Hn.
    apply (IH (S j)); lia.
Qed.

Lemma find_nil cs j : length cs = 17%nat -> (j <= 16)%nat -> cs !! Z.to_nat (slot_at j) = Some Nil -> find_slot 18 cs (slot_at j) = find_slot 18 cs (slot_at (S j)).
Proof using Type.
  clear. intros Hl Hj Hc. destruct (slot_child cs j Hl Hj) as (c & Hc' & Hi & Hlt). assert (c = Nil) as -> by congruence. change (find_slot 18 cs (slot_at j)) with
    (if slot_at j <? zlen cs then c ← of_outcome (idx cs (slot_at j)); match c with Nil => find_slot 17 cs (nextChildIndex (slot_at j)) | _ => mret (Some (c, slot_at j)) end else mret None).
  rewrite Hlt, Hi. cbn [of_outcome mbind res_bind]. pose proof (next_slot (S j) ltac:(lia)) as Hn. cbn [index_before] in Hn. rewrite Hn. apply (find_slot_more cs Hl (17 - S j)); lia.
Qed.

Lemma find_here cs j c : length cs = 17%nat -> (j <= 16)%nat -> cs !! Z.to_nat (slot_at j) = Some c -> c <> Nil -> find_slot 18 cs (slot_at j) = Val (Some (c, slot_at j)).
Proof using Type.
  clear. intros Hl Hj Hc Hn. destruct (slot_child cs j Hl Hj) as (c' & Hc' & Hi & Hlt). assert (c' = c) as -> by congruence. cbn [find_slot]. rewrite Hlt, Hi. cbn [of_outcome mbind res_bind]. by destruct c.
Qed.

(** The nodes below the slots from step [j] on. *)
Record part_listing (p : bytes) (cs : list node) (j : nat) (l : list item) : Prop := {
  pl_values : forall q v, (exists h, (q, h, valueNode v) ∈ l) <-> exists i c k, (j <= i <= 16)%nat /\ cs !! Z.to_nat (slot_at i) = Some c /\ q = p ++ slot_at i :: k /\ Has (p ++ [slot_at i]) c k v;
  pl_kinds : forall q h x, (q, h, x) ∈ l -> match x with valueNode _ => full_key q | shortNode _ _ _ | fullNode _ _ => nibbles q | _ => False end;
  pl_below : forall q h x, (q, h, x) ∈ l -> exists i k, (j <= i <= 16)%nat /\ q = p ++ slot_at i :: k;
  pl_once : NoDup l.*1.*1
}.

Lemma part_skip p cs j l : cs !! Z.to_nat (slot_at j) = Some Nil -> part_listing p cs (S j) l -> part_listing p cs j l.
Proof using Type.
  clear. intros Hn [Lv Lk Lb Lo]. split; [| done | | done].
  - intros q v. rewrite Lv. split; intros (i & c & k & Hi & Hc & Hq & Hh); exists i, c, k; (split_and!; [| lia | done..]); [lia |].
    destruct (decide (i = j)) as [-> | Hne]; [| lia]. assert (c = Nil) as -> by congruence. by destruct (Has_nil rd (p ++ [slot_at j]) k v).
  - intros q h x Hx. destruct (Lb q h x Hx) as (i & k & Hi & Hq). exists i, k. split; [lia | done].
Qed.

Lemma paths_in (l : list item) q : q ∈ l.*1.*1 <-> exists h x, (q, h, x) ∈ l.
Proof using Type.
  clear. split.
  - intros ([q' h] & -> & Hin)%list_elem_of_fmap. apply list_elem_of_fmap in Hin as ([[q'' h''] x] & [= -> ->] & Hin). by exists h'', x.
  - intros (h & x & Hin). apply list_elem_of_fmap. exists (q, h). split; [done |]. apply list_elem_of_fmap. by exists (q, h, x).
Qed.

Lemma part_add p cs j c l l' : (j <= 16)%nat -> cs !! Z.to_nat (slot_at j) = Some c -> listing (p ++ [slot_at j]) c l -> part_listing p cs (S j) l' -> part_listing p cs j (l ++ l').
Proof using Type.
  clear. intros Hj Hc [Lv Lk Lb Lo] [Pv Pk Pb Po]. split.
  - intros q v. split.
    + intros (h & [Hin | Hin]%elem_of_app).
      * destruct (proj1 (Lv q v) (ex_intro _ h Hin)) as (k & -> & Hk). exists j, c, k. rewrite <- app_assoc. split_and!; [lia | lia | done..].
      * destruct (proj1 (Pv q v) (ex_intro _ h Hin)) as (i & d & k & Hi & Hd & -> & Hk). exists i, d, k. split_and!; [lia | lia | done..].
    + intros (i & d & k & Hi & Hd & -> & Hk). destruct (decide (i = j)) as [-> | Hne].
      * assert (d = c) as -> by congruence. destruct (proj2 (Lv ((p ++ [slot_at j]) ++ k) v)) as [h Hh]; [by exists k |]. exists h. rewrite <- app_assoc in Hh. apply elem_of_app. by left.
      * destruct (proj2 (Pv (p ++ slot_at i :: k) v)) as [h Hh]; [exists i, d, k; split_and!; [lia | lia | done..] |]. exists h. apply elem_of_app. by right.
  - intros q h x [Hin | Hin]%elem_of_app; [by apply (Lk q h x) | by apply (Pk q h x)].
  - intros q h x [Hin | Hin]%elem_of_app.
    + destruct (Lb q h x Hin) as [k ->]. exists j, k. rewrite <- app_assoc. split; [lia | done].
    + destruct (Pb q h x Hin) as (i & k & Hi & ->). exists i, k. split; [lia | done].
  - rewrite !fmap_app. apply NoDup_app. split_and!; [done | | done]. intros q (h & x & Hin)%paths_in (h' & x' & Hin')%paths_in. destruct (Lb _ _ _ Hin) as [k ->]. destruct (Pb _ _ _ Hin') as (i & k' & Hi & He).
    rewrite <- app_assoc in He. apply app_inv_head in He. injection He as He _. apply slot_inj in He; lia.
Qed.

Lemma part_end p cs : part_listing p cs 17 [].
Proof using Type.
  clear. split; [intros q v | | | by apply NoDup_nil]; [split; [by intros (h & ?%not_elem_of_nil) | intros (i & _ & _ & Hi & _); lia] | |]; intros q h x Hx; by apply not_elem_of_nil in Hx.
Qed.

(** The loop over the children. *)
Lemma walk_slots p cs f st : length cs = 17%nat -> is_node st = fullNode cs f -> 0 <= is_pathlen st <= zlen p ->
  (forall i c, cs !! i = Some c -> c <> Nil -> walked (p ++ [Z.of_nat i]) c) ->
  forall d j, (j + d = 17)%nat -> exists l, part_listing p cs j l /\ forall rest, walks rest (take (Z.to_nat (is_pathlen st)) p) (set_index (index_before j) st :: rest) p l.
Proof using Type.
  clear. intros Hl Hn HL Hw. set (a := if is_hash st =? 0 then is_parent st else is_hash st). induction d as [| d IH]; intros j Hj.
  - replace j with 17%nat by lia. exists []. split; [apply part_end |]. intros rest. apply walks_done. apply (up_pop (set_index 15 st)); [| done].
    intros x. unfold nextChild, findChild. cbn [is_node set_index is_index]. rewrite Hn. cbn [find_slot nextChildIndex]. unfold zlen. by rewrite Hl.
  - destruct (IH (S j) ltac:(lia)) as (l & Hpl & Hwalk). destruct (slot_child cs j Hl ltac:(lia)) as (c & Hc & _). destruct (decide (c = Nil)) as [-> | Hne].
    + exists l. split; [by apply part_skip |]. intros rest. eapply walks_same; [| apply Hwalk]. cbn [climb]. unfold nextChild, findChild. cbn [is_node set_index is_index is_hash is_parent is_pathlen].
      rewrite Hn, !next_slot by lia. by rewrite (find_nil cs j Hl ltac:(lia) Hc).
    + pose proof (slot_range j ltac:(lia)) as Hr. assert (walked (p ++ [slot_at j]) c) as Hwc. { replace (slot_at j) with (Z.of_nat (Z.to_nat (slot_at j))) by lia. by apply Hw. }
      destruct (walk_child c p [slot_at j] Hwc Hne a) as (c0 & cst & lc & Hst & Hres & Hlc & Hwc'). exists (((p ++ [slot_at j], is_hash cst, is_node cst) :: lc) ++ l). split; [by eapply part_add; [lia | ..] |].
      intros rest. change (((p ++ [slot_at j], is_hash cst, is_node cst) :: lc) ++ l) with ((p ++ [slot_at j], is_hash cst, is_node cst) :: lc ++ l).
      eapply (walks_step _ _ _ _ _ _ (set_index (index_before j) st) rest p).
      * cbn [climb]. unfold nextChild, findChild. cbn [is_node set_index is_index is_hash is_parent is_pathlen]. fold a. rewrite Hn, next_slot, (find_here cs j c) by (done || lia). cbn [mbind res_bind mret res_ret].
        rewrite Hst. cbn [mbind res_bind mret res_ret]. assert (u8 (slot_at j) = slot_at j) as -> by (unfold u8; rewrite Z.mod_small; lia). rewrite Hres. cbn [mbind res_bind mret res_ret].
        by rewrite prev_slot by lia.
      * cbn [is_index set_index]. rewrite next_slot by lia. eapply walks_app; [apply Hwc' |]. exact (Hwalk rest).
Qed.

Lemma walked_full p cs f : nibbles p -> length cs = 17%nat -> (forall i c, cs !! i = Some c -> c <> Nil -> walked (p ++ [Z.of_nat i]) c) -> walked p (fullNode cs f).
Proof using Type.
  clear. intros Hp Hl Hw st0 Hn Hi HL. destruct (walk_slots p cs f st0 Hl Hn HL Hw 17 0 eq_refl) as (l & [Pv Pk Pb Po] & Hwalk). exists st0, l. split_and!.
  - unfold state_resolve. by rewrite Hn.
  - rewrite Hn. split.
    + intros q v. split.
      * intros (h & [He | Hin]%elem_of_cons); [done |]. destruct (proj1 (Pv q v) (ex_intro _ h Hin)) as (i & c & k & Hir & Hc & -> & Hk). exists (slot_at i :: k). split; [done |].
        pose proof (slot_range i ltac:(lia)). by apply (Has_child _ _ _ _ _ c); [lia | |].
      * intros (k & -> & (i & c & r & -> & Hc & Hh)%Has_full_inv). pose proof (lookup_lt_Some _ _ _ Hc) as Hlt. destruct (slot_onto i ltac:(lia)) as (j & Hj & He).
        destruct (proj2 (Pv (p ++ Z.of_nat i :: r) v)) as [h Hh']; [exists j, c, r; rewrite He, Nat2Z.id; split_and!; [lia | lia | done..] |]. exists h. by right.
    + intros q h x [[= -> -> ->] | Hin]%elem_of_cons; [done | by apply (Pk q h x)].
    + intros q h x [[= -> -> ->] | Hin]%elem_of_cons; [done |]. destruct (Pb q h x Hin) as (i & k & _ & ->). by eexists.
    + cbn [fmap list_fmap fst]. apply NoDup_cons. split; [| done]. intros (h & x & Hin)%paths_in. destruct (Pb _ _ _ Hin) as (i & k & _ & He).
      apply (f_equal length) in He. rewrite length_app in He. cbn in He. lia.
  - intros rest. specialize (Hwalk rest). assert (set_index (index_before 0) st0 = st0) as He by (destruct st0; cbn in *; by subst). by rewrite He in Hwalk.
Qed.

Lemma walked_hash p h n : resolves rd h p n -> loaded n -> walked p n -> walked p (hashNode h).
Proof using Hno.
  clear keccak. intros (blob & Hb & Hd) Hld Hw st0 Hn Hi HL. destruct (Hw (mkIterState (BytesToHash h) n (is_parent st0) (is_index st0) (is_pathlen st0)) eq_refl Hi HL) as (st & l & Hr & Hls & Hwalk).
  assert (state_resolve b (mkIterState (BytesToHash h) n (is_parent st0) (is_index st0) (is_pathlen st0)) p = Val (None, mkIterState (BytesToHash h) n (is_parent st0) (is_index st0) (is_pathlen st0))) as Hr' by (unfold state_resolve; by destruct n).
  rewrite Hr' in Hr. injection Hr as <-. eexists _, l. split_and!; [| | exact Hwalk].
  - unfold state_resolve, resolveHash, resolved_by. rewrite Hn, Hno. cbn [mbind res_bind mret res_ret]. rewrite Hb, Hd. done.
  - destruct Hls as [Lv Lk Lb Lo]. split; [| done..]. intros q v. rewrite Lv. assert (resolves rd h p n) as Hres by by exists blob.
    split; intros (k & -> & Hk); exists k; (split; [done |]); by apply (Has_hash_inv _ _ _ _ _ _ Hres).
Qed.

Lemma walk_ok p n : WF p n -> walked p n.
Proof using Hno.
  induction 1 as [q v Hq Hv | p k c f Hp Hk Hw IH Ht Hfo | p cs f Hp Hl Hw IH H2 Hfo | p h n Hp Hr Hl Hw IH Hlk].
  - by apply walked_value.
  - apply walked_short; [done | done | intros -> | done]. by apply WF_not_nil in Hw.
  - by apply walked_full.
  - by eapply walked_hash.
Qed.
End Walk.

(** ** Iterating over a trie

    The iterator over keys and values of a trie lists the map it represents. *)

(** The iterator on the trie [t] before its first step. *)
Definition base_of (t : Trie) : nodeIterator := mkIterator t [] [] None None.

Section Run.
Context `{rlp : RLP} `{rlpe : !RLPEmpty rlp} (keccak : bytes -> bytes).

(** ** A step *)

Lemma climb_at b S0 P0 next S : forall P, climb (it_at S0 P0 b) next S P = climb b next S P.
Proof using Type.
  clear. induction S as [| par rest IH]; intros P; [done |]. cbn [climb]. destruct (next P par _) as [[[[st p] par'] |] | |]; cbn [mbind res_bind]; [done | | done | done].
  destruct (slice P 0 (is_pathlen par)) as [P1 |]; cbn [of_outcome mbind res_bind]; [apply IH | done].
Qed.

(** The position [S] and [P], with the items [l] to come. *)
Definition ahead (t : Trie) (S : list nodeIteratorState) (P : bytes) (l : list item) : Prop := S <> [] /\ exists P', walks (base_of t) [] P' S P l.

(** The next steps of an iterator list [l]. *)
Definition coming (t : Trie) (it : nodeIterator) (l : list item) : Prop :=
  match l with
  | [] => exists it', (forall fuel, Next keccak fuel it true = Val (false, it')) /\ it_err it' = Some errIteratorEnd
  | (p, h, x) :: l => exists st rest, (forall fuel, Next keccak fuel it true = Val (true, it_at (st :: rest) p (base_of t))) /\ is_hash st = h /\ is_node st = x /\ ahead t (st :: rest) p l
  end.

Lemma ahead_coming t S P l : ahead t S P l -> coming t (it_at S P (base_of t)) l.
Proof using Type.
  clear rlpe. intros [Hne (P' & Hw)]. destruct S as [| st0 S]; [done |].
  assert (forall fuel, Next keccak fuel (it_at (st0 :: S) P (base_of t)) true = '(r, it) ← climb (base_of t) nextChild (st0 :: S) P;
    match r with inl e => mret (false, it_with_err (Some e) it) | inr p => mret (true, push p (it_with_err None it)) end) as Hnext.
  { intros fuel. unfold Next, peek. cbn [it_err it_at base_of mbind res_bind mret res_ret it_stack it_path]. by rewrite (climb_at (base_of t)). }
  inversion Hw as [? ? He | ? ? st p par rest P1 l0 He Hw']; subst; cbn [coming].
  - eexists. split; [intros fuel; rewrite Hnext, He; done | done].
  - eexists st, _. split; [intros fuel; rewrite Hnext, He; done |]. split; [done | split; [done | split; [done | by exists P']]].
Qed.

(** ** The first step *)

(** What the iterator of [NodeIterator] lists: nothing when the trie hashes to the empty root, or all of it. *)
Definition lists_trie (t : Trie) (m : gmap bytes bytes) (t' : Trie) (l : list item) : Prop :=
  (l = [] /\ trie_root keccak t = EmptyRootHash) \/ (listing (base_of t') [] (root t') l /\ content (t_reader t') (root t') m).

Lemma start_ok t m : represents keccak t m -> root t <> Nil ->
  exists t' st l, start keccak (base_of t) = Val (inr (mkPeeked st [] false), base_of t') /\ represents keccak t' m /\ root t' <> Nil /\
    listing (base_of t') [] (root t') (([], is_hash st, is_node st) :: l) /\ ahead t' [st] [] l.
Proof using rlpe.
  intros Hrep Hn. destruct (Hash_spec keccak t m Hrep) as (t' & Hh & Hrep' & Hroot & _). assert (root t' <> Nil) as Hn'.
  { intros He. destruct (rp_wf _ _ _ Hrep) as [He' | Hw]; [done |]. destruct (WF_nonempty _ _ _ _ Hw) as (k & v & Hk). apply (rp_content _ _ _ Hrep), (rp_content _ _ _ Hrep') in Hk. rewrite He in Hk. by apply Has_nil in Hk. }
  destruct (rp_wf _ _ _ Hrep') as [? | Hw]; [done |]. set (st0 := mkIterState (if trie_root keccak t =? EmptyRootHash then 0 else trie_root keccak t) (root t') 0 (-1) 0).
  destruct (walk_ok keccak (base_of t') eq_refl [] (root t') Hw st0 eq_refl eq_refl ltac:(by cbn)) as (st & l & Hr & Hl & Hwalk).
  exists t', st, l. split_and!; [| done | done | done | split; [done | by exists []]].
  unfold start, it_init. cbn [it_trie base_of]. rewrite Hh. cbn [of_outcome mbind res_bind]. fold st0. change (it_with_trie t' (base_of t)) with (base_of t'). rewrite Hr. done.
Qed.

Lemma NodeIterator_ok t m : represents keccak t m -> exists it t' l, (forall fuel, NodeIterator keccak (S fuel) t [] = Val (inr it)) /\ coming t' it l /\ lists_trie t m t' l.
Proof using rlpe.
  intros Hrep. unfold NodeIterator. rewrite (rp_open _ _ _ Hrep). unfold newNodeIterator. destruct (Hash_spec keccak t m Hrep) as (t1 & Hh1 & Hrep1 & Hroot1 & _). rewrite Hh1. cbn [of_outcome mbind res_bind].
  destruct (Z.eqb_spec (trie_root keccak t) EmptyRootHash) as [He | Hne].
  { eexists _, t1, []. split; [done |]. split; [| by left]. eexists. split; [intros fuel; reflexivity | done]. }
  assert (root t1 <> Nil) as Hn1 by (intros Hn; unfold trie_root in Hroot1 at 1; rewrite Hn in Hroot1; congruence).
  destruct (start_ok t1 m Hrep1 Hn1) as (t2 & st2 & l2 & Hrun2 & Hrep2 & Hn2 & _). destruct (start_ok t2 m Hrep2 Hn2) as (t3 & st & l & Hrun3 & Hrep3 & _ & Hl & Ha).
  exists (base_of t2), t3, (([], is_hash st, is_node st) :: l). split; [| split].
  - intros fuel. unfold seek. change (slice (keybytesToHex []) 0 (zlen (keybytesToHex []) - 1)) with (Ret (A := bytes) []). cbn [of_outcome mbind res_bind seek_loop]. unfold peekSeek. cbn [it_stack].
    change (mkIterator t1 [] [] None None) with (base_of t1). rewrite Hrun2. done.
  - exists st, []. split; [| done]. intros f. unfold Next, peek. cbn [it_err base_of mbind res_bind mret res_ret it_stack]. change (mkIterator t2 [] [] None None) with (base_of t2). rewrite Hrun3. done.
  - right. split; [done | apply Hrep3].
Qed.

(** ** Keys and values *)

(** [for it.Next() { ... it.Key, it.Value ... }], and the error in the end. *)
Fixpoint entries (fuel : nat) (it : Iterator) : res (list (bytes * bytes) * option trieErr) :=
  match fuel with
  | O => Spin
  | S fuel' =>
      '(more, it) ← kv_Next keccak fuel it;
      if more : bool then '(l, e) ← entries fuel' it; mret ((default [] (kv_Key it), default [] (kv_Value it)) :: l, e) else mret ([], kv_Err it)
  end.

(** Every value stands at the path of a key. *)
Definition keyed (x : item) : Prop :=
  match x.2 with valueNode _ => exists key, Forall is_byte key /\ x.1.1 = keybytesToHex key | shortNode _ _ _ | fullNode _ _ => nibbles x.1.1 | _ => False end.

Definition leaf_of (x : item) : option (bytes * bytes) := match x.2 with valueNode v => Some (x.1.1, v) | _ => None end.

Lemma kv_ahead t l : forall f it, coming t (nodeIt it) l -> Forall keyed l -> (length l < f)%nat ->
  (omap leaf_of l = [] /\ exists it', kv_Next keccak f it = Val (false, it') /\ kv_Err it' = None) \/
  (exists key v l' it', Forall is_byte key /\ omap leaf_of l = (keybytesToHex key, v) :: omap leaf_of l' /\ Forall keyed l' /\ (length l' < length l)%nat /\
     kv_Next keccak f it = Val (true, it') /\ kv_Key it' = Some key /\ kv_Value it' = Some v /\ coming t (nodeIt it') l').
Proof using Type.
  clear rlpe. induction l as [| [[p h] x] l IH]; intros [| f] it Hc Hk Hf; try (cbn in Hf; lia); cbn [kv_Next].
  - left. split; [done |]. destruct Hc as (it' & Hn & He). rewrite Hn. cbn [mbind res_bind]. eexists. split; [reflexivity |]. cbn. unfold it_Error. by rewrite He.
  - destruct Hc as (st & rest & Hn & Hh & Hx & Ha). rewrite Hn. cbn [mbind res_bind]. apply Forall_cons in Hk as [Hk1 Hk]. unfold keyed in Hk1. cbn [fst snd] in Hk1. unfold Leaf. cbn [it_path it_at].
    destruct x as [| cs fl | k c fl | hs | v]; try done.
    1,2: rewrite nibbles_no_term by done; cbn [of_outcome mbind res_bind]; destruct (IH f (mkKV (it_at (st :: rest) p (base_of t)) (kv_Key it) (kv_Value it) (kv_Err it))) as [[Hl Hr] | (key & w & l' & it' & Hb & Hl & Hr)];
      [by apply ahead_coming | done | cbn in Hf; lia | left; by split | right; exists key, w, l', it'; split; [done |]; split; [done |]; destruct Hr as (? & ? & ?); split; [done |]; split; [cbn; lia | done]].
    destruct Hk1 as (key & Hb & ->). right. eexists key, v, l, _. split; [done |]. split; [done |]. split; [done |]. split; [cbn; lia |]. assert (hasTerm (keybytesToHex key) = Ret true) as -> by apply term_has_term. cbn [of_outcome mbind res_bind].
    unfold LeafKey, LeafBlob. cbn [it_stack it_at it_path]. destruct st as [sh sn sp si sl]. cbn in Hx. subst sn. rewrite hexToKeybytes_spec by done. cbn [of_outcome mbind res_bind].
    split; [reflexivity |]. split; [done |]. split; [done |]. by apply ahead_coming.
Qed.

Lemma entries_ahead t : forall n l f it, (length l < n)%nat -> coming t (nodeIt it) l -> Forall keyed l -> (length l < f)%nat ->
  exists es, entries f it = Val (es, None) /\ omap leaf_of l = (fun e => (keybytesToHex e.1, e.2)) <$> es /\ Forall (fun e => Forall is_byte e.1) es.
Proof using Type.
  clear rlpe. induction n as [| n IH]; intros l [| f] it Hn Hc Hk Hf; try lia. cbn [entries].
  destruct (kv_ahead t l (S f) it Hc Hk Hf) as [(Hl & it' & Hrun & He) | (key & v & l' & it' & Hb & Hl & Hk' & Hlt & Hrun & Hkey & Hval & Hc')]; rewrite Hrun; cbn [mbind res_bind].
  - exists []. rewrite He. by split_and!.
  - destruct (IH l' f it' ltac:(lia) Hc' Hk' ltac:(lia)) as (es & Hes & Hls & Hbs). rewrite Hes. cbn [mbind res_bind]. rewrite Hkey, Hval. eexists. split; [reflexivity |]. split; [by rewrite Hl, Hls | by constructor].
Qed.

Lemma leaf_in (l : list item) q v : (q, v) ∈ omap leaf_of l <-> exists h, (q, h, valueNode v) ∈ l.
Proof using Type.
  clear. rewrite list_elem_of_omap. split; [intros ([[p h] x] & Hin & Hx) | intros [h Hin]; by exists (q, h, valueNode v)].
  destruct x; try done. injection Hx as -> ->. by exists h.
Qed.

Lemma leaves_once (l : list item) : NoDup l.*1.*1 -> NoDup (omap leaf_of l).*1.
Proof using Type.
  clear. induction l as [| [[p h] x] l IH]; intros Hnd; [apply NoDup_nil_2 |]. cbn [fmap list_fmap fst] in Hnd. apply NoDup_cons in Hnd as [Hp Hnd]. destruct x; cbn; try by apply IH.
  apply NoDup_cons. split; [| by apply IH]. intros ([q w] & -> & [h' Hin]%leaf_in)%list_elem_of_fmap. apply Hp. apply paths_in. by eexists _, _.
Qed.

(** The values that are listed, and their keys. *)
Lemma lists_keyed t m t' l : lists_trie t m t' l -> Forall keyed l.
Proof using Type.
  clear rlpe. intros [[-> _] | [[Lv Lk _ _] Hcont]]; [done |]. apply Forall_forall. intros [[q h] x] Hin. specialize (Lk q h x Hin). unfold keyed. cbn [fst snd]. destruct x; try done.
  destruct (proj1 (Lv q v)) as (k & -> & Hk); [by exists h |]. apply Hcont in Hk as (key & ? & -> & _). by exists key.
Qed.

(** C11: the iterator over a trie lists the map of the trie. On every trie that stands for a map, whatever is loaded or hashed, and whose
    root hash is that of the empty trie only when it is empty, the loop over [Next] ends, without an error, and its keys and
    values are the entries of the map, each once. *)
Theorem iterator_lists_map t m : represents keccak t m -> (trie_root keccak t = EmptyRootHash -> m = ∅) ->
  exists it N, (forall fuel, NodeIterator keccak (S fuel) t [] = Val (inr it)) /\
    forall fuel, (N <= fuel)%nat -> exists es, entries fuel (NewIterator it) = Val (es, None) /\ es ≡ₚ map_to_list m.
Proof using rlpe.
  intros Hrep Hempty. destruct (NodeIterator_ok t m Hrep) as (it & t' & l & Hit & Hc & Hl). exists it, (S (length l)). split; [done |]. intros fuel Hf.
  pose proof (lists_keyed _ _ _ _ Hl) as Hk. assert (NoDup l.*1.*1 /\ forall q v, (exists h, (q, h, valueNode v) ∈ l) <-> exists key, Forall is_byte key /\ q = keybytesToHex key /\ m !! key = Some v) as (Ho & Hv).
  { destruct Hl as [[-> He] | [[Lv Lk _ Lo] Hcont]].
    - rewrite (Hempty He). split; [apply NoDup_nil_2 |]. intros q v. split; [by intros (h & ?%not_elem_of_nil) | intros (key & _ & _ & Hm); by rewrite lookup_empty in Hm].
    - split; [done |]. intros q v. rewrite Lv, <- (Hcont q v). split; [by intros (k & -> & Hkk) | intros Hkk; by exists q]. }
  destruct (entries_ahead t' (S (length l)) l fuel (NewIterator it) ltac:(lia) Hc Hk ltac:(lia)) as (es & Hes & Hls & Hbs). exists es. split; [done |]. apply NoDup_Permutation.
  - pose proof (leaves_once l Ho) as Hnd. rewrite Hls, <- list_fmap_compose in Hnd. apply (NoDup_fmap_1 (fun e : bytes * bytes => keybytesToHex e.1)). exact Hnd.
  - apply NoDup_map_to_list.
  - intros [key v]. rewrite elem_of_map_to_list. rewrite Forall_forall in Hbs. split.
    + intros Hin. pose proof (Hbs _ Hin) as Hb. assert ((keybytesToHex key, v) ∈ omap leaf_of l) as Hle by (rewrite Hls; apply list_elem_of_fmap; by exists (key, v)).
      apply leaf_in, Hv in Hle as (key' & Hb' & He & Hm). assert (key = key') as ->; [| done]. apply (f_equal hexToKeybytes) in He. rewrite !hexToKeybytes_spec in He by done. by injection He.
    + intros Hm. assert ((keybytesToHex key, v) ∈ omap leaf_of l) as Hle by (apply leaf_in, Hv; exists key; split_and!; [by eapply (rp_keys _ _ _ Hrep) | done | done]).
      rewrite Hls in Hle. apply list_elem_of_fmap in Hle as ([key' v'] & He & Hin). injection He as He ->. pose proof (Hbs _ Hin) as Hb. cbn [fst] in *.
      apply (f_equal hexToKeybytes) in He. rewrite !hexToKeybytes_spec in He; [by injection He as -> | done | by eapply (rp_keys _ _ _ Hrep)].
Qed.
End Run.

