(* ===== verification/TrieExamples.v ===== *)
(** * Concrete tries

    The theorems on tries and on their iterator at concrete inputs. *)
From Stdlib Require Import ZArith Lia.
From stdpp Require Import base gmap strings list.
From S2P Require Import Prelude Utils JournalTypes Core AccessList StateDB StateDBSim StateDBProofs Execution TrieEncoding Trie TrieHash.
From S2P Require Import TrieProofs TrieMap TrieRoot TxTree TrieIterator TrieIteratorProofs.

(** ** A concrete trie

    An executable [rlp] (long and short headers), a small hash, and a database with one node: the
    theorems on tries at concrete inputs. *)

Module Disk.

(** ** Recursive length prefixes *)

Fixpoint strip_zeros (l : bytes) : bytes := match l with 0 :: l => strip_zeros l | _ => l end.

Definition header (base n : Z) : bytes :=
  if n <=? 55 then [base + n] else let l := strip_zeros (be_bytes 8 n) in (base + 55 + zlen l) :: l.

Definition encode_string (s : bytes) : bytes :=
  match s with [b] => if b <? 128 then [b] else header 128 1 ++ s | _ => header 128 (zlen s) ++ s end.

Definition encode_list (c : bytes) : bytes := header 192 (zlen c) ++ c.

(** Kind, size of the header and size of the content of the first value. *)
Definition read_header (b : bytes) : option (Kind * Z * Z) :=
  match b with
  | [] => None
  | b0 :: r =>
      let long n := bytes_to_Z (take (Z.to_nat n) r) in
      Some (if b0 <? 128 then (KByte, 0, 1)
            else if b0 <? 184 then (KString, 1, b0 - 128)
            else if b0 <? 192 then (KString, b0 - 182, long (b0 - 183))
            else if b0 <? 248 then (KList, 1, b0 - 192)
            else (KList, b0 - 246, long (b0 - 247)))
  end.

Definition split (b : bytes) : string + (Kind * bytes * bytes) :=
  match read_header b with
  | None => inl "unexpected EOF"
  | Some (k, start, len) =>
      if zlen b <? start + len then inl "value size exceeds available input length" else
      inr (k, take (Z.to_nat len) (drop (Z.to_nat start) b), drop (Z.to_nat (start + len)) b)
  end.

Fixpoint count (fuel : nat) (b : bytes) : Z :=
  match fuel, split b with S fuel, inr (_, _, rest) => 1 + count fuel rest | _, _ => 0 end.

#[export] Instance rlp : RLP := {|
  Split := split;
  SplitString b := match split b with inr (KList, _, _) => inl "expected String or Byte" | inr (_, c, r) => inr (c, r) | inl e => inl e end;
  SplitList b := match split b with inr (KList, c, r) => inr (c, r) | inr _ => inl "expected List" | inl e => inl e end;
  CountValues b := count (length b) b;
  EncodeString := encode_string;
  EncodeList := encode_list
|}.

#[export] Instance rlp_empty : RLPEmpty rlp.
Proof. by split. Qed.

(** A hash of 32 bytes. *)
Definition keccak (l : bytes) : bytes := be_bytes 32 (bytes_to_Z l mod 2 ^ 256).

(** ** A stored trie: one leaf, reached by its hash *)

Definition key0 : bytes := [1; 2].
Definition value0 : bytes := [7; 8; 9].
Definition blob0 : bytes := Eval vm_compute in node_rlp keccak (shortNode (keybytesToHex key0) (valueNode value0) newFlag).
Definition hash0 : bytes := Eval vm_compute in keccak blob0.

Definition reader0 : trieReader :=
  mkReader 0 (Some (fun _ path h => if decide (path = [] /\ h = BytesToHash hash0) then inr blob0 else inl "not found")) None.

Definition stored_trie : Trie := mkTrie (hashNode hash0) 0 false 0 reader0 newTracer.

Definition leaf0 : node := shortNode (keybytesToHex key0) (valueNode value0) (mkFlag (Some hash0) false).

Lemma resolves0 : resolves reader0 hash0 [] leaf0.
Proof. exists blob0. split; vm_compute; reflexivity. Qed.

Lemma linked0 : linked keccak [] hash0 (node_rlp keccak leaf0).
Proof. split; [vm_compute; reflexivity | done]. Qed.

Lemma key0_bytes : Forall is_byte key0.
Proof. repeat constructor; cbn; lia. Qed.

Lemma stored_trie_ok : represents keccak stored_trie {[key0 := value0]}.
Proof.
  pose proof (keybytes_full key0 key0_bytes) as (q & Hq & Hkey).
  assert (WF keccak reader0 [] leaf0) as Hleaf.
  { unfold leaf0. rewrite Hkey. constructor; [constructor | by destruct q | | done |].
    - cbn. by constructor.
    - unfold flag_ok. cbn [f_hash f_dirty]. rewrite <- Hkey. split_and!; [apply linked0 | by repeat constructor |]. intros _. exists leaf0. split_and!; [apply resolves0 | done..]. }
  split; [done | right; cbn | cbn [root stored_trie t_reader] |].
  - econstructor; [constructor | apply resolves0 | done | done | apply linked0].
  - intros k v. rewrite (Has_hash_inv _ _ _ _ _ _ resolves0). unfold leaf0. rewrite Has_short_inv. setoid_rewrite Has_value_inv. split.
    + intros (r & -> & -> & ->). exists key0. rewrite app_nil_r. split; [apply key0_bytes |]. split; [done | apply lookup_singleton_eq].
    + intros (key & _ & -> & H). apply lookup_singleton_Some in H as [<- <-]. exists []. by rewrite app_nil_r.
  - intros key v [<- _]%lookup_singleton_Some. apply key0_bytes.
Qed.

End Disk.
Import Disk.

#[local] Definition ops : list trie_op :=
  [OpGet [1; 2]; OpUpdate [1; 3] [5]; OpUpdate [1; 2; 0] [6]; OpDelete [1; 2]; OpGet [1; 2]; OpGet [1; 3]].

Lemma ops_ok : Forall (op_ok 20) ops.
Proof. repeat constructor; cbn; lia. Qed.

Lemma trie_refines_map_witness :
  exists t', run_ops 20 stored_trie ops =
    Val ([(Some [7; 8; 9], None); (None, None); (None, None); (None, None); (None, None); (Some [5], None)], t') /\
    represents keccak t' (map_ops {[key0 := value0]} ops).2.
Proof. exact (trie_refines_map keccak 20 stored_trie _ ops stored_trie_ok ops_ok). Defined.

(** The same map from the stored trie and from an empty one, in different orders. *)
Lemma root_hash_by_content_witness :
  exists a1 t1' a2 t2' h t1'' t2'',
    run_ops 20 stored_trie [OpUpdate [1; 3] [5]; OpUpdate [9] [4]; OpDelete [9]] = Val (a1, t1') /\
    run_ops 20 (mkTrie Nil 0 false 0 newEmptyReader newTracer) [OpUpdate [1; 3] [5]; OpUpdate [1; 2] [7; 8; 9]] = Val (a2, t2') /\
    Hash keccak t1' = Ret (h, t1'') /\ Hash keccak t2' = Ret (h, t2'') /\
    represents keccak t1'' (map_ops {[key0 := value0]} [OpUpdate [1; 3] [5]; OpUpdate [9] [4]; OpDelete [9]]).2 /\
    represents keccak t2'' (map_ops {[key0 := value0]} [OpUpdate [1; 3] [5]; OpUpdate [9] [4]; OpDelete [9]]).2.
Proof.
  apply (root_hash_by_content keccak 20 stored_trie _ [OpUpdate [1; 3] [5]; OpUpdate [9] [4]; OpDelete [9]]
    (mkTrie Nil 0 false 0 newEmptyReader newTracer) ∅ [OpUpdate [1; 3] [5]; OpUpdate [1; 2] [7; 8; 9]]).
  - exact stored_trie_ok.
  - repeat constructor; cbn; lia.
  - apply represents_empty.
  - repeat constructor; cbn; lia.
  - vm_compute. reflexivity.
Defined.

#[local] Definition tx_a : Transaction := tx_set_hash "hash a" zero_tx.
#[local] Definition tx_b : Transaction := tx_set_hash "hash b" zero_tx.
#[local] Definition tx_c : Transaction := tx_set_hash "hush c" zero_tx.
#[local] Definition gob (tx : Transaction) : bytes := 1 :: bytes_Z (TxHash tx).

Lemma tx_root_unordered_witness :
  exists h, GetTxTreeRoot keccak gob (fun _ => inl "no state") [tx_a; tx_b; tx_c] = Val h /\
    GetTxTreeRoot keccak gob (fun _ => inl "no state") [tx_c; tx_a; tx_b] = Val h.
Proof.
  apply (tx_root_unordered keccak gob (fun _ => inl "no state") (fun _ => inl "no state") [tx_a; tx_b; tx_c] [tx_c; tx_a; tx_b]).
  - discriminate.
  - apply (bool_decide_unpack _). vm_compute. exact Logic.I.
  - apply (Permutation_cons_append [tx_a; tx_b] tx_c) || (symmetry; apply (Permutation_cons_append [tx_a; tx_b] tx_c)).
Defined.

(** ** Iterating over a trie that is partly on disk *)

Import Disk.

Module Walked.

(** Keys that share a prefix, one that is the prefix of another, and one apart. *)
Definition ops : list trie_op := [OpUpdate [1; 3] [5]; OpUpdate [1; 2; 0] [6]; OpUpdate [200] [4]].

Lemma walk_ops_fit : Forall (op_ok 20) ops.
Proof. repeat constructor; cbn; lia. Qed.

Definition grown : Trie := match run_ops 20 stored_trie ops with Val (_, t) => t | _ => stored_trie end.

Definition held : list (bytes * bytes) := [([1; 2], [7; 8; 9]); ([1; 3], [5]); ([1; 2; 0], [6]); ([200], [4])].

Lemma grown_ok : represents keccak grown (list_to_map held).
Proof.
  destruct (run_ops_spec keccak 20 stored_trie _ ops stored_trie_ok walk_ops_fit) as (t' & Hrun & Hrep). unfold grown. rewrite Hrun.
  replace (list_to_map held : gmap bytes bytes) with (map_ops {[key0 := value0]} ops).2; [done |]. vm_compute. reflexivity.
Qed.

(** The order of the walk: a value before the children of its node. *)
Example walk_order : match NodeIterator keccak 5 grown [] with Val (inr it) => entries keccak 30 (NewIterator it) | _ => Spin end =
  Val ([([1; 2], [7; 8; 9]); ([1; 2; 0], [6]); ([1; 3], [5]); ([200], [4])], None).
Proof. vm_compute. reflexivity. Qed.
End Walked.
Import Walked.

Lemma iterator_lists_map_witness :
  exists it N, (forall fuel, NodeIterator keccak (S fuel) grown [] = Val (inr it)) /\
    forall fuel, (N <= fuel)%nat -> exists es, entries keccak fuel (NewIterator it) = Val (es, None) /\ es ≡ₚ map_to_list (list_to_map held : gmap bytes bytes).
Proof. apply (iterator_lists_map keccak grown (list_to_map held) grown_ok). intros He. exfalso. revert He. vm_compute. discriminate. Defined.

