(* ===== verification/TrieDecode.v ===== *)
(** * Encoding and decoding nodes

    The encoding of a well-formed node decodes to the node as the database shows it: small children embedded, the others
    as hashes. *)
From Stdlib Require Import ZArith Lia.
From stdpp Require Import base gmap strings list.
From S2P Require Import Prelude Utils JournalTypes Core TrieEncoding Trie TrieHash TrieProofs TrieMap TrieRoot.

(** What [rlp/raw.go] documents: a value is split off what follows it, a single small byte is its own encoding, and
    an encoding is not shorter than its content. *)
Class RLPLaws (rlp : RLP) := {
  Split_string s rest : Split (EncodeString s ++ rest) = inr (match s with [b] => if b <? 128 then KByte else KString | _ => KString end, s, rest);
  Split_list c rest : Split (EncodeList c ++ rest) = inr (KList, c, rest);
  SplitString_string s rest : SplitString (EncodeString s ++ rest) = inr (s, rest);
  SplitList_list c rest : SplitList (EncodeList c ++ rest) = inr (c, rest);
  CountValues_nil : CountValues [] = 0;
  CountValues_string s rest : CountValues (EncodeString s ++ rest) = 1 + CountValues rest;
  CountValues_list c rest : CountValues (EncodeList c ++ rest) = 1 + CountValues rest;
  EncodeList_longer c : (length c < length (EncodeList c))%nat;
  EncodeString_longer s : (length s <= length (EncodeString s))%nat
}.

#[export] Instance is_value_dec (c : node) : Decision (exists v, c = valueNode v).
Proof. destruct c; try (right; by intros (v & ?)). left. by eexists. Defined.

Section Decode.
Context `{rlp : RLP} `{rlpe : !RLPEmpty rlp} `{rlpl : !RLPLaws rlp} (keccak : bytes -> bytes) (keccak_length : forall e, length (keccak e) = 32%nat).
#[local] Abbreviation ref_rlp := (ref_rlp keccak).
#[local] Abbreviation node_rlp := (node_rlp keccak).
#[local] Abbreviation embed := (embed keccak).

(** ** Counting the elements of a list *)

Definition item (e : bytes) : Prop := (exists s, e = EncodeString s) \/ (exists c, e = EncodeList c).

Lemma count_items l rest : Forall item l -> CountValues (concat l ++ rest) = zlen l + CountValues rest.
Proof using rlpl.
  clear keccak_length. induction 1 as [| e l He _ IH]; cbn [concat]; [done |]. rewrite <- app_assoc. unfold zlen in *. cbn [length].
  destruct He as [[s ->] | [c ->]]; [rewrite CountValues_string | rewrite CountValues_list]; lia.
Qed.

Lemma node_item n : item (node_rlp n).
Proof using rlpe.
  clear keccak_length rlpl. destruct n; cbn; [left; exists []; by rewrite EncodeString_nil | right; eauto | right; eauto | left; eauto | left; eauto].
Qed.

Lemma ref_item c : item (ref_rlp c).
Proof using rlpe.
  clear keccak_length rlpl. unfold ref_rlp, TrieProofs.ref_rlp, embed. case_decide; [| apply node_item]. destruct (_ <? 32); [apply node_item | left; eauto].
Qed.

(** ** What is decoded *)

(** A child as its parent shows it. *)
Definition standin (c v : node) : node :=
  if decide (loaded c) then if zlen (node_rlp c) <? 32 then v else hashNode (keccak (node_rlp c)) else c.

Fixpoint view (hash : option bytes) (n : node) : node :=
  match n with
  | shortNode k c _ => shortNode k (standin c (view None c)) (mkFlag hash false)
  | fullNode cs _ => fullNode (map (fun c => standin c (view None c)) cs) (mkFlag hash false)
  | n => n
  end.

Definition sub (c : node) : node := standin c (view None c).

Context (reader : trieReader).
#[local] Abbreviation WF := (WF keccak reader).

(** The hash in a node has 32 bytes. *)
Lemma WF_hash_length p h : WF p (hashNode h) -> length h = 32%nat.
Proof using keccak_length. inversion 1 as [| | | ? ? n _ _ _ _ [-> _]]; subst. apply keccak_length. Qed.

Definition decodes (fuel : nat) (n : node) : Prop :=
  forall hash rest, decodeNode fuel hash (node_rlp n ++ rest) = Val (inr (view hash n)).

Lemma decodeRef_hash fuel h rest : length h = 32%nat -> decodeRef (decodeNode fuel) (EncodeString h ++ rest) = Val (inr (hashNode h, rest)).
Proof using rlpl.
  intros Hl. unfold decodeRef. rewrite Split_string. destruct h as [| a [| b h]]; [done | done |]. unfold zlen. rewrite Hl. done.
Qed.

Lemma decodeRef_ok fuel p c rest : (c = Nil \/ WF p c) -> (forall v, c <> valueNode v) ->
  (loaded c -> zlen (node_rlp c) < 32 -> decodes fuel c) ->
  decodeRef (decodeNode fuel) (ref_rlp c ++ rest) = Val (inr (sub c, rest)).
Proof using keccak_length rlpe rlpl.
  intros Hc Hv Hd. unfold ref_rlp, TrieProofs.ref_rlp, embed, sub, standin. destruct (decide (loaded c)) as [Hl | Hl].
  - destruct (Z.ltb_spec (zlen (node_rlp c)) 32) as [Hs | Hs]; [| by apply decodeRef_hash].
    assert (exists x, node_rlp c = EncodeList x) as [x Hx] by (destruct c; [done | cbn; eauto | cbn; eauto | done | done]).
    unfold decodeRef. rewrite Hx, Split_list, <- Hx. unfold hashLen, zlen in *. rewrite length_app.
    destruct (Z.ltb_spec 32 (Z.of_nat (length (node_rlp c) + length rest) - Z.of_nat (length rest))); [lia |]. by rewrite (Hd Hl Hs None rest).
  - destruct c as [| | | h | v]; [| done | done | | by destruct (Hv v)].
    + unfold decodeRef. cbn [TrieProofs.node_rlp]. by rewrite <- EncodeString_nil, Split_string.
    + apply decodeRef_hash. destruct Hc as [? | Hc]; [done |]. by eapply WF_hash_length.
Qed.

Lemma compact_back k : nibbles k \/ full_key k -> compactToHex (compact k) = Ret k.
Proof using Type.
  clear keccak_length. intros Hk. unfold compact. destruct Hk as [Hk | (q & Hq & ->)].
  - pose proof (hexToCompact_spec k false Hk) as Hc. cbn in Hc. rewrite Hc. apply (compactToHex_spec k false Hk).
  - pose proof (hexToCompact_spec q true Hq) as Hc. cbn in Hc. rewrite Hc. apply (compactToHex_spec q true Hq).
Qed.

(** The key of a short node ends where its value is. *)
Lemma short_key p k c f : WF p (shortNode k c f) -> match c with valueNode _ => full_key k | _ => nibbles k end.
Proof using Type.
  clear keccak_length. intros (Hp & Hk & Hw & Ht)%WF_short_inv. pose proof (WF_nibbles _ _ _ _ Hw) as Hn.
  destruct c; try (by apply nibbles_app in Hn as [_ Hn]). by destruct (full_key_split _ _ Hn Hk).
Qed.

Lemma decode_short p k c f fuel : WF p (shortNode k c f) -> (loaded c -> zlen (node_rlp c) < 32 -> decodes fuel c) -> decodes (S fuel) (shortNode k c f).
Proof using keccak_length rlpe rlpl.
  intros Hw Hd hash rest. cbn [decodeNode TrieProofs.node_rlp]. fold (ref_rlp c). set (body := EncodeString (compact k) ++ ref_rlp c).
  assert ((zlen (EncodeList body ++ rest) =? 0) = false) as ->.
  { apply Z.eqb_neq. unfold zlen. rewrite length_app. pose proof (EncodeList_longer body). lia. }
  rewrite SplitList_list. assert (CountValues body = 2) as ->.
  { unfold body. rewrite CountValues_string. pose proof (count_items [ref_rlp c] []) as Hc. cbn [concat] in Hc. rewrite !app_nil_r, CountValues_nil in Hc.
    rewrite Hc by (constructor; [apply ref_item | constructor]). done. }
  cbn [Z.eqb Pos.eqb]. unfold decodeShort, body. rewrite SplitString_string. pose proof (short_key _ _ _ _ Hw) as Hk.
  rewrite (compact_back k) by (destruct c; auto). cbn [of_outcome mbind res_bind]. pose proof Hw as (_ & _ & Hwc & Ht)%WF_short_inv.
  destruct (decide (exists v, c = valueNode v)) as [[v ->] | Hv].
  - destruct Hk as (q & Hq & ->). rewrite term_has_term. cbn [of_outcome mbind res_bind]. unfold ref_rlp, TrieProofs.ref_rlp, embed. rewrite decide_False by (by intros []).
    cbn [TrieProofs.node_rlp]. pose proof (SplitString_string v []) as Hs. rewrite app_nil_r in Hs. rewrite Hs. cbn. unfold standin. by rewrite decide_False by (by intros []).
  - assert (nibbles k) as Hn by (destruct c; try done; by destruct Hv; eexists). rewrite nibbles_no_term by done. cbn [of_outcome mbind res_bind].
    pose proof (decodeRef_ok fuel (p ++ k) c [] (or_intror Hwc)) as Hr. rewrite app_nil_r in Hr. rewrite Hr; [done | intros v ->; by apply Hv; eexists | done].
Qed.

(** The sixteen children, those that are done before them. *)
Lemma decode_children p fuel cs : forall i acc rest,
  (forall j c, cs !! j = Some c -> c <> Nil -> WF (p ++ [Z.of_nat (i + j)]) c) -> (i + length cs = 16)%nat ->
  (forall c, c ∈ cs -> loaded c -> zlen (node_rlp c) < 32 -> decodes fuel c) ->
  decodeChildren (decodeNode fuel) (length cs) (Z.of_nat i) (concat (map ref_rlp cs) ++ rest) acc = Val (inr (acc ++ map sub cs, rest)).
Proof using keccak_length rlpe rlpl.
  induction cs as [| c cs IH]; intros i acc rest Hw Hi Hd; cbn [length decodeChildren map concat]; [by rewrite app_nil_r |]. cbn [length] in Hi.
  assert (forall v, c <> valueNode v) as Hv.
  { intros v ->. specialize (Hw 0%nat _ eq_refl ltac:(done)). apply WF_nibbles in Hw as (q & Hq & He). rewrite Nat.add_0_r in He. apply app_inj_tail in He as [_ He]. lia. }
  rewrite <- app_assoc, (decodeRef_ok fuel (p ++ [Z.of_nat i])); [| | done | intros; apply Hd; [left | done..]].
  - cbn [mbind res_bind]. replace (Z.of_nat i + 1) with (Z.of_nat (S i)) by lia. rewrite IH; [by rewrite <- app_assoc | | lia |].
    + intros j d Hj Hn. rewrite Nat.add_succ_comm. by apply (Hw (S j)).
    + intros d Hd'. apply Hd. by right.
  - destruct (decide (c = Nil)) as [-> | Hn]; [by left | right]. specialize (Hw 0%nat c eq_refl Hn). by rewrite Nat.add_0_r in Hw.
Qed.

Lemma decode_full p cs f fuel : WF p (fullNode cs f) -> (forall c, c ∈ cs -> loaded c -> zlen (node_rlp c) < 32 -> decodes fuel c) -> decodes (S fuel) (fullNode cs f).
Proof using keccak_length rlpe rlpl.
  intros Hw Hd hash rest. cbn [decodeNode TrieProofs.node_rlp]. change (concat (map (fun c => embed c (node_rlp c)) cs)) with (concat (map ref_rlp cs)). set (body := concat (map ref_rlp cs)).
  assert ((zlen (EncodeList body ++ rest) =? 0) = false) as ->.
  { apply Z.eqb_neq. unfold zlen. rewrite length_app. pose proof (EncodeList_longer body). lia. }
  rewrite SplitList_list. inversion Hw as [| | ? ? ? Hp Hl Hws H2 Hfo |]; subst. assert (CountValues body = 17) as ->.
  { unfold body. rewrite <- (app_nil_r (concat _)), count_items, CountValues_nil by (apply Forall_map, Forall_true; apply ref_item). unfold zlen. rewrite length_map, Hl. done. }
  cbn [Z.eqb Pos.eqb]. unfold decodeFull, body. assert (exists cs0 last, cs = cs0 ++ [last] /\ length cs0 = 16%nat) as (cs0 & lc & -> & Hl0).
  { exists (take 16 cs). destruct (lookup_lt_is_Some_2 cs 16) as [lc Hlc]; [lia |]. exists lc. split; [| rewrite length_take; lia].
    rewrite <- (take_drop 16 cs) at 1. f_equal. rewrite (drop_S _ _ _ Hlc). f_equal. apply drop_ge. lia. }
  rewrite map_app, concat_app. cbn [map concat]. rewrite <- Hl0 at 1.
  pose proof (decode_children p fuel cs0 0%nat [] (ref_rlp lc ++ [])) as Hch. change (Z.of_nat 0) with 0 in Hch.
  rewrite Hch; [| intros j c Hj Hn; apply Hws; [by apply lookup_app_l_Some | done] | lia | intros c Hc; apply Hd, elem_of_app; by left].
  cbn [mbind res_bind app]. rewrite app_nil_r.
  assert ((lc = Nil \/ exists v, lc = valueNode v /\ v <> [])) as Hlc.
  { destruct (decide (lc = Nil)) as [-> | Hn]; [by left | right]. assert ((cs0 ++ [lc]) !! 16%nat = Some lc) as Hlk by (rewrite <- Hl0; by apply list_lookup_middle).
    specialize (Hws _ _ Hlk Hn). pose proof (WF_nibbles _ _ _ _ Hws) as Hnb. inversion Hws; subst; try (apply nibbles_app in Hnb as [_ Hnb]; inversion Hnb as [| ? ? Hb]; subst; unfold is_nibble in Hb; lia).
    eauto. }
  cbn [view]. rewrite map_app. cbn [map]. unfold ref_rlp, TrieProofs.ref_rlp, embed. destruct Hlc as [-> | (v & -> & Hv)]; rewrite decide_False by (by intros []); cbn [TrieProofs.node_rlp].
  - rewrite <- EncodeString_nil. pose proof (SplitString_string [] []) as Hs. rewrite app_nil_r in Hs. rewrite Hs. cbn. unfold standin at 2. by rewrite decide_False by (by intros []).
  - pose proof (SplitString_string v []) as Hs. rewrite app_nil_r in Hs. rewrite Hs. destruct v as [| b v]; [done |]. cbn. unfold standin at 2. by rewrite decide_False by (by intros []).
Qed.

(** An embedded child is shorter than its parent. *)
Lemma embedded_shorter n c : c ∈ subnodes n -> loaded c -> zlen (node_rlp c) < 32 -> (length (node_rlp c) < length (node_rlp n))%nat.
Proof using rlpl.
  clear keccak_length. intros Hc Hl Hs. assert (ref_rlp c = node_rlp c) as Hr. { unfold ref_rlp, TrieProofs.ref_rlp, embed. rewrite decide_True by done. by rewrite (proj2 (Z.ltb_lt _ _) Hs). }
  destruct n as [| cs f | k c' f | |]; cbn [subnodes] in Hc; try (by apply not_elem_of_nil in Hc).
  - cbn [TrieProofs.node_rlp]. change (map (fun c => embed c (node_rlp c)) cs) with (map ref_rlp cs).
    eapply Nat.le_lt_trans; [| apply EncodeList_longer]. apply list_elem_of_split in Hc as (l1 & l2 & ->). rewrite map_app, concat_app. cbn. rewrite Hr, !length_app. lia.
  - apply list_elem_of_singleton in Hc as ->. cbn [TrieProofs.node_rlp]. fold (ref_rlp c'). eapply Nat.le_lt_trans; [| apply EncodeList_longer]. rewrite Hr, length_app. lia.
Qed.

(** A node so small has only embedded children. *)
Lemma small_kids n c : zlen (node_rlp n) < 32 -> c ∈ subnodes n -> loaded c -> zlen (node_rlp c) < 32.
Proof using keccak_length rlpl.
  intros Hn Hc Hl. destruct (Z.ltb_spec (zlen (node_rlp c)) 32) as [| Hge]; [done | exfalso].
  assert (length (keccak (node_rlp c)) <= length (ref_rlp c))%nat as Hr.
  { unfold ref_rlp, TrieProofs.ref_rlp, embed. rewrite decide_True by done. rewrite (proj2 (Z.ltb_ge _ _) Hge). apply EncodeString_longer. }
  rewrite keccak_length in Hr. unfold zlen in Hn. destruct n as [| cs f | k c' f | |]; cbn [subnodes] in Hc; try (by apply not_elem_of_nil in Hc).
  - cbn [TrieProofs.node_rlp] in Hn. change (map (fun c => embed c (node_rlp c)) cs) with (map ref_rlp cs) in Hn.
    pose proof (EncodeList_longer (concat (map ref_rlp cs))) as Hlg. apply list_elem_of_split in Hc as (l1 & l2 & ->).
    rewrite map_app, concat_app in Hlg at 1. cbn [map concat] in Hlg. rewrite !length_app in Hlg. lia.
  - apply list_elem_of_singleton in Hc as ->. cbn [TrieProofs.node_rlp] in Hn. fold (ref_rlp c') in Hn.
    pose proof (EncodeList_longer (EncodeString (compact k) ++ ref_rlp c')) as Hlg. rewrite length_app in Hlg. lia.
Qed.

Lemma decodes_ok p n : WF p n -> loaded n -> forall fuel, (length (node_rlp n) < fuel)%nat -> decodes fuel n.
Proof using keccak_length rlpe rlpl.
  induction 1 as [q v Hq Hv | p k c f Hp Hk Hw IH Ht Hfo | p cs f Hp Hl Hw IH H2 Hfo | p h n Hp Hr Hl Hw IH Hlk]; intros Hld fuel Hf; [done | | | done].
  - destruct fuel as [| fuel]; [lia |]. eapply decode_short; [by constructor |]. intros Hlc Hs. apply IH; [done |].
    pose proof (embedded_shorter (shortNode k c f) c ltac:(left) Hlc Hs). lia.
  - destruct fuel as [| fuel]; [lia |]. eapply decode_full; [by constructor |]. intros c Hc Hlc Hs. apply list_elem_of_lookup in Hc as (i & Hi). apply (IH i); [done | by intros -> | done |].
    pose proof (embedded_shorter (fullNode cs f) c ltac:(by eapply list_elem_of_lookup_2) Hlc Hs). lia.
Qed.

(** The encoding of a node decodes to what the database shows of it. *)
Lemma mustDecode_view p n hash : WF p n -> loaded n -> mustDecodeNode hash (node_rlp n) = Val (view hash n).
Proof using keccak_length rlpe rlpl.
  intros Hw Hl. unfold mustDecodeNode. pose proof (decodes_ok p n Hw Hl (S (length (node_rlp n))) ltac:(lia) hash []) as Hd. rewrite app_nil_r in Hd. by rewrite Hd.
Qed.
End Decode.
