(* ===== verification/TrieCommit.v ===== *)
(** * Committing a trie

    [commit] of [commiter.go] on a trie whose hashes are cached ends, and records every node that is dirty and not embedded
    under its path, with its hash and its encoding. *)
From Stdlib Require Import ZArith Lia.
From stdpp Require Import base gmap strings list.
From S2P Require Import Prelude Utils JournalTypes Core TrieEncoding Trie TrieHash TrieProofs TrieMap TrieRoot TrieDecode.

Section Commit.
Context `{rlp : RLP} `{rlpe : !RLPEmpty rlp} `{rlpl : !RLPLaws rlp} (keccak : bytes -> bytes) (keccak_length : forall e, length (keccak e) = 32%nat).
Context (reader : trieReader).
#[local] Abbreviation WF := (WF keccak reader).
#[local] Abbreviation ref_rlp := (ref_rlp keccak).
#[local] Abbreviation node_rlp := (node_rlp keccak).
#[local] Abbreviation flagged := (flagged keccak).

(** ** What is recorded *)

Definition own (N : gmap bytes TrieHash.Node) (p : bytes) (n : node) (f : nodeFlag) : Prop :=
  match f_hash f with Some h => N !! p = Some (mkNode (BytesToHash h) (node_rlp n)) | None => True end.

Inductive recorded (N : gmap bytes TrieHash.Node) : bytes -> node -> Prop :=
| rec_leaf p n : ~ loaded n -> recorded N p n
| rec_clean p n f h : node_flag n = Some f -> f_hash f = Some h -> f_dirty f = false -> recorded N p n
| rec_short p k c f : own N p (shortNode k c f) f -> recorded N (p ++ k) c -> recorded N p (shortNode k c f)
| rec_full p cs f : own N p (fullNode cs f) f -> (forall i c, cs !! i = Some c -> recorded N (p ++ [Z.of_nat i]) c) -> recorded N p (fullNode cs f).

Definition child_at (n : node) (q : bytes) (c : node) : Prop :=
  match n with
  | shortNode k c' _ => q = k /\ c = c'
  | fullNode cs _ => exists i, q = [Z.of_nat i] /\ cs !! i = Some c /\ c <> Nil
  | _ => False
  end.

Lemma recorded_node N p n f : node_flag n = Some f -> own N p n f -> (forall q c, child_at n q c -> recorded N (p ++ q) c) -> recorded N p n.
Proof using Type.
  clear keccak_length. intros Hf Ho Hc. destruct n as [| cs f' | k c f' | |]; try done; injection Hf as ->.
  - constructor; [done |]. intros i c Hi. destruct (decide (c = Nil)) as [-> | Hn]; [apply rec_leaf; by intros [] |]. apply Hc. by exists i.
  - constructor; [done |]. by apply Hc.
Qed.

(** It depends on the paths below alone. *)
Lemma recorded_frame N N' p n : recorded N p n -> (forall q, N' !! (p ++ q) = N !! (p ++ q)) -> recorded N' p n.
Proof using Type.
  clear keccak_length. induction 1 as [p n Hl | p n f h Hf Hh Hd | p k c f Ho Hr IH | p cs f Ho Hr IH]; intros Hq.
  - by constructor.
  - by econstructor.
  - constructor; [unfold own in *; destruct (f_hash f); [| done]; specialize (Hq []); rewrite app_nil_r in Hq; by rewrite Hq |]. apply IH. intros q. by rewrite <- !app_assoc, Hq.
  - constructor; [unfold own in *; destruct (f_hash f); [| done]; specialize (Hq []); rewrite app_nil_r in Hq; by rewrite Hq |]. intros i c Hc. apply (IH i c Hc). intros q. by rewrite <- !app_assoc, Hq.
Qed.

(** A node of the trie in the set. *)
Definition fresh (N : gmap bytes TrieHash.Node) (q : bytes) (nd : TrieHash.Node) : Prop :=
  exists m f h, WF q m /\ loaded m /\ node_flag m = Some f /\ f_hash f = Some h /\ nd = mkNode (BytesToHash h) (node_rlp m) /\
    N !! q = Some nd /\ forall r c, child_at m r c -> recorded N (q ++ r) c.

(** What a commit may do to the set: entries outside [P] stay, new ones are deletions or nodes of the trie. *)
Record extends (P : bytes -> Prop) (N N' : gmap bytes TrieHash.Node) : Prop := {
  ex_frame : forall q, ~ P q -> N' !! q = N !! q;
  ex_new : forall q nd, N' !! q = Some nd -> N !! q = Some nd \/ IsDeleted nd = true \/ fresh N' q nd
}.

Lemma extends_refl P N : extends P N N.
Proof using Type. split; [done | by left]. Qed.

Lemma fresh_frame N N' q nd : fresh N q nd -> (forall r, N' !! (q ++ r) = N !! (q ++ r)) -> fresh N' q nd.
Proof using Type.
  clear keccak_length. intros (m & f & h & Hw & Hl & Hf & Hh & Hn & Ho & Hr) Hq. exists m, f, h. split_and!; [done.. | |].
  - specialize (Hq []). rewrite app_nil_r in Hq. by rewrite Hq.
  - intros r c Hc. eapply recorded_frame; [by apply Hr |]. intros x. by rewrite <- !app_assoc.
Qed.

(** One commit after another, elsewhere. *)
Lemma extends_trans (P Q : bytes -> Prop) N1 N2 N3 : (forall q, Decision (P q)) -> (forall q r, P q -> P (q ++ r)) -> (forall q, P q -> ~ Q q) ->
  extends P N1 N2 -> extends Q N2 N3 -> extends (fun q => P q \/ Q q) N1 N3.
Proof using Type.
  clear keccak_length. intros HP Hup Hd [F1 E1] [F2 E2]. split; [intros q Hq; rewrite F2, F1; tauto |]. intros q nd Hn.
  destruct (E2 q nd Hn) as [Hn2 | Hn2]; [| by right]. destruct (HP q) as [Hq | Hq]; [| left; by rewrite <- F1].
  destruct (E1 q nd Hn2) as [Hn1 | [Hn1 | Hn1]]; [by left | right; by left |]. right. right. eapply fresh_frame; [done |]. intros r. by apply F2, Hd, Hup.
Qed.

(** The children of a node whose hash is right, or that is embedded, have their hashes. *)
Lemma kids_flagged p n f : WF p n -> node_flag n = Some f -> flagged n -> (p = [] -> f_hash f <> None) -> Forall flagged (subnodes n).
Proof using keccak_length rlpl.
  intros Hw Hf Hfl Hroot. pose proof (WF_flag _ _ _ _ _ Hw Hf) as Hok. unfold flag_ok in Hok. destruct (f_hash f) as [h |] eqn:Hh; [apply Hok |].
  rewrite Forall_forall. intros c Hc g Hg Hsz. destruct (Z.le_gt_cases 32 (zlen (node_rlp n))) as [Hge | Hlt].
  - destruct (Hfl f Hf Hge) as [x Hx]. by rewrite Hh in Hx.
  - pose proof (small_kids keccak keccak_length n c Hlt Hc) as Hs. destruct c; try done; specialize (Hs I); lia.
Qed.

(** ** [store] *)

Section Store.
Context (tr : tracer) (collectLeaf : bool).

Definition stored_ref (f : nodeFlag) (n : node) : bytes := match f_hash f with Some h => EncodeString h | None => node_rlp n end.

Lemma store_none s p n d : node_flag n = Some (mkFlag None d) -> exists s', store tr collectLeaf s p n = Ret (n, s') /\ ns_Owner s' = ns_Owner s /\
  (forall q, q <> p -> Nodes s' !! q = Nodes s !! q) /\ (forall nd, Nodes s' !! p = Some nd -> Nodes s !! p = Some nd \/ IsDeleted nd = true).
Proof using Type.
  intros Hn. unfold store. destruct n as [| cs f | k c f | |]; try done; injection Hn as ->; cbn [node_cache mbind outcome_bind f_hash];
    (case_decide; eexists; (split; [reflexivity |]); (split; [reflexivity |]); cbn [Nodes AddNode]; [| by split; [| left]]);
    (split; [intros q Hq; by rewrite lookup_insert_ne | intros nd; rewrite lookup_insert_eq; intros [= <-]; by right]).
Qed.

Lemma store_some s p n h d : node_flag n = Some (mkFlag (Some h) d) -> exists s', store tr collectLeaf s p n = Ret (hashNode h, s') /\ ns_Owner s' = ns_Owner s /\
  Nodes s' = <[p := mkNode (BytesToHash h) (encode n)]> (Nodes s).
Proof using Type.
  intros Hn. unfold store. destruct n as [| cs f | k c f | |]; try done; injection Hn as ->; cbn [node_cache mbind outcome_bind f_hash]; eexists; (split; [reflexivity |]).
  - done.
  - destruct c; try done. by destruct collectLeaf.
Qed.

(** A node whose children are done is stored. *)
Lemma store_ok s p n x f : node_flag n = Some f -> node_flag x = Some f -> encode x = node_rlp n ->
  exists n' s', store tr collectLeaf s p x = Ret (n', s') /\ ns_Owner s' = ns_Owner s /\ encode n' = stored_ref f n /\ (forall h, f_hash f = Some h -> n' = hashNode h) /\ own (Nodes s') p n f /\
  (forall q, q <> p -> Nodes s' !! q = Nodes s !! q) /\
  (forall nd, Nodes s' !! p = Some nd -> Nodes s !! p = Some nd \/ IsDeleted nd = true \/ exists h, f_hash f = Some h /\ nd = mkNode (BytesToHash h) (node_rlp n)).
Proof using Type.
  intros Hn Hx He. unfold stored_ref, own. destruct f as [[h |] d]; cbn [f_hash].
  - destruct (store_some s p x h d Hx) as (s' & -> & Hso & Hs). exists (hashNode h), s'. rewrite Hs, He. split_and!; [done | done | done | by intros ? [= <-] | by rewrite lookup_insert_eq | |].
    + intros q Hq. by rewrite lookup_insert_ne.
    + intros nd. rewrite lookup_insert_eq. intros [= <-]. right. right. by exists h.
  - destruct (store_none s p x d Hx) as (s' & -> & Hso & Hq & Hp). exists x, s'. split_and!; [done.. |]. intros nd Hnd. destruct (Hp nd Hnd); tauto.
Qed.
(** ** [commit] *)

Lemma stored_ref_ref p n f : WF p n -> p <> [] -> loaded n -> node_flag n = Some f -> flagged n -> stored_ref f n = ref_rlp n.
Proof using Type.
  clear keccak_length. intros Hw Hp Hl Hf Hfl. unfold stored_ref, TrieProofs.ref_rlp, embed. rewrite decide_True by done. destruct (f_hash f) as [h |] eqn:Hh.
  - destruct (WF_linked _ _ _ _ _ _ Hw Hf Hh) as [-> Hs]. specialize (Hs Hp). by rewrite (proj2 (Z.ltb_ge _ _) Hs).
  - destruct (Z.ltb_spec (zlen (node_rlp n)) 32) as [| Hge]; [done |]. destruct (Hfl f Hf Hge) as [x Hx]. by rewrite Hh in Hx.
Qed.

Definition committed_as (s : NodeSet) (p : bytes) (n : node) (run : outcome (node * NodeSet)) : Prop :=
  exists f n' s', node_flag n = Some f /\ run = Ret (n', s') /\ ns_Owner s' = ns_Owner s /\ encode n' = stored_ref f n /\ (forall h, f_hash f = Some h -> n' = hashNode h) /\
    recorded (Nodes s') p n /\ extends (fun q => p `prefix_of` q) (Nodes s) (Nodes s').

(** The last step: the node itself, after those below it. *)
Lemma commit_last s s1 p n x f (P : bytes -> Prop) : WF p n -> node_flag n = Some f -> node_flag x = Some f -> encode x = node_rlp n ->
  (forall q, Decision (P q)) -> (forall q r, P q -> P (q ++ r)) -> (forall q, P q -> p `prefix_of` q) -> ~ P p -> extends P (Nodes s) (Nodes s1) -> ns_Owner s1 = ns_Owner s ->
  (forall N, (forall q, P q -> N !! q = Nodes s1 !! q) -> forall r c, child_at n r c -> recorded N (p ++ r) c) ->
  committed_as s p n (store tr collectLeaf s1 p x).
Proof using Type.
  clear keccak_length. intros Hw Hf Hx He HP Hup Hpre Hnp Hex Hso Hrec. destruct (store_ok s1 p n x f Hf Hx He) as (n' & s' & Hrun & Hso' & Henc & Hh & Hown & Hfr & Hnew).
  assert (forall r c, child_at n r c -> recorded (Nodes s') (p ++ r) c) as Hr. { apply Hrec. intros q Hq. apply Hfr. by intros ->. }
  exists f, n', s'. split_and!; [done | done | congruence | done | done | by eapply recorded_node |]. assert (extends (eq p) (Nodes s1) (Nodes s')) as Hex2.
  { split; [intros q Hq; apply Hfr; congruence |]. intros q nd Hnd. destruct (decide (q = p)) as [-> | Hq]; [| left; by rewrite <- Hfr].
    destruct (Hnew nd Hnd) as [? | [? | (h & Hfh & ->)]]; [by left | right; by left |]. right. right. exists n, f, h.
    split_and!; [done | by destruct n | done.. ]. }
  assert (forall q, P q -> ~ p = q) as Hdis by (intros q Hq <-; by apply Hnp).
  destruct (extends_trans P (eq p) _ _ _ HP Hup Hdis Hex Hex2) as [F E]. split; [| done].
  intros q Hq. apply F. intros [Hq' | <-]; apply Hq; [by apply Hpre | done].
Qed.

Lemma clean_cases f : (exists h, f_hash f = Some h /\ f_dirty f = false) \/ (f_hash f = None \/ f_dirty f = true).
Proof using Type. clear. destruct f as [[h |] []]; cbn; [right; by right | left; by exists h | right; by left..]. Qed.

Lemma commit_clean s p n f h : WF p n -> node_flag n = Some f -> f_hash f = Some h -> f_dirty f = false -> committed_as s p n (commit tr collectLeaf s p n).
Proof using Type.
  clear keccak_length. intros Hw Hf Hh Hd. exists f, (hashNode h), s. split_and!; [done | | done | | | by econstructor | apply extends_refl].
  - destruct n; try done; injection Hf as <-; cbn [commit]; by rewrite Hh, Hd.
  - unfold stored_ref. by rewrite Hh.
  - intros h1 Hh1. congruence.
Qed.

Lemma commit_short s p k c f : WF p (shortNode k c f) -> flagged (shortNode k c f) -> (p = [] -> f_hash f <> None) ->
  (loaded c -> flagged c -> committed_as s (p ++ k) c (commit tr collectLeaf s (p ++ k) c)) ->
  committed_as s p (shortNode k c f) (commit tr collectLeaf s p (shortNode k c f)).
Proof using keccak_length rlpl.
  intros Hw Hfl Hroot IH. destruct (clean_cases f) as [(h & Hh & Hd) | Hdirty]; [by eapply commit_clean |].
  pose proof Hw as (Hp & Hk & Hwc & Ht)%WF_short_inv. pose proof (kids_flagged p _ f Hw eq_refl Hfl Hroot) as Hkf. cbn in Hkf. rewrite Forall_singleton in Hkf.
  assert (exists cv s1, (if is_full c then commit tr collectLeaf s (p ++ k) c else Ret (c, s)) = Ret (cv, s1) /\ ns_Owner s1 = ns_Owner s /\ encode cv = ref_rlp c /\
    recorded (Nodes s1) (p ++ k) c /\ extends (fun q => (p ++ k) `prefix_of` q) (Nodes s) (Nodes s1)) as (cv & s1 & Hrun & Hso & Henc & Hrec & Hex).
  { destruct (is_full c) eqn:Hfc.
    - destruct c as [| cs fc | | |]; try done. destruct (IH I Hkf) as (f' & cv & s1 & Hf' & Hrun & Hso & Henc & _ & Hrec & Hex). exists cv, s1.
      split_and!; [done | done | | done | done]. rewrite Henc. apply (stored_ref_ref (p ++ k)); [done | by destruct p, k | done..].
    - assert (~ loaded c) as Hlc by (intros Hl; by destruct c). exists c, s. split_and!; [by destruct c | done | | by apply rec_leaf | apply extends_refl].
      unfold TrieProofs.ref_rlp, embed. rewrite decide_False by done. by destruct c. }
  assert (commit tr collectLeaf s p (shortNode k c f) = store tr collectLeaf s1 p (shortNode (compact k) cv f)) as ->.
  { cbn [commit]. rewrite Hrun, bind_Ret, (WF_short_compact _ _ _ _ _ _ Hw), bind_Ret. by destruct Hdirty as [-> | ->]; [| destruct (f_hash f)]. }
  eapply (commit_last s s1 p _ _ f (fun q => (p ++ k) `prefix_of` q)); [done | done | done | | apply _ | | | | done | done |].
  - cbn [encode TrieProofs.node_rlp]. by rewrite Henc.
  - intros q r Hq. by apply prefix_app_r.
  - intros q [r ->]. rewrite <- app_assoc. by eexists.
  - intros [r Hr]. rewrite <- app_assoc in Hr. apply (f_equal length) in Hr. rewrite !length_app in Hr. destruct k; [done | cbn in Hr; lia].
  - intros N Hq r c' [-> ->]. eapply recorded_frame; [done |]. intros q. apply Hq. by eexists.
Qed.
(** The loop over the children of a full node. *)
Definition commit_children (p : bytes) : nat -> list node -> NodeSet -> outcome (list node * NodeSet) :=
  fix commitChildren (i : nat) (cs : list node) (s : NodeSet) : outcome (list node * NodeSet) :=
    match cs with
    | [] => Ret ([], s)
    | c :: cs =>
        '(cc, s) ← (if (i <? 16)%nat then match c with Nil | hashNode _ => Ret (c, s) | _ => commit tr collectLeaf s (p ++ [Z.of_nat i]) c end else Ret (c, s));
        '(ccs, s) ← commitChildren (S i) cs s;
        Ret (cc :: ccs, s)
    end.

(** The paths of the children from [i] on. *)
Definition from (p : bytes) (i : nat) (q : bytes) : Prop := exists j r, q = p ++ Z.of_nat j :: r /\ (i <= j)%nat.

Lemma from_one p i q : (p ++ [Z.of_nat i]) `prefix_of` q -> from p i q.
Proof using Type. clear. intros [r ->]. exists i, r. rewrite <- app_assoc. done. Qed.

Lemma from_apart p i q : (p ++ [Z.of_nat i]) `prefix_of` q -> ~ from p (S i) q.
Proof using Type. clear. intros [r ->] (j & r' & He & Hj). rewrite <- app_assoc in He. apply app_inv_head in He. injection He. lia. Qed.

Lemma children_ok p cs : forall i s,
  (forall j c, cs !! j = Some c -> c <> Nil -> WF (p ++ [Z.of_nat (i + j)]) c) ->
  (forall j c, cs !! j = Some c -> (16 <= i + j)%nat -> ~ loaded c) -> Forall flagged cs ->
  (forall j c s, cs !! j = Some c -> loaded c -> committed_as s (p ++ [Z.of_nat (i + j)]) c (commit tr collectLeaf s (p ++ [Z.of_nat (i + j)]) c)) ->
  exists ccs s', commit_children p i cs s = Ret (ccs, s') /\ ns_Owner s' = ns_Owner s /\ map encode ccs = map ref_rlp cs /\
    (forall j c, cs !! j = Some c -> recorded (Nodes s') (p ++ [Z.of_nat (i + j)]) c) /\ extends (from p i) (Nodes s) (Nodes s').
Proof using Type.
  clear keccak_length. induction cs as [| c cs IH]; intros i s Hw Hlast Hfl Hc; [exists [], s; split_and!; [done.. | apply extends_refl] |].
  apply Forall_cons in Hfl as [Hfc Hfl].
  assert (exists cc s1, (if (i <? 16)%nat then match c with Nil | hashNode _ => Ret (c, s) | _ => commit tr collectLeaf s (p ++ [Z.of_nat i]) c end else Ret (c, s)) = Ret (cc, s1) /\ ns_Owner s1 = ns_Owner s /\
    encode cc = ref_rlp c /\ recorded (Nodes s1) (p ++ [Z.of_nat i]) c /\ extends (fun q => (p ++ [Z.of_nat i]) `prefix_of` q) (Nodes s) (Nodes s1)) as (cc & s1 & Hrun & Hso & Henc & Hrec & Hex).
  { destruct (decide (loaded c)) as [Hl | Hl].
    - destruct (Hc 0%nat c s eq_refl Hl) as (f & cc & s1 & Hf & Hrun & Hso & Henc & _ & Hrec & Hex). rewrite Nat.add_0_r in *. exists cc, s1. split_and!; [| done | | done | done].
      + destruct (Nat.ltb_spec i 16) as [Hi | Hi]; [by destruct c |]. exfalso. by apply (Hlast 0%nat c eq_refl ltac:(lia)).
      + rewrite Henc. apply (stored_ref_ref (p ++ [Z.of_nat i])); [| by destruct p | done..]. specialize (Hw 0%nat c eq_refl). rewrite Nat.add_0_r in Hw. apply Hw. by intros ->.
    - assert (encode c = ref_rlp c) as He by (unfold TrieProofs.ref_rlp, embed; rewrite decide_False by done; by destruct c).
      exists c, s. split_and!; [| done | done | by apply rec_leaf | apply extends_refl]. destruct (Nat.ltb_spec i 16) as [Hi | Hi]; [| done]. destruct c as [| | | | v]; try done.
      exfalso. specialize (Hw 0%nat _ eq_refl ltac:(done)). rewrite Nat.add_0_r in Hw. apply WF_nibbles in Hw as (q & Hq & He'). apply app_inj_tail in He' as [_ He']. lia. }
  destruct (IH (S i) s1) as (ccs & s' & Hrun' & Hso' & Henc' & Hrec' & Hex').
  { intros j d Hd. rewrite Nat.add_succ_comm. by apply (Hw (S j)). }
  { intros j d Hd. rewrite Nat.add_succ_comm. by apply (Hlast (S j)). }
  { done. }
  { intros j d s2 Hd. rewrite Nat.add_succ_comm. by apply (Hc (S j)). }
  exists (cc :: ccs), s'. split_and!.
  - cbn [commit_children]. fold (commit_children p (S i) cs). rewrite Hrun, bind_Ret. change ((commit_children p (S i) cs s1 ≫= λ '(ccs0, s0), Ret (cc :: ccs0, s0)) = Ret (cc :: ccs, s')). by rewrite Hrun'.
  - congruence.
  - cbn. by rewrite Henc, Henc'.
  - intros [| j] d Hd.
    + injection Hd as <-. rewrite Nat.add_0_r. eapply recorded_frame; [done |]. intros q. apply (ex_frame _ _ _ Hex'). apply from_apart. by eexists.
    + rewrite <- Nat.add_succ_comm. by apply Hrec'.
  - destruct (extends_trans (fun q => (p ++ [Z.of_nat i]) `prefix_of` q) (from p (S i)) _ _ _ ltac:(apply _) ltac:(intros; by apply prefix_app_r) ltac:(intros; by apply from_apart) Hex Hex') as [F E].
    split; [| done]. intros q Hq. apply F. intros [Hq' | (j & r & -> & Hj)]; apply Hq; [by apply from_one | exists j, r; split; [done | lia]].
Qed.

#[local] Instance from_dec p q : Decision (from p 0 q).
Proof using Type.
  clear. destruct (decide (p `prefix_of` q)) as [Hp | Hn]; [| right; intros (j & r & -> & _); apply Hn; by eexists].
  destruct (drop (length p) q) as [| x r] eqn:Ed; [right | destruct (decide (0 <= x)) as [Hx | Hx]; [left | right]].
  - intros (j & r & -> & _). by rewrite drop_app_length in Ed.
  - exists (Z.to_nat x), r. split; [| lia]. destruct Hp as [k ->]. rewrite drop_app_length in Ed. subst k. rewrite Z2Nat.id by done. done.
  - intros (j & r' & -> & _). rewrite drop_app_length in Ed. injection Ed. lia.
Defined.

Lemma commit_full s p cs f : WF p (fullNode cs f) -> flagged (fullNode cs f) -> (p = [] -> f_hash f <> None) ->
  (forall i c s, cs !! i = Some c -> loaded c -> flagged c -> committed_as s (p ++ [Z.of_nat i]) c (commit tr collectLeaf s (p ++ [Z.of_nat i]) c)) ->
  committed_as s p (fullNode cs f) (commit tr collectLeaf s p (fullNode cs f)).
Proof using keccak_length rlpl.
  intros Hw Hfl Hroot IH. destruct (clean_cases f) as [(h & Hh & Hd) | Hdirty]; [by eapply commit_clean |].
  pose proof (kids_flagged p _ f Hw eq_refl Hfl Hroot) as Hkf. cbn in Hkf.
  destruct (children_ok p cs 0 s) as (ccs & s1 & Hrun & Hso & Henc & Hrec & Hex).
  { inversion Hw; subst. auto. }
  { intros j c Hc Hj. by eapply last_child. }
  { done. }
  { intros j c s2 Hc Hl. apply (IH j c s2 Hc Hl). rewrite Forall_lookup in Hkf. by eapply Hkf. }
  assert (commit tr collectLeaf s p (fullNode cs f) = store tr collectLeaf s1 p (fullNode ccs f)) as ->.
  { cbn [commit]. unfold commit_children in Hrun. rewrite Hrun, bind_Ret. by destruct Hdirty as [-> | ->]; [| destruct (f_hash f)]. }
  eapply (commit_last s s1 p _ _ f (from p 0)); [done | done | done | | apply _ | | | | done | done |].
  - cbn [encode TrieProofs.node_rlp]. by rewrite Henc.
  - intros q r (j & r' & -> & Hj). exists j, (r' ++ r). rewrite <- app_assoc. done.
  - intros q (j & r & -> & _). by eexists.
  - intros (j & r & Hr & _). apply (f_equal length) in Hr. rewrite length_app in Hr. cbn in Hr. lia.
  - intros N Hq r c (i & -> & Hc & _). eapply recorded_frame; [by apply Hrec |]. intros q. apply Hq. exists i, q. rewrite <- app_assoc. split; [done | lia].
Qed.

Lemma commit_ok p n : WF p n -> loaded n -> forall s f, node_flag n = Some f -> flagged n -> (p = [] -> f_hash f <> None) -> committed_as s p n (commit tr collectLeaf s p n).
Proof using keccak_length rlpl.
  induction 1 as [q v Hq Hv | p k c f Hp Hk Hw IH Ht Hfo | p cs f Hp Hl Hw IH H2 Hfo | p h n Hp Hr Hl Hw IH Hlk]; intros Hld s f0 Hf0 Hfl Hroot; [done | | | done].
  - injection Hf0 as <-. apply commit_short; [by constructor | done | done |]. intros Hlc Hfc. destruct (node_flag c) as [fc |] eqn:Efc; [| by destruct c].
    eapply IH; [done | done | done |]. intros He. by destruct p, k.
  - injection Hf0 as <-. apply commit_full; [by constructor | done | done |]. intros i c s2 Hc Hlc Hfc. destruct (node_flag c) as [fc |] eqn:Efc; [| by destruct c].
    eapply IH; [done | by intros -> | done | done | done |]. intros He. by destruct p.
Qed.
End Store.
End Commit.
