(* ===== verification/TrieReopen.v ===== *)
(** * Tries over stores that grow

    A trie over a database that answers more, and a committed trie that is read back. *)
From Stdlib Require Import ZArith Lia.
From stdpp Require Import base gmap strings list.
From S2P Require Import Prelude Utils JournalTypes Core TrieEncoding Trie TrieHash TrieProofs TrieMap TrieRoot TrieDecode TrieCommit.

(** ** Tries over stores that grow

    What holds of a node over one database holds over a database that answers more, and at any other path when the database
    does not look at paths, as [hashdb] does not. *)

Section Stores.
Context `{rlp : RLP} (keccak : bytes -> bytes).
#[local] Abbreviation WF := (WF keccak).
#[local] Abbreviation node_rlp := (node_rlp keccak).

(** What is in the database under its hash is well formed. *)
Definition sound (rd : trieReader) : Prop :=
  forall p h n, nibbles p -> resolves rd h p n -> loaded n -> linked keccak p h (node_rlp n) -> WF rd p n.

Definition included (rd rd' : trieReader) : Prop := forall p h b, reader_node rd p h = inr b -> reader_node rd' p h = inr b.

Section Grow.
Context (rd rd' : trieReader) (Hle : included rd rd').

Lemma resolves_grow h p n : resolves rd h p n -> resolves rd' h p n.
Proof using Hle. intros (b & Hb & Hn). exists b. split; [by apply Hle | done]. Qed.

Lemma Has_grow p n k v : Has rd p n k v -> Has rd' p n k v.
Proof using Hle.
  induction 1 as [p v | p k c f rest v H IH | p cs f i c rest v Hc H IH | p h n k v Hr H IH]; [constructor | by constructor | by econstructor |].
  econstructor; [by apply resolves_grow | done].
Qed.

Lemma Has_back p n : WF rd p n -> forall k v, Has rd' p n k v -> Has rd p n k v.
Proof using Hle.
  induction 1 as [q v Hq Hv | p k c f Hp Hk Hw IH Ht Hfo | p cs f Hp Hl Hw IH H2 Hfo | p h n Hp Hr Hl Hw IH Hlk]; intros key w H.
  - apply Has_value_inv in H as [-> ->]. constructor.
  - apply Has_short_inv in H as (r & -> & H). constructor. by apply IH.
  - apply Has_full_inv in H as (i & c & r & -> & Hc & H). econstructor; [done |]. eapply IH; [done | | done]. intros ->. by apply Has_nil in H.
  - rewrite (Has_hash_inv _ _ _ _ _ _ (resolves_grow _ _ _ Hr)) in H. econstructor; [done |]. by apply IH.
Qed.

Lemma Has_same p n k v : WF rd p n -> Has rd' p n k v <-> Has rd p n k v.
Proof using Hle. intros Hw. split; [by apply Has_back | apply Has_grow]. Qed.

Lemma tip_grow p n : tip rd p n -> tip rd' p n.
Proof using Hle. destruct n; try done. intros (cs & f & Hr). exists cs, f. by apply resolves_grow. Qed.

Lemma flag_grow p n f : sound rd -> WF rd p n -> nibbles p -> flag_ok keccak rd p n f -> flag_ok keccak rd' p n f.
Proof using Hle.
  unfold flag_ok. intros Hs Hw Hp Hf. destruct (f_hash f) as [h |]; [| done]. destruct Hf as (Hl & Hk & Hc). split_and!; [done.. |].
  intros Hd. destruct (Hc Hd) as (x & Hr & Hlx & He & Hh). exists x. split_and!; [by apply resolves_grow | done.. |].
  intros k v. rewrite (Has_same p n) by done. rewrite <- Hh. apply Has_same. apply (Hs p h); [done.. |]. by rewrite He.
Qed.

Lemma WF_grow p n : sound rd -> WF rd p n -> WF rd' p n.
Proof using Hle.
  intros Hs. induction 1 as [q v Hq Hv | p k c f Hp Hk Hw IH Ht Hfo | p cs f Hp Hl Hw IH H2 Hfo | p h n Hp Hr Hl Hw IH Hlk].
  - by constructor.
  - constructor; [done | done | done | by apply tip_grow |]. apply flag_grow; [done | by constructor | done | done].
  - constructor; [done | done | done | done |]. apply flag_grow; [done | by constructor | done | done].
  - econstructor; [done | by apply resolves_grow | done..].
Qed.
End Grow.

(** ** Other paths *)

Section Shift.
Context (rd : trieReader) (Hpath : forall p q h b, reader_node rd p h = inr b -> reader_node rd q h = inr b).

Lemma resolves_at h p q n : resolves rd h p n -> resolves rd h q n.
Proof using Hpath. intros (b & Hb & Hn). exists b. split; [by eapply Hpath | done]. Qed.

Lemma Has_at p n k v : Has rd p n k v -> forall q, Has rd q n k v.
Proof using Hpath.
  induction 1 as [p v | p k c f rest v H IH | p cs f i c rest v Hc H IH | p h n k v Hr H IH]; intros q; [constructor | by constructor | by econstructor |].
  econstructor; [by eapply resolves_at | done].
Qed.

Lemma flag_at p q n f : (q <> [] -> p <> []) -> (p <> [] -> q <> []) -> flag_ok keccak rd p n f -> flag_ok keccak rd q n f.
Proof using Hpath.
  unfold flag_ok. intros Hpq Hqp Hf. destruct (f_hash f) as [h |]; [| destruct Hf as [| []]; [by left | right; auto]].
  destruct Hf as ([-> Hsz] & Hk & Hc). split_and!; [split; [done | auto] | done |].
  intros Hd. destruct (Hc Hd) as (x & Hr & Hlx & He & Hh). exists x. split_and!; [by eapply resolves_at | done.. |].
  intros k v. split; intros H; apply (Has_at p), Hh; by eapply Has_at.
Qed.

Lemma tip_at p q n : tip rd p n -> tip rd q n.
Proof using Hpath. destruct n; try done. intros (cs & f & Hr). exists cs, f. by eapply resolves_at. Qed.

Lemma nibbles_moved (q p s : bytes) : s <> [] -> nibbles (q ++ s) -> nibbles p -> nibbles (p ++ s).
Proof using Type. clear. intros _ Hqs Hp. apply nibbles_app in Hqs as [_ Hs]. by apply nibbles_app. Qed.

Lemma WF_at a n : WF rd a n -> forall q p s, a = q ++ s -> s <> [] -> nibbles p -> WF rd (p ++ s) n.
Proof using Hpath.
  induction 1 as [q0 v Hq Hv | a k c f Ha Hk Hw IH Ht Hfo | a cs f Ha Hl Hw IH H2 Hfo | a h n Ha Hr Hl Hw IH Hlk]; intros q p s He Hs Hp.
  - destruct (exists_last Hs) as (s' & x & ->). rewrite app_assoc in He. apply app_inj_tail in He as [-> <-]. rewrite app_assoc. constructor; [| done].
    apply nibbles_app in Hq as [_ Hq]. by apply nibbles_app.
  - subst a. constructor; [by eapply nibbles_moved | done | | by eapply tip_at | eapply flag_at; [| | done]; by destruct q, p, s].
    rewrite <- app_assoc. eapply (IH q); [by rewrite app_assoc | by destruct s | done].
  - subst a. constructor; [by eapply nibbles_moved | done | | done | eapply flag_at; [| | done]; by destruct q, p, s].
    intros i c Hc Hn. rewrite <- app_assoc. eapply (IH i c Hc Hn q); [by rewrite app_assoc | by destruct s | done].
  - subst a. econstructor; [by eapply nibbles_moved | by eapply resolves_at | done | by eapply IH |]. destruct Hlk as [-> Hsz]. split; [done |]. intros _. apply Hsz. by destruct q, s.
Qed.

(** A loaded node elsewhere: its own flag must fit. *)
Lemma WF_top_at q p n : WF rd q n -> loaded n -> nibbles p -> (forall f, node_flag n = Some f -> flag_ok keccak rd p n f) -> WF rd p n.
Proof using Hpath.
  intros Hw Hl Hp Hf. destruct Hw as [| q k c f Hq Hk Hw Ht Hfo | q cs f Hq Hn Hw H2 Hfo |]; try done.
  - constructor; [done | done | by eapply WF_at | by eapply tip_at | by apply Hf].
  - constructor; [done | done | | done | by apply Hf]. intros i c Hc Hnn. by eapply WF_at; [apply Hw | |..].
Qed.
End Shift.
End Stores.

(** ** A committed trie read back

    Over a store that holds what a commit recorded, the hash of every node that was committed opens the node with its content. *)

Section Reopen.
Context `{rlp : RLP} `{rlpe : !RLPEmpty rlp} `{rlpl : !RLPLaws rlp} (keccak : bytes -> bytes) (keccak_length : forall e, length (keccak e) = 32%nat).
#[local] Abbreviation WF := (WF keccak).
#[local] Abbreviation ref_rlp := (ref_rlp keccak).
#[local] Abbreviation node_rlp := (node_rlp keccak).
#[local] Abbreviation flagged := (flagged keccak).
#[local] Abbreviation view := (view keccak).
#[local] Abbreviation sub := (sub keccak).

Context (rd rd' : trieReader) (Hle : included rd rd') (Hsound : sound keccak rd).
Context (N : gmap bytes TrieHash.Node).
Context (Hholds : forall q nd p, N !! q = Some nd -> IsDeleted nd = false -> reader_node rd' p (nd_Hash nd) = inr (nd_Blob nd)).

(** [x] over the new store is [n] over the old one. *)
Record stands (p : bytes) (n x : node) : Prop := {
  st_wf : WF rd' p x;
  st_has : forall k v, Has rd' p x k v <-> Has rd p n k v;
  st_tip : tip rd p n -> tip rd' p x;
  st_ref : ref_rlp x = ref_rlp n;
  st_flagged : flagged x
}.

Lemma stands_same p n : WF rd p n -> ~ loaded n -> stands p n n.
Proof using Hle Hsound.
  intros Hw Hl. split; [by eapply WF_grow | intros k v; by eapply Has_same | by apply tip_grow | done | by destruct n].
Qed.

(** ** One node from its children *)

Lemma child_wf p n q c : WF rd p n -> child_at n q c -> WF rd (p ++ q) c /\ q <> [].
Proof using Type.
  clear. intros Hw Hc. destruct Hw; cbn in Hc; try done.
  - by destruct Hc as [-> ->].
  - destruct Hc as (i & -> & Hi & Hn). split; [by eauto | done].
Qed.

Lemma child_in n q c : child_at n q c -> c ∈ subnodes n.
Proof using Type.
  clear. destruct n as [| cs f | k c' f | |]; cbn; try done; [intros (i & _ & Hi & _); by eapply list_elem_of_lookup_2 | intros [_ ->]; left].
Qed.

Lemma sub_leaf c : ~ loaded c -> sub c = c.
Proof using Type. clear. intros Hl. unfold sub, TrieDecode.sub, standin. by rewrite decide_False. Qed.

Lemma view_flag hash n : loaded n -> node_flag (view hash n) = Some (mkFlag hash false).
Proof using Type. clear. by destruct n. Qed.

Lemma view_loaded hash n : loaded n -> loaded (view hash n).
Proof using Type. clear. by destruct n. Qed.

Lemma view_rlp hash n : (forall c, c ∈ subnodes n -> ref_rlp (sub c) = ref_rlp c) -> node_rlp (view hash n) = node_rlp n.
Proof using Type.
  clear. intros Hc. destruct n as [| cs f | k c f | |]; try done; cbn [TrieProofs.node_rlp TrieDecode.view subnodes] in *.
  - do 2 f_equal. rewrite map_map. apply map_ext_in. intros c Hin. apply Hc. by apply list_elem_of_In.
  - do 2 f_equal. apply Hc. left.
Qed.

(** What a loaded node shows, its children in place. *)
Record viewed (p : bytes) (n : node) (hash : option bytes) : Prop := {
  vw_rlp : node_rlp (view hash n) = node_rlp n;
  vw_has : forall k v, Has rd' p (view hash n) k v <-> Has rd p n k v;
  vw_wf : flag_ok keccak rd' p (view hash n) (mkFlag hash false) -> WF rd' p (view hash n);
  vw_kids : Forall flagged (subnodes (view hash n))
}.

Lemma view_short p k c f hash : WF rd p (shortNode k c f) -> stands (p ++ k) c (sub c) -> viewed p (shortNode k c f) hash.
Proof using Type.
  clear keccak_length Hle Hsound Hholds. intros (Hp & Hk & Hw & Ht)%WF_short_inv [Sw Sh St Sr Sf]. split.
  - apply view_rlp. cbn. intros c' Hc. apply list_elem_of_singleton in Hc as ->. done.
  - intros key v. cbn [TrieDecode.view]. rewrite !Has_short_inv. by setoid_rewrite Sh.
  - intros Hf. cbn [TrieDecode.view] in *. constructor; auto.
  - cbn. by rewrite Forall_singleton.
Qed.

Lemma view_full p cs f hash : WF rd p (fullNode cs f) -> (forall i c, cs !! i = Some c -> c <> Nil -> stands (p ++ [Z.of_nat i]) c (sub c)) -> viewed p (fullNode cs f) hash.
Proof using Type.
  clear keccak_length Hle Hsound Hholds. intros Hw Hs. inversion Hw as [| | ? ? ? Hp Hl Hws H2 Hfo |]; subst.
  assert (forall i c, map sub cs !! i = Some c -> exists d, cs !! i = Some d /\ c = sub d /\ (d = Nil -> c = Nil)) as Hback.
  { intros i c Hc. rewrite list_lookup_fmap in Hc. destruct (cs !! i) as [d |] eqn:Hd; [| done]. injection Hc as <-. exists d. split_and!; [done | done | by intros ->]. }
  assert (forall i d, cs !! i = Some d -> map sub cs !! i = Some (sub d)) as Hforth by (intros i d Hd; by rewrite list_lookup_fmap, Hd).
  split.
  - apply view_rlp. cbn. intros c (i & Hi)%list_elem_of_lookup. destruct (decide (c = Nil)) as [-> | Hn]; [done |]. by apply (st_ref _ _ _ (Hs i c Hi Hn)).
  - intros key v. cbn [TrieDecode.view]. change (map (fun c => standin keccak c (view None c)) cs) with (map sub cs). rewrite !Has_full_inv. split.
    + intros (i & c & r & -> & Hc & H). destruct (Hback i c Hc) as (d & Hd & -> & Hnil). exists i, d, r. split_and!; [done.. |].
      destruct (decide (d = Nil)) as [-> | Hn]; [by apply Has_nil in H | by apply (st_has _ _ _ (Hs i d Hd Hn))].
    + intros (i & d & r & -> & Hd & H). exists i, (sub d), r. split_and!; [done | by apply Hforth |].
      destruct (decide (d = Nil)) as [-> | Hn]; [by apply Has_nil in H | by apply (st_has _ _ _ (Hs i d Hd Hn))].
  - intros Hf. cbn [TrieDecode.view] in *. change (map (fun c => standin keccak c (view None c)) cs) with (map sub cs) in *. constructor; [done | by rewrite length_map | | | done].
    + intros i c Hc Hn. destruct (Hback i c Hc) as (d & Hd & -> & Hnil). apply (st_wf _ _ _ (Hs i d Hd ltac:(intros ->; by apply Hn))).
    + destruct H2 as (i & j & a & b & Hij & Hi & Hj & Ha & Hb). exists i, j, (sub a), (sub b). split_and!; [done | by apply Hforth | by apply Hforth | |].
      * intros He. pose proof (st_wf _ _ _ (Hs i a Hi Ha)) as Hx. rewrite He in Hx. by apply WF_not_nil in Hx.
      * intros He. pose proof (st_wf _ _ _ (Hs j b Hj Hb)) as Hx. rewrite He in Hx. by apply WF_not_nil in Hx.
  - cbn. change (map (fun c => standin keccak c (view None c)) cs) with (map sub cs). rewrite Forall_lookup. intros i c Hc. destruct (Hback i c Hc) as (d & Hd & -> & Hnil).
    destruct (decide (d = Nil)) as [-> | Hn]; [done | by apply (st_flagged _ _ _ (Hs i d Hd Hn))].
Qed.

Lemma view_ok p n hash : WF rd p n -> loaded n -> (forall q c, child_at n q c -> stands (p ++ q) c (sub c)) -> viewed p n hash.
Proof using Type.
  clear keccak_length Hle Hsound Hholds. intros Hw Hl Hc. destruct n as [| cs f | k c f | |]; try done.
  - apply view_full; [done |]. intros i c Hi Hn. apply Hc. by exists i.
  - apply view_short; [done |]. by apply Hc.
Qed.

(** ** A node under its hash *)

(** What the commit recorded of a node and its children. *)
Lemma recorded_cases p n f : recorded keccak N p n -> node_flag n = Some f ->
  (is_Some (f_hash f) /\ f_dirty f = false) \/ (own keccak N p n f /\ forall q c, child_at n q c -> recorded keccak N (p ++ q) c).
Proof using Type.
  clear. intros Hr Hf. destruct Hr as [p n Hl | p n f' h Hf' Hh Hd | p k c f' Ho Hr | p cs f' Ho Hr].
  - by destruct n.
  - rewrite Hf in Hf'. injection Hf' as <-. left. split; [by eexists | done].
  - injection Hf as <-. right. split; [done |]. by intros q c' [-> ->].
  - injection Hf as <-. right. split; [done |]. intros q c (i & -> & Hi & _). by apply Hr.
Qed.

(** A loaded node whose content is that of a full node is one. *)
Lemma full_by_content p cs f x : WF rd p (fullNode cs f) -> WF rd p x -> loaded x -> (forall k v, Has rd p x k v <-> Has rd p (fullNode cs f) k v) -> exists cs' f', x = fullNode cs' f'.
Proof using Type.
  clear keccak_length Hle Hsound Hholds rlpe rlpl. intros Hw Hx Hl Hs. destruct x as [| cs' f' | k c f' | |]; try done; [by eexists _, _ |]. exfalso.
  apply (short_no_parts _ _ _ _ _ _ Hx). rewrite (parts_same rd rd p _ _ Hs). by eapply full_parts.
Qed.

(** It opens over the new store, with its content. *)
Record shown (p : bytes) (n : node) (h : bytes) : Prop := {
  sh_wf : WF rd' p (hashNode h);
  sh_has : forall k v, Has rd' p (hashNode h) k v <-> Has rd p n k v;
  sh_tip : tip rd p n -> tip rd' p (hashNode h)
}.

Lemma shown_clean p n f h : WF rd p n -> loaded n -> node_flag n = Some f -> f_hash f = Some h -> f_dirty f = false -> shown p n h.
Proof using Hle Hsound.
  clear keccak_length Hholds. intros Hw Hl Hf Hh Hd. pose proof (WF_flag _ _ _ _ _ Hw Hf) as Hfo. unfold flag_ok in Hfo. rewrite Hh in Hfo.
  destruct Hfo as (Hlk & _ & Hk). destruct (Hk Hd) as (x & Hr & Hlx & He & Hs). assert (nibbles p) as Hp by (pose proof (WF_nibbles _ _ _ _ Hw); by destruct n).
  assert (WF rd p x) as Hx by (apply (Hsound p h); [done.. | by rewrite He]). pose proof (resolves_grow _ _ Hle _ _ _ Hr) as Hr'.
  split.
  - econstructor; [done | done | done | by eapply WF_grow | by rewrite He].
  - intros k v. rewrite (Has_hash_inv _ _ _ _ _ _ Hr'), <- Hs. by eapply Has_same.
  - intros Ht. destruct n as [| cs fn | | |]; try done. destruct (full_by_content p cs fn x Hw Hx Hlx Hs) as (cs' & f' & ->). by exists cs', f'.
Qed.

Lemma rlp_not_deleted n h : loaded n -> IsDeleted (mkNode h (node_rlp n)) = false.
Proof using rlpl.
  clear keccak_length Hholds Hle Hsound. intros Hl. unfold IsDeleted. cbn [nd_Blob]. apply Z.eqb_neq. unfold zlen.
  destruct n; try done; cbn [TrieProofs.node_rlp]; match goal with |- context [EncodeList ?x] => pose proof (EncodeList_longer x); lia end.
Qed.

Lemma shown_dirty p n f h : WF rd p n -> loaded n -> node_flag n = Some f -> f_hash f = Some h -> own keccak N p n f ->
  (forall q c, child_at n q c -> stands (p ++ q) c (sub c)) -> WF rd' p (view (Some h) n) /\ shown p n h.
Proof using Hholds keccak_length rlpe rlpl.
  clear Hle Hsound. intros Hw Hl Hf Hh Hown Hkids. destruct (view_ok p n (Some h) Hw Hl Hkids) as [Vr Vh Vw Vk]. assert (nibbles p) as Hp by (pose proof (WF_nibbles _ _ _ _ Hw); by destruct n).
  unfold own in Hown. rewrite Hh in Hown. pose proof (WF_linked _ _ _ _ _ _ Hw Hf Hh) as Hlk.
  assert (resolves rd' h p (view (Some h) n)) as Hr. { exists (node_rlp n). split; [by apply (Hholds p _ p Hown), rlp_not_deleted | by eapply mustDecode_view]. }
  pose proof (view_loaded (Some h) n Hl) as Hvl. assert (WF rd' p (view (Some h) n)) as Hvw.
  { apply Vw. unfold flag_ok. cbn [f_hash f_dirty]. rewrite Vr. split_and!; [done.. |]. intros _. by exists (view (Some h) n). }
  split; [done |]. split.
  - econstructor; [done.. |]. by rewrite Vr.
  - intros k v. by rewrite (Has_hash_inv _ _ _ _ _ _ Hr).
  - intros Ht. destruct n as [| cs fn | | |]; try done. cbn [TrieDecode.view] in Hr. by eexists _, _.
Qed.

(** ** Every node *)

(** A small node is not stored by itself: what is below it was gone through. *)
Lemma small_recorded p n f : WF rd p n -> node_flag n = Some f -> p <> [] -> zlen (node_rlp n) < 32 -> recorded keccak N p n -> forall q c, child_at n q c -> recorded keccak N (p ++ q) c.
Proof using Type.
  clear. intros Hw Hf Hp Hs Hrec. destruct (recorded_cases p n f Hrec Hf) as [[[h Hh] _] | [_ Hr]]; [| done].
  destruct (WF_linked _ _ _ _ _ _ Hw Hf Hh) as [_ Hsz]. specialize (Hsz Hp). lia.
Qed.

Lemma stands_step p n : WF rd p n -> loaded n -> p <> [] -> flagged n -> recorded keccak N p n ->
  (forall q c, child_at n q c -> flagged c -> recorded keccak N (p ++ q) c -> stands (p ++ q) c (sub c)) -> stands p n (sub n).
Proof using Hholds Hle Hsound keccak_length rlpe rlpl.
  intros Hw Hl Hp Hfl Hrec IH. destruct (node_flag n) as [f |] eqn:Hf; [| by destruct n].
  assert (Forall flagged (subnodes n)) as Hkf by (eapply kids_flagged; done). rewrite Forall_forall in Hkf.
  pose proof (recorded_cases p n f Hrec Hf) as Hcase. unfold sub, TrieDecode.sub, standin. rewrite decide_True by done. destruct (Z.ltb_spec (zlen (node_rlp n)) 32) as [Hs | Hs].
  - assert (forall q c, child_at n q c -> stands (p ++ q) c (sub c)) as Hkids.
    { intros q c Hc. apply IH; [done | by apply Hkf, (child_in n q) | by eapply small_recorded]. }
    destruct (view_ok p n None Hw Hl Hkids) as [Vr Vh Vw Vk]. pose proof (view_loaded None n Hl) as Hvl. split; [| done | | |].
    + apply Vw. right. by rewrite Vr.
    + by destruct n.
    + unfold TrieProofs.ref_rlp, embed. rewrite !decide_True by done. by rewrite Vr.
    + intros f' _ Hsz. rewrite Vr in Hsz. lia.
  - destruct (Hfl f Hf Hs) as [h Hh]. destruct (WF_linked _ _ _ _ _ _ Hw Hf Hh) as [He _]. rewrite <- He.
    assert (shown p n h) as [Sw Sh St].
    { destruct Hcase as [[_ Hd] | [Hown Hr]]; [by eapply shown_clean |]. eapply shown_dirty; [done.. |]. intros q c Hc. apply IH; [done | by apply Hkf, (child_in n q) | by apply Hr]. }
    split; [done | done | done | | done]. unfold TrieProofs.ref_rlp, embed. rewrite decide_False by (by intros []). rewrite decide_True by done. rewrite (proj2 (Z.ltb_ge _ _) Hs). cbn. by rewrite He.
Qed.

Lemma stands_ok p n : WF rd p n -> p <> [] -> flagged n -> recorded keccak N p n -> stands p n (sub n).
Proof using Hholds Hle Hsound keccak_length rlpe rlpl.
  induction 1 as [q v Hq Hv | p k c f Hp Hk Hw IH Ht Hfo | p cs f Hp Hl Hw IH H2 Hfo | p h n Hp Hr Hl Hw IH Hlk]; intros Hne Hfl Hrec.
  - rewrite sub_leaf by (by intros []). apply stands_same; [by constructor | by intros []].
  - apply stands_step; [by constructor | done | done | done | done |]. intros q c' [-> ->]. apply IH. by destruct p.
  - apply stands_step; [by constructor | done | done | done | done |]. intros q c' (i & -> & Hi & Hn). apply (IH i c'); [done | done |]. by destruct p.
  - rewrite sub_leaf by (by intros []). apply stands_same; [by econstructor | by intros []].
Qed.

(** The children of a node whose hash is cached. *)
Lemma children_stand p n f h : WF rd p n -> node_flag n = Some f -> f_hash f = Some h -> (forall q c, child_at n q c -> recorded keccak N (p ++ q) c) ->
  forall q c, child_at n q c -> stands (p ++ q) c (sub c).
Proof using Hholds Hle Hsound keccak_length rlpe rlpl.
  intros Hw Hf Hh Hr q c Hc. pose proof (WF_flag _ _ _ _ _ Hw Hf) as Hfo. unfold flag_ok in Hfo. rewrite Hh in Hfo. destruct Hfo as (_ & Hkf & _). rewrite Forall_forall in Hkf.
  destruct (child_wf p n q c Hw Hc) as [Hwc Hq]. apply stands_ok; [done | by destruct p, q | by apply Hkf, (child_in n q) | by apply Hr].
Qed.

(** A node whose hash is cached opens by it, be it the root. *)
Lemma shown_ok p n f h : WF rd p n -> loaded n -> node_flag n = Some f -> f_hash f = Some h -> recorded keccak N p n -> shown p n h.
Proof using Hholds Hle Hsound keccak_length rlpe rlpl.
  intros Hw Hl Hf Hh Hrec. destruct (recorded_cases p n f Hrec Hf) as [[_ Hd] | [Hown Hr]]; [by eapply shown_clean |].
  eapply shown_dirty; [done.. |]. by eapply children_stand.
Qed.
End Reopen.

