(* ===== verification/TrieHistory.v ===== *)
(** * Rounds of a trie over a store

    [New], operations, [Commit]: over a store whose nodes are sound, a round that opens a known root ends without an error,
    and a store that takes its nodes knows the new root, with the map that is left, and all the roots it knew. *)
From Stdlib Require Import ZArith Lia.
From stdpp Require Import base gmap strings list.
From S2P Require Import Prelude Utils JournalTypes Core TrieEncoding Trie TrieHash TrieProofs TrieMap TrieRoot TrieDecode TrieCommit TrieReopen.

(** ** Hashes as numbers and as bytes *)

Lemma be_bytes_of l : Forall is_byte l -> be_bytes (length l) (bytes_to_Z l) = l.
Proof.
  induction l as [| b l IH] using rev_ind; [done |]. intros [Hl Hb]%Forall_app. rewrite Forall_singleton in Hb. rewrite length_app, Nat.add_1_r. cbn [be_bytes].
  unfold bytes_to_Z in *. rewrite fold_left_app. cbn [fold_left]. unfold is_byte in Hb. rewrite Z.div_add_l, Z.div_small, Z.add_0_r, IH by (done || lia). f_equal. f_equal.
  rewrite Z.add_comm, Z.mod_add, Z.mod_small; lia.
Qed.

Lemma bytes_to_Z_bound l : Forall is_byte l -> 0 <= bytes_to_Z l < 256 ^ Z.of_nat (length l).
Proof.
  induction l as [| b l IH] using rev_ind; [done |]. intros [Hl Hb]%Forall_app. rewrite Forall_singleton in Hb. specialize (IH Hl).
  rewrite length_app, Nat.add_1_r, Nat2Z.inj_succ, Z.pow_succ_r by lia. unfold bytes_to_Z in *. rewrite fold_left_app. cbn [fold_left]. unfold is_byte in Hb. lia.
Qed.

Lemma hash_bytes_of h : length h = 32%nat -> Forall is_byte h -> hash_bytes (BytesToHash h) = h.
Proof.
  intros Hl Hb. unfold hash_bytes, BytesToHash, u256. pose proof (bytes_to_Z_bound h Hb) as Hz. rewrite Hl in Hz. rewrite Z.mod_small by exact Hz. rewrite <- Hl. by apply be_bytes_of.
Qed.

(** ** Stores *)

Abbreviation store_map := (Z -> option bytes).

(** The reader of a store that looks at hashes alone. *)
Definition over (V : store_map) : trieReader := mkReader 0 (Some (fun _ _ h => match V h with Some b => inr b | None => inl "not found" end)) None.

Lemma over_node V p h b : reader_node (over V) p h = inr b <-> V h = Some b /\ b <> [].
Proof.
  unfold reader_node. cbn. destruct (V h) as [[| x l] |]; split; try (by intros [= <-]); try (by intros [[= <-] ?]); done.
Qed.

(** What a database promises the tries opened on it: it knows a root that the store knows and reads every node as the store does. *)
Definition serves (db : Z -> string + Reader) (V : store_map) : Prop :=
  forall root, is_Some (V root) -> exists rd, db root = inr rd /\ forall owner p h b, b <> [] -> rd owner p h = inr b <-> V h = Some b.

(** The set of a trie carries its owner. *)
Definition owned (ow : Z) (s : option NodeSet) : Prop := match s with Some s => ns_Owner s = ow | None => True end.

Definition set_nodes (s : option NodeSet) : gmap bytes TrieHash.Node := match s with Some s => Nodes s | None => ∅ end.

(** A node of one of several sets. *)
Definition in_sets (Ns : list (gmap bytes TrieHash.Node)) (nd : TrieHash.Node) : Prop := exists N q, N ∈ Ns /\ N !! q = Some nd /\ IsDeleted nd = false.

(** [V'] is [V] with the nodes of the sets, which name nothing else. *)
Record grows (V V' : store_map) (Ns : list (gmap bytes TrieHash.Node)) : Prop := {
  ad_keeps : forall h b, V h = Some b -> V' h = Some b;
  ad_has : forall nd, in_sets Ns nd -> V' (nd_Hash nd) = Some (nd_Blob nd);
  ad_only : forall h b, V' h = Some b -> V h = Some b \/ exists nd, in_sets Ns nd /\ nd_Hash nd = h /\ nd_Blob nd = b;
  ad_names : forall nd, in_sets Ns nd -> nd_Hash nd <> 0 /\ nd_Hash nd <> EmptyRootHash
}.

Definition adds (V V' : store_map) (s : option NodeSet) : Prop := grows V V' [set_nodes s].

Section History.
Context `{rlp : RLP} `{rlpe : !RLPEmpty rlp} `{rlpl : !RLPLaws rlp} (keccak : bytes -> bytes).
Context (keccak_length : forall e, length (keccak e) = 32%nat) (keccak_bytes : forall e, Forall is_byte (keccak e)).
#[local] Abbreviation WF := (WF keccak).
#[local] Abbreviation node_rlp := (node_rlp keccak).

(** ** [Commit] *)

Lemma deleted_owner t : ns_Owner (deleted_set t) = owner t.
Proof using Type.
  clear. unfold deleted_set. induction (deletedNodes (t_tracer t)) as [| p l IH] using rev_ind; [done |]. rewrite foldl_app. exact IH.
Qed.

Lemma deleted_all t q nd : Nodes (deleted_set t) !! q = Some nd -> IsDeleted nd = true.
Proof using Type.
  clear. unfold deleted_set. induction (deletedNodes (t_tracer t)) as [| p l IH] using rev_ind; [cbn; by rewrite lookup_empty |].
  rewrite foldl_app. cbn [foldl AddNode Nodes]. intros [[_ <-] | [_ H]]%lookup_insert_Some; [done | by apply IH].
Qed.

(** The set of a commit: it holds what the new root needs, and else only deletions. *)
Record commits (rd : trieReader) (n : node) (h : bytes) (N : gmap bytes TrieHash.Node) : Prop := {
  cm_nodes : forall q nd, N !! q = Some nd -> IsDeleted nd = true \/ fresh keccak rd N q nd;
  cm_digest : exists e, h = keccak e;
  cm_opens : forall rd', sound keccak rd -> included rd rd' ->
    (forall q nd p, N !! q = Some nd -> IsDeleted nd = false -> reader_node rd' p (nd_Hash nd) = inr (nd_Blob nd)) ->
    WF rd' [] (hashNode h) /\ forall k v, Has rd' [] (hashNode h) k v <-> Has rd [] n k v
}.

Lemma commits_loaded rd n x f h N : WF rd [] x -> loaded x -> node_flag x = Some f -> f_hash f = Some h -> (forall k v, Has rd [] x k v <-> Has rd [] n k v) ->
  recorded keccak N [] x -> (forall q nd, N !! q = Some nd -> IsDeleted nd = true \/ fresh keccak rd N q nd) -> commits rd n h N.
Proof using keccak_length rlpe rlpl.
  clear keccak_bytes. intros Hw Hl Hf Hh Hs Hr Hn. split; [done | destruct (WF_linked _ _ _ _ _ _ Hw Hf Hh) as [-> _]; by eexists |].
  intros rd' Hsound Hle Hholds. destruct (shown_ok keccak keccak_length rd rd' Hle Hsound N Hholds [] x f h Hw Hl Hf Hh Hr) as [Sw Sh _].
  split; [done |]. intros k v. by rewrite Sh.
Qed.

(** The part of [Commit] after [Hash]. *)
Definition commit_hashed (collectLeaf : bool) (rootHash : Z) (t : Trie) : outcome (Z * option NodeSet * Trie) :=
  '(h, dirty) ← node_cache (root t);
  if negb dirty then Ret (rootHash, None, closed t (hashNode (default [] h))) else
  '(n, s) ← commit (t_tracer t) collectLeaf (deleted_set t) [] (root t);
  h ← as_hash n;
  Ret (rootHash, Some s, closed t (hashNode h)).

Lemma commit_hashed_loaded collectLeaf r t h d rd : WF rd [] (root t) -> loaded (root t) -> node_flag (root t) = Some (mkFlag (Some h) d) ->
  exists s t', commit_hashed collectLeaf r t = Ret (r, s, t') /\ owned (owner t) s /\ commits rd (root t) h (set_nodes s).
Proof using keccak_length rlpe rlpl.
  clear keccak_bytes. intros Hw Hl Hf. unfold commit_hashed.
  assert (node_cache (root t) = Ret (Some h, d)) as -> by (destruct (root t); try done; injection Hf as ->; done). rewrite bind_Ret. destruct d; cbn [negb].
  - destruct (commit_ok keccak keccak_length rd (t_tracer t) collectLeaf [] (root t) Hw Hl (deleted_set t) _ Hf) as (f & n' & s & Hf' & -> & Hso & _ & Hn' & Hrec & Hex); [| done |].
    { apply (hash_flagged keccak _ _ h Hf). done. }
    rewrite Hf in Hf'. injection Hf' as <-. rewrite (Hn' h) by done. rewrite !bind_Ret. cbn [as_hash]. rewrite bind_Ret. eexists _, _. split; [reflexivity |]. split; [cbn; by rewrite Hso, deleted_owner |].
    eapply commits_loaded; [done | done | done | done | done | done |]. intros q nd Hq. destruct (ex_new _ _ _ _ _ Hex q nd Hq) as [Hd | ?]; [left; by eapply deleted_all | done].
  - eexists _, _. split; [reflexivity |]. split; [done |]. eapply commits_loaded; [done | done | done | done | done | by eapply rec_clean |]. intros q nd Hq. cbn in Hq. by rewrite lookup_empty in Hq.
Qed.

Lemma commit_hashed_hash collectLeaf r t h rd : WF rd [] (hashNode h) -> root t = hashNode h ->
  exists s t', commit_hashed collectLeaf r t = Ret (r, s, t') /\ owned (owner t) s /\ commits rd (root t) h (set_nodes s).
Proof using Type.
  clear keccak_bytes keccak_length. intros Hw Hr. unfold commit_hashed. rewrite Hr. cbn [node_cache mbind outcome_bind negb commit as_hash]. eexists _, _. split; [reflexivity |]. split; [apply deleted_owner |]. split.
  - intros q nd Hq. left. by eapply deleted_all.
  - inversion Hw as [| | | ? ? n _ _ _ _ [-> _]]; subst. by eexists.
  - intros rd' Hsound Hle _. split; [by eapply WF_grow |]. intros k v. by eapply Has_same.
Qed.

Lemma commits_content rd n x h N : (forall k v, Has rd [] x k v <-> Has rd [] n k v) -> commits rd x h N -> commits rd n h N.
Proof using Type.
  clear keccak_bytes keccak_length. intros Hs [Hn Hd Ho]. split; [done | done |]. intros rd' H1 H2 H3. destruct (Ho rd' H1 H2 H3) as [Hw Hh]. split; [done |]. intros k v. by rewrite Hh.
Qed.

Lemma Commit_spec t m collectLeaf : represents keccak t m -> exists s t', Commit keccak t collectLeaf = Ret (trie_root keccak t, s, t') /\ owned (owner t) s /\
  (root t = Nil /\ (forall q nd, set_nodes s !! q = Some nd -> IsDeleted nd = true) \/
   root t <> Nil /\ exists h, trie_root keccak t = BytesToHash h /\ commits (t_reader t) (root t) h (set_nodes s)).
Proof using keccak_length rlpe rlpl.
  clear keccak_bytes. intros [Ho Hw Hc Hd]. destruct Hw as [He | Hw].
  - unfold Commit, trie_root. rewrite He. destruct (_ =? 0); eexists _, _; (split; [reflexivity |]); (split; [done || apply deleted_owner |]); left; (split; [done |]); cbn; [by intros ? ?; rewrite lookup_empty | apply deleted_all].
  - assert (root t <> Nil) as Hne by (intros He; rewrite He in Hw; by apply WF_not_nil in Hw).
    destruct (hash_root keccak (t_reader t) (root t) Hw) as (cached & Hrun & [Hw' Hs _ _ _] & Hnf).
    assert (trie_root keccak t = BytesToHash (root_digest keccak (root t))) as Hr by (unfold trie_root; by destruct (root t)).
    set (t1 := with_root (mkTrie (root t) (owner t) (committed t) 0 (t_reader t) (t_tracer t)) cached).
    assert (Commit keccak t collectLeaf = commit_hashed collectLeaf (trie_root keccak t) t1) as ->.
    { assert (Hash keccak t = Ret (trie_root keccak t, t1)) as Hhash by (unfold Hash, hashRoot; rewrite Hr; destruct (root t) eqn:Er; [done | ..]; by rewrite Hrun).
      unfold Commit. destruct (root t) eqn:Er; [done | ..]; by rewrite Hhash. }
    assert (exists s t', commit_hashed collectLeaf (trie_root keccak t) t1 = Ret (trie_root keccak t, s, t') /\ owned (owner t) s /\ commits (t_reader t) cached (root_digest keccak (root t)) (set_nodes s)) as (s & t' & Hrun' & Hown & Hcm).
    { destruct (decide (loaded (root t))) as [Hl | Hl].
      - destruct (Hnf Hl) as (d & Hf). change cached with (root t1). change (owner t) with (owner t1). eapply commit_hashed_loaded; [done | by destruct cached | done].
      - destruct (root t) as [| | | h | v]; [done | by destruct Hl | by destruct Hl | | by apply WF_nibbles, full_key_nil in Hw]. cbn in Hrun. injection Hrun as <-. change (owner t) with (owner t1). by apply (commit_hashed_hash _ _ t1 h). }
    exists s, t'. split; [done |]. split; [done |]. right. split; [done |]. exists (root_digest keccak (root t)). split; [done |]. by eapply commits_content.
Qed.

(** ** Stores that take a set *)

Lemma over_included V V' : (forall h b, V h = Some b -> V' h = Some b) -> included (over V) (over V').
Proof using Type. clear. intros Hk p h b [Hb Hne]%over_node. apply over_node. split; [by apply Hk | done]. Qed.

Lemma over_pathless V p q h b : reader_node (over V) p h = inr b -> reader_node (over V) q h = inr b.
Proof using Type. clear. by rewrite !over_node. Qed.

Lemma digest_inj e e' : BytesToHash (keccak e) = BytesToHash (keccak e') -> keccak e = keccak e'.
Proof using keccak_length keccak_bytes. clear rlpe rlpl. intros H. apply (f_equal hash_bytes) in H. by rewrite !hash_bytes_of in H. Qed.

(** A fresh node read back is well formed. *)
Lemma fresh_sound rd V N q nd p h n : sound keccak rd -> included rd (over V) ->
  (forall q nd, N !! q = Some nd -> IsDeleted nd = false -> V (nd_Hash nd) = Some (nd_Blob nd)) ->
  fresh keccak rd N q nd -> nd_Hash nd = BytesToHash h -> mustDecodeNode (Some h) (nd_Blob nd) = Val n -> nibbles p -> linked keccak p h (node_rlp n) -> WF (over V) p n.
Proof using keccak_length keccak_bytes rlpe rlpl.
  intros Hs Hle Hhas (m & f & h0 & Hw & Hl & Hf & Hh & -> & Hq & Hrec) Hname Hdec Hp Hlk. cbn [nd_Hash nd_Blob] in *.
  assert (h0 = h) as ->. { destruct Hlk as [-> _]. destruct (WF_linked _ _ _ _ _ _ Hw Hf Hh) as [-> _]. by apply digest_inj. }
  rewrite (mustDecode_view keccak keccak_length rd q m (Some h) Hw Hl) in Hdec. injection Hdec as <-.
  assert (forall r x y, N !! r = Some x -> IsDeleted x = false -> reader_node (over V) y (nd_Hash x) = inr (nd_Blob x)) as Hholds.
  { intros r x y Hx Hd. apply over_node. split; [by eapply Hhas |]. intros He. unfold IsDeleted in Hd. by rewrite He in Hd. }
  destruct (shown_dirty keccak keccak_length rd (over V) N Hholds q m f h Hw Hl Hf Hh) as [Hwv _]; [unfold own; by rewrite Hh | by eapply (children_stand keccak keccak_length rd (over V) Hle Hs N Hholds) |].
  pose proof (view_loaded keccak (Some h) m Hl) as Hvl. pose proof (view_flag keccak (Some h) m Hl) as Hvf.
  apply (WF_top_at keccak (over V) (over_pathless V) q p _ Hwv Hvl Hp). intros f' Hf'. rewrite Hvf in Hf'. injection Hf' as <-.
  pose proof (WF_flag _ _ _ _ _ Hwv Hvf) as Hfo. unfold flag_ok in *. cbn [f_hash f_dirty] in *. destruct Hfo as (_ & Hk & _). split_and!; [done.. |].
  intros _. exists (view keccak (Some h) m). split_and!; [| done..]. exists (node_rlp m). split; [apply (Hholds q _ p Hq); by apply rlp_not_deleted | by eapply mustDecode_view].
Qed.

(** The nodes of a set come from a trie over the store, or are deletions. *)
Definition from_trie (V : store_map) (N : gmap bytes TrieHash.Node) : Prop :=
  exists rd, sound keccak rd /\ included rd (over V) /\ forall q nd, N !! q = Some nd -> IsDeleted nd = true \/ fresh keccak rd N q nd.

Lemma deletions_only V N : (forall q nd, N !! q = Some nd -> IsDeleted nd = true) -> from_trie V N.
Proof using Type.
  clear. intros HN. exists newEmptyReader. split_and!; [by intros p h n _ (b & Hb & _) | by intros p h b Hb |]. intros q nd Hq. left. by eapply HN.
Qed.

Lemma sound_grows V V' Ns : sound keccak (over V) -> grows V V' Ns -> Forall (from_trie V) Ns -> sound keccak (over V').
Proof using keccak_length keccak_bytes rlpe rlpl.
  intros HsV [Hkeep Hhas Honly _] Hfresh p h n Hp (b & [Hb Hne]%over_node & Hn) Hl Hlk. rewrite Forall_forall in Hfresh.
  destruct (Honly _ _ Hb) as [HV | (nd & (N & q & HN & Hq & Hd) & Hname & <-)].
  - apply (WF_grow keccak (over V) (over V') (over_included V V' Hkeep)); [done |]. apply (HsV p h); [done | | done | done]. exists b. split; [by apply over_node | done].
  - destruct (Hfresh N HN) as (rd & Hs & Hle & Hf). destruct (Hf q nd Hq) as [Hx | Hf']; [congruence |].
    apply (fresh_sound rd V' N q nd p h n); [exact Hs | | | exact Hf' | done | done | done | done].
    + intros r x c Hx. by apply (over_included V V' Hkeep), Hle.
    + intros r x Hx Hdx. apply Hhas. by exists N, r.
Qed.

(** ** The roots a store knows *)

Definition no_root (root : Z) : Prop := root = 0 \/ root = EmptyRootHash.

(** A trie with this root and this content can be opened. *)
Definition known (V : store_map) (root : Z) (m : gmap bytes bytes) : Prop :=
  (no_root root /\ m = ∅) \/
  (~ no_root root /\ (exists h, root = BytesToHash h /\ hash_bytes root = h /\ WF (over V) [] (hashNode h) /\ content (over V) (hashNode h) m) /\
   forall key v, m !! key = Some v -> Forall is_byte key).

Lemma content_same rd rd' n x m : (forall k v, Has rd' [] x k v <-> Has rd [] n k v) -> content rd n m -> content rd' x m.
Proof using Type. clear. intros Hs Hc k v. by rewrite Hs. Qed.

Lemma known_grow V V' root m : sound keccak (over V) -> (forall h b, V h = Some b -> V' h = Some b) -> known V root m -> known V' root m.
Proof using Type.
  clear keccak_length keccak_bytes rlpe rlpl. intros Hs Hk [? | (Hn & (h & Hr & Hh & Hw & Hc) & Hkeys)]; [by left | right]. split_and!; [done | | done]. exists h.
  pose proof (over_included V V' Hk) as Hle. split_and!; [done | done | by eapply WF_grow |]. eapply content_same; [| done]. intros k v. by eapply Has_same.
Qed.

(** ** [New] *)

(** A state root under which tries can be opened: the empty one has empty tries only. *)
Definition opens_at (V : store_map) (stateRoot root : Z) : Prop := (no_root stateRoot /\ no_root root) \/ (~ no_root stateRoot /\ is_Some (V stateRoot)).

Lemma open_id db V stateRoot owner root m : sound keccak (over V) -> serves db V -> known V root m -> opens_at V stateRoot root ->
  exists t, New (mkID stateRoot owner root) db = Val (inr t) /\ Trie.owner t = owner /\ represents keccak t m /\ sound keccak (t_reader t) /\ included (t_reader t) (over V).
Proof using Type.
  clear keccak_length keccak_bytes rlpe rlpl. intros Hs Hdb Hkn [[Hsr Hroot] | [Hsr Hv]].
  - destruct Hkn as [[_ ->] | [Hn _]]; [| by destruct (Hn Hroot)].
    assert (New (mkID stateRoot owner root) db = Val (inr (mkTrie Nil owner false 0 (mkReader owner None None) newTracer))) as ->.
    { unfold New, newTrieReader. cbn [StateRoot Owner Root]. by rewrite !decide_True by done. }
    eexists. split; [reflexivity |]. split; [done |]. split_and!; [apply represents_empty | |]; cbn [t_reader]; [by intros p h n _ (b & Hb & _) | by intros p h b Hb].
  - destruct (Hdb stateRoot Hv) as (rd & Hrd & Hreads). unfold no_root in Hsr.
    set (rd0 := mkReader owner (Some rd) None). assert (forall p x b, reader_node rd0 p x = inr b <-> reader_node (over V) p x = inr b) as Hsame.
    { intros p x b. rewrite over_node. unfold reader_node. cbn. split.
      - destruct (rd owner p x) as [e | [| y l]] eqn:Hx; [done | done |]. intros [= <-]. split; [by apply (Hreads owner p x) | done].
      - intros [Hb Hne]. apply (Hreads owner p x b Hne) in Hb. rewrite Hb. by destruct b. }
    assert (included rd0 (over V)) as Hle by (intros p x b; apply Hsame). assert (included (over V) rd0) as Hge by (intros p x b; apply Hsame).
    assert (sound keccak rd0) as Hs0. { intros p x n Hp Hx Hl Hlk. eapply WF_grow; [exact Hge | done |]. apply (Hs p x); [done | by eapply resolves_grow | done | done]. }
    destruct Hkn as [[Hroot ->] | (Hroot & (h & -> & Hh & Hw & Hc) & Hkeys)]; unfold no_root in Hroot.
    + assert (New (mkID stateRoot owner root) db = Val (inr (mkTrie Nil owner false 0 rd0 newTracer))) as ->.
      { unfold New, newTrieReader. cbn [StateRoot Owner Root]. rewrite decide_False by done. rewrite Hrd. by rewrite decide_True by done. }
      eexists. split; [reflexivity |]. split; [done |]. split_and!; [apply represents_empty | done | done].
    + pose proof (WF_grow keccak (over V) rd0 Hge _ _ Hs Hw) as Hw0. inversion Hw0 as [| | | ? ? n _ Hres Hl Hwn Hlk]; subst.
      destruct (resolves_run rd0 h [] n newTracer Hres) as (tr' & Hrun).
      assert (New (mkID stateRoot owner (BytesToHash h)) db = Val (inr (mkTrie n owner false 0 rd0 tr'))) as ->.
      { unfold New, newTrieReader. cbn [StateRoot Owner Root]. rewrite decide_False by done. rewrite Hrd, Hh. rewrite decide_False by done. fold rd0. unfold on_trie. cbn [t_tracer]. by rewrite Hrun. }
      eexists. split; [reflexivity |]. split; [done |]. split_and!; [| done | done]. split; cbn [committed t_reader root]; [done | by right | | done].
      eapply content_same; [| exact Hc]. intros k v. rewrite <- (Has_hash_inv rd0 [] h n k v Hres). by eapply Has_same.
Qed.

Lemma known_opens V root m : known V root m -> opens_at V root root.
Proof using Type.
  clear. intros [[Hr _] | (Hr & (h & -> & _ & Hw & _) & _)]; [by left | right; split; [done |]]. inversion Hw as [| | | ? ? n0 _ (b0 & [Hb0 _]%over_node & _) _ _ _]; subst. by eexists.
Qed.

Lemma open_spec db V root m : sound keccak (over V) -> serves db V -> known V root m ->
  exists t, New (TrieID root) db = Val (inr t) /\ represents keccak t m /\ sound keccak (t_reader t) /\ included (t_reader t) (over V).
Proof using Type.
  clear. intros Hs Hdb Hkn. destruct (open_id db V root 0 root m Hs Hdb Hkn (known_opens _ _ _ Hkn)) as (t & Hrun & _ & Ht). by exists t.
Qed.

(** ** A round *)

(** The reader and the owner stay. *)
Definition same_place (t t' : Trie) : Prop := t_reader t' = t_reader t /\ owner t' = owner t.

Lemma on_trie_place {A} (t : Trie) (op : T A) a t' : on_trie t op = Val (a, t') -> same_place t t'.
Proof using Type. clear. unfold on_trie. destruct (op (t_tracer t)) as [[x tr] | |]; cbn; [| done | done]. by intros [= _ <-]. Qed.

Lemma changed_place (t : Trie) (op : T (bool * node * option trieErr)) err t' :
  ('(_, n, err, t) ← on_trie t op; match err with Some _ => mret (err, t) | None => mret (None, with_root t n) end) = Val (err, t') -> same_place t t'.
Proof using Type.
  clear. destruct (on_trie t op) as [[[[d n] e] t1] | |] eqn:E; cbn; [| done | done]. apply on_trie_place in E. by destruct e; intros [= _ <-].
Qed.

Lemma run_op_place fuel t o v e t' : run_op fuel t o = Val (v, e, t') -> same_place t t'.
Proof using Type.
  clear. destruct o as [k | k w | k]; cbn [run_op].
  - unfold Get. destruct (committed t); [by intros [= _ _ <-] |]. destruct (on_trie _ _) as [[[[[x n] b] err] t1] | |] eqn:E; cbn; [| done | done]. apply on_trie_place in E.
    destruct err, b; by intros [= _ _ <-].
  - unfold Update. destruct (committed t); [by intros [= _ _ <-] |]. destruct (update fuel t k w) as [[err t1] | |] eqn:E; cbn; [| done | done]. intros [= _ _ <-].
    unfold update in E. destruct (negb _); apply changed_place in E; exact E.
  - unfold Delete. destruct (committed t); [by intros [= _ _ <-] |]. match goal with |- (?run ≫= _) = _ -> _ => destruct run as [[err t1] | |] eqn:E end; cbn; [| done | done]. intros [= _ _ <-].
    apply changed_place in E. exact E.
Qed.

Lemma run_ops_place fuel ops : forall t a t', run_ops fuel t ops = Val (a, t') -> same_place t t'.
Proof using Type.
  clear. induction ops as [| o ops IH]; intros t a t'; cbn [run_ops]; [by intros [= _ <-] |].
  destruct (run_op fuel t o) as [[[v e] t1] | |] eqn:E; cbn [mbind res_bind]; [| done | done]. destruct (run_ops fuel t1 ops) as [[vs t2] | |] eqn:E2; cbn [mbind res_bind mret res_ret]; [| done | done].
  intros [= _ <-]. destruct (IH _ _ _ E2) as [Hr Ho], (run_op_place _ _ _ _ _ _ E) as [Hr' Ho']. split; congruence.
Qed.

(** The trie is opened at a root, changed and committed. *)
Definition trie_round (fuel : nat) (db : Z -> string + Reader) (root : Z) (ops : list trie_op) :
    res (trieErr + list (option bytes * option trieErr) * Z * option NodeSet) :=
  r ← New (TrieID root) db;
  match r with
  | inl e => mret (inl e)
  | inr t =>
      '(answers, t) ← run_ops fuel t ops;
      '(root, s, _) ← of_outcome (Commit keccak t false);
      mret (inr (answers, root, s))
  end.

(** The nodes of the store are sound, and none has the name of the empty trie. *)
Record store_ok (V : store_map) : Prop := {
  so_sound : sound keccak (over V);
  so_names : forall root, no_root root -> V root = None
}.

Lemma store_ok_empty V : (forall k, V k = None) -> store_ok V.
Proof using Type. clear. intros HV. split; [| by intros root _]. intros p h n _ (b & [Hb _]%over_node & _). by rewrite HV in Hb. Qed.

Lemma store_ok_ext V V' : (forall k, V' k = V k) -> store_ok V -> store_ok V'.
Proof using Type.
  clear keccak_length keccak_bytes rlpe rlpl. intros He [Hs Hn]. split; [| intros root Hr; rewrite He; by apply Hn].
  intros p h n Hp Hr Hl Hlk. apply (WF_grow keccak (over V) (over V')); [apply over_included; intros k b; by rewrite He | done |].
  apply (Hs p h); [done | | done | done]. eapply resolves_grow; [| exact Hr]. apply over_included. intros k b. by rewrite He.
Qed.

Lemma names_grow V V' Ns : (forall root, no_root root -> V root = None) -> grows V V' Ns -> forall root, no_root root -> V' root = None.
Proof using Type.
  clear. intros Hn [_ _ Honly Hnames] root Hr. destruct (V' root) as [b |] eqn:Hb; [| done]. exfalso. destruct (Honly _ _ Hb) as [HV | (nd & Hnd & <- & _)]; [by rewrite Hn in HV |].
  destruct (Hnames nd Hnd). by destruct Hr.
Qed.

Lemma store_grows V V' Ns : store_ok V -> grows V V' Ns -> Forall (from_trie V) Ns -> store_ok V'.
Proof using keccak_length keccak_bytes rlpe rlpl. intros [Hs Hn] Hg Hf. split; [by eapply sound_grows | by eapply names_grow]. Qed.

(** What a round gives, and what the store it is added to knows. *)
Record round_post (V : store_map) (root' : Z) (s : option NodeSet) (m' : gmap bytes bytes) : Prop := {
  rd_fresh : from_trie V (set_nodes s);
  rd_adds : forall V', adds V V' s -> store_ok V' /\ known V' root' m'
}.

Lemma empty_content rd m : content rd Nil m -> (forall key v, m !! key = Some v -> Forall is_byte key) -> m = ∅.
Proof using Type.
  clear. intros Hc Hk. apply map_eq. intros key. rewrite lookup_empty. destruct (m !! key) as [v |] eqn:Hv; [| done]. exfalso.
  apply (Has_nil rd [] (keybytesToHex key) v). apply Hc. exists key. split_and!; [by eapply Hk | done | done].
Qed.

(** The trie that was committed is known where its nodes are. *)
Lemma committed_known t m N Ns V V' h : represents keccak t m -> sound keccak (t_reader t) -> included (t_reader t) (over V) -> grows V V' Ns -> N ∈ Ns ->
  (forall root, no_root root -> V' root = None) -> commits (t_reader t) (root t) h N -> known V' (BytesToHash h) m.
Proof using keccak_length keccak_bytes.
  clear rlpe rlpl. intros [_ _ Hc Hk] Hs Hle Had HN Hn [_ [e ->] Ho]. pose proof (over_included V V' (ad_keeps _ _ _ Had)) as HleV.
  destruct (Ho (over V') Hs) as [Hw Hh].
  - intros p x b Hb. by apply HleV, Hle.
  - intros q nd p Hq Hd. apply over_node. split; [apply (ad_has _ _ _ Had); by exists N, q |]. intros He. unfold IsDeleted in Hd. by rewrite He in Hd.
  - right. split_and!; [| | done].
    + intros Hno. inversion Hw as [| | | ? ? n _ (b & [Hb _]%over_node & _) _ _ _]; subst. by rewrite Hn in Hb.
    + exists (keccak e). split_and!; [done | by apply hash_bytes_of | done | by eapply content_same].
Qed.

(** [Commit]: its set comes from the trie, and with it the root is known. *)
Lemma Commit_known t m collectLeaf V : represents keccak t m -> sound keccak (t_reader t) -> included (t_reader t) (over V) ->
  exists s t', Commit keccak t collectLeaf = Ret (trie_root keccak t, s, t') /\ owned (owner t) s /\ from_trie V (set_nodes s) /\
    forall V' Ns, grows V V' Ns -> set_nodes s ∈ Ns -> (forall root, no_root root -> V' root = None) -> known V' (trie_root keccak t) m.
Proof using keccak_length keccak_bytes rlpe rlpl.
  intros Hrep Hs Hle. destruct (Commit_spec t m collectLeaf Hrep) as (s & t' & Hrun & Hown & Hcase). exists s, t'. split; [done |]. split; [done |]. destruct Hcase as [[He Hdel] | (Hne & h & -> & Hc)].
  - split; [by apply deletions_only |]. intros V' Ns _ _ _. left. unfold trie_root. rewrite He. split; [by right |]. destruct Hrep as [_ _ Hc Hk]. rewrite He in Hc. by eapply empty_content.
  - split; [exists (t_reader t); split_and!; [done | done | by apply (cm_nodes _ _ _ _ Hc)] |]. intros V' Ns Hg HN Hn. by eapply committed_known.
Qed.

Lemma round_spec fuel db V root m ops : store_ok V -> serves db V -> known V root m -> Forall (op_ok fuel) ops ->
  exists root' s, trie_round fuel db root ops = Val (inr (map (fun v => (v, None)) (map_ops m ops).1, root', s)) /\ round_post V root' s (map_ops m ops).2.
Proof using keccak_length keccak_bytes rlpe rlpl.
  intros [HsV HnV] Hdb Hkn Hops. destruct (open_spec db V root m HsV Hdb Hkn) as (t & Hopen & Hrep & Hs & Hle).
  destruct (run_ops_spec keccak fuel t m ops Hrep Hops) as (t' & Hrun & Hrep'). destruct (run_ops_place _ _ _ _ _ Hrun) as [Hrd _].
  rewrite <- Hrd in Hs, Hle. destruct (Commit_known t' _ false V Hrep' Hs Hle) as (s & t'' & Hcm & _ & Hfrom & Hkn'). exists (trie_root keccak t'), s. split.
  - unfold trie_round. rewrite Hopen. cbn [mbind res_bind]. rewrite Hrun. cbn [mbind res_bind]. by rewrite Hcm.
  - split; [done |]. intros V' Had. assert (store_ok V') as Hst' by (eapply store_grows; [by split | exact Had | by repeat constructor]).
    split; [done |]. eapply Hkn'; [exact Had | left | apply Hst'].
Qed.
End History.
