(* ===== verification/HashDB.v ===== *)
(** * The node database

    Models [vm/triedb/hashdb/database.go], the write layer between the tries and the disk: the nodes not yet written
    ([dirties]) with their reference counts and the list in which they are flushed, [insert], [node], [Reference],
    [Dereference], [Cap], [Commit] with the replay that uncaches what was written, [Update] and [Reader]; with
    [ForGatherChildren] of [vm/trie/commiter.go], and the node sets of several tries ([trienode/node.go]).

    The flush list is linked through the map, as in the code; a link to a node that is not there is a nil pointer. The
    chain configures no clean cache, so [cleans] is nil and is left out. [StorageSize] is a float64 that holds whole
    numbers. A batch is written at once; [full] tells when one is big enough to be written, and [fails] whether writing
    it to that disk fails. The recursions follow hashes, so they run on fuel. *)
From Stdlib Require Import ZArith Lia.
From stdpp Require Import base gmap strings list sorting fin_maps.
From S2P Require Import Prelude Utils JournalTypes Core TrieEncoding Trie TrieHash.

(** ** Children of a stored node *)

Section Gather.
Context `{rlp : RLP}.

Fixpoint forGatherChildren (n : node) : list Z :=
  match n with
  | shortNode _ v _ => forGatherChildren v
  | fullNode cs _ =>
      (fix first (i : nat) (cs : list node) : list Z :=
         match i, cs with S i, c :: cs => forGatherChildren c ++ first i cs | _, _ => [] end) 16%nat cs
  | hashNode h => [BytesToHash h]
  | valueNode _ | Nil => []
  end.

Definition ForGatherChildren (blob : bytes) : res (list Z) := n ← mustDecodeNode None blob; mret (forGatherChildren n).
End Gather.

(** ** State *)

Record cachedNode := mkCached { cn_node : bytes; parents : Z; external : gset Z; flushPrev : Z; flushNext : Z }.

Abbreviation Disk := (gmap Z bytes).

Record Database := mkDatabase {
  diskdb : Disk; dirties : gmap Z cachedNode; oldest : Z; newest : Z; dirtiesSize : Z; childrenSize : Z
}.

Definition New_hashdb (d : Disk) : Database := mkDatabase d ∅ 0 0 0 0.

Definition u32 (z : Z) : Z := z mod 2 ^ 32.

Definition set_prev (h : Z) (n : cachedNode) : cachedNode := mkCached (cn_node n) (parents n) (external n) h (flushNext n).
Definition set_next (h : Z) (n : cachedNode) : cachedNode := mkCached (cn_node n) (parents n) (external n) (flushPrev n) h.
Definition set_parents (p : Z) (n : cachedNode) : cachedNode := mkCached (cn_node n) p (external n) (flushPrev n) (flushNext n).
Definition add_external (h : Z) (n : cachedNode) : cachedNode := mkCached (cn_node n) (parents n) ({[h]} ∪ external n) (flushPrev n) (flushNext n).

Definition with_dirties (m : gmap Z cachedNode) (db : Database) : Database :=
  mkDatabase (diskdb db) m (oldest db) (newest db) (dirtiesSize db) (childrenSize db).
Definition with_ends (o n : Z) (db : Database) : Database := mkDatabase (diskdb db) (dirties db) o n (dirtiesSize db) (childrenSize db).
Definition with_sizes (d c : Z) (db : Database) : Database := mkDatabase (diskdb db) (dirties db) (oldest db) (newest db) d c.
Definition with_disk (d : Disk) (db : Database) : Database :=
  mkDatabase d (dirties db) (oldest db) (newest db) (dirtiesSize db) (childrenSize db).

(** [db.dirties[h].f = ...]: a missing node is a nil pointer. *)
Definition modify (h : Z) (f : cachedNode -> cachedNode) (db : Database) : res Database :=
  match dirties db !! h with
  | None => Crash "nil dereference"
  | Some n => Val (with_dirties (<[h := f n]> (dirties db)) db)
  end.

Definition HashLength : Z := 32.

Section HashDB.
Context `{rlp : RLP} (full : list (Z * bytes) -> bool) (fails : Disk -> list (Z * bytes) -> bool) (fuel : nat).

(** [forChildren]: the external children, in the order of a map range, then those in the node. *)
Definition forChildren (n : cachedNode) : res (list Z) := l ← ForGatherChildren (cn_node n); mret (elements (external n) ++ l).

(** ** Reading *)

Definition db_node (db : Database) (hash : Z) : option bytes :=
  if hash =? 0 then None else
  match dirties db !! hash with
  | Some n => Some (cn_node n)
  | None => match diskdb db !! hash with Some (b :: enc) => Some (b :: enc) | _ => None end
  end.

(** [Reader], and the [Node] of the reader, which never gives an error. *)
Definition Reader_of (db : Database) (root : Z) : string + Trie.Reader :=
  match db_node db root with
  | None => inl "state is not available"
  | Some _ => inr (fun _ _ hash => inr (default [] (db_node db hash)))
  end.

Definition Initialized (db : Database) (genesisRoot : Z) : bool := bool_decide (is_Some (diskdb db !! genesisRoot)).

(** [cachedNodeSize] is the size of the struct, an argument. *)
Definition db_Size (cachedNodeSize : Z) (db : Database) : Z * Z := (0, dirtiesSize db + childrenSize db + zlen (map_to_list (dirties db)) * cachedNodeSize).

(** ** Inserting and referencing *)

Definition count_parent (m : gmap Z cachedNode) (child : Z) : gmap Z cachedNode :=
  match m !! child with Some c => <[child := set_parents (u32 (parents c + 1)) c]> m | None => m end.

Definition db_insert (db : Database) (hash : Z) (blob : bytes) : res Database :=
  match dirties db !! hash with
  | Some _ => Val db
  | None =>
      let entry := mkCached blob 0 ∅ (newest db) 0 in
      children ← forChildren entry;
      let db := with_dirties (<[hash := entry]> (foldl count_parent (dirties db) children)) db in
      db ← (if oldest db =? 0 then Val (with_ends hash hash db)
            else db1 ← modify (newest db) (set_next hash) db; Val (with_ends (oldest db1) hash db1));
      Val (with_sizes (dirtiesSize db + (HashLength + zlen blob)) (childrenSize db) db)
  end.

Definition reference (db : Database) (child parent : Z) : res Database :=
  match dirties db !! child with
  | None => Val db
  | Some n =>
      if parent =? 0 then Val (with_dirties (<[child := set_parents (u32 (parents n + 1)) n]> (dirties db)) db) else
      match dirties db !! parent with
      | None => Crash "nil dereference"
      | Some p =>
          if decide (child ∈ external p) then Val db else
          db1 ← modify child (set_parents (u32 (parents n + 1))) db;
          db2 ← modify parent (add_external child) db1;
          Val (with_sizes (dirtiesSize db2) (childrenSize db2 + HashLength) db2)
      end
  end.

(** ** Removing *)

(** The [switch] that takes a node out of the flush list, in [dereference] and in [cleaner.Put]. *)
Definition unlink (hash : Z) (n : cachedNode) (db : Database) : res Database :=
  if hash =? oldest db then
    let db := with_ends (flushNext n) (newest db) db in
    if flushNext n =? 0 then Val db else modify (flushNext n) (set_prev 0) db
  else if hash =? newest db then
    let db := with_ends (oldest db) (flushPrev n) db in
    if flushPrev n =? 0 then Val db else modify (flushPrev n) (set_next 0) db
  else db1 ← modify (flushPrev n) (set_next (flushNext n)) db; modify (flushNext n) (set_prev (flushPrev n)) db1.

(** The node leaves the cache, and the sizes shrink. *)
Definition forget (hash : Z) (n : cachedNode) (db : Database) : Database :=
  with_sizes (dirtiesSize db - (HashLength + zlen (cn_node n))) (childrenSize db - Z.of_nat (size (external n)) * HashLength)
    (with_dirties (base.delete hash (dirties db)) db).

Fixpoint dereference (fuel : nat) (db : Database) (hash : Z) : res Database :=
  match fuel with
  | O => Spin
  | S fuel =>
      match dirties db !! hash with
      | None => Val db
      | Some n =>
          let n := if 0 <? parents n then set_parents (parents n - 1) n else n in
          let db := with_dirties (<[hash := n]> (dirties db)) db in
          if parents n =? 0 then
            db ← unlink hash n db;
            children ← forChildren n;
            db ← foldl (fun r child => db ← r; dereference fuel db child) (Val db) children;
            Val (forget hash n db)
          else Val db
      end
  end.

Definition Dereference (db : Database) (root : Z) : res Database := if root =? 0 then Val db else dereference fuel db root.

(** [cleaner.Put]: what was written leaves the cache. *)
Definition Put (db : Database) (hash : Z) : res Database :=
  match dirties db !! hash with
  | None => Val db
  | Some n => db ← unlink hash n db; Val (forget hash n db)
  end.

Definition Replay (db : Database) (batch : list (Z * bytes)) : res Database := foldl (fun r kv => db ← r; Put db kv.1) (Val db) batch.

(** ** Writing *)

Definition write_batch (d : Disk) (batch : list (Z * bytes)) : Disk := foldl (fun d kv => <[kv.1 := kv.2]> d) d batch.

(** The database, the batch that is being filled, and the disks there were after each write. *)
Record Writing := mkWriting { wr_db : Database; wr_batch : list (Z * bytes); wr_disks : list Disk }.

(** [batch.Write()]: [None] is an error. *)
Definition Write (w : Writing) : option Writing :=
  if fails (diskdb (wr_db w)) (wr_batch w) then None
  else let d := write_batch (diskdb (wr_db w)) (wr_batch w) in Some (mkWriting (with_disk d (wr_db w)) (wr_batch w) (wr_disks w ++ [d])).

(** Write, replay, reset. *)
Definition flush_batch (w : Writing) : res (Writing * bool) :=
  match Write w with
  | None => Val (w, false)
  | Some w => db ← Replay (wr_db w) (wr_batch w); Val (mkWriting db [] (wr_disks w), true)
  end.

(** The flag tells that no error has happened. *)
Fixpoint db_commit (fuel : nat) (w : Writing) (hash : Z) : res (Writing * bool) :=
  match fuel with
  | O => Spin
  | S fuel =>
      match dirties (wr_db w) !! hash with
      | None => Val (w, true)
      | Some n =>
          children ← forChildren n;
          '(w, ok) ← foldl (fun r child => '(w, ok) ← r; if ok : bool then db_commit fuel w child else Val (w, ok)) (Val (w, true)) children;
          if negb ok then Val (w, false) else
          let w := mkWriting (wr_db w) (wr_batch w ++ [(hash, cn_node n)]) (wr_disks w) in
          if full (wr_batch w) then flush_batch w else Val (w, true)
      end
  end.

(** The disks after each write come with the result. *)
Definition db_Commit (db : Database) (root : Z) : res (Database * bool * list Disk) :=
  '(w, ok) ← db_commit fuel (mkWriting db [] []) root;
  if negb ok then Val (wr_db w, false, wr_disks w) else
  '(w, ok) ← flush_batch w;
  Val (wr_db w, ok, wr_disks w).

(** ** [Cap] *)

(** The first loop: what goes to disk, up to the node that stays the oldest. *)
Fixpoint cap_loop (cachedNodeSize limit : Z) (fuel : nat) (w : Writing) (size_ oldest_ : Z) : res (Writing * bool * Z) :=
  match fuel with
  | O => Spin
  | S fuel =>
      if (limit <? size_) && negb (oldest_ =? 0) then
        match dirties (wr_db w) !! oldest_ with
        | None => Crash "nil dereference"
        | Some n =>
            let w := mkWriting (wr_db w) (wr_batch w ++ [(oldest_, cn_node n)]) (wr_disks w) in
            let size_ := size_ - (HashLength + zlen (cn_node n) + cachedNodeSize) - Z.of_nat (size (external n)) * HashLength in
            if full (wr_batch w) then
              match Write w with
              | None => Val (w, false, oldest_)
              | Some w => cap_loop cachedNodeSize limit fuel (mkWriting (wr_db w) [] (wr_disks w)) size_ (flushNext n)
              end
            else cap_loop cachedNodeSize limit fuel w size_ (flushNext n)
        end
      else Val (w, true, oldest_)
  end.

(** The second loop: the nodes before [stop] leave the cache. *)
Fixpoint clear_loop (fuel : nat) (stop : Z) (db : Database) : res Database :=
  match fuel with
  | O => Spin
  | S fuel =>
      if oldest db =? stop then Val db else
      match dirties db !! oldest db with
      | None => Crash "nil dereference"
      | Some n => let db := forget (oldest db) n db in clear_loop fuel stop (with_ends (flushNext n) (newest db) db)
      end
  end.

Definition Cap (cachedNodeSize limit : Z) (db : Database) : res (Database * bool * list Disk) :=
  let size_ := dirtiesSize db + zlen (map_to_list (dirties db)) * cachedNodeSize + childrenSize db in
  '(w, ok, stop) ← cap_loop cachedNodeSize limit fuel (mkWriting db [] []) size_ (oldest db);
  if negb ok then Val (wr_db w, false, wr_disks w) else
  match Write w with
  | None => Val (wr_db w, false, wr_disks w)
  | Some w =>
      db ← clear_loop fuel stop (wr_db w);
      db ← (if oldest db =? 0 then Val db else modify (oldest db) (set_prev 0) db);
      Val (db, true, wr_disks w)
  end.

(** ** [Update] *)

(** [sort.Reverse(sort.StringSlice(paths))]: byte by byte, a longer path before its prefixes. *)
Fixpoint path_le (a b : bytes) : bool :=
  match a, b with
  | [], _ => true
  | _ :: _, [] => false
  | x :: a, y :: b => (x <? y) || ((x =? y) && path_le a b)
  end.

Definition ForEachWithOrder (s : NodeSet) : list (bytes * TrieHash.Node) :=
  merge_sort (fun a b => Is_true (path_le b.1 a.1)) (map_to_list (Nodes s)).

Definition insert_set (db : Database) (s : NodeSet) : res Database :=
  foldl (fun r pn => db ← r; if IsDeleted pn.2 then Val db else db_insert db (nd_Hash pn.2) (nd_Blob pn.2)) (Val db) (ForEachWithOrder s).

(** [account_root] is the [Root] of the account that [rlp.DecodeBytes] reads from a leaf, or its error. *)
Definition link_leaves (account_root : bytes -> string + Z) (db : Database) (l : list leaf) : res (Database * option string) :=
  foldl (fun r lf =>
    '(db, err) ← r;
    match err with
    | Some _ => Val (db, err)
    | None =>
        match account_root (lf_Blob lf) with
        | inl e => Val (db, Some e)
        | inr root => if root =? EmptyRootHash then Val (db, None) else db ← reference db root (lf_Parent lf); Val (db, None)
        end
    end) (Val (db, None)) l.

(** The storage tries first, in the order of a map range, then the trie of the accounts. *)
Definition db_Update (account_root : bytes -> string + Z) (db : Database) (sets : gmap Z NodeSet) : res (Database * option string) :=
  db ← foldl (fun r os => db ← r; insert_set db os.2) (Val db) (map_to_list (base.delete 0 sets));
  match sets !! 0 with
  | None => Val (db, None)
  | Some s => db ← insert_set db s; link_leaves account_root db (Leaves s)
  end.
End HashDB.

(** ** Merged node sets ([trienode/node.go]) *)

Definition merged_Merge (sets : gmap Z NodeSet) (other : NodeSet) : option (gmap Z NodeSet) :=
  match sets !! ns_Owner other with
  | Some subset => s ← set_Merge subset (ns_Owner other) (Nodes other); Some (<[ns_Owner other := s]> sets)
  | None => Some (<[ns_Owner other := other]> sets)
  end.

Definition NewWithNodeSet (s : NodeSet) : option (gmap Z NodeSet) := merged_Merge ∅ s.

(** ** The preimages ([triedb/preimages.go]) *)

Record preimageStore := mkPreimages { pre_disk : gmap Z bytes; preimages : gmap Z bytes; preimagesSize : Z }.

Definition newPreimageStore (d : gmap Z bytes) : preimageStore := mkPreimages d ∅ 0.

Definition add_preimage (hash : Z) (p : bytes) (s : preimageStore) : preimageStore :=
  match preimages s !! hash with
  | Some _ => s
  | None => mkPreimages (pre_disk s) (<[hash := p]> (preimages s)) (preimagesSize s + (HashLength + zlen p))
  end.

Definition insertPreimage (l : gmap Z bytes) (s : preimageStore) : preimageStore := map_fold add_preimage s l.

Definition preimage (s : preimageStore) (hash : Z) : option bytes :=
  match preimages s !! hash with Some p => Some p | None => pre_disk s !! hash end.

(** [fails] tells whether the batch cannot be written. *)
Definition preimage_commit (fails : preimageStore -> bool) (force : bool) (s : preimageStore) : preimageStore :=
  if (preimagesSize s <=? 4 * 1024 * 1024) && negb force then s else
  if fails s then s else mkPreimages (preimages s ∪ pre_disk s) ∅ 0.

(** ** The wrapper ([triedb/database.go])

    The backend is the node database: the chain configures no path database. The error of writing preimages is dropped. *)

Record TrieDatabase := mkTrieDB { td_preimages : option preimageStore; backend : Database }.

(** [Preimages] of the configuration decides whether there is a store. *)
Definition NewDatabase (Preimages : bool) (disk : Disk) (pre : gmap Z bytes) : TrieDatabase :=
  mkTrieDB (if Preimages then Some (newPreimageStore pre) else None) (New_hashdb disk).

Section TrieDB.
Context `{rlp : RLP} (full : list (Z * bytes) -> bool) (fails : Disk -> list (Z * bytes) -> bool) (pre_fails : preimageStore -> bool) (fuel : nat).

Definition with_backend (db : Database) (t : TrieDatabase) : TrieDatabase := mkTrieDB (td_preimages t) db.
Definition commit_preimages (force : bool) (t : TrieDatabase) : TrieDatabase :=
  mkTrieDB (preimage_commit pre_fails force <$> td_preimages t) (backend t).

Definition td_Reader (t : TrieDatabase) (root : Z) : string + Trie.Reader := Reader_of (backend t) root.

Definition td_Update (account_root : bytes -> string + Z) (t : TrieDatabase) (nodes : gmap Z NodeSet) : res (TrieDatabase * option string) :=
  let t := commit_preimages false t in
  '(db, err) ← db_Update account_root (backend t) nodes; mret (with_backend db t, err).

Definition td_Commit (t : TrieDatabase) (root : Z) : res (TrieDatabase * bool * list Disk) :=
  let t := commit_preimages true t in
  '(db, ok, ds) ← db_Commit full fails fuel (backend t) root; mret (with_backend db t, ok, ds).

Definition td_Cap (cachedNodeSize limit : Z) (t : TrieDatabase) : res (TrieDatabase * bool * list Disk) :=
  let t := commit_preimages false t in
  '(db, ok, ds) ← Cap full fails fuel cachedNodeSize limit (backend t); mret (with_backend db t, ok, ds).

Definition td_Size (cachedNodeSize : Z) (t : TrieDatabase) : Z * Z * Z :=
  let '(diffs, nodes) := db_Size cachedNodeSize (backend t) in (diffs, nodes, match td_preimages t with Some s => preimagesSize s | None => 0 end).

Definition WritePreimages (t : TrieDatabase) : TrieDatabase := commit_preimages true t.
Definition td_Close (t : TrieDatabase) : TrieDatabase := WritePreimages t.
Definition Preimage (t : TrieDatabase) (hash : Z) : option bytes := s ← td_preimages t; preimage s hash.
Definition InsertPreimage (l : gmap Z bytes) (t : TrieDatabase) : TrieDatabase := mkTrieDB (insertPreimage l <$> td_preimages t) (backend t).
Definition td_Reference (t : TrieDatabase) (root parent : Z) : res TrieDatabase := db ← reference (backend t) root parent; mret (with_backend db t).
Definition td_Dereference (t : TrieDatabase) (root : Z) : res TrieDatabase := db ← Dereference fuel (backend t) root; mret (with_backend db t).
End TrieDB.
