(* ===== verification/HashDBProofs.v ===== *)
(** * The node database: theorems

    The flush list is a list, the children of a node that is not written come before it or are on disk, and the disk is
    closed: a node on it has its children on it. Inserting, capping and committing keep all of this at every moment a
    write ends; they do not change what any hash reads as; and a commit leaves nothing of its trie in memory. *)
From Stdlib Require Import ZArith Lia.
From stdpp Require Import base gmap strings list sorting fin_maps.
From S2P Require Import Prelude Utils JournalTypes Core TrieEncoding Trie TrieHash HashDB.

(** ** The flush list *)

(** [seg m p L q]: the nodes of [L] are linked in this order, the one before the first is [p], if that is known, and the
    one after the last is [q]. *)
Fixpoint seg (m : gmap Z cachedNode) (p : option Z) (L : list Z) (q : Z) : Prop :=
  match L with
  | [] => True
  | a :: L => exists n, m !! a = Some n /\ (match p with Some b => flushPrev n = b | None => True end) /\ flushNext n = hd q L /\ seg m (Some a) L q
  end.

Definition last_or (p : option Z) (L : list Z) : option Z := match last L with Some x => Some x | None => p end.

Lemma last_or_cons p a L : last_or p (a :: L) = last_or (Some a) L.
Proof. unfold last_or. rewrite last_cons. by destruct (last L). Qed.

Lemma hd_app (q : Z) l1 l2 : hd q (l1 ++ l2) = hd (hd q l2) l1.
Proof. by destruct l1. Qed.

Lemma seg_app m L1 : forall p L2 q, seg m p (L1 ++ L2) q <-> seg m p L1 (hd q L2) /\ seg m (last_or p L1) L2 q.
Proof.
  induction L1 as [| a L1 IH]; intros p L2 q; cbn [app seg]; [unfold last_or; cbn; tauto |]. rewrite last_or_cons, hd_app. split.
  - intros (n & H1 & H2 & H3 & H4). apply IH in H4 as [H4 H5]. split; [by exists n | done].
  - intros [(n & H1 & H2 & H3 & H4) H5]. exists n. split_and!; [done.. |]. by apply IH.
Qed.

Lemma seg_ext m m' p L q : (forall a n, a ∈ L -> m !! a = Some n -> exists n', m' !! a = Some n' /\ flushPrev n' = flushPrev n /\ flushNext n' = flushNext n) ->
  seg m p L q -> seg m' p L q.
Proof.
  revert p. induction L as [| a L IH]; intros p Hm; cbn; [done |]. intros (n & H1 & H2 & H3 & H4).
  destruct (Hm a n) as (n' & H1' & Hp & Hn); [left | done |]. exists n'. rewrite Hp, Hn. split_and!; [done.. |].
  apply IH; [| done]. intros b nb Hb. apply Hm. by right.
Qed.

Lemma seg_frame m p L q a x : a ∉ L -> seg m p L q -> seg (<[a := x]> m) p L q.
Proof. intros Ha. apply seg_ext. intros b n Hb Hn. exists n. rewrite lookup_insert_ne by (intros ->; done). done. Qed.

Lemma seg_delete m p L q a : a ∉ L -> seg m p L q -> seg (base.delete a m) p L q.
Proof. intros Ha. apply seg_ext. intros b n Hb Hn. exists n. rewrite lookup_delete_ne by (intros ->; done). done. Qed.

Lemma seg_set_prev m p p' a L q n : a ∉ L -> m !! a = Some n -> seg m p (a :: L) q -> seg (<[a := set_prev p' n]> m) (Some p') (a :: L) q.
Proof.
  intros Ha Hn (x & Hx & _ & H3 & H4). rewrite Hn in Hx. injection Hx as <-. exists (set_prev p' n).
  rewrite lookup_insert_eq. split_and!; [done.. |]. by apply seg_frame.
Qed.

Lemma seg_any_prev m p L q : seg m p L q -> seg m None L q.
Proof. destruct L as [| a L]; [done |]. intros (n & H1 & _ & H3 & H4). exists n. done. Qed.

Lemma seg_set_next m p L a q q' n : NoDup (L ++ [a]) -> m !! a = Some n -> seg m p (L ++ [a]) q -> seg (<[a := set_next q' n]> m) p (L ++ [a]) q'.
Proof.
  intros Hnd Hn. apply NoDup_app in Hnd as (_ & Hd & _). rewrite !seg_app. cbn [hd]. intros [H1 (x & Hx & Hp & _ & _)].
  rewrite Hn in Hx. injection Hx as <-. split; [apply seg_frame; [| done]; intros Ha; apply (Hd a Ha); left |].
  exists (set_next q' n). rewrite lookup_insert_eq. done.
Qed.

Lemma seg_lookup m p L q a : seg m p L q -> a ∈ L -> is_Some (m !! a).
Proof.
  revert p. induction L as [| b L IH]; intros p Hs Ha; [by apply not_elem_of_nil in Ha |]. destruct Hs as (n & H1 & _ & _ & H4).
  apply elem_of_cons in Ha as [-> | Ha]; [eauto | by eapply IH].
Qed.

(** The list [L] is the flush list of the database. *)
Record list_ok (db : Database) (L : list Z) : Prop := {
  lo_nodup : NoDup L;
  lo_nonzero : 0 ∉ L;
  lo_dom : forall h, h ∈ L <-> is_Some (dirties db !! h);
  lo_oldest : oldest db = hd 0 L;
  lo_newest : forall h, last L = Some h -> newest db = h;
  lo_links : seg (dirties db) None L 0
}.

(** What a node is, apart from its links and its count. *)
Definition content (n : cachedNode) : bytes * gset Z := (cn_node n, external n).
Definition contents (db : Database) (h : Z) : option (bytes * gset Z) := content <$> dirties db !! h.

Lemma modify_ok h f db n : dirties db !! h = Some n -> modify h f db = Val (with_dirties (<[h := f n]> (dirties db)) db).
Proof. unfold modify. by intros ->. Qed.

Lemma relink db db' h f n : dirties db !! h = Some n -> content (f n) = content n -> dirties db' = <[h := f n]> (dirties db) -> forall k, contents db' k = contents db k.
Proof.
  intros Hn Hf Hd k. unfold contents. rewrite Hd. destruct (decide (k = h)) as [-> | Hne]; [rewrite lookup_insert_eq, Hn; cbn; by rewrite Hf | by rewrite lookup_insert_ne].
Qed.

Lemma contents_dirty db db' k : contents db' k = contents db k -> is_Some (dirties db' !! k) <-> is_Some (dirties db !! k).
Proof. unfold contents. intros H. rewrite <- (fmap_is_Some content), H. apply fmap_is_Some. Qed.

(** What is left of the list when a node is out of it. *)
Lemma unlinked db db' l1 h l2 n : list_ok db (l1 ++ h :: l2) -> (forall k, contents db' k = contents db k) -> oldest db' = hd 0 (l1 ++ l2) ->
  (forall y, last (l1 ++ l2) = Some y -> newest db' = y) -> seg (dirties db') None (l1 ++ l2) 0 -> list_ok (forget h n db') (l1 ++ l2).
Proof.
  intros [Hnd Hnz Hdom _ _ _] Hc Hold Hnew Hseg. apply NoDup_app in Hnd as (Hnd1 & Hdisj & Hnd2). apply NoDup_cons in Hnd2 as [Hh2 Hnd2].
  assert (h ∉ l1) as Hh1 by (intros Hx; apply (Hdisj h Hx); left). constructor; [| | | done | done |].
  - apply NoDup_app. split_and!; [done | | done]. intros x Hx Hx2. apply (Hdisj x Hx). by right.
  - rewrite elem_of_app in *. intros [H | H]; apply Hnz; [by left | right; by right].
  - intros k. cbn. rewrite elem_of_app. destruct (decide (k = h)) as [-> | Hne].
    + rewrite lookup_delete_eq. split; [intros [H | H]; done | by intros [? ?]].
    + rewrite lookup_delete_ne, (contents_dirty db) by done. rewrite <- Hdom, elem_of_app, elem_of_cons. naive_solver.
  - apply seg_delete; [by rewrite not_elem_of_app | done].
Qed.

(** The three cases of the [switch]. *)
Lemma unlink_oldest db h l2 n : list_ok db (h :: l2) -> dirties db !! h = Some n ->
  exists db', unlink h n db = Val db' /\ list_ok (forget h n db') l2 /\ diskdb db' = diskdb db /\ (forall k, contents db' k = contents db k).
Proof.
  intros Hok Hn. pose proof Hok as [Hnd Hnz Hdom Hold Hnew (x & Hx & _ & Hnext & Hs2)]. rewrite Hn in Hx. injection Hx as <-. cbn [hd] in Hold.
  unfold unlink. rewrite Hold, Z.eqb_refl, Hnext. destruct l2 as [| b l2]; cbn [hd].
  - eexists. split; [reflexivity |]. split; [| done]. by apply (unlinked db _ []).
  - assert (b <> 0) as Hb0 by (intros ->; apply Hnz; right; left). rewrite (proj2 (Z.eqb_neq b 0)) by done.
    pose proof Hs2 as (nb & Hb & _). rewrite (modify_ok _ _ _ nb) by done. eexists. split; [reflexivity |].
    apply NoDup_cons in Hnd as [Hh Hnd]. apply NoDup_cons in Hnd as [Hbl2 _].
    assert (forall k, contents (with_dirties (<[b := set_prev 0 nb]> (dirties db)) (with_ends b (newest db) db)) k = contents db k) as Hc by (by apply (relink _ _ b (set_prev 0) nb)).
    split; [| done]. apply (unlinked db _ []); [done.. | |].
    + intros y Hy. apply Hnew. cbn [app] in Hy. by rewrite last_cons, Hy.
    + apply seg_any_prev with (p := Some 0). by apply seg_set_prev with (p := Some h).
Qed.

Lemma unlink_newest db l1 a h n : list_ok db (l1 ++ [a; h]) -> dirties db !! h = Some n -> oldest db <> h ->
  exists db', unlink h n db = Val db' /\ list_ok (forget h n db') (l1 ++ [a]) /\ diskdb db' = diskdb db /\ (forall k, contents db' k = contents db k).
Proof.
  intros Hok Hn Ho. pose proof Hok as [Hnd Hnz Hdom Hold Hnew Hseg]. unfold unlink. rewrite (proj2 (Z.eqb_neq h (oldest db))) by done.
  change [a; h] with ([a] ++ [h]) in *. rewrite app_assoc in *. rewrite (Hnew h) by (by rewrite last_snoc). rewrite Z.eqb_refl.
  apply seg_app in Hseg as [Hs1 (x & Hx & Hp & _)]. rewrite Hn in Hx. injection Hx as <-. unfold last_or in Hp. rewrite last_snoc in Hp. rewrite Hp.
  pose proof Hs1 as Hs1'. apply seg_app in Hs1' as [_ (na & Ha & _)].
  assert (a <> 0) as Ha0. { intros ->. apply Hnz. rewrite !elem_of_app. left. right. left. }
  rewrite (proj2 (Z.eqb_neq a 0)), (modify_ok _ _ _ na) by done. eexists. split; [reflexivity |].
  assert (forall k, contents (with_dirties (<[a := set_next 0 na]> (dirties db)) (with_ends (oldest db) a db)) k = contents db k) as Hc by (by apply (relink _ _ a (set_next 0) na)).
  split; [| done]. rewrite <- (app_nil_r (l1 ++ [a])). apply (unlinked db); [done.. | | |]; rewrite app_nil_r.
  - cbn. rewrite Hold, !hd_app. by destruct l1.
  - intros y Hy. rewrite last_snoc in Hy. by injection Hy.
  - apply NoDup_app in Hnd as (Hnd & _ & _). by apply seg_set_next with (q := h).
Qed.

Lemma unlink_between db l1 a h b l2 n : list_ok db (l1 ++ a :: h :: b :: l2) -> dirties db !! h = Some n -> oldest db <> h ->
  exists db', unlink h n db = Val db' /\ list_ok (forget h n db') (l1 ++ a :: b :: l2) /\ diskdb db' = diskdb db /\ (forall k, contents db' k = contents db k).
Proof.
  intros Hok Hn Ho. pose proof Hok as [Hnd Hnz Hdom Hold Hnew Hseg]. unfold unlink. rewrite (proj2 (Z.eqb_neq h (oldest db))) by done.
  change (l1 ++ a :: h :: b :: l2) with (l1 ++ [a] ++ h :: b :: l2) in *. change (l1 ++ a :: b :: l2) with (l1 ++ [a] ++ b :: l2). rewrite app_assoc in *.
  pose proof Hnd as Hnd'. apply NoDup_app in Hnd' as (Hnd1 & Hdisj & Hnd2). apply NoDup_cons in Hnd2 as [Hh2 Hnd2]. apply NoDup_cons in Hnd2 as [Hb2 Hnd2].
  apply seg_app in Hseg as [Hs1 (x & Hx & Hp & Hnext & Hs2)]. rewrite Hn in Hx. injection Hx as <-. unfold last_or in Hp. rewrite last_snoc in Hp. cbn [hd] in Hnext.
  assert (last (b :: l2) <> None) as Hl by (rewrite last_cons; by destruct (last l2)).
  rewrite (proj2 (Z.eqb_neq h (newest db))).
  2: { intros He. destruct (last (b :: l2)) as [y |] eqn:Ey; [| done]. rewrite (Hnew y) in He by (rewrite last_app, last_cons, Ey; done). subst y. apply Hh2. by apply last_Some_elem_of. }
  pose proof Hs1 as Hs1'. apply seg_app in Hs1' as [_ (na & Ha & _)]. pose proof Hs2 as (nb & Hb & _).
  assert (b <> a) as Hba. { intros ->. apply (Hdisj a); [apply elem_of_app; right; left | right; left]. }
  rewrite Hp, Hnext, (modify_ok _ _ _ na) by done. cbn [mbind res_bind]. rewrite (modify_ok _ _ _ nb) by (cbn; by rewrite lookup_insert_ne).
  eexists. split; [reflexivity |]. set (db1 := with_dirties (<[a := set_next b na]> (dirties db)) db).
  assert (forall k, contents db1 k = contents db k) as Hc1 by (by apply (relink _ _ a (set_next b) na)).
  assert (forall k, contents (with_dirties (<[b := set_prev a nb]> (dirties db1)) db1) k = contents db k) as Hc.
  { intros k. rewrite <- Hc1. apply (relink _ _ b (set_prev a) nb); [cbn; by rewrite lookup_insert_ne | done..]. }
  split; [| done]. apply (unlinked db); [done.. | | |].
  - cbn. rewrite Hold, !hd_app. by destruct l1.
  - cbn [newest db1 with_dirties]. intros y Hy. apply Hnew. rewrite last_app in *. rewrite last_cons. by destruct (last (b :: l2)).
  - apply seg_app. unfold last_or. rewrite last_snoc. cbn [hd dirties with_dirties db1]. split.
    + apply seg_frame; [intros Hx; apply (Hdisj b Hx); right; left |]. by apply seg_set_next with (q := h).
    + apply seg_set_prev with (p := Some h); [done | by rewrite lookup_insert_ne |]. apply seg_frame; [| done].
      intros Hx. apply (Hdisj a); [apply elem_of_app; right; left | by right].
Qed.

(** Taking a node out. *)
Lemma unlink_ok db l1 h l2 n : list_ok db (l1 ++ h :: l2) -> dirties db !! h = Some n ->
  exists db', unlink h n db = Val db' /\ list_ok (forget h n db') (l1 ++ l2) /\ diskdb db' = diskdb db /\ (forall k, contents db' k = contents db k).
Proof.
  intros Hok Hn. destruct l1 as [| a l1 _] using rev_ind; [by apply unlink_oldest |]. rewrite <- app_assoc in Hok. cbn [app] in Hok.
  assert (oldest db <> h) as Ho.
  { pose proof Hok as [Hnd _ _ -> _ _]. apply NoDup_app in Hnd as (_ & Hd & Hnd2). apply NoDup_cons in Hnd2 as [Ha _].
    destruct l1 as [| c l1]; cbn; intros ->; [apply Ha; left | apply (Hd h); [left | right; left]]. }
  destruct l2 as [| b l2]; [rewrite app_nil_r; by apply unlink_newest | rewrite <- app_assoc; by apply unlink_between].
Qed.

(** The oldest node goes, and the next one is the oldest. *)
Lemma pop_ok db a L n : list_ok db (a :: L) -> dirties db !! a = Some n ->
  flushNext n = hd 0 L /\ list_ok (with_ends (flushNext n) (newest (forget a n db)) (forget a n db)) L.
Proof.
  intros Hok Hn. pose proof Hok as [_ _ _ _ Hnew (x & Hx & _ & Hnext & Hs)]. rewrite Hn in Hx. injection Hx as <-. split; [done |].
  change (with_ends (flushNext n) _ (forget a n db)) with (forget a n (with_ends (flushNext n) (newest db) db)).
  apply (unlinked db _ [] a L); [done | done | done | | by apply seg_any_prev with (p := Some a)].
  cbn [app newest with_ends]. intros y Hy. apply Hnew. by rewrite last_cons, Hy.
Qed.

Lemma list_next db l1 a l2 n : list_ok db (l1 ++ a :: l2) -> dirties db !! a = Some n -> flushNext n = hd 0 l2.
Proof. intros [_ _ _ _ _ Hs] Hn. apply seg_app in Hs as [_ (x & Hx & _ & Hnext & _)]. rewrite Hn in Hx. by injection Hx as <-. Qed.

(** The first node may be told that there is none before it. *)
Lemma set_first db a L n : list_ok db (a :: L) -> dirties db !! a = Some n -> list_ok (with_dirties (<[a := set_prev 0 n]> (dirties db)) db) (a :: L).
Proof.
  intros [Hnd Hnz Hdom Hold Hnew Hseg] Hn. constructor; [done | done | | done | done |].
  - intros h. rewrite Hdom. symmetry. apply contents_dirty. by apply (relink _ _ a (set_prev 0) n).
  - apply seg_any_prev with (p := Some 0). apply NoDup_cons in Hnd as [Ha _]. by apply seg_set_prev with (p := None).
Qed.

Lemma list_length db L : list_ok db L -> length L = size (dirties db).
Proof.
  intros [Hnd _ Hdom _ _ _]. rewrite <- size_dom, <- (size_list_to_set (C := gset Z) L) by done. f_equal. apply set_eq. intros h.
  by rewrite elem_of_list_to_set, elem_of_dom.
Qed.

(** ** Children, closed disks and the invariant *)

Section Invariant.
Context `{rlp : RLP} (height : Z -> nat).

Definition kids (blob : bytes) : list Z := match ForGatherChildren blob with Val l => l | _ => [] end.
Definition decodable (blob : bytes) : Prop := ForGatherChildren blob = Val (kids blob).

(** [X] tells which storage roots the leaves below a node name: the children that are not in its encoding. *)
Abbreviation Externals := (Z -> gset Z).

Definition below (X : Externals) (h : Z) (blob : bytes) (k : Z) : Prop := k ∈ X h \/ k ∈ kids blob.

(** A disk from which nothing is missing: a node on it can be read, and its children are on it. *)
Definition complete_disk (X : Externals) (d : Disk) : Prop :=
  forall h b, d !! h = Some b -> h <> 0 /\ b <> [] /\ forall k, below X h b k -> is_Some (d !! k).

Record node_ok (X : Externals) (r : Z -> nat) (db : Database) (h : Z) (n : cachedNode) : Prop := {
  no_blob : cn_node n <> [];
  no_decodable : decodable (cn_node n);
  no_external : forall k, k ∈ external n -> k ∈ X h;
  no_agrees : forall b, diskdb db !! h = Some b -> b = cn_node n;
  no_height : forall k, below X h (cn_node n) k -> (height k < height h)%nat;
  no_children : forall k, below X h (cn_node n) k ->
    is_Some (diskdb db !! k) \/ (is_Some (dirties db !! k) /\ (r k < r h)%nat /\ (k ∈ external n \/ k ∈ kids (cn_node n)))
}.

(** [L] is the flush list and [r] ranks the nodes by their place in it. *)
Record db_inv (X : Externals) (L : list Z) (r : Z -> nat) (db : Database) : Prop := {
  di_list : list_ok db L;
  di_sorted : StronglySorted (fun a b => r a < r b)%nat L;
  di_closed : complete_disk X (diskdb db);
  di_known : forall h k, k ∈ X h -> is_Some (db_node db h) /\ (height k < height h)%nat;
  di_nodes : forall h n, dirties db !! h = Some n -> node_ok X r db h n
}.

Lemma forChildren_ok n : decodable (cn_node n) -> forChildren n = Val (elements (external n) ++ kids (cn_node n)).
Proof using Type. unfold forChildren. by intros ->. Qed.

Lemma db_node_dirty X L r db h n : db_inv X L r db -> dirties db !! h = Some n -> db_node db h = Some (cn_node n).
Proof using Type.
  intros [Hl _ _ _ _] Hn. unfold db_node. rewrite Hn. rewrite (proj2 (Z.eqb_neq h 0)); [done |].
  intros ->. apply (lo_nonzero _ _ Hl). apply (lo_dom _ _ Hl). by rewrite Hn.
Qed.

Lemma db_node_disk X L r db h b : db_inv X L r db -> diskdb db !! h = Some b -> db_node db h = Some b.
Proof using Type.
  intros [Hl _ Hc _ Hno] Hb. destruct (Hc _ _ Hb) as (H0 & Hne & _). unfold db_node. rewrite (proj2 (Z.eqb_neq h 0)) by done.
  destruct (dirties db !! h) as [n |] eqn:En; [| rewrite Hb; by destruct b]. by rewrite (no_agrees _ _ _ _ _ (Hno _ _ En) b).
Qed.

Lemma db_node_inv X L r db h b : db_inv X L r db -> db_node db h = Some b ->
  (exists n, dirties db !! h = Some n /\ b = cn_node n) \/ (dirties db !! h = None /\ diskdb db !! h = Some b).
Proof using Type.
  intros _. unfold db_node. destruct (h =? 0); [done |]. destruct (dirties db !! h) as [n |]; [intros [= <-]; eauto |].
  destruct (diskdb db !! h) as [[| x l] |]; [done | | done]. intros [= <-]. by right.
Qed.

Lemma StronglySorted_drop {A} (R : A -> A -> Prop) l1 x l2 : StronglySorted R (l1 ++ x :: l2) -> StronglySorted R (l1 ++ l2).
Proof using Type.
  induction l1 as [| a l1 IH]; cbn; intros Hs; apply StronglySorted_inv in Hs as [Hs Hf]; [done |]. constructor; [by apply IH |].
  rewrite Forall_app in *. destruct Hf as [Hf1 Hf2]. apply Forall_cons in Hf2 as [_ Hf2]. done.
Qed.

(** A node leaves the cache when it is on disk. *)
Lemma leaves_ok X L L' r db db' h : db_inv X L r db -> list_ok db' L' -> StronglySorted (fun a b => r a < r b)%nat L' -> diskdb db' = diskdb db ->
  is_Some (diskdb db !! h) -> (forall k, contents db' k = if decide (k = h) then None else contents db k) ->
  db_inv X L' r db' /\ (forall k, db_node db' k = db_node db k).
Proof using Type.
  intros Hinv Hl Hs Hd [b Hb] Hc. pose proof Hinv as [_ _ Hcl Hkn Hno]. assert (forall k, db_node db' k = db_node db k) as Hv.
  { intros k. pose proof (Hc k) as Hck. destruct (decide (k = h)) as [-> | Hne].
    - rewrite (db_node_disk _ _ _ _ _ _ Hinv Hb). unfold db_node. destruct (Hcl _ _ Hb) as (H0 & Hbe & _). rewrite (proj2 (Z.eqb_neq h 0)) by done.
      unfold contents in Hck. destruct (dirties db' !! h); [done |]. rewrite Hd, Hb. by destruct b.
    - unfold db_node. rewrite Hd. unfold contents in Hck. destruct (dirties db' !! k), (dirties db !! k); try done. by injection Hck as -> _. }
  split; [| done]. constructor; [done.. | by rewrite Hd | intros; rewrite Hv; by apply Hkn |]. intros k n Hk.
  pose proof (Hc k) as Hck. unfold contents in Hck. rewrite Hk in Hck. destruct (decide (k = h)) as [-> | Hne]; [done |].
  destruct (dirties db !! k) as [n0 |] eqn:E0; [| done]. injection Hck as Hb0 He. destruct (Hno _ _ E0) as [H1 H2 H3 H4 H5 H6].
  constructor; rewrite ?Hb0, ?He, ?Hd; [done.. |]. intros c Hc'. destruct (H6 c Hc') as [Hx | (Hx & Hr & Hi)]; [by left |].
  destruct (decide (c = h)) as [-> | Hch]; [left; by exists b |]. right. split; [| done].
  apply (fmap_is_Some content). pose proof (Hc c) as Hcc. unfold contents in Hcc. rewrite Hcc, decide_False by done. by apply fmap_is_Some.
Qed.

Lemma Put_ok X L r db h : db_inv X L r db -> is_Some (diskdb db !! h) -> exists db' L', Put db h = Val db' /\ db_inv X L' r db' /\ diskdb db' = diskdb db /\
  (forall k, contents db' k = if decide (k = h) then None else contents db k) /\ (forall k, db_node db' k = db_node db k).
Proof using Type.
  intros Hinv Hh. unfold Put. destruct (dirties db !! h) as [n |] eqn:En.
  - pose proof Hinv as [Hl Hs _ _ _]. assert (h ∈ L) as HL by (apply (lo_dom _ _ Hl); by rewrite En).
    apply list_elem_of_split in HL as (l1 & l2 & ->). destruct (unlink_ok _ _ _ _ _ Hl En) as (db' & -> & Hl' & Hd & Hc). cbn [mbind res_bind].
    assert (forall k, contents (forget h n db') k = if decide (k = h) then None else contents db k) as Hc'.
    { intros k. rewrite <- Hc. unfold contents. cbn. case_decide as Hk; [subst k; by rewrite lookup_delete_eq | by rewrite lookup_delete_ne]. }
    destruct (leaves_ok X (l1 ++ h :: l2) (l1 ++ l2) r db (forget h n db') h) as [Hi Hv]; [done | done | by eapply StronglySorted_drop | done | done | done |]. eauto 10.
  - exists db, L. split_and!; [done.. | | done]. intros k. case_decide as Hk; [| done]. subst k. unfold contents. by rewrite En.
Qed.

Lemma Replay_ok X r batch : forall L db, db_inv X L r db -> (forall k, k ∈ batch.*1 -> is_Some (diskdb db !! k)) ->
  exists db' L', Replay db batch = Val db' /\ db_inv X L' r db' /\ diskdb db' = diskdb db /\
  (forall k, contents db' k = if decide (k ∈ batch.*1) then None else contents db k) /\ (forall k, db_node db' k = db_node db k).
Proof using Type.
  unfold Replay. induction batch as [| [k b] batch IH]; intros L db Hinv Hd; cbn [foldl].
  - exists db, L. done.
  - cbn [mbind res_bind fst]. destruct (Put_ok X L r db k Hinv) as (db1 & L1 & -> & Hi1 & Hd1 & Hc1 & Hv1); [apply Hd; left |].
    destruct (IH L1 db1 Hi1) as (db' & L' & He & Hi & Hd' & Hc & Hv); [intros j Hj; rewrite Hd1; apply Hd; by right |].
    exists db', L'. split_and!; [done.. | congruence | | intros j; by rewrite Hv]. intros j. rewrite Hc, Hc1. cbn [fmap list_fmap fst].
    repeat case_decide; try done; set_solver.
Qed.

(** ** Inserting *)

Definition same_links (n n' : cachedNode) : Prop := content n' = content n /\ flushPrev n' = flushPrev n /\ flushNext n' = flushNext n.

Lemma count_parents m l k : match m !! k, foldl count_parent m l !! k with Some n, Some n' => same_links n n' | None, None => True | _, _ => False end.
Proof using Type.
  revert m. induction l as [| c l IH]; intros m; cbn [foldl]; [by destruct (m !! k) |]. specialize (IH (count_parent m c)). unfold count_parent in IH at 1.
  destruct (m !! c) as [nc |] eqn:Ec; [| done]. destruct (decide (k = c)) as [-> | Hne]; [| by rewrite lookup_insert_ne in IH].
  rewrite lookup_insert_eq in IH. rewrite Ec. done.
Qed.

Lemma insert_links db hash blob L ch m : list_ok db L -> hash <> 0 -> dirties db !! hash = None -> ForGatherChildren blob = Val ch ->
  m = foldl count_parent (dirties db) ch ->
  exists db', db_insert db hash blob = Val db' /\ list_ok db' (L ++ [hash]) /\ diskdb db' = diskdb db /\
  (forall k, contents db' k = if decide (k = hash) then Some (blob, ∅) else contents db k).
Proof using Type.
  clear height. intros Hok H0 Hnone Hch Hm. pose proof Hok as [Hnd Hnz Hdom Hold Hnew Hseg]. unfold db_insert, forChildren. rewrite Hnone. cbn [cn_node]. rewrite Hch. cbn [mbind res_bind mret res_ret external].
  rewrite elements_empty, app_nil_l, <- Hm. set (entry := mkCached blob 0 ∅ (newest db) 0).
  assert (forall k, contents (with_dirties (<[hash := entry]> m) db) k = if decide (k = hash) then Some (blob, ∅) else contents db k) as Hc.
  { intros k. unfold contents. cbn. case_decide as Hk; [subst k; by rewrite lookup_insert_eq |]. rewrite lookup_insert_ne by done.
    pose proof (count_parents (dirties db) ch k) as Hk'. rewrite <- Hm in Hk'. destruct (dirties db !! k), (m !! k); try done. cbn. f_equal. apply Hk'. }
  assert (hash ∉ L) as HhL by (rewrite Hdom, Hnone; by intros [? ?]).
  assert (forall db', (forall k, contents db' k = contents (with_dirties (<[hash := entry]> m) db) k) -> forall k, k ∈ L ++ [hash] <-> is_Some (dirties db' !! k)) as Hdom'.
  { intros db' Hc' k. rewrite <- (fmap_is_Some content). fold (contents db' k). rewrite Hc', Hc, elem_of_app, list_elem_of_singleton, Hdom.
    case_decide as Hk; [naive_solver |]. unfold contents. rewrite fmap_is_Some. naive_solver. }
  assert (seg (<[hash := entry]> m) None L 0) as Hseg1.
  { apply seg_frame; [done |]. revert Hseg. apply seg_ext. intros a n Ha Hn. pose proof (count_parents (dirties db) ch a) as Hk'. rewrite <- Hm, Hn in Hk'.
    destruct (m !! a) as [n' |]; [| done]. exists n'. split; [done |]. apply Hk'. }
  assert (NoDup (L ++ [hash])) as Hnd'. { apply NoDup_app. split_and!; [done | | apply NoDup_singleton]. intros x Hx ->%list_elem_of_singleton. done. }
  assert (0 ∉ L ++ [hash]) as Hnz'. { rewrite elem_of_app, list_elem_of_singleton. naive_solver. }
  destruct L as [| x0 L0 _] using rev_ind.
  - cbn [app hd] in *. cbn [oldest with_dirties]. rewrite Hold. cbn [Z.eqb mbind res_bind]. eexists. split; [reflexivity |]. split; [| done].
    constructor; [done | done | by apply Hdom' | done | by intros h [= <-] |]. exists entry. cbn. rewrite lookup_insert_eq. done.
  - cbn [oldest newest with_dirties]. rewrite Hold, (Hnew x0) by (by rewrite last_snoc).
    assert ((hd 0 (L0 ++ [x0]) =? 0) = false) as ->. { apply Z.eqb_neq. intros He. apply Hnz. destruct L0; cbn in *; rewrite He; left. }
    assert (is_Some (<[hash := entry]> m !! x0)) as [nx Hnx]. { apply (seg_lookup _ _ _ _ x0 Hseg1). apply elem_of_app. right. left. }
    rewrite (modify_ok _ _ _ nx) by done. cbn [mbind res_bind]. eexists. split; [reflexivity |].
    assert (forall k, contents (with_dirties (<[x0 := set_next hash nx]> (<[hash := entry]> m)) db) k = contents (with_dirties (<[hash := entry]> m) db) k) as Hc2.
    { apply (relink _ _ x0 (set_next hash) nx); done. }
    split; [| split; [done |]]; [| intros k; rewrite <- Hc, <- Hc2; done]. constructor; [done | done | | | |].
    + by apply Hdom'.
    + cbn. rewrite Hold. by destruct L0.
    + intros h Hh. rewrite last_snoc in Hh. by injection Hh.
    + cbn [dirties with_sizes with_dirties with_ends]. apply seg_app. cbn [hd]. split; [by apply seg_set_next with (q := 0) |].
      unfold last_or. rewrite last_snoc. exists entry. rewrite lookup_insert_ne, lookup_insert_eq; [| intros ->; apply HhL; apply elem_of_app; right; left].
      split_and!; [done | | done | done]. cbn. apply Hnew. by rewrite last_snoc.
Qed.
Record insertable (db : Database) (hash : Z) (blob : bytes) : Prop := {
  ia_nonzero : hash <> 0;
  ia_nonempty : blob <> [];
  ia_decodable : decodable blob;
  ia_agrees : forall b, db_node db hash = Some b -> b = blob;
  ia_children : forall k, k ∈ kids blob -> is_Some (db_node db k) /\ (height k < height hash)%nat
}.

Lemma available X L r db k : db_inv X L r db -> is_Some (db_node db k) -> is_Some (diskdb db !! k) \/ is_Some (dirties db !! k).
Proof using Type. intros Hinv [b Hb]. destruct (db_node_inv _ _ _ _ _ _ Hinv Hb) as [(n & -> & _) | [_ ->]]; eauto. Qed.

Lemma rank_bound (r : Z -> nat) L k : k ∈ L -> (r k < S (max_list (r <$> L)))%nat.
Proof using Type.
  intros Hk. enough (r k <= max_list (r <$> L))%nat by lia. apply max_list_elem_of_le. by apply list_elem_of_fmap_2.
Qed.

Lemma db_insert_ok X L r db hash blob : db_inv X L r db -> insertable db hash blob -> exists db' L' r', db_insert db hash blob = Val db' /\ db_inv X L' r' db' /\
  diskdb db' = diskdb db /\ (forall k, db_node db' k = if decide (k = hash) then Some blob else db_node db k).
Proof using Type.
  intros Hinv [H0 Hne Hdec Hag Hch]. destruct (dirties db !! hash) as [n |] eqn:En.
  { exists db, L, r. unfold db_insert. rewrite En. split_and!; [done.. |]. intros k. case_decide as Hk; [| done]. subst k.
    rewrite (db_node_dirty _ _ _ _ _ _ Hinv En). f_equal. apply Hag. by apply (db_node_dirty X L r). }
  pose proof Hinv as [Hl Hs Hcl Hkn Hno]. destruct (insert_links db hash blob L _ _ Hl H0 En Hdec eq_refl) as (db' & Hdb & Hl' & Hd & Hc).
  assert (hash ∉ L) as HhL. { rewrite (lo_dom _ _ Hl), En. by intros [? ?]. }
  set (r' := fun k => if decide (k = hash) then S (max_list (r <$> L)) else r k). assert (forall k, k <> hash -> r' k = r k) as Hr by (intros k Hk; unfold r'; by rewrite decide_False).
  assert (r' hash = S (max_list (r <$> L))) as Hrh by (unfold r'; by rewrite decide_True). clearbody r'.
  assert (forall k, db_node db' k = if decide (k = hash) then Some blob else db_node db k) as Hv.
  { intros k. pose proof (Hc k) as Hck. unfold contents in Hck. unfold db_node. case_decide as Hk.
    - subst k. rewrite (proj2 (Z.eqb_neq hash 0)) by done. destruct (dirties db' !! hash); [| done]. by injection Hck as -> _.
    - rewrite Hd. destruct (k =? 0); [done |]. destruct (dirties db' !! k), (dirties db !! k); try done. by injection Hck as -> _. }
  assert (forall k, is_Some (dirties db !! k) -> is_Some (dirties db' !! k)) as Hsub.
  { intros k Hk. apply (lo_dom _ _ Hl'), elem_of_app. left. by apply (lo_dom _ _ Hl). }
  exists db', (L ++ [hash]), r'. split_and!; [done | | done..]. constructor; [done | | by rewrite Hd | |].
  - apply StronglySorted_app_2; [| | constructor; constructor].
    + intros a b Ha Hb%list_elem_of_singleton. subst b. rewrite Hrh, Hr by (by intros ->). by apply rank_bound.
    + clear -Hs Hr HhL. induction Hs as [| a L Hs IH Hf]; [constructor |]. constructor; [apply IH; set_solver |].
      rewrite Forall_forall in *. intros b Hb. rewrite !Hr by set_solver. by apply Hf.
  - intros h k Hk. rewrite Hv. destruct (Hkn h k Hk) as [Hx Hy]. split; [case_decide; [by eexists | done] | done].
  - intros h n Hn. pose proof (Hc h) as Hch'. unfold contents in Hch'. rewrite Hn in Hch'. destruct (decide (h = hash)) as [-> | Hhh].
    + injection Hch' as Hb Hx. assert (forall k, k ∈ X hash -> is_Some (diskdb db !! k)) as HX.
      { intros k Hk. destruct (Hkn hash k Hk) as [[b Hb'] _]. destruct (db_node_inv _ _ _ _ _ _ Hinv Hb') as [(n' & Hn' & _) | [_ Hdk]]; [by rewrite En in Hn' |].
        apply (Hcl _ _ Hdk). by left. }
      constructor; rewrite ?Hb, ?Hx, ?Hd; [done | done | set_solver | | |].
      * intros b Hb'. apply Hag. by apply (db_node_disk X L r).
      * intros k [Hk | Hk]; [by apply Hkn | by apply Hch].
      * intros k [Hk | Hk]; [left; by apply HX |]. destruct (Hch k Hk) as [Ha Hhk]. destruct (available _ _ _ _ _ Hinv Ha) as [Hk' | Hk']; [by left |].
        right. split_and!; [by apply Hsub | | by right]. rewrite Hrh, Hr; [| intros ->; by rewrite En in Hk'; destruct Hk']. apply rank_bound. by apply (lo_dom _ _ Hl).
    + destruct (dirties db !! h) as [n0 |] eqn:E0; [| done]. injection Hch' as Hb Hx. destruct (Hno _ _ E0) as [H1 H2 H3 H4 H5 H6].
      constructor; rewrite ?Hb, ?Hx, ?Hd; [done.. |]. intros k Hk. destruct (H6 k Hk) as [Hk' | (Hk' & Hrk & Hi)]; [by left |]. right.
      split_and!; [by apply Hsub | | done]. rewrite !Hr; [done | done |]. intros ->. rewrite En in Hk'. by destruct Hk'.
Qed.
(** ** Referencing *)

Definition link (X : Externals) (child parent : Z) : Externals := fun h => if decide (h = parent) then {[child]} ∪ X h else X h.

Lemma elem_of_link X child parent h k : k ∈ link X child parent h <-> k ∈ X h \/ (h = parent /\ k = child).
Proof using Type. clear height. unfold link. case_decide; set_solver. Qed.

(** A node may be made a child when it is on disk, or waits to be written before its parent does. *)
Record linkable (L : list Z) (db : Database) (child parent : Z) : Prop := {
  la_parent : is_Some (dirties db !! parent);
  la_height : (height child < height parent)%nat;
  la_child : is_Some (diskdb db !! child) \/ (diskdb db !! parent = None /\ exists l1 l2, L = l1 ++ parent :: l2 /\ child ∈ l1)
}.

Lemma sorted_before (R : Z -> Z -> Prop) l1 h l2 k : StronglySorted R (l1 ++ h :: l2) -> k ∈ l1 -> R k h.
Proof using Type. clear height. intros Hs Hk. eapply StronglySorted_app_1_elem_of; [exact Hs | done | left]. Qed.

(** What linking does to the parent. *)
Record relinked (db db' : Database) (child parent : Z) (p p' : cachedNode) : Prop := {
  rl_disk : diskdb db' = diskdb db;
  rl_parent : dirties db' !! parent = Some p';
  rl_blob : cn_node p' = cn_node p;
  rl_external : forall k, k ∈ external p -> k ∈ external p';
  rl_added : forall k, k ∈ external p' -> k ∈ external p \/ k = child;
  rl_child : is_Some (diskdb db !! child) \/ child ∈ external p';
  rl_others : forall k, k <> parent -> contents db' k = contents db k
}.

Lemma link_inv X L r db db' child parent p p' : db_inv X L r db -> list_ok db' L -> dirties db !! parent = Some p ->
  linkable L db child parent -> relinked db db' child parent p p' ->
  db_inv (link X child parent) L r db' /\ (forall k, db_node db' k = db_node db k).
Proof using Type.
  intros Hinv Hl' Hp [_ Hh Hch] [Hd Hp' Hb He Ha Hc Ho]. pose proof Hinv as [Hl Hs Hcl Hkn Hno].
  assert (forall k, db_node db' k = db_node db k) as Hv.
  { intros k. unfold db_node. rewrite Hd. destruct (decide (k = parent)) as [-> | Hk]; [by rewrite Hp, Hp', Hb |].
    pose proof (Ho k Hk) as Hck. unfold contents in Hck. destruct (dirties db' !! k), (dirties db !! k); try done. by injection Hck as -> _. }
  assert (forall k, is_Some (dirties db !! k) -> is_Some (dirties db' !! k)) as Hsub by (intros k Hk; apply (lo_dom _ _ Hl'), (lo_dom _ _ Hl), Hk).
  split; [| done]. constructor; [done.. | | |].
  - rewrite Hd. intros h b Hb'. destruct (Hcl _ _ Hb') as (H0 & Hne & Hk). split_and!; [done.. |]. intros k [Hx%elem_of_link | Hx]; [| apply Hk; by right].
    destruct Hx as [Hx | [-> ->]]; [apply Hk; by left |]. destruct Hch as [Hch | [Hch _]]; [done | by rewrite Hch in Hb'].
  - intros h k [Hk | [-> ->]]%elem_of_link; rewrite Hv; [by apply Hkn |]. split; [rewrite (db_node_dirty _ _ _ _ _ _ Hinv Hp); by eexists | done].
  - assert (forall h b k, below (link X child parent) h b k -> below X h b k \/ (h = parent /\ k = child)) as Hbl.
    { intros h b k [Hk%elem_of_link | Hk]; unfold below; tauto. }
    intros h n Hn. destruct (decide (h = parent)) as [-> | Hhp].
    + rewrite Hp' in Hn. injection Hn as <-. destruct (Hno _ _ Hp) as [H1 H2 H3 H4 H5 H6].
      constructor; rewrite ?Hb, ?Hd; [done | done | | done | |].
      * intros k [Hk | ->]%Ha; apply elem_of_link; [left; by apply H3 | by right].
      * intros k [Hk | [_ ->]]%Hbl; [by apply H5 | done].
      * intros k [Hk | [_ ->]]%Hbl.
        -- destruct (H6 k Hk) as [Hx | (Hx & Hr & Hi)]; [by left |]. right. split_and!; [by apply Hsub | done | naive_solver].
        -- destruct Hch as [Hx | [_ (l1 & l2 & -> & Hk)]]; [by left |]. destruct Hc as [Hc | Hc]; [by left |]. right. split_and!; [| | by left].
           ++ apply Hsub, (lo_dom _ _ Hl), elem_of_app. by left.
           ++ by apply (sorted_before _ _ _ _ _ Hs).
    + pose proof (Ho h Hhp) as Hck. unfold contents in Hck. rewrite Hn in Hck. destruct (dirties db !! h) as [n0 |] eqn:E0; [| done]. injection Hck as Hb0 He0.
      destruct (Hno _ _ E0) as [H1 H2 H3 H4 H5 H6]. constructor; rewrite ?Hb0, ?He0, ?Hd; [done | done | | done | |].
      * intros k Hk. apply elem_of_link. left. by apply H3.
      * intros k [Hk | [? _]]%Hbl; [by apply H5 | done].
      * intros k [Hk | [? _]]%Hbl; [| done]. destruct (H6 k Hk) as [Hx | (Hx & Hr & Hi)]; [by left |]. right. split_and!; [by apply Hsub | done..].
Qed.

Lemma list_ok_same db db' L : list_ok db L -> oldest db' = oldest db -> newest db' = newest db ->
  (forall k, match dirties db !! k, dirties db' !! k with Some n, Some n' => flushPrev n' = flushPrev n /\ flushNext n' = flushNext n | None, None => True | _, _ => False end) -> list_ok db' L.
Proof using Type.
  intros [Hnd Hnz Hdom Hold Hnew Hseg] Ho Hn Hm. constructor; [done | done | | by rewrite Ho | by rewrite Hn |].
  - intros h. rewrite Hdom. specialize (Hm h). destruct (dirties db !! h), (dirties db' !! h); try done; by split; intros [? ?]; eauto.
  - revert Hseg. apply seg_ext. intros a n _ Ha. specialize (Hm a). rewrite Ha in Hm. destruct (dirties db' !! a) as [n' |]; [| done]. by exists n'.
Qed.

Lemma reference_link_ok X L r db child parent : db_inv X L r db -> linkable L db child parent -> exists db', reference db child parent = Val db' /\
  db_inv (link X child parent) L r db' /\ diskdb db' = diskdb db /\ (forall k, db_node db' k = db_node db k).
Proof using Type.
  intros Hinv Hla. pose proof Hla as [[p Hp] Hh Hch]. pose proof Hinv as [Hl Hs Hcl Hkn Hno]. unfold reference.
  assert (parent <> 0) as Hp0. { intros ->. apply (lo_nonzero _ _ Hl), (lo_dom _ _ Hl). by rewrite Hp. }
  destruct (dirties db !! child) as [n |] eqn:En.
  - rewrite (proj2 (Z.eqb_neq parent 0)), Hp by done. destruct (decide (child ∈ external p)) as [Hin | Hin].
    + destruct (link_inv X L r db db child parent p p) as [Hi Hv]; [done.. | constructor; try done; [by left | by right] | by eauto].
    + assert (child <> parent) as Hcp by (intros ->; lia). rewrite (modify_ok _ _ _ n) by done. cbn [mbind res_bind].
      rewrite (modify_ok _ _ _ p) by (cbn; by rewrite lookup_insert_ne). cbn [mbind res_bind]. eexists. split; [reflexivity |].
      match goal with |- db_inv _ _ _ ?d /\ _ => destruct (link_inv X L r db d child parent p (add_external child p)) as [Hi Hv]; [done | | done | done | | done] end.
      * apply (list_ok_same db); [done.. |]. intros k. cbn. destruct (decide (k = parent)) as [-> | Hk]; [by rewrite lookup_insert_eq, Hp |].
        rewrite lookup_insert_ne by done. destruct (decide (k = child)) as [-> | Hk2]; [by rewrite lookup_insert_eq, En |].
        rewrite lookup_insert_ne by done. by destruct (dirties db !! k).
      * constructor; [done | cbn; by rewrite lookup_insert_eq | done | cbn; set_solver | cbn; set_solver | right; cbn; set_solver |].
        intros k Hk. unfold contents. cbn. rewrite lookup_insert_ne by done. destruct (decide (k = child)) as [-> | Hk2]; [by rewrite lookup_insert_eq, En | by rewrite lookup_insert_ne].
  - destruct (link_inv X L r db db child parent p p) as [Hi Hv]; [done.. | | by eauto]. constructor; try done; [by left |]. left.
    destruct Hch as [Hch | [_ (l1 & l2 & -> & Hk)]]; [done |]. exfalso. assert (is_Some (dirties db !! child)) as [? Hx]; [| by rewrite En in Hx].
    apply (lo_dom _ _ Hl), elem_of_app. by left.
Qed.

(** Counts and links are all that differ. *)
Lemma same_inv X L r db db' : db_inv X L r db -> list_ok db' L -> diskdb db' = diskdb db -> (forall k, contents db' k = contents db k) ->
  db_inv X L r db' /\ (forall k, db_node db' k = db_node db k).
Proof using Type.
  intros [Hl Hs Hcl Hkn Hno] Hl' Hd Hc. assert (forall k, db_node db' k = db_node db k) as Hv.
  { intros k. unfold db_node. rewrite Hd. specialize (Hc k). unfold contents in Hc. destruct (dirties db' !! k), (dirties db !! k); try done. by injection Hc as -> _. }
  split; [| done]. constructor; [done.. | by rewrite Hd | intros; rewrite Hv; by apply Hkn |]. intros h x Hx.
  specialize (Hc h) as Hch. unfold contents in Hch. rewrite Hx in Hch. destruct (dirties db !! h) as [n0 |] eqn:E0; [| done]. injection Hch as Hb He.
  destruct (Hno _ _ E0) as [H1 H2 H3 H4 H5 H6]. constructor; rewrite ?Hb, ?He, ?Hd; [done.. |]. intros k Hk.
  destruct (H6 k Hk) as [Hy | (Hy & Hr & Hi)]; [by left |]. right. split; [| done]. by apply (contents_dirty db).
Qed.

(** A reference from outside, to a root. *)
Lemma reference_root_ok X L r db child : db_inv X L r db -> exists db', reference db child 0 = Val db' /\ db_inv X L r db' /\
  diskdb db' = diskdb db /\ (forall k, db_node db' k = db_node db k).
Proof using Type.
  intros Hinv. unfold reference. destruct (dirties db !! child) as [n |] eqn:En; [| by eauto 10]. cbn [Z.eqb]. eexists. split; [reflexivity |].
  match goal with |- db_inv _ _ _ ?d /\ _ => destruct (same_inv X L r db d Hinv) as [Hi Hv]; [| done | | done] end.
  - apply (list_ok_same db); [apply Hinv | done.. |]. intros k. cbn. destruct (decide (k = child)) as [-> | Hk]; [by rewrite lookup_insert_eq, En |].
    rewrite lookup_insert_ne by done. by destruct (dirties db !! k).
  - by apply (relink _ _ child (set_parents (u32 (parents n + 1))) n).
Qed.
End Invariant.
