(* ===== verification/HashDBCommit.v ===== *)
(** * The node database: writing

    [Commit] and [Cap] on a database in order: they end, they change what no hash reads as, every disk they leave on the
    way is closed, and a commit that reports no error has put all that its root leads to on disk. *)
From Stdlib Require Import ZArith Lia.
From stdpp Require Import base gmap strings list sorting fin_maps.
From S2P Require Import Prelude Utils JournalTypes Core TrieEncoding Trie TrieHash HashDB HashDBProofs.

Lemma write_batch_cases d batch k b : write_batch d batch !! k = Some b -> (k, b) ∈ batch \/ (d !! k = Some b /\ k ∉ batch.*1).
Proof.
  unfold write_batch. revert d. induction batch as [| [j c] batch IH]; intros d; cbn [foldl]; [intros H; right; split; [done | by apply not_elem_of_nil] |].
  intros [H | [H Hk]]%IH; [left; by right |]. cbn in H. destruct (decide (k = j)) as [-> | Hne].
  - rewrite lookup_insert_eq in H. injection H as ->. left. left.
  - rewrite lookup_insert_ne in H by done. right. split; [done |]. cbn. rewrite elem_of_cons. naive_solver.
Qed.

Lemma write_batch_saved d batch k : is_Some (write_batch d batch !! k) <-> is_Some (d !! k) \/ k ∈ batch.*1.
Proof.
  unfold write_batch. revert d. induction batch as [| [j c] batch IH]; intros d; cbn [foldl fmap list_fmap fst snd].
  - rewrite elem_of_nil. tauto.
  - rewrite IH, elem_of_cons. destruct (decide (k = j)) as [-> | Hne]; [rewrite lookup_insert_eq; naive_solver | rewrite lookup_insert_ne by done; naive_solver].
Qed.

Section Writing.
Context `{rlp : RLP} (full : list (Z * bytes) -> bool) (fails : Disk -> list (Z * bytes) -> bool) (height : Z -> nat) (X : Z -> gset Z).

(** On disk, or in the batch. *)
Definition saved (w : Writing) (k : Z) : Prop := is_Some (diskdb (wr_db w) !! k) \/ k ∈ (wr_batch w).*1.

Definition batch_ok (w : Writing) : Prop := forall k b, (k, b) ∈ wr_batch w -> db_node (wr_db w) k = Some b /\ forall c, below X k b c -> saved w c.

Record w_ok (L : list Z) (r : Z -> nat) (w : Writing) : Prop := { wo_inv : db_inv height X L r (wr_db w); wo_batch : batch_ok w }.

(** What writing may do. *)
Record grows (w w' : Writing) : Prop := {
  gr_view : forall k, db_node (wr_db w') k = db_node (wr_db w) k;
  gr_saved : forall k, saved w k -> saved w' k;
  gr_dirties : forall k, is_Some (dirties (wr_db w') !! k) -> is_Some (dirties (wr_db w) !! k);
  gr_disk : diskdb (wr_db w) ⊆ diskdb (wr_db w');
  gr_disks : exists ds, wr_disks w' = wr_disks w ++ ds /\ Forall (fun d => complete_disk X d /\ diskdb (wr_db w) ⊆ d) ds
}.

Lemma grows_refl w : grows w w.
Proof using Type. split; try done. exists []. by rewrite app_nil_r. Qed.

Lemma grows_trans w1 w2 w3 : grows w1 w2 -> grows w2 w3 -> grows w1 w3.
Proof using Type.
  intros [V1 S1 D1 K1 (ds1 & E1 & F1)] [V2 S2 D2 K2 (ds2 & E2 & F2)]. split.
  - intros k. by rewrite V2.
  - auto.
  - auto.
  - by etrans.
  - exists (ds1 ++ ds2). rewrite E2, E1, app_assoc. split; [done |]. apply Forall_app. split; [done |].
    eapply Forall_impl; [done |]. intros d [? ?]. split; [done | by etrans].
Qed.

Lemma Write_ok L r w w' : w_ok L r w -> Write fails w = Some w' -> w_ok L r w' /\ grows w w' /\ dirties (wr_db w') = dirties (wr_db w) /\ oldest (wr_db w') = oldest (wr_db w) /\
  wr_batch w' = wr_batch w /\ (forall k, saved w k -> is_Some (diskdb (wr_db w') !! k)) /\ exists d, wr_disks w' = wr_disks w ++ [d].
Proof using Type.
  intros [Hinv Hbatch]. unfold Write. destruct (fails _ _); [done |]. intros [= <-]. cbn [wr_db wr_batch wr_disks diskdb with_disk dirties oldest].
  set (d := write_batch (diskdb (wr_db w)) (wr_batch w)). pose proof Hinv as [Hl Hs Hcl Hkn Hno].
  assert (forall k, is_Some (d !! k) <-> saved w k) as Hsaved by (intros k; apply write_batch_saved).
  assert (forall k b, d !! k = Some b -> db_node (wr_db w) k = Some b) as Hview.
  { intros k b [H | [H _]]%write_batch_cases; [by apply Hbatch | by eapply db_node_disk]. }
  assert (diskdb (wr_db w) ⊆ d) as Hsub.
  { apply map_subseteq_spec. intros k b Hb. destruct (d !! k) as [b' |] eqn:Eb.
    - rewrite <- (Hview k b' Eb). by eapply db_node_disk.
    - exfalso. assert (is_Some (d !! k)) as [? Hx]; [| by rewrite Eb in Hx]. apply Hsaved. left. by exists b. }
  assert (complete_disk X d) as Hcd.
  { intros h b Hb. pose proof (Hview h b Hb) as Hv. apply write_batch_cases in Hb as [Hb | [Hb _]].
    - destruct (Hbatch _ _ Hb) as [Hv' Hkids]. split_and!; [by intros -> | | intros k Hk; by apply Hsaved, Hkids].
      destruct (db_node_inv _ _ _ _ _ _ _ Hinv Hv) as [(n & Hn & ->) | [_ Hx]]; [by apply (Hno _ _ Hn) | by destruct (Hcl _ _ Hx) as (_ & ? & _)].
    - destruct (Hcl _ _ Hb) as (H0 & Hne & Hk). split_and!; [done.. |]. intros k Hx. apply Hsaved. left. by apply Hk. }
  assert (forall k, db_node (with_disk d (wr_db w)) k = db_node (wr_db w) k) as Hsame.
  { intros k. unfold db_node. cbn [dirties diskdb with_disk]. destruct (k =? 0) eqn:E0; [done |]. destruct (dirties (wr_db w) !! k) eqn:En; [done |].
    destruct (d !! k) as [b |] eqn:Eb.
    - apply Hview in Eb. unfold db_node in Eb. rewrite E0, En in Eb. rewrite Eb. destruct b; [| done].
      by destruct (diskdb (wr_db w) !! k) as [[| ? ?] |].
    - destruct (diskdb (wr_db w) !! k) as [b |] eqn:Ed; [| done]. by rewrite (lookup_weaken _ _ _ _ Ed Hsub) in Eb. }
  split_and!; [| | done.. | by apply Hsaved | by eexists]. 2: { split; try done; [| by exists [d]; rewrite Forall_singleton].
    intros k Hk. left. by apply Hsaved. }
  split.
  - constructor; [| done.. | intros h k Hk; rewrite Hsame; by apply Hkn |].
    + by apply (list_ok_same (wr_db w)); [done.. | intros k; cbn; destruct (dirties (wr_db w) !! k)].
    + intros h n Hn. destruct (Hno _ _ Hn) as [H1 H2 H3 H4 H5 H6]. constructor; [done.. | | done |].
      * intros b Hb. pose proof (Hview _ _ Hb) as Hv. rewrite (db_node_dirty _ _ _ _ _ _ _ Hinv Hn) in Hv. by injection Hv.
      * intros k Hk. destruct (H6 k Hk) as [Hx | Hx]; [left | by right]. apply Hsaved. by left.
  - intros k b Hb. destruct (Hbatch _ _ Hb) as [Hv Hk]. split; [by rewrite Hsame |]. intros c Hc. left. by apply Hsaved, Hk.
Qed.

Lemma flush_ok L r w : w_ok L r w -> exists w' ok, flush_batch fails w = Val (w', ok) /\ (exists L', w_ok L' r w') /\ grows w w' /\
  (ok = true -> forall k, saved w k -> is_Some (diskdb (wr_db w') !! k)) /\ (ok = false -> exists d b, fails d b = true).
Proof using Type.
  intros Hok. unfold flush_batch. destruct (Write fails w) as [w1 |] eqn:Ew.
  - destruct (Write_ok _ _ _ _ Hok Ew) as ([Hi1 Hb1] & Hg & _ & _ & Hbe & Hsv & _).
    destruct (Replay_ok height X r (wr_batch w1) L (wr_db w1) Hi1) as (db' & L' & -> & Hi & Hd & Hc & Hv).
    { intros k Hk. apply Hsv. right. by rewrite <- Hbe. }
    cbn [mbind res_bind]. eexists _, true. split; [reflexivity |]. split; [exists L'; split; [done |]; intros k b Hk; by apply not_elem_of_nil in Hk |].
    split; [| split; [intros _ k Hk; cbn; rewrite Hd; by apply Hsv | done]]. eapply grows_trans; [exact Hg |]. split; cbn; [done | | | by rewrite Hd | exists []; by rewrite app_nil_r].
    + intros k [Hk | Hk]; left; cbn; rewrite Hd; [done |]. apply Hsv. right. by rewrite <- Hbe.
    + intros k Hk. pose proof (Hc k) as Hck. unfold contents in Hck. destruct Hk as [n Hn]. rewrite Hn in Hck. destruct (decide _); [done |].
      destruct (dirties (wr_db w1) !! k); [by eexists | done].
  - exists w, false. split; [done |]. split; [by exists L |]. split; [apply grows_refl |]. split; [done |]. intros _. unfold Write in Ew.
    destruct (fails _ _) eqn:Ef; [by eauto | done].
Qed.
(** ** [Commit] *)

(** The result of writing: when no write failed, all of [goal] is saved. *)
Record wrote (r : Z -> nat) (w : Writing) (goal : Z -> Prop) (w' : Writing) (ok : bool) : Prop := {
  wt_ok : exists L', w_ok L' r w';
  wt_grows : grows w w';
  wt_saved : ok = true -> forall k, goal k -> saved w' k;
  wt_failed : ok = false -> exists d b, fails d b = true
}.

Lemma fold_stopped (f : Writing -> Z -> res (Writing * bool)) w l :
  foldl (fun r child => '(w, ok) ← r; if ok : bool then f w child else Val (w, ok)) (Val (w, false)) l = Val (w, false).
Proof using Type. induction l as [| c l IH]; [done |]. exact IH. Qed.

Lemma fold_wrote (f : Writing -> Z -> res (Writing * bool)) r l : forall w L, w_ok L r w -> (forall c, c ∈ l -> is_Some (db_node (wr_db w) c)) ->
  (forall c, c ∈ l -> forall L w, w_ok L r w -> is_Some (db_node (wr_db w) c) -> exists w' ok, f w c = Val (w', ok) /\ wrote r w (eq c) w' ok) ->
  exists w' ok, foldl (fun r child => '(w, ok) ← r; if ok : bool then f w child else Val (w, ok)) (Val (w, true)) l = Val (w', ok) /\ wrote r w (.∈ l) w' ok.
Proof using Type.
  induction l as [| c l IH]; intros w L Hw Hl Hf; cbn [foldl].
  - exists w, true. split; [done |]. split; [by exists L | apply grows_refl | | done]. intros _ k Hk. by apply not_elem_of_nil in Hk.
  - cbn [mbind res_bind]. destruct (Hf c (list_elem_of_here _ _) L w Hw) as (w1 & ok & -> & [[L1 Hw1] Hg Hs Hfa]); [apply Hl; left |]. destruct ok.
    + destruct (IH w1 L1 Hw1) as (w2 & ok & -> & [Hw2 Hg2 Hs2 Hfa2]).
      { intros k Hk. rewrite (gr_view _ _ Hg). apply Hl. by right. }
      { intros k Hk. apply Hf. by right. }
      exists w2, ok. split; [done |]. split; [done | by eapply grows_trans | | done]. intros Hok k Hk. apply elem_of_cons in Hk as [-> | Hk]; [| by apply Hs2].
      apply (gr_saved _ _ Hg2). by apply Hs.
    + rewrite fold_stopped. exists w1, false. split; [done |]. split; [by exists L1 | done | done | done].
Qed.

Lemma append_ok L r w h b : w_ok L r w -> db_node (wr_db w) h = Some b -> (forall c, below X h b c -> saved w c) ->
  w_ok L r (mkWriting (wr_db w) (wr_batch w ++ [(h, b)]) (wr_disks w)) /\ grows w (mkWriting (wr_db w) (wr_batch w ++ [(h, b)]) (wr_disks w)).
Proof using Type.
  intros [Hi Hb] Hv Hc. assert (forall k, saved w k -> saved (mkWriting (wr_db w) (wr_batch w ++ [(h, b)]) (wr_disks w)) k) as Hs.
  { intros k [Hk | Hk]; [by left | right]. cbn. rewrite fmap_app, elem_of_app. by left. }
  split; split; [done | | done | done | done | done | exists []; by rewrite app_nil_r]. intros k b' Hk. cbn in Hk. apply elem_of_app in Hk as [Hk | Hk%list_elem_of_singleton].
  - destruct (Hb _ _ Hk) as [H1 H2]. split; [done |]. intros c Hc'. by apply Hs, H2.
  - injection Hk as -> ->. split; [done |]. intros c Hc'. by apply Hs, Hc.
Qed.

Lemma db_commit_ok r fuel : forall L w h, w_ok L r w -> (height h < fuel)%nat -> is_Some (db_node (wr_db w) h) ->
  exists w' ok, db_commit full fails fuel w h = Val (w', ok) /\ wrote r w (eq h) w' ok.
Proof using Type.
  induction fuel as [| fuel IH]; intros L w h Hw Hf Hv; [lia |]. cbn [db_commit]. pose proof Hw as [Hinv _].
  destruct (dirties (wr_db w) !! h) as [n |] eqn:En.
  - destruct (di_nodes _ _ _ _ _ Hinv _ _ En) as [H1 H2 H3 H4 H5 H6]. rewrite (forChildren_ok _ H2). cbn [mbind res_bind].
    assert (forall c, c ∈ elements (external n) ++ kids (cn_node n) -> below X h (cn_node n) c) as Hbelow.
    { intros c [Hc%elem_of_elements | Hc]%elem_of_app; [left; by apply H3 | by right]. }
    destruct (fold_wrote (db_commit full fails fuel) r (elements (external n) ++ kids (cn_node n)) w L Hw) as (w1 & ok & -> & [[L1 Hw1] Hg Hs Hfa]).
    { intros c Hc. destruct (H6 c (Hbelow c Hc)) as [[b Hb] | ([nc Hnc] & _)]; [by rewrite (db_node_disk _ _ _ _ _ _ _ Hinv Hb) | by rewrite (db_node_dirty _ _ _ _ _ _ _ Hinv Hnc)]. }
    { intros c Hc L2 w2 Hw2 Hv2. apply (IH L2); [done | | done]. pose proof (H5 c (Hbelow c Hc)). lia. }
    cbn [mbind res_bind]. destruct ok; cbn [negb].
    + destruct (append_ok L1 r w1 h (cn_node n)) as [Hw2 Hg2]; [done | | |].
      * rewrite (gr_view _ _ Hg). by eapply db_node_dirty.
      * intros c Hc. destruct (H6 c Hc) as [Hx | (_ & _ & Hx)]; [apply (gr_saved _ _ Hg); by left |]. apply Hs; [done |].
        apply elem_of_app. rewrite elem_of_elements. naive_solver.
      * set (w2 := mkWriting _ _ _) in *. assert (saved w2 h) as Hh by (right; cbn; rewrite fmap_app, elem_of_app; right; left).
        pose proof (grows_trans _ _ _ Hg Hg2) as Hg'. destruct (full _).
        -- destruct (flush_ok L1 r w2 Hw2) as (w3 & ok & -> & Hw3 & Hg3 & Hs3 & Hf3). exists w3, ok. split; [done |].
           split; [done | by eapply grows_trans | | done]. intros -> k <-. left. by apply Hs3.
        -- exists w2, true. split; [done |]. split; [by exists L1 | done | | done]. by intros _ k <-.
    + exists w1, false. split; [done |]. by split; [exists L1 | | |].
  - exists w, true. split; [done |]. split; [by exists L | apply grows_refl | | done]. intros _ k <-. left.
    destruct (available _ _ _ _ _ _ Hinv Hv) as [Hd | [? Hd]]; [done | by rewrite En in Hd].
Qed.

(** What a root leads to. *)
Inductive leads_to (db : Database) (root : Z) : Z -> Prop :=
| leads_root : leads_to db root root
| leads_child h b k : leads_to db root h -> db_node db h = Some b -> below X h b k -> leads_to db root k.

Lemma closed_leads L r db root k : db_inv height X L r db -> is_Some (diskdb db !! root) -> leads_to db root k -> is_Some (diskdb db !! k).
Proof using Type.
  intros Hinv Hroot. induction 1 as [| h b k _ [b' IH] Hb Hk]; [done |]. rewrite (db_node_disk _ _ _ _ _ _ _ Hinv IH) in Hb. injection Hb as ->.
  by apply (di_closed _ _ _ _ _ Hinv _ _ IH).
Qed.

Lemma leads_ext db db' root k : (forall k, db_node db' k = db_node db k) -> leads_to db root k -> leads_to db' root k.
Proof using Type. intros Hv. induction 1 as [| h b k _ IH Hb Hk]; [constructor | econstructor; [done | by rewrite Hv | done]]. Qed.

Lemma db_Commit_ok fuel L r db root : db_inv height X L r db -> (height root < fuel)%nat -> is_Some (db_node db root) ->
  exists db' ok ds, db_Commit full fails fuel db root = Val (db', ok, ds) /\ (exists L', db_inv height X L' r db') /\
  (forall k, db_node db' k = db_node db k) /\ diskdb db ⊆ diskdb db' /\ Forall (fun d => complete_disk X d /\ diskdb db ⊆ d) ds /\
  (ok = true -> forall k, leads_to db root k -> is_Some (diskdb db' !! k)) /\ (ok = false -> exists d b, fails d b = true).
Proof using Type.
  intros Hinv Hf Hv. unfold db_Commit. assert (w_ok L r (mkWriting db [] [])) as Hw by (split; [done |]; intros k b Hk; by apply not_elem_of_nil in Hk).
  destruct (db_commit_ok r fuel L _ root Hw Hf Hv) as (w1 & ok & -> & [[L1 Hw1] Hg Hs Hfa]). cbn [mbind res_bind]. destruct ok; cbn [negb].
  - destruct (flush_ok L1 r w1 Hw1) as (w2 & ok & -> & [L2 [Hi2 _]] & Hg2 & Hs2 & Hf2). cbn [mbind res_bind].
    pose proof (grows_trans _ _ _ Hg Hg2) as [Hv' _ _ Hd (ds & Eds & Hds)]. eexists _, ok, _. split; [reflexivity |]. split_and!; [by exists L2 | done.. | by rewrite Eds | | done].
    intros -> k Hk. eapply (closed_leads L2 r _ root); [done | apply Hs2; [done | by apply Hs] | by apply (leads_ext db)].
  - destruct Hg as [Hv' _ _ Hd (ds & Eds & Hds)]. eexists _, false, _. split; [reflexivity |]. split_and!; [exists L1; by destruct Hw1 | done.. | by rewrite Eds | done | done].
Qed.
(** ** [Cap] *)

Lemma reset_ok L r w w' : w_ok L r w -> Write fails w = Some w' -> w_ok L r (mkWriting (wr_db w') [] (wr_disks w')) /\ grows w (mkWriting (wr_db w') [] (wr_disks w')).
Proof using Type.
  intros Hw Ew. destruct (Write_ok _ _ _ _ Hw Ew) as ([Hi _] & Hg & _ & _ & Hb & Hs & _). split; [split; [done |]; intros k b Hk; by apply not_elem_of_nil in Hk |].
  destruct Hg as [G1 G2 G3 G4 G5]. split; [done | | done..]. intros k Hk. left. by apply Hs.
Qed.

Lemma Write_dirties w w' : Write fails w = Some w' -> dirties (wr_db w') = dirties (wr_db w).
Proof using Type. unfold Write. destruct (fails _ _); [done |]. by intros [= <-]. Qed.

(** Nodes go to disk from the oldest on; [dn] are those that have been given to a batch. *)
Lemma cap_loop_ok cns limit r L fuel : forall dn todo w sz, w_ok L r w -> L = dn ++ todo -> (forall k, k ∈ dn -> saved w k) -> (length todo < fuel)%nat ->
  exists w' ok stop, cap_loop full fails cns limit fuel w sz (hd 0 todo) = Val (w', ok, stop) /\ wrote r w (.∈ dn) w' ok /\ w_ok L r w' /\
  dirties (wr_db w') = dirties (wr_db w) /\
  (ok = true -> exists dn' todo', L = dn' ++ todo' /\ stop = hd 0 todo' /\ forall k, k ∈ dn' -> saved w' k).
Proof using Type.
  induction fuel as [| fuel IH]; intros dn todo w sz Hw HL Hdn Hlen; [lia |]. cbn [cap_loop].
  assert (forall b, b = false -> exists w' ok stop, (if b then Spin else Val (w, true, hd 0 todo)) = Val (w', ok, stop) /\ wrote r w (.∈ dn) w' ok /\ w_ok L r w' /\
    dirties (wr_db w') = dirties (wr_db w) /\ (ok = true -> exists dn' todo', L = dn' ++ todo' /\ stop = hd 0 todo' /\ forall k, k ∈ dn' -> saved w' k)) as Hend.
  { intros b ->. exists w, true, (hd 0 todo). split_and!; [done | | done | done | by exists dn, todo]. split; [by exists L | apply grows_refl | by intros _ | done]. }
  destruct (limit <? sz) eqn:Els; cbn [andb]; [| by apply (Hend false)]. destruct todo as [| a todo]; cbn [hd]; [by apply (Hend false) |]. pose proof Hw as [Hinv _].
  assert (a <> 0) as Ha0. { intros ->. apply (lo_nonzero _ _ (di_list _ _ _ _ _ Hinv)). rewrite HL, elem_of_app. right. left. }
  rewrite (proj2 (Z.eqb_neq a 0)) by done. cbn [negb].
  assert (is_Some (dirties (wr_db w) !! a)) as [n Hn]. { apply (lo_dom _ _ (di_list _ _ _ _ _ Hinv)). rewrite HL, elem_of_app. right. left. }
  rewrite Hn. destruct (di_nodes _ _ _ _ _ Hinv _ _ Hn) as [_ _ _ _ _ H6]. destruct (append_ok L r w a (cn_node n)) as [Hw2 Hg2]; [done | by eapply db_node_dirty | |].
  { intros c Hc. destruct (H6 c Hc) as [Hx | (Hx & Hr & _)]; [by left |]. apply Hdn. apply (lo_dom _ _ (di_list _ _ _ _ _ Hinv)) in Hx.
    pose proof (di_sorted _ _ _ _ _ Hinv) as Hs. rewrite HL in Hx, Hs. apply elem_of_app in Hx as [Hx | Hx]; [done | exfalso].
    apply StronglySorted_app in Hs as (_ & _ & Hs). apply StronglySorted_inv in Hs as [_ Hs]. apply elem_of_cons in Hx as [-> | Hx]; [lia |].
    rewrite Forall_forall in Hs. specialize (Hs c Hx). cbn in Hs. lia. }
  set (w2 := mkWriting _ _ _) in *. assert (saved w2 a) as Ha by (right; cbn; rewrite fmap_app, elem_of_app; right; left).
  rewrite (list_next (wr_db w) dn a todo n); [| rewrite <- HL; apply Hinv | done]. cbn [length] in Hlen.
  assert (forall w3 sz, w_ok L r w3 -> grows w2 w3 -> dirties (wr_db w3) = dirties (wr_db w2) -> exists w' ok stop, cap_loop full fails cns limit fuel w3 sz (hd 0 todo) = Val (w', ok, stop) /\
    wrote r w (.∈ dn) w' ok /\ w_ok L r w' /\ dirties (wr_db w') = dirties (wr_db w) /\
    (ok = true -> exists dn' todo', L = dn' ++ todo' /\ stop = hd 0 todo' /\ forall k, k ∈ dn' -> saved w' k)) as Hnext.
  { intros w3 sz3 Hw3 Hg3 Hd3. destruct (IH (dn ++ [a]) todo w3 sz3) as (w4 & ok & stop & -> & [W1 W2 W3 W4] & Hw4 & Hd4 & Hst); [done | by rewrite HL, <- app_assoc | | lia |].
    { intros k [Hk | ->%list_elem_of_singleton]%elem_of_app; apply (gr_saved _ _ Hg3); [by apply (gr_saved _ _ Hg2), Hdn | done]. }
    exists w4, ok, stop. split_and!; [done | | done | by rewrite Hd4, Hd3 | done].
    split; [done | by apply (grows_trans _ _ _ Hg2), (grows_trans _ _ _ Hg3) | | done]. intros Hok k Hk. apply W3; [done |]. apply elem_of_app. by left. }
  destruct (full _); [| by apply Hnext; [| apply grows_refl |]].
  destruct (Write fails w2) as [w3 |] eqn:Ew.
  - destruct (reset_ok _ _ _ _ Hw2 Ew) as [Hw3 Hg3]. apply Hnext; [done.. |]. exact (Write_dirties _ _ Ew).
  - exists w2, false, a. split_and!; [done | | done | done | done]. split; [by exists L | done | done |]. intros _. unfold Write in Ew. destruct (fails _ _) eqn:Ef; [by eauto | done].
Qed.

Lemma clear_loop_ok r fuel : forall dn todo db, db_inv height X (dn ++ todo) r db -> (forall k, k ∈ dn -> is_Some (diskdb db !! k)) -> (length dn < fuel)%nat ->
  exists db', clear_loop fuel (hd 0 todo) db = Val db' /\ db_inv height X todo r db' /\ diskdb db' = diskdb db /\ (forall k, db_node db' k = db_node db k).
Proof using Type.
  induction fuel as [| fuel IH]; intros dn todo db Hinv Hdn Hlen; [lia |]. cbn [clear_loop]. pose proof Hinv as [Hl Hs _ _ _].
  rewrite (lo_oldest _ _ Hl). destruct dn as [| a dn]; cbn [app hd] in *; [rewrite Z.eqb_refl; by exists db |].
  pose proof Hl as [Hnd Hnz Hdom _ _ _]. rewrite (proj2 (Z.eqb_neq a (hd 0 todo))).
  2: { destruct todo as [| b todo]; cbn; intros ->; [apply Hnz; left |]. apply NoDup_cons in Hnd as [Hb _]. apply Hb, elem_of_app. right. left. }
  assert (is_Some (dirties db !! a)) as [n Hn] by (apply Hdom; left). rewrite Hn. destruct (pop_ok _ _ _ _ Hl Hn) as [_ Hl'].
  set (db1 := with_ends _ _ _) in *. destruct (leaves_ok height X (a :: dn ++ todo) (dn ++ todo) r db db1 a) as [Hi1 Hv1]; [done | done | | done | apply Hdn; left | |].
  - by apply StronglySorted_inv in Hs as [? _].
  - intros k. unfold contents, db1. cbn. case_decide as Hk; [subst k; by rewrite lookup_delete_eq | by rewrite lookup_delete_ne].
  - destruct (IH dn todo db1) as (db' & -> & Hi & Hd & Hv); [done | intros k Hk; apply Hdn; by right | cbn in Hlen; lia |].
    exists db'. split_and!; [done.. |]. intros k. by rewrite Hv.
Qed.

Lemma Cap_ok cns limit fuel L r db : db_inv height X L r db -> (size (dirties db) < fuel)%nat ->
  exists db' ok ds, Cap full fails fuel cns limit db = Val (db', ok, ds) /\ (exists L', db_inv height X L' r db') /\
  (forall k, db_node db' k = db_node db k) /\ diskdb db ⊆ diskdb db' /\ Forall (fun d => complete_disk X d /\ diskdb db ⊆ d) ds /\ (ok = false -> exists d b, fails d b = true).
Proof using Type.
  intros Hinv Hf. unfold Cap. assert (w_ok L r (mkWriting db [] [])) as Hw by (split; [done |]; intros k b Hk; by apply not_elem_of_nil in Hk).
  pose proof (di_list _ _ _ _ _ Hinv) as Hl. rewrite <- (list_length _ _ Hl) in Hf. rewrite (lo_oldest _ _ Hl).
  destruct (cap_loop_ok cns limit r L fuel [] L _ (dirtiesSize db + zlen (map_to_list (dirties db)) * cns + childrenSize db) Hw eq_refl) as (w & ok & stop & -> & Hwr & Hw1 & Hdi & Hst);
    [by intros k Hk; apply not_elem_of_nil in Hk | done |]. cbn [mbind res_bind].
  assert (ok = true -> Write fails w = None -> exists d b, fails d b = true) as Hfail by (intros _; unfold Write; destruct (fails _ _) eqn:Ef; [by eauto | done]).
  destruct Hwr as [_ Hg _ Hfa]. destruct ok; cbn [negb].
  - destruct (Hst eq_refl) as (dn & todo & -> & -> & Hdn). destruct (Write fails w) as [w2 |] eqn:Ew.
    + destruct (Write_ok _ _ _ _ Hw1 Ew) as ([Hi2 _] & Hg2 & _ & _ & _ & Hs2 & _). rewrite length_app in Hf.
      destruct (clear_loop_ok r fuel dn todo (wr_db w2) Hi2) as (db1 & -> & Hi3 & Hd3 & Hv3); [intros k Hk; by apply Hs2, Hdn | lia |]. cbn [mbind res_bind].
      pose proof (grows_trans _ _ _ Hg Hg2) as [Hv _ _ Hd (ds & Eds & Hds)]. pose proof (di_list _ _ _ _ _ Hi3) as Hl3. rewrite (lo_oldest _ _ Hl3).
      destruct todo as [| a todo]; cbn [hd].
      * cbn [Z.eqb mbind res_bind]. eexists _, true, _. split; [reflexivity |]. split_and!; [by exists [] | intros k; by rewrite Hv3, Hv | by rewrite Hd3 | by rewrite Eds | done].
      * assert (a <> 0) as Ha0 by (intros ->; apply (lo_nonzero _ _ Hl3); left). rewrite (proj2 (Z.eqb_neq a 0)) by done.
        assert (is_Some (dirties db1 !! a)) as [n Hn] by (apply (lo_dom _ _ Hl3); left). rewrite (modify_ok _ _ _ n) by done. cbn [mbind res_bind].
        destruct (same_inv height X (a :: todo) r db1 (with_dirties (<[a := set_prev 0 n]> (dirties db1)) db1) Hi3) as [Hi4 Hv4]; [by apply set_first | done | by apply (relink _ _ a (set_prev 0) n) |].
        eexists _, true, _. split; [reflexivity |]. split_and!; [by exists (a :: todo) | intros k; by rewrite Hv4, Hv3, Hv | cbn; by rewrite Hd3 | by rewrite Eds | done].
    + destruct Hg as [Hv _ _ Hd (ds & Eds & Hds)]. eexists _, false, _. split; [reflexivity |]. split_and!; [eexists; by destruct Hw1 | done.. | by rewrite Eds | by intros _; apply Hfail].
  - destruct Hg as [Hv _ _ Hd (ds & Eds & Hds)]. eexists _, false, _. split; [reflexivity |]. split_and!; [exists L; by destruct Hw1 | done.. | by rewrite Eds | done].
Qed.
End Writing.
