(* ===== verification/HashDBRun.v ===== *)
(** * The node database: runs

    A whole life of the database: the node sets of tries are inserted, storage roots are linked to the accounts that
    name them, and the database is capped and committed, in any order. It behaves as a map that only grows, whatever
    part of it is on disk, and at no moment would a crash leave a disk from which a child of a stored node is missing. *)
From Stdlib Require Import ZArith Lia.
From stdpp Require Import base gmap strings list sorting fin_maps.
From S2P Require Import Prelude Utils JournalTypes Core TrieEncoding Trie TrieHash HashDB HashDBProofs HashDBCommit.

(** ** The order of [ForEachWithOrder] *)

Lemma path_le_total a b : path_le a b = true \/ path_le b a = true.
Proof.
  revert b. induction a as [| x a IH]; intros [| y b]; cbn; try tauto.
  destruct (Z.lt_trichotomy x y) as [H | [-> | H]].
  - left. rewrite (proj2 (Z.ltb_lt x y)) by done. done.
  - rewrite Z.ltb_irrefl, Z.eqb_refl. apply IH.
  - right. rewrite (proj2 (Z.ltb_lt y x)) by done. done.
Qed.

Lemma path_le_trans a b c : path_le a b = true -> path_le b c = true -> path_le a c = true.
Proof.
  revert b c. induction a as [| x a IH]; intros [| y b] [| z c]; cbn; try done.
  rewrite !orb_true_iff, !andb_true_iff, !Z.ltb_lt, !Z.eqb_eq. intros [H1 | [-> H1]] [H2 | [-> H2]]; [left; lia | by left | by left | right].
  split; [done | by eapply IH].
Qed.

Lemma path_le_extends p q : q <> [] -> path_le (p ++ q) p = false.
Proof. intros Hq. induction p as [| x p IH]; cbn; [by destruct q |]. by rewrite Z.ltb_irrefl, Z.eqb_refl. Qed.

#[local] Instance path_order_total : Total (fun a b : bytes * TrieHash.Node => Is_true (path_le b.1 a.1)).
Proof. intros a b. rewrite !Is_true_true. destruct (path_le_total b.1 a.1); tauto. Qed.

#[local] Instance path_order_trans : Transitive (fun a b : bytes * TrieHash.Node => Is_true (path_le b.1 a.1)).
Proof. intros a b c. rewrite !Is_true_true. intros H1 H2. by eapply path_le_trans. Qed.

Lemma ordered_elem s p nd : (p, nd) ∈ ForEachWithOrder s <-> Nodes s !! p = Some nd.
Proof. unfold ForEachWithOrder. rewrite merge_sort_Permutation. by rewrite elem_of_map_to_list. Qed.

(** A node comes after those below it. *)
Lemma ordered_before s l1 p nd l2 q nd' : ForEachWithOrder s = l1 ++ (p, nd) :: l2 -> q <> [] -> Nodes s !! (p ++ q) = Some nd' -> (p ++ q, nd') ∈ l1.
Proof.
  intros He Hq Hn%ordered_elem. pose proof (StronglySorted_merge_sort (fun a b : bytes * TrieHash.Node => Is_true (path_le b.1 a.1)) (map_to_list (Nodes s))) as Hs.
  fold (ForEachWithOrder s) in Hs. rewrite He in Hn, Hs. apply elem_of_app in Hn as [Hn | Hn]; [done | exfalso].
  apply StronglySorted_app in Hs as (_ & _ & Hs). apply StronglySorted_inv in Hs as [_ Hs]. apply elem_of_cons in Hn as [Hn | Hn].
  - injection Hn as Hp _. apply (f_equal length) in Hp. rewrite length_app in Hp. destruct q; [done | cbn in Hp; lia].
  - rewrite Forall_forall in Hs. specialize (Hs _ Hn). cbn in Hs. by rewrite path_le_extends in Hs.
Qed.

(** ** Inserting the nodes of a trie *)

Section Run.
Context `{rlp : RLP} (height : Z -> nat).

(** What [Commit] of a trie gives: encoded nodes under their hashes, whose children are known or deeper in the set. *)
Record set_ready (db : Database) (s : NodeSet) : Prop := {
  sr_node : forall p nd, Nodes s !! p = Some nd -> IsDeleted nd = false -> nd_Hash nd <> 0 /\ decodable (nd_Blob nd);
  sr_agrees : forall p nd b, Nodes s !! p = Some nd -> IsDeleted nd = false -> db_node db (nd_Hash nd) = Some b -> b = nd_Blob nd;
  sr_unique : forall p nd p' nd', Nodes s !! p = Some nd -> Nodes s !! p' = Some nd' -> IsDeleted nd = false -> IsDeleted nd' = false ->
    nd_Hash nd' = nd_Hash nd -> nd_Blob nd' = nd_Blob nd;
  sr_children : forall p nd k, Nodes s !! p = Some nd -> IsDeleted nd = false -> k ∈ kids (nd_Blob nd) -> (height k < height (nd_Hash nd))%nat /\
    (is_Some (db_node db k) \/ exists q nd', q <> [] /\ Nodes s !! (p ++ q) = Some nd' /\ IsDeleted nd' = false /\ nd_Hash nd' = k)
}.

(** The store as a map that grows. *)
Definition put (f : Z -> option bytes) (l : list (bytes * TrieHash.Node)) : Z -> option bytes :=
  foldl (fun f pn => if IsDeleted pn.2 then f else fun k => if decide (k = nd_Hash pn.2) then Some (nd_Blob pn.2) else f k) f l.

Lemma put_ext f g l k : (forall k, f k = g k) -> put f l k = put g l k.
Proof using Type.
  unfold put. revert f g. induction l as [| x l IH]; intros f g Hfg; cbn [foldl]; [done |]. apply IH. intros j. destruct (IsDeleted x.2); [done |].
  by case_decide.
Qed.

Lemma insert_list_ok X l : forall L r db, db_inv height X L r db ->
  (forall x, x ∈ l -> IsDeleted x.2 = false -> nd_Hash x.2 <> 0 /\ decodable (nd_Blob x.2) /\ forall b, db_node db (nd_Hash x.2) = Some b -> b = nd_Blob x.2) ->
  (forall x y, x ∈ l -> y ∈ l -> IsDeleted x.2 = false -> IsDeleted y.2 = false -> nd_Hash y.2 = nd_Hash x.2 -> nd_Blob y.2 = nd_Blob x.2) ->
  (forall l1 x l2 k, l = l1 ++ x :: l2 -> IsDeleted x.2 = false -> k ∈ kids (nd_Blob x.2) -> (height k < height (nd_Hash x.2))%nat /\
    (is_Some (db_node db k) \/ exists y, y ∈ l1 /\ IsDeleted y.2 = false /\ nd_Hash y.2 = k)) ->
  exists db' L' r', foldl (fun r pn => db ← r; if IsDeleted pn.2 then Val db else db_insert db (nd_Hash pn.2) (nd_Blob pn.2)) (Val db) l = Val db' /\
    db_inv height X L' r' db' /\ diskdb db' = diskdb db /\ (forall k, db_node db' k = put (db_node db) l k).
Proof using Type.
  induction l as [| x l IH]; intros L r db Hinv Hnode Huniq Hkids; cbn [foldl]; [by exists db, L, r |]. cbn [mbind res_bind]. unfold put. cbn [foldl].
  destruct (IsDeleted x.2) eqn:Ex.
  - apply (IH L r); [done | intros y Hy; apply Hnode; by right | intros y z Hy Hz; apply Huniq; by right |].
    intros l1 y l2 k -> Hy Hk. destruct (Hkids (x :: l1) y l2 k eq_refl Hy Hk) as [Hh [Ha | (z & Hz & Hdz & Hhz)]]; split; [done | by left | done |].
    right. apply elem_of_cons in Hz as [-> | Hz]; [by rewrite Ex in Hdz | by exists z].
  - destruct (Hnode x (list_elem_of_here _ _) Ex) as (H0 & Hdec & Hag).
    destruct (db_insert_ok height X L r db (nd_Hash x.2) (nd_Blob x.2) Hinv) as (db1 & L1 & r1 & -> & Hi1 & Hd1 & Hv1).
    { constructor; [done | by intros He; unfold IsDeleted in Ex; rewrite He in Ex | done | done |]. intros k Hk.
      destruct (Hkids [] x l k eq_refl Ex Hk) as [Hh [Ha | (y & Hy & _)]]; [done | by apply not_elem_of_nil in Hy]. }
    destruct (IH L1 r1 db1) as (db' & L' & r' & -> & Hi & Hd & Hv).
    + done.
    + intros y Hy Hdy. destruct (Hnode y (list_elem_of_further _ _ _ Hy) Hdy) as (Hy0 & Hyd & Hya). split_and!; [done.. |]. intros b. rewrite Hv1.
      case_decide as He; [| apply Hya]. intros [= <-]. symmetry. apply (Huniq x y); [left | by right | done..].
    + intros y z Hy Hz. apply Huniq; by right.
    + intros l1 y l2 k -> Hy Hk. destruct (Hkids (x :: l1) y l2 k eq_refl Hy Hk) as [Hh Ha]. split; [done |]. rewrite Hv1. case_decide as Hkx; [left; by eexists |].
      destruct Ha as [Ha | (z & Hz & Hdz & Hhz)]; [by left | right]. apply elem_of_cons in Hz as [-> | Hz]; [by subst k | by exists z].
    + exists db', L', r'. split_and!; [done.. | congruence |]. intros k. rewrite Hv. by apply put_ext.
Qed.

Lemma insert_set_ok X L r db s : db_inv height X L r db -> set_ready db s -> exists db' L' r', insert_set db s = Val db' /\
  db_inv height X L' r' db' /\ diskdb db' = diskdb db /\ (forall k, db_node db' k = put (db_node db) (ForEachWithOrder s) k).
Proof using Type.
  intros Hinv [Hn Ha Hu Hc]. apply (insert_list_ok X _ L r db Hinv).
  - intros [p nd] Hx%ordered_elem Hd. destruct (Hn p nd Hx Hd) as [H0 Hdec]. split_and!; [done.. |]. intros b. by apply (Ha p).
  - intros [p nd] [p' nd'] Hx%ordered_elem Hy%ordered_elem. by apply (Hu p nd p' nd').
  - intros l1 [p nd] l2 k He Hd Hk. assert (Nodes s !! p = Some nd) as Hp. { apply ordered_elem. rewrite He, elem_of_app. right. left. }
    destruct (Hc p nd k Hp Hd Hk) as [Hh [Hav | (q & nd' & Hq & Hnd' & Hd' & Hhk)]]; split; [done | by left | done | right].
    exists (p ++ q, nd'). split; [by eapply ordered_before | done].
Qed.
(** ** A life of the database *)

Lemma list_unique db L L' : list_ok db L -> list_ok db L' -> L = L'.
Proof using Type.
  clear height. intros [_ Hz _ Ho _ Hs] [_ Hz' _ Ho' _ Hs']. rewrite Ho in Ho'. clear Ho. revert Hs Hs'. generalize (None : option Z) at 1 as p. generalize (None : option Z) as p'.
  revert L' Hz' Ho'. induction L as [| a L IH]; intros [| b L'] Hz' Hh p' p Hs Hs'; cbn [hd] in Hh; [done | subst b | subst a | subst b].
  - exfalso. apply Hz'. left.
  - exfalso. apply Hz. left.
  - destruct Hs as (n & Hn & _ & Hx & Hs), Hs' as (n' & Hn' & _ & Hx' & Hs'). rewrite Hn in Hn'. injection Hn' as <-. f_equal.
    eapply IH; [set_solver | set_solver | congruence | exact Hs | exact Hs'].
Qed.

Definition good (X : Z -> gset Z) (db : Database) : Prop := exists L r, db_inv height X L r db.

Definition no_externals : Z -> gset Z := fun _ => ∅.

Lemma new_good d : complete_disk no_externals d -> good no_externals (New_hashdb d).
Proof using Type.
  intros Hd. exists [], (fun _ => O). constructor; [| constructor | done | by intros h k Hk%elem_of_empty | done].
  constructor; [constructor | apply not_elem_of_nil | | done | done | done]. intros h. cbn. rewrite lookup_empty. split; [by intros Hx%elem_of_nil | by intros [? ?]].
Qed.

Context (full : list (Z * bytes) -> bool) (fails : Disk -> list (Z * bytes) -> bool) (fuel : nat).

(** The nodes of one trie, the root of a storage trie for an account, a root from outside, and the two ways to write. *)
Inductive db_op :=
| DUpdate (s : NodeSet)
| DLink (child parent : Z)
| DRoot (child : Z)
| DCommit (root : Z)
| DCap (cachedNodeSize limit : Z).

Definition db_step (op : db_op) (db : Database) : res (Database * bool * list Disk) :=
  match op with
  | DUpdate s => db ← insert_set db s; Val (db, true, [])
  | DLink child parent => db ← reference db child parent; Val (db, true, [])
  | DRoot child => db ← reference db child 0; Val (db, true, [])
  | DCommit root => db_Commit full fails fuel db root
  | DCap cns limit => Cap full fails fuel cns limit db
  end.

Definition X_step (op : db_op) (X : Z -> gset Z) : Z -> gset Z := match op with DLink child parent => link X child parent | _ => X end.

(** The specification: a map that grows. *)
Definition store_step (f : Z -> option bytes) (op : db_op) : Z -> option bytes := match op with DUpdate s => put f (ForEachWithOrder s) | _ => f end.

Definition allowed (db : Database) (op : db_op) : Prop :=
  match op with
  | DUpdate s => set_ready db s
  | DLink child parent => exists L, list_ok db L /\ linkable height L db child parent
  | DRoot _ => True
  | DCommit root => (height root < fuel)%nat /\ is_Some (db_node db root)
  | DCap _ _ => (size (dirties db) < fuel)%nat
  end.

(** A database opened on the disk that was left. *)
Definition reopened (db : Database) : Database := New_hashdb (diskdb db).

Record step_post (X : Z -> gset Z) (db : Database) (op : db_op) (db' : Database) (ok : bool) (ds : list Disk) : Prop := {
  sp_good : good (X_step op X) db';
  sp_store : forall k, db_node db' k = store_step (db_node db) op k;
  sp_disk : diskdb db ⊆ diskdb db';
  sp_disks : Forall (fun d => complete_disk (X_step op X) d /\ diskdb db ⊆ d) ds;
  sp_commit : forall root, op = DCommit root -> ok = true -> forall k, leads_to X db root k -> is_Some (db_node db k) /\ db_node (reopened db') k = db_node db k;
  sp_failed : ok = false -> exists d b, fails d b = true
}.

Lemma db_step_ok X db op : good X db -> allowed db op -> exists db' ok ds, db_step op db = Val (db', ok, ds) /\ step_post X db op db' ok ds.
Proof using Type.
  intros (L & r & Hinv) Hall. destruct op as [s | child parent | child | root | cns limit]; cbn [allowed db_step] in *.
  - destruct (insert_set_ok X L r db s Hinv Hall) as (db' & L' & r' & -> & Hi & Hd & Hv). eexists _, _, _. split; [reflexivity |].
    split; [by exists L', r' | done | by rewrite Hd | constructor | done | done].
  - destruct Hall as (L' & Hl & Hla). rewrite (list_unique db L' L Hl (di_list _ _ _ _ _ Hinv)) in Hla.
    destruct (reference_link_ok height X L r db child parent Hinv Hla) as (db' & -> & Hi & Hd & Hv). eexists _, _, _. split; [reflexivity |].
    split; [by exists L, r | done | by rewrite Hd | constructor | done | done].
  - destruct (reference_root_ok height X L r db child Hinv) as (db' & -> & Hi & Hd & Hv). eexists _, _, _. split; [reflexivity |].
    split; [by exists L, r | done | by rewrite Hd | constructor | done | done].
  - destruct Hall as [Hh Hr]. destruct (db_Commit_ok full fails height X fuel L r db root Hinv Hh Hr) as (db' & ok & ds & -> & [L' Hi] & Hv & Hd & Hds & Hs & Hf).
    eexists _, _, _. split; [reflexivity |]. split; [by exists L', r | done | done | done | | done]. intros root' [= <-] -> k Hk.
    destruct (Hs eq_refl k Hk) as [b Hb]. rewrite <- Hv, (db_node_disk _ _ _ _ _ _ _ Hi Hb). split; [by eexists |].
    destruct (di_closed _ _ _ _ _ Hi _ _ Hb) as (H0 & Hne & _). unfold db_node, reopened, New_hashdb. cbn. rewrite (proj2 (Z.eqb_neq k 0)), lookup_empty, Hb by done. by destruct b.
  - destruct (Cap_ok full fails height X cns limit fuel L r db Hinv Hall) as (db' & ok & ds & -> & [L' Hi] & Hv & Hd & Hds & Hf).
    eexists _, _, _. split; [reflexivity |]. by split; [exists L', r | | | | |].
Qed.

(** The operations of a life, each with what it promises. *)
Inductive life (X : Z -> gset Z) (db : Database) : list db_op -> Database -> Prop :=
| life_nil : life X db [] db
| life_cons op ops db' ok ds db'' : db_step op db = Val (db', ok, ds) -> step_post X db op db' ok ds -> life (X_step op X) db' ops db'' -> life X db (op :: ops) db''.

Fixpoint all_allowed (db : Database) (ops : list db_op) : Prop :=
  match ops with
  | [] => True
  | op :: ops => allowed db op /\ forall db' ok ds, db_step op db = Val (db', ok, ds) -> all_allowed db' ops
  end.

Lemma store_ext ops : forall f g, (forall k, f k = g k) -> forall k, foldl store_step f ops k = foldl store_step g ops k.
Proof using Type.
  induction ops as [| op ops IH]; intros f g Hfg k; cbn [foldl]; [done |]. apply IH. intros j. destruct op; cbn; [by apply put_ext | done..].
Qed.

Lemma life_ok ops : forall X db, good X db -> all_allowed db ops ->
  exists db', life X db ops db' /\ forall k, db_node db' k = foldl store_step (db_node db) ops k.
Proof using Type.
  induction ops as [| op ops IH]; intros X db Hg Ha; cbn [foldl]; [exists db; split; [constructor | done] |]. destruct Ha as [Ha Has].
  destruct (db_step_ok X db op Hg Ha) as (db1 & ok & ds & Hs & Hp). destruct (IH (X_step op X) db1 (sp_good _ _ _ _ _ _ Hp) (Has _ _ _ Hs)) as (db' & Hl & Hv).
  exists db'. split; [by econstructor |]. intros k. rewrite Hv. apply store_ext, Hp.
Qed.

End Run.
