(* ===== verification/HashDBSizes.v ===== *)
(** * The node database: sizes

    The counters of the database are exact: they are the sums over the nodes in memory, after every operation,
    garbage collection included; so [Cap] leaves no more than its limit in memory. *)
From Stdlib Require Import ZArith Lia.
From stdpp Require Import base gmap strings list sorting fin_maps.
From S2P Require Import Prelude Utils JournalTypes Core TrieEncoding Trie TrieHash HashDB HashDBProofs HashDBCommit HashDBRun.

(** ** Sums over the nodes in memory *)

Definition total (f : cachedNode -> Z) (m : gmap Z cachedNode) : Z := map_fold (fun _ n acc => f n + acc) 0 m.

Lemma total_insert f m h n : m !! h = None -> total f (<[h := n]> m) = f n + total f m.
Proof. intros Hm. unfold total. rewrite map_fold_insert_L; [done | intros; lia | done]. Qed.

Lemma total_delete f m h n : m !! h = Some n -> total f (base.delete h m) = total f m - f n.
Proof. intros Hm. rewrite <- (insert_delete_id m h n) at 2 by done. rewrite total_insert by apply lookup_delete_eq. lia. Qed.

Lemma total_update f m h n n' : m !! h = Some n -> total f (<[h := n']> m) = total f m - f n + f n'.
Proof. intros Hm. rewrite <- insert_delete_eq, total_insert by apply lookup_delete_eq. rewrite (total_delete _ _ _ n Hm). lia. Qed.

Lemma total_ext f m m' : (forall k, f <$> m !! k = f <$> m' !! k) -> total f m = total f m'.
Proof.
  intros Hm. assert (forall m, total f m = map_fold (fun _ x acc => x + acc) 0 (f <$> m)) as Hf by (intros x; unfold total; by rewrite map_fold_fmap).
  rewrite !Hf. f_equal. apply map_eq. intros k. by rewrite !lookup_fmap.
Qed.

Definition blob_size (n : cachedNode) : Z := HashLength + zlen (cn_node n).
Definition external_size (n : cachedNode) : Z := Z.of_nat (size (external n)) * HashLength.

Record sizes_ok (db : Database) : Prop := {
  so_blobs : dirtiesSize db = total blob_size (dirties db);
  so_externals : childrenSize db = total external_size (dirties db)
}.

(** What keeps the counters: the same nodes, up to links and counts of parents. *)
Definition same_nodes (db db' : Database) : Prop := (forall k, contents db' k = contents db k) /\ dirtiesSize db' = dirtiesSize db /\ childrenSize db' = childrenSize db.

Lemma content_total (g : bytes * gset Z -> Z) m m' : (forall k, content <$> m' !! k = content <$> m !! k) -> total (fun n => g (content n)) m' = total (fun n => g (content n)) m.
Proof.
  intros Hm. apply total_ext. intros k. specialize (Hm k). apply (f_equal (option_map g)) in Hm. by destruct (m' !! k), (m !! k).
Qed.

Lemma blob_total m m' : (forall k, content <$> m' !! k = content <$> m !! k) -> total blob_size m' = total blob_size m.
Proof. apply (content_total (fun c => HashLength + zlen c.1)). Qed.

Lemma external_total m m' : (forall k, content <$> m' !! k = content <$> m !! k) -> total external_size m' = total external_size m.
Proof. apply (content_total (fun c => Z.of_nat (size c.2) * HashLength)). Qed.

Lemma same_sizes db db' : same_nodes db db' -> sizes_ok db -> sizes_ok db'.
Proof.
  intros (Hc & Hd & Hx) [H1 H2]. split.
  - rewrite Hd, H1. symmetry. apply blob_total, Hc.
  - rewrite Hx, H2. symmetry. apply external_total, Hc.
Qed.

Lemma same_nodes_trans a b c : same_nodes a b -> same_nodes b c -> same_nodes a c.
Proof. intros (H1 & H2 & H3) (H1' & H2' & H3'). split_and!; [intros k; by rewrite H1' | congruence..]. Qed.

Lemma modify_same h f db db' : (forall n, content (f n) = content n) -> modify h f db = Val db' -> same_nodes db db'.
Proof.
  intros Hf. unfold modify. destruct (dirties db !! h) as [n |] eqn:En; [| done]. intros [= <-]. split_and!; [| done..]. by apply (relink _ _ h f n).
Qed.

Lemma unlink_same h n db db' : unlink h n db = Val db' -> same_nodes db db'.
Proof.
  unfold unlink. destruct (h =? oldest db); [| destruct (h =? newest db)].
  - destruct (flushNext n =? 0); [intros [= <-]; done |]. intros H. by apply (modify_same _ _ (with_ends (flushNext n) (newest db) db) db') in H.
  - destruct (flushPrev n =? 0); [intros [= <-]; done |]. intros H. by apply (modify_same _ _ (with_ends (oldest db) (flushPrev n) db) db') in H.
  - destruct (modify (flushPrev n) _ db) as [db1 | |] eqn:E1; [| done | done]. cbn. intros H2.
    eapply same_nodes_trans; [refine (modify_same _ _ _ _ _ E1) | refine (modify_same _ _ _ _ _ H2)]; done.
Qed.

Lemma forget_sizes h n db : contents db h = Some (content n) -> sizes_ok db -> sizes_ok (forget h n db).
Proof.
  unfold contents. intros Hc [H1 H2]. destruct (dirties db !! h) as [n' |] eqn:En; [| done]. injection Hc as Hb He. split; cbn.
  - rewrite (total_delete _ _ _ n' En), H1. unfold blob_size. rewrite Hb. done.
  - rewrite (total_delete _ _ _ n' En), H2. unfold external_size. rewrite He. done.
Qed.

Lemma Put_sizes db h db' : Put db h = Val db' -> sizes_ok db -> sizes_ok db'.
Proof.
  unfold Put. destruct (dirties db !! h) as [n |] eqn:En; [| by intros [= <-]]. destruct (unlink h n db) as [db1 | |] eqn:E1; [| done | done]. cbn. intros [= <-] Hs.
  apply unlink_same in E1. apply forget_sizes; [| by eapply same_sizes]. destruct E1 as [Hc _]. rewrite Hc. unfold contents. by rewrite En.
Qed.

(** A chain of operations that may stop. *)
Lemma fold_sizes {A} (f : Database -> A -> res Database) l : (forall x db db', x ∈ l -> f db x = Val db' -> sizes_ok db -> sizes_ok db') ->
  forall r db', (forall db, r = Val db -> sizes_ok db) -> foldl (fun r x => db ← r; f db x) r l = Val db' -> sizes_ok db'.
Proof.
  induction l as [| x l IH]; intros Hf r db' Hr; cbn [foldl]; [by apply Hr |]. apply IH; [intros y db1 db2 Hy; apply Hf; by right |].
  intros db1 H1. destruct r as [db0 | |]; [| done | done]. cbn in H1. by eapply Hf; [left | done | apply Hr].
Qed.

Lemma Replay_sizes db batch db' : Replay db batch = Val db' -> sizes_ok db -> sizes_ok db'.
Proof.
  unfold Replay. intros H Hs. eapply (fold_sizes (fun db kv => Put db kv.1)); [| | exact H]; [intros x db1 db2 _; apply Put_sizes |]. by intros ? [= <-].
Qed.

(** The same sums along the flush list. *)
Fixpoint along (f : cachedNode -> Z) (m : gmap Z cachedNode) (L : list Z) : Z :=
  match L with [] => 0 | a :: L => match m !! a with Some n => f n | None => 0 end + along f m L end.

Lemma along_ext f m m' L : (forall a, a ∈ L -> f <$> m' !! a = f <$> m !! a) -> along f m' L = along f m L.
Proof.
  induction L as [| a L IH]; intros Hm; cbn; [done |]. rewrite IH by (intros b Hb; apply Hm; by right). f_equal.
  specialize (Hm a (list_elem_of_here _ _)). destruct (m' !! a), (m !! a); try done. by injection Hm.
Qed.

Lemma total_along f L : forall m, NoDup L -> (forall h, h ∈ L <-> is_Some (m !! h)) -> total f m = along f m L.
Proof.
  induction L as [| a L IH]; intros m Hnd Hm; cbn.
  - assert (m = ∅) as ->; [| done]. apply map_empty. intros k. destruct (m !! k) eqn:E; [| done]. exfalso. apply (not_elem_of_nil k). apply Hm. by rewrite E.
  - apply NoDup_cons in Hnd as [Ha Hnd]. assert (is_Some (m !! a)) as [n Hn] by (apply Hm; left). rewrite Hn.
    pose proof (total_delete f m a n Hn) as Ht. rewrite (IH (base.delete a m) Hnd) in Ht.
    + rewrite (along_ext f m (base.delete a m)) in Ht; [lia |]. intros b Hb. rewrite lookup_delete_ne; [done |]. by intros ->.
    + intros h. destruct (decide (h = a)) as [-> | Hne]; [rewrite lookup_delete_eq; split; [done | by intros [? ?]] |].
      rewrite lookup_delete_ne by done. rewrite <- Hm, elem_of_cons. naive_solver.
Qed.

(** What a node costs in memory, and the whole. *)
Definition weight (cns : Z) (n : cachedNode) : Z := blob_size n + cns + external_size n.

Lemma weight_along cns m L : (forall a, a ∈ L -> is_Some (m !! a)) -> along (weight cns) m L = along blob_size m L + along external_size m L + zlen L * cns.
Proof.
  induction L as [| a L IH]; intros Hm; cbn [along]; [by cbn |]. rewrite IH by (intros b Hb; apply Hm; by right).
  destruct (Hm a (list_elem_of_here _ _)) as [n ->]. unfold weight, zlen. cbn [length]. lia.
Qed.

Lemma size_along cns db L : list_ok db L -> sizes_ok db -> (db_Size cns db).2 = along (weight cns) (dirties db) L.
Proof.
  intros Hl [H1 H2]. pose proof Hl as [Hnd _ Hdom _ _ _]. rewrite weight_along by (intros a; apply Hdom). rewrite <- !total_along, <- H1, <- H2 by done.
  cbn. do 2 f_equal. unfold zlen. by rewrite (list_length _ _ Hl), length_map_to_list.
Qed.

Section Sizes.
Context `{rlp : RLP} (full : list (Z * bytes) -> bool) (fails : Disk -> list (Z * bytes) -> bool).

Lemma insert_sizes db h b db' : db_insert db h b = Val db' -> sizes_ok db -> sizes_ok db'.
Proof using Type.
  unfold db_insert. destruct (dirties db !! h) eqn:En; [by intros [= <-] |]. destruct (forChildren _) as [ch | |]; [| done | done]. cbn [mbind res_bind].
  set (m := foldl count_parent (dirties db) ch). set (entry := mkCached b 0 ∅ (newest db) 0). set (db1 := with_dirties (<[h := entry]> m) db). intros H [H1 H2].
  assert (forall k, content <$> m !! k = content <$> dirties db !! k) as Hm.
  { intros k. pose proof (count_parents (dirties db) ch k) as Hk. fold m in Hk. destruct (dirties db !! k), (m !! k); try done. cbn. f_equal. apply Hk. }
  assert (m !! h = None) as Hmh by (specialize (Hm h); rewrite En in Hm; by destruct (m !! h)).
  assert (forall db2, same_nodes db1 db2 -> sizes_ok (with_sizes (dirtiesSize db2 + (HashLength + zlen b)) (childrenSize db2) db2)) as Hend.
  { intros db2 (Hc & Hd & Hx). split; cbn [dirtiesSize childrenSize dirties with_sizes]; rewrite ?Hd, ?Hx; cbn [dirtiesSize childrenSize db1 with_dirties].
    - rewrite (blob_total (dirties db1) (dirties db2) Hc). cbn [dirties db1 with_dirties]. rewrite (total_insert _ _ _ _ Hmh), (blob_total _ _ Hm), H1. unfold blob_size at 2. cbn. lia.
    - rewrite (external_total (dirties db1) (dirties db2) Hc). cbn [dirties db1 with_dirties]. rewrite (total_insert _ _ _ _ Hmh), (external_total _ _ Hm), H2.
      unfold external_size at 2. cbn [entry external]. rewrite size_empty. lia. }
  destruct (oldest db1 =? 0).
  - cbn in H. injection H as <-. by apply (Hend (with_ends h h db1)).
  - destruct (modify (newest db1) (set_next h) db1) as [db2 | |] eqn:E2; [| done | done]. cbn in H. injection H as <-. apply (modify_same _ (set_next h)) in E2; [| done].
    apply (Hend (with_ends (oldest db2) h db2)). exact E2.
Qed.

Lemma reference_sizes db c p db' : reference db c p = Val db' -> sizes_ok db -> sizes_ok db'.
Proof using Type.
  unfold reference. destruct (dirties db !! c) as [n |] eqn:Ec; [| by intros [= <-]]. destruct (p =? 0).
  { intros [= <-]. apply same_sizes. split_and!; [| done..]. by apply (relink _ _ c (set_parents (u32 (parents n + 1))) n). }
  destruct (dirties db !! p) as [np |] eqn:Ep; [| done]. case_decide as Hin; [by intros [= <-] |].
  destruct (modify c _ db) as [db1 | |] eqn:E1; [| done | done]. cbn [mbind res_bind]. apply modify_same in E1; [| done]. intros H Hs.
  apply (same_sizes _ _ E1) in Hs. destruct E1 as [Hc _]. specialize (Hc p). unfold contents in Hc. rewrite Ep in Hc.
  unfold modify in H. destruct (dirties db1 !! p) as [n1 |] eqn:E2; [| done]. injection H as <-. injection Hc as Hb He. destruct Hs as [H1 H2].
  split; cbn [dirtiesSize childrenSize dirties with_sizes with_dirties].
  - rewrite (total_update _ _ _ n1 _ E2), H1. unfold blob_size. cbn. lia.
  - rewrite (total_update _ _ _ n1 _ E2), H2. unfold external_size. cbn [add_external external]. rewrite size_union, size_singleton; [lia |]. rewrite He. set_solver.
Qed.

(** ** Garbage collection *)

Section Heights.
Context (height : Z -> nat).

(** No node leads back to itself. *)
Definition falls (db : Database) : Prop := forall h c, contents db h = Some c -> forall k, k ∈ elements c.2 ++ kids c.1 -> (height k < height h)%nat.

(** What collecting may take: nodes below [b]. *)
Definition collected (b : nat) (db db' : Database) : Prop := forall k, contents db' k = contents db k \/ (contents db' k = None /\ (height k < b)%nat).

Lemma collected_falls b db db' : collected b db db' -> falls db -> falls db'.
Proof using Type. intros Hc Hf h c Hh. destruct (Hc h) as [He | [He _]]; rewrite He in Hh; [by eapply Hf | done]. Qed.

Lemma collected_trans b db1 db2 db3 : collected b db1 db2 -> collected b db2 db3 -> collected b db1 db3.
Proof using Type. intros H1 H2 k. destruct (H1 k) as [E1 | [E1 L1]], (H2 k) as [E2 | [E2 L2]]; rewrite E2, ?E1; tauto. Qed.

Lemma collected_le b b' db db' : (b <= b')%nat -> collected b db db' -> collected b' db db'.
Proof using Type. intros Hb H k. destruct (H k) as [E | [E L]]; [by left | right]. split; [done | lia]. Qed.

Lemma forChildren_inv n ch : forChildren n = Val ch -> ch = elements (external n) ++ kids (cn_node n).
Proof using Type. clear height. unfold forChildren, kids. destruct (ForGatherChildren (cn_node n)); [| done | done]. cbn. by intros [= <-]. Qed.

Lemma collect_children fuel h ch : (forall c db db', falls db -> sizes_ok db -> dereference fuel db c = Val db' -> sizes_ok db' /\ collected (S (height c)) db db') ->
  (forall c, c ∈ ch -> (height c < height h)%nat) -> forall db db', falls db -> sizes_ok db ->
  foldl (fun r child => db ← r; dereference fuel db child) (Val db) ch = Val db' -> sizes_ok db' /\ collected (height h) db db'.
Proof using Type.
  intros IH. induction ch as [| c ch IHc]; intros Hch db db' Hf Hs; cbn [foldl].
  - intros [= <-]. split; [done |]. intros k. by left.
  - cbn [mbind res_bind]. destruct (dereference fuel db c) as [db1 | why |] eqn:E1.
    + destruct (IH c db db1 Hf Hs E1) as [Hs1 Hc1]. intros H. apply IHc in H as [Hs2 Hc2]; [| intros x Hx; apply Hch; by right | by eapply collected_falls | done].
      split; [done |]. eapply collected_trans; [| done]. eapply collected_le; [| exact Hc1]. specialize (Hch c (list_elem_of_here _ _)). lia.
    + clear. induction ch; [done | done].
    + clear. induction ch; [done | done].
Qed.

(** Collecting a root takes only nodes that it leads to, and the counters stay exact. *)
Lemma dereference_ok fuel : forall h db db', falls db -> sizes_ok db -> dereference fuel db h = Val db' -> sizes_ok db' /\ collected (S (height h)) db db'.
Proof using Type.
  induction fuel as [| fuel IH]; intros h db db' Hf Hs; cbn [dereference]; [done |]. destruct (dirties db !! h) as [n |] eqn:En.
  2: { intros [= <-]. split; [done |]. intros k. by left. }
  set (n1 := if 0 <? parents n then set_parents (parents n - 1) n else n). set (db1 := with_dirties (<[h := n1]> (dirties db)) db).
  assert (content n1 = content n) as Hn1 by (unfold n1; by destruct (0 <? parents n)).
  assert (same_nodes db db1) as H01. { split_and!; [| done..]. by apply (relink _ _ h (fun _ => n1) n). }
  destruct (parents n1 =? 0).
  2: { intros [= <-]. split; [by eapply same_sizes |]. intros k. left. apply H01. }
  destruct (unlink h n1 db1) as [db2 | |] eqn:E2; [| done | done]. apply unlink_same in E2. destruct (forChildren n1) as [ch | |] eqn:Ech; [| done | done]. cbn [mbind res_bind].
  apply forChildren_inv in Ech. destruct (foldl _ (Val db2) ch) as [db3 | |] eqn:E3; [| done | done]. intros H. injection H as <-.
  pose proof (same_nodes_trans _ _ _ H01 E2) as H02. assert (forall k, contents db2 k = contents db k) as Hc by apply H02.
  assert (contents db h = Some (content n)) as Hh by (unfold contents; by rewrite En). assert (falls db2) as Hf2 by (intros k c Hk; rewrite Hc in Hk; by eapply Hf).
  destruct (collect_children fuel h ch IH) with (db := db2) (db' := db3) as [Hs3 Hc3]; [| done | by eapply same_sizes | done |].
  { intros c Hin. apply (Hf h (content n) Hh). rewrite <- Hn1. by rewrite Ech in Hin. }
  split.
  - apply forget_sizes; [| done]. rewrite Hn1. destruct (Hc3 h) as [-> | [_ Hl]]; [by rewrite Hc | lia].
  - intros k. destruct (decide (k = h)) as [-> | Hk]; [right; unfold contents; cbn; rewrite lookup_delete_eq; split; [done | lia] |].
    assert (contents (forget h n1 db3) k = contents db3 k) as -> by (unfold contents; cbn; by rewrite lookup_delete_ne).
    destruct (Hc3 k) as [-> | [-> Hl]]; [left; apply Hc | right; split; [done | lia]].
Qed.
End Heights.

(** ** Writing *)

Lemma Write_sizes w w' : Write fails w = Some w' -> sizes_ok (wr_db w) -> sizes_ok (wr_db w').
Proof using Type. unfold Write. destruct (fails _ _); [done |]. intros [= <-] [H1 H2]. by split. Qed.

Lemma flush_sizes w w' ok : flush_batch fails w = Val (w', ok) -> sizes_ok (wr_db w) -> sizes_ok (wr_db w').
Proof using Type.
  unfold flush_batch. destruct (Write fails w) as [w1 |] eqn:Ew; [| by intros [= <- _]]. destruct (Replay _ _) as [db1 | |] eqn:Er; [| done | done].
  cbn [mbind res_bind]. intros H Hs. injection H as <- _. cbn [wr_db]. eapply Replay_sizes; [done |]. by eapply Write_sizes.
Qed.

Lemma commit_sizes fuel : forall w h w' ok, db_commit full fails fuel w h = Val (w', ok) -> sizes_ok (wr_db w) -> sizes_ok (wr_db w').
Proof using Type.
  induction fuel as [| fuel IH]; intros w h w' ok; cbn [db_commit]; [done |]. destruct (dirties (wr_db w) !! h) as [n |]; [| by intros [= <- _]].
  destruct (forChildren n) as [ch | |]; [| done | done]. cbn [mbind res_bind]. destruct (foldl _ _ ch) as [[w1 ok1] | |] eqn:Ef; [| done | done]. intros H Hs.
  assert (sizes_ok (wr_db w1)) as Hs1.
  { clear H. revert Hs Ef. generalize true as ok0. revert w. induction ch as [| c ch IHc]; intros w ok0 Hs; cbn [foldl]; [by intros [= <- _] |]. cbn [mbind res_bind]. destruct ok0.
    - destruct (db_commit full fails fuel w c) as [[w2 ok2] | |] eqn:Ec; [eapply IHc; by eapply IH | |]; clear; induction ch; done.
    - by apply IHc. }
  cbn [mbind res_bind] in H. destruct ok1; cbn [negb] in H; [| by injection H as <- _]. destruct (full _); [by eapply flush_sizes in H | by injection H as <- _].
Qed.

Lemma Commit_sizes fuel db root db' ok ds : db_Commit full fails fuel db root = Val (db', ok, ds) -> sizes_ok db -> sizes_ok db'.
Proof using Type.
  unfold db_Commit. destruct (db_commit _ _ _ _ _) as [[w1 ok1] | |] eqn:E1; [| done | done]. cbn [mbind res_bind]. intros H Hs. apply commit_sizes in E1; [| done].
  destruct ok1; cbn [negb] in H; [| by injection H as <- _ _]. destruct (flush_batch fails w1) as [[w2 ok2] | |] eqn:E2; [| done | done]. cbn in H. injection H as <- _ _. by eapply flush_sizes.
Qed.
Lemma cap_loop_frame cns limit fuel : forall w sz o w' ok stop, cap_loop full fails cns limit fuel w sz o = Val (w', ok, stop) ->
  exists d, wr_db w' = with_disk d (wr_db w).
Proof using Type.
  induction fuel as [| fuel IH]; intros w sz o w' ok stop; cbn [cap_loop]; [done |]. assert (exists d, wr_db w = with_disk d (wr_db w)) as Hsame by (exists (diskdb (wr_db w)); by destruct (wr_db w)).
  destruct (_ && _); [| by intros [= <- _ _]]. destruct (dirties (wr_db w) !! o) as [n |]; [| done]. destruct (full _); [| intros [d Hd]%IH; by exists d].
  destruct (Write fails _) as [w1 |] eqn:Ew; [| by intros [= <- _ _]]. unfold Write in Ew. destruct (fails _ _); [done |]. injection Ew as <-.
  intros [d Hd]%IH. exists d. rewrite Hd. done.
Qed.

(** The loop stops at the limit or at the end of the list. *)
Lemma cap_loop_limit cns limit fuel : forall dn todo w sz w' stop, list_ok (wr_db w) (dn ++ todo) -> sz = along (weight cns) (dirties (wr_db w)) todo ->
  cap_loop full fails cns limit fuel w sz (hd 0 todo) = Val (w', true, stop) ->
  exists dn' todo', dn ++ todo = dn' ++ todo' /\ stop = hd 0 todo' /\ (todo' = [] \/ along (weight cns) (dirties (wr_db w)) todo' <= limit).
Proof using Type.
  induction fuel as [| fuel IH]; intros dn todo w sz w' stop Hl Hsz; cbn [cap_loop]; [done |]. destruct (limit <? sz) eqn:El; cbn [andb].
  2: { intros [= _ <-]. exists dn, todo. split_and!; [done.. | right]. apply Z.ltb_ge in El. by rewrite <- Hsz. }
  destruct todo as [| a todo]; cbn [hd]; [intros [= _ <-]; exists dn, []; by split_and!; [| | left] |].
  assert (a <> 0) as Ha0. { intros ->. apply (lo_nonzero _ _ Hl). rewrite elem_of_app. right. left. } rewrite (proj2 (Z.eqb_neq a 0)) by done. cbn [negb].
  destruct (dirties (wr_db w) !! a) as [n |] eqn:Hn; [| done]. rewrite (list_next _ _ _ _ _ Hl Hn). cbn [along] in Hsz. rewrite Hn in Hsz. change (dn ++ a :: todo) with (dn ++ [a] ++ todo) in *. rewrite app_assoc in *.
  assert (sz - (HashLength + zlen (cn_node n) + cns) - Z.of_nat (size (external n)) * HashLength = along (weight cns) (dirties (wr_db w)) todo) as Hsz'
    by (rewrite Hsz; unfold weight, blob_size, external_size; lia).
  destruct (full _); [| intros H; apply (IH (dn ++ [a])) in H; [exact H | exact Hl | exact Hsz']]. destruct (Write fails _) as [w1 |] eqn:Ew; [| done]. unfold Write in Ew. destruct (fails _ _); [done |]. injection Ew as <-.
  intros H. apply (IH (dn ++ [a])) in H; [exact H | | exact Hsz']. apply (list_ok_same (wr_db w)); [done.. |]. intros k. cbn. by destruct (dirties (wr_db w) !! k).
Qed.

Lemma clear_loop_frame stop fuel : forall db db', clear_loop fuel stop db = Val db' -> (sizes_ok db -> sizes_ok db') /\ forall k, contents db' k = contents db k \/ contents db' k = None.
Proof using Type.
  induction fuel as [| fuel IH]; intros db db'; cbn [clear_loop]; [done |]. destruct (oldest db =? stop); [intros [= <-]; by split; [| left] |].
  destruct (dirties db !! oldest db) as [n |] eqn:En; [| done]. intros [Hs Hc]%IH. split.
  - intros H. apply Hs. apply (same_sizes (forget (oldest db) n db)); [done |]. apply forget_sizes; [unfold contents; by rewrite En | done].
  - intros k. destruct (Hc k) as [-> | ->]; [| by right]. unfold contents. cbn. destruct (decide (k = oldest db)) as [-> | Hk]; [right; by rewrite lookup_delete_eq | left; by rewrite lookup_delete_ne].
Qed.

Lemma Cap_sizes cns limit fuel db db' ok ds : Cap full fails fuel cns limit db = Val (db', ok, ds) -> sizes_ok db -> sizes_ok db'.
Proof using Type.
  unfold Cap. destruct (cap_loop _ _ _ _ _ _ _ _) as [[[w ok1] stop] | |] eqn:El; [| done | done]. cbn [mbind res_bind]. intros HC Hs.
  destruct (cap_loop_frame _ _ _ _ _ _ _ _ _ El) as [d Hw]. cbn [wr_db] in Hw. assert (sizes_ok (wr_db w)) as Hsw by (rewrite Hw; by destruct Hs).
  destruct ok1; cbn [negb] in HC; [| by injection HC as <- <- _]. destruct (Write fails w) as [w1 |] eqn:Ew; [| by injection HC as <- <- _].
  destruct (clear_loop fuel stop (wr_db w1)) as [db2 | |] eqn:Ec; [| done | done]. cbn [mbind res_bind] in HC. apply clear_loop_frame in Ec as [Hs2 _].
  specialize (Hs2 (Write_sizes _ _ Ew Hsw)). destruct (oldest db2 =? 0); [by injection HC as <- _ _ |].
  destruct (modify _ _ db2) as [db3 | |] eqn:Em; [| done | done]. cbn in HC. injection HC as <- _ _. apply modify_same in Em; [by eapply same_sizes | done].
Qed.

(** A node of a flush list tells where it is. *)
Lemma suffix_unique (l1 l2 l1' l2' : list Z) : NoDup (l1 ++ l2) -> 0 ∉ l1 ++ l2 -> l1 ++ l2 = l1' ++ l2' -> hd 0 l2 = hd 0 l2' -> l2 = l2'.
Proof using Type.
  clear full fails. revert l1'. induction l1 as [| a l1 IH]; intros [| b l1'] Hnd Hz He Hh; cbn in *; [done | | | ].
  - subst l2. cbn in Hh. exfalso. apply NoDup_cons in Hnd as [Hb _]. destruct l2' as [| c l2']; cbn in Hh; subst b; [apply Hz; left |]. apply Hb, elem_of_app. right. left.
  - subst l2'. cbn in Hh. exfalso. apply NoDup_cons in Hnd as [Ha _]. destruct l2 as [| c l2]; cbn in Hh; subst a; [apply Hz; left |]. apply Ha, elem_of_app. right. left.
  - injection He as -> He. apply (IH l1'); [by apply NoDup_cons in Hnd as [_ ?] | set_solver | done | done].
Qed.

(** C35: What [Cap] is for ([vm/triedb/hashdb/database.go]): on a database in order, a cap that reports no error leaves
    nothing in memory, or no more than the limit: nodes, links and external children counted, as [Size] reports them.
    The counters it goes by stay exact, and nothing that can be read is lost. *)
Theorem Cap_bounds_memory height X cns limit fuel db : good height X db -> sizes_ok db -> (size (dirties db) < fuel)%nat ->
  exists db' ok ds, Cap full fails fuel cns limit db = Val (db', ok, ds) /\ sizes_ok db' /\ (forall k, db_node db' k = db_node db k) /\
  (ok = true -> dirties db' = ∅ \/ (db_Size cns db').2 <= limit).
Proof using Type.
  intros (L & r & Hinv) Hs Hf. destruct (Cap_ok full fails height X cns limit fuel L r db Hinv Hf) as (db' & ok & ds & HC & _ & Hv & _). exists db', ok, ds.
  split_and!; [done | by eapply Cap_sizes | done |].
  pose proof (di_list _ _ _ _ _ Hinv) as Hl. unfold Cap in HC. rewrite (lo_oldest _ _ Hl) in HC. rewrite <- (list_length _ _ Hl) in Hf.
  assert (dirtiesSize db + zlen (map_to_list (dirties db)) * cns + childrenSize db = along (weight cns) (dirties db) L) as Hsz.
  { rewrite <- (size_along cns db L Hl Hs). cbn. lia. }
  rewrite Hsz in HC. destruct (cap_loop_ok full fails height X cns limit r L fuel [] L (mkWriting db [] []) (along (weight cns) (dirties db) L)) as (w & ok1 & stop & El & _ & Hw1 & _ & Hst);
    [split; [done |]; intros k b Hk; by apply not_elem_of_nil in Hk | done | intros k Hk; by apply not_elem_of_nil in Hk | done |].
  rewrite El in HC. cbn [mbind res_bind] in HC. destruct (cap_loop_frame _ _ _ _ _ _ _ _ _ El) as [d Hw]. cbn [wr_db] in Hw.
  assert (sizes_ok (wr_db w)) as Hsw by (rewrite Hw; by destruct Hs). destruct ok1; cbn [negb] in HC; [| by injection HC as _ <- _].
  destruct (Write fails w) as [w1 |] eqn:Ew; [| by injection HC as _ <- _]. destruct (Hst eq_refl) as (dn & todo & -> & -> & Hdn).
  destruct (cap_loop_limit cns limit fuel [] (dn ++ todo) (mkWriting db [] []) _ _ _ Hl eq_refl El) as (dn' & todo' & He & Hh & Hlim). cbn [app wr_db] in He, Hlim.
  assert (todo = todo') as <-. { eapply suffix_unique; [apply Hl | apply Hl | exact He | exact Hh]. }
  destruct (Write_ok _ _ _ _ _ _ _ Hw1 Ew) as ([Hi2 _] & _ & _ & _ & _ & Hsv & _). rewrite length_app in Hf.
  destruct (clear_loop_ok height X r fuel dn todo (wr_db w1) Hi2) as (db2 & Ec & Hi3 & _); [intros k Hk; by apply Hsv, Hdn | lia |].
  rewrite Ec in HC. cbn [mbind res_bind] in HC. destruct (clear_loop_frame _ _ _ _ Ec) as [Hs2 Hc2]. specialize (Hs2 (Write_sizes _ _ Ew Hsw)).
  assert (dirties (wr_db w1) = dirties db) as Hd1 by (rewrite (Write_dirties _ _ _ Ew), Hw; done). pose proof (di_list _ _ _ _ _ Hi3) as Hl3.
  assert (dirties db2 = ∅ \/ (db_Size cns db2).2 <= limit) as Hend.
  { destruct Hlim as [-> | Hlim]; [left | right].
    - apply map_empty. intros k. destruct (dirties db2 !! k) eqn:E; [| done]. exfalso. apply (not_elem_of_nil k), (lo_dom _ _ Hl3). by rewrite E.
    - rewrite (size_along cns db2 todo Hl3 Hs2). rewrite (along_ext _ (dirties db)); [done |]. intros a Ha%(lo_dom _ _ Hl3).
      destruct (Hc2 a) as [Hc | Hc]; unfold contents in Hc; rewrite ?Hd1 in Hc; destruct (dirties db2 !! a), (dirties db !! a); try done; try (by destruct Ha).
      cbn. unfold weight, blob_size, external_size. by injection Hc as -> ->. }
  destruct (oldest db2 =? 0); [by injection HC as <- _ _ |]. destruct (modify (oldest db2) (set_prev 0) db2) as [db3 | |] eqn:Em; [| done | done].
  cbn in HC. injection HC as <- _ _. intros _.
  unfold modify in Em. destruct (dirties db2 !! oldest db2) as [n |] eqn:En; [| done]. injection Em as <-. destruct Hend as [H0 | Hle]; [by rewrite H0 in En | right].
  revert Hle. cbn. unfold zlen. rewrite !length_map_to_list, map_size_insert_Some by (by rewrite En). done.
Qed.
(** Every operation keeps the counters exact. *)
Lemma db_step_sizes fuel op db db' ok ds : db_step full fails fuel op db = Val (db', ok, ds) -> sizes_ok db -> sizes_ok db'.
Proof using Type.
  destruct op as [s | child parent | child | root | cns limit]; cbn [db_step].
  - destruct (insert_set db s) as [db1 | |] eqn:E; [| done | done]. cbn. intros [= <- _ _] Hs. unfold insert_set in E.
    eapply (fold_sizes (fun db pn => if IsDeleted pn.2 then Val db else db_insert db (nd_Hash pn.2) (nd_Blob pn.2))); [| | exact E]; [| by intros ? [= <-]].
    intros x a b _. destruct (IsDeleted x.2); [by intros [= <-] | apply insert_sizes].
  - destruct (reference _ _ _) as [db1 | |] eqn:E; [| done | done]. cbn. intros [= <- _ _]. by eapply reference_sizes.
  - destruct (reference _ _ _) as [db1 | |] eqn:E; [| done | done]. cbn. intros [= <- _ _]. by eapply reference_sizes.
  - apply Commit_sizes.
  - apply Cap_sizes.
Qed.

(** The size the database reports ([Size], and the size that [Cap] starts from) is exact at every moment of its life. *)
Theorem sizes_exact height X fuel ops db db' : life height full fails fuel X db ops db' -> sizes_ok db -> sizes_ok db'.
Proof using Type. induction 1 as [| X db op ops db1 ok ds db2 Hs _ _ IH]; [done |]. intros H. by eapply IH, db_step_sizes. Qed.
End Sizes.
