(* ===== verification/TrieDB.v ===== *)
(** * The trie database

    The wrapper over the node database: [Update] with the node sets of a state is a life of insertions and links, what
    [Commit] leaves on disk holds the state and its preimages. *)
From Stdlib Require Import ZArith Lia.
From stdpp Require Import base gmap strings list sorting fin_maps.
From S2P Require Import Prelude Utils JournalTypes Core TrieEncoding Trie TrieHash HashDB HashDBProofs HashDBCommit HashDBRun.

Section Update.
Context `{rlp : RLP} (height : Z -> nat) (full : list (Z * bytes) -> bool) (fails : Disk -> list (Z * bytes) -> bool) (fuel : nat)
  (account_root : bytes -> string + Z).

Definition run_db (ops : list db_op) (db : Database) : res Database :=
  foldl (fun r op => db ← r; '(db, _, _) ← db_step full fails fuel op db; Val db) (Val db) ops.

Definition link_of (lf : leaf) : list db_op :=
  match account_root (lf_Blob lf) with inr root => if root =? EmptyRootHash then [] else [DLink root (lf_Parent lf)] | inl _ => [] end.

(** The operations that [Update] stands for: the storage tries, the accounts, the links between them. *)
Definition update_ops (sets : gmap Z NodeSet) : list db_op :=
  (fun os => DUpdate os.2) <$> map_to_list (base.delete 0 sets) ++
  match sets !! 0 with Some s => (0, s) :: nil | None => [] end.

Definition link_ops (sets : gmap Z NodeSet) : list db_op := match sets !! 0 with Some s => Leaves s ≫= link_of | None => [] end.

Lemma run_db_app ops1 ops2 db : run_db (ops1 ++ ops2) db = db1 ← run_db ops1 db; run_db ops2 db1.
Proof using Type.
  unfold run_db. rewrite foldl_app. destruct (foldl _ (Val db) ops1) as [db1 | why |]; [done | |]; cbn; induction ops2; done.
Qed.

Lemma run_inserts (l : list (Z * NodeSet)) : forall db, run_db ((fun os => DUpdate os.2) <$> l) db = foldl (fun r os => db ← r; insert_set db os.2) (Val db) l.
Proof using Type.
  intros db. unfold run_db. generalize (Val db : res Database) as r. induction l as [| x l IH]; intros r; cbn [foldl fmap list_fmap]; [done |]. rewrite <- IH. f_equal.
  destruct r as [db1 | |]; cbn; [| done | done]. by destruct (insert_set db1 x.2).
Qed.

Lemma run_links l : (forall lf, lf ∈ l -> exists root, account_root (lf_Blob lf) = inr root) ->
  forall r, foldl (fun r lf => '(db, err) ← r; match err with Some _ => Val (db, err) | None => match account_root (lf_Blob lf) with inl e => Val (db, Some e) | inr root =>
    if root =? EmptyRootHash then Val (db, None) else db ← reference db root (lf_Parent lf); Val (db, None) end end) (db ← r; Val (db, None)) l =
  (db ← foldl (fun r op => db ← r; '(db, _, _) ← db_step full fails fuel op db; Val db) r (l ≫= link_of); Val (db, None : option string)).
Proof using Type.
  induction l as [| lf l IH]; intros Hl r; [by destruct r |]. cbn [foldl mbind list_bind]. rewrite foldl_app, <- IH by (intros x Hx; apply Hl; by right). f_equal.
  destruct (Hl lf (list_elem_of_here _ _)) as [root Hr]. unfold link_of. rewrite Hr. destruct r as [db | |]; cbn; destruct (root =? EmptyRootHash); cbn; try done.
  by destruct (reference db root (lf_Parent lf)).
Qed.

Lemma db_Update_run db sets : (forall s lf, sets !! 0 = Some s -> lf ∈ Leaves s -> exists root, account_root (lf_Blob lf) = inr root) ->
  db_Update account_root db sets = (db ← run_db (update_ops sets ++ link_ops sets) db; Val (db, None)).
Proof using Type.
  intros Hl. unfold db_Update, update_ops, link_ops. rewrite fmap_app, <- app_assoc, run_db_app, run_inserts. destruct (foldl _ (Val db) _) as [db1 | |]; [| done | done]. cbn [mbind res_bind].
  destruct (sets !! 0) as [s |] eqn:Es; [| done]. cbn [fmap list_fmap app snd]. rewrite (run_db_app [DUpdate s] (Leaves s ≫= link_of) db1 : run_db (DUpdate s :: (Leaves s ≫= link_of)) db1 = _).
  assert (run_db [DUpdate s] db1 = insert_set db1 s) as -> by (unfold run_db; cbn; by destruct (insert_set db1 s)). destruct (insert_set db1 s) as [db2 | |]; [| done | done].
  cbn [mbind res_bind]. unfold link_leaves, run_db. apply (run_links _ (fun lf Hlf => Hl s lf eq_refl Hlf) (Val db2)).
Qed.

Lemma life_run X db ops db' : life height full fails fuel X db ops db' -> run_db ops db = Val db'.
Proof using Type.
  unfold run_db. induction 1 as [| X db op ops db1 ok ds db2 Hs _ _ IH]; [done |]. cbn [foldl mbind res_bind]. rewrite Hs. exact IH.
Qed.

(** [Update] of the trie database ([vm/triedb/hashdb/database.go], [vm/triedb/database.go]) with the node sets of a
    state, the storage tries by owner and the accounts under owner zero, whose leaves all decode: it ends without
    error and is a life of the node database, the storage tries inserted before the accounts and each account linked
    to the storage root it names; so all that the life promises holds of it. *)
Theorem update_is_life X db sets : good height X db ->
  (forall s lf, sets !! 0 = Some s -> lf ∈ Leaves s -> exists root, account_root (lf_Blob lf) = inr root) ->
  all_allowed height full fails fuel db (update_ops sets ++ link_ops sets) ->
  exists db', db_Update account_root db sets = Val (db', None) /\ life height full fails fuel X db (update_ops sets ++ link_ops sets) db'.
Proof using Type.
  intros Hg Hl Ha. destruct (life_ok height full fails fuel _ X db Hg Ha) as (db' & Hlife & _). exists db'. split; [| done].
  rewrite db_Update_run by done. by rewrite (life_run _ _ _ _ Hlife).
Qed.
End Update.

(** ** Preimages *)

Section Preimages.
Context `{rlp : RLP} (full : list (Z * bytes) -> bool) (fails : Disk -> list (Z * bytes) -> bool) (pre_fails : preimageStore -> bool) (fuel : nat).

Lemma preimage_commit_keeps force s h : preimage (preimage_commit pre_fails force s) h = preimage s h.
Proof using Type.
  unfold preimage_commit. destruct (_ && _); [done |]. destruct (pre_fails s); [done |]. unfold preimage. cbn. rewrite lookup_empty.
  destruct (preimages s !! h) as [p |] eqn:E; [by rewrite (lookup_union_Some_l _ _ _ _ E) | by rewrite lookup_union_r].
Qed.

Lemma insertPreimage_spec l s h : preimage (insertPreimage l s) h = match preimages s !! h with Some p => Some p | None => match l !! h with Some p => Some p | None => pre_disk s !! h end end.
Proof using Type.
  unfold insertPreimage. assert (pre_disk (map_fold add_preimage s l) = pre_disk s /\
    preimages (map_fold add_preimage s l) !! h = match preimages s !! h with Some p => Some p | None => l !! h end) as [Hd Hp].
  { apply (map_fold_weak_ind (fun s' l => pre_disk s' = pre_disk s /\ preimages s' !! h = match preimages s !! h with Some p => Some p | None => l !! h end)).
    - split; [done |]. rewrite lookup_empty. by destruct (preimages s !! h).
    - intros k p m s' Hm [Hd Hp]. unfold add_preimage. destruct (preimages s' !! k) as [p' |] eqn:Ek.
      + split; [done |]. rewrite Hp. destruct (preimages s !! h) eqn:Eh; [done |]. destruct (decide (h = k)) as [-> | Hne]; [| by rewrite lookup_insert_ne].
        by rewrite Ek, Hm in Hp.
      + cbn. split; [done |]. destruct (decide (h = k)) as [-> | Hne]; [| by rewrite !lookup_insert_ne]. rewrite !lookup_insert_eq.
        rewrite Ek in Hp. destruct (preimages s !! k); done. }
  unfold preimage. rewrite Hp, Hd. by destruct (preimages s !! h), (l !! h).
Qed.

(** A preimage that was added is found from then on: what was known before stays, [Update], [Cap] and [Commit] lose
    none of them, and after a [Commit] whose batch of preimages was written a database opened on the disk finds them all. *)
Theorem preimages_kept t root t' ok ds s : td_preimages t = Some s -> td_Commit full fails pre_fails fuel t root = Val (t', ok, ds) ->
  exists s', td_preimages t' = Some s' /\ (forall h, Preimage t' h = Preimage t h) /\
  (pre_fails s = false -> forall h, Preimage (NewDatabase true (diskdb (backend t')) (pre_disk s')) h = Preimage t h).
Proof using Type.
  intros Hs. unfold td_Commit, commit_preimages. rewrite Hs. cbn [fmap option_fmap option_map backend]. destruct (db_Commit _ _ _ _ _) as [[[db ok'] ds'] | |]; [| done | done].
  cbn. intros [= <- _ _]. eexists. split; [reflexivity |]. unfold Preimage. rewrite Hs. cbn. split; [intros h; apply preimage_commit_keeps |].
  intros Hf h. rewrite <- (preimage_commit_keeps true s h). unfold preimage_commit. rewrite andb_false_r, Hf. cbn. unfold preimage. cbn. by rewrite lookup_empty.
Qed.
End Preimages.
