(* ===== verification/HashDBExamples.v ===== *)
(** * A node database at work

    Two tries that share a leaf and a storage trie: their node sets come from [Commit] of the model, are inserted,
    linked, capped and committed in batches of two. *)
From Stdlib Require Import ZArith Lia.
From stdpp Require Import base gmap strings list sorting fin_maps.
From S2P Require Import Prelude Utils JournalTypes Core TrieEncoding Trie TrieHash TrieExamples HashDB HashDBProofs HashDBCommit HashDBRun HashDBSizes TrieDB.
Import TrieExamples.Disk.

(** ** Deciding what an operation needs *)

Definition is_val {A} (r : res A) : bool := match r with Val _ => true | _ => false end.
Definition strictly_below (p q : bytes) : bool := bool_decide (take (length p) q = p) && (length p <? length q)%nat.

Section Checks.
Context (height : Z -> nat).

Definition child_ready (db : Database) (l : list (bytes * TrieHash.Node)) (p : bytes) (h k : Z) : bool :=
  (height k <? height h)%nat && (bool_decide (is_Some (db_node db k)) || existsb (fun x => strictly_below p x.1 && negb (IsDeleted x.2) && (nd_Hash x.2 =? k)) l).

Definition node_ready (db : Database) (l : list (bytes * TrieHash.Node)) (x : bytes * TrieHash.Node) : bool :=
  IsDeleted x.2 ||
  (negb (nd_Hash x.2 =? 0) && is_val (ForGatherChildren (nd_Blob x.2)) &&
   match db_node db (nd_Hash x.2) with Some b => bool_decide (b = nd_Blob x.2) | None => true end &&
   forallb (fun y => IsDeleted y.2 || negb (nd_Hash y.2 =? nd_Hash x.2) || bool_decide (nd_Blob y.2 = nd_Blob x.2)) l &&
   forallb (child_ready db l x.1 (nd_Hash x.2)) (kids (nd_Blob x.2))).

Lemma strictly_below_spec p q : strictly_below p q = true -> exists s, s <> [] /\ q = p ++ s.
Proof using Type.
  unfold strictly_below. rewrite andb_true_iff, bool_decide_eq_true, Nat.ltb_lt. intros [Ht Hl]. exists (drop (length p) q).
  split; [| by rewrite <- Ht at 1; rewrite take_drop]. intros Hd. apply (f_equal length) in Hd. rewrite length_drop in Hd. cbn in Hd. lia.
Qed.

Lemma set_ready_check db s : forallb (node_ready db (map_to_list (Nodes s))) (map_to_list (Nodes s)) = true -> set_ready height db s.
Proof using Type.
  rewrite forallb_forall. intros H. assert (forall p nd, Nodes s !! p = Some nd -> IsDeleted nd = false ->
    (nd_Hash nd =? 0) = false /\ is_val (ForGatherChildren (nd_Blob nd)) = true /\
    match db_node db (nd_Hash nd) with Some b => bool_decide (b = nd_Blob nd) | None => true end = true /\
    (forall y, y ∈ map_to_list (Nodes s) -> IsDeleted y.2 || negb (nd_Hash y.2 =? nd_Hash nd) || bool_decide (nd_Blob y.2 = nd_Blob nd) = true) /\
    (forall k, k ∈ kids (nd_Blob nd) -> child_ready db (map_to_list (Nodes s)) p (nd_Hash nd) k = true)) as Hx.
  { intros p nd Hp%elem_of_map_to_list Hd. apply list_elem_of_In, H in Hp. unfold node_ready in Hp. cbn [fst snd] in Hp. rewrite Hd in Hp. cbn [orb] in Hp.
    rewrite !andb_true_iff, negb_true_iff, !forallb_forall in Hp. destruct Hp as [[[[H1 H2] H3] H4] H5].
    split_and!; [done.. | intros y Hy; by apply H4, list_elem_of_In | intros k Hk; by apply H5, list_elem_of_In]. }
  clear H. constructor.
  - intros p nd Hp Hd. destruct (Hx p nd Hp Hd) as (H1 & H2 & _). split; [by apply Z.eqb_neq |]. unfold decodable, kids. by destruct (ForGatherChildren _).
  - intros p nd b Hp Hd Hb. destruct (Hx p nd Hp Hd) as (_ & _ & H3 & _). rewrite Hb in H3. by apply bool_decide_eq_true in H3.
  - intros p nd p' nd' Hp Hp' Hd Hd' He. destruct (Hx p nd Hp Hd) as (_ & _ & _ & H4 & _). specialize (H4 (p', nd') (proj2 (elem_of_map_to_list _ _ _) Hp')). cbn [snd] in H4.
    rewrite Hd', He, Z.eqb_refl in H4. by apply bool_decide_eq_true in H4.
  - intros p nd k Hp Hd Hk. destruct (Hx p nd Hp Hd) as (_ & _ & _ & _ & H5). specialize (H5 k Hk). unfold child_ready in H5.
    apply andb_true_iff in H5 as [Hh%Nat.ltb_lt [Ha%bool_decide_eq_true | He]%orb_true_iff]; split; [done | by left | done | right].
    apply existsb_exists in He as ([q nd'] & Hq%list_elem_of_In%elem_of_map_to_list & [[Hs Hn]%andb_true_iff Hz%Z.eqb_eq]%andb_true_iff).
    cbn [fst snd] in Hs, Hn, Hz. apply strictly_below_spec in Hs as (r & Hr & ->). exists r, nd'. split_and!; [done.. | | done]. by apply negb_true_iff.
Qed.
End Checks.

Fixpoint seg_check (m : gmap Z cachedNode) (p : option Z) (L : list Z) (q : Z) : bool :=
  match L with
  | [] => true
  | a :: L => match m !! a with
              | Some n => match p with Some b => flushPrev n =? b | None => true end && (flushNext n =? hd q L) && seg_check m (Some a) L q
              | None => false
              end
  end.

Lemma seg_check_spec m p L q : seg_check m p L q = true -> seg m p L q.
Proof.
  revert p. induction L as [| a L IH]; intros p; cbn; [done |]. destruct (m !! a) as [n |] eqn:En; [| done]. rewrite !andb_true_iff. intros [[Hp Hq%Z.eqb_eq] Hs].
  exists n. split_and!; [done | | done | by apply IH]. destruct p; [by apply Z.eqb_eq | done].
Qed.

Definition list_check (db : Database) (L : list Z) : bool :=
  bool_decide (NoDup L) && bool_decide (0 ∉ L) && bool_decide (dom (dirties db) = list_to_set L) && (oldest db =? hd 0 L) &&
  match last L with Some h => newest db =? h | None => true end && seg_check (dirties db) None L 0.

Lemma list_check_spec db L : list_check db L = true -> list_ok db L.
Proof.
  unfold list_check. rewrite !andb_true_iff, !bool_decide_eq_true, Z.eqb_eq. intros [[[[[Hn H0] Hd] Ho] Hl] Hs]. constructor; [done | done | | done | | by apply seg_check_spec].
  - intros h. by rewrite <- elem_of_dom, Hd, elem_of_list_to_set.
  - intros h Hh. rewrite Hh in Hl. by apply Z.eqb_eq.
Qed.

Module NodeStore.

Definition no_nodes : Z -> string + Reader := fun _ => inl "state is not available".

(** The root and the nodes of a trie with these entries. *)
Definition committed_trie (l : list (bytes * bytes)) : res (Z * option NodeSet) :=
  t ← New (TrieID EmptyRootHash) no_nodes;
  match t with
  | inl _ => Crash "no trie"
  | inr t =>
      t ← foldl (fun r kv => t ← r; '(_, t) ← Update 20 t kv.1 kv.2; Val t) (Val t) l;
      match Commit keccak t false with Ret (h, s, _) => Val (h, s) | Panic why => Crash why end
  end.

Definition long (n : Z) : bytes := replicate 34 n ++ [n; 1].
Definition storage_entries : list (bytes * bytes) := [([16], long 3)].
Definition first_entries : list (bytes * bytes) := [([1; 2], long 7); ([18; 3], long 8)].
Definition second_entries : list (bytes * bytes) := [([1; 2], long 7); ([18; 3], long 9)].

Definition set_of (l : list (bytes * bytes)) : NodeSet := match committed_trie l with Val (_, Some s) => s | _ => NewNodeSet 0 end.
Definition root_of (l : list (bytes * bytes)) : Z := match committed_trie l with Val (h, _) => h | _ => 0 end.

Definition storage_set : NodeSet := Eval vm_compute in set_of storage_entries.
Definition first_set : NodeSet := Eval vm_compute in set_of first_entries.
Definition second_set : NodeSet := Eval vm_compute in set_of second_entries.
Definition storage_root : Z := Eval vm_compute in root_of storage_entries.
Definition first_root : Z := Eval vm_compute in root_of first_entries.
Definition second_root : Z := Eval vm_compute in root_of second_entries.
(** The leaf both tries have, an account that names the storage trie. *)
Definition account_leaf : Z := Eval vm_compute in match Nodes first_set !! [0] with Some nd => nd_Hash nd | None => 0 end.

Definition depth (h : Z) : nat := if decide (h = storage_root) then 0 else if decide (h = first_root \/ h = second_root) then 2 else 1.

(** Batches of two, and no write fails. *)
Definition two (batch : list (Z * bytes)) : bool := (2 <=? length batch)%nat.
Definition never (_ : Disk) (_ : list (Z * bytes)) : bool := false.

Definition life_ops : list db_op :=
  [DUpdate storage_set; DUpdate first_set; DLink storage_root account_leaf; DRoot first_root; DCap 100 400; DUpdate second_set; DCommit second_root].

Definition next (op : db_op) (db : Database) : Database := match db_step two never 9 op db with Val (db, _, _) => db | _ => db end.
Definition s1 : Database := Eval vm_compute in next (DUpdate storage_set) (New_hashdb ∅).
Definition s2 : Database := Eval vm_compute in next (DUpdate first_set) s1.
Definition s3 : Database := Eval vm_compute in next (DLink storage_root account_leaf) s2.
Definition s4 : Database := Eval vm_compute in next (DRoot first_root) s3.
Definition s5 : Database := Eval vm_compute in next (DCap 100 400) s4.
Definition s6 : Database := Eval vm_compute in next (DUpdate second_set) s5.

Lemma allowed_cons db op ops db' ok ds : db_step two never 9 op db = Val (db', ok, ds) -> allowed depth 9 db op -> all_allowed depth two never 9 db' ops ->
  all_allowed depth two never 9 db (op :: ops).
Proof. intros Hs Ha Hr. split; [done |]. intros db1 ok1 ds1 H. rewrite Hs in H. by injection H as <- _ _. Qed.

Lemma linked_account : allowed depth 9 s2 (DLink storage_root account_leaf).
Proof.
  set (L := [storage_root; match Nodes first_set !! [1] with Some nd => nd_Hash nd | None => 0 end; account_leaf; first_root]).
  exists L. split; [apply list_check_spec; vm_compute; reflexivity |]. constructor.
  - apply (bool_decide_unpack _). vm_compute. exact I.
  - vm_compute. lia.
  - right. split; [vm_compute; reflexivity |]. exists (take 2 L), (drop 3 L). split; [vm_compute; reflexivity |]. left.
Qed.

Lemma life_allowed : all_allowed depth two never 9 (New_hashdb ∅) life_ops.
Proof.
  eapply (allowed_cons _ _ _ s1); [vm_compute; reflexivity | apply set_ready_check; vm_compute; reflexivity |].
  eapply (allowed_cons _ _ _ s2); [vm_compute; reflexivity | apply set_ready_check; vm_compute; reflexivity |].
  eapply (allowed_cons _ _ _ s3); [vm_compute; reflexivity | apply linked_account |].
  eapply (allowed_cons _ _ _ s4); [vm_compute; reflexivity | exact I |].
  eapply (allowed_cons _ _ _ s5); [vm_compute; reflexivity | apply Nat.ltb_lt; vm_compute; reflexivity |].
  eapply (allowed_cons _ _ _ s6); [vm_compute; reflexivity | apply set_ready_check; vm_compute; reflexivity |].
  split; [| done]. split; [apply Nat.ltb_lt; vm_compute; reflexivity | apply (bool_decide_unpack _); vm_compute; exact I].
Qed.

Lemma empty_disk : complete_disk no_externals ∅.
Proof. intros h b Hb. by rewrite lookup_empty in Hb. Qed.


(** The flush wrote the three oldest nodes, so the account that is inserted again is on disk already; the commit wrote the second trie, and the first root stays in memory. *)
Example life_result :
  match db_step two never 9 (DCommit second_root) s6 with
  | Val (db, ok, ds) => ok = true /\ length ds = 2%nat /\ forallb (fun h => bool_decide (is_Some (diskdb db !! h))) [second_root; account_leaf; storage_root] = true /\
      bool_decide (is_Some (dirties db !! first_root)) = true /\ size (diskdb s5) = 3%nat
  | _ => False
  end.
Proof. vm_compute. repeat split. Qed.

(** ** The flush, and the sets as one [Update] *)

Lemma good_next X db op db' ok ds : good depth X db -> allowed depth 9 db op -> db_step two never 9 op db = Val (db', ok, ds) -> good depth (X_step op X) db'.
Proof. intros Hg Ha Hs. destruct (db_step_ok depth two never 9 X db op Hg Ha) as (db1 & ok1 & ds1 & Hs1 & Hp). rewrite Hs in Hs1. injection Hs1 as <- _ _. apply Hp. Qed.

Lemma good_s3 : good depth (link no_externals storage_root account_leaf) s3.
Proof.
  eapply (good_next no_externals s2 (DLink storage_root account_leaf)); [| apply linked_account | vm_compute; reflexivity].
  eapply (good_next no_externals s1 (DUpdate first_set)); [| apply set_ready_check; vm_compute; reflexivity | vm_compute; reflexivity].
  eapply (good_next no_externals (New_hashdb ∅) (DUpdate storage_set)); [apply new_good, empty_disk | apply set_ready_check; vm_compute; reflexivity | vm_compute; reflexivity].
Qed.

Lemma sizes_s3 : sizes_ok s3.
Proof. split; vm_compute; reflexivity. Qed.

(** A limit of 400 with 100 for each node: three nodes go. *)
Lemma Cap_bounds_memory_witness :
  exists db' ok ds, Cap two never 9 100 400 s3 = Val (db', ok, ds) /\ sizes_ok db' /\ (forall k, db_node db' k = db_node s3 k) /\
  (ok = true -> dirties db' = ∅ \/ (db_Size 100 db').2 <= 400).
Proof. apply (Cap_bounds_memory two never depth (link no_externals storage_root account_leaf) 100 400 9 s3 good_s3 sizes_s3). apply Nat.ltb_lt. vm_compute. reflexivity. Defined.

(** The accounts with a leaf that names the storage trie. *)
Definition state_sets : gmap Z NodeSet :=
  {[ 0 := mkNodeSet 0 [mkLeaf [] account_leaf] (Nodes first_set) 3 0; 77 := storage_set ]}.

Definition names_storage (_ : bytes) : string + Z := inr storage_root.

Lemma state_ops : update_ops state_sets ++ link_ops names_storage state_sets =
  [DUpdate storage_set; DUpdate (mkNodeSet 0 [mkLeaf [] account_leaf] (Nodes first_set) 3 0); DLink storage_root account_leaf].
Proof. vm_compute. reflexivity. Qed.

Lemma update_is_life_witness :
  exists db', db_Update names_storage (New_hashdb ∅) state_sets = Val (db', None) /\
    life depth two never 9 no_externals (New_hashdb ∅) (update_ops state_sets ++ link_ops names_storage state_sets) db'.
Proof.
  apply (update_is_life depth two never 9 names_storage no_externals (New_hashdb ∅) state_sets).
  - apply new_good, empty_disk.
  - intros s lf _ _. by exists storage_root.
  - rewrite state_ops. eapply (allowed_cons _ _ _ s1); [vm_compute; reflexivity | apply set_ready_check; vm_compute; reflexivity |].
    eapply (allowed_cons _ _ _ s2); [vm_compute; reflexivity | apply set_ready_check; vm_compute; reflexivity |].
    split; [apply linked_account | done].
Defined.
End NodeStore.
