(* ===== verification/TrieLife.v ===== *)
(** * The life of tries in the node database

    What a commit of a trie hands to [hashdb], what the disk alone reads, and rounds of a trie with flushes and restarts. *)
From Stdlib Require Import ZArith Lia.
From stdpp Require Import base gmap strings list.
From S2P Require Import Prelude Utils JournalTypes Core TrieEncoding Trie TrieHash TrieProofs TrieMap TrieRoot TrieDecode TrieCommit.
From S2P Require Import TrieReopen TrieHistory HashDB HashDBProofs HashDBCommit HashDBRun.

(** ** The nodes of a round in the node database

    What [Commit] of a trie gives is what [Update] of [hashdb] asks for: every child of a node is in the database or deeper
    in the set; and what the database reads afterwards is the store with the set added. *)

(** ** The hashes in a node *)

(** The loop over the first children of a full node. *)
Definition gather_first : nat -> list node -> list Z :=
  fix first (i : nat) (cs : list node) : list Z := match i, cs with S i, c :: cs => forGatherChildren c ++ first i cs | _, _ => [] end.

Lemma gather_full cs f k : k ∈ forGatherChildren (fullNode cs f) <-> exists i c, (i < 16)%nat /\ cs !! i = Some c /\ k ∈ forGatherChildren c.
Proof.
  change (forGatherChildren (fullNode cs f)) with (gather_first 16 cs). generalize 16%nat as j. intros j. revert cs. induction j as [| j IH]; intros [| c cs]; cbn [gather_first].
  - split; [by intros ?%not_elem_of_nil | intros (i & c & ? & _); lia].
  - split; [by intros ?%not_elem_of_nil | intros (i & d & ? & _); lia].
  - split; [by intros ?%not_elem_of_nil | intros (i & c & _ & ? & _); done].
  - rewrite elem_of_app, IH. split.
    + intros [H | (i & d & Hi & Hd & H)]; [by exists 0%nat, c; split_and!; [lia | |] | exists (S i), d; split_and!; [lia | done | done]].
    + intros ([| i] & d & Hi & Hd & H); [left; by injection Hd as <- | right; exists i, d; split_and!; [lia | done | done]].
Qed.

Section Ready.
Context `{rlp : RLP} `{rlpe : !RLPEmpty rlp} `{rlpl : !RLPLaws rlp} (keccak : bytes -> bytes).
Context (keccak_length : forall e, length (keccak e) = 32%nat) (keccak_bytes : forall e, Forall is_byte (keccak e)).
#[local] Abbreviation WF := (WF keccak).
#[local] Abbreviation node_rlp := (node_rlp keccak).
#[local] Abbreviation flagged := (flagged keccak).
#[local] Abbreviation view := (view keccak).
#[local] Abbreviation sub := (sub keccak).

Lemma gather_view hash n k : loaded n -> k ∈ forGatherChildren (view hash n) -> exists q c, child_at n q c /\ k ∈ forGatherChildren (sub c).
Proof using Type.
  clear keccak_length keccak_bytes rlpe rlpl. intros Hl Hk. destruct n as [| cs f | x c f | |]; try done.
  - cbn [TrieDecode.view] in Hk. apply gather_full in Hk as (i & c & _ & Hc & Hk). rewrite list_lookup_fmap in Hc. destruct (cs !! i) as [d |] eqn:Hd; [| done]. injection Hc as <-.
    exists [Z.of_nat i], d. split; [exists i; split_and!; [done | done |] | done]. intros ->. by apply not_elem_of_nil in Hk.
  - exists x, c. by split.
Qed.

Section OneSet.
Context (rd : trieReader) (V : store_map) (Hle : included rd (over V)) (N : gmap bytes TrieHash.Node).

(** A child is in the store, or in the set where it stands or deeper. *)
Definition available (p : bytes) (k : Z) : Prop :=
  is_Some (V k) \/ exists q nd, N !! (p ++ q) = Some nd /\ IsDeleted nd = false /\ nd_Hash nd = k.

Lemma available_below p q k : available (p ++ q) k -> available p k.
Proof using Type. clear. intros [H | (r & nd & Hn & H)]; [by left | right]. exists (q ++ r), nd. by rewrite app_assoc. Qed.

Lemma resolves_available p h n : resolves rd h p n -> is_Some (V (BytesToHash h)).
Proof using Hle. clear keccak_length keccak_bytes rlpe rlpl. intros (b & Hb & _). apply Hle, over_node in Hb as [Hb _]. by eexists. Qed.

Lemma available_step p n k : WF rd p n -> loaded n -> p <> [] -> flagged n -> recorded keccak N p n -> k ∈ forGatherChildren (sub n) ->
  (forall q c, child_at n q c -> flagged c -> recorded keccak N (p ++ q) c -> k ∈ forGatherChildren (sub c) -> available (p ++ q) k) -> available p k.
Proof using Hle keccak_length rlpl.
  clear keccak_bytes rlpe. intros Hw Hl Hp Hfl Hrec Hk IH. destruct (node_flag n) as [f |] eqn:Hf; [| by destruct n].
  unfold sub, TrieDecode.sub, standin in Hk. rewrite decide_True in Hk by done. destruct (Z.ltb_spec (zlen (node_rlp n)) 32) as [Hs | Hs].
  - destruct (gather_view None n k Hl Hk) as (q & c & Hc & Hkc). apply (available_below p q). apply (IH q c); [done | | by eapply small_recorded | done].
    assert (Forall flagged (subnodes n)) as Hkf by (eapply kids_flagged; done). rewrite Forall_forall in Hkf. by apply Hkf, (child_in n q).
  - apply list_elem_of_singleton in Hk as ->. destruct (Hfl f Hf Hs) as [h Hh]. destruct (WF_linked _ _ _ _ _ _ Hw Hf Hh) as [He _]. rewrite <- He.
    destruct (recorded_cases keccak N p n f Hrec Hf) as [[_ Hd] | [Ho _]].
    + left. pose proof (WF_flag _ _ _ _ _ Hw Hf) as Hfo. unfold flag_ok in Hfo. rewrite Hh in Hfo. destruct Hfo as (_ & _ & Hkept). destruct (Hkept Hd) as (x & Hr & _). by eapply resolves_available.
    + right. unfold own in Ho. rewrite Hh in Ho. exists [], (mkNode (BytesToHash h) (node_rlp n)). rewrite app_nil_r. split_and!; [done | by apply rlp_not_deleted | done].
Qed.

Lemma available_ok p n : WF rd p n -> p <> [] -> flagged n -> recorded keccak N p n -> forall k, k ∈ forGatherChildren (sub n) -> available p k.
Proof using Hle keccak_length rlpl.
  clear keccak_bytes rlpe. induction 1 as [q v Hq Hv | p x c f Hp Hx Hw IH Ht Hfo | p cs f Hp Hl Hw IH H2 Hfo | p h n Hp Hr Hl Hw IH Hlk]; intros Hne Hfl Hrec k Hk.
  - rewrite sub_leaf in Hk by (by intros []). by apply not_elem_of_nil in Hk.
  - apply (available_step p (shortNode x c f)); [by constructor | done | done | done | done | done |]. intros q c' [-> ->] Hfc Hrc Hkc. apply IH; [by destruct p | done..].
  - apply (available_step p (fullNode cs f)); [by constructor | done | done | done | done | done |]. intros q c' (i & -> & Hi & Hn) Hfc Hrc Hkc. apply (IH i c'); [done | done | by destruct p | done..].
  - rewrite sub_leaf in Hk by (by intros []). apply list_elem_of_singleton in Hk as ->. left. by eapply resolves_available.
Qed.

(** The children of a fresh node. *)
Lemma fresh_children q nd : fresh keccak rd N q nd -> decodable (nd_Blob nd) /\
  forall k, k ∈ kids (nd_Blob nd) -> is_Some (V k) \/ exists r nd', r <> [] /\ N !! (q ++ r) = Some nd' /\ IsDeleted nd' = false /\ nd_Hash nd' = k.
Proof using Hle keccak_length rlpe rlpl.
  clear keccak_bytes. intros (m & f & h & Hw & Hl & Hf & Hh & -> & Hq & Hrec). cbn [nd_Blob].
  assert (ForGatherChildren (node_rlp m) = Val (forGatherChildren (view None m))) as Hg by (unfold ForGatherChildren; by rewrite (mustDecode_view keccak keccak_length rd q m None Hw Hl)).
  split; [unfold decodable, kids; by rewrite Hg |]. unfold kids. rewrite Hg. intros k Hk. destruct (gather_view None m k Hl Hk) as (r & c & Hc & Hkc).
  destruct (child_wf keccak rd q m r c) as [Hwc Hr]; [done | done |]. pose proof (WF_flag _ _ _ _ _ Hw Hf) as Hfo. unfold flag_ok in Hfo. rewrite Hh in Hfo. destruct Hfo as (_ & Hkf & _).
  rewrite Forall_forall in Hkf. destruct (available_ok (q ++ r) c Hwc ltac:(by destruct q, r) (Hkf c (child_in m r c Hc)) (Hrec r c Hc) k Hkc) as [H | (y & nd & Hn & Hd & He)]; [by left | right].
  exists (r ++ y), nd. rewrite app_assoc. split_and!; [by destruct r | done..].
Qed.
End OneSet.
End Ready.

(** ** The nodes of a round in the node database *)

Lemma put_lookup V l k : (put V l k = V k /\ forall x, x ∈ l -> IsDeleted x.2 = false -> nd_Hash x.2 <> k) \/
  exists x, x ∈ l /\ IsDeleted x.2 = false /\ nd_Hash x.2 = k /\ put V l k = Some (nd_Blob x.2).
Proof.
  unfold put. induction l as [| x l IH] using rev_ind; [left; split; [done | intros x Hx; by apply not_elem_of_nil in Hx] |]. rewrite foldl_app. cbn [foldl].
  assert (IsDeleted x.2 = true \/ nd_Hash x.2 <> k \/ (IsDeleted x.2 = false /\ nd_Hash x.2 = k)) as [Hd | [Hk | [Hd Hk]]].
  { destruct (IsDeleted x.2); [by left |]. destruct (decide (nd_Hash x.2 = k)); tauto. }
  - rewrite Hd. destruct IH as [[He Hl] | (y & Hy & H)]; [left | right; exists y; rewrite elem_of_app; tauto].
    split; [done |]. intros y [Hy | ->%list_elem_of_singleton]%elem_of_app; [by apply Hl | congruence].
  - assert ((if IsDeleted x.2 then put V l else fun k => if decide (k = nd_Hash x.2) then Some (nd_Blob x.2) else put V l k) k = put V l k) as Hx.
    { destruct (IsDeleted x.2); [done |]. by rewrite decide_False by done. }
    unfold put in Hx. rewrite Hx. destruct IH as [[He Hl] | (y & Hy & H)]; [left | right; exists y; rewrite elem_of_app; tauto].
    split; [done |]. intros y [Hy | ->%list_elem_of_singleton]%elem_of_app; [by apply Hl | done].
  - right. exists x. rewrite Hd, decide_True by done. split_and!; [apply elem_of_app; right; left | done..].
Qed.

Section Life.
Context `{rlp : RLP} `{rlpe : !RLPEmpty rlp} `{rlpl : !RLPLaws rlp} (keccak : bytes -> bytes).
Context (keccak_length : forall e, length (keccak e) = 32%nat) (keccak_bytes : forall e, Forall is_byte (keccak e)).
Context (height : Z -> nat).

(** The hashes of new nodes name those nodes alone, and no node is below itself: what a hash without collisions gives. *)
Record apart (V : store_map) (s : NodeSet) : Prop := {
  ap_names : forall q nd, Nodes s !! q = Some nd -> IsDeleted nd = false -> nd_Hash nd <> 0 /\ nd_Hash nd <> EmptyRootHash;
  ap_agrees : forall q nd b, Nodes s !! q = Some nd -> IsDeleted nd = false -> V (nd_Hash nd) = Some b -> b = nd_Blob nd;
  ap_unique : forall q nd q' nd', Nodes s !! q = Some nd -> Nodes s !! q' = Some nd' -> IsDeleted nd = false -> IsDeleted nd' = false ->
    nd_Hash nd' = nd_Hash nd -> nd_Blob nd' = nd_Blob nd;
  ap_height : forall q nd k, Nodes s !! q = Some nd -> IsDeleted nd = false -> k ∈ kids (nd_Blob nd) -> (height k < height (nd_Hash nd))%nat
}.

Lemma round_ready db root' s m' : round_post keccak (db_node db) root' (Some s) m' -> apart (db_node db) s -> set_ready height db s.
Proof using keccak_length rlpe rlpl.
  clear keccak_bytes. intros [(rd & _ & Hle & Hfresh) _] [Hn Ha Hu Hh]. cbn [set_nodes] in Hfresh.
  assert (forall q nd, Nodes s !! q = Some nd -> IsDeleted nd = false -> fresh keccak rd (Nodes s) q nd) as Hf by (intros q nd Hq Hd; destruct (Hfresh q nd Hq); [congruence | done]).
  split; [| done | done |].
  - intros q nd Hq Hd. split; [by apply (Hn q) |]. by apply (fresh_children keccak keccak_length rd (db_node db) Hle (Nodes s) q nd (Hf q nd Hq Hd)).
  - intros q nd k Hq Hd Hk. split; [by apply (Hh q) |]. by apply (fresh_children keccak keccak_length rd (db_node db) Hle (Nodes s) q nd (Hf q nd Hq Hd)).
Qed.

Lemma one_set s nd : in_sets [set_nodes (Some s)] nd <-> exists q, Nodes s !! q = Some nd /\ IsDeleted nd = false.
Proof using Type.
  clear. split; [intros (N & q & HN & Hq & Hd) | intros (q & Hq & Hd); exists (Nodes s), q; split_and!; [left | done..]].
  apply list_elem_of_singleton in HN as ->. by exists q.
Qed.

Lemma put_adds V s V' : apart V s -> (forall k, V' k = put V (ForEachWithOrder s) k) -> adds V V' (Some s).
Proof using Type.
  clear keccak_bytes keccak_length rlpe rlpl. intros [Hn Ha Hu _] HV.
  assert (forall x, x ∈ ForEachWithOrder s -> Nodes s !! x.1 = Some x.2) as Hin by (intros [p nd] Hx; by apply ordered_elem). split.
  - intros h b Hb. rewrite HV. destruct (put_lookup V (ForEachWithOrder s) h) as [[-> _] | (x & Hx & Hd & <- & ->)]; [done |]. f_equal. symmetry. by apply (Ha x.1 x.2); [apply Hin | |].
  - intros nd (q & Hq & Hd)%one_set. rewrite HV. pose proof (proj2 (ordered_elem s q nd) Hq) as Hx. destruct (put_lookup V (ForEachWithOrder s) (nd_Hash nd)) as [[_ Hno] | (y & Hy & Hdy & Hhy & ->)].
    + by destruct (Hno _ Hx Hd).
    + f_equal. by apply (Hu q nd y.1 y.2); [| apply Hin | | |].
  - intros h b Hb. rewrite HV in Hb. destruct (put_lookup V (ForEachWithOrder s) h) as [[He _] | (x & Hx & Hd & Hh & He)]; rewrite He in Hb; [by left | right].
    injection Hb as <-. exists x.2. split_and!; [apply one_set; exists x.1; split; [by apply Hin | done] | done..].
  - intros nd (q & Hq & Hd)%one_set. by eapply Hn.
Qed.

Lemma Reader_serves db : serves (Reader_of db) (db_node db).
Proof using Type.
  clear. intros root [b Hb]. unfold Reader_of. rewrite Hb. eexists. split; [reflexivity |]. intros owner p h c Hc. cbn beta. destruct (db_node db h) as [x |]; cbn [default id]; unfold id; split; congruence.
Qed.
End Life.

(** ** A part of the store

    A part of a store that has the children of all its nodes reads its nodes as the whole store does. *)

(** ** What is decoded *)

(** No hash is cached. *)
Inductive plain : node -> Prop :=
| plain_leaf n : ~ loaded n -> plain n
| plain_short k c d : plain c -> plain (shortNode k c (mkFlag None d))
| plain_full cs d : Forall plain cs -> plain (fullNode cs (mkFlag None d)).

(** The same node without its hash. *)
Definition bare (n : node) : node :=
  match n with shortNode k c f => shortNode k c (mkFlag None (f_dirty f)) | fullNode cs f => fullNode cs (mkFlag None (f_dirty f)) | n => n end.

Section Decoded.
Context `{rlp : RLP}.

Definition gives_plain (fuel : nat) : Prop := forall b n, decodeNode fuel None b = Val (inr n) -> plain n.

Lemma decodeRef_plain fuel buf n rest : gives_plain fuel -> decodeRef (decodeNode fuel) buf = Val (inr (n, rest)) -> plain n.
Proof using Type.
  intros IH. unfold decodeRef. destruct (Split buf) as [e | [[[| |] c] r]]; [done | done | |].
  - destruct c as [| b c]; [intros [= <- _]; apply plain_leaf; by intros [] |]. destruct (_ =? _); [intros [= <- _]; apply plain_leaf; by intros [] | done].
  - destruct (_ <? _); [done |]. destruct (decodeNode fuel None buf) as [[e | m] | |] eqn:E; cbn; [done | | done | done]. intros [= <- _]. by eapply IH.
Qed.

Lemma decodeChildren_plain fuel todo : gives_plain fuel -> forall i buf acc cs rest,
  decodeChildren (decodeNode fuel) todo i buf acc = Val (inr (cs, rest)) -> Forall plain acc -> Forall plain cs.
Proof using Type.
  intros IH. induction todo as [| todo IHt]; intros i buf acc cs rest; cbn [decodeChildren]; [by intros [= <- _] |].
  destruct (decodeRef _ buf) as [[e | [c r]] | |] eqn:E; cbn; [done | | done | done]. intros H Hacc. eapply IHt; [exact H |]. apply Forall_app. split; [done |]. constructor; [| done]. by eapply decodeRef_plain.
Qed.

(** A node is decoded with its hash as without it, and carries none below. *)
Lemma decode_bare fuel : forall hash buf n, decodeNode fuel hash buf = Val (inr n) -> decodeNode fuel None buf = Val (inr (bare n)) /\ plain (bare n).
Proof using Type.
  induction fuel as [| fuel IH]; intros hash buf n; [done |]. assert (gives_plain fuel) as Hp.
  { intros b m Hm. destruct (IH None b m Hm) as [Hm' Hb]. rewrite Hm in Hm'. injection Hm' as He. by rewrite He. }
  cbn [decodeNode]. destruct (zlen buf =? 0); [done |]. destruct (SplitList buf) as [e | [elems rest]]; [done |]. destruct (CountValues elems =? 2).
  - unfold decodeShort. destruct (SplitString elems) as [e | [kbuf r]]; [done |]. destruct (compactToHex kbuf) as [key |]; [| done]. cbn. destruct (hasTerm key) as [[] |]; cbn; [| | done].
    + destruct (SplitString r) as [e | [val r']]; [done |]. cbn. intros [= <-]. split; [done |]. apply plain_short, plain_leaf. by intros [].
    + destruct (decodeRef _ r) as [[e | [c r']] | |] eqn:E; cbn; [done | | done | done]. intros [= <-]. split; [done |]. apply plain_short. by eapply decodeRef_plain.
  - destruct (CountValues elems =? 17); [| done]. unfold decodeFull. destruct (decodeChildren _ _ _ _ _) as [[e | [cs r]] | |] eqn:E; cbn; [done | | done | done].
    destruct (SplitString r) as [e | [val r']]; cbn; [done |]. intros [= <-]. split; [done |]. apply plain_full, Forall_app. split; [by eapply decodeChildren_plain |].
    constructor; [| done]. apply plain_leaf. by destruct (0 <? zlen val); intros [].
Qed.

Lemma gather_bare n : forGatherChildren (bare n) = forGatherChildren n.
Proof using Type. by destruct n. Qed.

Lemma must_decode_bare hash buf n : mustDecodeNode hash buf = Val n -> plain (bare n) /\ kids buf = forGatherChildren n.
Proof using Type.
  unfold kids, ForGatherChildren, mustDecodeNode. destruct (decodeNode (S (length buf)) hash buf) as [[e | m] | |] eqn:E; cbn [mbind res_bind mret res_ret]; [done | | done | done]. intros [= <-].
  destruct (decode_bare _ _ _ _ E) as [-> Hp]. split; [done |]. apply gather_bare.
Qed.
End Decoded.

(** ** The part *)

Section Shrink.
Context `{rlp : RLP} (keccak : bytes -> bytes) (W V : store_map).
Context (Hsub : forall h b, W h = Some b -> V h = Some b) (Hclosed : forall h b k, W h = Some b -> k ∈ kids b -> is_Some (W k)).
#[local] Abbreviation WF := (WF keccak).

Definition part (p : bytes) (n : node) : Prop :=
  WF (over W) p n /\ (forall k v, Has (over V) p n k v -> Has (over W) p n k v) /\ (tip (over V) p n -> tip (over W) p n).

(** A node as it is decoded, embedded in another or under its hash. *)
Definition from_store (p : bytes) (n : node) : Prop := plain n \/ (plain (bare n) /\ exists h, resolves (over W) h p n).

Lemma resolves_part h p n : resolves (over V) h p n -> is_Some (W (BytesToHash h)) -> resolves (over W) h p n /\ forall k, k ∈ forGatherChildren n -> is_Some (W k).
Proof using Hsub Hclosed.
  intros (b & [Hb Hne]%over_node & Hn) [c Hc]. pose proof (Hsub _ _ Hc) as Hc'. rewrite Hb in Hc'. injection Hc' as <-. split.
  - exists b. split; [by apply over_node | done].
  - intros k Hk. apply (Hclosed _ _ _ Hc). by rewrite (proj2 (must_decode_bare _ _ _ Hn)).
Qed.

Lemma part_flag p n f : WF (over V) p n -> node_flag n = Some f -> from_store p n -> flag_ok keccak (over W) p n f.
Proof using Type.
  clear Hsub Hclosed. intros Hw Hf Hfrom. pose proof (WF_flag _ _ _ _ _ Hw Hf) as Hfo. destruct Hfrom as [Hp | (_ & h & Hr)].
  - inversion Hp; subst; [by destruct n | injection Hf as <-; exact Hfo..].
  - pose proof (resolves_flag _ _ _ _ Hr) as Hf'. rewrite Hf in Hf'. injection Hf' as ->. unfold flag_ok in *. cbn [f_hash f_dirty] in *. destruct Hfo as (Hl & Hk & _).
    split_and!; [done.. |]. intros _. exists n. split_and!; [done | by destruct n | done..].
Qed.

Lemma part_child p n q c : child_at n q c -> from_store p n -> plain c.
Proof using Type.
  clear. intros Hc Hfrom. assert (plain (bare n)) as Hp by (destruct Hfrom as [Hp | [Hp _]]; [inversion Hp; subst; [by destruct n | done..] | done]).
  destruct n as [| cs f | k d f | |]; try done; inversion Hp as [? Hl | ? ? ? Hd | ? ? Hd]; subst; try (by destruct Hl).
  - destruct Hc as (i & _ & Hi & _). rewrite Forall_lookup in Hd. by eapply Hd.
  - by destruct Hc as [_ ->].
Qed.

Lemma part_ok p n : WF (over V) p n -> from_store p n -> (forall k, k ∈ forGatherChildren n -> is_Some (W k)) -> part p n.
Proof using Hsub Hclosed.
  induction 1 as [q v Hq Hv | p x c f Hp Hx Hw IH Ht Hfo | p cs f Hp Hl Hw IH H2 Hfo | p h n Hp Hr Hl Hw IH Hlk]; intros Hfrom Hk.
  - split_and!; [by constructor | | done]. intros k w [-> ->]%Has_value_inv. constructor.
  - destruct IH as (Iw & Ih & It); [left; by eapply (part_child p (shortNode x c f) x) | done |]. split_and!; [| | done].
    + constructor; [done | done | done | by apply It |]. apply part_flag; [by constructor | done | done].
    + intros k v (r & -> & H)%Has_short_inv. constructor. by apply Ih.
  - assert (forall i c, cs !! i = Some c -> c <> Nil -> part (p ++ [Z.of_nat i]) c) as Hc.
    { intros i c Hi Hn. apply (IH i c Hi Hn); [left; eapply (part_child p (fullNode cs f) [Z.of_nat i]); [by exists i | done] |]. intros k Hkc. apply Hk, gather_full. exists i, c. split_and!; [| done | done].
      destruct (Nat.lt_ge_cases i 16) as [| Hge]; [done | exfalso]. pose proof (WF_nibbles _ _ _ _ (Hw i c Hi Hn)) as Hnb.
      assert (~ nibbles (p ++ [Z.of_nat i])) as Hno by (intros Hz; apply nibbles_app in Hz as [_ Hz]; inversion Hz as [| ? ? Hb]; subst; unfold is_nibble in Hb; lia).
      destruct c; try done. by apply not_elem_of_nil in Hkc. }
    split_and!; [| | done].
    + constructor; [done | done | by intros i c Hi Hn; apply (Hc i c Hi Hn) | done |]. apply part_flag; [by constructor | done | done].
    + intros k v (i & c & r & -> & Hi & H)%Has_full_inv. econstructor; [done |]. apply (Hc i c Hi); [| done]. intros ->. by apply Has_nil in H.
  - destruct (resolves_part h p n Hr) as [Hr' Hkids]; [apply Hk; left |].
    assert (from_store p n) as Hfn. { right. destruct Hr as (b & Hb & Hn). split; [by apply (must_decode_bare _ _ _ Hn) | by exists h]. }
    destruct (IH Hfn Hkids) as (Iw & Ih & _). split_and!.
    + by econstructor.
    + intros k v Hh. rewrite (Has_hash_inv _ _ _ _ _ _ Hr) in Hh. rewrite (Has_hash_inv _ _ _ _ _ _ Hr'). by apply Ih.
    + intros (cs & f & Hrf). exists cs, f. by rewrite <- (resolves_fun _ _ _ _ _ Hr Hrf).
Qed.

Lemma included_part : included (over W) (over V).
Proof using Hsub. by apply over_included. Qed.

Lemma sound_part : sound keccak (over V) -> sound keccak (over W).
Proof using Hsub Hclosed.
  intros Hs p h n Hp Hr Hl Hlk. pose proof (resolves_grow _ _ included_part _ _ _ Hr) as HrV. destruct (resolves_part h p n HrV) as [_ Hk].
  { destruct Hr as (b & [Hb _]%over_node & _). by eexists. }
  apply part_ok; [by eapply Hs | | done]. right. split; [| by exists h]. destruct Hr as (b & _ & Hn). by apply (must_decode_bare _ _ _ Hn).
Qed.

(** A root whose node is in the part is known there. *)
Lemma known_part root m : known keccak V root m -> (~ no_root root -> is_Some (W root)) -> known keccak W root m.
Proof using Hsub Hclosed.
  intros [? | (Hn & (h & Hr & Hh & Hw & Hc) & Hkeys)] HW; [by left | right]. specialize (HW Hn). split_and!; [done | | done]. exists h. subst root.
  assert (part [] (hashNode h)) as (Pw & Ph & _). { apply part_ok; [done | left; apply plain_leaf; by intros [] |]. by intros k ->%list_elem_of_singleton. }
  split_and!; [done.. |]. eapply content_same; [| exact Hc]. intros k v. split; [apply (Has_grow _ _ included_part) | apply Ph].
Qed.

Lemma store_ok_part : store_ok keccak V -> store_ok keccak W.
Proof using Hsub Hclosed.
  intros [Hs Hn]. split; [by apply sound_part |]. intros root Hr. destruct (W root) as [b |] eqn:Hb; [| done]. apply Hsub in Hb. by rewrite Hn in Hb.
Qed.
End Shrink.

(** ** Tries in the node database

    Rounds of a trie over [hashdb], with [Cap], [Commit], references and restarts between them: every root ever committed can
    be opened again, and over the disk alone once it was written. *)

Section Life.
Context `{rlp : RLP} `{rlpe : !RLPEmpty rlp} `{rlpl : !RLPLaws rlp} (keccak : bytes -> bytes).
Context (keccak_length : forall e, length (keccak e) = 32%nat) (keccak_bytes : forall e, Forall is_byte (keccak e)).
Context (height : Z -> nat) (full : list (Z * bytes) -> bool) (fails : Disk -> list (Z * bytes) -> bool) (fuel dfuel : nat).
#[local] Abbreviation db_step := (db_step full fails dfuel).
#[local] Abbreviation trie_round := (trie_round keccak fuel).

Definition versions : Type := list (Z * gmap bytes bytes).

(** [Update] with the set of a round, if there is one. *)
Definition take_set (db : Database) (s : option NodeSet) : res Database := match s with Some s => insert_set db s | None => Val db end.

(** The hashes of the new nodes do not collide. *)
Definition apart_set (db : Database) (s : option NodeSet) : Prop := match s with Some s => apart height (db_node db) s | None => True end.

(** The versions whose root is on the disk. *)
Definition on_disk (d : Disk) (vers : versions) : versions := base.filter (fun v => v.1 = EmptyRootHash \/ is_Some (d !! v.1)) vers.

(** What can become of the database, and the versions of the map that were committed. *)
Inductive reached : (Z -> gset Z) -> Database -> versions -> Prop :=
| re_new : reached no_externals (New_hashdb ∅) [(EmptyRootHash, ∅)]
| re_round X db vers root m ops answers root' s db' : reached X db vers -> (root, m) ∈ vers -> Forall (op_ok fuel) ops ->
    trie_round (Reader_of db) root ops = Val (inr (answers, root', s)) -> apart_set db s -> take_set db s = Val db' ->
    reached X db' ((root', (map_ops m ops).2) :: vers)
| re_db X db vers op db' ok ds : reached X db vers -> (forall s, op <> DUpdate s) -> allowed height dfuel db op ->
    db_step op db = Val (db', ok, ds) -> reached (X_step op X) db' vers
| re_restart X db vers : reached X db vers -> reached no_externals (reopened db) (on_disk (diskdb db) vers).

Record life_inv (X : Z -> gset Z) (db : Database) (vers : versions) : Prop := {
  li_good : good height X db;
  li_store : store_ok keccak (db_node db);
  li_known : forall root m, (root, m) ∈ vers -> known keccak (db_node db) root m
}.

Lemma known_ext V V' root m : store_ok keccak V -> (forall k, V' k = V k) -> known keccak V root m -> known keccak V' root m.
Proof using Type. clear. intros [Hs _] He. apply known_grow; [done |]. intros h b. by rewrite He. Qed.

(** The set of a round is taken, and the store knows the new root. *)
Lemma take_ok X db root' s m' : good height X db -> store_ok keccak (db_node db) -> round_post keccak (db_node db) root' s m' -> apart_set db s ->
  exists db', take_set db s = Val db' /\ good height X db' /\ adds (db_node db) (db_node db') s.
Proof using keccak_length rlpe rlpl.
  clear keccak_bytes. intros Hg Hst Hp Ha. destruct s as [s |]; cbn [take_set apart_set] in *.
  - destruct Hg as (L & r & Hinv). destruct (insert_set_ok height X L r db s Hinv) as (db' & L' & r' & Hrun & Hi & _ & Hv); [by eapply round_ready |].
    exists db'. split_and!; [done | by exists L', r' | by eapply put_adds].
  - exists db. split_and!; [done | done |]. split; [done | | by left |]; intros nd (N & q & ->%list_elem_of_singleton & Hq & _); cbn in Hq; by rewrite lookup_empty in Hq.
Qed.

Lemma inv_round X db vers root m ops answers root' s db' : life_inv X db vers -> (root, m) ∈ vers -> Forall (op_ok fuel) ops ->
  trie_round (Reader_of db) root ops = Val (inr (answers, root', s)) -> apart_set db s -> take_set db s = Val db' ->
  life_inv X db' ((root', (map_ops m ops).2) :: vers).
Proof using keccak_length keccak_bytes rlpe rlpl.
  intros [Hg Hst Hkn] Hin Hops Hrun Ha Htake. destruct (round_spec keccak keccak_length keccak_bytes fuel (Reader_of db) (db_node db) root m ops Hst (Reader_serves db) (Hkn _ _ Hin) Hops) as (r1 & s1 & Hrun1 & Hp).
  rewrite Hrun in Hrun1. injection Hrun1 as _ <- <-. destruct (take_ok X db root' s _ Hg Hst Hp Ha) as (db1 & Htake1 & Hg1 & Had). rewrite Htake in Htake1. injection Htake1 as <-.
  destruct (rd_adds _ _ _ _ _ Hp _ Had) as [Hst' Hnew]. split; [done | done |]. intros r v [[= -> ->] | Hv]%elem_of_cons; [done |].
  eapply known_grow; [apply Hst | apply Had | by apply Hkn].
Qed.

Lemma inv_db X db vers op db' ok ds : life_inv X db vers -> (forall s, op <> DUpdate s) -> allowed height dfuel db op ->
  db_step op db = Val (db', ok, ds) -> life_inv (X_step op X) db' vers.
Proof using Type.
  clear. intros [Hg Hst Hkn] Hop Hal Hrun. destruct (db_step_ok height full fails dfuel X db op Hg Hal) as (db1 & ok1 & ds1 & Hrun1 & Hp). rewrite Hrun in Hrun1. injection Hrun1 as <- <- <-.
  assert (forall k, db_node db' k = db_node db k) as He by (intros k; rewrite (sp_store _ _ _ _ _ _ _ _ Hp k); destruct op as [s | | | |]; [by destruct (Hop s) | done..]).
  split; [apply Hp | by eapply store_ok_ext | intros root m Hv; eapply known_ext; [done | done | by apply Hkn]].
Qed.

Lemma reopened_node X db h b : good height X db -> db_node (reopened db) h = Some b <-> diskdb db !! h = Some b.
Proof using Type.
  clear. intros (L & r & Hinv). unfold db_node, reopened, New_hashdb. cbn. rewrite lookup_empty. split.
  - destruct (h =? 0); [done |]. destruct (diskdb db !! h) as [[| x l] |]; [done | by intros [= <-] | done].
  - intros Hb. destruct (di_closed _ _ _ _ _ Hinv _ _ Hb) as (H0 & Hne & _). rewrite (proj2 (Z.eqb_neq h 0)), Hb by done. by destruct b.
Qed.

Lemma inv_restart X db vers : life_inv X db vers -> life_inv no_externals (reopened db) (on_disk (diskdb db) vers).
Proof using Type.
  clear keccak_length keccak_bytes. intros [Hg Hst Hkn]. assert (forall h b, db_node (reopened db) h = Some b -> db_node db h = Some b) as Hsub.
  { intros h b Hb%(reopened_node X); [| done]. destruct Hg as (L & r & Hinv). by eapply db_node_disk. }
  assert (forall h b k, db_node (reopened db) h = Some b -> k ∈ kids b -> is_Some (db_node (reopened db) k)) as Hclosed.
  { intros h b k Hb%(reopened_node X) Hk; [| done]. pose proof Hg as (L & r & Hinv). destruct (di_closed _ _ _ _ _ Hinv _ _ Hb) as (_ & _ & Hd). destruct (Hd k (or_intror Hk)) as [c Hc].
    exists c. by apply (reopened_node X). }
  split.
  - apply new_good. pose proof Hg as (L & r & Hinv). intros h b Hb. destruct (di_closed _ _ _ _ _ Hinv _ _ Hb) as (H0 & Hne & Hd). split_and!; [done | done |].
    intros k [Hk%elem_of_empty | Hk]; [done |]. apply Hd. by right.
  - by apply (store_ok_part keccak _ _ Hsub Hclosed).
  - intros root m [Hd Hv]%list_elem_of_filter. apply (known_part keccak _ _ Hsub Hclosed); [by apply Hkn |]. intros Hn. destruct Hd as [He | [b Hb]]; [by destruct Hn; right |].
    exists b. by apply (reopened_node X).
Qed.

Lemma reached_inv X db vers : reached X db vers -> life_inv X db vers.
Proof using keccak_length keccak_bytes rlpe rlpl.
  induction 1 as [| X db vers root m ops answers root' s db' _ IH Hin Hops Hrun Ha Htake | X db vers op db' ok ds _ IH Hop Hal Hrun | X db vers _ IH].
  - split; [apply new_good; intros h b Hb; by rewrite lookup_empty in Hb | apply store_ok_empty |].
    + intros k. unfold db_node, New_hashdb. cbn. rewrite !lookup_empty. by destruct (k =? 0).
    + intros root m [= -> ->]%list_elem_of_singleton. left. split; [by right | done].
  - by eapply inv_round.
  - by eapply inv_db.
  - by eapply inv_restart.
Qed.

(** C8: the state database keeps what was committed. A database that began empty goes through any rounds (a trie opened with
    [New] at a root that was committed before, changed by any operations and committed with [Commit], its nodes given to
    [Update]), [Cap]s, [Commit]s, references and restarts from the disk, in any order, and no two nodes share a hash. Then
    every version that was committed, and since a restart was on the disk, opens again by its root, without an error, and
    answers every sequence of operations as the map that was committed does; the nodes of its [Commit] are taken by [Update]
    without a panic. When the database writes a root with [Commit] and reports no error, that version opens and answers the
    same from the disk alone. *)
Theorem committed_state_persists X db vers root m ops : reached X db vers -> (root, m) ∈ vers -> Forall (op_ok fuel) ops ->
  (exists root' s, trie_round (Reader_of db) root ops = Val (inr (map (fun v => (v, None)) (map_ops m ops).1, root', s)) /\
    (apart_set db s -> exists db', take_set db s = Val db')) /\
  (forall db' ds, allowed height dfuel db (DCommit root) -> db_step (DCommit root) db = Val (db', true, ds) ->
    exists root' s, trie_round (Reader_of (reopened db')) root ops = Val (inr (map (fun v => (v, None)) (map_ops m ops).1, root', s))).
Proof using keccak_length keccak_bytes rlpe rlpl.
  intros Hre Hin Hops. pose proof (reached_inv _ _ _ Hre) as Hi. pose proof Hi as [Hg Hst Hkn]. split.
  - destruct (round_spec keccak keccak_length keccak_bytes fuel (Reader_of db) (db_node db) root m ops Hst (Reader_serves db) (Hkn _ _ Hin) Hops) as (root' & s & Hrun & Hp).
    exists root', s. split; [done |]. intros Ha. destruct (take_ok X db root' s _ Hg Hst Hp Ha) as (db' & Htake & _). by exists db'.
  - intros db' ds Hal Hrun. pose proof (inv_db X db vers (DCommit root) db' true ds Hi ltac:(done) Hal Hrun) as Hi'. pose proof (inv_restart _ _ _ Hi') as [_ Hst' Hkn'].
    assert ((root, m) ∈ on_disk (diskdb db') vers) as Hin'.
    { apply list_elem_of_filter. split; [| done]. right. cbn [fst]. destruct (db_step_ok height full fails dfuel X db (DCommit root) Hg Hal) as (db1 & ok1 & ds1 & Hrun1 & Hp).
      rewrite Hrun in Hrun1. injection Hrun1 as <- <- <-. destruct (sp_commit _ _ _ _ _ _ _ _ Hp root eq_refl eq_refl root) as [[b Hb] He]; [constructor |].
      exists b. apply (reopened_node _ db' root b (li_good _ _ _ Hi')). congruence. }
    destruct (round_spec keccak keccak_length keccak_bytes fuel (Reader_of (reopened db')) _ root m ops Hst' (Reader_serves _) (Hkn' _ _ Hin') Hops) as (root' & s & Hrun' & _). by exists root', s.
Qed.
End Life.

