(* ===== verification/TrieLifeExamples.v ===== *)
(** * A state database at work

    An executable [rlp] that satisfies the laws, a hash of 32 bytes, and a database that takes three rounds with a flush
    and a restart between them. *)
From Stdlib Require Import ZArith Lia.
From stdpp Require Import base gmap strings list.
From S2P Require Import Prelude Utils JournalTypes Core TrieEncoding Trie TrieHash TrieProofs TrieMap TrieRoot TrieDecode TrieReopen TrieHistory.
From S2P Require Import HashDB HashDBProofs HashDBCommit HashDBRun TrieLife.

Module Lengths.

(** ** Lengths before contents *)

Definition encode_string (s : bytes) : bytes := match s with [] => [128] | [b] => if b <? 128 then [b] else [129; 1; b] | _ => 129 :: zlen s :: s end.
Definition encode_list (c : bytes) : bytes := 130 :: zlen c :: c.

Definition split (b : bytes) : string + (Kind * bytes * bytes) :=
  match b with
  | [] => inl "unexpected EOF"
  | b0 :: r =>
      if b0 <? 128 then inr (KByte, [b0], r) else if b0 =? 128 then inr (KString, [], r) else
      match r with
      | [] => inl "unexpected EOF"
      | n :: r => inr (if b0 =? 129 then KString else KList, take (Z.to_nat n) r, drop (Z.to_nat n) r)
      end
  end.

Fixpoint count (fuel : nat) (b : bytes) : Z :=
  match fuel, split b with S fuel, inr (_, _, rest) => 1 + count fuel rest | _, _ => 0 end.

#[export] Instance rlp : RLP := {|
  Split := split;
  SplitString b := match split b with inr (KList, _, _) => inl "expected String or Byte" | inr (_, c, r) => inr (c, r) | inl e => inl e end;
  SplitList b := match split b with inr (KList, c, r) => inr (c, r) | inr _ => inl "expected List" | inl e => inl e end;
  CountValues b := count (length b) b;
  EncodeString := encode_string;
  EncodeList := encode_list
|}.

#[export] Instance rlp_empty : RLPEmpty rlp.
Proof. by split. Qed.

Lemma split_string s rest : split (encode_string s ++ rest) = inr (match s with [b] => if b <? 128 then KByte else KString | _ => KString end, s, rest).
Proof.
  destruct s as [| b [| c s]]; cbn -[Z.ltb zlen]; [done | |].
  - destruct (b <? 128) eqn:Hb; cbn -[Z.ltb]; [by rewrite Hb | done].
  - unfold zlen. rewrite Nat2Z.id. cbn. by rewrite take_app_length, drop_app_length.
Qed.

Lemma split_list c rest : split (encode_list c ++ rest) = inr (KList, c, rest).
Proof. cbn -[zlen]. unfold zlen. by rewrite Nat2Z.id, take_app_length, drop_app_length. Qed.

Lemma split_shorter b k c r : split b = inr (k, c, r) -> (length r < length b)%nat.
Proof.
  destruct b as [| b0 b]; cbn -[Z.ltb]; [done |]. destruct (b0 <? 128); [intros [= _ _ <-]; lia |]. destruct (b0 =? 128); [intros [= _ _ <-]; lia |].
  destruct b as [| n b]; [done |]. intros [= _ _ <-]. rewrite length_drop. cbn. lia.
Qed.

Lemma count_fuel fuel : forall b, (length b <= fuel)%nat -> count fuel b = count (length b) b.
Proof.
  induction fuel as [fuel IH] using lt_wf_ind. intros b Hb. destruct b as [| b0 b]; [by destruct fuel |]. destruct fuel as [| fuel]; [cbn in Hb; lia |].
  cbn [count length]. destruct (split (b0 :: b)) as [e | [[k c] r]] eqn:E; [done |]. apply split_shorter in E. cbn in E, Hb. rewrite (IH fuel), (IH (length b)) by lia. done.
Qed.

Lemma count_cons b k c r : split b = inr (k, c, r) -> count (length b) b = 1 + count (length r) r.
Proof.
  intros H. pose proof (split_shorter _ _ _ _ H) as Hl. destruct (length b) as [| n] eqn:En; [lia |]. cbn [count]. rewrite H. f_equal. apply count_fuel. lia.
Qed.

#[export] Instance rlp_laws : RLPLaws rlp.
Proof.
  split; cbn [Split SplitString SplitList CountValues EncodeString EncodeList rlp].
  - apply split_string.
  - apply split_list.
  - intros s rest. rewrite split_string. destruct s as [| b [| c s]]; try done. by destruct (b <? 128).
  - intros c rest. by rewrite split_list.
  - done.
  - intros s rest. by eapply count_cons, split_string.
  - intros c rest. by eapply count_cons, split_list.
  - intros c. cbn. lia.
  - intros [| b [| c s]]; cbn -[Z.ltb]; [lia | destruct (b <? 128); cbn; lia | lia].
Qed.

(** A hash of 32 bytes. *)
Definition keccak (l : bytes) : bytes := be_bytes 32 (bytes_to_Z l).

Lemma keccak_length e : length (keccak e) = 32%nat.
Proof. apply be_bytes_length. Qed.

Lemma keccak_bytes e : Forall is_byte (keccak e).
Proof. apply be_bytes_range. Qed.

End Lengths.
Import Lengths.

(** ** Deciding that hashes do not collide *)

Definition node_apart (height : Z -> nat) (V : store_map) (l : list (bytes * TrieHash.Node)) (x : bytes * TrieHash.Node) : bool :=
  IsDeleted x.2 ||
  (negb (nd_Hash x.2 =? 0) && negb (nd_Hash x.2 =? EmptyRootHash) &&
   match V (nd_Hash x.2) with Some b => bool_decide (b = nd_Blob x.2) | None => true end &&
   forallb (fun y => IsDeleted y.2 || negb (nd_Hash y.2 =? nd_Hash x.2) || bool_decide (nd_Blob y.2 = nd_Blob x.2)) l &&
   forallb (fun k => (height k <? height (nd_Hash x.2))%nat) (kids (nd_Blob x.2))).

Lemma apart_check height V s : forallb (node_apart height V (map_to_list (Nodes s))) (map_to_list (Nodes s)) = true -> apart height V s.
Proof.
  rewrite forallb_forall. intros H. assert (forall p nd, Nodes s !! p = Some nd -> IsDeleted nd = false ->
    nd_Hash nd <> 0 /\ nd_Hash nd <> EmptyRootHash /\ match V (nd_Hash nd) with Some b => bool_decide (b = nd_Blob nd) | None => true end = true /\
    (forall y, y ∈ map_to_list (Nodes s) -> IsDeleted y.2 || negb (nd_Hash y.2 =? nd_Hash nd) || bool_decide (nd_Blob y.2 = nd_Blob nd) = true) /\
    (forall k, k ∈ kids (nd_Blob nd) -> (height k < height (nd_Hash nd))%nat)) as Hx.
  { intros p nd Hp%elem_of_map_to_list Hd. apply list_elem_of_In, H in Hp. unfold node_apart in Hp. cbn [fst snd] in Hp. rewrite Hd in Hp. cbn [orb] in Hp.
    rewrite !andb_true_iff, !negb_true_iff, !Z.eqb_neq, !forallb_forall in Hp. destruct Hp as [[[[H1 H2] H3] H4] H5].
    split_and!; [done.. | intros y Hy; by apply H4, list_elem_of_In | intros k Hk; by apply Nat.ltb_lt, H5, list_elem_of_In]. }
  clear H. split.
  - intros p nd Hp Hd. destruct (Hx p nd Hp Hd) as (H1 & H2 & _). done.
  - intros p nd b Hp Hd Hb. destruct (Hx p nd Hp Hd) as (_ & _ & H3 & _). rewrite Hb in H3. by apply bool_decide_eq_true in H3.
  - intros p nd p' nd' Hp Hp' Hd Hd' He. destruct (Hx p nd Hp Hd) as (_ & _ & _ & H4 & _). specialize (H4 (p', nd') (proj2 (elem_of_map_to_list _ _ _) Hp')). cbn [snd] in H4.
    rewrite Hd', He, Z.eqb_refl in H4. by apply bool_decide_eq_true in H4.
  - intros p nd k Hp Hd. by apply (Hx p nd Hp Hd).
Qed.

Module Rounds.

Definition long (n : Z) : bytes := replicate 34 n ++ [n; 1].
Definition two (batch : list (Z * bytes)) : bool := (2 <=? length batch)%nat.
Definition never (_ : Disk) (_ : list (Z * bytes)) : bool := false.

Definition ops1 : list trie_op := [OpUpdate [1; 2] (long 7); OpUpdate [18; 3] (long 8)].
Definition ops2 : list trie_op := [OpUpdate [18; 3] (long 9); OpGet [1; 2]].
Definition ops3 : list trie_op := [OpGet [1; 2]; OpGet [18; 3]; OpDelete [1; 2]; OpGet [1; 2]].

Definition run_round (db : Database) (root : Z) (ops : list trie_op) : Z * option NodeSet * Database :=
  match trie_round keccak 20 (Reader_of db) root ops with
  | Val (inr (_, root', s)) => (root', s, match take_set db s with Val db' => db' | _ => db end)
  | _ => (0, None, db)
  end.

Definition root1 : Z := Eval vm_compute in (run_round (New_hashdb ∅) EmptyRootHash ops1).1.1.
Definition nodes1 : option NodeSet := Eval vm_compute in (run_round (New_hashdb ∅) EmptyRootHash ops1).1.2.
Definition db1 : Database := Eval vm_compute in (run_round (New_hashdb ∅) EmptyRootHash ops1).2.
Definition root2 : Z := Eval vm_compute in (run_round db1 root1 ops2).1.1.
Definition nodes2 : option NodeSet := Eval vm_compute in (run_round db1 root1 ops2).1.2.
Definition db2 : Database := Eval vm_compute in (run_round db1 root1 ops2).2.
Definition next (op : db_op) (db : Database) : Database := match db_step two never 9 op db with Val (db, _, _) => db | _ => db end.
Definition db3 : Database := Eval vm_compute in next (DCap 100 800) db2.
Definition db4 : Database := Eval vm_compute in next (DCommit root2) db3.

Definition map1 : gmap bytes bytes := (map_ops ∅ ops1).2.
Definition map2 : gmap bytes bytes := (map_ops map1 ops2).2.

Definition depth (h : Z) : nat := if decide (h = root1 \/ h = root2) then 1 else 0.

Lemma apart1 : apart_set depth (New_hashdb ∅) nodes1.
Proof. apply apart_check. vm_compute. reflexivity. Qed.

Lemma apart2 : apart_set depth db1 nodes2.
Proof. apply apart_check. vm_compute. reflexivity. Qed.

Lemma ops_fit : Forall (op_ok 20) ops1 /\ Forall (op_ok 20) ops2 /\ Forall (op_ok 20) ops3.
Proof. split_and!; repeat constructor; cbn; lia. Qed.

Definition step_to := reached keccak depth two never 20 9.

Lemma reached1 : step_to no_externals db1 [(root1, map1); (EmptyRootHash, ∅)].
Proof.
  eapply (re_round keccak depth two never 20 9 no_externals (New_hashdb ∅) _ EmptyRootHash ∅ ops1 _ root1 nodes1); [apply re_new | left | apply ops_fit | vm_compute; reflexivity | apply apart1 | vm_compute; reflexivity].
Qed.

Lemma reached2 : step_to no_externals db2 [(root2, map2); (root1, map1); (EmptyRootHash, ∅)].
Proof.
  eapply (re_round keccak depth two never 20 9 no_externals db1 _ root1 map1 ops2 _ root2 nodes2); [apply reached1 | left | apply ops_fit | vm_compute; reflexivity | apply apart2 | vm_compute; reflexivity].
Qed.

Lemma reached3 : step_to no_externals db3 [(root2, map2); (root1, map1); (EmptyRootHash, ∅)].
Proof.
  eapply (re_db keccak depth two never 20 9 no_externals db2 _ (DCap 100 800)); [apply reached2 | done | apply Nat.ltb_lt; vm_compute; reflexivity | vm_compute; reflexivity].
Qed.

Lemma reached4 : step_to no_externals db4 [(root2, map2); (root1, map1); (EmptyRootHash, ∅)].
Proof.
  eapply (re_db keccak depth two never 20 9 no_externals db3 _ (DCommit root2)); [apply reached3 | done | | vm_compute; reflexivity].
  split; [apply Nat.ltb_lt; vm_compute; reflexivity | apply (bool_decide_unpack _); vm_compute; exact I].
Qed.

(** After the restart only what was written is left. *)
Lemma reached5 : step_to no_externals (reopened db4) (on_disk (diskdb db4) [(root2, map2); (root1, map1); (EmptyRootHash, ∅)]).
Proof. apply (re_restart keccak depth two never 20 9 no_externals db4), reached4. Qed.

Lemma version2_on_disk : (root2, map2) ∈ on_disk (diskdb db4) [(root2, map2); (root1, map1); (EmptyRootHash, ∅)].
Proof. apply list_elem_of_filter. split; [right; apply (bool_decide_unpack _); vm_compute; exact I | left]. Qed.

Example version1_lost : diskdb db4 !! root1 = None /\ is_Some (db_node db4 root1).
Proof. split; [vm_compute; reflexivity | apply (bool_decide_unpack _); vm_compute; exact I]. Qed.
End Rounds.
Import Rounds.

(** Two rounds, a flush, a commit of the second root and a restart: the second version opens from the disk, and a round on it goes on. *)
Lemma committed_state_persists_witness :
  (exists root' s, trie_round keccak 20 (Reader_of (reopened db4)) root2 ops3 =
     Val (inr ([(Some (long 7), None); (Some (long 9), None); (None, None); (None, None)], root', s)) /\
     (apart_set depth (reopened db4) s -> exists db', take_set (reopened db4) s = Val db')) /\
  (forall db' ds, allowed depth 9 (reopened db4) (DCommit root2) -> db_step two never 9 (DCommit root2) (reopened db4) = Val (db', true, ds) ->
     exists root' s, trie_round keccak 20 (Reader_of (reopened db')) root2 ops3 =
       Val (inr ([(Some (long 7), None); (Some (long 9), None); (None, None); (None, None)], root', s))).
Proof.
  exact (committed_state_persists keccak keccak_length keccak_bytes depth two never 20 9 no_externals (reopened db4) _ root2 map2 ops3 reached5 version2_on_disk (proj2 (proj2 ops_fit))).
Defined.
