(* ===== verification/StateTrie.v ===== *)
(** * The tries of the account state

    The wrapper that hashes keys ([vm/trie/secure_trie.go]), the reader of a state over its tries ([vm/state/reader.go]) and
    the ways to open them ([vm/state/database.go]). The encoding of accounts belongs to [go-ethereum/core/types] and is an
    argument, as is the hash. No configuration has snapshots or Verkle tries, so the reader of a state is its trie reader. *)
From Stdlib Require Import ZArith Lia.
From stdpp Require Import base gmap strings list.
From S2P Require Import Prelude Utils JournalTypes Core AccessList StateDB TrieEncoding Trie TrieHash HashDB.

(** [rlp] of [types.StateAccount], in full and in the slim form. *)
Class AccountCodec := {
  EncodeAccount : StateAccount -> bytes;
  DecodeAccount : bytes -> string + StateAccount;
  SlimAccountRLP : StateAccount -> bytes
}.

Definition address_bytes (addr : Z) : bytes := be_bytes 20 addr.

Fixpoint TrimLeftZeroes (l : bytes) : bytes := match l with 0 :: l => TrimLeftZeroes l | _ => l end.

Inductive stErr := StTrie (e : trieErr) | StRlp (e : string) | StDb (e : string).

(** ** [StateTrie] *)

Record StateTrie := mkStateTrie { st_trie : Trie; secKeyCache : gmap bytes bytes }.

Section SecureTrie.
Context `{rlp : RLP} `{ac : AccountCodec} (keccak : bytes -> bytes) (fuel : nat).

Definition NewStateTrie (id : ID) (db : Z -> string + Reader) : res (stErr + StateTrie) :=
  r ← New id db;
  mret match r with inl e => inl (StTrie e) | inr t => inr (mkStateTrie t ∅) end.

Definition hashKey (key : bytes) : bytes := keccak key.

Definition st_get (t : StateTrie) (hk : bytes) : res (option bytes * option trieErr * StateTrie) :=
  '(v, e, tr) ← Get fuel (st_trie t) hk; mret (v, e, mkStateTrie tr (secKeyCache t)).

Definition GetStorage (t : StateTrie) (key : bytes) : res (option bytes * option stErr * StateTrie) :=
  '(enc, err, t) ← st_get t (hashKey key);
  match err, enc with
  | Some e, _ => mret (None, Some (StTrie e), t)
  | None, None | None, Some [] => mret (None, None, t)
  | None, Some enc =>
      match Split enc with
      | inl e => mret (None, Some (StRlp e), t)
      | inr (_, content, _) => mret (Some content, None, t)
      end
  end.

Definition GetAccountByHash (t : StateTrie) (addrHash : bytes) : res (option StateAccount * option stErr * StateTrie) :=
  '(enc, err, t) ← st_get t addrHash;
  match enc, err with
  | _, Some e => mret (None, Some (StTrie e), t)
  | None, None => mret (None, None, t)
  | Some enc, None =>
      match DecodeAccount enc with
      | inl e => mret (None, Some (StRlp e), t)
      | inr a => mret (Some a, None, t)
      end
  end.

Definition GetAccount (t : StateTrie) (addr : Z) : res (option StateAccount * option stErr * StateTrie) :=
  GetAccountByHash t (hashKey (address_bytes addr)).

(** [trie.Update] with the preimage of the key remembered when there was no error. *)
Definition st_update (t : StateTrie) (key value : bytes) : res (option stErr * StateTrie) :=
  let hk := hashKey key in
  '(err, tr) ← Update fuel (st_trie t) hk value;
  mret match err with
       | Some e => (Some (StTrie e), mkStateTrie tr (secKeyCache t))
       | None => (None, mkStateTrie tr (<[hk := key]> (secKeyCache t)))
       end.

Definition UpdateStorage (t : StateTrie) (key value : bytes) : res (option stErr * StateTrie) := st_update t key (EncodeString value).

Definition UpdateAccount (t : StateTrie) (addr : Z) (acc : StateAccount) : res (option stErr * StateTrie) :=
  st_update t (address_bytes addr) (EncodeAccount acc).

Definition UpdateContractCode (t : StateTrie) : res (option stErr * StateTrie) := mret (None, t).

Definition st_delete (t : StateTrie) (key : bytes) : res (option stErr * StateTrie) :=
  let hk := hashKey key in
  '(err, tr) ← Delete fuel (st_trie t) hk;
  mret (option_map StTrie err, mkStateTrie tr (base.delete hk (secKeyCache t))).

Definition DeleteStorage (t : StateTrie) (key : bytes) : res (option stErr * StateTrie) := st_delete t key.
Definition DeleteAccount (t : StateTrie) (addr : Z) : res (option stErr * StateTrie) := st_delete t (address_bytes addr).

(** The preimage from the cache or from the store. *)
Definition GetKey (store : option preimageStore) (t : StateTrie) (shaKey : bytes) : option bytes :=
  match secKeyCache t !! shaKey with
  | Some key => Some key
  | None => match store with Some p => preimage p (BytesToHash shaKey) | None => None end
  end.

Definition st_Hash (t : StateTrie) : outcome (Z * StateTrie) :=
  '(h, tr) ← Hash keccak (st_trie t); Ret (h, mkStateTrie tr (secKeyCache t)).

(** The preimages that [Commit] hands to the store, the root and the nodes. *)
Definition st_preimages (t : StateTrie) : gmap Z bytes := list_to_map ((fun kv => (BytesToHash kv.1, kv.2)) <$> map_to_list (secKeyCache t)).

Definition st_Commit (t : StateTrie) (collectLeaf : bool) : outcome (Z * option NodeSet * StateTrie * gmap Z bytes) :=
  '(root, s, tr) ← Commit keccak (st_trie t) collectLeaf; Ret (root, s, mkStateTrie tr ∅, st_preimages t).

(** ** [CachingDB] *)

Definition StateTrieID (root : Z) : ID := mkID root 0 root.

Definition OpenTrie (db : Z -> string + Reader) (root : Z) : res (stErr + StateTrie) := NewStateTrie (StateTrieID root) db.

Definition OpenStorageTrie (db : Z -> string + Reader) (stateRoot addr root : Z) : res (stErr + StateTrie) :=
  NewStateTrie (StorageTrieID stateRoot (BytesToHash (keccak (address_bytes addr))) root) db.

(** ** The reader *)

Record trie_state_reader := mkStateReader {
  sr_root : Z; mainTrie : StateTrie; subRoots : gmap Z Z; subTries : gmap Z StateTrie
}.

Definition newStateReader (db : Z -> string + Reader) (root : Z) : res (stErr + trie_state_reader) :=
  r ← NewStateTrie (StateTrieID root) db;
  mret match r with inl e => inl e | inr t => inr (mkStateReader root t ∅ ∅) end.

Definition reader_account (r : trie_state_reader) (addr : Z) : res (option StateAccount * option stErr * trie_state_reader) :=
  '(acct, err, t) ← GetAccount (mainTrie r) addr;
  let r := mkStateReader (sr_root r) t (subRoots r) (subTries r) in
  match err with
  | Some e => mret (None, Some e, r)
  | None =>
      let root := match acct with None => EmptyRootHash | Some a => sa_Root a end in
      mret (acct, None, mkStateReader (sr_root r) t (<[addr := root]> (subRoots r)) (subTries r))
  end.

(** The storage trie of an account, opened when it is first read; the account is resolved when its root is not known. *)
Definition sub_trie (db : Z -> string + Reader) (r : trie_state_reader) (addr : Z) : res ((stErr + StateTrie) * trie_state_reader) :=
  match subTries r !! addr with
  | Some t => mret (inr t, r)
  | None =>
      '(err, r) ← match subRoots r !! addr with
        | Some _ => mret (None, r)
        | None => '(_, err, r) ← reader_account r addr; mret (err, r)
        end;
      match err with
      | Some e => mret (inl e, r)
      | None =>
          t ← NewStateTrie (StorageTrieID (sr_root r) (BytesToHash (keccak (address_bytes addr))) (default 0 (subRoots r !! addr))) db;
          mret (t, r)
      end
  end.

Definition reader_storage (db : Z -> string + Reader) (r : trie_state_reader) (addr key : Z) : res (Z * option stErr * trie_state_reader) :=
  '(t, r) ← sub_trie db r addr;
  match t with
  | inl e => mret (0, Some e, r)
  | inr t =>
      '(content, err, t) ← GetStorage t (hash_bytes key);
      let r := mkStateReader (sr_root r) (mainTrie r) (subRoots r) (<[addr := t]> (subTries r)) in
      match err with
      | Some e => mret (0, Some e, r)
      | None => mret (BytesToHash (default [] content), None, r)
      end
  end.
End SecureTrie.
