(* ===== verification/StateCommit.v ===== *)
(** * Hashing and committing the account state

    [IntermediateRoot], [commit], [commitAndFlush] and [Commit] of [vm/state/statedb.go], what they call of
    [vm/state/state_object.go], and the update they build ([vm/state/stateipdate.go]).

    The state beside [StateDB] is the account trie, the storage tries of the objects, the root the state began at and the
    error of the database. No configuration has snapshots, prefetching or witnesses. The storage tries are updated and
    committed by goroutines that touch one object each, so a loop in the order of the range stands for them; [order] is that
    order. Without snapshots the storage of a destructed account is listed with the node iterator, whose loop has the fuel
    [ifuel]. *)
From Stdlib Require Import ZArith Lia.
From stdpp Require Import base gmap strings list.
From S2P Require Import Prelude Utils JournalTypes Core AccessList StateDB TrieEncoding Trie TrieHash TrieIterator HashDB StateTrie.

(** The order of a range over a map. *)
Class Ranges := { order {A} : gmap Z A -> list (Z * A) }.

Record contractCode := mkCode { cc_hash : Z; cc_blob : list Z }.

Record accountDelete := mkDelete { ad_address : Z; ad_origin : bytes; ad_storagesOrigin : gmap Z bytes }.

(** [origin] is [nil] for an account that did not exist; a slot that was or becomes empty has a [nil] encoding. *)
Record accountUpdate := mkUpdate {
  au_address : Z; au_data : bytes; au_origin : option bytes; au_code : option contractCode;
  au_storages : gmap Z (option bytes); au_storagesOrigin : gmap Z (option bytes)
}.

Record stateUpdate := mkStateUpdate {
  su_originRoot : Z; su_root : Z; destructs : gset Z; accounts : gmap Z bytes; accountsOrigin : gmap Z (option bytes);
  storages : gmap Z (gmap Z (option bytes)); storagesOrigin : gmap Z (gmap Z (option bytes)); codes : gmap Z contractCode;
  nodes : gmap Z NodeSet
}.

Definition su_empty (u : stateUpdate) : bool := su_originRoot u =? su_root u.

(** What a commit works on. *)
Record Committer := mkCommitter {
  c_state : StateDB; c_trie : StateTrie; c_tries : gmap Z StateTrie; c_originalRoot : Z; c_dbErr : option stErr
}.

Definition set_state (s : StateDB) (c : Committer) : Committer := mkCommitter s (c_trie c) (c_tries c) (c_originalRoot c) (c_dbErr c).
Definition set_object (o : stateObject) (c : Committer) : Committer := set_state (setStateObject (c_state c) o) c.
Definition set_trie (t : StateTrie) (c : Committer) : Committer := mkCommitter (c_state c) t (c_tries c) (c_originalRoot c) (c_dbErr c).
Definition set_sub (addr : Z) (t : StateTrie) (c : Committer) : Committer :=
  mkCommitter (c_state c) (c_trie c) (<[addr := t]> (c_tries c)) (c_originalRoot c) (c_dbErr c).

(** The first error stays. *)
Definition setError (e : stErr) (c : Committer) : Committer :=
  mkCommitter (c_state c) (c_trie c) (c_tries c) (c_originalRoot c) (match c_dbErr c with Some e0 => Some e0 | None => Some e end).

Section Commit.
Context `{rlp : RLP} `{ac : AccountCodec} (keccak : bytes -> bytes) (fuel ifuel : nat) (db : Z -> string + Reader).
Context `{rd : StateReader} `{ra : Ranges}.

(** ** Storage tries ([state_object.go]) *)

Definition getTrie (c : Committer) (o : stateObject) : res (stErr + StateTrie) :=
  match c_tries c !! address o with
  | Some t => mret (inr t)
  | None => OpenStorageTrie keccak db (c_originalRoot c) (address o) (sa_Root (data o))
  end.

(** The updates of the slots that are not empty; those to delete are collected. *)
Fixpoint update_slots (pending : gmap Z Z) (l : list (Z * Z)) (t : StateTrie) (deletions : list Z) : res (option stErr * StateTrie * list Z) :=
  match l with
  | [] => mret (None, t, deletions)
  | (key, orig) :: l =>
      match pending !! key with
      | None => update_slots pending l t deletions
      | Some value =>
          if value =? orig then update_slots pending l t deletions else
          if negb (value =? 0) then
            '(err, t) ← UpdateStorage keccak fuel t (hash_bytes key) (TrimLeftZeroes (hash_bytes value));
            match err with Some e => mret (Some e, t, deletions) | None => update_slots pending l t deletions end
          else update_slots pending l t (deletions ++ [key])
      end
  end.

Fixpoint delete_slots (l : list Z) (t : StateTrie) : res (option stErr * StateTrie) :=
  match l with
  | [] => mret (None, t)
  | key :: l =>
      '(err, t) ← DeleteStorage keccak fuel t (hash_bytes key);
      match err with Some e => mret (Some e, t) | None => delete_slots l t end
  end.

Definition clear_uncommitted (o : stateObject) : stateObject := obj_set_storage o (originStorage o) (dirtyStorage o) (pendingStorage o) ∅.

(** The trie and its error; the trie is [nil] when nothing was written and none was loaded. *)
Definition updateTrie (c : Committer) (o : stateObject) : res (option StateTrie * option stErr * Committer) :=
  if decide (uncommittedStorage o = ∅) then mret (c_tries c !! address o, None, c) else
  t ← getTrie c o;
  match t with
  | inl e => mret (None, Some e, setError e c)
  | inr t =>
      '(err, t, deletions) ← update_slots (pendingStorage o) (order (uncommittedStorage o)) t [];
      match err with
      | Some e => mret (None, Some e, setError e (set_sub (address o) t c))
      | None =>
          '(err, t) ← delete_slots deletions t;
          match err with
          | Some e => mret (None, Some e, setError e (set_sub (address o) t c))
          | None => mret (Some t, None, set_object (clear_uncommitted o) (set_sub (address o) t c))
          end
      end
  end.

Definition set_root (root : Z) (o : stateObject) : stateObject :=
  obj_set_data o (mkStateAccount (sa_Nonce (data o)) (sa_Balance (data o)) root (sa_CodeHash (data o))).

Definition updateRoot (c : Committer) (o : stateObject) : res Committer :=
  '(t, err, c) ← updateTrie c o;
  match err, t with
  | None, Some t =>
      '(root, t) ← of_outcome (st_Hash keccak t);
      o ← of_outcome (deref (stateObjects (c_state c) !! address o));
      mret (set_object (set_root root o) (set_sub (address o) t c))
  | _, _ => mret c
  end.

(** ** [IntermediateRoot] *)

Definition updateStateObject (c : Committer) (o : stateObject) : res Committer :=
  '(err, t) ← UpdateAccount keccak fuel (c_trie c) (address o) (data o);
  '(_, t) ← (if dirtyCode o then UpdateContractCode t else mret (None, t));
  mret match err with Some e => setError e (set_trie t c) | None => set_trie t c end.

Definition deleteStateObject (c : Committer) (addr : Z) : res Committer :=
  '(err, t) ← DeleteAccount keccak fuel (c_trie c) addr;
  mret match err with Some e => setError e (set_trie t c) | None => set_trie t c end.

Definition is_delete (m : mutation) : bool := match mut_typ m with deletion => true | StateDB.update => false end.

(** A body that may crash, for each element. *)
Fixpoint for_res {S A} (f : S -> A -> res S) (s : S) (l : list A) : res S :=
  match l with [] => mret s | x :: l => s ← f s x; for_res f s l end.

Definition update_one (c : Committer) (x : Z * mutation) : res Committer :=
  if mut_applied x.2 || is_delete x.2 then mret c else
  o ← of_outcome (deref (stateObjects (c_state c) !! x.1)); updateRoot c o.

Definition write_one (acc : Committer * list Z) (x : Z * mutation) : res (Committer * list Z) :=
  if mut_applied x.2 then mret acc else
  if is_delete x.2 then mret (acc.1, acc.2 ++ [x.1]) else
  o ← of_outcome (deref (stateObjects (c_state acc.1) !! x.1)); c ← updateStateObject acc.1 o; mret (c, acc.2).

Definition set_mutations (m : gmap Z mutation) (s : StateDB) : StateDB := db_deletions s (stateObjects s) (stateObjectsDestruct s) m.

Definition IntermediateRoot (deleteEmptyObjects : bool) (c : Committer) : res (Z * Committer) :=
  let c := set_state (Finalise deleteEmptyObjects (c_state c)) c in
  let muts := order (mutations (c_state c)) in
  c ← for_res update_one c muts;
  '(c, deleted) ← for_res write_one (c, []) muts;
  let c := set_state (set_mutations ((fun m => mkMutation (mut_typ m) true) <$> mutations (c_state c)) (c_state c)) c in
  c ← for_res deleteStateObject c deleted;
  '(h, t) ← of_outcome (st_Hash keccak (c_trie c));
  mret (h, set_trie t c).

(** ** The commit of an object *)

Definition encode_slot (v : Z) : option bytes := if v =? 0 then None else Some (EncodeString (TrimLeftZeroes (hash_bytes v))).

(** The clean value of a slot that was never read is the zero of a missing key. *)
Definition commit_slot (acc : stateObject * accountUpdate) (kv : Z * Z) : stateObject * accountUpdate :=
  let '(o, op) := acc in
  let '(key, val) := kv in
  let orig := default 0 (originStorage o !! key) in
  if val =? orig then acc else
  let h := BytesToHash (keccak (hash_bytes key)) in
  (obj_set_storage o (<[key := val]> (originStorage o)) (dirtyStorage o) (pendingStorage o) (uncommittedStorage o),
   mkUpdate (au_address op) (au_data op) (au_origin op) (au_code op) (<[h := encode_slot val]> (au_storages op)) (<[h := encode_slot orig]> (au_storagesOrigin op))).

Definition commitStorage (o : stateObject) (op : accountUpdate) : stateObject * accountUpdate :=
  let '(o, op) := foldl commit_slot (o, op) (order (pendingStorage o)) in
  (obj_set_storage o (originStorage o) (dirtyStorage o) ∅ (uncommittedStorage o), op).

Definition set_clean (o : stateObject) : stateObject :=
  mkObject (address o) (Some (data o)) (data o) (code o) (originStorage o) (dirtyStorage o) (pendingStorage o) (uncommittedStorage o)
    (dirtyCode o) (selfDestructed o) (newContract o).

Definition clear_dirtyCode (o : stateObject) : stateObject :=
  mkObject (address o) (origin o) (data o) (code o) (originStorage o) (dirtyStorage o) (pendingStorage o) (uncommittedStorage o)
    false (selfDestructed o) (newContract o).

(** The account's changes, the nodes of its storage trie and their preimages. *)
Definition obj_commit (c : Committer) (o : stateObject) : outcome (accountUpdate * option NodeSet * gmap Z bytes * Committer) :=
  let op := mkUpdate (address o) (SlimAccountRLP (data o)) (option_map SlimAccountRLP (origin o))
    (if dirtyCode o then Some (mkCode (sa_CodeHash (data o)) (code o)) else None) ∅ ∅ in
  let o := if dirtyCode o then clear_dirtyCode o else o in
  let '(o, op) := commitStorage o op in
  if decide (au_storages op = ∅) then Ret (op, None, ∅, set_object (set_clean o) c) else
  t ← deref (c_tries c !! address o);
  '(root, s, t, pre) ← st_Commit keccak t false;
  Ret (op, s, pre, set_object (set_clean (set_root root o)) (set_sub (address o) t c)).

(** ** [commit] *)

(** The loop of [slowDeleteStorage]: the slots, and a deletion for each node that is stored on its own. *)
Fixpoint list_storage (n : nat) (it : nodeIterator) (nodes : NodeSet) (slots : gmap Z bytes) : res (option trieErr * NodeSet * gmap Z bytes) :=
  match n with
  | O => Spin
  | S n =>
      '(more, it) ← Next keccak ifuel it true;
      if negb more then mret (it_Error it, nodes, slots) else
      leaf ← of_outcome (Leaf it);
      if leaf : bool then
        k ← of_outcome (LeafKey it);
        v ← of_outcome (LeafBlob it);
        list_storage n it nodes (<[BytesToHash k := v]> slots)
      else list_storage n it (if it_Hash it =? 0 then nodes else AddNode nodes (it_Path it) NewDeleted) slots
  end.

Definition slowDeleteStorage (originalRoot addr addrHash root : Z) : res (stErr + gmap Z bytes * NodeSet) :=
  tr ← OpenStorageTrie keccak db originalRoot addr root;
  match tr with
  | inl e => mret (inl e)
  | inr tr =>
      it ← NodeIterator keccak ifuel (st_trie tr) [];
      match it with
      | inl e => mret (inl (StTrie e))
      | inr it =>
          '(err, nodes, slots) ← list_storage ifuel it (NewNodeSet addrHash) ∅;
          mret match err with Some e => inl (StTrie e) | None => inr (slots, nodes) end
      end
  end.

(** There are no snapshots to delete from. *)
Definition deleteStorage (originalRoot addr addrHash root : Z) : res (stErr + gmap Z bytes * NodeSet) := slowDeleteStorage originalRoot addr addrHash root.

(** Destructed accounts that existed, with the nodes of their storage. *)
Fixpoint handleDestruction (originalRoot : Z) (l : list (Z * stateObject)) : res (stErr + gmap Z accountDelete * list NodeSet) :=
  match l with
  | [] => mret (inr (∅, []))
  | (addr, prevObj) :: l =>
      match origin prevObj with
      | None => handleDestruction originalRoot l
      | Some prev =>
          let addrHash := BytesToHash (keccak (address_bytes addr)) in
          r ← (if sa_Root prev =? EmptyRootHash then mret (inr (∅, []))
               else r ← deleteStorage originalRoot addr addrHash (sa_Root prev);
                    mret match r with inl e => inl e | inr (slots, set) => inr (slots, [set]) end);
          match r with
          | inl e => mret (inl e)
          | inr (slots, sets) =>
              rest ← handleDestruction originalRoot l;
              mret match rest with
                   | inl e => inl e
                   | inr (deletes, more) => inr (<[addrHash := mkDelete addr (SlimAccountRLP prev) slots]> deletes, sets ++ more)
                   end
          end
      end
  end.

Definition merge_one (nodes : gmap Z NodeSet) (s : option NodeSet) : stErr + gmap Z NodeSet :=
  match s with
  | None => inr nodes
  | Some s => match merged_Merge nodes s with Some nodes => inr nodes | None => inl (StDb "nodesets belong to different owner are not mergeable") end
  end.

Record Gathered := mkGathered { g_nodes : gmap Z NodeSet; g_updates : gmap Z accountUpdate; g_preimages : gmap Z bytes }.

Fixpoint merge_sets (nodes : gmap Z NodeSet) (l : list NodeSet) : stErr + gmap Z NodeSet :=
  match l with [] => inr nodes | s :: l => match merge_one nodes (Some s) with inl e => inl e | inr nodes => merge_sets nodes l end end.

(** One storage trie after the other. *)
Fixpoint commit_objects (l : list (Z * mutation)) (c : Committer) (g : Gathered) : outcome (stErr + Gathered * Committer) :=
  match l with
  | [] => Ret (inr (g, c))
  | (addr, m) :: l =>
      if is_delete m then commit_objects l c g else
      match stateObjects (c_state c) !! addr with
      | None => Ret (inl (StDb "missing state object"))
      | Some o =>
          '(op, s, pre, c) ← obj_commit c o;
          match merge_one (g_nodes g) s with
          | inl e => Ret (inl e)
          | inr nodes => commit_objects l c (mkGathered nodes (<[BytesToHash (keccak (address_bytes (address o))) := op]> (g_updates g)) (pre ∪ g_preimages g))
          end
      end
  end.

(** [types.TrieRootHash]: the zero hash stands for the empty trie. *)
Definition TrieRootHash (h : Z) : Z := if h =? 0 then EmptyRootHash else h.

Definition add_delete (u : stateUpdate) (x : Z * accountDelete) : stateUpdate :=
  mkStateUpdate (su_originRoot u) (su_root u) ({[x.1]} ∪ destructs u) (accounts u) (<[ad_address x.2 := Some (ad_origin x.2)]> (accountsOrigin u)) (storages u)
    (if decide (ad_storagesOrigin x.2 = ∅) then storagesOrigin u else <[ad_address x.2 := Some <$> ad_storagesOrigin x.2]> (storagesOrigin u)) (codes u) (nodes u).

Definition add_update (u : stateUpdate) (x : Z * accountUpdate) : stateUpdate :=
  let addr := au_address x.2 in
  mkStateUpdate (su_originRoot u) (su_root u) (destructs u) (<[x.1 := au_data x.2]> (accounts u))
    (match accountsOrigin u !! addr with Some _ => accountsOrigin u | None => <[addr := au_origin x.2]> (accountsOrigin u) end)
    (if decide (au_storages x.2 = ∅) then storages u else <[x.1 := au_storages x.2]> (storages u))
    (if decide (au_storagesOrigin x.2 = ∅) then storagesOrigin u else <[addr := default ∅ (storagesOrigin u !! addr) ∪ au_storagesOrigin x.2]> (storagesOrigin u))
    (match au_code x.2 with Some code => <[addr := code]> (codes u) | None => codes u end) (nodes u).

Definition newStateUpdate (originRoot root : Z) (deletes : gmap Z accountDelete) (updates : gmap Z accountUpdate) (ns : gmap Z NodeSet) : stateUpdate :=
  let u := mkStateUpdate (TrieRootHash originRoot) (TrieRootHash root) ∅ ∅ ∅ ∅ ∅ ∅ ns in
  foldl add_update (foldl add_delete u (order deletes)) (order updates).

(** The preimages go to the store as the tries are committed. *)
Definition state_commit (deleteEmptyObjects : bool) (c : Committer) : res (stErr + stateUpdate * gmap Z bytes * Committer) :=
  match c_dbErr c with
  | Some e => mret (inl e)
  | None =>
      '(_, c) ← IntermediateRoot deleteEmptyObjects c;
      match c_dbErr c with
      | Some e => mret (inl e)
      | None =>
          d ← handleDestruction (c_originalRoot c) (order (stateObjectsDestruct (c_state c)));
          match d with
          | inl e => mret (inl e)
          | inr (deletes, delNodes) =>
              match merge_sets ∅ delNodes with
              | inl e => mret (inl e)
              | inr ns =>
                  '(root, set, t, pre) ← of_outcome (st_Commit keccak (c_trie c) true);
                  match merge_one ns set with
                  | inl e => mret (inl e)
                  | inr ns =>
                      r ← of_outcome (commit_objects (order (mutations (c_state c))) (set_trie t c) (mkGathered ns ∅ pre));
                      match r with
                      | inl e => mret (inl e)
                      | inr (g, c) =>
                          let s := db_deletions (c_state c) (stateObjects (c_state c)) ∅ ∅ in
                          let u := newStateUpdate (c_originalRoot c) root deletes (g_updates g) (g_nodes g) in
                          mret (inr (u, g_preimages g, mkCommitter s (c_trie c) (c_tries c) root (c_dbErr c)))
                      end
                  end
              end
          end
      end
  end.

(** ** [New2] *)

Definition New2 (root : Z) : res (stErr + Committer * trie_state_reader) :=
  t ← OpenTrie db root;
  match t with
  | inl e => mret (inl e)
  | inr t =>
      r ← newStateReader db root;
      mret match r with inl e => inl e | inr r => inr (mkCommitter New_StateDB t ∅ root None, r) end
  end.
End Commit.

(** ** [commitAndFlush] *)

Section Flush.
Context `{rlp : RLP} `{ac : AccountCodec} (keccak : bytes -> bytes) (fuel ifuel : nat) `{rd : StateReader} `{ra : Ranges}.
Context (account_root : bytes -> string + Z) (code_fails : gmap Z contractCode -> option string) (pre_fails : preimageStore -> bool).

(** The code on disk, by hash. *)
Definition write_code (codes : gmap Z contractCode) (disk : gmap Z (list Z)) : gmap Z (list Z) :=
  foldl (fun d x => <[cc_hash x.2 := cc_blob x.2]> d) disk (order codes).

(** The code is written, the nodes go to the trie database unless the root is the old one, and the reader is opened at the new
    root; an error of the latter is dropped. *)
Definition commitAndFlush (deleteEmptyObjects : bool) (td : TrieDatabase) (disk : gmap Z (list Z)) (c : Committer) :
    res (stErr + stateUpdate * Committer * TrieDatabase * gmap Z (list Z) * option trie_state_reader) :=
  r ← state_commit keccak fuel ifuel (td_Reader td) deleteEmptyObjects c;
  match r with
  | inl e => mret (inl e)
  | inr (u, pre, c) =>
      let td := InsertPreimage pre td in
      match (if decide (codes u = ∅) then None else code_fails (codes u)) with
      | Some e => mret (inl (StDb e))
      | None =>
          let disk := write_code (codes u) disk in
          '(td, err) ← (if su_empty u then mret (td, None) else td_Update pre_fails account_root td (nodes u));
          match err with
          | Some e => mret (inl (StDb e))
          | None =>
              reader ← newStateReader (td_Reader td) (c_originalRoot c);
              mret (inr (u, c, td, disk, match reader with inr r => Some r | inl _ => None end))
          end
      end
  end.

(** The root, and the zero hash with an error. *)
Definition state_Commit (deleteEmptyObjects : bool) (td : TrieDatabase) (disk : gmap Z (list Z)) (c : Committer) : res (Z * option stErr) :=
  r ← commitAndFlush deleteEmptyObjects td disk c;
  mret match r with inl e => (0, Some e) | inr (u, _, _, _, _) => (su_root u, None) end.
End Flush.
