(* ===== verification/StateTrieProofs.v ===== *)
(** * The tries of a state as maps

    A trie with hashed keys is a map from keys; the account trie and the storage tries of a known root are the accounts and
    the slots of a state, and the reader of a state answers with them. *)
From Stdlib Require Import ZArith Lia.
From stdpp Require Import base gmap strings list.
From S2P Require Import Prelude Utils JournalTypes Core AccessList StateDB TrieEncoding Trie TrieHash TrieProofs TrieMap TrieRoot TrieDecode TrieReopen TrieHistory.
From S2P Require Import HashDB StateTrie StateCommit.

Definition is_address (a : Z) : Prop := 0 <= a < 2 ^ 160.

Record account_ok (a : StateAccount) : Prop := {
  ao_nonce : is_u64 (sa_Nonce a); ao_balance : is_u256 (sa_Balance a); ao_root : is_u256 (sa_Root a); ao_code : is_u256 (sa_CodeHash a)
}.

(** The encoding of accounts can be read back. *)
Class AccountLaws (ac : AccountCodec) := {
  Decode_Encode a : account_ok a -> DecodeAccount (EncodeAccount a) = inr a;
  Encode_nonempty a : EncodeAccount a <> []
}.

(** The hash gives 32 bytes and does not confuse two keys or two addresses, nor an address with the account trie. *)
Record hash_laws (keccak : bytes -> bytes) : Prop := {
  hl_length : forall e, length (keccak e) = 32%nat;
  hl_bytes : forall e, Forall is_byte (keccak e);
  hl_keys : forall k k', is_u256 k -> is_u256 k' -> keccak (hash_bytes k) = keccak (hash_bytes k') -> k = k';
  hl_addresses : forall a a', is_address a -> is_address a' -> keccak (address_bytes a) = keccak (address_bytes a') -> a = a';
  hl_owner : forall a, is_address a -> BytesToHash (keccak (address_bytes a)) <> 0
}.

(** ** Words as trimmed bytes *)

Lemma bytes_to_Z_trim l : bytes_to_Z (TrimLeftZeroes l) = bytes_to_Z l.
Proof. induction l as [| b l IH]; [done |]. cbn [TrimLeftZeroes]. destruct b; [rewrite IH; done | done | done]. Qed.

Lemma bytes_to_Z_app l b : bytes_to_Z (l ++ [b]) = bytes_to_Z l * 256 + b.
Proof. unfold bytes_to_Z. by rewrite fold_left_app. Qed.

Lemma be_bytes_Z n : forall z, bytes_to_Z (be_bytes n z) = z mod 256 ^ Z.of_nat n.
Proof.
  induction n as [| n IH]; intros z; cbn [be_bytes]; [cbn; by rewrite Z.mod_1_r |]. rewrite bytes_to_Z_app, IH, Nat2Z.inj_succ, Z.pow_succ_r, Z.rem_mul_r by lia. lia.
Qed.

Lemma word_bytes v : is_u256 v -> BytesToHash (TrimLeftZeroes (hash_bytes v)) = v.
Proof.
  intros Hv. unfold BytesToHash, hash_bytes, u256. rewrite bytes_to_Z_trim, be_bytes_Z. change (256 ^ Z.of_nat 32) with (2 ^ 256). rewrite Z.mod_mod by lia. by apply Z.mod_small.
Qed.

Section Maps.
Context `{rlp : RLP} `{rlpe : !RLPEmpty rlp} `{rlpl : !RLPLaws rlp} `{ac : AccountCodec} `{acl : !AccountLaws ac} (keccak : bytes -> bytes) (HL : hash_laws keccak).
Context (fuel : nat) (Hfuel : (132 <= fuel)%nat).

(** ** A trie with hashed keys *)

(** It holds the map [m], over a part of the store. *)
Record holds (V : store_map) (ow : Z) (t : StateTrie) (m : gmap bytes bytes) : Prop := {
  ho_map : represents keccak (st_trie t) m;
  ho_sound : sound keccak (t_reader (st_trie t));
  ho_part : included (t_reader (st_trie t)) (over V);
  ho_owner : owner (st_trie t) = ow
}.

Lemma holds_place V ow t m tr cache m' : holds V ow t m -> same_place (st_trie t) tr -> represents keccak tr m' -> holds V ow (mkStateTrie tr cache) m'.
Proof using Type. clear. intros [_ Hs Hp Ho] [Hr Hw] Hrep. split; cbn; [done | by rewrite Hr | by rewrite Hr | congruence]. Qed.

Lemma digest_ok e : op_ok fuel (OpGet (keccak e)).
Proof using HL Hfuel. clear rlpe rlpl acl. split; [apply HL |]. cbn. unfold key_fuel. rewrite (hl_length _ HL). lia. Qed.

Lemma st_open db V stateRoot ow root m : store_ok keccak V -> serves db V -> known keccak V root m -> opens_at V stateRoot root ->
  exists t, NewStateTrie (mkID stateRoot ow root) db = Val (inr t) /\ holds V ow t m.
Proof using Type.
  clear. intros [Hs _] Hdb Hkn Hop. destruct (open_id keccak db V stateRoot ow root m Hs Hdb Hkn Hop) as (t & Hrun & How & Hrep & Hst & Hle).
  exists (mkStateTrie t ∅). unfold NewStateTrie. rewrite Hrun. split; [done |]. by split.
Qed.

Lemma st_get_ok V ow t m e : holds V ow t m -> exists t', st_get fuel t (keccak e) = Val (m !! keccak e, None, t') /\ holds V ow t' m.
Proof using HL Hfuel.
  clear rlpe rlpl acl. intros Ht. destruct (run_op_spec keccak fuel (st_trie t) m (OpGet (keccak e)) (ho_map _ _ _ _ Ht) (digest_ok e)) as (tr & Hrun & Hrep).
  pose proof (run_op_place _ _ _ _ _ _ Hrun) as Hpl. cbn [run_op map_op fst snd] in *. unfold st_get. rewrite Hrun. eexists. split; [reflexivity |]. by eapply holds_place.
Qed.

Lemma st_update_ok V ow t m key value : holds V ow t m -> value <> [] ->
  exists t', st_update keccak fuel t key value = Val (None, t') /\ holds V ow t' (<[keccak key := value]> m).
Proof using HL Hfuel.
  clear rlpe rlpl acl. intros Ht Hv. destruct (run_op_spec keccak fuel (st_trie t) m (OpUpdate (keccak key) value) (ho_map _ _ _ _ Ht) (digest_ok key)) as (tr & Hrun & Hrep).
  pose proof (run_op_place _ _ _ _ _ _ Hrun) as Hpl. cbn [run_op map_op fst snd] in *. destruct (Update fuel (st_trie t) (keccak key) value) as [[err tr'] | |] eqn:E; cbn in Hrun; try done.
  injection Hrun as -> ->. unfold st_update, hashKey. rewrite E. eexists. split; [reflexivity |]. eapply holds_place; [done | done |]. by destruct value.
Qed.

Lemma st_delete_ok V ow t m key : holds V ow t m -> exists t', st_delete keccak fuel t key = Val (None, t') /\ holds V ow t' (base.delete (keccak key) m).
Proof using HL Hfuel.
  clear rlpe rlpl acl. intros Ht. destruct (run_op_spec keccak fuel (st_trie t) m (OpDelete (keccak key)) (ho_map _ _ _ _ Ht) (digest_ok key)) as (tr & Hrun & Hrep).
  pose proof (run_op_place _ _ _ _ _ _ Hrun) as Hpl. cbn [run_op map_op fst snd] in *. destruct (Delete fuel (st_trie t) (keccak key)) as [[err tr'] | |] eqn:E; cbn in Hrun; try done.
  injection Hrun as -> ->. unfold st_delete, hashKey. rewrite E. eexists. split; [reflexivity |]. by eapply holds_place.
Qed.

Definition st_root (t : StateTrie) : Z := trie_root keccak (st_trie t).

Lemma st_hash_ok V ow t m : holds V ow t m -> exists t', st_Hash keccak t = Ret (st_root t, t') /\ holds V ow t' m /\ st_root t' = st_root t.
Proof using rlpe.
  clear HL Hfuel rlpl acl. intros Ht. destruct (Hash_spec keccak (st_trie t) m (ho_map _ _ _ _ Ht)) as (tr & Hrun & Hrep & Hroot & Hr & _ & Ho). unfold st_Hash. rewrite Hrun.
  eexists. split; [reflexivity |]. split; [eapply holds_place; [done | by split | done] | done].
Qed.

Lemma st_commit_ok V ow t m collectLeaf : holds V ow t m -> exists s t' pre, st_Commit keccak t collectLeaf = Ret (st_root t, s, t', pre) /\ owned ow s /\
  from_trie keccak V (set_nodes s) /\
  forall V' Ns, grows V V' Ns -> set_nodes s ∈ Ns -> (forall root, no_root root -> V' root = None) -> known keccak V' (st_root t) m.
Proof using HL rlpe rlpl.
  clear Hfuel acl. intros [Hm Hs Hp Ho]. destruct (Commit_known keccak (hl_length _ HL) (hl_bytes _ HL) (st_trie t) m collectLeaf V Hm Hs Hp) as (s & tr & Hrun & Hown & Hfrom & Hkn).
  unfold st_Commit. rewrite Hrun. eexists _, _, _. split; [reflexivity |]. rewrite Ho in Hown. done.
Qed.

(** ** Slots and accounts *)

Definition slots (m : gmap bytes bytes) (f : Z -> Z) : Prop := forall k, is_u256 k -> m !! keccak (hash_bytes k) = encode_slot (f k).
Definition accts (m : gmap bytes bytes) (f : Z -> option StateAccount) : Prop := forall a, is_address a -> m !! keccak (address_bytes a) = EncodeAccount <$> f a.

Definition upd {A} (f : Z -> A) (k : Z) (v : A) (x : Z) : A := if decide (x = k) then v else f x.

Lemma slots_update m f k v : is_u256 k -> slots m f -> slots (match encode_slot v with Some e => <[keccak (hash_bytes k) := e]> m | None => base.delete (keccak (hash_bytes k)) m end) (upd f k v).
Proof using HL.
  clear Hfuel rlpe rlpl acl. intros Hk Hm x Hx. unfold upd. destruct (decide (x = k)) as [-> | Hne].
  - destruct (encode_slot v); [by rewrite lookup_insert_eq | by rewrite lookup_delete_eq].
  - assert (keccak (hash_bytes k) <> keccak (hash_bytes x)) as Hd by (intros He; by apply Hne, (hl_keys _ HL)).
    destruct (encode_slot v); [rewrite lookup_insert_ne by done | rewrite lookup_delete_ne by done]; by apply Hm.
Qed.

Lemma accts_update m f a x : is_address a -> accts m f -> accts (match x with Some d => <[keccak (address_bytes a) := EncodeAccount d]> m | None => base.delete (keccak (address_bytes a)) m end) (upd f a x).
Proof using HL.
  clear Hfuel rlpe rlpl acl. intros Ha Hm b Hb. unfold upd. destruct (decide (b = a)) as [-> | Hne].
  - destruct x; [by rewrite lookup_insert_eq | by rewrite lookup_delete_eq].
  - assert (keccak (address_bytes a) <> keccak (address_bytes b)) as Hd by (intros He; by apply Hne, (hl_addresses _ HL)).
    destruct x; [rewrite lookup_insert_ne by done | rewrite lookup_delete_ne by done]; by apply Hm.
Qed.

Lemma slots_empty : slots ∅ (fun _ => 0).
Proof using Type. clear. intros k _. by rewrite lookup_empty. Qed.

Lemma encode_nonempty v e : encode_slot v = Some e -> e <> [].
Proof using rlpe rlpl.
  clear HL Hfuel acl. unfold encode_slot. generalize (TrimLeftZeroes (hash_bytes v)) as w. intros w. destruct (v =? 0); [done |]. intros [= <-]. destruct w as [| b l]; [by rewrite EncodeString_nil |].
  pose proof (EncodeString_longer (b :: l)) as Hl. intros He. rewrite He in Hl. cbn in Hl. lia.
Qed.

Lemma GetStorage_ok V ow t m f k : holds V ow t m -> slots m f -> is_u256 k -> is_u256 (f k) ->
  exists content t', GetStorage keccak fuel t (hash_bytes k) = Val (content, None, t') /\ BytesToHash (default [] content) = f k /\ holds V ow t' m.
Proof using HL Hfuel rlpe rlpl.
  clear acl. intros Ht Hm Hk Hf. destruct (st_get_ok V ow t m (hash_bytes k) Ht) as (t' & Hrun & Ht'). unfold GetStorage, hashKey. rewrite Hrun, (Hm k Hk). cbn [mbind res_bind].
  destruct (encode_slot (f k)) as [e |] eqn:He.
  - pose proof (encode_nonempty _ _ He) as Hne. pose proof (word_bytes (f k) Hf) as Hw. unfold encode_slot in He. revert He Hw. generalize (TrimLeftZeroes (hash_bytes (f k))) as w. intros w He Hw.
    destruct (f k =? 0); [done |]. injection He as <-. pose proof (Split_string w []) as Hsp. rewrite app_nil_r in Hsp. destruct (EncodeString w) as [| b l]; [done |]. rewrite Hsp.
    eexists _, _. split; [reflexivity |]. done.
  - unfold encode_slot in He. destruct (Z.eqb_spec (f k) 0) as [H0 | H0]; [| done]. eexists _, _. split; [reflexivity |]. by rewrite H0.
Qed.

Lemma GetAccount_ok V ow t m f a : holds V ow t m -> accts m f -> is_address a -> (forall d, f a = Some d -> account_ok d) ->
  exists t', GetAccount keccak fuel t a = Val (f a, None, t') /\ holds V ow t' m.
Proof using HL Hfuel acl.
  clear rlpe rlpl. intros Ht Hm Ha Hok. destruct (st_get_ok V ow t m (address_bytes a) Ht) as (t' & Hrun & Ht'). unfold GetAccount, GetAccountByHash, hashKey. rewrite Hrun, (Hm a Ha). cbn [mbind res_bind].
  destruct (f a) as [d |] eqn:Hd; cbn [fmap option_fmap option_map]; [rewrite Decode_Encode by by apply Hok |]; eexists; (split; [reflexivity | done]).
Qed.

(** ** A state over a store *)

Definition root_of (x : option StateAccount) : Z := match x with Some a => sa_Root a | None => Trie.EmptyRootHash end.

(** The accounts and slots that the root [root] stands for. *)
Record known_state (V : store_map) (root : Z) (af : Z -> option StateAccount) (sf : Z -> Z -> Z) : Prop := {
  ks_accounts : exists m, known keccak V root m /\ accts m af;
  ks_storage : forall a, is_address a -> exists m, known keccak V (root_of (af a)) m /\ slots m (sf a);
  ks_ok : forall a d, is_address a -> af a = Some d -> account_ok d;
  ks_words : forall a k, is_address a -> is_u256 k -> is_u256 (sf a k)
}.

Lemma known_nil V root m : known keccak V root m -> no_root root -> m = ∅.
Proof using Type. clear. intros [[_ ->] | [Hn _]] Hr; [done | by destruct (Hn Hr)]. Qed.

Lemma state_opens V root af sf a : known_state V root af sf -> is_address a -> opens_at V root (root_of (af a)).
Proof using Type.
  clear. intros [(m & Hm & Ha) _ _ _] Hadd. destruct Hm as [[Hr ->] | (Hr & Hkn & Hb)]; [left | right].
  - split; [done |]. specialize (Ha a Hadd). rewrite lookup_empty in Ha. destruct (af a); [done | by right].
  - split; [done |]. destruct (known_opens keccak V root m) as [[Hn _] | [_ Hv]]; [by right | done | done].
Qed.

Record reading (V : store_map) (root : Z) (af : Z -> option StateAccount) (sf : Z -> Z -> Z) (r : trie_state_reader) : Prop := {
  re_root : sr_root r = root;
  re_main : exists m, holds V 0 (mainTrie r) m /\ accts m af;
  re_roots : forall a x, is_address a -> subRoots r !! a = Some x -> x = root_of (af a);
  re_tries : forall a t, is_address a -> subTries r !! a = Some t -> exists ow m, holds V ow t m /\ slots m (sf a)
}.

Lemma newStateReader_ok db V root af sf : store_ok keccak V -> serves db V -> known_state V root af sf ->
  exists r, newStateReader db root = Val (inr r) /\ reading V root af sf r.
Proof using Type.
  clear. intros Hst Hdb [(m & Hm & Ha) _ _ _]. destruct (st_open db V root 0 root m Hst Hdb Hm (known_opens _ _ _ _ Hm)) as (t & Hrun & Ht).
  unfold newStateReader, StateTrieID. rewrite Hrun. eexists. split; [reflexivity |]. split; cbn; [done | by exists m | |]; intros a x _; by rewrite lookup_empty.
Qed.

Lemma reader_account_ok V root af sf r a : known_state V root af sf -> reading V root af sf r -> is_address a ->
  exists r', reader_account keccak fuel r a = Val (af a, None, r') /\ reading V root af sf r' /\ subRoots r' !! a = Some (root_of (af a)).
Proof using HL Hfuel acl.
  clear rlpe rlpl. intros [_ _ Hok _] [Hr (m & Ht & Hm) Hroots Htries] Ha. destruct (GetAccount_ok V 0 (mainTrie r) m af a Ht Hm Ha (fun d => Hok a d Ha)) as (t' & Hrun & Ht').
  unfold reader_account. rewrite Hrun. eexists. split; [reflexivity |]. split; [split; cbn; [done | by exists m | | done] | cbn; by rewrite lookup_insert_eq].
  intros b x Hb [[<- <-] | [_ Hx]]%lookup_insert_Some; [done | by apply Hroots].
Qed.

Lemma sub_trie_ok db V root af sf r a : store_ok keccak V -> serves db V -> known_state V root af sf -> reading V root af sf r -> is_address a ->
  exists t ow m r', sub_trie keccak fuel db r a = Val (inr t, r') /\ holds V ow t m /\ slots m (sf a) /\ reading V root af sf r'.
Proof using HL Hfuel acl.
  clear rlpe rlpl. intros Hst Hdb Hks Hre Ha. unfold sub_trie. destruct (subTries r !! a) as [t |] eqn:Et.
  - destruct (re_tries _ _ _ _ _ Hre a t Ha Et) as (ow & m & Ht & Hm). by exists t, ow, m, r.
  - assert (exists r', match subRoots r !! a with Some _ => mret (None, r) | None => '(_, err, r) ← reader_account keccak fuel r a; mret (err, r) end = Val (None, r') /\
      reading V root af sf r' /\ subRoots r' !! a = Some (root_of (af a))) as (r' & -> & Hre' & Hroot).
    { destruct (subRoots r !! a) as [x |] eqn:Ex.
      - exists r. split; [done |]. split; [done |]. by rewrite Ex, (re_roots _ _ _ _ _ Hre a x Ha Ex).
      - destruct (reader_account_ok V root af sf r a Hks Hre Ha) as (r' & Hrun & Hr). exists r'. by rewrite Hrun. }
    cbn [mbind res_bind]. rewrite Hroot, (re_root _ _ _ _ _ Hre'). cbn [default id]. destruct (ks_storage _ _ _ _ Hks a Ha) as (m & Hm & Hsl).
    destruct (st_open db V root (BytesToHash (keccak (address_bytes a))) (root_of (af a)) m Hst Hdb Hm (state_opens _ _ _ _ _ Hks Ha)) as (t & Hrun & Ht).
    unfold StorageTrieID. unfold id. rewrite Hrun. by eexists t, _, m, r'.
Qed.

Lemma reader_storage_ok db V root af sf r a k : store_ok keccak V -> serves db V -> known_state V root af sf -> reading V root af sf r -> is_address a -> is_u256 k ->
  exists r', reader_storage keccak fuel db r a k = Val (sf a k, None, r') /\ reading V root af sf r'.
Proof using HL Hfuel acl rlpe rlpl.
  intros Hst Hdb Hks Hre Ha Hk. destruct (sub_trie_ok db V root af sf r a Hst Hdb Hks Hre Ha) as (t & ow & m & r1 & Hrun & Ht & Hm & Hre1). unfold reader_storage. rewrite Hrun. cbn [mbind res_bind].
  destruct (GetStorage_ok V ow t m (sf a) k Ht Hm Hk (ks_words _ _ _ _ Hks a k Ha Hk)) as (content & t' & Hrun' & Hv & Ht'). rewrite Hrun'. cbn [mbind res_bind]. rewrite Hv.
  eexists. split; [reflexivity |]. destruct Hre1 as [Hr Hmain Hroots Htries]. split; cbn; [done | done | done |].
  intros b x Hb [[<- <-] | [_ Hx]]%lookup_insert_Some; [by exists ow, m | by eapply Htries].
Qed.
End Maps.
