(* ===== verification/StateReady.v ===== *)
(** * The states that are committed

    What [Finalise] makes of a state, and that a state that was opened and changed is ready for it. *)
From Stdlib Require Import ZArith Lia.
From stdpp Require Import base gmap strings list.
From S2P Require Import Prelude Utils JournalTypes Core AccessList StateDB StateDBSim StateDBProofs TrieEncoding Trie TrieHash StateTrie.
From S2P Require Import StateCommit StateTrieProofs.

(** ** The state before it is hashed

    What [Finalise] makes of a state that was opened and changed: the changed slots of every object of the journal, with the
    values they had, and the objects to write and to delete. *)

Section Finalise.
Context `{rd : StateReader}.

(** ** Objects *)

(** The clean values that were read are those of the database. *)
Definition clean_ok (o : stateObject) : Prop := forall k v, originStorage o !! k = Some v -> v = reader_Storage (address o) k.

(** All but the storage. *)
Record same_account (o o' : stateObject) : Prop := {
  sc_address : address o' = address o; sc_origin : origin o' = origin o; sc_data : data o' = data o; sc_code : code o' = code o;
  sc_dirtyCode : dirtyCode o' = dirtyCode o; sc_destructed : selfDestructed o' = selfDestructed o
}.

Lemma same_account_trans o1 o2 o3 : same_account o1 o2 -> same_account o2 o3 -> same_account o1 o3.
Proof using Type. intros [] []. split; congruence. Qed.

Lemma finalise_slot_ok o k v : clean_ok o -> pendingStorage o !! k = None -> uncommittedStorage o !! k = None ->
  let o' := finalise_slot false o (k, v) in
  same_account o o' /\ clean_ok o' /\ pendingStorage o' = <[k := v]> (pendingStorage o) /\
  uncommittedStorage o' = <[k := reader_Storage (address o) k]> (uncommittedStorage o) /\ dirtyStorage o' = dirtyStorage o /\
  originStorage o' !! k = Some (reader_Storage (address o) k) /\ (forall j, is_Some (originStorage o !! j) -> originStorage o' !! j = originStorage o !! j).
Proof using Type.
  intros Hc Hp Hu. unfold finalise_slot. rewrite Hu. unfold obj_GetCommittedState. rewrite Hp. destruct (originStorage o !! k) as [w |] eqn:Ho; cbn.
  - pose proof (Hc k w Ho) as ->. split_and!; done.
  - split_and!; [done | | done | done | done | by rewrite lookup_insert_eq |].
    + intros j w. cbn. intros [[<- <-] | [_ Hj]]%lookup_insert_Some; [done | by apply Hc].
    + intros j [w Hj]. rewrite lookup_insert_ne; [done | intros ->; congruence].
Qed.

(** The slots of a list, one after the other. *)
Lemma finalise_slots_ok l : forall o, NoDup l.*1 -> clean_ok o -> (forall k, k ∈ l.*1 -> pendingStorage o !! k = None /\ uncommittedStorage o !! k = None) ->
  let o' := fold_left (finalise_slot false) l o in
  same_account o o' /\ clean_ok o' /\ pendingStorage o' = list_to_map l ∪ pendingStorage o /\
  uncommittedStorage o' = list_to_map ((fun kv => (kv.1, reader_Storage (address o) kv.1)) <$> l) ∪ uncommittedStorage o /\
  (forall k, k ∈ l.*1 \/ is_Some (originStorage o !! k) -> is_Some (originStorage o' !! k)).
Proof using Type.
  induction l as [| [k v] l IH]; intros o Hnd Hc Hl; cbn [fold_left].
  - split_and!; [done | done | by rewrite list_to_map_nil, left_id_L by apply _ | by rewrite fmap_nil, list_to_map_nil, left_id_L by apply _ |].
    intros k [Hk%elem_of_nil | Hk]; done.
  - rewrite fmap_cons in Hnd. apply NoDup_cons in Hnd as [Hk Hnd]. cbn [fst] in Hk. destruct (Hl k ltac:(left)) as [Hp Hu].
    destruct (finalise_slot_ok o k v Hc Hp Hu) as (Hs & Hc1 & Hp1 & Hu1 & _ & Ho1 & Hj1). set (o1 := finalise_slot false o (k, v)) in *.
    destruct (IH o1 Hnd Hc1) as (Hs2 & Hc2 & Hp2 & Hu2 & Ho2).
    { intros j Hj. assert (k <> j) by (by intros ->). destruct (Hl j ltac:(by right)). by rewrite Hp1, Hu1, !lookup_insert_ne. }
    rewrite (sc_address _ _ Hs) in Hu2. split_and!; [by eapply same_account_trans | done | | |].
    + rewrite Hp2, Hp1. cbn. rewrite <- insert_union_r by (by apply not_elem_of_list_to_map). by rewrite insert_union_l.
    + rewrite Hu2, Hu1. cbn. rewrite <- insert_union_r by (apply not_elem_of_list_to_map; rewrite <- list_fmap_compose; exact Hk). by rewrite insert_union_l.
    + intros j [[-> | Hj]%elem_of_cons | Hj]; apply Ho2; [right; cbn [fst]; by rewrite Ho1 | by left | right; by rewrite Hj1].
Qed.

Definition untouched (o : stateObject) : Prop := pendingStorage o = ∅ /\ uncommittedStorage o = ∅ /\ clean_ok o.

Lemma obj_finalise_ok o : untouched o -> let o' := obj_finalise false o in
  same_account o o' /\ clean_ok o' /\ pendingStorage o' = dirtyStorage o /\ dirtyStorage o' = ∅ /\
  uncommittedStorage o' = map_imap (fun k _ => Some (reader_Storage (address o) k)) (dirtyStorage o) /\
  (forall k, is_Some (dirtyStorage o !! k) -> originStorage o' !! k = Some (reader_Storage (address o) k)).
Proof using Type.
  intros (Hp & Hu & Hc). unfold obj_finalise.
  destruct (finalise_slots_ok (map_to_list (dirtyStorage o)) o) as (Hs & Hc' & Hp' & Hu' & Ho'); [apply NoDup_fst_map_to_list | done | by rewrite Hp, Hu |].
  set (o1 := fold_left (finalise_slot false) (map_to_list (dirtyStorage o)) o) in *. cbn. split_and!.
  - destruct Hs. by split.
  - intros k v. cbn. rewrite (sc_address _ _ Hs). intros Hk. pose proof (Hc' k v Hk) as He. by rewrite (sc_address _ _ Hs) in He.
  - by rewrite Hp', Hp, right_id_L, list_to_map_to_list by apply _.
  - done.
  - rewrite Hu', Hu, right_id_L by apply _. apply map_eq. intros k. rewrite map_lookup_imap. destruct (dirtyStorage o !! k) as [v |] eqn:Hv; cbn.
    + apply elem_of_list_to_map_1; [rewrite <- list_fmap_compose; apply NoDup_fst_map_to_list |].
      apply list_elem_of_fmap. exists (k, v). split; [done | by apply elem_of_map_to_list].
    + apply not_elem_of_list_to_map. rewrite <- list_fmap_compose. intros Hk. apply list_elem_of_fmap in Hk as ([j w] & He & Hj%elem_of_map_to_list). cbn in He. congruence.
  - intros k [v Hv]. destruct (Ho' k) as [w Hw]; [left; apply list_elem_of_fmap; exists (k, v); split; [done | by apply elem_of_map_to_list] |].
    rewrite Hw. f_equal. pose proof (Hc' k w Hw) as He. by rewrite (sc_address _ _ Hs) in He.
Qed.

(** ** The state *)

(** An object of a state that was opened and changed: its storage root is that of the database, and a slot is dirty when its
    value differs from the one there. *)
Record object_ready (a : Z) (o : stateObject) : Prop := {
  or_address : address o = a; or_place : is_address a; or_data : account_ok (data o); or_root : sa_Root (data o) = root_of (reader_Account a);
  or_origin : forall d, origin o = Some d -> reader_Account a = Some d;
  or_untouched : untouched o;
  or_slots : forall k v, dirtyStorage o !! k = Some v -> is_u256 k /\ is_u256 v /\ v <> reader_Storage a k
}.

(** Nothing was finalised yet, and an object without an entry in the journal is that of the database. *)
Record ready (s : StateDB) : Prop := {
  rs_destruct : stateObjectsDestruct s = ∅; rs_mutations : mutations s = ∅;
  rs_objects : forall a o, stateObjects s !! a = Some o -> object_ready a o;
  rs_clean : forall a o, stateObjects s !! a = Some o -> dirties (jrnl s) !! a = None -> reader_Account a = Some (data o) /\ dirtyStorage o = ∅ /\ dirtyCode o = false
}.

Definition doomed (deleteEmptyObjects : bool) (o : stateObject) : bool := selfDestructed o || (deleteEmptyObjects && obj_empty o).

(** What [Finalise] reads and writes of an address. *)
Definition cell : Type := option stateObject * option stateObject * option mutation.
Definition cell_at (s : StateDB) (a : Z) : cell := (stateObjects s !! a, stateObjectsDestruct s !! a, mutations s !! a).

Definition finalise_cell (deleteEmptyObjects : bool) (x : cell) : cell :=
  match x.1.1 with
  | None => x
  | Some o =>
      if doomed deleteEmptyObjects o then (None, match x.1.2 with Some d => Some d | None => Some o end, Some (mkMutation deletion false))
      else (Some (obj_finalise (bool_decide (is_Some x.1.2)) o), x.1.2, Some (mkMutation StateDB.update false))
  end.

Definition placed (s : StateDB) : Prop := forall a o, stateObjects s !! a = Some o -> address o = a.

Lemma finalise_slots_address d l : forall o, address (fold_left (finalise_slot d) l o) = address o.
Proof using Type.
  clear. induction l as [| [k v] l IH]; intros o; [done |]. cbn [fold_left]. rewrite IH. unfold finalise_slot, obj_GetCommittedState.
  destruct (uncommittedStorage o !! k) as [x |]; [by destruct (x =? v) |]. destruct (pendingStorage o !! k); [done |]. by destruct (originStorage o !! k).
Qed.

Lemma finalise_account_cell del s b : placed s -> placed (finalise_account del s b) /\
  forall a, cell_at (finalise_account del s b) a = if decide (a = b) then finalise_cell del (cell_at s a) else cell_at s a.
Proof using Type.
  intros Hpl. unfold finalise_account. destruct (stateObjects s !! b) as [o |] eqn:Ho.
  - pose proof (Hpl b o Ho) as Hb. fold (doomed del o). destruct (doomed del o) eqn:Hd; (split; [intros a x; cbn | intros a; unfold cell_at; cbn]).
    + rewrite Hb. intros [_ Hx]%lookup_delete_Some. by apply Hpl.
    + rewrite Hb. destruct (decide (a = b)) as [-> | Hne]; [rewrite Ho; unfold finalise_cell, mark; cbn; rewrite Hd, lookup_delete_eq, lookup_insert_eq | unfold mark].
      * destruct (stateObjectsDestruct s !! b) eqn:E; [by rewrite E | by rewrite lookup_insert_eq].
      * rewrite lookup_delete_ne, (lookup_insert_ne (mutations s)) by done. destruct (stateObjectsDestruct s !! b); [done | by rewrite lookup_insert_ne].
    + intros [[<- <-] | [_ Hx]]%lookup_insert_Some; [| by apply Hpl]. unfold obj_finalise. cbn. by rewrite finalise_slots_address.
    + rewrite Hb. destruct (decide (a = b)) as [-> | Hne]; unfold mark; [rewrite Ho; unfold finalise_cell; cbn; rewrite Hd, !lookup_insert_eq | by rewrite !lookup_insert_ne by done].
      unfold destructed_at. by destruct (stateObjectsDestruct s !! b).
  - split; [done |]. intros a. destruct (decide (a = b)) as [-> | Hne]; [| done]. unfold finalise_cell, cell_at. cbn. by rewrite Ho.
Qed.

Lemma finalise_accounts_cell del l : forall s, NoDup l -> placed s -> placed (fold_left (finalise_account del) l s) /\
  forall a, cell_at (fold_left (finalise_account del) l s) a = if decide (a ∈ l) then finalise_cell del (cell_at s a) else cell_at s a.
Proof using Type.
  induction l as [| b l IH]; intros s Hnd Hpl; cbn [fold_left].
  - split; [done |]. intros a. by rewrite decide_False by apply not_elem_of_nil.
  - apply NoDup_cons in Hnd as [Hb Hnd]. destruct (finalise_account_cell del s b Hpl) as [Hpl1 Hc1]. destruct (IH _ Hnd Hpl1) as [Hpl2 Hc2]. split; [done |]. intros a. rewrite Hc2, Hc1.
    destruct (decide (a = b)) as [-> | Hne]; [by rewrite decide_False, decide_True by (done || left) |].
    destruct (decide (a ∈ l)) as [Ha | Ha]; [by rewrite decide_True by by right | by rewrite decide_False by by intros [? | ?]%elem_of_cons].
Qed.

Definition touched (s : StateDB) (a : Z) : Prop := is_Some (dirties (jrnl s) !! a).
#[export] Instance touched_dec s a : Decision (touched s a).
Proof using Type. clear. unfold touched. apply _. Defined.

(** The objects that the commit writes, deletes and leaves. *)
Lemma Finalise_cells del s a : ready s -> cell_at (Finalise del s) a =
  match stateObjects s !! a with
  | Some o => if decide (touched s a) then (if doomed del o then (None, Some o, Some (mkMutation deletion false)) else (Some (obj_finalise false o), None, Some (mkMutation StateDB.update false)))
              else (Some o, None, None)
  | None => (None, None, None)
  end.
Proof using Type.
  intros [Hd Hm Ho _]. unfold Finalise, clearJournalAndRefund.
  destruct (finalise_accounts_cell del (map_to_list (dirties (jrnl s))).*1 s) as [_ Hc]; [apply NoDup_fst_map_to_list | intros b o Hb; by apply (or_address _ _ (Ho b o Hb)) |].
  transitivity (cell_at (fold_left (finalise_account del) (map_to_list (dirties (jrnl s))).*1 s) a); [done |]. rewrite Hc. unfold cell_at. rewrite Hd, Hm, !lookup_empty.
  assert (a ∈ (map_to_list (dirties (jrnl s))).*1 <-> touched s a) as He.
  { unfold touched. split; [intros ([b n] & -> & Hb%elem_of_map_to_list)%list_elem_of_fmap; by eexists | intros [n Hn]; apply list_elem_of_fmap; exists (a, n); split; [done | by apply elem_of_map_to_list]]. }
  destruct (stateObjects s !! a) as [o |]; unfold finalise_cell; cbn [fst snd]; [| by case_decide].
  rewrite (decide_ext _ _ _ _ He). done.
Qed.
End Finalise.

(** ** The states that are committed

    A state that was opened and changed by operations other than reverts is ready to be committed: every object has the root
    of the database, a slot is dirty when it differs from the database, and an object that no journal entry names is as in the
    database. *)

Section Ready.
Context `{cfg : Config} `{rd : StateReader} `{env : NodeEnv}.
Context (reader_ok : forall a d, is_address a -> reader_Account a = Some d -> account_ok d).

(** ** Objects in the state *)

(** The maps of objects are as before, up to the journal. *)
Lemma ready_journal s s' : stateObjects s' = stateObjects s -> stateObjectsDestruct s' = stateObjectsDestruct s -> mutations s' = mutations s ->
  (forall a, touched s a -> touched s' a) -> ready s -> ready s'.
Proof using Type.
  clear. intros Ho Hd Hm Ht [Rd Rm Ro Rc]. split; [congruence | congruence | intros a o; rewrite Ho; apply Ro |].
  intros a o. rewrite Ho. intros Ha Hn. apply (Rc a o Ha). destruct (dirties (jrnl s) !! a) eqn:E; [| done]. destruct (Ht a) as [x Hx]; [by eexists | congruence].
Qed.

Lemma touched_record s e a : touched s a -> touched (record_entry s e) a.
Proof using Type.
  clear. unfold touched, record_entry, journal_append. cbn. intros Ha. destruct (dirtied e) as [b |]; cbn; [| done]. destruct (decide (a = b)) as [-> | Hne]; [rewrite lookup_insert_eq; by eexists | by rewrite lookup_insert_ne].
Qed.

Lemma touched_entry s e a : dirtied e = Some a -> touched (record_entry s e) a.
Proof using Type. clear. intros He. unfold touched, record_entry, journal_append. rewrite He. cbn. rewrite lookup_insert_eq. by eexists. Qed.

Lemma ready_record s e : ready s -> ready (record_entry s e).
Proof using Type. clear. apply ready_journal; [done.. |]. intros a. apply touched_record. Qed.

(** An object may be replaced when it is ready, and is in the journal or as in the database. *)
Lemma ready_set s a o : ready s -> object_ready a o -> (touched s a \/ (reader_Account a = Some (data o) /\ dirtyStorage o = ∅ /\ dirtyCode o = false)) -> ready (setStateObject s o).
Proof using Type.
  clear. intros [Rd Rm Ro Rc] Ho Ht. pose proof (or_address _ _ Ho) as Ha. split; [done | done | |]; unfold setStateObject; cbn; rewrite Ha.
  - intros b x [[<- <-] | [_ Hx]]%lookup_insert_Some; [done | by apply Ro].
  - intros b x [[<- <-] | [_ Hx]]%lookup_insert_Some Hn; [| by apply Rc]. destruct Ht as [[y Hy] | ?]; [congruence | done].
Qed.

(** The loaded or cached object says the same. *)
Lemma ready_cached s a o o' : ready s -> stateObjects s !! a = Some o -> object_ready a o' -> data o' = data o -> dirtyStorage o' = dirtyStorage o -> dirtyCode o' = dirtyCode o -> ready (setStateObject s o').
Proof using Type.
  clear. intros Hr Ho Ho' Hd Hs Hc. apply (ready_set s a); [done | done |]. destruct (dirties (jrnl s) !! a) eqn:E; [left; unfold touched; rewrite E; by eexists | right]. rewrite Hd, Hs, Hc. by apply Hr.
Qed.

Lemma ready_change s a o e : ready s -> object_ready a o -> dirtied e = Some a -> ready (setStateObject (record_entry s e) o).
Proof using Type. clear. intros Hr Ho He. apply (ready_set _ a); [by apply ready_record | done | left; by apply touched_entry]. Qed.

Lemma new_ready a d : is_address a -> reader_Account a = Some d -> object_ready a (newObject a (Some d)).
Proof using reader_ok.
  intros Ha Hd. split; cbn; [done | done | by apply (reader_ok a) | by rewrite Hd | by intros x [= <-] | split_and!; [done | done |]; intros k v; cbn; by rewrite lookup_empty | intros k v; by rewrite lookup_empty].
Qed.

Lemma getStateObject_ready s a s1 x : ready s -> is_address a -> getStateObject s a = (s1, x) ->
  ready s1 /\ jrnl s1 = jrnl s /\ match x with Some o => stateObjects s1 !! a = Some o /\ object_ready a o | None => reader_Account a = None end.
Proof using reader_ok.
  intros Hr Ha. unfold getStateObject. destruct (stateObjects s !! a) as [o |] eqn:Ho; [intros [= <- <-]; split_and!; [done | done | done | by apply Hr] |]. rewrite (rs_destruct _ Hr), lookup_empty.
  destruct (reader_Account a) as [d |] eqn:Hd; intros [= <- <-]; [| by split_and!]. pose proof (new_ready a d Ha Hd) as Hn. split_and!; [apply (ready_set s a); [done | done | by right] | done | | done].
  unfold setStateObject. cbn. by rewrite lookup_insert_eq.
Qed.

Lemma created_ready a b : is_address a -> reader_Account a = None -> is_u256 b -> object_ready a (obj_setBalance (newObject a None) b).
Proof using Type.
  clear. intros Ha Hn Hb. split; cbn; [done | done | by split | by rewrite Hn | done | split_and!; [done | done |]; intros k v; cbn; by rewrite lookup_empty | intros k v; by rewrite lookup_empty].
Qed.

Lemma MustFromBig_range z b : MustFromBig z = Ret b -> is_u256 b.
Proof using Type. clear. unfold MustFromBig. destruct (Z.abs z <? 2 ^ 256); [| done]. intros [= <-]. apply u256_range. Qed.

Lemma createObject_ready s a s1 o : ready s -> is_address a -> reader_Account a = None -> createObject s a = Ret (s1, o) -> ready s1 /\ stateObjects s1 !! a = Some o /\ object_ready a o.
Proof using Type.
  clear reader_ok. intros Hr Ha Hn Hc. unfold createObject in Hc. apply bind_Ret_inv in Hc as (b & Hb & [= <- <-]). pose proof (created_ready a b Ha Hn (MustFromBig_range _ _ Hb)) as Ho.
  split_and!; [by apply (ready_change _ a) | unfold setStateObject; cbn; by rewrite lookup_insert_eq | done].
Qed.

Lemma getOrNew_ready s a s1 o : ready s -> is_address a -> getOrNewStateObject s a = Ret (s1, o) -> ready s1 /\ stateObjects s1 !! a = Some o /\ object_ready a o.
Proof using reader_ok.
  intros Hr Ha. unfold getOrNewStateObject. destruct (getStateObject s a) as [s2 [x |]] eqn:E; pose proof (getStateObject_ready s a s2 _ Hr Ha E) as (Hr2 & _ & Hx).
  - intros [= <- <-]. tauto.
  - intros Hc. by eapply createObject_ready.
Qed.

(** ** Changes of an object *)

(** The account fields change within their widths, the root does not. *)
Lemma ready_data a o d flag : object_ready a o -> account_ok d -> sa_Root d = sa_Root (data o) ->
  object_ready a (obj_set_flags (obj_set_data o d) flag (newContract o)).
Proof using Type. clear. intros [Ha Hp Hd Hr Hog (Hu1 & Hu2 & Hu3) Hs] Hok He. split; cbn; [done | done | done | congruence | done | by split_and! | done]. Qed.

Lemma ready_balance a o v : object_ready a o -> is_u256 v -> object_ready a (obj_setBalance o v).
Proof using Type.
  clear. intros Ho Hv. pose proof (or_data _ _ Ho) as [Hn _ Hr Hc]. destruct o. exact (ready_data a _ _ _ Ho (Build_account_ok (mkStateAccount _ v _ _) Hn Hv Hr Hc) eq_refl).
Qed.

Lemma ready_nonce a o n : object_ready a o -> is_u64 n -> object_ready a (obj_setNonce o n).
Proof using Type.
  clear. intros Ho Hv. pose proof (or_data _ _ Ho) as [_ Hb Hr Hc]. destruct o. exact (ready_data a _ _ _ Ho (Build_account_ok (mkStateAccount n _ _ _) Hv Hb Hr Hc) eq_refl).
Qed.

Lemma ready_code a o h c : object_ready a o -> is_u256 h -> object_ready a (obj_setCode o h c).
Proof using Type.
  clear. intros [Ha Hp [Hn Hb Hr' Hc] Hr Hog (Hu1 & Hu2 & Hu3) Hs] Hh. split; cbn; [done | done | by split | done | done | by split_and! | done].
Qed.

Lemma ready_flags a o d n : object_ready a o -> object_ready a (obj_set_flags o d n).
Proof using Type. clear. intros [Ha Hp Hd Hr Hog (Hu1 & Hu2 & Hu3) Hs]. split; cbn; [done | done | done | done | done | by split_and! | done]. Qed.

(** Reading a slot fills the cache with the value of the database. *)
Lemma ready_read a o k o' cur orig : object_ready a o -> obj_getState false o k = (o', (cur, orig)) ->
  object_ready a o' /\ data o' = data o /\ dirtyStorage o' = dirtyStorage o /\ dirtyCode o' = dirtyCode o /\ orig = reader_Storage a k /\ cur = default (reader_Storage a k) (dirtyStorage o !! k).
Proof using Type.
  clear. intros Ho. pose proof Ho as [Ha Hp Hd Hr Hog (Hu1 & Hu2 & Hu3) Hs]. unfold obj_getState, obj_GetCommittedState. rewrite Hu1, lookup_empty. destruct (originStorage o !! k) as [v |] eqn:Hv.
  - pose proof (Hu3 k v Hv) as He. rewrite Ha in He. subst v. destruct (dirtyStorage o !! k); intros [= <- <- <-]; done.
  - cbn. rewrite Ha. assert (object_ready a (obj_set_storage o (<[k := reader_Storage a k]> (originStorage o)) (dirtyStorage o) ∅ (uncommittedStorage o))) as Ho1.
    { split; cbn; [done | done | done | done | done | | done]. split_and!; [done | done |]. intros j w. cbn. rewrite Ha. intros [[<- <-] | [_ Hj]]%lookup_insert_Some; [done | rewrite <- Ha; by apply Hu3]. }
    destruct (dirtyStorage o !! k) eqn:E; intros [= <- <- <-]; done.
Qed.

Lemma ready_slot a o k v : object_ready a o -> is_u256 k -> is_u256 v -> object_ready a (obj_setState o k v (reader_Storage a k)).
Proof using Type.
  clear. intros [Ha Hp Hd Hr Hog (Hu1 & Hu2 & Hu3) Hs] Hk Hv. unfold obj_setState. split; cbn; [done | done | done | done | done | by split_and! |].
  intros j w. destruct (Z.eqb_spec v (reader_Storage a k)) as [He | Hne]; [intros [_ Hj]%lookup_delete_Some; by apply Hs | intros [[<- <-] | [_ Hj]]%lookup_insert_Some; [done | by apply Hs]].
Qed.

(** ** Operations *)

(** Arguments within their widths; an account is only created where the database has none; no revert. *)
Definition op_valid (op : db_op) : Prop :=
  match op with
  | OpAddBalance a _ | OpSubBalance a _ | OpGetBalance a | OpSelfDestruct a | OpSelfdestruct6780 a | OpCreateContract a => is_address a
  | OpSetBalance a v => is_address a /\ is_u256 v
  | OpSetNonce a n => is_address a /\ is_u64 n
  | OpSetCode a c => is_address a /\ is_u256 (Keccak256Hash c)
  | OpSetState a k v => is_address a /\ is_u256 k /\ is_u256 v
  | OpCreateAccount a => is_address a /\ reader_Account a = None
  | OpRevert _ => False
  | _ => True
  end.

Lemma SetState_ready s a o k v : ready s -> stateObjects s !! a = Some o -> object_ready a o -> is_u256 k -> is_u256 v -> ready (obj_SetState s o k v).
Proof using Type.
  clear reader_ok. intros Hr Ho Hor Hk Hv. unfold obj_SetState, destructed_at. rewrite (rs_destruct _ Hr), lookup_empty. destruct (obj_getState false o k) as [o' [cur orig]] eqn:E.
  destruct (ready_read a o k o' cur orig Hor E) as (Hor' & Hd & Hs & Hdc & -> & _). destruct (cur =? v); [by eapply ready_cached |]. apply (ready_change _ a); [done | by apply ready_slot | cbn; by rewrite (or_address _ _ Hor)].
Qed.

Lemma SelfDestruct_ready s a : ready s -> is_address a -> ready (SelfDestruct s a).
Proof using reader_ok.
  intros Hr Ha. unfold SelfDestruct. destruct (getStateObject s a) as [s1 [o |]] eqn:E; pose proof (getStateObject_ready s a s1 _ Hr Ha E) as (Hr1 & _ & Hx); [| done]. destruct Hx as [Ho Hor].
  assert (exists s2 o2, (if sa_Balance (data o) =? 0 then (s1, o) else (obj_SetBalance s1 o 0, obj_setBalance o 0)) = (s2, o2) /\ ready s2 /\ object_ready a o2) as (s2 & o2 & -> & Hr2 & Hor2).
  { destruct (sa_Balance (data o) =? 0); [by exists s1, o |]. eexists _, _. split; [reflexivity |]. assert (object_ready a (obj_setBalance o 0)) as Hb by by apply ready_balance.
    split; [| done]. unfold obj_SetBalance. apply (ready_change _ a); [done | done | cbn; by rewrite (or_address _ _ Hor)]. }
  destruct (selfDestructed o2); [done |]. apply (ready_change _ a); [done | by apply ready_flags | done].
Qed.

Lemma run_op_ready s op s' : ready s -> op_valid op -> run_op s op = Ret s' -> ready s'.
Proof using reader_ok.
  assert (forall s a o v, ready s -> object_ready a o -> is_u256 v -> ready (obj_SetBalance s o v)) as Hbal.
  { intros t a o v Ht Ho Hv. unfold obj_SetBalance. apply (ready_change _ a); [done | by apply ready_balance | cbn; by rewrite (or_address _ _ Ho)]. }
  intros Hr Hv Hrun. destruct op; cbn [run_op op_valid] in *.
  - apply bind_Ret_inv in Hrun as ([s1 o] & Hg & Hrun). destruct (getOrNew_ready s a s1 o Hr Hv Hg) as (Hr1 & Ho & Hor). cbn in Hrun. destruct (v =? 0).
    + destruct (obj_empty o); injection Hrun as <-; [| done]. unfold touch. destruct (address o =? 3); [| by apply ready_record]. apply (ready_journal (record_entry s1 (TouchChange (address o) ShardID))); [done | done | done | | by apply ready_record].
      intros b Hb. unfold touched, journal_dirty in *. cbn in *. destruct (decide (b = 3)) as [-> | Hne]; [rewrite lookup_insert_eq; by eexists | by rewrite lookup_insert_ne].
    + injection Hrun as <-. by apply (Hbal _ a); [| | apply u256_range].
  - apply bind_Ret_inv in Hrun as ([s1 o] & Hg & Hrun). destruct (getOrNew_ready s a s1 o Hr Hv Hg) as (Hr1 & Ho & Hor). cbn in Hrun. destruct (v =? 0); injection Hrun as <-; [done |]. by apply (Hbal _ a); [| | apply u256_range].
  - apply bind_Ret_inv in Hrun as ([s1 o] & Hg & [= <-]). destruct (getOrNew_ready s a s1 o Hr (proj1 Hv) Hg) as (Hr1 & Ho & Hor). by apply (Hbal _ a); [| | apply Hv].
  - apply bind_Ret_inv in Hrun as (r & Hg & [= <-]). apply bind_Ret_inv in Hg as ([s1 o] & Hg & [= <-]). by destruct (getOrNew_ready s a s1 o Hr Hv Hg).
  - apply bind_Ret_inv in Hrun as ([s1 o] & Hg & [= <-]). destruct Hv as [Ha Hn]. destruct (getOrNew_ready s a s1 o Hr Ha Hg) as (Hr1 & Ho & Hor). apply (ready_change _ a); [done | by apply ready_nonce | cbn; by rewrite (or_address _ _ Hor)].
  - apply bind_Ret_inv in Hrun as ([s1 o] & Hg & [= <-]). destruct Hv as [Ha Hc]. destruct (getOrNew_ready s a s1 o Hr Ha Hg) as (Hr1 & Ho & Hor). apply (ready_change _ a); [done | by apply ready_code | cbn; by rewrite (or_address _ _ Hor)].
  - apply bind_Ret_inv in Hrun as ([s1 o] & Hg & [= <-]). destruct Hv as (Ha & Hk & Hv). destruct (getOrNew_ready s a s1 o Hr Ha Hg) as (Hr1 & Ho & Hor). by eapply SetState_ready.
  - injection Hrun as <-. by apply SelfDestruct_ready.
  - injection Hrun as <-. unfold Selfdestruct6780. destruct (getStateObject s a) as [s1 [o |]] eqn:E; pose proof (getStateObject_ready s a s1 _ Hr Hv E) as (Hr1 & _ & Hx); [| done]. destruct (newContract o); [by apply SelfDestruct_ready | done].
  - injection Hrun as <-. unfold SetTransientState. destruct (_ =? _); [done |]. eapply ready_journal; [| | | | exact Hr]; [done.. |]. intros b. by apply (touched_record s).
  - injection Hrun as <-. eapply ready_journal; [| | | | exact Hr]; [done.. |]. intros b. by apply (touched_record s).
  - unfold SubRefund in Hrun. destruct (refund s <? g); [done |]. injection Hrun as <-. eapply ready_journal; [| | | | exact Hr]; [done.. |]. intros b. by apply (touched_record s).
  - injection Hrun as <-. eapply ready_journal; [| | | | exact Hr]; [done.. |]. intros b. by apply (touched_record s).
  - apply bind_Ret_inv in Hrun as ([s1 o] & Hg & [= <-]). by destruct (createObject_ready s a s1 o Hr (proj1 Hv) (proj2 Hv) Hg).
  - unfold CreateContract in Hrun. destruct (getStateObject s a) as [s1 [o |]] eqn:E; pose proof (getStateObject_ready s a s1 _ Hr Hv E) as (Hr1 & _ & Hx); [| done]. destruct Hx as [Ho Hor].
    destruct (newContract o); injection Hrun as <-; [done |]. apply ready_record. by apply (ready_cached _ a o); [| | apply ready_flags | | |].
  - injection Hrun as <-. unfold AddAddressToAccessList. destruct (AddAddress (access s) a) as [al []]; [eapply ready_journal; [| | | | exact Hr]; [done.. |]; intros b; by apply (touched_record s) | eapply ready_journal; [| | | | exact Hr]; done].
  - unfold AddSlotToAccessList in Hrun. apply bind_Ret_inv in Hrun as ([al [am sm]] & _ & [= <-]). assert (ready (db_access s al)) as H1 by (eapply ready_journal; [| | | | exact Hr]; done).
    destruct am, sm; try done; repeat apply ready_record; done.
  - injection Hrun as <-. eapply ready_journal; [| | | | exact Hr]; done.
  - done.
Qed.

Lemma New_ready : ready New_StateDB.
Proof using Type. clear. split; [done | done | |]; intros a o; cbn; by rewrite lookup_empty. Qed.

Lemma run_ops_ready ops : forall s s', ready s -> Forall op_valid ops -> for_each run_op s ops = Ret s' -> ready s'.
Proof using reader_ok.
  induction ops as [| op ops IH]; intros s s' Hr Hv Hrun; [by injection Hrun as <- |]. apply Forall_cons in Hv as [Ho Hv]. cbn in Hrun. apply bind_Ret_inv in Hrun as (s1 & H1 & Hrun).
  eapply IH; [| done | exact Hrun]. by eapply run_op_ready.
Qed.
End Ready.

