(* ===== verification/StateRoot.v ===== *)
(** * The root of a changed state

    The storage tries of the changed accounts, and the account trie above them. *)
From Stdlib Require Import ZArith Lia.
From stdpp Require Import base gmap strings list.
From S2P Require Import Prelude Utils JournalTypes Core AccessList StateDB TrieEncoding Trie TrieHash TrieProofs TrieMap TrieRoot.
From S2P Require Import TrieDecode TrieReopen TrieHistory HashDB StateTrie StateCommit StateTrieProofs StateReady.

(** ** The storage tries of a state that is hashed

    What [updateRoot] does to a finalised object: its trie, opened at the root the account had, gets the changed slots and
    its root goes into the account. *)

(** A range visits every entry once. *)
Class RangesLaws (ra : Ranges) := { order_perm {A} (m : gmap Z A) : order m ≡ₚ map_to_list m }.

Lemma order_elem `{ra : Ranges} `{!RangesLaws ra} {A} (m : gmap Z A) k x : (k, x) ∈ order m <-> m !! k = Some x.
Proof. by rewrite (order_perm m), elem_of_map_to_list. Qed.

Lemma order_NoDup `{ra : Ranges} `{!RangesLaws ra} {A} (m : gmap Z A) : NoDup (order m).*1.
Proof. rewrite (order_perm m). apply NoDup_fst_map_to_list. Qed.

Lemma order_keys `{ra : Ranges} `{!RangesLaws ra} {A} (m : gmap Z A) k : k ∈ (order m).*1 <-> is_Some (m !! k).
Proof.
  split; [intros ([j x] & -> & Hj)%list_elem_of_fmap; exists x; by apply order_elem | intros [x Hx]; apply list_elem_of_fmap; exists (k, x); split; [done | by apply order_elem]].
Qed.

(** A loop whose body succeeds and keeps an invariant of what was visited. *)
Lemma for_res_inv {S A} (P : list A -> S -> Prop) (f : S -> A -> res S) (l : list A) s : P [] s ->
  (forall done x rest s, l = done ++ x :: rest -> P done s -> exists s', f s x = Val s' /\ P (done ++ [x]) s') -> exists s', for_res f s l = Val s' /\ P l s'.
Proof.
  intros Hs Hf. assert (forall todo done s, l = done ++ todo -> P done s -> exists s', for_res f s todo = Val s' /\ P l s') as Hgen; [| by apply (Hgen l [])].
  clear s Hs. induction todo as [| x todo IH]; intros done s Hl Hs; [exists s; rewrite app_nil_r in Hl; by subst |]. cbn [for_res].
  destruct (Hf done x todo s Hl Hs) as (s1 & -> & Hs1). cbn [mbind res_bind]. apply (IH (done ++ [x])); [by rewrite <- app_assoc | done].
Qed.

Section Slots.
Context `{rlp : RLP} `{rlpe : !RLPEmpty rlp} `{rlpl : !RLPLaws rlp} `{ac : AccountCodec} `{acl : !AccountLaws ac} (keccak : bytes -> bytes) (HL : hash_laws keccak).
Context (fuel : nat) (Hfuel : (132 <= fuel)%nat) `{rd : StateReader} `{ra : Ranges} `{ral : !RangesLaws ra}.
Context (db : Z -> string + Reader) (V : store_map) (Hst : store_ok keccak V) (Hdb : serves db V) (root : Z) (Hks : known_state keccak V root reader_Account reader_Storage).
#[local] Abbreviation holds := (holds keccak).
#[local] Abbreviation slots := (slots keccak).

Lemma slots_ext m f g : (forall k, is_u256 k -> f k = g k) -> slots m f -> slots m g.
Proof using Type. clear. intros He Hm k Hk. by rewrite <- He; [apply Hm |]. Qed.

Lemma encode_slot_some v : v <> 0 -> encode_slot v = Some (EncodeString (TrimLeftZeroes (hash_bytes v))).
Proof using Type. clear. intros Hv. unfold encode_slot. by rewrite (proj2 (Z.eqb_neq v 0) Hv). Qed.

Lemma UpdateStorage_ok ow t m f k v : holds V ow t m -> slots m f -> is_u256 k -> v <> 0 ->
  exists t' m', UpdateStorage keccak fuel t (hash_bytes k) (TrimLeftZeroes (hash_bytes v)) = Val (None, t') /\ holds V ow t' m' /\ slots m' (upd f k v).
Proof using HL Hfuel rlpe rlpl.
  clear acl ral Hst Hdb Hks db root. intros Ht Hm Hk Hv. pose proof (encode_slot_some v Hv) as He. pose proof (encode_nonempty v _ He) as Hne. pose proof (slots_update keccak HL m f k v Hk Hm) as Hs. rewrite He in Hs.
  unfold UpdateStorage. destruct (st_update_ok keccak HL fuel Hfuel V ow t m (hash_bytes k) _ Ht Hne) as (t' & Hrun & Ht'). by eexists _, _.
Qed.

Lemma DeleteStorage_ok ow t m f k : holds V ow t m -> slots m f -> is_u256 k ->
  exists t' m', DeleteStorage keccak fuel t (hash_bytes k) = Val (None, t') /\ holds V ow t' m' /\ slots m' (upd f k 0).
Proof using HL Hfuel.
  clear rlpe rlpl acl ral Hst Hdb Hks db root. intros Ht Hm Hk. destruct (st_delete_ok keccak HL fuel Hfuel V ow t m (hash_bytes k) Ht) as (t' & Hrun & Ht'). eexists _, _. split_and!; [done.. |].
  by apply (slots_update keccak HL m f k 0).
Qed.

(** The slots of a list that are written. *)
Definition written (pending : gmap Z Z) (l : list (Z * Z)) (f : Z -> Z) (k : Z) : Z :=
  match pending !! k with Some v => if decide (k ∈ l.*1 /\ v <> 0) then v else f k | None => f k end.

Definition zeros (pending : gmap Z Z) (l : list (Z * Z)) : list Z := base.filter (fun k => pending !! k = Some 0) l.*1.

Lemma update_slots_ok ow pending l : forall t m f dels, holds V ow t m -> slots m f ->
  (forall k orig, (k, orig) ∈ l -> exists v, pending !! k = Some v /\ v <> orig /\ is_u256 k) ->
  exists t' m', update_slots keccak fuel pending l t dels = Val (None, t', dels ++ zeros pending l) /\ holds V ow t' m' /\ slots m' (written pending l f).
Proof using HL Hfuel rlpe rlpl.
  clear acl ral Hst Hdb Hks db root. induction l as [| [k orig] l IH]; intros t m f dels Ht Hm Hl; cbn [update_slots].
  - exists t, m. split_and!; [by rewrite app_nil_r | done |]. eapply slots_ext; [| done]. intros j _. unfold written. destruct (pending !! j); [| done]. rewrite decide_False; [done |]. by intros [?%not_elem_of_nil _].
  - destruct (Hl k orig ltac:(left)) as (v & Hv & Hne & Hk). assert (forall j o, (j, o) ∈ l -> exists v, pending !! j = Some v /\ v <> o /\ is_u256 j) as Hl' by (intros j o Hj; apply Hl; by right).
    rewrite Hv, (proj2 (Z.eqb_neq v orig) Hne). unfold zeros. rewrite fmap_cons, filter_cons. cbn [fst]. rewrite Hv. destruct (Z.eqb_spec v 0) as [-> | H0]; cbn [negb].
    + destruct (IH t m f (dels ++ [k]) Ht Hm Hl') as (t' & m' & Hrun & Ht' & Hm'). exists t', m'. rewrite Hrun, decide_True, <- app_assoc by done. split_and!; [done | done |].
      eapply slots_ext; [| done]. intros j _. unfold written. destruct (pending !! j) as [w |] eqn:Hw; [| done].
      apply decide_ext. rewrite fmap_cons, elem_of_cons. cbn [fst]. split; [tauto |]. intros [[-> | ?] ?]; [congruence | done].
    + destruct (UpdateStorage_ok ow t m f k v Ht Hm Hk H0) as (t1 & m1 & -> & Ht1 & Hm1). cbn [mbind res_bind]. destruct (IH t1 m1 (upd f k v) dels Ht1 Hm1 Hl') as (t' & m' & Hrun & Ht' & Hm').
      exists t', m'. rewrite Hrun, decide_False by congruence. split_and!; [done | done |]. eapply slots_ext; [| done]. intros j _. unfold written, upd. destruct (pending !! j) as [w |] eqn:Hw.
      * destruct (decide (j = k)) as [-> | Hj].
        -- assert (w = v) as -> by congruence. rewrite (decide_True (P := k ∈ ((k, orig) :: l).*1 /\ v <> 0)) by (split; [left | done]). by case_decide.
        -- apply decide_ext. rewrite fmap_cons, elem_of_cons. cbn [fst]. tauto.
      * rewrite decide_False; [done | congruence].
Qed.

Lemma delete_slots_ok ow l : forall t m f, holds V ow t m -> slots m f -> (forall k, k ∈ l -> is_u256 k) ->
  exists t' m', delete_slots keccak fuel l t = Val (None, t') /\ holds V ow t' m' /\ slots m' (fun k => if decide (k ∈ l) then 0 else f k).
Proof using HL Hfuel.
  clear rlpe rlpl acl ral Hst Hdb Hks db root. induction l as [| k l IH]; intros t m f Ht Hm Hl; cbn [delete_slots].
  - exists t, m. split_and!; [done | done |]. eapply slots_ext; [| done]. intros j _. by rewrite decide_False by apply not_elem_of_nil.
  - destruct (DeleteStorage_ok ow t m f k Ht Hm ltac:(apply Hl; left)) as (t1 & m1 & -> & Ht1 & Hm1). cbn [mbind res_bind].
    destruct (IH t1 m1 (upd f k 0) Ht1 Hm1) as (t' & m' & Hrun & Ht' & Hm'); [intros j Hj; apply Hl; by right |]. exists t', m'. split_and!; [done | done |].
    eapply slots_ext; [| done]. intros j _. unfold upd. destruct (decide (j = k)) as [-> | Hj].
    + rewrite (decide_True (P := k ∈ k :: l)) by left. by case_decide.
    + apply decide_ext. rewrite elem_of_cons. tauto.
Qed.

(** ** [updateRoot] *)

(** An object after [Finalise]. *)
Record finalised (a : Z) (o : stateObject) : Prop := {
  fo_address : address o = a; fo_place : is_address a; fo_data : account_ok (data o); fo_root : sa_Root (data o) = root_of (reader_Account a);
  fo_uncommitted : uncommittedStorage o = map_imap (fun k _ => Some (reader_Storage a k)) (pendingStorage o);
  fo_slots : forall k v, pendingStorage o !! k = Some v -> is_u256 k /\ is_u256 v /\ v <> reader_Storage a k;
  fo_origin : forall k, is_Some (pendingStorage o !! k) -> originStorage o !! k = Some (reader_Storage a k)
}.

Lemma finalise_finalised a o : object_ready a o -> finalised a (obj_finalise false o) /\ same_account o (obj_finalise false o) /\ pendingStorage (obj_finalise false o) = dirtyStorage o.
Proof using Type.
  clear. intros [Ha Hp Hd Hr _ Hu Hs]. destruct (obj_finalise_ok o Hu) as (Hsame & Hc & Hpend & Hdirty & Hunc & Horg). destruct Hsame as [Sa So Sd Sc Sdc Ssd].
  split; [| split; [by split | done]]. split; [congruence | done | by rewrite Sd | by rewrite Sd | by rewrite Hunc, Hpend, Ha | by rewrite Hpend |]. rewrite Hpend, <- Ha. exact Horg.
Qed.

Definition slot_value (o : stateObject) (k : Z) : Z := default (reader_Storage (address o) k) (pendingStorage o !! k).
Definition owner_of (a : Z) : Z := BytesToHash (keccak (address_bytes a)).

Lemma uncommitted_elem a o k x : finalised a o -> (k, x) ∈ order (uncommittedStorage o) <-> is_Some (pendingStorage o !! k) /\ x = reader_Storage a k.
Proof using ral.
  clear -ral. intros Hf. rewrite order_elem, (fo_uncommitted _ _ Hf), map_lookup_imap. destruct (pendingStorage o !! k) as [v |]; cbn; [| split; [done | by intros [[? ?] _]]].
  split; [intros [= <-]; split; [by eexists | done] | by intros [_ ->]].
Qed.

Lemma uncommitted_nil a o : finalised a o -> uncommittedStorage o = ∅ <-> pendingStorage o = ∅.
Proof using Type.
  clear. intros Hf. rewrite (fo_uncommitted _ _ Hf). split; [| intros ->; apply map_eq; intros k; by rewrite map_lookup_imap, !lookup_empty].
  intros He. apply map_empty. intros k. apply (f_equal (fun m => m !! k)) in He. rewrite map_lookup_imap, lookup_empty in He. by destruct (pendingStorage o !! k).
Qed.

(** What the loops of [updateTrie] leave in the trie. *)
Lemma changed_slots a o k : finalised a o ->
  (if decide (k ∈ zeros (pendingStorage o) (order (uncommittedStorage o))) then 0 else written (pendingStorage o) (order (uncommittedStorage o)) (reader_Storage a) k) = slot_value o k.
Proof using ral.
  clear -ral. intros Hf. assert (forall j, j ∈ (order (uncommittedStorage o)).*1 <-> is_Some (pendingStorage o !! j)) as Hk.
  { intros j. rewrite order_keys, (fo_uncommitted _ _ Hf), map_lookup_imap. by destruct (pendingStorage o !! j). }
  unfold slot_value, written, zeros. rewrite (fo_address _ _ Hf). destruct (pendingStorage o !! k) as [v |] eqn:Hv.
  - destruct (decide (v = 0)) as [-> | H0].
    + rewrite decide_True; [done |]. apply list_elem_of_filter. split; [done |]. apply Hk. rewrite Hv. by eexists.
    + rewrite decide_False by (intros [? _]%list_elem_of_filter; congruence). rewrite decide_True; [done |]. split; [apply Hk; rewrite Hv; by eexists | done].
  - rewrite decide_False by (intros [? _]%list_elem_of_filter; congruence). done.
Qed.

Lemma updateTrie_ok c a o : finalised a o -> c_tries c !! a = None -> c_originalRoot c = root -> pendingStorage o <> ∅ ->
  exists t m, updateTrie keccak fuel db c o = Val (Some t, None, set_object (clear_uncommitted o) (set_sub a t c)) /\ holds V (owner_of a) t m /\ slots m (slot_value o).
Proof using All.
  clear acl. intros Hf Hc Hr Hp. unfold updateTrie. rewrite decide_False by (by rewrite (uncommitted_nil a o Hf)). unfold getTrie, OpenStorageTrie, StorageTrieID. rewrite (fo_address _ _ Hf), Hc, Hr, (fo_root _ _ Hf).
  destruct (ks_storage _ _ _ _ _ Hks a (fo_place _ _ Hf)) as (m & Hm & Hsl).
  destruct (st_open keccak db V root (owner_of a) (root_of (reader_Account a)) m Hst Hdb Hm (state_opens _ _ _ _ _ _ Hks (fo_place _ _ Hf))) as (t & Hrun & Ht).
  unfold owner_of in Hrun at 1. rewrite Hrun. cbn [mbind res_bind].
  destruct (update_slots_ok (owner_of a) (pendingStorage o) (order (uncommittedStorage o)) t m (reader_Storage a) [] Ht Hsl) as (t1 & m1 & Hrun1 & Ht1 & Hm1).
  { intros k x [[v Hv] ->]%(uncommitted_elem a o k x Hf). exists v. destruct (fo_slots _ _ Hf k v Hv) as (? & _ & ?). done. }
  rewrite Hrun1. cbn [mbind res_bind app].
  destruct (delete_slots_ok (owner_of a) (zeros (pendingStorage o) (order (uncommittedStorage o))) t1 m1 _ Ht1 Hm1) as (t2 & m2 & Hrun2 & Ht2 & Hm2).
  { intros k [Hz _]%list_elem_of_filter. by destruct (fo_slots _ _ Hf k 0 Hz). }
  rewrite Hrun2. cbn [mbind res_bind]. exists t2, m2. split_and!; [done | done |]. eapply slots_ext; [| done]. intros k _. by apply changed_slots.
Qed.
End Slots.

(** ** The root of a changed state

    What [IntermediateRoot] does to a finalised state: the storage tries of the objects to write, then the account trie with
    their accounts and without the deleted ones, and its hash. *)

Lemma set_object_same c o : stateObjects (c_state c) !! address o = Some o -> set_object o c = c.
Proof. destruct c as [s t ts r e]. destruct s. unfold set_object, set_state, setStateObject, db_objects. cbn. intros Ho. by rewrite insert_id. Qed.

Lemma set_object_again c o o1 t t1 : address o1 = address o ->
  set_object o (set_sub (address o) t (set_object o1 (set_sub (address o) t1 c))) = set_object o (set_sub (address o) t c).
Proof. intros He. unfold set_object, set_state, set_sub, setStateObject, db_objects. cbn. by rewrite He, !insert_insert_eq. Qed.

#[export] Instance mutationType_dec : EqDecision mutationType.
Proof. solve_decision. Defined.
#[export] Instance mutation_dec : EqDecision mutation.
Proof. solve_decision. Defined.

Abbreviation to_update := (mkMutation StateDB.update false).
Abbreviation to_delete := (mkMutation deletion false).

Section Root.
Context `{rlp : RLP} `{rlpe : !RLPEmpty rlp} `{rlpl : !RLPLaws rlp} `{ac : AccountCodec} `{acl : !AccountLaws ac} (keccak : bytes -> bytes) (HL : hash_laws keccak).
Context (fuel : nat) (Hfuel : (132 <= fuel)%nat) `{rd : StateReader} `{ra : Ranges} `{ral : !RangesLaws ra}.
Context (db : Z -> string + Reader) (V : store_map) (Hst : store_ok keccak V) (Hdb : serves db V) (root : Z) (Hks : known_state keccak V root reader_Account reader_Storage).
#[local] Abbreviation holds := (holds keccak).
#[local] Abbreviation slots := (slots keccak).
#[local] Abbreviation accts := (accts keccak).
#[local] Abbreviation owner_of := (owner_of keccak).
#[local] Abbreviation st_root := (st_root keccak).

(** A finalised object and what the hashing of its trie makes of it. *)
Inductive hashed (a : Z) (o : stateObject) : stateObject -> option StateTrie -> Prop :=
| hashed_same : pendingStorage o = ∅ -> hashed a o o None
| hashed_trie t m : pendingStorage o <> ∅ -> holds V (owner_of a) t m -> slots m (slot_value o) -> hashed a o (set_root (st_root t) (clear_uncommitted o)) (Some t).

Definition put_hashed (a : Z) (o : stateObject) (t : option StateTrie) (c : Committer) : Committer := set_object o (match t with Some t => set_sub a t c | None => c end).

Lemma updateRoot_ok c a o : finalised a o -> stateObjects (c_state c) !! a = Some o -> c_tries c !! a = None -> c_originalRoot c = root ->
  exists o' t, updateRoot keccak fuel db c o = Val (put_hashed a o' t c) /\ hashed a o o' t.
Proof using All.
  intros Hf Ho Hc Hr. unfold updateRoot. destruct (decide (pendingStorage o = ∅)) as [Hp | Hp].
  - exists o, None. split; [| by constructor]. unfold updateTrie. rewrite decide_True by (by apply (uncommitted_nil a)). rewrite (fo_address _ _ Hf), Hc. cbn [mbind res_bind]. unfold put_hashed. by rewrite set_object_same by by rewrite (fo_address _ _ Hf).
  - destruct (updateTrie_ok keccak HL fuel Hfuel db V Hst Hdb root Hks c a o Hf Hc Hr Hp) as (t & m & Hrun & Ht & Hm). rewrite Hrun. cbn [mbind res_bind].
    destruct (st_hash_ok keccak V (owner_of a) t m Ht) as (t' & Hrun' & Ht' & Hroot). rewrite Hrun'. cbn [of_outcome mbind res_bind]. pose proof (fo_address _ _ Hf) as Ha. subst a.
    assert (stateObjects (c_state (set_object (clear_uncommitted o) (set_sub (address o) t c))) !! address o = Some (clear_uncommitted o)) as -> by (cbn; by rewrite lookup_insert_eq).
    cbn [deref of_outcome mbind res_bind]. exists (set_root (st_root t') (clear_uncommitted o)), (Some t'). split; [| by econstructor]. rewrite Hroot. unfold put_hashed.
    change (mret ?x) with (Val x). f_equal. exact (set_object_again c (set_root (st_root t) (clear_uncommitted o)) (clear_uncommitted o) t' t eq_refl).
Qed.

(** ** A finalised state *)

Record to_hash (c : Committer) : Prop := {
  th_root : c_originalRoot c = root; th_err : c_dbErr c = None; th_tries : c_tries c = ∅;
  th_trie : exists m, holds V 0 (c_trie c) m /\ accts m reader_Account;
  th_muts : forall a m, mutations (c_state c) !! a = Some m ->
    is_address a /\ (m = to_delete \/ (m = to_update /\ exists o, stateObjects (c_state c) !! a = Some o /\ finalised a o))
}.

Section One.
Context (c0 : Committer) (Hth : to_hash c0).
#[local] Abbreviation O := (stateObjects (c_state c0)).
#[local] Abbreviation muts := (order (mutations (c_state c0))).

(** The storage tries of the addresses in [done] are hashed, the rest is as before. *)
Record tries_hashed (done : list (Z * mutation)) (c : Committer) : Prop := {
  tr_trie : c_trie c = c_trie c0; tr_root : c_originalRoot c = root; tr_err : c_dbErr c = None;
  tr_destruct : stateObjectsDestruct (c_state c) = stateObjectsDestruct (c_state c0); tr_muts : mutations (c_state c) = mutations (c_state c0);
  tr_none : forall a, O !! a = None -> stateObjects (c_state c) !! a = None;
  tr_some : forall a o, O !! a = Some o -> exists o', stateObjects (c_state c) !! a = Some o' /\
    if decide ((a, to_update) ∈ done) then hashed a o o' (c_tries c !! a) else o' = o /\ c_tries c !! a = None
}.

Lemma muts_ok done a m rest : muts = done ++ (a, m) :: rest -> (forall m', (a, m') ∉ done) /\
  is_address a /\ (m = to_delete \/ (m = to_update /\ exists o, O !! a = Some o /\ finalised a o)).
Proof using Hth ral.
  clear -Hth ral. intros He. split.
  - intros m' Hm. pose proof (order_NoDup (mutations (c_state c0))) as Hnd. rewrite He, fmap_app, fmap_cons in Hnd. apply NoDup_app in Hnd as (_ & Hx & _). apply (Hx a); [| left].
    apply list_elem_of_fmap. by exists (a, m').
  - apply (th_muts _ Hth). apply order_elem. rewrite He. apply elem_of_app. right. left.
Qed.

(** Another address keeps its place. *)
Lemma in_snoc (done : list (Z * mutation)) x b m : (b, m) ∈ done ++ [x] <-> (b, m) ∈ done \/ (b, m) = x.
Proof using Type. clear. by rewrite elem_of_app, list_elem_of_singleton. Qed.

Lemma update_one_ok done x rest c : muts = done ++ x :: rest -> tries_hashed done c -> exists c', update_one keccak fuel db c x = Val c' /\ tries_hashed (done ++ [x]) c'.
Proof using All.
  destruct x as [a m]. intros He [Ht Hr Herr Hd Hm Hn Hs]. destruct (muts_ok done a m rest He) as (Hnew & Ha & [-> | (-> & o & Ho & Hf)]).
  - exists c. split; [done |]. split; [done.. |]. intros b o Hb. destruct (Hs b o Hb) as (o' & Ho' & Hx). exists o'. split; [done |].
    erewrite decide_ext; [exact Hx |]. rewrite in_snoc. split; [intros [? | ?]; [done | congruence] | by left].
  - destruct (Hs a o Ho) as (o1 & Ho1 & Hx). rewrite decide_False in Hx by apply Hnew. destruct Hx as [-> Hc]. unfold update_one. cbn [fst snd mut_applied is_delete mut_typ orb]. rewrite Ho1. cbn [deref of_outcome mbind res_bind].
    destruct (updateRoot_ok c a o Hf Ho1 Hc Hr) as (o' & t & Hrun & Hh). exists (put_hashed a o' t c). split; [done |].
    assert (address o' = a) as Ha' by (destruct Hh; apply Hf).
    assert (c_tries (put_hashed a o' t c) = match t with Some t => <[a := t]> (c_tries c) | None => c_tries c end) as Htr by by destruct t.
    assert (stateObjects (c_state (put_hashed a o' t c)) = <[a := o']> (stateObjects (c_state c))) as Hob by (rewrite <- Ha'; by destruct t).
    split; [by destruct t.. | |]; rewrite ?Hob.
    + intros b Hb. rewrite lookup_insert_ne by congruence. by apply Hn.
    + intros b ob Hb. rewrite Htr. destruct (decide (b = a)) as [-> | Hne].
      * exists o'. rewrite lookup_insert_eq, decide_True by (apply in_snoc; by right). split; [done |]. assert (ob = o) as -> by congruence. destruct t; [by rewrite lookup_insert_eq | by rewrite Hc].
      * rewrite lookup_insert_ne by done. destruct (Hs b ob Hb) as (o2 & Ho2 & Hx). exists o2. split; [done |].
        assert (match t with Some t => <[a := t]> (c_tries c) | None => c_tries c end !! b = c_tries c !! b) as -> by (destruct t; [by rewrite lookup_insert_ne | done]).
        erewrite decide_ext; [exact Hx |]. rewrite in_snoc. split; [intros [? | ?]; [done | congruence] | by left].
Qed.

Lemma update_all_ok : exists c, for_res (update_one keccak fuel db) c0 muts = Val c /\ tries_hashed muts c.
Proof using All.
  apply (for_res_inv tries_hashed); [| intros done x rest c; apply update_one_ok].
  destruct Hth. split; [done.. |]. intros a o Ho. exists o. split; [done |]. rewrite decide_False by apply not_elem_of_nil. split; [done |]. by rewrite th_tries0.
Qed.

(** ** The account trie *)

Lemma accts_ext m f g : (forall a, is_address a -> f a = g a) -> accts m f -> accts m g.
Proof using Type. clear. intros He Hm a Ha. by rewrite <- He; [apply Hm |]. Qed.

Lemma updateStateObject_ok c a o m f : is_address a -> address o = a -> holds V 0 (c_trie c) m -> accts m f ->
  exists t m', updateStateObject keccak fuel c o = Val (set_trie t c) /\ holds V 0 t m' /\ accts m' (upd f a (Some (data o))).
Proof using HL Hfuel acl.
  clear -HL Hfuel acl. intros Ha <- Ht Hm. unfold updateStateObject, UpdateAccount.
  destruct (st_update_ok keccak HL fuel Hfuel V 0 (c_trie c) m (address_bytes (address o)) (EncodeAccount (data o)) Ht (Encode_nonempty _)) as (t & Hrun & Ht'). rewrite Hrun. cbn [mbind res_bind].
  exists t. eexists. split_and!; [by destruct (dirtyCode o) | done |]. by apply (accts_update keccak HL m f (address o) (Some (data o))).
Qed.

Lemma deleteStateObject_ok c a m f : is_address a -> holds V 0 (c_trie c) m -> accts m f ->
  exists t m', deleteStateObject keccak fuel c a = Val (set_trie t c) /\ holds V 0 t m' /\ accts m' (upd f a None).
Proof using HL Hfuel.
  clear -HL Hfuel. intros Ha Ht Hm. unfold deleteStateObject, DeleteAccount. destruct (st_delete_ok keccak HL fuel Hfuel V 0 (c_trie c) m (address_bytes a) Ht) as (t & Hrun & Ht'). rewrite Hrun.
  eexists _, _. split_and!; [done.. |]. by apply (accts_update keccak HL m f a None).
Qed.

(** The accounts of the objects of [c] at the addresses in [done]. *)
Definition with_updates (c : Committer) (done : list (Z * mutation)) (a : Z) : option StateAccount :=
  if decide ((a, to_update) ∈ done) then data <$> stateObjects (c_state c) !! a else reader_Account a.

Definition deleted_in (done : list (Z * mutation)) : list Z := (base.filter (fun x => x.2 = to_delete) done).*1.

Section Accounts.
Context (c1 : Committer) (H1 : tries_hashed muts c1).

Record accounts_written (done : list (Z * mutation)) (x : Committer * list Z) : Prop := {
  aw_state : exists t, x.1 = set_trie t c1;
  aw_trie : exists m, holds V 0 (c_trie x.1) m /\ accts m (with_updates c1 done);
  aw_deleted : x.2 = deleted_in done
}.

Lemma hashed_address a o o' t : finalised a o -> hashed a o o' t -> address o' = a.
Proof using Type. clear. intros Hf Hh. destruct Hh; apply Hf. Qed.

Lemma write_one_ok done x rest y : muts = done ++ x :: rest -> accounts_written done y -> exists y', write_one keccak fuel y x = Val y' /\ accounts_written (done ++ [x]) y'.
Proof using All.
  clear Hst Hdb Hks. destruct x as [a m], y as [c l]. intros He [[t Hc] (mt & Hm & Ha) Hl]. cbn [fst snd] in *. destruct (muts_ok done a m rest He) as (Hnew & Hadd & [-> | (-> & o & Ho & Hf)]).
  - exists (c, l ++ [a]). split; [done |]. split; cbn [fst snd].
    + by exists t.
    + exists mt. split; [done |]. eapply accts_ext; [| done]. intros b Hb. unfold with_updates. apply decide_ext. rewrite in_snoc. split; [by left | intros [? | ?]; [done | congruence]].
    + rewrite Hl. unfold deleted_in. by rewrite filter_app, fmap_app, filter_cons_True by done.
  - destruct (tr_some _ _ H1 a o Ho) as (o' & Ho' & Hh). rewrite decide_True in Hh by (rewrite He; apply elem_of_app; right; left). pose proof (hashed_address _ _ _ _ Hf Hh) as Ha'.
    unfold write_one. cbn [fst snd mut_applied is_delete mut_typ]. assert (stateObjects (c_state c) !! a = Some o') as -> by by rewrite Hc. cbn [deref of_outcome mbind res_bind].
    destruct (updateStateObject_ok c a o' mt _ Hadd Ha' Hm Ha) as (t' & m' & Hrun & Ht' & Hm'). rewrite Hrun. cbn [mbind res_bind]. exists (set_trie t' c, l). split; [done |]. split; cbn [fst snd].
    + exists t'. by rewrite Hc.
    + exists m'. split; [done |]. eapply accts_ext; [| done]. intros b Hb. unfold upd, with_updates. destruct (decide (b = a)) as [-> | Hne].
      * rewrite decide_True by (apply in_snoc; by right). by rewrite Ho'.
      * apply decide_ext. rewrite in_snoc. split; [by left | intros [? | ?]; [done | congruence]].
    + rewrite Hl. unfold deleted_in. by rewrite filter_app, fmap_app, filter_cons_False, filter_nil, app_nil_r by done.
Qed.

Lemma write_all_ok : exists t m, for_res (write_one keccak fuel) (c1, []) muts = Val (set_trie t c1, deleted_in muts) /\ holds V 0 t m /\ accts m (with_updates c1 muts).
Proof using All.
  destruct (for_res_inv accounts_written (write_one keccak fuel) muts (c1, [])) as ([c l] & Hrun & [[t Hc] (m & Hm & Ha) Hl]); [| intros done x rest y; apply write_one_ok |].
  - split; cbn [fst snd]; [exists (c_trie c1); by destruct c1 | | done]. rewrite (tr_trie _ _ H1). destruct (th_trie _ Hth) as (m & Hm & Ha). exists m. split; [done |].
    eapply accts_ext; [| done]. intros b _. unfold with_updates. by rewrite decide_False by apply not_elem_of_nil.
  - cbn [fst snd] in *. subst c l. by exists t, m.
Qed.
End Accounts.

Definition without (l : list Z) (f : Z -> option StateAccount) (a : Z) : option StateAccount := if decide (a ∈ l) then None else f a.

Lemma delete_all_ok l : forall c m f, (forall a, a ∈ l -> is_address a) -> holds V 0 (c_trie c) m -> accts m f ->
  exists t m', for_res (deleteStateObject keccak fuel) c l = Val (set_trie t c) /\ holds V 0 t m' /\ accts m' (without l f).
Proof using HL Hfuel.
  clear -HL Hfuel. induction l as [| a l IH]; intros c m f Hl Hm Ha; cbn [for_res].
  - exists (c_trie c), m. split_and!; [by destruct c | done |]. eapply accts_ext; [| done]. intros b _. unfold without. by rewrite decide_False by apply not_elem_of_nil.
  - destruct (deleteStateObject_ok c a m f (Hl a ltac:(left)) Hm Ha) as (t & m1 & Hrun & Hm1 & Ha1). rewrite Hrun. cbn [mbind res_bind].
    destruct (IH (set_trie t c) m1 _ ltac:(intros; apply Hl; by right) Hm1 Ha1) as (t2 & m2 & Hrun2 & Hm2 & Ha2). exists t2, m2. split_and!; [by rewrite Hrun2 | done |].
    eapply accts_ext; [| done]. intros b _. unfold without, upd. destruct (decide (b = a)) as [-> | Hne].
    + rewrite (decide_True (P := a ∈ a :: l)) by left. by case_decide.
    + apply decide_ext. rewrite elem_of_cons. tauto.
Qed.
End One.

(** The accounts that the new root stands for. *)
Definition new_account (c : Committer) (a : Z) : option StateAccount :=
  match mutations (c_state c) !! a with
  | Some m => if is_delete m then None else data <$> stateObjects (c_state c) !! a
  | None => reader_Account a
  end.

Definition all_applied (s : StateDB) : StateDB := set_mutations ((fun m => mkMutation (mut_typ m) true) <$> mutations s) s.

(** After the hash: the storage tries and the account trie hold the new state. *)
Lemma IntermediateRoot_ok del c c0 : c0 = set_state (Finalise del (c_state c)) c -> to_hash c0 ->
  exists c1 t m, IntermediateRoot keccak fuel db del c = Val (st_root t, set_trie t (set_state (all_applied (c_state c1)) c1)) /\
    tries_hashed c0 (order (mutations (c_state c0))) c1 /\ holds V 0 t m /\ accts m (new_account c1).
Proof using All.
  intros -> Hth. set (c0 := set_state (Finalise del (c_state c)) c) in *. destruct (update_all_ok c0 Hth) as (c1 & Hrun1 & H1). destruct (write_all_ok c0 Hth c1 H1) as (t1 & m1 & Hrun2 & Hm1 & Ha1).
  assert (forall a m, (a, m) ∈ order (mutations (c_state c0)) <-> mutations (c_state c1) !! a = Some m) as Hmu by (intros; by rewrite order_elem, (tr_muts _ _ _ H1)).
  assert (forall a, a ∈ deleted_in (order (mutations (c_state c0))) <-> mutations (c_state c1) !! a = Some to_delete) as Hdel.
  { intros a. rewrite <- Hmu. unfold deleted_in. rewrite list_elem_of_fmap. split; [intros ([b m] & -> & [Hd Hb]%list_elem_of_filter) | intros Ha; exists (a, to_delete)]; [cbn in *; by subst | split; [done | by apply list_elem_of_filter]]. }
  destruct (delete_all_ok (deleted_in (order (mutations (c_state c0)))) (set_state (all_applied (c_state c1)) (set_trie t1 c1)) m1 (with_updates c1 (order (mutations (c_state c0))))) as (t2 & m2 & Hrun3 & Hm2 & Ha2); [| exact Hm1 | exact Ha1 |].
  { intros a Ha%Hdel. rewrite (tr_muts _ _ _ H1) in Ha. by destruct (th_muts _ Hth a _ Ha). }
  destruct (st_hash_ok keccak V 0 t2 m2 Hm2) as (t3 & Hrun4 & Hm3 & Hroot). exists c1, t3, m2. split_and!; [| done | done |].
  - unfold IntermediateRoot. fold c0. rewrite Hrun1. cbn [mbind res_bind]. rewrite Hrun2. cbn [mbind res_bind].
    change (set_mutations _ _) with (all_applied (c_state (set_trie t1 c1))). change (c_state (set_trie t1 c1)) with (c_state c1). rewrite Hrun3. cbn [mbind res_bind c_trie set_trie]. rewrite Hrun4.
    cbn [of_outcome mbind res_bind]. by rewrite Hroot.
  - eapply accts_ext; [| exact Ha2]. intros a _. unfold without, with_updates, new_account. destruct (mutations (c_state c1) !! a) as [m |] eqn:Hm.
    + pose proof Hm as Hm'. rewrite (tr_muts _ _ _ H1) in Hm'. destruct (th_muts _ Hth a m Hm') as [_ [-> | [-> _]]]; cbn [is_delete mut_typ].
      * by rewrite decide_True by by apply Hdel.
      * rewrite decide_False by (rewrite Hdel, Hm; congruence). by rewrite decide_True by by apply Hmu.
    + rewrite decide_False by (rewrite Hdel, Hm; congruence). by rewrite decide_False by (rewrite Hmu, Hm; congruence).
Qed.
End Root.

