(* ===== verification/StateSets.v ===== *)
(** * The node sets of a commit

    The deletions of destructed accounts, the sets of the storage tries, and how the commit merges them: the owners differ, so
    every set is kept as it is. *)
From Stdlib Require Import ZArith Lia.
From stdpp Require Import base gmap strings list.
From S2P Require Import Prelude Utils JournalTypes Core AccessList StateDB TrieEncoding Trie TrieHash TrieProofs TrieMap TrieRoot TrieDecode TrieReopen TrieHistory.
From S2P Require Import TrieIterator TrieIteratorProofs HashDB StateTrie StateCommit StateTrieProofs StateReady StateRoot.

(** ** Merging *)

Lemma merge_fresh ns s : ns !! ns_Owner s = None -> merge_one ns (Some s) = inr (<[ns_Owner s := s]> ns).
Proof. intros Hn. unfold merge_one, merged_Merge. by rewrite Hn. Qed.

Lemma merge_sets_ok l : forall ns, NoDup (ns_Owner <$> l) -> (forall s, s ∈ l -> ns !! ns_Owner s = None) ->
  exists ns', merge_sets ns l = inr ns' /\ forall ow s, ns' !! ow = Some s <-> ns !! ow = Some s \/ (s ∈ l /\ ns_Owner s = ow).
Proof.
  induction l as [| s l IH]; intros ns Hnd Hl; cbn [merge_sets].
  - exists ns. split; [done |]. intros ow s. split; [by left | by intros [? | [?%not_elem_of_nil _]]].
  - rewrite fmap_cons in Hnd. apply NoDup_cons in Hnd as [Hs Hnd]. rewrite merge_fresh by (apply Hl; left).
    assert (forall x, x ∈ l -> ns_Owner s <> ns_Owner x) as Hne by (intros x Hx He; apply Hs; rewrite He; apply list_elem_of_fmap; by exists x).
    destruct (IH (<[ns_Owner s := s]> ns) Hnd) as (ns' & Hrun & Hns').
    { intros x Hx. rewrite lookup_insert_ne by by apply Hne. apply Hl. by right. }
    exists ns'. split; [done |]. intros ow x. rewrite Hns', lookup_insert_Some, elem_of_cons. split.
    + naive_solver.
    + intros [Hx | [[-> | Hx] Ho]]; [| by left; left | by right]. left. destruct (decide (ns_Owner s = ow)) as [He | Hno]; [| by right]. specialize (Hl s ltac:(left)). congruence.
Qed.

Definition sets_of (ns : gmap Z NodeSet) : list (gmap bytes TrieHash.Node) := Nodes <$> (map_to_list ns).*2.

Lemma sets_elem ns N : N ∈ sets_of ns <-> exists ow s, ns !! ow = Some s /\ N = Nodes s.
Proof.
  unfold sets_of. rewrite list_elem_of_fmap. split.
  - intros (s & -> & ([ow s'] & -> & Hin)%list_elem_of_fmap). exists ow, s'. split; [by apply elem_of_map_to_list | done].
  - intros (ow & s & Hs & ->). exists s. split; [done |]. apply list_elem_of_fmap. exists (ow, s). split; [done | by apply elem_of_map_to_list].
Qed.

(** An empty set adds nothing. *)
Lemma grows_empty V V' Ns : grows V V' Ns -> grows V V' (∅ :: Ns).
Proof.
  assert (forall nd, in_sets (∅ :: Ns) nd <-> in_sets Ns nd) as He.
  { intros nd. split; intros (N & q & HN & Hq & Hd); exists N, q; (split_and!; [| done | done]); [apply elem_of_cons in HN as [-> | HN]; [by rewrite lookup_empty in Hq | done] | by right]. }
  intros [Hk Hh Ho Hn]. split; [done | intros nd; rewrite He; apply Hh | | intros nd; rewrite He; apply Hn].
  intros h b Hb. destruct (Ho h b Hb) as [? | (nd & ? & ?)]; [by left | right; exists nd; by rewrite He].
Qed.

Section Sets.
Context `{rlp : RLP} `{rlpe : !RLPEmpty rlp} `{rlpl : !RLPLaws rlp} `{ac : AccountCodec} `{acl : !AccountLaws ac} (keccak : bytes -> bytes) (HL : hash_laws keccak).
Context (fuel : nat) (Hfuel : (132 <= fuel)%nat) `{rd : StateReader} `{ra : Ranges} `{ral : !RangesLaws ra}.
Context (db : Z -> string + Reader) (V : store_map) (Hst : store_ok keccak V) (Hdb : serves db V) (root : Z) (Hks : known_state keccak V root reader_Account reader_Storage).
#[local] Abbreviation holds := (holds keccak).
#[local] Abbreviation owner_of := (owner_of keccak).
#[local] Abbreviation st_root := (st_root keccak).
#[local] Abbreviation hashed := (hashed keccak V).

Lemma owner_inj a a' : is_address a -> is_address a' -> owner_of a = owner_of a' -> a = a'.
Proof using HL. clear -HL. intros Ha Ha' He. apply (hl_addresses _ HL); [done | done |]. by apply (digest_inj keccak (hl_length _ HL) (hl_bytes _ HL)). Qed.

(** ** Destructed accounts *)

Definition deletions (s : NodeSet) : Prop := forall q nd, Nodes s !! q = Some nd -> IsDeleted nd = true.

Lemma list_storage_ok ifuel t l : forall n it nodes slots, coming keccak t it l -> Forall keyed l -> (length l < n)%nat -> deletions nodes ->
  exists nodes' slots', list_storage keccak ifuel n it nodes slots = Val (None, nodes', slots') /\ ns_Owner nodes' = ns_Owner nodes /\ deletions nodes'.
Proof using Type.
  clear -ac. induction l as [| [[p h] x] l IH]; intros [| n] it nodes slots Hc Hk Hn Hd; try (cbn in Hn; lia); cbn [list_storage].
  - destruct Hc as (it' & Hrun & He). rewrite Hrun. cbn [mbind res_bind negb]. unfold it_Error. rewrite He. by eexists _, _.
  - destruct Hc as (st & rest & Hrun & Hh & Hx & Ha). rewrite Hrun. cbn [mbind res_bind negb]. apply Forall_cons in Hk as [Hk1 Hk]. unfold keyed in Hk1. cbn [fst snd] in Hk1. unfold Leaf. cbn [it_path it_at].
    pose proof (ahead_coming keccak _ _ _ _ Ha) as Hc. cbn in Hn. destruct x as [| cs f | k c f | hs | v]; try done.
    1,2: rewrite nibbles_no_term by done; cbn [of_outcome mbind res_bind];
      set (nodes1 := if it_Hash _ =? 0 then nodes else _); assert (deletions nodes1 /\ ns_Owner nodes1 = ns_Owner nodes) as [Hd1 Ho1]
        by (unfold nodes1; destruct (it_Hash _ =? 0); [done |]; split; [| done]; intros q nd; cbn; intros [[_ <-] | [_ Hq]]%lookup_insert_Some; [done | by eapply Hd]);
      destruct (IH n _ nodes1 slots Hc Hk ltac:(lia) Hd1) as (nodes2 & slots2 & Hrun2 & Ho2 & Hd2); exists nodes2, slots2; split; [done | split; [congruence | done]].
    destruct Hk1 as (key & Hb & ->). assert (hasTerm (keybytesToHex key) = Ret true) as -> by apply term_has_term. cbn [of_outcome mbind res_bind]. unfold LeafKey, LeafBlob. cbn [it_stack it_at it_path].
    destruct st as [sh sn sp si sl]. cbn in Hx. subst sn. rewrite hexToKeybytes_spec by done. cbn [of_outcome mbind res_bind]. by apply IH; [| | lia |].
Qed.

Lemma deleteStorage_ok a : is_address a -> exists N, forall ifuel, (N <= ifuel)%nat -> exists slots set,
  deleteStorage keccak ifuel db root a (owner_of a) (root_of (reader_Account a)) = Val (inr (slots, set)) /\ ns_Owner set = owner_of a /\ deletions set.
Proof using All.
  clear acl ral Hfuel. intros Ha. destruct (ks_storage _ _ _ _ _ Hks a Ha) as (m & Hm & _).
  destruct (st_open keccak db V root (owner_of a) (root_of (reader_Account a)) m Hst Hdb Hm (state_opens _ _ _ _ _ _ Hks Ha)) as (t & Hrun & Ht).
  destruct (NodeIterator_ok keccak (st_trie t) m (ho_map _ _ _ _ _ Ht)) as (it & t' & l & Hit & Hc & Hl). exists (S (length l)). intros ifuel Hi.
  destruct ifuel as [| ifuel]; [lia |]. destruct (list_storage_ok (S ifuel) t' l (S ifuel) it (NewNodeSet (owner_of a)) ∅ Hc (lists_keyed _ _ _ _ _ Hl) ltac:(lia)) as (nodes & slots & Hls & Ho & Hd).
  { intros q nd. cbn. by rewrite lookup_empty. }
  exists slots, nodes. split_and!; [| done | done]. unfold deleteStorage, slowDeleteStorage, OpenStorageTrie, StorageTrieID. fold (owner_of a). rewrite Hrun. cbn [mbind res_bind]. rewrite Hit. cbn [mbind res_bind]. by rewrite Hls.
Qed.

Lemma handleDestruction_ok l : NoDup l.*1 -> (forall a o, (a, o) ∈ l -> is_address a /\ forall d, origin o = Some d -> reader_Account a = Some d) ->
  exists N, forall ifuel, (N <= ifuel)%nat -> exists deletes sets, handleDestruction keccak ifuel db root l = Val (inr (deletes, sets)) /\
    NoDup (ns_Owner <$> sets) /\ forall s, s ∈ sets -> deletions s /\ exists a, a ∈ l.*1 /\ ns_Owner s = owner_of a.
Proof using All.
  induction l as [| [a o] l IH]; intros Hnd Hl.
  - exists O. intros ifuel _. exists ∅, []. split_and!; [done | apply NoDup_nil_2 |]. intros s Hs. by apply not_elem_of_nil in Hs.
  - rewrite fmap_cons in Hnd. apply NoDup_cons in Hnd as [Ha Hnd]. cbn [fst] in Ha. destruct (IH Hnd) as (N & HN); [intros b ob Hb; apply Hl; by right |].
    destruct (Hl a o ltac:(left)) as [Hadd Horg]. destruct (deleteStorage_ok a Hadd) as (N1 & HN1). exists (N + N1)%nat. intros ifuel Hi. cbn [handleDestruction].
    destruct (HN ifuel ltac:(lia)) as (deletes & sets & Hrun & Hno & Hsets). destruct (HN1 ifuel ltac:(lia)) as (slots & set & Hdel & Hset & Hds).
    assert (forall s, s ∈ sets -> deletions s /\ exists b, b ∈ ((a, o) :: l).*1 /\ ns_Owner s = owner_of b) as Hsets'.
    { intros s Hs. destruct (Hsets s Hs) as (? & b & ? & ?). split; [done |]. exists b. split; [by right | done]. }
    destruct (origin o) as [d |] eqn:Ho; [| by exists deletes, sets]. pose proof (Horg d eq_refl) as Hacc. rewrite Hacc in Hdel. cbn [root_of] in Hdel. destruct (sa_Root d =? Trie.EmptyRootHash); cbn [mbind res_bind mret res_ret].
    + rewrite Hrun. cbn [mbind res_bind mret res_ret app]. by eexists _, sets.
    + fold (owner_of a). rewrite Hdel. cbn [mbind res_bind mret res_ret]. rewrite Hrun. cbn [mbind res_bind mret res_ret app]. eexists _, (set :: sets). split; [done |]. split.
      * rewrite fmap_cons. apply NoDup_cons. split; [| done]. intros (s & He & Hs)%list_elem_of_fmap. destruct (Hsets s Hs) as (_ & b & Hb & Hob). assert (is_address b) as Hbadd.
        { apply list_elem_of_fmap in Hb as ([b' ob] & -> & Hb). by apply (Hl b' ob); right. }
        assert (a = b) as -> by (apply owner_inj; [done | done | congruence]). done.
      * intros s [-> | Hs]%elem_of_cons; [| by apply Hsets']. split; [done |]. exists a. split; [left | done].
Qed.

(** ** Objects *)

(** The nodes of [s] make the root known. *)
Definition stores (s : option NodeSet) (r : Z) (m : gmap bytes bytes) : Prop :=
  forall V' Ns, grows V V' Ns -> set_nodes s ∈ Ns -> (forall x, no_root x -> V' x = None) -> known keccak V' r m.

Lemma commit_slots_ok l : forall o op, let x := foldl (commit_slot keccak) (o, op) l in
  address x.1 = address o /\ data x.1 = data o /\ (au_storages op <> ∅ -> au_storages x.2 <> ∅) /\ (l = [] -> x.2 = op).
Proof using Type.
  clear. induction l as [| [k v] l IH]; intros o op; [done |]. cbn [foldl]. unfold commit_slot at 2 4 6 8. cbv beta iota zeta. destruct (v =? default 0 (originStorage o !! k)).
  - destruct (IH o op) as (? & ? & ? & _). by split_and!.
  - match goal with |- context [foldl (commit_slot keccak) (?o1, ?op1) l] => destruct (IH o1 op1) as (Ha & Hd & Hs & _) end. split_and!; [done | done | | done]. intros _. apply Hs. cbn. apply insert_non_empty.
Qed.

(** A changed slot is recorded. *)
Lemma commitStorage_ok a o o' op : finalised a o -> pendingStorage o' = pendingStorage o -> originStorage o' = originStorage o -> au_storages op = ∅ ->
  address (commitStorage keccak o' op).1 = address o' /\ data (commitStorage keccak o' op).1 = data o' /\ (au_storages (commitStorage keccak o' op).2 = ∅ <-> pendingStorage o = ∅).
Proof using ral.
  clear -ral. intros Hf Hp Ho Hop. unfold commitStorage. destruct (foldl (commit_slot keccak) (o', op) (order (pendingStorage o'))) as [o1 op1] eqn:He. cbn [fst snd address data obj_set_storage au_storages].
  pose proof (commit_slots_ok (order (pendingStorage o')) o' op) as (Ha & Hd & _ & Hnil). rewrite He in Ha, Hd, Hnil. cbn [fst snd] in *. split_and!; [done | done |]. rewrite Hp in *. split.
  - intros Hs. destruct (order (pendingStorage o)) as [| [k v] l] eqn:Hor.
    + apply map_empty. intros k. destruct (pendingStorage o !! k) as [v |] eqn:Hv; [| done]. apply order_elem in Hv. rewrite Hor in Hv. by apply not_elem_of_nil in Hv.
    + exfalso. assert (pendingStorage o !! k = Some v) as Hv by (apply order_elem; rewrite Hor; left). destruct (fo_slots _ _ Hf k v Hv) as (_ & _ & Hne). pose proof (fo_origin _ _ Hf k ltac:(by eexists)) as Hog.
      cbn [foldl] in He. unfold commit_slot at 2 in He. cbv beta iota zeta in He. rewrite Ho, Hog in He. cbn [default id] in He. rewrite (proj2 (Z.eqb_neq _ _) Hne) in He.
      match type of He with foldl _ (?o1, ?op1) _ = _ => pose proof (commit_slots_ok l o1 op1) as (_ & _ & Hs' & _) end. rewrite He in Hs'. apply Hs'; [apply insert_non_empty | done].
  - intros Hpe. rewrite <- Hop. f_equal. apply Hnil. apply Permutation_nil_r. rewrite (order_perm (pendingStorage o)), Hpe. by rewrite map_to_list_empty.
Qed.

Lemma st_root_u256 t : is_u256 (st_root t).
Proof using Type. clear. unfold StateTrieProofs.st_root, trie_root. destruct (Trie.root (st_trie t)); [done | ..]; apply Z.mod_pos_bound; lia. Qed.

(** One object: what it touches, and what its set is good for. *)
Record object_committed (a : Z) (o : stateObject) (tr : option StateTrie) (s : option NodeSet) (c c' : Committer) : Prop := {
  oc_objects : forall b, b <> a -> stateObjects (c_state c') !! b = stateObjects (c_state c) !! b;
  oc_tries : forall b, b <> a -> c_tries c' !! b = c_tries c !! b;
  oc_owned : owned (owner_of a) s;
  oc_from : from_trie keccak V (set_nodes s);
  oc_trie : match tr with Some t => exists m, slots keccak m (slot_value o) /\ stores s (st_root t) m | None => True end
}.

Lemma obj_commit_ok c a o o' : finalised a o -> hashed a o o' (c_tries c !! a) ->
  exists op s pre c', obj_commit keccak c o' = Ret (op, s, pre, c') /\ object_committed a o (c_tries c !! a) s c c'.
Proof using HL rlpe rlpl ral.
  clear -HL rlpe rlpl ral. intros Hf Hh. remember (c_tries c !! a) as tr eqn:Htr. unfold obj_commit. set (op := mkUpdate _ _ _ _ _ _). set (o1 := if dirtyCode o' then clear_dirtyCode o' else o').
  assert (pendingStorage o1 = pendingStorage o /\ originStorage o1 = originStorage o /\ address o1 = a) as (Hp & Ho & Ha).
  { pose proof (fo_address _ _ Hf). unfold o1. destruct Hh; destruct (dirtyCode _); done. }
  destruct (commitStorage_ok a o o1 op Hf Hp Ho eq_refl) as (Ha2 & _ & Hs2). destruct (commitStorage keccak o1 op) as [o2 op2]. cbn [fst snd] in *. rewrite Ha in Ha2.
  destruct Hh as [Hpe | t m Hpe Ht Hm].
  - rewrite decide_True by by apply Hs2. eexists _, None, _, _. split; [reflexivity |]. split; [| done | done | | done].
    + intros b Hb. cbn. rewrite Ha2. by rewrite lookup_insert_ne.
    + apply deletions_only. intros q nd. cbn. by rewrite lookup_empty.
  - rewrite decide_False by (rewrite Hs2; done). rewrite Ha2, <- Htr. cbn [deref mbind outcome_bind]. destruct (st_commit_ok keccak HL V (owner_of a) t m false Ht) as (s & t' & pre & Hrun & Hown & Hfrom & Hkn).
    rewrite Hrun. cbn [mbind outcome_bind]. eexists _, s, _, _. split; [reflexivity |]. split; [| | done | done | exists m; by split].
    + intros b Hb. cbn. rewrite Ha2. by rewrite lookup_insert_ne.
    + intros b Hb. cbn. by rewrite lookup_insert_ne.
Qed.

(** ** All objects *)

(** The set is in the merged map. *)
Definition merged_in (ns : gmap Z NodeSet) (s : option NodeSet) : Prop := match s with Some s => exists ow, ns !! ow = Some s | None => True end.

(** The objects to commit: finalised and with their tries hashed. *)
Definition to_commit (c : Committer) (a : Z) (o o' : stateObject) : Prop := finalised a o /\ stateObjects (c_state c) !! a = Some o' /\ hashed a o o' (c_tries c !! a).

Lemma merged_mono ns ns' s : (forall ow x, ns !! ow = Some x -> ns' !! ow = Some x) -> merged_in ns s -> merged_in ns' s.
Proof using Type. clear. intros Hm. destruct s as [s |]; [| done]. intros [ow Ho]. exists ow. by apply Hm. Qed.

Lemma merge_ok ns ow s : owned ow s -> ns !! ow = None -> exists ns', merge_one ns s = inr ns' /\ merged_in ns' s /\
  (forall w x, ns !! w = Some x -> ns' !! w = Some x) /\ forall w x, ns' !! w = Some x -> ns !! w = Some x \/ (w = ow /\ Some x = s).
Proof using Type.
  clear. destruct s as [s |]; cbn [owned merge_one]; intros Ho Hn; [| exists ns; by split_and!; [.. | left]]. rewrite <- Ho in *. exists (<[ns_Owner s := s]> ns). pose proof (merge_fresh ns s Hn) as Hm. unfold merge_one in Hm. rewrite Hm.
  split_and!; [done | exists (ns_Owner s); by rewrite lookup_insert_eq | intros w x Hx; rewrite lookup_insert_ne; [done | congruence] |].
  intros w x [[<- <-] | [_ Hx]]%lookup_insert_Some; [by right | by left].
Qed.

Lemma commit_objects_ok (O : gmap Z stateObject) l : forall c g, NoDup l.*1 ->
  (forall a m, (a, m) ∈ l -> is_delete m = false -> is_address a /\ (exists o o', O !! a = Some o /\ to_commit c a o o') /\ g_nodes g !! owner_of a = None) ->
  exists g' c', commit_objects keccak l c g = Ret (inr (g', c')) /\
    (forall ow s, g_nodes g !! ow = Some s -> g_nodes g' !! ow = Some s) /\ (forall ow s, g_nodes g' !! ow = Some s -> g_nodes g !! ow = Some s \/ from_trie keccak V (Nodes s)) /\
    forall a m o t, (a, m) ∈ l -> is_delete m = false -> O !! a = Some o -> c_tries c !! a = Some t -> exists mt s, slots keccak mt (slot_value o) /\ stores s (st_root t) mt /\ merged_in (g_nodes g') s.
Proof using HL rlpe rlpl ral.
  clear -HL rlpe rlpl ral. induction l as [| [a m] l IH]; intros c g Hnd Hl; cbn [commit_objects].
  - exists g, c. split_and!; [done | done | by left |]. intros a m o t Hin. by apply not_elem_of_nil in Hin.
  - rewrite fmap_cons in Hnd. apply NoDup_cons in Hnd as [Ha Hnd]. cbn [fst] in Ha. assert (forall b mb, (b, mb) ∈ l -> b <> a) as Hne by (intros b mb Hb ->; apply Ha, list_elem_of_fmap; by exists (a, mb)).
    destruct (is_delete m) eqn:Hdel.
    + destruct (IH c g Hnd) as (g' & c' & Hrun & H1 & H2 & H3); [intros b mb Hb; apply Hl; by right |]. exists g', c'. split_and!; [done.. |]. intros b mb o t [[= -> ->] | Hb]%elem_of_cons Hd; [congruence | by eapply H3].
    + destruct (Hl a m ltac:(left) Hdel) as (Hadd & (o & o' & HO & Hf & Ho & Hh) & Hfresh). rewrite Ho. destruct (obj_commit_ok c a o o' Hf Hh) as (op & s & pre & c1 & Hrun & [Hobj Htr Hown Hfrom Htrie]). rewrite Hrun. cbn [mbind outcome_bind].
      destruct (merge_ok (g_nodes g) (owner_of a) s Hown Hfresh) as (ns1 & Hm1 & Hin1 & Hkeep1 & Honly1). rewrite Hm1. set (g1 := mkGathered ns1 _ _).
      assert (forall b ob ob', b <> a -> to_commit c b ob ob' <-> to_commit c1 b ob ob') as Htc by (intros b ob ob' Hb; unfold to_commit; by rewrite Hobj, Htr).
      destruct (IH c1 g1 Hnd) as (g' & c' & Hrun' & H1 & H2 & H3).
      { intros b mb Hb Hd. destruct (Hl b mb ltac:(by right) Hd) as (Hbadd & (ob & ob' & HOb & Hob) & Hbf). pose proof (Hne b mb Hb) as Hba. split_and!; [done | exists ob, ob'; split; [done | by apply Htc] |].
        destruct (ns1 !! owner_of b) as [x |] eqn:Hx; [| done]. destruct (Honly1 _ _ Hx) as [? | [He _]]; [congruence |]. by destruct Hba; apply owner_inj. }
      exists g', c'. split_and!; [done | intros ow x Hx; by apply H1, Hkeep1 | |].
      * intros ow x Hx. destruct (H2 ow x Hx) as [Hx' | ?]; [| by right]. destruct (Honly1 ow x Hx') as [? | [_ <-]]; [by left | by right].
      * intros b mb ob t [[= -> ->] | Hb]%elem_of_cons Hd Hob Ht.
        -- rewrite Ht in Htrie. destruct Htrie as (mt & Hsl & Hst). assert (ob = o) as -> by congruence. exists mt, s. split_and!; [done | done | by eapply merged_mono].
        -- pose proof (Hne b mb Hb) as Hba. apply (H3 b mb ob t Hb Hd); [done | by rewrite Htr].
Qed.

(** ** Code *)

Definition code_change (o : stateObject) : option contractCode := if dirtyCode o then Some (mkCode (sa_CodeHash (data o)) (code o)) else None.

Lemma obj_commit_code c o op s pre c' : obj_commit keccak c o = Ret (op, s, pre, c') ->
  au_address op = address o /\ au_code op = code_change o /\ forall b, b <> address o -> stateObjects (c_state c') !! b = stateObjects (c_state c) !! b.
Proof using Type.
  clear. unfold obj_commit, commitStorage. set (op0 := mkUpdate _ _ _ _ _ _). set (o1 := if dirtyCode o then clear_dirtyCode o else o).
  assert (forall l o op, let x := foldl (commit_slot keccak) (o, op) l in address x.1 = address o /\ au_address x.2 = au_address op /\ au_code x.2 = au_code op) as Hfold.
  { clear. induction l as [| [k v] l IH]; intros o op; [done |]. cbn [foldl]. unfold commit_slot at 2 4 6. cbv beta iota zeta. destruct (v =? _); [apply IH |].
    match goal with |- context [foldl (commit_slot keccak) (?o1, ?op1) l] => destruct (IH o1 op1) as (? & ? & ?) end. by split_and!. }
  destruct (Hfold (order (pendingStorage o1)) o1 op0) as (Ha & Hau & Hco). destruct (foldl (commit_slot keccak) (o1, op0) (order (pendingStorage o1))) as [o2 op2]. cbn [fst snd] in *.
  assert (address o1 = address o) as Ha1 by (unfold o1; by destruct (dirtyCode o)). rewrite Ha1 in Ha. case_decide.
  - intros [= <- _ _ <-]. split_and!; [done | done |]. intros b Hb. cbn. rewrite Ha. by rewrite lookup_insert_ne.
  - destruct (c_tries c !! address _) as [t |]; [| done]. cbn [deref mbind outcome_bind]. destruct (st_Commit keccak t false) as [[[[root' s'] t'] pre'] |]; [| done]. cbn [mbind outcome_bind]. intros [= <- _ _ <-].
    split_and!; [done | done |]. intros b Hb. cbn. rewrite Ha. by rewrite lookup_insert_ne.
Qed.

Lemma commit_objects_code l : forall c g g' c', commit_objects keccak l c g = Ret (inr (g', c')) -> NoDup l.*1 -> (forall a, a ∈ l.*1 -> is_address a) ->
  (forall a m o, (a, m) ∈ l -> stateObjects (c_state c) !! a = Some o -> address o = a) ->
  (forall a m o, (a, m) ∈ l -> is_delete m = false -> stateObjects (c_state c) !! a = Some o -> exists op, g_updates g' !! owner_of a = Some op /\ au_address op = a /\ au_code op = code_change o) /\
  (forall h op, g_updates g !! h = Some op -> (forall a, a ∈ l.*1 -> h <> owner_of a) -> g_updates g' !! h = Some op) /\
  forall h op, g_updates g' !! h = Some op -> g_updates g !! h = Some op \/ exists a, a ∈ l.*1 /\ h = owner_of a /\ au_address op = a.
Proof using HL.
  clear -HL. induction l as [| [a m] l IH]; intros c g g' c' Hrun Hnd Hadd Hpl; cbn [commit_objects] in Hrun.
  - injection Hrun as <- _. split; [intros a m o Hin; by apply not_elem_of_nil in Hin | split; [done | by left]].
  - rewrite fmap_cons in Hnd. apply NoDup_cons in Hnd as [Ha Hnd]. cbn [fst] in Ha. assert (forall b mb, (b, mb) ∈ l -> b <> a) as Hne by (intros b mb Hb ->; apply Ha, list_elem_of_fmap; by exists (a, mb)).
    assert (forall b, b ∈ l.*1 -> is_address b) as Hadd' by (intros b Hb; apply Hadd; by right). assert (forall b h op, (exists x, x ∈ l.*1 /\ h = owner_of x /\ au_address op = x) -> exists x, x ∈ ((a, b) :: l).*1 /\ h = owner_of x /\ au_address op = x) as Hmore.
    { intros b h op (x & Hx & H). exists x. split; [by right | done]. }
    destruct (is_delete m) eqn:Hd.
    + destruct (IH c g g' c' Hrun Hnd Hadd') as (H1 & H3 & H2); [intros b mb o Hb; apply (Hpl b mb); by right |]. split; [intros b mb o [[= -> ->] | Hb]%elem_of_cons Hdb; [congruence | by apply (H1 b mb)] |].
      split; [intros h op Hop Hno; apply H3; [done | intros b Hb; apply Hno; by right] |].
      intros h op Hop. destruct (H2 h op Hop); [by left | right; by apply Hmore].
    + destruct (stateObjects (c_state c) !! a) as [o |] eqn:Ho; [| done]. pose proof (Hpl a m o ltac:(left) Ho) as Hao.
      destruct (obj_commit keccak c o) as [[[[op s] pre] c1] |] eqn:Hc; [| done]. cbn [mbind outcome_bind] in Hrun. destruct (merge_one (g_nodes g) s) as [| ns]; [done |].
      destruct (obj_commit_code c o op s pre c1 Hc) as (Hau & Hco & Hobj). rewrite Hao in *. destruct (IH _ _ _ _ Hrun Hnd Hadd') as (H1 & H3 & H2).
      { intros b mb ob Hb. rewrite Hobj by by eapply Hne. apply (Hpl b mb); by right. }
      cbn [g_updates] in H2, H3. split; [| split].
      * intros b mb ob [[= -> ->] | Hb]%elem_of_cons Hdb Hob; [| apply (H1 b mb ob Hb Hdb); by rewrite Hobj by by eapply Hne]. assert (ob = o) as -> by congruence. exists op. split; [| done].
        apply H3; [by rewrite lookup_insert_eq |]. intros b Hb He. assert (a = b) as -> by (apply owner_inj; [apply Hadd; left | by apply Hadd' | done]). done.
      * intros h op' Hop Hno. apply H3; [| intros b Hb; apply Hno; by right]. rewrite lookup_insert_ne; [done |]. intros He. apply (Hno a); [left | done].
      * intros h op' Hop. destruct (H2 h op' Hop) as [[[<- <-] | [_ Hg]]%lookup_insert_Some | Hx]; [right; exists a; split_and!; [left | done | done] | by left | right; by apply Hmore].
Qed.
End Sets.

(** The codes of the update are those of its accounts. *)
Lemma update_code `{ra : Ranges} `{!RangesLaws ra} origin root deletes (updates : gmap Z accountUpdate) ns h op :
  (forall h' op', updates !! h' = Some op' -> au_address op' = au_address op -> h' = h) -> updates !! h = Some op ->
  codes (newStateUpdate origin root deletes updates ns) !! au_address op = au_code op.
Proof.
  intros Huniq Hop. unfold newStateUpdate.
  assert (forall l u, (forall x, x ∈ l -> au_address x.2 <> au_address op) -> codes (foldl add_update u l) !! au_address op = codes u !! au_address op) as Hother.
  { induction l as [| x l IH]; intros u Hl; [done |]. cbn [foldl]. rewrite IH by (intros y Hy; apply Hl; by right). cbn. destruct (au_code x.2); [| done]. rewrite lookup_insert_ne; [done | apply Hl; left]. }
  assert (forall l u, codes (foldl add_delete u l) = codes u) as Hdel by (induction l as [| x l IH]; intros u; [done | cbn [foldl]; by rewrite IH]).
  pose proof (proj2 (order_elem updates h op) Hop) as (l1 & l2 & Hl)%list_elem_of_split. pose proof (order_NoDup updates) as Hnd. rewrite Hl in Hnd. rewrite fmap_app, fmap_cons in Hnd. apply NoDup_app in Hnd as (_ & Hd1 & Hd2). apply NoDup_cons in Hd2 as [Hd2 _].
  assert (forall x, x ∈ l1 \/ x ∈ l2 -> au_address x.2 <> au_address op) as Hne.
  { intros [h' op'] Hx He. assert ((h', op') ∈ order updates) as Hin by (rewrite Hl; apply elem_of_app; destruct Hx; [by left | right; by right]). apply order_elem in Hin. pose proof (Huniq _ _ Hin He) as ->. destruct Hx as [Hx | Hx].
    - apply (Hd1 h); [apply list_elem_of_fmap; by exists (h, op') | left].
    - apply Hd2. apply list_elem_of_fmap. by exists (h, op'). }
  rewrite Hl, foldl_app. cbn [foldl]. rewrite Hother by (intros x Hx; apply Hne; by right). cbn [add_update codes snd].
  destruct (au_code op) as [cd |]; [by rewrite lookup_insert_eq |]. rewrite Hother by (intros x Hx; apply Hne; by left). by rewrite Hdel.
Qed.
