(* ===== verification/StateLife.v ===== *)
(** * The life of a state

    Opened at a root, changed, committed and opened again. *)
From Stdlib Require Import ZArith Lia.
From stdpp Require Import base gmap strings list.
From S2P Require Import Prelude Utils JournalTypes Core AccessList StateDB StateDBSim StateDBProofs TrieEncoding Trie TrieHash TrieProofs.
From S2P Require Import TrieMap TrieRoot TrieDecode TrieReopen TrieHistory HashDB StateTrie StateCommit StateTrieProofs StateReady StateRoot StateSets.

(** ** A committed state can be read back

    A state that was opened at a root, changed and committed is known by its new root in every store that took the nodes of
    the commit, and the reader opened there answers with its accounts and slots. *)

(** The update has the root and the nodes it is built with. *)
Lemma update_shape `{ra : Ranges} origin root deletes updates ns :
  su_root (newStateUpdate origin root deletes updates ns) = TrieRootHash root /\ nodes (newStateUpdate origin root deletes updates ns) = ns.
Proof.
  unfold newStateUpdate. assert (forall l u, su_root (foldl add_delete u l) = su_root u /\ nodes (foldl add_delete u l) = nodes u) as Hd.
  { induction l as [| x l IH]; intros u; [done |]. cbn [foldl]. by destruct (IH (add_delete u x)) as [-> ->]. }
  assert (forall l u, su_root (foldl add_update u l) = su_root u /\ nodes (foldl add_update u l) = nodes u) as Hu.
  { induction l as [| x l IH]; intros u; [done |]. cbn [foldl]. by destruct (IH (add_update u x)) as [-> ->]. }
  match goal with |- context [foldl add_update ?x ?l] => destruct (Hu l x) as [-> ->] end. match goal with |- context [foldl add_delete ?x ?l] => destruct (Hd l x) as [-> ->] end. done.
Qed.

Lemma triple_eq {A B C} (a a' : A) (b b' : B) (c c' : C) : (a, b, c) = (a', b', c') -> a = a' /\ b = b' /\ c = c'.
Proof. by intros [= -> -> ->]. Qed.

Section Persist.
Context `{rlp : RLP} `{rlpe : !RLPEmpty rlp} `{rlpl : !RLPLaws rlp} `{ac : AccountCodec} `{acl : !AccountLaws ac} (keccak : bytes -> bytes) (HL : hash_laws keccak).
Context (fuel : nat) (Hfuel : (132 <= fuel)%nat) `{rd : StateReader} `{ra : Ranges} `{ral : !RangesLaws ra}.
Context (db : Z -> string + Reader) (V : store_map) (Hst : store_ok keccak V) (Hdb : serves db V) (root : Z) (Hks : known_state keccak V root reader_Account reader_Storage).
#[local] Abbreviation holds := (holds keccak).
#[local] Abbreviation accts := (accts keccak).
#[local] Abbreviation owner_of := (owner_of keccak).
#[local] Abbreviation st_root := (st_root keccak).
#[local] Abbreviation known_state := (known_state keccak).
#[local] Abbreviation to_hash := (to_hash keccak V root).
#[local] Abbreviation tries_hashed := (tries_hashed keccak V root).

(** ** What the new state is *)

(** The accounts that [Finalise] deletes. *)
Definition gone (del : bool) (s : StateDB) (a : Z) : bool := match stateObjects s !! a with Some o => bool_decide (touched s a) && doomed del o | None => false end.

Definition final_slot (del : bool) (s : StateDB) (a k : Z) : Z :=
  match stateObjects s !! a with
  | None => reader_Storage a k
  | Some o => if gone del s a then 0 else default (reader_Storage a k) (dirtyStorage o !! k)
  end.

(** The account of an object, up to its storage root. *)
Definition same_but_root (d d' : StateAccount) : Prop := sa_Nonce d' = sa_Nonce d /\ sa_Balance d' = sa_Balance d /\ sa_CodeHash d' = sa_CodeHash d.

Definition final_account (del : bool) (s : StateDB) (a : Z) (x : option StateAccount) : Prop :=
  match stateObjects s !! a with
  | None => x = reader_Account a
  | Some o => if gone del s a then x = None else exists d, x = Some d /\ same_but_root (data o) d
  end.

(** ** Before the hash *)

(** What [Finalise] leaves of an address. *)
Inductive cell_case (del : bool) (s : StateDB) (a : Z) : Prop :=
| cell_none : stateObjects s !! a = None -> stateObjects (Finalise del s) !! a = None -> mutations (Finalise del s) !! a = None -> stateObjectsDestruct (Finalise del s) !! a = None -> cell_case del s a
| cell_clean o : stateObjects s !! a = Some o -> gone del s a = false -> reader_Account a = Some (data o) -> dirtyStorage o = ∅ -> dirtyCode o = false -> mutations (Finalise del s) !! a = None -> stateObjectsDestruct (Finalise del s) !! a = None -> cell_case del s a
| cell_gone o : stateObjects s !! a = Some o -> gone del s a = true -> stateObjects (Finalise del s) !! a = None -> mutations (Finalise del s) !! a = Some to_delete -> stateObjectsDestruct (Finalise del s) !! a = Some o -> cell_case del s a
| cell_written o : stateObjects s !! a = Some o -> gone del s a = false -> stateObjects (Finalise del s) !! a = Some (obj_finalise false o) -> mutations (Finalise del s) !! a = Some to_update ->
    stateObjectsDestruct (Finalise del s) !! a = None -> cell_case del s a.

Lemma cells del s a : ready s -> cell_case del s a.
Proof using Type.
  clear. intros Hr. pose proof (Finalise_cells del s a Hr) as Hc. unfold cell_at in Hc. destruct (stateObjects s !! a) as [o |] eqn:Ho; [| apply triple_eq in Hc as (? & ? & ?); by apply cell_none].
  assert (gone del s a = bool_decide (touched s a) && doomed del o) as Hg by (unfold gone; by rewrite Ho). destruct (decide (touched s a)) as [Ht | Ht].
  - rewrite (bool_decide_eq_true_2 _ Ht) in Hg. destruct (doomed del o); apply triple_eq in Hc as (? & ? & ?); [by eapply cell_gone | by eapply cell_written].
  - rewrite (bool_decide_eq_false_2 _ Ht) in Hg. apply triple_eq in Hc as (? & ? & ?). destruct (rs_clean _ Hr a o Ho) as (? & ? & ?); [unfold touched in Ht; destruct (StateDB.dirties (jrnl s) !! a); [by destruct Ht | done] |]. by eapply cell_clean.
Qed.

Lemma finalised_to_hash del s t m : ready s -> holds V 0 t m -> accts m reader_Account -> to_hash (mkCommitter (Finalise del s) t ∅ root None).
Proof using Type.
  clear -ac. intros Hr Ht Hm. split; cbn [c_originalRoot c_dbErr c_tries c_trie c_state]; [done | done | done | by exists m |].
  intros a mu Hmu. destruct (cells del s a Hr) as [_ _ Hn _ | o _ _ _ _ _ Hn _ | o Ho _ _ Hn _ | o Ho _ Hf Hn _]; rewrite Hn in Hmu; [done | done | injection Hmu as <-.. ]; pose proof (rs_objects _ Hr a o Ho) as Hor; (split; [apply Hor |]); [by left | right].
  split; [done |]. exists (obj_finalise false o). split; [done | by apply finalise_finalised].
Qed.

(** ** The commit *)

(** What the commit gives: an update whose nodes, put in a store, make the new root known. *)
Record state_committed (del : bool) (s : StateDB) (u : stateUpdate) : Prop := {
  cd_new : forall V', grows V V' (sets_of (nodes u)) -> store_ok keccak V' /\ exists af, known_state V' (su_root u) af (final_slot del s) /\ forall a, is_address a -> final_account del s a (af a);
  cd_code : forall a o, stateObjects s !! a = Some o -> gone del s a = false -> dirtyCode o = true -> codes u !! a = Some (mkCode (sa_CodeHash (data o)) (code o))
}.

(** The sets of the update: deletions, the account trie, the storage tries. *)
Section Update.
Context (del : bool) (s : StateDB) (Hr : ready s) (c0 c1 : Committer) (Hc0 : c_state c0 = Finalise del s) (Hth : to_hash c0).
Context (H1 : tries_hashed c0 (order (mutations (c_state c0))) c1) (t : StateTrie) (m : gmap bytes bytes) (Ht : holds V 0 t m) (Hm : accts m (new_account c1)).

Lemma written_hashed a o : stateObjects s !! a = Some o -> mutations (Finalise del s) !! a = Some to_update ->
  stateObjects (Finalise del s) !! a = Some (obj_finalise false o) -> exists o', stateObjects (c_state c1) !! a = Some o' /\ hashed keccak V a (obj_finalise false o) o' (c_tries c1 !! a).
Proof using Hc0 H1 ral.
  clear -Hc0 H1 ral. intros Ho Hmu Hf. rewrite <- Hc0 in *. destruct (tr_some _ _ _ _ _ _ H1 a _ Hf) as (o' & Ho' & Hh). rewrite decide_True in Hh by by apply order_elem. by exists o'.
Qed.

Lemma new_account_final a : final_account del s a (new_account c1 a).
Proof using Hr Hc0 H1 ral.
  clear -Hr Hc0 H1 ral. unfold final_account, new_account. rewrite (tr_muts _ _ _ _ _ _ H1), Hc0. destruct (cells del s a Hr) as [Ho _ Hmu _ | o Ho Hg Hacc Hd _ Hmu _ | o Ho Hg _ Hmu _ | o Ho Hg Hf Hmu _]; rewrite Ho, Hmu; [done | | |].
  - rewrite Hg. by exists (data o).
  - by rewrite Hg.
  - rewrite Hg. cbn [is_delete mut_typ]. destruct (written_hashed a o Ho Hmu Hf) as (o' & Ho' & Hh). rewrite Ho'. cbn. exists (data o'). split; [done |].
    destruct (finalise_finalised a o (rs_objects _ Hr a o Ho)) as (_ & Hs & _). destruct Hh; unfold same_but_root; cbn [set_root obj_set_data clear_uncommitted obj_set_storage data sa_Nonce sa_Balance sa_CodeHash]; by rewrite (sc_data _ _ Hs).
Qed.

(** The storage of an address, once every changed trie is stored. *)
Lemma new_storage_known V' ns a : is_address a -> grows V V' (sets_of ns) -> (forall x, no_root x -> V' x = None) ->
  (forall b mu o tr, (b, mu) ∈ order (mutations (all_applied (c_state c1))) -> is_delete mu = false -> stateObjects (c_state c0) !! b = Some o -> c_tries c1 !! b = Some tr ->
     exists mt x, slots keccak mt (slot_value o) /\ stores keccak V x (st_root tr) mt /\ merged_in ns x) ->
  exists mt, known keccak V' (root_of (new_account c1 a)) mt /\ slots keccak mt (final_slot del s a).
Proof using Hr Hc0 H1 ral Hst Hks.
  clear -Hr Hc0 H1 ral Hst Hks. intros Ha Hgr Hno Hall. unfold new_account, final_slot. rewrite (tr_muts _ _ _ _ _ _ H1), Hc0.
  assert (exists mt, known keccak V' (root_of (reader_Account a)) mt /\ slots keccak mt (reader_Storage a)) as Hold.
  { destruct (ks_storage _ _ _ _ _ Hks a Ha) as (mt & Hk & Hs). exists mt. split; [| done]. eapply known_grow; [apply Hst | apply Hgr | done]. }
  destruct (cells del s a Hr) as [Ho _ Hmu _ | o Ho Hg Hacc Hd _ Hmu _ | o Ho Hg _ Hmu _ | o Ho Hg Hf Hmu _]; rewrite Ho, Hmu; [done | | |].
  - rewrite Hg, Hd. destruct Hold as (mt & Hk & Hs). exists mt. split; [done |]. eapply slots_ext; [| done]. intros k _. by rewrite lookup_empty.
  - rewrite Hg. exists ∅. split; [left; split; [by right | done] | apply slots_empty].
  - rewrite Hg. cbn [is_delete mut_typ]. destruct (finalise_finalised a o (rs_objects _ Hr a o Ho)) as (Hfin & Hs & Hp). destruct (written_hashed a o Ho Hmu Hf) as (o' & Ho' & Hh). rewrite Ho'. cbn [fmap option_fmap option_map root_of].
    assert (forall k, slot_value (obj_finalise false o) k = default (reader_Storage a k) (dirtyStorage o !! k)) as Hsv by (intros k; unfold slot_value; by rewrite Hp, (fo_address _ _ Hfin)).
    remember (c_tries c1 !! a) as tr eqn:Htr. destruct Hh as [Hpe | tr mt0 Hpe _ _].
    + rewrite (sc_data _ _ Hs), (or_root _ _ (rs_objects _ Hr a o Ho)). destruct Hold as (mt & Hk & Hsl). exists mt. split; [done |]. eapply slots_ext; [| done]. intros k _. rewrite Hp in Hpe. by rewrite Hpe, lookup_empty.
    + destruct (Hall a (mkMutation StateDB.update true) (obj_finalise false o) tr) as (mt & x & Hsl & Hsto & Hin); [| done | by rewrite Hc0 | done |].
      * apply order_elem. cbn. rewrite lookup_fmap, (tr_muts _ _ _ _ _ _ H1), Hc0, Hmu. done.
      * exists mt. split; [| eapply slots_ext; [| done]; intros k _; by rewrite Hsv]. cbn. apply (Hsto V' (∅ :: sets_of ns)); [by apply grows_empty | | done].
        destruct x as [x |]; [| left]. right. apply sets_elem. destruct Hin as [ow Hx]. by exists ow, x.
Qed.

Lemma new_account_ok a d : is_address a -> new_account c1 a = Some d -> account_ok d.
Proof using Hr Hc0 H1 ral Hks.
  clear -Hr Hc0 H1 ral Hks. intros Ha. unfold new_account. rewrite (tr_muts _ _ _ _ _ _ H1), Hc0. destruct (cells del s a Hr) as [Ho _ Hmu _ | o Ho Hg Hacc Hd _ Hmu _ | o Ho Hg _ Hmu _ | o Ho Hg Hf Hmu _]; rewrite Hmu.
  - by apply (ks_ok _ _ _ _ _ Hks).
  - by apply (ks_ok _ _ _ _ _ Hks).
  - done.
  - cbn [is_delete mut_typ]. destruct (finalise_finalised a o (rs_objects _ Hr a o Ho)) as (Hfin & _ & _). destruct (written_hashed a o Ho Hmu Hf) as (o' & -> & Hh). intros [= <-]. pose proof (fo_data _ _ Hfin) as [Hno Hba Hro Hco].
    destruct Hh; [by split |]. split; cbn [set_root obj_set_data clear_uncommitted obj_set_storage data sa_Nonce sa_Balance sa_CodeHash sa_Root]; [done | done | apply st_root_u256 | done].
Qed.

Lemma final_slot_word a k : is_address a -> is_u256 k -> is_u256 (final_slot del s a k).
Proof using Hr Hks.
  clear -Hr Hks. intros Ha Hk. unfold final_slot. pose proof (ks_words _ _ _ _ _ Hks a k Ha Hk) as Hw. destruct (stateObjects s !! a) as [o |] eqn:Ho; [| done]. destruct (gone del s a); [done |].
  destruct (dirtyStorage o !! k) as [v |] eqn:Hv; [| done]. by destruct (or_slots _ _ (rs_objects _ Hr a o Ho) k v Hv) as (_ & ? & _).
Qed.

(** The code of an object that is written. *)
Lemma written_code u : (forall a o o', stateObjects s !! a = Some o -> mutations (Finalise del s) !! a = Some to_update -> stateObjects (c_state c1) !! a = Some o' -> codes u !! a = code_change o') ->
  forall a o, stateObjects s !! a = Some o -> gone del s a = false -> dirtyCode o = true -> codes u !! a = Some (mkCode (sa_CodeHash (data o)) (code o)).
Proof using Hr Hc0 H1 ral.
  clear -Hr Hc0 H1 ral. intros Hcode a o Ho Hgo Hdc. destruct (cells del s a Hr) as [Ho' _ _ _ | o1 Ho' _ _ _ Hd _ _ | o1 Ho' Hgo' _ _ _ | o1 Ho' _ Hf Hmu _]; try congruence. assert (o1 = o) as -> by congruence.
  destruct (written_hashed a o Ho Hmu Hf) as (o' & Ho1 & Hh). rewrite (Hcode a o o' Ho Hmu Ho1). destruct (finalise_finalised a o (rs_objects _ Hr a o Ho)) as (_ & [_ _ Sd Sc Sdc _] & _).
  unfold code_change. destruct Hh; cbn [set_root obj_set_data clear_uncommitted obj_set_storage data sa_CodeHash dirtyCode code]; by rewrite Sdc, Hdc, Sd, Sc.
Qed.

(** The sets in the merged map are those of tries over the store, or deletions. *)
Lemma committed_ok ns u x : nodes u = ns -> su_root u = TrieRootHash (st_root t) -> (forall ow y, ns !! ow = Some y -> from_trie keccak V (Nodes y)) ->
  stores keccak V x (st_root t) m -> merged_in ns x ->
  (forall b mu o tr, (b, mu) ∈ order (mutations (all_applied (c_state c1))) -> is_delete mu = false -> stateObjects (c_state c0) !! b = Some o -> c_tries c1 !! b = Some tr ->
     exists mt y, slots keccak mt (slot_value o) /\ stores keccak V y (st_root tr) mt /\ merged_in ns y) ->
  (forall a o o', stateObjects s !! a = Some o -> mutations (Finalise del s) !! a = Some to_update -> stateObjects (c_state c1) !! a = Some o' -> codes u !! a = code_change o') -> state_committed del s u.
Proof using HL Hr Hc0 H1 Hm ral Hst Hks rlpe rlpl.
  clear -HL Hr Hc0 H1 Hm ral Hst Hks rlpe rlpl. intros <- Hroot Hfrom Hsto Hin Hall Hcode. split; [intros V' Hgr | by apply written_code].
  assert (store_ok keccak V') as Hst'. { eapply (store_grows keccak (hl_length _ HL) (hl_bytes _ HL)); [exact Hst | exact Hgr |]. apply Forall_forall. intros N (ow & y & Hy & ->)%sets_elem. by eapply Hfrom. }
  split; [done |]. exists (new_account c1). split; [| intros a _; apply new_account_final]. split.
  - exists m. split; [| done]. rewrite Hroot. assert (known keccak V' (st_root t) m) as Hk.
    { apply (Hsto V' (∅ :: sets_of (nodes u))); [by apply grows_empty | | apply Hst']. destruct x as [x |]; [| left]. right. apply sets_elem. destruct Hin as [ow Hx]. by exists ow, x. }
    unfold TrieRootHash. destruct (Z.eqb_spec (st_root t) 0) as [H0 | _]; [| done]. rewrite H0 in Hk. left. split; [by right |]. eapply known_nil; [done | by left].
  - intros a Ha. eapply new_storage_known; [done | exact Hgr | apply Hst' | exact Hall].
  - intros a d Ha Hd. by eapply new_account_ok.
  - intros a k Ha Hk. by apply final_slot_word.
Qed.

Lemma to_commit_all a mu t' : (a, mu) ∈ order (mutations (all_applied (c_state c1))) -> is_delete mu = false ->
  is_address a /\ stateObjectsDestruct (Finalise del s) !! a = None /\
  exists o o', stateObjects (c_state c0) !! a = Some o /\ to_commit keccak V (set_trie t' (set_trie t (set_state (all_applied (c_state c1)) c1))) a o o'.
Proof using Hr Hc0 H1 ral.
  clear -Hr Hc0 H1 ral. intros Hin Hd. apply order_elem in Hin. cbn in Hin. rewrite lookup_fmap, (tr_muts _ _ _ _ _ _ H1), Hc0 in Hin.
  destruct (cells del s a Hr) as [Ho _ Hmu _ | o Ho Hg Hacc Hdi _ Hmu _ | o Ho Hg _ Hmu _ | o Ho Hg Hf Hmu Hde]; rewrite Hmu in Hin; [done | done | injection Hin as <-.. ]; [done |].
  pose proof (rs_objects _ Hr a o Ho) as Hor. split; [apply Hor |]. split; [done |]. destruct (written_hashed a o Ho Hmu Hf) as (o' & Ho' & Hh). exists (obj_finalise false o), o'. rewrite Hc0. split; [done |].
  split; [by apply finalise_finalised | by split].
Qed.

Lemma codes_ok t' g0 g c3 : commit_objects keccak (order (mutations (all_applied (c_state c1)))) (set_trie t' (set_trie t (set_state (all_applied (c_state c1)) c1))) g0 = Ret (inr (g, c3)) -> g_updates g0 = ∅ ->
  forall origin r deletes a o o', stateObjects s !! a = Some o -> mutations (Finalise del s) !! a = Some to_update -> stateObjects (c_state c1) !! a = Some o' ->
  codes (newStateUpdate origin r deletes (g_updates g) (g_nodes g)) !! a = code_change o'.
Proof using HL Hr Hc0 Hth H1 ral.
  clear -HL Hr Hc0 Hth H1 ral. intros Hrun Hg0 org r deletes a o o' Ho Hmu Ho'. set (l := order (mutations (all_applied (c_state c1)))) in *.
  assert (forall b mb, (b, mb) ∈ l <-> exists m0, mutations (c_state c0) !! b = Some m0 /\ mb = mkMutation (mut_typ m0) true) as Hl.
  { intros b mb. unfold l. rewrite order_elem. cbn. rewrite lookup_fmap, (tr_muts _ _ _ _ _ _ H1). destruct (mutations (c_state c0) !! b) as [m0 |]; cbn; split; [intros [= <-]; by exists m0 | intros (? & [= <-] & ->); done | done | by intros (? & ? & _)]. }
  assert (forall b, b ∈ l.*1 -> is_address b) as Hadd. { intros b ([b' mb] & -> & (m0 & Hm0 & _)%Hl)%list_elem_of_fmap. by destruct (th_muts _ _ _ _ Hth b' m0 Hm0). }
  destruct (commit_objects_code keccak HL l _ g0 g c3 Hrun) as (Hone & _ & Honly); [apply order_NoDup | done | |].
  { intros b mb ob (m0 & Hm0 & ->)%Hl Hob. change (stateObjects (c_state c1) !! b = Some ob) in Hob. rewrite Hc0 in Hm0. destruct (cells del s b Hr) as [_ _ Hn _ | ? _ _ _ _ _ Hn _ | ? _ _ Hno _ _ | ob0 Hob0 _ Hf Hmb _]; [congruence | congruence | |].
    - rewrite <- Hc0 in Hno. rewrite (tr_none _ _ _ _ _ _ H1 b Hno) in Hob. done.
    - destruct (written_hashed b ob0 Hob0 Hmb Hf) as (o2 & Ho2 & Hh). assert (o2 = ob) as -> by congruence. eapply hashed_address; [| exact Hh]. by apply finalise_finalised, Hr. }
  destruct (Hone a (mkMutation StateDB.update true) o') as (op & Hop & Hau & Hco); [apply Hl; exists to_update; by rewrite Hc0 | done | done |]. rewrite <- Hau, <- Hco. apply (update_code _ _ _ _ _ (owner_of a)); [| done].
  intros h op' Hop' He. destruct (Honly h op' Hop') as [Hx | (b & _ & -> & Hb)]; [by rewrite Hg0, lookup_empty in Hx | congruence].
Qed.
End Update.

Lemma destructs_ok del s : ready s -> NoDup (order (stateObjectsDestruct (Finalise del s))).*1 /\
  forall a o, (a, o) ∈ order (stateObjectsDestruct (Finalise del s)) -> is_address a /\ forall d, origin o = Some d -> reader_Account a = Some d.
Proof using ral.
  clear -ral. intros Hr. split; [apply order_NoDup |]. intros a o Hin%order_elem. destruct (cells del s a Hr) as [_ _ _ Hd | ? _ _ _ _ _ _ Hd | o' Ho _ _ _ Hd | ? _ _ _ _ Hd]; rewrite Hd in Hin; try done.
  injection Hin as <-. pose proof (rs_objects _ Hr a o' Ho) as Hor. split; [apply Hor | intros d; by apply Hor].
Qed.

(** The whole commit succeeds. *)
Lemma state_commit_ok del s t m : ready s -> holds V 0 t m -> accts m reader_Account ->
  exists N, forall ifuel, (N <= ifuel)%nat -> exists u pre c', state_commit keccak fuel ifuel db del (mkCommitter s t ∅ root None) = Val (inr (u, pre, c')) /\ state_committed del s u.
Proof using All.
  intros Hr Ht Hm. pose proof (finalised_to_hash del s t m Hr Ht Hm) as Hth. set (c0 := mkCommitter (Finalise del s) t ∅ root None) in *.
  destruct (IntermediateRoot_ok keccak HL fuel Hfuel db V Hst Hdb root Hks del (mkCommitter s t ∅ root None) c0 eq_refl Hth) as (c1 & t1 & m1 & Hrun & H1 & Ht1 & Hm1).
  destruct (destructs_ok del s Hr) as [Hnd Hdes]. destruct (handleDestruction_ok keccak HL fuel Hfuel db V Hst Hdb root Hks _ Hnd Hdes) as (N & HN). exists N. intros ifuel Hi.
  destruct (HN ifuel Hi) as (deletes & sets & Hd & Hsn & Hsets). clear HN.
  destruct (merge_sets_ok sets ∅ Hsn) as (ns & Hns & Hin); [intros; apply lookup_empty |].
  destruct (st_commit_ok keccak HL V 0 t1 m1 true Ht1) as (x & t2 & pre & Hcom & Hown & Hfrom & Hsto).
  assert (forall ow y, ns !! ow = Some y -> deletions y /\ exists a o, stateObjectsDestruct (Finalise del s) !! a = Some o /\ ow = owner_of a) as Hdel.
  { intros ow y [Hy | [Hy <-]]%Hin; [by rewrite lookup_empty in Hy |]. destruct (Hsets y Hy) as (? & a & Ha & Hoa). split; [done |]. apply order_keys in Ha as [o Ho]. by exists a, o. }
  destruct (merge_ok ns 0 x Hown) as (ns1 & Hm1' & Hin1 & Hkeep & Honly).
  { destruct (ns !! 0) as [y |] eqn:Hy; [| done]. destruct (Hdel 0 y Hy) as (_ & a & o & Ho & He). apply order_elem in Ho. destruct (Hdes a o Ho) as [Ha _]. by destruct (hl_owner _ HL a Ha). }
  set (c2 := set_trie t1 (set_state (all_applied (c_state c1)) c1)) in *.
  destruct (commit_objects_ok keccak HL V (stateObjects (c_state c0)) (order (mutations (c_state c2))) (set_trie t2 c2) (mkGathered ns1 ∅ pre)) as (g & c3 & Hobj & Hg1 & Hg2 & Hg3); [apply order_NoDup | |].
  { intros a mu Ha Hdl. destruct (to_commit_all del s Hr c0 c1 eq_refl H1 t1 a mu t2 Ha Hdl) as (Hadd & Hnd' & Htc). split_and!; [done | done |].
    cbn [g_nodes]. destruct (ns1 !! owner_of a) as [y |] eqn:Hy; [| done]. destruct (Honly _ _ Hy) as [Hy' | [He _]]; [| by destruct (hl_owner _ HL a Hadd)].
    destruct (Hdel _ _ Hy') as (_ & b & o & Hb & He). pose proof Hb as Hb'. apply order_elem in Hb'. destruct (Hdes b o Hb') as [Hbadd _]. assert (a = b) as -> by (by apply (owner_inj keccak HL)). congruence. }
  pose proof (codes_ok del s Hr c0 c1 eq_refl Hth H1 t1 t2 (mkGathered ns1 ∅ pre) g c3 Hobj eq_refl (c_originalRoot c3) (st_root t1) deletes) as Hcode.
  eexists _, _, _. split.
  - unfold state_commit. cbn [c_dbErr]. rewrite Hrun. cbn [mbind res_bind]. fold c2. assert (c_dbErr c2 = None) as -> by apply H1.
    assert (c_originalRoot c2 = root) as -> by apply H1. assert (stateObjectsDestruct (c_state c2) = stateObjectsDestruct (Finalise del s)) as -> by apply (tr_destruct _ _ _ _ _ _ H1).
    rewrite Hd. cbn [mbind res_bind]. rewrite Hns. change (c_trie c2) with t1. rewrite Hcom. cbn [of_outcome mbind res_bind]. rewrite Hm1'. rewrite Hobj. cbn [of_outcome mbind res_bind]. reflexivity.
  - destruct (update_shape (c_originalRoot c3) (st_root t1) deletes (g_updates g) (g_nodes g)) as [Hroot Hnodes].
    eapply (committed_ok del s Hr c0 c1 eq_refl H1 t1 m1 Hm1 (g_nodes g) _ x); [exact Hnodes | exact Hroot | | exact Hsto | by eapply merged_mono | exact Hg3 | exact Hcode].
    intros ow y Hy. destruct (Hg2 ow y Hy) as [Hy1 | ?]; [| done]. destruct (Honly ow y Hy1) as [Hy2 | [_ Hxy]]; [apply deletions_only; intros q nd; by apply (Hdel ow y Hy2) | by rewrite <- Hxy in Hfrom].
Qed.
End Persist.

(** ** The life of a state

    Opened at a root, changed, committed and opened again. *)

Section Life.
Context `{cfg : Config} `{env : NodeEnv}.
Context `{rlp : RLP} `{rlpe : !RLPEmpty rlp} `{rlpl : !RLPLaws rlp} `{ac : AccountCodec} `{acl : !AccountLaws ac} (keccak : bytes -> bytes) (HL : hash_laws keccak).
Context (fuel : nat) (Hfuel : (132 <= fuel)%nat) `{rd : StateReader} `{ra : Ranges} `{ral : !RangesLaws ra}.
Context (db : Z -> string + Reader) (V : store_map) (Hst : store_ok keccak V) (Hdb : serves db V) (root : Z) (Hks : known_state keccak V root reader_Account reader_Storage).

Lemma New2_ok db' V' root' af sf : store_ok keccak V' -> serves db' V' -> known_state keccak V' root' af sf ->
  exists t r m, New2 db' root' = Val (inr (mkCommitter New_StateDB t ∅ root' None, r)) /\ holds keccak V' 0 t m /\ accts keccak m af /\ reading keccak V' root' af sf r.
Proof using Type.
  clear. intros Hs Hd Hk. pose proof Hk as [(m & Hm & Ha) _ _ _]. destruct (st_open keccak db' V' root' 0 root' m Hs Hd Hm (known_opens _ _ _ _ Hm)) as (t & Hrun & Ht).
  destruct (newStateReader_ok keccak db' V' root' af sf Hs Hd Hk) as (r & Hrun' & Hr). exists t, r, m. split_and!; [| done | done | done]. unfold New2, OpenTrie, StateTrieID. rewrite Hrun. cbn [mbind res_bind]. by rewrite Hrun'.
Qed.

Lemma no_account_no_slots a k : is_address a -> is_u256 k -> reader_Account a = None -> reader_Storage a k = 0.
Proof using Hks.
  clear -Hks. intros Ha Hk Hn. destruct (ks_storage _ _ _ _ _ Hks a Ha) as (m & Hm & Hs). rewrite Hn in Hm. rewrite (known_nil _ _ _ _ Hm ltac:(by right)) in Hs. specialize (Hs k Hk). rewrite lookup_empty in Hs.
  unfold encode_slot in Hs. by destruct (Z.eqb_spec (reader_Storage a k) 0).
Qed.

Lemma GetState_final del s a k : ready s -> is_address a -> is_u256 k -> gone del s a = false -> (GetState s a k).2 = final_slot del s a k.
Proof using Hks.
  clear -Hks. intros Hr Ha Hk Hg. unfold GetState, getStateObject, final_slot. destruct (stateObjects s !! a) as [o |] eqn:Ho.
  - rewrite Hg. unfold destructed_at. rewrite (rs_destruct _ Hr), lookup_empty. destruct (obj_getState false o k) as [o' [cur orig]] eqn:E. by destruct (ready_read a o k o' cur orig (rs_objects _ Hr a o Ho) E) as (_ & _ & _ & _ & _ & ->).
  - rewrite (rs_destruct _ Hr), lookup_empty. destruct (reader_Account a) as [d |] eqn:Hd; [| by rewrite no_account_no_slots].
    unfold destructed_at, setStateObject, obj_getState, obj_GetCommittedState, newObject. cbn. rewrite (rs_destruct _ Hr), !lookup_empty. cbn. done.
Qed.

(** Two accounts that differ at most in the storage root. *)
Definition same_accounts (x y : option StateAccount) : Prop := match x, y with Some d, Some d' => same_but_root d d' | None, None => True | _, _ => False end.

Lemma live_final del s a x : ready s -> gone del s a = false -> final_account del s a x -> same_accounts (data <$> live s a) x.
Proof using Type.
  clear. intros Hr Hg. unfold final_account, live, getStateObject. destruct (stateObjects s !! a) as [o |]; [rewrite Hg; by intros (d & -> & Hd) |].
  rewrite (rs_destruct _ Hr), lookup_empty. intros ->. by destruct (reader_Account a).
Qed.

Lemma gone_final del s a x k : gone del s a = true -> final_account del s a x -> x = None /\ final_slot del s a k = 0.
Proof using Type. clear. intros Hg. unfold final_account, final_slot. destruct (stateObjects s !! a) eqn:Ho; [by rewrite Hg | unfold gone in Hg; by rewrite Ho in Hg]. Qed.

(** Only an object of the state has new code. *)
Lemma live_object s a o : ready s -> live s a = Some o -> dirtyCode o = true -> stateObjects s !! a = Some o.
Proof using Type.
  clear. intros Hr Ho Hd. unfold live, getStateObject in Ho. destruct (stateObjects s !! a) as [x |]; [done |]. rewrite (rs_destruct _ Hr), lookup_empty in Ho.
  destruct (reader_Account a); [| done]. by injection Ho as <-.
Qed.

End Life.

