(* ===== verification/StateLifeExamples.v ===== *)
(** * A state that is committed and read back

    An encoding of accounts and a hash that satisfy the laws, and a state on an empty database that gets two accounts, code
    and slots, is committed, and is opened again on the nodes of the commit. *)
From Stdlib Require Import ZArith Lia.
From stdpp Require Import base gmap strings list.
From S2P Require Import Prelude Utils JournalTypes Core AccessList StateDB StateDBSim StateDBProofs TrieEncoding Trie TrieHash TrieProofs TrieMap TrieRoot TrieDecode TrieReopen TrieHistory.
From S2P Require Import TrieIterator TrieIteratorProofs TrieLifeExamples HashDB StateTrie StateCommit StateTrieProofs StateReady StateRoot StateSets StateLife.

Module Fixed.

(** ** Accounts of fixed width *)

Definition encode_account (a : StateAccount) : bytes := be_bytes 8 (sa_Nonce a) ++ hash_bytes (sa_Balance a) ++ hash_bytes (sa_Root a) ++ hash_bytes (sa_CodeHash a).

Definition decode_account (b : bytes) : string + StateAccount :=
  if decide (length b = 104%nat)
  then inr (mkStateAccount (bytes_to_Z (take 8 b)) (bytes_to_Z (take 32 (drop 8 b))) (bytes_to_Z (take 32 (drop 40 b))) (bytes_to_Z (drop 72 b)))
  else inl "wrong length".

#[export] Instance codec : AccountCodec := {| EncodeAccount := encode_account; DecodeAccount := decode_account; SlimAccountRLP := encode_account |}.

Lemma be_bytes_small n z : 0 <= z < 256 ^ Z.of_nat n -> bytes_to_Z (be_bytes n z) = z.
Proof. intros Hz. rewrite be_bytes_Z. by apply Z.mod_small. Qed.

Lemma parts (n b r c : bytes) : length n = 8%nat -> length b = 32%nat -> length r = 32%nat -> length c = 32%nat ->
  decode_account (n ++ b ++ r ++ c) = inr (mkStateAccount (bytes_to_Z n) (bytes_to_Z b) (bytes_to_Z r) (bytes_to_Z c)).
Proof.
  intros Hn Hb Hr Hc. unfold decode_account. rewrite decide_True by (rewrite !length_app; lia). do 2 f_equal; f_equal.
  - by rewrite take_app_length' by done.
  - rewrite (drop_app_length' n) by done. by rewrite take_app_length' by done.
  - rewrite (app_assoc n b), (drop_app_length' (n ++ b)) by (rewrite length_app; lia). by rewrite take_app_length' by done.
  - by rewrite (app_assoc n b), (app_assoc (n ++ b) r), drop_app_length' by (rewrite !length_app; lia).
Qed.

#[export] Instance codec_laws : AccountLaws codec.
Proof.
  split; cbn [EncodeAccount DecodeAccount codec].
  - intros [n b r c] [Hn Hb Hr Hc]. unfold encode_account, hash_bytes. cbn [sa_Nonce sa_Balance sa_Root sa_CodeHash] in *. rewrite parts by apply be_bytes_length. by rewrite !be_bytes_small.
  - intros a He. apply (f_equal length) in He. unfold encode_account in He. rewrite !length_app, be_bytes_length in He. cbn in He. lia.
Qed.

(** ** A hash that keeps keys and addresses apart *)

Definition hash (l : bytes) : bytes := be_bytes 32 (bytes_to_Z l + 1).

Lemma digest_apart n z z' : (n <= 32)%nat -> 0 <= z < 256 ^ Z.of_nat n -> 0 <= z' < 256 ^ Z.of_nat n -> hash (be_bytes n z) = hash (be_bytes n z') -> z = z'.
Proof.
  intros Hn Hz Hz' He. unfold hash in He. rewrite !be_bytes_small in He by done. apply (f_equal bytes_to_Z) in He. rewrite !be_bytes_Z in He. change (256 ^ Z.of_nat 32) with (2 ^ 256) in He.
  assert (256 ^ Z.of_nat n <= 256 ^ 32) as Hle by (apply Z.pow_le_mono_r; lia). change (256 ^ 32) with (2 ^ 256) in Hle. revert He Hle Hz Hz'. generalize (256 ^ Z.of_nat n). intros M. intros. Z.div_mod_to_equations. lia.
Qed.

Lemma address_bound a : is_address a -> 0 <= a < 256 ^ Z.of_nat 20.
Proof. assert (256 ^ Z.of_nat 20 = 2 ^ 160) as -> by (vm_compute; reflexivity). done. Qed.

Lemma word_bound z : is_u256 z -> 0 <= z < 256 ^ Z.of_nat 32.
Proof. assert (256 ^ Z.of_nat 32 = 2 ^ 256) as -> by (vm_compute; reflexivity). done. Qed.

Lemma hash_owner a : is_address a -> BytesToHash (hash (address_bytes a)) <> 0.
Proof.
  intros Ha. unfold hash, address_bytes, BytesToHash. rewrite (be_bytes_small 20 a) by by apply address_bound. unfold is_address in Ha. assert (is_u256 (a + 1)) as Hu by (unfold is_u256; lia).
  rewrite be_bytes_small by by apply word_bound. rewrite u256_small by done. lia.
Qed.

Lemma hash_ok : hash_laws hash.
Proof.
  split.
  - intros e. apply be_bytes_length.
  - intros e. apply be_bytes_range.
  - intros k k' Hk Hk'. apply (digest_apart 32); [lia | by apply word_bound..].
  - intros a a' Ha Ha'. apply (digest_apart 20); [lia | by apply address_bound..].
  - apply hash_owner.
Qed.

#[export] Instance ranges : Ranges := {| order A m := map_to_list m |}.
#[export] Instance ranges_laws : RangesLaws ranges.
Proof. by split. Qed.
End Fixed.
Import Fixed TrieLifeExamples.Lengths.

Module Book.
#[export] Existing Instance default_config.
#[export] Instance reader : StateReader := {|
  reader_Account _ := None; reader_Storage _ _ := 0; ContractCode _ _ := []; Keccak256Hash l := u256 (bytes_to_Z l)
|}.
#[export] Instance node : NodeEnv := {| ShardID := 0; NodeID := 0; Ip_nodeTable := ∅ |}.

Definition nothing : store_map := fun _ => None.
Definition no_reader (_ : Z) : string + Reader := inl "no state".

Lemma nothing_ok : store_ok hash nothing.
Proof. by apply store_ok_empty. Qed.

Lemma nothing_served : serves no_reader nothing.
Proof. intros root [b Hb]. done. Qed.

Lemma nothing_known : known_state hash nothing EmptyRootHash reader_Account reader_Storage.
Proof.
  split.
  - exists ∅. split; [left; split; [by right | done] |]. intros a _. by rewrite lookup_empty.
  - intros a _. exists ∅. split; [left; split; [by right | done] | apply slots_empty].
  - done.
  - done.
Qed.

(** Two accounts, one with code and slots, and one that destructs itself. *)
Definition changes : list StateDBProofs.db_op :=
  [OpSetBalance 10 5; OpSetNonce 10 3; OpSetCode 10 [96; 1]; OpSetState 10 1 7; OpSetState 10 2 9; OpSetState 10 2 0; OpSetBalance 11 6; OpSetNonce 12 1; OpSelfDestruct 12].

Definition changed : StateDB := match for_each StateDBProofs.run_op New_StateDB changes with Ret s => s | Panic _ => New_StateDB end.

Lemma changes_run : for_each StateDBProofs.run_op New_StateDB changes = Ret changed.
Proof. vm_compute. reflexivity. Qed.

Lemma changes_valid : Forall op_valid changes.
Proof. repeat constructor; vm_compute; done. Qed.

(** The commit, run. *)
Definition update : option stateUpdate :=
  match New2 no_reader EmptyRootHash with
  | Val (inr (c, _)) => match state_commit hash 140 20 no_reader false (set_state changed c) with Val (inr (u, _, _)) => Some u | _ => None end
  | _ => None
  end.

(** The nodes of the update, by hash. *)
Definition new_nodes : list TrieHash.Node :=
  match update with Some u => concat (map (fun x => map snd (map_to_list (Nodes x.2))) (map_to_list (nodes u))) | None => [] end.
Definition stored : store_map := fun h => option_map nd_Blob (List.find (fun x => nd_Hash x =? h) new_nodes).
Definition store_reader (root : Z) : string + Reader :=
  match stored root with Some _ => inr (fun _ _ h => match stored h with Some b => inr b | None => inl "not found" end) | None => inl "no state" end.

Definition read (a : Z) (ks : list Z) : option (option StateAccount * list Z) :=
  match update with
  | Some u =>
      match New2 store_reader (su_root u) with
      | Val (inr (_, r)) =>
          match reader_account hash 140 r a with
          | Val (x, None, r) => Some (x, (fun k => match reader_storage hash 140 store_reader r a k with Val (v, None, _) => v | _ => -1 end) <$> ks)
          | _ => None
          end
      | _ => None
      end
  | None => None
  end.
End Book.
Import Book.

(** What the reader of the new root says. *)
Example committed_and_read :
  read 10 [1; 2; 3] = Some (Some (mkStateAccount 3 5 520 24577), [7; 0; 0]) /\
  read 11 [1] = Some (Some (mkStateAccount 0 6 EmptyRootHash EmptyCodeHash), [0]) /\ read 12 [1] = Some (None, [0]).
Proof. vm_compute. done. Qed.

Lemma changed_shows : gone false changed 10 = false /\ gone false changed 12 = true /\
  (exists o, live changed 10 = Some o /\ dirtyCode o = true /\ Some (mkCode (sa_CodeHash (data o)) (code o)) = Some (mkCode 24577 [96; 1]) /\ data o = mkStateAccount 3 5 EmptyRootHash 24577) /\
  (GetState changed 10 1).2 = 7.
Proof. split; [vm_compute; reflexivity |]. split; [vm_compute; reflexivity |]. split; [eexists; split; [vm_compute; reflexivity |]; vm_compute; done | vm_compute; reflexivity]. Qed.

Lemma address10 : is_address 10.
Proof. done. Qed.
Lemma address12 : is_address 12.
Proof. done. Qed.
Lemma word1 : is_u256 1.
Proof. done. Qed.

