(* ===== verification/Measure.v ===== *)
(** * Measurements

    Models [supervisor/measure]: the interface [MeasureModule] as a class and its nine implementations, which
    turn the block reports of the leaders into statistics per epoch: transactions, shares of cross-shard
    transactions, confirmation latencies and throughput.

    A time is the number of nanoseconds since Go's zero time, which is 0 here; a duration saturates at 64
    bits, as [time.Sub] does. Counts and ratios are IEEE doubles. *)
From Stdlib Require Import ZArith Lia.
From stdpp Require Import base gmap strings list.
From S2P Require Import Prelude Utils JournalTypes Core Message Floats.

(** ** Times and numbers *)

Definition time_Sub (t u : Z) : Z := Z.max (- 2 ^ 63) (Z.min (2 ^ 63 - 1) (t - u)).
Definition After (t u : Z) : bool := u <? t.
Definition IsZero (t : Z) : bool := t =? 0.
Definition f0 : f64 := f64_of_Z 0.
Definition f1 : f64 := f64_of_Z 1.
Definition f2 : f64 := f64_of_Z 2.
Definition fhalf : f64 := f64_lit 1 (-1).

(** [Duration.Seconds]: whole seconds and the fraction are converted apart. *)
Definition Seconds (d : Z) : f64 :=
  f64_add (f64_of_Z (Z.quot d 1000000000)) (f64_div (f64_of_Z (Z.rem d 1000000000)) (f64_of_Z 1000000000)).

(** [for epochID < epochid { l = append(l, x) }] *)
Definition extend {A} (epochID epochid : Z) (x : A) (l : list A) : list A := l ++ replicate (Z.to_nat (epochid - epochID)) x.

(** [l[i] = f(l[i])] *)
Definition at_epoch {A} (l : list A) (i : Z) (f : A -> A) : outcome (list A) := x ← idx l i; set_idx l i (f x).

Definition zlen_f {A} (l : list A) : f64 := f64_of_Z (zlen l).

(** The halves of the brokers count one half each. *)
Definition broker_halves (b : BlockInfoMsg) : f64 := f64_div (f64_add (f64_of_Z (Broker1TxNum b)) (f64_of_Z (Broker2TxNum b))) f2.

(** ** The interface *)

Class MeasureModule (M : Type) := {
  NewModule : M;
  UpdateMeasureRecord : M -> BlockInfoMsg -> outcome M;
  OutputMetricName : string;
  OutputMetricTitle : string;
  OutputRecord : Z -> M -> outcome (list f64 * f64)
}.

Definition fsum (l : list f64) : f64 := foldl f64_add f0 l.

(** ** Transaction counts *)

(** The state of the three counting modules. *)
Record TxCount := mkTxCount { tc_epochID : Z; tc_txNum : list f64 }.

Definition count_update (weight : BlockInfoMsg -> f64) (m : TxCount) (b : BlockInfoMsg) : outcome TxCount :=
  if BlockBodyLength b =? 0 then Ret m else
  let l := extend (tc_epochID m) (Epoch b) f0 (tc_txNum m) in
  l ← at_epoch l (Epoch b) (fun x => f64_add x (weight b));
  Ret (mkTxCount (Z.max (tc_epochID m) (Epoch b)) l).

Definition count_output (m : TxCount) : outcome (list f64 * f64) := Ret (tc_txNum m, fsum (tc_txNum m)).

Definition broker_weight (b : BlockInfoMsg) : f64 := f64_add (zlen_f (ExcutedTxs b)) (broker_halves b).

Definition TestTBlockTxInfo_Broker : MeasureModule TxCount := {|
  NewModule := mkTxCount (-1) []; UpdateMeasureRecord := count_update broker_weight;
  OutputMetricName := "Tx_number"; OutputMetricTitle := "txExcuted, broker1Txs, broker2Txs allocatedTxs"; OutputRecord _ := count_output |}.

Definition TestTxNumCount_Broker : MeasureModule TxCount := {|
  NewModule := mkTxCount (-1) []; UpdateMeasureRecord := count_update broker_weight;
  OutputMetricName := "Tx_number"; OutputMetricTitle := "Tx_number"; OutputRecord _ := count_output |}.

Definition TestTxNumCount_Relay : MeasureModule TxCount := {|
  NewModule := mkTxCount (-1) []; UpdateMeasureRecord := count_update (fun b => zlen_f (ExcutedTxs b));
  OutputMetricName := "Tx_number"; OutputMetricTitle := "Tx_number"; OutputRecord _ := count_output |}.

(** ** Shares of cross-shard transactions *)

Record CrossRate := mkCrossRate {
  cr_epochID : Z; totTxNum : list f64; totCrossTxNum : list f64; b2num : Z; b1num : Z; relayTxRecord : gset string
}.

Definition new_rate : CrossRate := mkCrossRate (-1) [] [] 0 0 ∅.

Definition cross_broker_update (m : CrossRate) (b : BlockInfoMsg) : outcome CrossRate :=
  if BlockBodyLength b =? 0 then Ret m else
  let tot := extend (cr_epochID m) (Epoch b) f0 (totTxNum m) in
  let cross := extend (cr_epochID m) (Epoch b) f0 (totCrossTxNum m) in
  cross ← at_epoch cross (Epoch b) (fun x => f64_add x (broker_halves b));
  tot ← at_epoch tot (Epoch b) (fun x => f64_add x (broker_weight b));
  Ret (mkCrossRate (Z.max (cr_epochID m) (Epoch b)) tot cross (i64 (b2num m + i64 (Broker2TxNum b))) (i64 (b1num m + i64 (Broker1TxNum b)))
         (relayTxRecord m)).

(** A first half of a relayed transaction, then the others: the second half of one counts one half more. *)
Definition relay_first (e : Z) (m : CrossRate) (tx : Transaction) : outcome CrossRate :=
  cross ← at_epoch (totCrossTxNum m) e (fun x => f64_add x fhalf);
  tot ← at_epoch (totTxNum m) e (fun x => f64_add x fhalf);
  Ret (mkCrossRate (cr_epochID m) tot cross (b2num m) (b1num m) ({[TxHash tx]} ∪ relayTxRecord m)).

Definition relay_executed (e : Z) (m : CrossRate) (tx : Transaction) : outcome CrossRate :=
  if decide (TxHash tx ∈ relayTxRecord m) then
    tot ← at_epoch (totTxNum m) e (fun x => f64_add x fhalf);
    cross ← at_epoch (totCrossTxNum m) e (fun x => f64_add x fhalf);
    Ret (mkCrossRate (cr_epochID m) tot cross (b2num m) (b1num m) (relayTxRecord m))
  else
    tot ← at_epoch (totTxNum m) e (fun x => f64_add x f1);
    Ret (mkCrossRate (cr_epochID m) tot (totCrossTxNum m) (b2num m) (b1num m) (relayTxRecord m)).

Definition cross_relay_update (m : CrossRate) (b : BlockInfoMsg) : outcome CrossRate :=
  if BlockBodyLength b =? 0 then Ret m else
  let m := mkCrossRate (Z.max (cr_epochID m) (Epoch b)) (extend (cr_epochID m) (Epoch b) f0 (totTxNum m))
             (extend (cr_epochID m) (Epoch b) f0 (totCrossTxNum m)) (b2num m) (b1num m) (relayTxRecord m) in
  m ← for_each (relay_first (Epoch b)) m (Relay1Txs b);
  for_each (relay_executed (Epoch b)) m (ExcutedTxs b).

(** [eid, x := range xs] with [ys[eid]] beside it. *)
Definition range_with {A B} (xs : list A) (ys : list B) : outcome (list (A * B)) :=
  if (length ys <? length xs)%nat then Panic "index out of range" else Ret (combine xs ys).

Definition cross_output (m : CrossRate) : outcome (list f64 * f64) :=
  l ← range_with (totTxNum m) (totCrossTxNum m);
  let tot := fsum (map fst l) in
  let cross := fsum (map snd l) in
  Ret (map (fun '(t, c) => f64_div c t) l ++ [tot; cross], f64_div cross tot).

Definition TestCrossTxRate_Broker : MeasureModule CrossRate := {|
  NewModule := new_rate; UpdateMeasureRecord := cross_broker_update;
  OutputMetricName := "CrossTransaction_ratio"; OutputMetricTitle := "CrossTransaction_ratio"; OutputRecord _ := cross_output |}.

Definition TestCrossTxRate_Relay : MeasureModule CrossRate := {|
  NewModule := new_rate; UpdateMeasureRecord := cross_relay_update;
  OutputMetricName := "CrossTransaction_ratio"; OutputMetricTitle := "CrossTransaction_ratio"; OutputRecord _ := cross_output |}.

(** ** Confirmation latency *)

Record Latency := mkLatency { la_epochID : Z; totTxLatencyEpoch : list f64; la_txNum : list f64; brokerTxMap : gmap string Z }.

Definition new_latency : Latency := mkLatency (-1) [] [] ∅.

(** An executed transaction that carries the time it entered the pool. *)
Definition add_latency (e commit : Z) (m : Latency) (tx : Transaction) : outcome Latency :=
  if IsZero (Time tx) then Ret m else
  tot ← at_epoch (totTxLatencyEpoch m) e (fun x => f64_add x (Seconds (time_Sub commit (Time tx))));
  num ← at_epoch (la_txNum m) e (fun x => f64_add x f1);
  Ret (mkLatency (la_epochID m) tot num (brokerTxMap m)).

(** A second half adds the time since its first half was added, and no transaction. *)
Definition add_second_half (e propose : Z) (m : Latency) (tx : Transaction) : outcome Latency :=
  match brokerTxMap m !! RawTxHash tx with
  | None => Ret m
  | Some t =>
      tot ← at_epoch (totTxLatencyEpoch m) e (fun x => f64_add x (Seconds (time_Sub propose t)));
      Ret (mkLatency (la_epochID m) tot (la_txNum m) (brokerTxMap m))
  end.

Definition extend_latency (m : Latency) (e : Z) : Latency :=
  mkLatency (Z.max (la_epochID m) e) (extend (la_epochID m) e f0 (totTxLatencyEpoch m)) (extend (la_epochID m) e f0 (la_txNum m)) (brokerTxMap m).

Definition latency_relay_update (m : Latency) (b : BlockInfoMsg) : outcome Latency :=
  if BlockBodyLength b =? 0 then Ret m else
  for_each (add_latency (Epoch b) (CommitTime b)) (extend_latency m (Epoch b)) (ExcutedTxs b).

Definition latency_broker_update (m : Latency) (b : BlockInfoMsg) : outcome Latency :=
  if BlockBodyLength b =? 0 then Ret m else
  m ← for_each (add_latency (Epoch b) (CommitTime b)) (extend_latency m (Epoch b)) (ExcutedTxs b);
  let m := mkLatency (la_epochID m) (totTxLatencyEpoch m) (la_txNum m)
             (foldl (fun s tx => <[RawTxHash tx := Time tx]> s) (brokerTxMap m) (Broker1Txs b)) in
  for_each (add_second_half (Epoch b) (ProposeTime b)) m (Broker2Txs b).

Definition latency_output (m : Latency) : outcome (list f64 * f64) :=
  l ← range_with (totTxLatencyEpoch m) (la_txNum m);
  Ret (map (fun '(t, n) => f64_div t n) l, f64_div (fsum (map fst l)) (fsum (map snd l))).

Definition TestModule_TCL_Broker : MeasureModule Latency := {|
  NewModule := new_latency; UpdateMeasureRecord := latency_broker_update;
  OutputMetricName := "Transaction_Confirm_Latency"; OutputMetricTitle := "Transaction_Confirm_Latency"; OutputRecord _ := latency_output |}.

Definition TestModule_TCL_Relay : MeasureModule Latency := {|
  NewModule := new_latency; UpdateMeasureRecord := latency_relay_update;
  OutputMetricName := "Transaction_Confirm_Latency"; OutputMetricTitle := "Transaction_Confirm_Latency"; OutputRecord _ := latency_output |}.

(** ** Throughput *)

Record Tps := mkTps { tp_epochID : Z; excutedTxNum : list f64; relayTx : gset string; startTime : list Z; endTime : list Z }.

Definition new_tps : Tps := mkTps (-1) [] ∅ [] [].

Definition extend_tps (m : Tps) (e : Z) : Tps :=
  mkTps (Z.max (tp_epochID m) e) (extend (tp_epochID m) e f0 (excutedTxNum m)) (relayTx m) (extend (tp_epochID m) e 0 (startTime m))
    (extend (tp_epochID m) e 0 (endTime m)).

(** The times of the epoch take in the block. *)
Definition widen (m : Tps) (e earliest latest : Z) : outcome Tps :=
  s ← at_epoch (startTime m) e (fun t => if IsZero t || After t earliest then earliest else t);
  f ← at_epoch (endTime m) e (fun t => if IsZero t || After latest t then latest else t);
  Ret (mkTps (tp_epochID m) (excutedTxNum m) (relayTx m) s f).

Definition add_executed (e : Z) (x : f64) (m : Tps) : outcome Tps :=
  l ← at_epoch (excutedTxNum m) e (fun y => f64_add y x);
  Ret (mkTps (tp_epochID m) l (relayTx m) (startTime m) (endTime m)).

Definition tps_broker_update (m : Tps) (b : BlockInfoMsg) : outcome Tps :=
  if BlockBodyLength b =? 0 then Ret m else
  m ← add_executed (Epoch b) (broker_weight b) (extend_tps m (Epoch b));
  widen m (Epoch b) (ProposeTime b) (CommitTime b).

Definition tps_relay_update (m : Tps) (b : BlockInfoMsg) : outcome Tps :=
  if BlockBodyLength b =? 0 then Ret m else
  let m := extend_tps m (Epoch b) in
  let m := mkTps (tp_epochID m) (excutedTxNum m) (foldl (fun s tx => {[TxHash tx]} ∪ s) (relayTx m) (Relay1Txs b)) (startTime m) (endTime m) in
  m ← add_executed (Epoch b) (f64_div (f64_of_Z (Relay1TxNum b)) f2) m;
  m ← for_each (fun m tx => add_executed (Epoch b) (if decide (TxHash tx ∈ relayTx m) then fhalf else f1) m) m (ExcutedTxs b);
  widen m (Epoch b) (ProposeTime b) (CommitTime b).

(** One step of the loop of [OutputRecord]: the rates so far, the sum, the earliest start and the latest end. *)
Definition tps_epoch (a : list f64 * f64 * Z * Z) (r : f64 * Z * Z) : list f64 * f64 * Z * Z :=
  let '(rates, total, eTime, lTime) := a in
  let '(n, s, f) := r in
  (rates ++ [f64_div n (Seconds (time_Sub f s))], f64_add total n,
   if After eTime s then s else eTime, if After f lTime then f else lTime).

Definition tps_output (now : Z) (m : Tps) : outcome (list f64 * f64) :=
  l ← range_with (excutedTxNum m) (startTime m);
  l ← range_with l (endTime m);
  let '(rates, total, eTime, lTime) := foldl tps_epoch ([], f0, now, 0) l in
  Ret (rates, f64_div total (Seconds (time_Sub lTime eTime))).

Definition TestModule_avgTPS_Broker : MeasureModule Tps := {|
  NewModule := new_tps; UpdateMeasureRecord := tps_broker_update;
  OutputMetricName := "Average_TPS"; OutputMetricTitle := "Average_TPS"; OutputRecord := tps_output |}.

Definition TestModule_avgTPS_Relay : MeasureModule Tps := {|
  NewModule := new_tps; UpdateMeasureRecord := tps_relay_update;
  OutputMetricName := "Average_TPS"; OutputMetricTitle := "Average_TPS"; OutputRecord := tps_output |}.

(** ** What every module promises *)

(** The last epoch a report with transactions named, -1 before the first. *)
Definition last_epoch (e : Z) (b : BlockInfoMsg) : Z := if BlockBodyLength b =? 0 then e else Z.max e (Epoch b).

Class MeasureSafe {M} (mm : MeasureModule M) := {
  measured : M -> Z;
  minv : M -> Prop;
  new_measured : minv NewModule /\ measured NewModule = -1;
  update_measured : forall m b, minv m -> 0 <= Epoch b ->
    exists m', UpdateMeasureRecord m b = Ret m' /\ minv m' /\ measured m' = last_epoch (measured m) b;
  output_measured : forall now m, minv m -> exists r t, OutputRecord now m = Ret (r, t) /\ measured m + 1 <= zlen r
}.

Lemma at_epoch_returns {A} (l : list A) e f : 0 <= e < zlen l -> exists l', at_epoch l e f = Ret l' /\ length l' = length l.
Proof.
  unfold zlen. intros H. destruct (lookup_lt_is_Some_2 l (Z.to_nat e)) as [x Hx]; [lia |]. unfold at_epoch.
  rewrite (idx_returns l e x) by (lia || done). rewrite bind_Ret, set_idx_returns by (unfold zlen; lia).
  eexists. split; [done | apply length_insert].
Qed.

(** A list with one element for each epoch up to [e]. *)
Definition spans {A} (e : Z) (l : list A) : Prop := zlen l = e + 1.

Lemma extend_spans {A} e e' (x : A) l : spans e l -> -1 <= e -> spans (Z.max e e') (extend e e' x l).
Proof. unfold spans, extend, zlen. rewrite length_app, length_replicate. lia. Qed.

Lemma at_epoch_spans {A} e (l : list A) i f : spans e l -> 0 <= i <= e -> exists l', at_epoch l i f = Ret l' /\ spans e l'.
Proof.
  unfold spans. intros Hs Hi. destruct (at_epoch_returns l i f) as (l' & Hr & Hl); [lia |]. exists l'. split; [done |].
  unfold zlen in *. lia.
Qed.

(** Take one step of an update apart: the next write to an epoch returns. *)
Ltac epoch_step :=
  cbv zeta;
  match goal with
  | H : spans ?e ?l |- context [at_epoch ?l ?i ?f] =>
      let l' := fresh "l" in let Hr := fresh "Hr" in let Hs := fresh "Hs" in
      destruct (at_epoch_spans e l i f H) as (l' & Hr & Hs); [lia |]; rewrite Hr; rewrite bind_Ret
  end.

Lemma range_with_spans {A B} e (xs : list A) (ys : list B) : spans e xs -> spans e ys ->
  exists l, range_with xs ys = Ret l /\ length l = length xs.
Proof.
  unfold spans, range_with, zlen. intros Hx Hy. destruct (Nat.ltb_spec (length ys) (length xs)); [lia |].
  eexists. split; [done |]. rewrite length_combine. lia.
Qed.

Definition count_inv (m : TxCount) : Prop := -1 <= tc_epochID m /\ spans (tc_epochID m) (tc_txNum m).

Lemma count_update_ok w m b : count_inv m -> 0 <= Epoch b ->
  exists m', count_update w m b = Ret m' /\ count_inv m' /\ tc_epochID m' = last_epoch (tc_epochID m) b.
Proof.
  intros [He Hs] Hb. unfold count_update, last_epoch. destruct (BlockBodyLength b =? 0); [by exists m |].
  pose proof (extend_spans _ (Epoch b) f0 _ Hs He) as Hx. epoch_step. eexists. split; [done |]. split; [split; cbn; [lia | done] | done].
Qed.

Lemma count_output_ok m : count_inv m -> exists r t, count_output m = Ret (r, t) /\ tc_epochID m + 1 <= zlen r.
Proof. intros [_ Hs]. do 2 eexists. split; [done |]. unfold spans in Hs. lia. Qed.

#[export] Program Instance block_tx_safe : MeasureSafe TestTBlockTxInfo_Broker := {| measured := tc_epochID; minv := count_inv |}.
Next Obligation. by split; [split |]. Qed.
Next Obligation. intros; by apply count_update_ok. Qed.
Next Obligation. intros; by apply count_output_ok. Qed.
#[export] Program Instance count_broker_safe : MeasureSafe TestTxNumCount_Broker := {| measured := tc_epochID; minv := count_inv |}.
Next Obligation. by split; [split |]. Qed.
Next Obligation. intros; by apply count_update_ok. Qed.
Next Obligation. intros; by apply count_output_ok. Qed.
#[export] Program Instance count_relay_safe : MeasureSafe TestTxNumCount_Relay := {| measured := tc_epochID; minv := count_inv |}.
Next Obligation. by split; [split |]. Qed.
Next Obligation. intros; by apply count_update_ok. Qed.
Next Obligation. intros; by apply count_output_ok. Qed.

Definition rate_inv (e : Z) (m : CrossRate) : Prop :=
  cr_epochID m = e /\ -1 <= e /\ spans e (totTxNum m) /\ spans e (totCrossTxNum m).

Lemma rate_loop (f : CrossRate -> Transaction -> outcome CrossRate) e l m :
  (forall m tx, rate_inv e m -> exists m', f m tx = Ret m' /\ rate_inv e m') -> rate_inv e m ->
  exists m', for_each f m l = Ret m' /\ rate_inv e m'.
Proof. intros Hf Hm. apply (for_each_returns (rate_inv e)); auto. Qed.

Lemma relay_first_ok e i m tx : 0 <= i <= e -> rate_inv e m -> exists m', relay_first i m tx = Ret m' /\ rate_inv e m'.
Proof. intros Hi (He & He1 & Ht & Hc). unfold relay_first. epoch_step. epoch_step. eexists. split; [done |]. by repeat split. Qed.

Lemma relay_executed_ok e i m tx : 0 <= i <= e -> rate_inv e m -> exists m', relay_executed i m tx = Ret m' /\ rate_inv e m'.
Proof.
  intros Hi (He & He1 & Ht & Hc). unfold relay_executed. case_decide; repeat epoch_step; (eexists; split; [done |]; by repeat split).
Qed.

Lemma cross_broker_ok m b : rate_inv (cr_epochID m) m -> 0 <= Epoch b ->
  exists m', cross_broker_update m b = Ret m' /\ rate_inv (cr_epochID m') m' /\ cr_epochID m' = last_epoch (cr_epochID m) b.
Proof.
  intros (_ & He & Ht & Hc) Hb. unfold cross_broker_update, last_epoch. destruct (BlockBodyLength b =? 0); [by exists m |].
  pose proof (extend_spans _ (Epoch b) f0 _ Ht He) as Hx. pose proof (extend_spans _ (Epoch b) f0 _ Hc He) as Hy.
  repeat epoch_step. eexists. split; [done |]. split; [| done]. repeat split; cbn; [lia | done | done].
Qed.

Lemma cross_relay_ok m b : rate_inv (cr_epochID m) m -> 0 <= Epoch b ->
  exists m', cross_relay_update m b = Ret m' /\ rate_inv (cr_epochID m') m' /\ cr_epochID m' = last_epoch (cr_epochID m) b.
Proof.
  intros (_ & He & Ht & Hc) Hb. unfold cross_relay_update, last_epoch. destruct (BlockBodyLength b =? 0); [by exists m |].
  set (e := Z.max (cr_epochID m) (Epoch b)). set (m0 := mkCrossRate e _ _ _ _ _).
  assert (rate_inv e m0) as H0.
  { split; [done |]. split; [lia |]. split; by apply extend_spans. }
  destruct (rate_loop (relay_first (Epoch b)) e (Relay1Txs b) m0) as (m1 & -> & H1); [intros; apply relay_first_ok; [lia | done] | done |].
  destruct (rate_loop (relay_executed (Epoch b)) e (ExcutedTxs b) m1) as (m2 & Hr & H2); [intros; apply relay_executed_ok; [lia | done] | done |].
  rewrite bind_Ret, Hr. exists m2. split; [done |]. pose proof H2 as (He2 & _). rewrite He2. by split.
Qed.

Lemma cross_output_ok m : rate_inv (cr_epochID m) m -> exists r t, cross_output m = Ret (r, t) /\ cr_epochID m + 1 <= zlen r.
Proof.
  intros (_ & He & Ht & Hc). unfold cross_output. destruct (range_with_spans _ _ _ Ht Hc) as (l & -> & Hl). rewrite bind_Ret.
  do 2 eexists. split; [done |]. unfold spans, zlen in *. rewrite length_app, length_map, Hl. lia.
Qed.

#[export] Program Instance cross_broker_safe : MeasureSafe TestCrossTxRate_Broker :=
  {| measured := cr_epochID; minv m := rate_inv (cr_epochID m) m |}.
Next Obligation. done. Qed.
Next Obligation. intros; by apply cross_broker_ok. Qed.
Next Obligation. intros; by apply cross_output_ok. Qed.
#[export] Program Instance cross_relay_safe : MeasureSafe TestCrossTxRate_Relay :=
  {| measured := cr_epochID; minv m := rate_inv (cr_epochID m) m |}.
Next Obligation. done. Qed.
Next Obligation. intros; by apply cross_relay_ok. Qed.
Next Obligation. intros; by apply cross_output_ok. Qed.

Definition lat_inv (e : Z) (m : Latency) : Prop :=
  la_epochID m = e /\ -1 <= e /\ spans e (totTxLatencyEpoch m) /\ spans e (la_txNum m).

Lemma extend_latency_ok m b : lat_inv (la_epochID m) m -> lat_inv (Z.max (la_epochID m) b) (extend_latency m b).
Proof. intros (_ & He & Ht & Hn). split; [done |]. split; [lia |]. split; by apply extend_spans. Qed.

Lemma add_latency_ok e i c m tx : 0 <= i <= e -> lat_inv e m -> exists m', add_latency i c m tx = Ret m' /\ lat_inv e m'.
Proof.
  intros Hi (He & He1 & Ht & Hn). unfold add_latency. destruct (IsZero _); [by exists m |]. repeat epoch_step.
  eexists. split; [done |]. by repeat split.
Qed.

Lemma add_second_half_ok e i p m tx : 0 <= i <= e -> lat_inv e m -> exists m', add_second_half i p m tx = Ret m' /\ lat_inv e m'.
Proof.
  intros Hi (He & He1 & Ht & Hn). unfold add_second_half. destruct (_ !! _); [| by exists m]. epoch_step.
  eexists. split; [done |]. by repeat split.
Qed.

Lemma latency_relay_ok m b : lat_inv (la_epochID m) m -> 0 <= Epoch b ->
  exists m', latency_relay_update m b = Ret m' /\ lat_inv (la_epochID m') m' /\ la_epochID m' = last_epoch (la_epochID m) b.
Proof.
  intros Hm Hb. unfold latency_relay_update, last_epoch. destruct (BlockBodyLength b =? 0); [by exists m |].
  pose proof (extend_latency_ok m (Epoch b) Hm) as H0.
  destruct (for_each_returns _ (add_latency (Epoch b) (CommitTime b)) _ (ExcutedTxs b) H0) as (m1 & Hr & H1);
    [intros; apply add_latency_ok; [lia | done] |].
  exists m1. pose proof H1 as (-> & _). by split.
Qed.

Lemma latency_broker_ok m b : lat_inv (la_epochID m) m -> 0 <= Epoch b ->
  exists m', latency_broker_update m b = Ret m' /\ lat_inv (la_epochID m') m' /\ la_epochID m' = last_epoch (la_epochID m) b.
Proof.
  intros Hm Hb. unfold latency_broker_update, last_epoch. destruct (BlockBodyLength b =? 0); [by exists m |].
  pose proof (extend_latency_ok m (Epoch b) Hm) as H0.
  destruct (for_each_returns _ (add_latency (Epoch b) (CommitTime b)) _ (ExcutedTxs b) H0) as (m1 & -> & H1);
    [intros; apply add_latency_ok; [lia | done] |].
  rewrite bind_Ret. cbv zeta. set (m2 := mkLatency _ _ _ _).
  assert (lat_inv (Z.max (la_epochID m) (Epoch b)) m2) as H2 by exact H1.
  destruct (for_each_returns _ (add_second_half (Epoch b) (ProposeTime b)) _ (Broker2Txs b) H2) as (m3 & Hr & H3);
    [intros; apply add_second_half_ok; [lia | done] |].
  exists m3. pose proof H3 as (-> & _). by split.
Qed.

Lemma latency_output_ok m : lat_inv (la_epochID m) m -> exists r t, latency_output m = Ret (r, t) /\ la_epochID m + 1 <= zlen r.
Proof.
  intros (_ & He & Ht & Hc). unfold latency_output. destruct (range_with_spans _ _ _ Ht Hc) as (l & -> & Hl). rewrite bind_Ret.
  do 2 eexists. split; [done |]. unfold spans, zlen in *. rewrite length_map, Hl. lia.
Qed.

#[export] Program Instance tcl_broker_safe : MeasureSafe TestModule_TCL_Broker :=
  {| measured := la_epochID; minv m := lat_inv (la_epochID m) m |}.
Next Obligation. done. Qed.
Next Obligation. intros; by apply latency_broker_ok. Qed.
Next Obligation. intros; by apply latency_output_ok. Qed.
#[export] Program Instance tcl_relay_safe : MeasureSafe TestModule_TCL_Relay :=
  {| measured := la_epochID; minv m := lat_inv (la_epochID m) m |}.
Next Obligation. done. Qed.
Next Obligation. intros; by apply latency_relay_ok. Qed.
Next Obligation. intros; by apply latency_output_ok. Qed.

Definition tps_inv (e : Z) (m : Tps) : Prop :=
  tp_epochID m = e /\ -1 <= e /\ spans e (excutedTxNum m) /\ spans e (startTime m) /\ spans e (endTime m).

Lemma extend_tps_ok m b : tps_inv (tp_epochID m) m -> tps_inv (Z.max (tp_epochID m) b) (extend_tps m b).
Proof. intros (_ & He & Hx & Hs & Ht). split; [done |]. split; [lia |]. split; [| split]; by apply extend_spans. Qed.

Lemma add_executed_ok e i x m : 0 <= i <= e -> tps_inv e m -> exists m', add_executed i x m = Ret m' /\ tps_inv e m'.
Proof. intros Hi (He & He1 & Hx & Hs & Ht). unfold add_executed. epoch_step. eexists. split; [done |]. by repeat split. Qed.

Lemma widen_ok e i s t m : 0 <= i <= e -> tps_inv e m -> exists m', widen m i s t = Ret m' /\ tps_inv e m'.
Proof. intros Hi (He & He1 & Hx & Hs & Ht). unfold widen. repeat epoch_step. eexists. split; [done |]. by repeat split. Qed.

Lemma epoch_in e i : 0 <= i -> 0 <= i <= Z.max e i.
Proof. lia. Qed.

Lemma tps_broker_ok m b : tps_inv (tp_epochID m) m -> 0 <= Epoch b ->
  exists m', tps_broker_update m b = Ret m' /\ tps_inv (tp_epochID m') m' /\ tp_epochID m' = last_epoch (tp_epochID m) b.
Proof.
  intros Hm Hb. unfold tps_broker_update, last_epoch. destruct (BlockBodyLength b =? 0); [by exists m |].
  pose proof (extend_tps_ok m (Epoch b) Hm) as H0.
  destruct (add_executed_ok _ (Epoch b) (broker_weight b) _ (epoch_in _ _ Hb) H0) as (m1 & -> & H1). rewrite bind_Ret.
  destruct (widen_ok _ (Epoch b) (ProposeTime b) (CommitTime b) _ (epoch_in _ _ Hb) H1) as (m2 & Hr & H2).
  exists m2. pose proof H2 as (-> & _). by split.
Qed.

Lemma tps_relay_ok m b : tps_inv (tp_epochID m) m -> 0 <= Epoch b ->
  exists m', tps_relay_update m b = Ret m' /\ tps_inv (tp_epochID m') m' /\ tp_epochID m' = last_epoch (tp_epochID m) b.
Proof.
  intros Hm Hb. unfold tps_relay_update, last_epoch. destruct (BlockBodyLength b =? 0); [by exists m |].
  pose proof (extend_tps_ok m (Epoch b) Hm) as H0. cbv zeta. set (m0 := mkTps _ _ _ _ _).
  assert (tps_inv (Z.max (tp_epochID m) (Epoch b)) m0) as H0' by exact H0.
  destruct (add_executed_ok _ (Epoch b) (f64_div (f64_of_Z (Relay1TxNum b)) f2) _ (epoch_in _ _ Hb) H0') as (m1 & -> & H1). rewrite bind_Ret.
  match goal with |- context [for_each ?f m1 ?l] =>
    destruct (for_each_returns _ f m1 l H1) as (m2 & -> & H2); [intros; apply add_executed_ok; [lia | done] |] end.
  rewrite bind_Ret. destruct (widen_ok _ (Epoch b) (ProposeTime b) (CommitTime b) _ (epoch_in _ _ Hb) H2) as (m3 & Hr & H3).
  exists m3. pose proof H3 as (-> & _). by split.
Qed.

Lemma tps_rates l : forall a, length (fst (fst (fst (foldl tps_epoch a l)))) = (length (fst (fst (fst a))) + length l)%nat.
Proof.
  induction l as [| [[n s] f] l IH]; intros [[[r t] e] z]; cbn [foldl length fst]; [lia |]. rewrite IH. cbn [tps_epoch fst].
  rewrite length_app. cbn. lia.
Qed.

Lemma tps_output_ok now m : tps_inv (tp_epochID m) m -> exists r t, tps_output now m = Ret (r, t) /\ tp_epochID m + 1 <= zlen r.
Proof.
  intros (_ & He & Hx & Hs & Ht). unfold tps_output. destruct (range_with_spans _ _ _ Hx Hs) as (l & -> & Hl). rewrite bind_Ret.
  assert (spans (tp_epochID m) l) as Hl' by (unfold spans, zlen in *; lia).
  destruct (range_with_spans _ _ _ Hl' Ht) as (l2 & -> & Hl2). rewrite bind_Ret.
  pose proof (tps_rates l2 ([], f0, now, 0)) as Hr. destruct (foldl tps_epoch _ l2) as [[[r t] e] z] eqn:Ef. cbn in Hr.
  do 2 eexists. split; [done |]. unfold spans, zlen in *. lia.
Qed.

#[export] Program Instance tps_broker_safe : MeasureSafe TestModule_avgTPS_Broker :=
  {| measured := tp_epochID; minv m := tps_inv (tp_epochID m) m |}.
Next Obligation. done. Qed.
Next Obligation. intros; by apply tps_broker_ok. Qed.
Next Obligation. intros; by apply tps_output_ok. Qed.
#[export] Program Instance tps_relay_safe : MeasureSafe TestModule_avgTPS_Relay :=
  {| measured := tp_epochID; minv m := tps_inv (tp_epochID m) m |}.
Next Obligation. done. Qed.
Next Obligation. intros; by apply tps_relay_ok. Qed.
Next Obligation. intros; by apply tps_output_ok. Qed.

(** ** Theorems *)

Lemma run_measured {M} {mm : MeasureModule M} {S : MeasureSafe mm} bs : forall m, minv m -> Forall (fun b => 0 <= Epoch b) bs ->
  exists m', for_each UpdateMeasureRecord m bs = Ret m' /\ minv m' /\ measured m' = foldl last_epoch (measured m) bs.
Proof.
  induction bs as [| b bs IH]; intros m Hm Hb; [by exists m |]. apply Forall_cons in Hb as [Hb Hbs].
  destruct (update_measured m b Hm Hb) as (m1 & Hr & H1 & He). cbn [for_each foldl]. rewrite Hr, bind_Ret, <- He. by apply IH.
Qed.


Lemma After_min t u : (if After t u then u else t) = Z.min t u.
Proof. unfold After. destruct (Z.ltb_spec u t); lia. Qed.

Lemma After_max t u : (if After t u then t else u) = Z.max u t.
Proof. unfold After. destruct (Z.ltb_spec u t); lia. Qed.

(** The loop of [OutputRecord] of the throughput, by its parts. *)
Lemma tps_epochs l : forall r t e z,
  foldl tps_epoch (r, t, e, z) l =
  (r ++ map (fun '(n, s, f) => f64_div n (Seconds (time_Sub f s))) l, foldl f64_add t (map (fun '(n, _, _) => n) l),
   foldl Z.min e (map (fun '(_, s, _) => s) l), foldl Z.max z (map (fun '(_, _, f) => f) l)).
Proof.
  induction l as [| [[n s] f] l IH]; intros r t e z; cbn [foldl map]; [by rewrite app_nil_r |].
  cbn [tps_epoch]. rewrite IH, After_min, After_max, <- app_assoc. done.
Qed.

Lemma combine_starts {A B C} (a : list A) (b : list B) (c : list C) : length b = length a -> length c = length a ->
  map (fun '(_, s, _) => s) (combine (combine a b) c) = b /\ map (fun '(_, _, f) => f) (combine (combine a b) c) = c.
Proof.
  revert b c. induction a as [| x a IH]; intros [| y b] [| z c] Hb Hc; try discriminate; [done |]. injection Hb as Hb. injection Hc as Hc.
  cbn [combine map]. destruct (IH b c Hb Hc) as [-> ->]. done.
Qed.

(** The total throughput divides by the time from the earliest start to the latest end. *)
Lemma tps_total now m : tps_inv (tp_epochID m) m ->
  exists r n, tps_output now m = Ret (r, f64_div n (Seconds (time_Sub (foldl Z.max 0 (endTime m)) (foldl Z.min now (startTime m))))).
Proof.
  intros (_ & He & Hx & Hs & Ht). unfold tps_output, range_with. unfold spans, zlen in *.
  destruct (Nat.ltb_spec (length (startTime m)) (length (excutedTxNum m))); [lia |]. rewrite bind_Ret.
  destruct (Nat.ltb_spec (length (endTime m)) (length (combine (excutedTxNum m) (startTime m)))) as [Hlt | _];
    [rewrite length_combine in Hlt; lia |].
  rewrite bind_Ret, tps_epochs. destruct (combine_starts (excutedTxNum m) (startTime m) (endTime m)) as [-> ->]; [lia.. |].
  eauto.
Qed.

Lemma foldl_min_le l : forall a : Z, foldl Z.min a l <= a /\ (forall x, x ∈ l -> foldl Z.min a l <= x).
Proof.
  induction l as [| y l IH]; intros a; cbn [foldl]; [split; [lia | by intros x ?%not_elem_of_nil] |].
  destruct (IH (Z.min a y)) as [H1 H2]. split; [lia |]. intros x [-> | Hx]%elem_of_cons; [lia | by apply H2].
Qed.

Lemma foldl_max_ge l : forall a : Z, a <= foldl Z.max a l /\ (forall x, x ∈ l -> x <= foldl Z.max a l).
Proof.
  induction l as [| y l IH]; intros a; cbn [foldl]; [split; [lia | by intros x ?%not_elem_of_nil] |].
  destruct (IH (Z.max a y)) as [H1 H2]. split; [lia |]. intros x [-> | Hx]%elem_of_cons; [lia | by apply H2].
Qed.

(** An epoch in which no block was reported has the zero time as its start, and the total throughput counts from
    there: once any block was committed 2^63 nanoseconds or more after the zero time, which holds from the year
    293 on, the divisor is the greatest duration there is, whatever the blocks say. *)
Theorem skipped_epoch_ruins_total now m f : tps_inv (tp_epochID m) m -> 0 ∈ startTime m -> f ∈ endTime m -> 2 ^ 63 <= f ->
  exists r n, tps_output now m = Ret (r, f64_div n (Seconds (2 ^ 63 - 1))).
Proof.
  intros Hm H0 Hf Hbig. destruct (tps_total now m Hm) as (r & n & Ho). exists r, n. rewrite Ho. do 4 f_equal. unfold time_Sub.
  pose proof (proj2 (foldl_min_le (startTime m) now) 0 H0). pose proof (proj2 (foldl_max_ge (endTime m) 0) f Hf). lia.
Qed.

(** Without one block the ratio of the cross-shard transactions is no number. *)
Theorem untouched_ratio_nan : cross_output new_rate = Ret ([f0; f0], S754_nan).
Proof. vm_compute. reflexivity. Qed.

(** ** Reports of two epochs, with one between them in which nothing was produced *)
Module Reports.

Definition report (e propose commit : Z) : BlockInfoMsg := mkBlockInfo 2 [] e propose commit 0 0 [] 1 [] 1 [] [].
Definition now : Z := 63870000000 * 1000000000.
Definition reports : list BlockInfoMsg := [report 0 now (now + 1000000000); report 2 (now + 1000000000) (now + 3000000000)].
Definition measured_tps : Tps :=
  match for_each tps_broker_update new_tps reports with Ret m => m | Panic _ => new_tps end.


(** Two transactions in three seconds are reported as two in 292 years. *)
Lemma skipped_epoch_witness : exists r n, tps_output now measured_tps = Ret (r, f64_div n (Seconds (2 ^ 63 - 1))).
Proof.
  apply (skipped_epoch_ruins_total now measured_tps (now + 3000000000)).
  - repeat split; vm_compute; discriminate.
  - apply (list_elem_of_lookup_2 _ 1%nat). vm_compute. reflexivity.
  - apply (list_elem_of_lookup_2 _ 2%nat). vm_compute. reflexivity.
  - vm_compute. discriminate.
Defined.

End Reports.
