(* ===== verification/Chain.v ===== *)
(** * The block chain of a node and its storage

    Models [storage/storage.go] (the bolt database: blocks, headers, newest hash,
    contract results) and the block operations of [chain/blockchain.go]: executing the
    transactions of a block on the token ledger and the account state
    ([GetUpdateStatusTrie]), building a block from the pool ([GenerateBlock]),
    appending one ([AddBlock]), opening a chain ([NewBlockChain]) and the ancestor
    lookup [GetHashFn].

    Arguments: the gob encodings and the hash of a header ([Codec]); the trie database
    ([World]), seen as which roots open, the accounts a root holds, and the root a
    commit gives. Database writes are taken to succeed. The lock map that
    [GetUpdateStatusTrie] spins on is free in a run without concurrent executions, and
    is left out. *)
From Stdlib Require Import ZArith Lia.
From stdpp Require Import base gmap strings list fin_maps pretty.
From S2P Require Import Prelude Utils JournalTypes Core Ledger AccessList StateDB StateDBSim StateDBProofs Execution.

(** ** Libraries *)

(** [encoding/gob] and [crypto/sha256] on blocks and headers; [enc] is the type of
    encoded values. *)
Class Codec := {
  enc : Type;
  enc_block : Block -> enc;
  dec_block : enc -> option Block;
  enc_header : BlockHeader -> enc;
  dec_header : enc -> option BlockHeader;
  header_hash : BlockHeader -> string
}.

(** What the code relies on: decoding gives back what was encoded, a hash is never
    empty and headers of different heights have different hashes. *)
Class CodecOk (cd : Codec) : Prop := {
  block_roundtrip : forall b, dec_block (enc_block b) = Some b;
  header_roundtrip : forall h, dec_header (enc_header h) = Some h;
  hash_nonempty : forall h, header_hash h <> "";
  hash_height : forall h1 h2, header_hash h1 = header_hash h2 -> Number h1 = Number h2
}.

(** The trie database: which roots open, what they hold, the root of the empty trie,
    the root a state commits to and the root of the transaction trie. *)
Class World := {
  OpenTrie : string -> bool;
  reader_at : string -> StateReader;
  CommitRoot : string -> StateDB -> string;
  empty_root : string;
  GetTxTreeRoot : list Transaction -> string
}.

(** ** [storage.go] *)

Section Storage.
Context `{cd : Codec}.

Record Storage := mkStorage {
  blockBucket : gmap string enc;
  blockHeaderBucket : gmap string enc;
  newestBlockHash : option string;
  contractResBucket : gmap string (list Z)
}.

Definition NewStorage : Storage := mkStorage ∅ ∅ None ∅.

(** [Bucket.Put] refuses an empty key. *)
Definition Put {A} (k : string) (v : A) (m : gmap string A) : outcome (gmap string A) :=
  if decide (k = "") then Panic "log.Panic" else Ret (<[k := v]> m).

Definition UpdateNewestBlock (s : Storage) (newestbhash : string) : Storage :=
  mkStorage (blockBucket s) (blockHeaderBucket s) (Some newestbhash) (contractResBucket s).

Definition AddBlockHeader (s : Storage) (blockhash : string) (bh : BlockHeader) : outcome Storage :=
  m ← Put blockhash (enc_header bh) (blockHeaderBucket s);
  Ret (mkStorage (blockBucket s) m (newestBlockHash s) (contractResBucket s)).

Definition AddContractRes (s : Storage) (uuid : string) (res : list Z) : outcome Storage :=
  m ← Put uuid res (contractResBucket s);
  Ret (mkStorage (blockBucket s) (blockHeaderBucket s) (newestBlockHash s) m).

Definition GetContractRes (s : Storage) (uuid : string) : list Z + string :=
  match contractResBucket s !! uuid with
  | None => inr "the contract res is not existed"
  | Some r => inl r
  end.

Definition Storage_AddBlock (s : Storage) (b : Block) : outcome Storage :=
  m ← Put (Hash b) (enc_block b) (blockBucket s);
  s1 ← AddBlockHeader (mkStorage m (blockHeaderBucket s) (newestBlockHash s) (contractResBucket s))
         (Hash b) (Header b);
  Ret (UpdateNewestBlock s1 (Hash b)).

(** A value that does not decode panics ([DecodeBH], [DecodeB]). *)
Definition decoded {A} (o : option A) : outcome (A + string) :=
  match o with Some a => Ret (inl a) | None => Panic "log.Panic" end.

Definition GetBlockHeader (s : Storage) (bhash : string) : outcome (BlockHeader + string) :=
  match blockHeaderBucket s !! bhash with
  | None => Ret (inr "the block is not existed")
  | Some e => decoded (dec_header e)
  end.

Definition GetBlock (s : Storage) (bhash : string) : outcome (Block + string) :=
  match blockBucket s !! bhash with
  | None => Ret (inr "the block is not existed")
  | Some e => decoded (dec_block e)
  end.

Definition GetNewestBlockHash (s : Storage) : string + string :=
  match newestBlockHash s with
  | None => inr "cannot find the newest block hash"
  | Some h => inl h
  end.
End Storage.
#[global] Arguments Storage cd : clear implicits.

(** ** The chain *)

Section Chain.
Context `{cfg : Config} `{cd : Codec} `{wd : World} `{env : NodeEnv} `{vm : EVM}.

(** [root] is [global2.Root]; [GlobalStateDB] is [global3.GlobalStateDB] with the root
    it was opened on; [pmap] is the process's partition map. *)
Record BlockChain := mkChain {
  CurrentBlock : Block;
  Store : Storage cd;
  Txpool : TxPool;
  ledger : BalanceMap;
  root : string;
  GlobalStateDB : option (string * StateDB);
  pmap : PartitionMap;
  BlockSize : Z
}.

Definition set_pool (bc : BlockChain) (p : TxPool) : BlockChain :=
  mkChain (CurrentBlock bc) (Store bc) p (ledger bc) (root bc) (GlobalStateDB bc) (pmap bc) (BlockSize bc).

(** [SendTx2Pool] *)
Definition SendTx2Pool (clock : nat -> Z) (bc : BlockChain) (txs : list Transaction) : BlockChain :=
  set_pool bc (AddTxs2Pool clock (Txpool bc) txs).

(** With no state database ([state.New] failed), a transaction panics when it reads or
    writes the state. *)
Definition entry_uses_state (e : JournalEntry) : bool :=
  match e with
  | TouchChange _ _ | AddLogChange _ _ | AccessListAddAccountChange _ _ | AccessListAddSlotChange _ _ _ => false
  | _ => true
  end.

Definition exe_without_state (pm : PartitionMap) (tx : Transaction) : outcome unit :=
  let nil_if (b : bool) : outcome unit := if b then Panic "nil dereference" else Ret tt in
  if IsContract tx then nil_if ((NodeID =? 0) || existsb (fun w => entry_uses_state (OriginalObj w)) (Log tx))
  else if IsAllocatedSender tx || IsAllocatedRecipent tx then nil_if true
  else
    _ ← (if Relayed tx then Ret tt
         else here ← Get_PartitionMap pm (Sender tx);
              nil_if (((here =? ShardID) || HasBroker tx) && negb (Isbrokertx2 tx)));
    there ← Get_PartitionMap pm (Recipient tx);
    nil_if (((there =? ShardID) || HasBroker tx) && negb (Isbrokertx1 tx)).

(** The state of the loop over the transactions of a block. *)
Record ExecState := mkExec {
  ex_ledger : BalanceMap;
  ex_db : option (string * StateDB);
  ex_store : Storage cd;
  ex_txs : list Transaction;
  ex_msgs : list ExeMsg
}.

Definition exec_tx (now : Z) (pm : PartitionMap) (bh : BlockHeader) (e : ExecState) (tx : Transaction)
  : outcome ExecState :=
  m ← dealAccountBalance (ex_ledger e) tx;
  match ex_db e with
  | None =>
      _ ← exe_without_state pm tx;
      Ret (mkExec m None (ex_store e) (ex_txs e ++ [tx]) (ex_msgs e))
  | Some (r, s) =>
      x ← ExeTx (rd := reader_at r) now pm s bh (zlen (ex_txs e)) tx;
      st ← (match er_stored x with
            | Some (uuid, res) => AddContractRes (ex_store e) uuid res
            | None => Ret (ex_store e)
            end);
      Ret (mkExec m (Some (r, er_state x)) st (ex_txs e ++ [er_tx x]) (ex_msgs e ++ er_msgs x))
  end.

(** [GetUpdateStatusTrie]: the transactions run on the ledger and on the account state
    ([state.New] reuses the global database when there is one); the root moves only
    when this call opened the state database ([sn == "new"]). The result carries the
    executed transactions (the leader fills in their logs) and the messages sent. *)
Definition GetUpdateStatusTrie (now : Z) (bc : BlockChain) (txs : list Transaction) (blockHeader : BlockHeader)
  : outcome (BlockChain * list Transaction * list ExeMsg) :=
  let '(db, sn_new) :=
    match GlobalStateDB bc with
    | Some g => (Some g, false)
    | None => if OpenTrie (root bc) then (Some (root bc, New_StateDB), true) else (None, false)
    end in
  e ← for_each (exec_tx now (pmap bc) blockHeader) (mkExec (ledger bc) db (Store bc) [] []) txs;
  let root' := match ex_db e with Some (r, s) => if sn_new : bool then CommitRoot r s else root bc | None => root bc end in
  Ret (mkChain (CurrentBlock bc) (ex_store e) (Txpool bc) (ex_ledger e) root'
         (if sn_new : bool then None else ex_db e) (pmap bc) (BlockSize bc), ex_txs e, ex_msgs e).

Definition GenerateBlock (now : Z) (NodeAccount : string) (bc : BlockChain)
  : outcome (BlockChain * Block * list ExeMsg) :=
  let '(pool, txs) := PackTxs (Txpool bc) (BlockSize bc) in
  coinbase ← address_of_hex NodeAccount;
  let bh0 := mkBlockHeader (Hash (CurrentBlock bc)) "" "" (u64 (Number (Header (CurrentBlock bc)) + 1)) now 0 ""
               coinbase "" 1000000000 in
  r ← GetUpdateStatusTrie now (set_pool bc pool) txs bh0;
  let '(bc1, txs1, msgs) := r in
  let bh := mkBlockHeader (ParentBlockHash bh0) (root bc1) (GetTxTreeRoot txs1) (Number bh0) (HTime bh0) 0
              (ParentHash bh0) (Coinbase bh0) (root bc1) (GasLimit bh0) in
  let b := NewBlock bh txs1 in
  Ret (mkChain (CurrentBlock bc1) (Store bc1) (Txpool bc1) (ledger bc1) (root bc1) None (pmap bc1) (BlockSize bc1),
       mkBlock bh (Body b) (header_hash bh), msgs).

Definition NewGenisisBlock : Block :=
  let bh := mkBlockHeader "" empty_root (GetTxTreeRoot []) 0 0 0 "" 0 "" 0 in
  mkBlock bh [] (header_hash bh).

(** [AddBlock] opens the trie of [global2.Root], the node's own root, and runs the
    block's transactions only when that fails. *)
Definition AddBlock (now : Z) (bc : BlockChain) (b : Block) : outcome (BlockChain * list ExeMsg) :=
  r ← (if OpenTrie (root bc) then Ret (bc, Body b, []) else GetUpdateStatusTrie now bc (Body b) (Header b));
  let '(bc1, body, msgs) := r in
  let b1 := mkBlock (Header b) body (Hash b) in
  s ← Storage_AddBlock (Store bc1) b1;
  Ret (mkChain b1 s (Txpool bc1) (ledger bc1) (root bc1) (GlobalStateDB bc1) (pmap bc1) (BlockSize bc1), msgs).

Definition AddGenisisBlock (s : Storage cd) (gb : Block) : outcome (Storage cd * Block) :=
  s1 ← Storage_AddBlock s gb;
  match GetNewestBlockHash s1 with
  | inr _ => Panic "log.Panic"
  | inl newestHash =>
      r ← GetBlock s1 newestHash;
      match r with
      | inr _ => Panic "log.Panic"
      | inl curb => Ret (s1, curb)
      end
  end.

(** [NewBlockChain] on a storage; [blocksize] is the configured block size and
    [root0] the value of [global2.Root] in a process that finds an existing chain. *)
Definition NewBlockChain (s : Storage cd) (blocksize : Z) (root0 : string) : outcome BlockChain :=
  match GetNewestBlockHash s with
  | inr _ =>
      r ← AddGenisisBlock s NewGenisisBlock;
      Ret (mkChain (snd r) (fst r) NewTxPool new_balance_map empty_root None ∅ blocksize)
  | inl curHash =>
      r ← GetBlock s curHash;
      match r with
      | inr _ => Panic "log.Panic"
      | inl curb =>
          if OpenTrie (StateRoot (Header curb))
          then Ret (mkChain curb s NewTxPool new_balance_map root0 None ∅ blocksize)
          else Panic "log.Panic"
      end
  end.

(** [GetHeader] and the closure [GetHashFn] returns; the loop follows the parent
    hashes, with fuel. *)
Definition GetHeader (s : Storage cd) (hash : string) : outcome (option BlockHeader) :=
  r ← GetBlock s hash;
  Ret (match r with inl b => Some (Header b) | inr _ => None end).

Fixpoint hash_loop (fuel : nat) (s : Storage cd) (n : Z) (lastKnownHash : string) : outcome string :=
  match fuel with
  | O => Panic "out of fuel"
  | S fuel' =>
      h ← GetHeader s lastKnownHash;
      match h with
      | None => Ret ""
      | Some header =>
          if n =? u64 (Number header - 1) then Ret (ParentHash header)
          else hash_loop fuel' s n (ParentHash header)
      end
  end.

Definition GetHashFn (fuel : nat) (ref : BlockHeader) (s : Storage cd) (n : Z) : outcome string :=
  if Number ref <=? n then Ret "" else hash_loop fuel s n (ParentHash ref).


(** ** Storage: what is written is read back *)

Lemma Storage_AddBlock_spec (s : Storage cd) b :
  CodecOk cd -> Hash b <> "" ->
  exists s', Storage_AddBlock s b = Ret s' /\
    GetNewestBlockHash s' = inl (Hash b) /\ GetBlock s' (Hash b) = Ret (inl b) /\
    GetBlockHeader s' (Hash b) = Ret (inl (Header b)) /\
    (forall h, h <> Hash b -> GetBlock s' h = GetBlock s h /\ GetBlockHeader s' h = GetBlockHeader s h) /\
    contractResBucket s' = contractResBucket s.
Proof.
  intros Hc Hh. unfold Storage_AddBlock, AddBlockHeader, Put.
  rewrite decide_False by done. cbn. rewrite decide_False by done. cbn.
  eexists. split; [reflexivity |]. unfold GetNewestBlockHash, GetBlock, GetBlockHeader. cbn.
  rewrite !lookup_insert_eq, block_roundtrip, header_roundtrip. split_and!; try done.
  intros h Hne. by rewrite !lookup_insert_ne.
Qed.

(** ** The loop over a block's transactions *)

(** Execution only fills in the logs. *)
Definition same_but_log (t u : Transaction) : Prop := exists l, u = tx_set_log l t.

Lemma same_but_log_refl t : same_but_log t t.
Proof. exists (Log t). by destruct t. Qed.

Lemma ExeTx_tx `{rd : StateReader} now pm s bh i tx x :
  ExeTx now pm s bh i tx = Ret x -> same_but_log tx (er_tx x).
Proof.
  unfold ExeTx. destruct (IsContract tx).
  - destruct (NodeID =? 0).
    + unfold exe_contract. intros H. apply bind_Ret_inv in H as (price & _ & H).
      destruct (Snapshot s) as [s1 snap]. apply bind_Ret_inv in H as (h & _ & H).
      apply bind_Ret_inv in H as ([s2 res] & _ & H). apply bind_Ret_inv in H as (br & _ & H).
      destruct res.
      * apply bind_Ret_inv in H as (l & _ & [= <-]). by exists l.
      * apply bind_Ret_inv in H as (rv & _ & [= <-]). by exists [].
    + intros H. apply bind_Ret_inv in H as (s1 & _ & [= <-]). apply same_but_log_refl.
  - intros H. apply bind_Ret_inv in H as (s1 & _ & [= <-]). apply same_but_log_refl.
Qed.

Lemma exec_loop_spec now pm bh txs e e' :
  for_each (exec_tx now pm bh) e txs = Ret e' ->
  deal_block (ex_ledger e) txs = Ret (ex_ledger e') /\
  blockBucket (ex_store e') = blockBucket (ex_store e) /\
  blockHeaderBucket (ex_store e') = blockHeaderBucket (ex_store e) /\
  newestBlockHash (ex_store e') = newestBlockHash (ex_store e) /\
  exists l, ex_txs e' = ex_txs e ++ l /\ Forall2 same_but_log txs l.
Proof.
  revert e. induction txs as [| tx txs IH]; intros e Hr; cbn in Hr.
  - injection Hr as <-. split_and!; [done.. |]. exists []. rewrite app_nil_r. done.
  - apply bind_Ret_inv in Hr as (e1 & H1 & Hr). destruct (IH e1 Hr) as (Hd & Hb1 & Hb2 & Hb3 & l & Hl & Hf).
    unfold exec_tx in H1. apply bind_Ret_inv in H1 as (m & Hm & H1). unfold deal_block in *. cbn. rewrite Hm. cbn.
    assert (Hx : exists tx', e1 = mkExec m (ex_db e1) (ex_store e1) (ex_txs e ++ [tx']) (ex_msgs e1) /\ same_but_log tx tx' /\
      blockBucket (ex_store e1) = blockBucket (ex_store e) /\
      blockHeaderBucket (ex_store e1) = blockHeaderBucket (ex_store e) /\
      newestBlockHash (ex_store e1) = newestBlockHash (ex_store e)).
    { destruct (ex_db e) as [[r s] |].
      - apply bind_Ret_inv in H1 as (x & Hx & H1). apply bind_Ret_inv in H1 as (st & Hst & [= <-]).
        exists (er_tx x). split_and!; [done | by eapply ExeTx_tx | ..]; cbn;
          (destruct (er_stored x) as [[uuid res] |]; [| by injection Hst as <-]);
          unfold AddContractRes in Hst; apply bind_Ret_inv in Hst as (q & _ & [= <-]); done.
      - apply bind_Ret_inv in H1 as (u & _ & [= <-]). exists tx. split_and!; [done | apply same_but_log_refl | done..]. }
    destruct Hx as (tx' & He1 & Hs & Hs1 & Hs2 & Hs3). rewrite He1 in Hd, Hl. cbn in Hd, Hl.
    split_and!; [done | congruence | congruence | congruence |].
    exists (tx' :: l). rewrite Hl, <- app_assoc. split; [done | by constructor].
Qed.

Lemma GetUpdateStatusTrie_spec now bc txs bh bc' txs' msgs :
  GetUpdateStatusTrie now bc txs bh = Ret (bc', txs', msgs) ->
  deal_block (ledger bc) txs = Ret (ledger bc') /\ Forall2 same_but_log txs txs' /\
  CurrentBlock bc' = CurrentBlock bc /\ Txpool bc' = Txpool bc /\ BlockSize bc' = BlockSize bc /\
  blockBucket (Store bc') = blockBucket (Store bc) /\ blockHeaderBucket (Store bc') = blockHeaderBucket (Store bc) /\
  newestBlockHash (Store bc') = newestBlockHash (Store bc).
Proof.
  unfold GetUpdateStatusTrie. intros Hr.
  destruct (match GlobalStateDB bc with Some g => (Some g, false) | None => _ end) as [db sn].
  apply bind_Ret_inv in Hr as (e & He & [= <- <- _]).
  destruct (exec_loop_spec _ _ _ _ _ _ He) as (Hd & H1 & H2 & H3 & l & Hl & Hf). cbn in *. subst. done.
Qed.

Lemma GenerateBlock_spec now acct bc bc' b msgs :
  GenerateBlock now acct bc = Ret (bc', b, msgs) ->
  ParentBlockHash (Header b) = Hash (CurrentBlock bc) /\
  Number (Header b) = u64 (Number (Header (CurrentBlock bc)) + 1) /\
  Hash b = header_hash (Header b) /\ StateRoot (Header b) = root bc' /\ ParentHash (Header b) = "" /\
  CurrentBlock bc' = CurrentBlock bc /\ GlobalStateDB bc' = None /\
  Forall2 same_but_log (snd (PackTxs (Txpool bc) (BlockSize bc))) (Body b) /\
  Txpool bc' = fst (PackTxs (Txpool bc) (BlockSize bc)) /\
  deal_block (ledger bc) (snd (PackTxs (Txpool bc) (BlockSize bc))) = Ret (ledger bc') /\
  blockBucket (Store bc') = blockBucket (Store bc).
Proof.
  unfold GenerateBlock. intros Hr. destruct (PackTxs (Txpool bc) (BlockSize bc)) as [pool txs].
  apply bind_Ret_inv in Hr as (coinbase & _ & Hr). apply bind_Ret_inv in Hr as ([[bc1 txs1] ms] & Hu & [= <- <- _]).
  destruct (GetUpdateStatusTrie_spec _ _ _ _ _ _ _ Hu) as (Hd & Hf & Hc & Hp & _ & Hb & _). cbn in *.
  split_and!; done.
Qed.

(** Generating a block stores none. *)
Lemma GenerateBlock_store now acct bc bc' b msgs :
  GenerateBlock now acct bc = Ret (bc', b, msgs) ->
  blockBucket (Store bc') = blockBucket (Store bc) /\ newestBlockHash (Store bc') = newestBlockHash (Store bc).
Proof.
  unfold GenerateBlock. intros Hr. destruct (PackTxs (Txpool bc) (BlockSize bc)) as [pool txs].
  apply bind_Ret_inv in Hr as (coinbase & _ & Hr). apply bind_Ret_inv in Hr as ([[bc1 txs1] ms] & Hu & [= <- <- _]).
  destruct (GetUpdateStatusTrie_spec _ _ _ _ _ _ _ Hu) as (_ & _ & _ & _ & _ & Hb & _ & Hn). cbn in *. done.
Qed.

(** Appending stores the block under its hash and makes it the newest. *)
Lemma AddBlock_store now bc b bc' msgs :
  AddBlock now bc b = Ret (bc', msgs) ->
  dom (blockBucket (Store bc')) = {[Hash b]} ∪ dom (blockBucket (Store bc)) /\
  newestBlockHash (Store bc') = Some (Hash b).
Proof.
  unfold AddBlock. intros H. apply bind_Ret_inv in H as ([[bc1 body] ms] & H1 & H).
  apply bind_Ret_inv in H as (s & Hs & [= <- _]). cbn.
  assert (Hb : blockBucket (Store bc1) = blockBucket (Store bc)).
  { destruct (OpenTrie (root bc)); [by injection H1 as <- _ _ |].
    by apply GetUpdateStatusTrie_spec in H1 as (_ & _ & _ & _ & _ & -> & _). }
  unfold Storage_AddBlock, AddBlockHeader, Put in Hs. cbn in Hs.
  case_decide; [done |]. cbn in Hs. injection Hs as <-. cbn. rewrite dom_insert_L, Hb. done.
Qed.

Lemma PackTxs_bound p n : 0 <= n -> zlen (snd (PackTxs p n)) <= n.
Proof.
  intros Hn. unfold PackTxs, zlen. cbn. rewrite length_take.
  destruct (Z.ltb_spec (Z.of_nat (length (TxQueue p))) n); lia.
Qed.

(** Appending a block where the node's own root opens. *)
Lemma AddBlock_open_spec (now : Z) (bc : BlockChain) (b : Block) :
  CodecOk cd -> Hash b <> "" -> OpenTrie (root bc) = true ->
  exists bc', AddBlock now bc b = Ret (bc', []) /\ CurrentBlock bc' = b /\
    GetBlock (Store bc') (Hash b) = Ret (inl b) /\
    ledger bc' = ledger bc /\ root bc' = root bc /\ Txpool bc' = Txpool bc.
Proof.
  intros Hc Hh Ho. unfold AddBlock. rewrite Ho. cbn.
  assert (Hb : mkBlock (Header b) (Body b) (Hash b) = b) by by destruct b. rewrite Hb.
  destruct (Storage_AddBlock_spec (Store bc) b Hc Hh) as (s' & -> & _ & Hg & _). cbn. eauto 10.
Qed.

(** ** Theorems *)


(** A generated block extends the chain by one and accounts for its transactions:
    its parent is the current block, its height the next one, its hash and state root
    its own; its body is the front of the pool, in order, at most a block's worth, with
    nothing but logs filled in; what it took has left the pool; and the token ledger
    has moved by exactly the body. *)
Theorem GenerateBlock_extends (now : Z) (acct : string) (bc bc' : BlockChain) (b : Block) (msgs : list ExeMsg) :
  0 <= BlockSize bc -> GenerateBlock now acct bc = Ret (bc', b, msgs) ->
  ParentBlockHash (Header b) = Hash (CurrentBlock bc) /\
  Number (Header b) = u64 (Number (Header (CurrentBlock bc)) + 1) /\
  Hash b = header_hash (Header b) /\ StateRoot (Header b) = root bc' /\
  exists taken, TxQueue (Txpool bc) = taken ++ TxQueue (Txpool bc') /\ zlen taken <= BlockSize bc /\
    Forall2 same_but_log taken (Body b) /\ deal_block (ledger bc) taken = Ret (ledger bc').
Proof.
  intros Hn Hr. destruct (GenerateBlock_spec _ _ _ _ _ _ Hr) as (H1 & H2 & H3 & H4 & _ & _ & _ & Hf & Hp & Hd & _).
  split_and!; [done.. |]. eexists. split_and!; [| by apply PackTxs_bound | exact Hf | exact Hd].
  rewrite Hp. cbn. by rewrite take_drop.
Qed.

(** A replica does not execute the blocks it appends. [AddBlock] opens the trie of
    the node's own root, which the node has, so whatever the body of the block, the
    token ledger, the account root and the pool stay as they were; only the current
    block and the store change. *)
Theorem AddBlock_skips_execution (now : Z) (bc : BlockChain) (b : Block) :
  CodecOk cd -> Hash b <> "" -> OpenTrie (root bc) = true ->
  exists bc', AddBlock now bc b = Ret (bc', []) /\ CurrentBlock bc' = b /\
    GetBlock (Store bc') (Hash b) = Ret (inl b) /\
    ledger bc' = ledger bc /\ root bc' = root bc /\ Txpool bc' = Txpool bc.
Proof. apply AddBlock_open_spec. Qed.

(** Contracts never learn an old block hash. A generated header leaves [ParentHash]
    zero, and no block is stored under the zero hash, so the lookup answers the zero
    hash for every block number, at once. *)
Theorem GetHashFn_zero (now : Z) (acct : string) (bc bc' : BlockChain) (b : Block) (msgs : list ExeMsg) (fuel : nat) (n : Z) :
  GenerateBlock now acct bc = Ret (bc', b, msgs) -> blockBucket (Store bc) !! "" = None -> (0 < fuel)%nat ->
  GetHashFn fuel (Header b) (Store bc') n = Ret "".
Proof.
  intros Hr Hz Hf. destruct (GenerateBlock_spec _ _ _ _ _ _ Hr) as (_ & _ & _ & _ & Hp & _ & _ & _ & _ & _ & Hb).
  unfold GetHashFn. destruct (Number (Header b) <=? n); [done |]. rewrite Hp.
  destruct fuel; [lia |]. cbn. unfold GetHeader, GetBlock. rewrite Hb, Hz. done.
Qed.

(** ** The chain stays linked to its genesis *)

(** The blocks met when parents are followed from [h] down to height zero. *)
Inductive path (s : Storage cd) : string -> list Block -> Prop :=
| path_genesis h b :
    GetBlock s h = Ret (inl b) -> h = header_hash (Header b) -> Number (Header b) = 0 -> path s h [b]
| path_block h b b' l :
    GetBlock s h = Ret (inl b) -> h = header_hash (Header b) -> Number (Header b) = Number (Header b') + 1 ->
    path s (ParentBlockHash (Header b)) (b' :: l) -> path s h (b :: b' :: l).

(** One round of the leader: transactions arrive, a block is generated and appended. *)
Definition produce (acct : string) (bc : BlockChain) (r : Z * list Transaction) : outcome BlockChain :=
  let '(now, txs) := r in
  g ← GenerateBlock now acct (SendTx2Pool (fun _ => now) bc txs);
  let '(bc1, b, _) := g in
  a ← AddBlock now bc1 b;
  Ret (fst a).

Lemma AddBlock_stores now bc b bc' msgs :
  CodecOk cd -> Hash b <> "" -> AddBlock now bc b = Ret (bc', msgs) ->
  exists body, CurrentBlock bc' = mkBlock (Header b) body (Hash b) /\
    GetBlock (Store bc') (Hash b) = Ret (inl (mkBlock (Header b) body (Hash b))) /\
    forall h, h <> Hash b -> GetBlock (Store bc') h = GetBlock (Store bc) h.
Proof.
  intros Hc Hh Hr. unfold AddBlock in Hr. apply bind_Ret_inv in Hr as ([[bc1 body] ms] & Hu & Hr).
  apply bind_Ret_inv in Hr as (s & Hs & [= <- _]). exists body. cbn.
  assert (Hb : blockBucket (Store bc1) = blockBucket (Store bc)).
  { destruct (OpenTrie (root bc)); [by injection Hu as <- _ _ |].
    by destruct (GetUpdateStatusTrie_spec _ _ _ _ _ _ _ Hu) as (_ & _ & _ & _ & _ & Hb & _). }
  destruct (Storage_AddBlock_spec (Store bc1) (mkBlock (Header b) body (Hash b)) Hc Hh)
    as (s' & Hs' & _ & Hg & _ & Ho & _).
  rewrite Hs' in Hs. injection Hs as <-. split_and!; [done | done |].
  intros h Hne. destruct (Ho h Hne) as [-> _]. unfold GetBlock. by rewrite Hb.
Qed.

Lemma path_heights s h l : path s h l -> forall i b, l !! i = Some b -> Number (Header b) = Z.of_nat (length l) - 1 - Z.of_nat i.
Proof.
  induction 1 as [h b Hg Hh Hn | h b b' l Hg Hh Hn Hp IH]; intros i x Hx.
  - destruct i; [injection Hx as <-; cbn; lia | done].
  - destruct i as [| i]; cbn in Hx.
    + injection Hx as <-. pose proof (IH O b' eq_refl) as H0. rewrite Hn, H0. cbn [length]. lia.
    + rewrite (IH i x Hx). cbn [length]. lia.
Qed.

(** A block of a new height does not overwrite the path. *)
Lemma path_preserved s s' h l hd :
  CodecOk cd -> path s h l -> (forall b, b ∈ l -> Number (Header b) <> Number hd) ->
  (forall k, k <> header_hash hd -> GetBlock s' k = GetBlock s k) -> path s' h l.
Proof.
  intros Hc Hp Hn Hs. induction Hp as [h b Hg Hh H0 | h b b' l Hg Hh H0 Hp IH].
  - apply path_genesis; [| done | done]. rewrite Hs; [done |]. intros He. rewrite Hh in He.
    apply hash_height in He. apply (Hn b); [left | done].
  - apply path_block; [| done | done | apply IH; intros x Hx; apply Hn; by right].
    rewrite Hs; [done |]. intros He. rewrite Hh in He. apply hash_height in He. apply (Hn b); [left | done].
Qed.

Lemma produce_linked acct bc r bc' l :
  CodecOk cd -> path (Store bc) (Hash (CurrentBlock bc)) (CurrentBlock bc :: l) -> zlen l < 2 ^ 64 - 1 ->
  produce acct bc r = Ret bc' ->
  path (Store bc') (Hash (CurrentBlock bc')) (CurrentBlock bc' :: CurrentBlock bc :: l).
Proof.
  intros Hc Hp Hl Hr. destruct r as [now txs]. unfold produce in Hr.
  apply bind_Ret_inv in Hr as ([[bc1 b] ms] & Hg & Hr). apply bind_Ret_inv in Hr as ([bc2 ms2] & Ha & [= <-]).
  destruct (GenerateBlock_spec _ _ _ _ _ _ Hg) as (Hpar & Hnum & Hhash & _ & _ & _ & _ & _ & _ & _ & Hst). cbn in *.
  destruct (AddBlock_stores now bc1 b bc2 ms2 Hc) as (body & Hcur & Hget & Hoth);
    [rewrite Hhash; apply hash_nonempty | done |].
  pose proof (path_heights _ _ _ Hp O (CurrentBlock bc) eq_refl) as Hh. cbn [length] in Hh. unfold zlen in Hl.
  assert (Hnum' : Number (Header b) = Number (Header (CurrentBlock bc)) + 1).
  { rewrite Hnum. apply u64_add_1. lia. }
  rewrite Hcur. cbn. apply path_block; [done | done | done |]. cbn. rewrite Hpar.
  apply (path_preserved (Store bc) (Store bc2) _ _ (Header b)); [done | done | |].
  - intros x Hx. apply list_elem_of_lookup in Hx as [i Hi]. rewrite (path_heights _ _ _ Hp i x Hi). cbn [length]. lia.
  - intros k Hk. rewrite <- Hhash in Hk. rewrite Hoth by done. unfold GetBlock. by rewrite Hst.
Qed.

Lemma genesis_linked bs r0 bc :
  CodecOk cd -> NewBlockChain NewStorage bs r0 = Ret bc -> path (Store bc) (Hash (CurrentBlock bc)) [CurrentBlock bc].
Proof.
  intros Hc Hr. unfold NewBlockChain in Hr. cbn -[AddGenisisBlock NewGenisisBlock] in Hr.
  apply bind_Ret_inv in Hr as ([s1 curb] & Hg & [= <-]). unfold AddGenisisBlock in Hg.
  apply bind_Ret_inv in Hg as (s2 & Hs & Hg).
  destruct (Storage_AddBlock_spec NewStorage NewGenisisBlock Hc) as (s' & Hs' & Hn & Hget & _).
  { apply hash_nonempty. }
  rewrite Hs' in Hs. injection Hs as <-. rewrite Hn, Hget in Hg. injection Hg as <- <-. cbn [Store CurrentBlock fst snd].
  by apply path_genesis.
Qed.

End Chain.

(** ** Witnesses *)

#[local] Instance sample_codec : Codec := {|
  enc := Block + BlockHeader;
  enc_block := inl;
  dec_block := fun e => match e with inl b => Some b | inr _ => None end;
  enc_header := inr;
  dec_header := fun e => match e with inr h => Some h | inl _ => None end;
  header_hash := fun h => String.append "h" (pretty (Number h))
|}.

Lemma sample_codec_ok : CodecOk sample_codec.
Proof.
  split; try done. intros h1 h2 H. cbn -[pretty] in H. injection H as H. exact (inj pretty _ _ H).
Qed.

Definition sample_world : World := {|
  OpenTrie := fun _ => true;
  reader_at := fun _ => sample_reader;
  CommitRoot := fun r _ => String.append r "'";
  empty_root := "empty";
  GetTxTreeRoot := fun _ => "txs"
|}.

Definition sample_block : Block := mkBlock sample_header [transfer_sample hex1 hex0 4] "h1".


Definition chain0 : outcome (@BlockChain sample_codec) :=
  @NewBlockChain default_config sample_codec sample_world NewStorage 10 "".

Definition queue0 : list Transaction := [transfer_tx hex1 hex0 30 "BKC"; transfer_tx hex0 hex1 5 "BKC"].

Lemma GenerateBlock_extends_witness :
  exists bc bc' b msgs, chain0 = Ret bc /\
    @GenerateBlock default_config sample_codec sample_world sample_env failing_evm 7 hex0
      (SendTx2Pool (fun _ => 1) bc queue0) = Ret (bc', b, msgs) /\
    ParentBlockHash (Header b) = "h0" /\ Number (Header b) = 1.
Proof.
  destruct chain0 as [bc |] eqn:E; [| vm_compute in E; discriminate E].
  destruct (@GenerateBlock default_config sample_codec sample_world sample_env failing_evm 7 hex0
      (SendTx2Pool (fun _ => 1) bc queue0)) as [[[bc' b] msgs] |] eqn:Eg.
  2: { vm_compute in E. injection E as <-. vm_compute in Eg. discriminate Eg. }
  destruct (@GenerateBlock_extends default_config sample_codec sample_world sample_env failing_evm 7 hex0
              (SendTx2Pool (fun _ => 1) bc queue0) bc' b msgs) as (H1 & H2 & _).
  - vm_compute in E. injection E as <-. vm_compute. discriminate.
  - exact Eg.
  - exists bc, bc', b, msgs. split; [reflexivity |]. split; [exact Eg |]. rewrite H1, H2. clear Eg H1 H2.
    vm_compute in E. injection E as <-. split; vm_compute; reflexivity.
Defined.

Lemma AddBlock_skips_execution_witness :
  exists bc bc', chain0 = Ret bc /\
    @AddBlock default_config sample_codec sample_world sample_env failing_evm 7 bc sample_block = Ret (bc', []) /\
    ledger bc' = ledger bc /\ CurrentBlock bc' = sample_block.
Proof.
  destruct chain0 as [bc |] eqn:E; [| vm_compute in E; discriminate E].
  destruct (@AddBlock_skips_execution default_config sample_codec sample_world sample_env failing_evm 7 bc sample_block
              sample_codec_ok) as (bc' & H1 & H2 & _ & H3 & _); [discriminate | reflexivity |].
  exists bc, bc'. split; [reflexivity |]. split; [exact H1 |]. split; [exact H3 | exact H2].
Defined.

Lemma GetHashFn_zero_witness :
  exists bc bc' b msgs, chain0 = Ret bc /\
    @GenerateBlock default_config sample_codec sample_world sample_env failing_evm 7 hex0
      (SendTx2Pool (fun _ => 1) bc queue0) = Ret (bc', b, msgs) /\
    @GetHashFn sample_codec 5 (Header b) (Store bc') 0 = Ret "".
Proof.
  destruct chain0 as [bc |] eqn:E; [| vm_compute in E; discriminate E].
  destruct (@GenerateBlock default_config sample_codec sample_world sample_env failing_evm 7 hex0
      (SendTx2Pool (fun _ => 1) bc queue0)) as [[[bc' b] msgs] |] eqn:Eg.
  2: { vm_compute in E. injection E as <-. vm_compute in Eg. discriminate Eg. }
  exists bc, bc', b, msgs. split; [reflexivity |]. split; [exact Eg |].
  apply (@GetHashFn_zero default_config sample_codec sample_world sample_env failing_evm 7 hex0
           (SendTx2Pool (fun _ => 1) bc queue0) bc' b msgs 5 0); [exact Eg | | lia].
  clear Eg. vm_compute in E. injection E as <-. vm_compute. reflexivity.
Defined.

Definition rounds0 : list (Z * list Transaction) := [(3, queue0); (9, []); (12, [transfer_tx hex1 hex0 1 "BKC"])].

