(* ===== verification/CrossShard.v ===== *)
(** * Requests between shards

    Models the handlers of [consensus_shard/pbft_all/pbft.go] that serve contracts of
    other shards: [handleOpCallReq], [handleOpStaticCallReq], [handleOpCreateReq], the
    queries for code and balances, the replay and rollback of journal entries
    ([handleCOpExeLogOrRollback]), and the handlers that store the answers on the node
    that asked; with [state.New], through which they all share one state database.

    A served contract runs on the machine of [Interpreter.v]. The lock of an account
    that [handleOpCallReq] spins on is free in a run without concurrent executions, and
    is left out, as in [Chain.v]. Printing is left out. *)
From Stdlib Require Import ZArith Lia.
From stdpp Require Import base gmap strings list.
From S2P Require Import Prelude Utils JournalTypes Core AccessList StateDB StateDBSim StateDBProofs Execution Analysis.
From S2P Require Import Machine Evm Instructions Interpreter EvmInstances MachineLaws EvmProofs FrameLogic InterpreterProofs StateDBRefines.
From S2P Require Import Transition TransitionProofs Chain.

(** ** Messages *)

(** [message.OpCallRes], [message.OpStaticCallRes] and [message.OpCreateRes]. *)
Record CallReply := mkCallReply { cp_Journal : list Wrapper; cp_Ret : list Z; cp_Err : string; cp_Id : string; cp_UUID : string }.
Record StaticReply := mkStaticReply { sp_Ret : list Z; sp_Err : string; sp_Id : string; sp_UUID : string }.
Record CreateReply := mkCreateReply { kp_Addr : Z; kp_Ret : list Z; kp_Err : string; kp_Id : string; kp_Journal : list Wrapper }.

(** What a handler sends: answers, the entries for the other nodes of the shard
    ([ExeLogOrRollback]), and what the machine sent while it ran. *)
Inductive Reply :=
| COpCallRes (r : CallReply) (to : string)
| COpStaticCallRes (r : StaticReply) (to : string)
| COpCreateRes (r : CreateReply) (to : string)
| COpDelegateCallRes (Address : string) (CodeHash : Z) (Code : list Z) (to : string)
| COpCallCodeRes (Address : string) (CodeHash : Z) (Code : list Z) (to : string)
| COpbalanceRes (Address : string) (Balance : Z) (to : string)
| CResponseAccount (Account : string) (Balance : Z) (Code : list Z) (to : string)
| CQueryContractResultRes (Success : bool) (Result : list Z) (UUID : string) (to : string)
| COpExeLogOrRollback (Log : list Wrapper) (rollback : bool) (to : string)
| Sent (m : EvmMsg).

(** Journal entries after the wire. *)
Definition over_wire (l : list Wrapper) : list Wrapper := omap (fun x => UnmarshalJSON (MarshalJSON x)) l.

(** ** Serving, on any account state *)

(** The gas every served contract gets. *)
Definition served_gas : Z := 100000000.

Section Serve.
Context `{w : Uint256} `{sdb : StateDBI} `{cr : Crypto} `{cfg : Config} `{env : NodeEnv} `{rem : Remote} `{ctx : EvmEnv}.
Context (run : Contract -> list Z -> bool -> E (list Z * option vmerr * Z)).

(** [vm.AccountRef(m.Caller)]: the conversion panics on fewer than 20 bytes. *)
Definition ref_of_bytes (l : list Z) : outcome ContractRef :=
  if zlen l <? 20 then Panic "cannot convert slice" else Ret (AccountRef (bytes_to_Z (take 20 l))).

(** The rollback of a served contract that failed. *)
Definition undo_failed (snapshot : Z) (err : option vmerr) : E unit :=
  match err with
  | None => mret tt
  | Some _ =>
      msgs ← on_db (i_RevertToSnapshot snapshot);
      modify (fun m => with_outbox m (outbox m ++ map Rollback msgs))
  end.

(** The part of [handleOpCallReq] that runs on the state: the snapshot, the data
    returned and the error. *)
Definition serve_call (Caller : list Z) (Addr Value Gas : Z) (Input : list Z) (UUID : string)
  : E (Z * list Z * option vmerr) :=
  snapshot ← on_db i_Snapshot;
  code ← on_db (i_GetCode Addr);
  _ ← on_db (i_AddBalance Addr Value);
  caller ← E_of (ref_of_bytes Caller);
  c ← new_contract caller Addr (Some (SetUint64 Value)) Gas;
  hash ← on_db (i_GetCodeHash Addr);
  '(ret, err, rest) ← run (SetCallCode (set_Gas (set_UUID c UUID) served_gas) hash code) Input false;
  _ ← undo_failed snapshot err;
  mret (snapshot, ret, err).

(** That of [handleOpStaticCallReq]. *)
Definition serve_static (Caller : list Z) (Addr Gas : Z) (Input : list Z) (UUID : string) : E (list Z * option vmerr) :=
  snapshot ← on_db i_Snapshot;
  code ← on_db (i_GetCode Addr);
  caller ← E_of (ref_of_bytes Caller);
  c ← new_contract caller Addr (Some (SetUint64 0)) Gas;
  hash ← on_db (i_GetCodeHash Addr);
  '(ret, err, rest) ← run (SetCallCode (set_Gas (set_UUID c UUID) served_gas) hash code) Input true;
  _ ← undo_failed snapshot err;
  mret (ret, err).

(** That of [handleOpCreateReq]; [None] is an address that is taken. *)
Definition serve_create (Caller : list Z) (Addr : Z) (Code : list Z) (Value Gas : Z) (UUID : string)
  : E (option (Z * list Z * option vmerr)) :=
  hit ← collides Addr;
  if hit : bool then mret None
  else
    snapshot ← on_db i_Snapshot;
    exist ← on_db (i_Exist Addr);
    _ ← (if exist : bool then mret tt else on_db (i_CreateAccount Addr));
    _ ← on_db (i_CreateContract Addr);
    _ ← on_db (i_AddBalance Addr Value);
    caller ← E_of (ref_of_bytes Caller);
    c ← new_contract caller Addr (Some (SetUint64 Value)) Gas;
    '(ret, err, rest) ← InitNewContract run (set_deployment (SetCallCode (set_UUID (set_Gas c served_gas) UUID) 0 Code)) Addr;
    _ ← undo_failed snapshot err;
    mret (Some (snapshot, ret, err)).

(** That of the queries for code, and for a balance. *)
Definition serve_code (Addr : Z) : E (Z * list Z) :=
  hash ← on_db (i_GetCodeHash Addr); code ← on_db (i_GetCode Addr); mret (hash, code).

Definition serve_balance (Addr : Z) : E Z :=
  exist ← on_db (i_Exist Addr);
  _ ← (if exist : bool then mret tt else on_db (i_CreateAccount Addr));
  b ← on_db (i_GetBalance Addr);
  mret (u64 b).
End Serve.

(** ** The node *)

Section Node.
Context `{w : Uint256} `{cr : Crypto} `{cfg : Config} `{cd : Codec} `{wd : World} `{env : NodeEnv} `{rem : Remote} `{txt : ErrorText}.
Context (hashes : Z -> Z) (limit : Z) (fuel : nat) (earlier : list EvmMsg).

(** [NewEVMBlockContext] of the current block with an empty [TxContext]: there is no
    coinbase account, no origin and no gas price. *)
Definition served_env (bh : BlockHeader) : EvmEnv := {|
  GetHash := hashes;
  Evm.Coinbase := 0;
  Evm.GasLimit := Core.GasLimit bh;
  BlockNumber := Number bh;
  BlockTime := u64 (HTime bh);
  BaseFee := None;
  BlobBaseFee := None;
  Random := None;
  Origin := 0;
  Evm.GasPrice := None;
  BlobHashes := [];
  ChainID := None;
  aborted := false;
  maxAlloc := limit
|}.

Definition node_at (shard node : Z) : string := default "" (default ∅ (Ip_nodeTable !! shard) !! node).

(** [state.New]: the shared database when there is one, or a new one on the root; the
    flag tells which ([sn == "new"]). A root that does not open gives none. *)
Definition state_New (bc : BlockChain) : option (string * StateDB) * bool :=
  match GlobalStateDB bc with
  | Some g => (Some g, false)
  | None => if OpenTrie (root bc) then (Some (root bc, New_StateDB), true) else (None, false)
  end.

Definition with_global (bc : BlockChain) (g : option (string * StateDB)) : BlockChain :=
  mkChain (CurrentBlock bc) (Store bc) (Txpool bc) (ledger bc) (root bc) g (pmap bc) (BlockSize bc).

(** The commit of a database this handler opened, which also stops sharing it. *)
Definition commit_state (bc : BlockChain) (r : string) (s : StateDB) : BlockChain :=
  mkChain (CurrentBlock bc) (Store bc) (Txpool bc) (ledger bc) (CommitRoot r s) None (pmap bc) (BlockSize bc).

Definition close_state (sn : bool) (bc : BlockChain) (r : string) (s : StateDB) : BlockChain :=
  if sn then commit_state bc r s else with_global bc (Some (r, s)).

(** A fresh machine on the database of [state.New]. *)
Definition serving {A} (bc : BlockChain) (c : forall rd : StateReader, E (sdb := StateDB_interface (rd := rd)) A)
  : res (bool * string * StateDB * A * list Reply) :=
  match state_New bc with
  | (None, _) => Crash "nil dereference"
  | (Some (r, s), sn) =>
      match c (reader_at r) (new_machine cfg env earlier s) with
      | Val (a, m) => Val (sn, r, db m, a, map Sent (drop (length earlier) (outbox m)))
      | Crash why => Crash why
      | Spin => Spin
      end
  end.

(** The entries since the snapshot, for the nodes of the shard other than the first. *)
Definition to_replicas (s : StateDB) (snapshot : Z) : outcome (list Reply) :=
  log ← journal_log (jrnl s) snapshot;
  Ret (map (fun i => COpExeLogOrRollback log false (node_at ShardID (Z.of_nat i)))
         (seq 1 (size (default ∅ (Ip_nodeTable !! ShardID)) - 1))).

Definition journal_of (s : StateDB) : list Wrapper := map wrap (Entries (jrnl s)).

Definition handleOpCallReq (bc : BlockChain) (Caller : list Z) (Addr Value Gas : Z) (Input : list Z)
  (FromShardId FromNodeId : Z) (Id UUID : string) : res (BlockChain * list Reply) :=
  let ctx := served_env (Header (CurrentBlock bc)) in
  '(sn, r, s, (snapshot, ret, err), out) ← serving bc (fun rd => serve_call (Run fuel) Caller Addr Value Gas Input UUID);
  log ← of_outcome (match err with None => to_replicas s snapshot | Some _ => Ret [] end);
  let answer := mkCallReply (match err with None => journal_of s | Some _ => [] end) ret (from_option vm_error "" err) Id UUID in
  mret (close_state sn bc r s, out ++ log ++ [COpCallRes answer (node_at FromShardId FromNodeId)]).

Definition handleOpStaticCallReq (bc : BlockChain) (Caller : list Z) (Addr Gas : Z) (Input : list Z)
  (FromShardId FromNodeId : Z) (Id UUID : string) : res (BlockChain * list Reply) :=
  let ctx := served_env (Header (CurrentBlock bc)) in
  '(sn, r, s, (ret, err), out) ← serving bc (fun rd => serve_static (Run fuel) Caller Addr Gas Input UUID);
  let answer := mkStaticReply ret (from_option vm_error "" err) Id UUID in
  mret (close_state sn bc r s, out ++ [COpStaticCallRes answer (node_at FromShardId FromNodeId)]).

(** Only a creation that succeeds commits, and stops sharing, the database it opened. *)
Definition handleOpCreateReq (bc : BlockChain) (Caller : list Z) (Addr : Z) (Code : list Z) (Value Gas : Z)
  (FromShardId FromNodeId : Z) (Id UUID : string) : res (BlockChain * list Reply) :=
  let ctx := served_env (Header (CurrentBlock bc)) in
  let to := node_at FromShardId FromNodeId in
  '(sn, r, s, made, out) ← serving bc (fun rd => serve_create (Run fuel) Caller Addr Code Value Gas UUID);
  match made with
  | None => mret (with_global bc (Some (r, s)), out ++ [COpCreateRes (mkCreateReply 0 [] "contract address collision" Id []) to])
  | Some (snapshot, ret, Some e) =>
      mret (with_global bc (Some (r, s)), out ++ [COpCreateRes (mkCreateReply 0 ret (vm_error e) Id []) to])
  | Some (snapshot, ret, None) =>
      log ← of_outcome (to_replicas s snapshot);
      mret (close_state sn bc r s, out ++ log ++ [COpCreateRes (mkCreateReply 0 ret "" Id (journal_of s)) to])
  end.

(** The queries do not look at [sn]: a database they open stays shared. *)
Definition query_code (bc : BlockChain) (Address : string) : res (BlockChain * Z * list Z) :=
  addr ← of_outcome (address_of_hex Address);
  '(sn, r, s, (hash, code), out) ← serving bc (fun rd => serve_code addr);
  mret (with_global bc (Some (r, s)), hash, code).

Definition handleOpDelegateCallReq (bc : BlockChain) (Address : string) (FromShardId FromNodeId : Z)
  : res (BlockChain * list Reply) :=
  '(bc1, hash, code) ← query_code bc Address;
  mret (bc1, [COpDelegateCallRes Address hash code (node_at FromShardId FromNodeId)]).

Definition handleOpCallCodeReq (bc : BlockChain) (Address : string) (FromShardId FromNodeId : Z)
  : res (BlockChain * list Reply) :=
  '(bc1, hash, code) ← query_code bc Address;
  mret (bc1, [COpCallCodeRes Address hash code (node_at FromShardId FromNodeId)]).

Definition handleOpbanlanceReq (bc : BlockChain) (Address : string) (FromShardId FromNodeId : Z)
  : res (BlockChain * list Reply) :=
  addr ← of_outcome (address_of_hex Address);
  '(sn, r, s, balance, out) ← serving bc (fun rd => serve_balance addr);
  mret (with_global bc (Some (r, s)), [COpbalanceRes Address balance (node_at FromShardId FromNodeId)]).

(** An account is looked up in a database of its own ([state.New2]), which is dropped. *)
Definition handleQueryAcc (bc : BlockChain) (Account : string) (FromShardID FromNodeID : Z) : res (BlockChain * list Reply) :=
  if OpenTrie (root bc) then
    addr ← of_outcome (address_of_hex Account);
    '(s, b) ← of_outcome (GetBalance (rd := reader_at (root bc)) New_StateDB addr);
    mret (bc, [CResponseAccount Account (u64 b) (snd (GetCode (rd := reader_at (root bc)) s addr)) (node_at FromShardID FromNodeID)])
  else Crash "nil dereference".

(** The stored result of a contract transaction, as it is when the polling ends. *)
Definition handleQueryContractResultReq (bc : BlockChain) (UUID : string) (FromShardID FromNodeID : Z) : list Reply :=
  match GetContractRes (Store bc) UUID with
  | inr _ => [CQueryContractResultRes false [] UUID (node_at FromShardID FromNodeID)]
  | inl r => [CQueryContractResultRes true r UUID (node_at FromShardID FromNodeID)]
  end.

(** The dispatch of [handleMessage] on the requests. *)
Definition handleRequest (bc : BlockChain) (req : CrossReq) : res (BlockChain * list Reply) :=
  match req with
  | OpBalanceReq a sh n => handleOpbanlanceReq bc a sh n
  | OpCallReq c a v g i sh n id u => handleOpCallReq bc c a v g i sh n id u
  | OpStaticCallReq c a g i sh n id u => handleOpStaticCallReq bc c a g i sh n id u
  | OpCallCodeReq a sh n => handleOpCallCodeReq bc a sh n
  | OpDelegateCallReq a sh n => handleOpDelegateCallReq bc a sh n
  | OpCreateReq c a code v g sh n id u => handleOpCreateReq bc c a code v g sh n id u
  end.

(** Reverting an entry on a nil database panics, except for the entries that do
    nothing; so does executing one that uses it. *)
Definition needs_state (rollback : bool) (e : JournalEntry) : bool :=
  match e with AddLogChange _ _ => rollback | _ => entry_uses_state e end.

Definition handleCOpExeLogOrRollback (bc : BlockChain) (Log : list Wrapper) (rollback : bool) : outcome BlockChain :=
  let es := map OriginalObj Log in
  if negb (NodeID =? 0) then Ret bc
  else
    match state_New bc with
    | (None, _) => if existsb (needs_state rollback) es then Panic "nil dereference" else Ret bc
    | (Some (r, s), sn) =>
        let rd := reader_at r in
        s' ← (if rollback then for_each Revert s (rev es) else for_each Execute s es);
        Ret (close_state sn bc r s')
    end.
End Node.

(** ** The answers, on the node that asked *)

(** The maps of answers ([state.OpCallResMap] and the others). *)
Record Answers := mkAnswers {
  OpCallResMap : gmap string OpCallRes;
  OpStaticCallResMap : gmap string OpStaticCallRes;
  OpCreateResMap : gmap string OpCreateRes;
  OpDelegatecallResMap : gmap string OpCodeRes;
  OpCallCodeResMap : gmap string OpCodeRes;
  OpBalanceResMap : gmap string Z
}.

(** The handlers of the answers, as they come off the wire. Answers to calls are kept
    by the identifier of the request, the others by address; the gas of a call is not
    part of its answer and stays zero. *)
Definition handleOpCallRes (a : Answers) (m : CallReply) : Answers :=
  mkAnswers (<[cp_Id m := mkOpCallRes (over_wire (cp_Journal m)) (cp_Ret m) (cp_Err m) 0]> (OpCallResMap a))
    (OpStaticCallResMap a) (OpCreateResMap a) (OpDelegatecallResMap a) (OpCallCodeResMap a) (OpBalanceResMap a).

Definition handleOpStaticCallRes (a : Answers) (m : StaticReply) : Answers :=
  mkAnswers (OpCallResMap a) (<[sp_Id m := mkOpStaticCallRes (sp_Ret m) (sp_Err m) 0]> (OpStaticCallResMap a))
    (OpCreateResMap a) (OpDelegatecallResMap a) (OpCallCodeResMap a) (OpBalanceResMap a).

Definition handleOpCreateRes (a : Answers) (m : CreateReply) : Answers :=
  mkAnswers (OpCallResMap a) (OpStaticCallResMap a)
    (<[kp_Id m := mkOpCreateRes (kp_Addr m) (kp_Ret m) (kp_Err m) (over_wire (kp_Journal m))]> (OpCreateResMap a))
    (OpDelegatecallResMap a) (OpCallCodeResMap a) (OpBalanceResMap a).

Definition handleOpDelegateCallRes (a : Answers) (Address : string) (CodeHash : Z) (Code : list Z) : Answers :=
  mkAnswers (OpCallResMap a) (OpStaticCallResMap a) (OpCreateResMap a)
    (<[Address := mkOpCodeRes CodeHash Code]> (OpDelegatecallResMap a)) (OpCallCodeResMap a) (OpBalanceResMap a).

Definition handleOpCallCodeRes (a : Answers) (Address : string) (CodeHash : Z) (Code : list Z) : Answers :=
  mkAnswers (OpCallResMap a) (OpStaticCallResMap a) (OpCreateResMap a) (OpDelegatecallResMap a)
    (<[Address := mkOpCodeRes CodeHash Code]> (OpCallCodeResMap a)) (OpBalanceResMap a).

Definition handleOpbanlanceRes (a : Answers) (Address : string) (Balance : Z) : Answers :=
  mkAnswers (OpCallResMap a) (OpStaticCallResMap a) (OpCreateResMap a) (OpDelegatecallResMap a) (OpCallCodeResMap a)
    (<[Address := Balance]> (OpBalanceResMap a)).
