(* ===== verification/CrossShardProofs.v ===== *)
(** * Serving another shard: theorems

    What the handlers of requests do to the state of a node, in general and at a concrete node. *)
From Stdlib Require Import ZArith Lia.
From stdpp Require Import base gmap strings list.
From S2P Require Import Prelude Utils JournalTypes Core Ledger AccessList StateDB StateDBSim StateDBProofs Analysis Machine Evm.
From S2P Require Import Instructions Interpreter EvmInstances MachineLaws EvmProofs FrameLogic InterpreterProofs StateDBRefines Execution Transition TransitionProofs EvmTheorems.
From S2P Require Import Chain CrossShard.

(** ** What serving another shard does to a node

    A served call, static call or creation that fails leaves the account state as it
    was; one that succeeds is journalled, and the answer carries the journal. Then the
    places where the handlers do less: a query leaves its database open, so that the
    next block is never committed, and a rollback that crossed the wire undoes
    nothing. *)

(** ** Serving, on any account state *)

Section Serve.
Context `{w : Uint256} `{sdb : StateDBI} `{cr : Crypto} `{cfg : Config} `{env : NodeEnv} `{rem : Remote} `{ctx : EvmEnv}.
Context `{laws : !StateDBLaws sdb cr env} `{hyps : !EvmAssumptions cr cfg env rem ctx} `{wok : !Uint256Ok w}.

(** What serving promises: the invariant; on an error the state of the start; else a
    state that goes on from the snapshot. *)
Definition served (m : Mach) (snapshot : Z) (err : option vmerr) (m' : Mach) : Prop :=
  mstep m m' /\
  match err with
  | Some _ => Same (db m') (db m)
  | None => exists s1, i_Snapshot (db m) = Ret (s1, snapshot) /\ Step s1 (db m')
  end.

(** Only caches were filled. *)
Definition unmoved (m m' : Mach) : Prop := mstep m m' /\ Same (db m') (db m).

Lemma wpE_take_snapshot (Q : Z -> Mach -> Prop) m :
  MInv m ->
  (forall s1 id, i_Snapshot (db m) = Ret (s1, id) -> reverts_to (db m) s1 id -> mstep m (with_db m s1) ->
     MInv (with_db m s1) -> Q id (with_db m s1)) ->
  wpE (on_db i_Snapshot) Q m.
Proof using Type.
  intros Hm HQ. destruct (Snapshot_law (db m)) as (s1 & id & Hs & Hi & Hst & Hr); [apply Hm |].
  unfold wpE, on_db. rewrite Hs. assert (Hi1 : MInv (with_db m s1)) by (split; [done | apply Hm]).
  apply HQ; [done | done | by split | done].
Qed.

Lemma undo_failed_spec m s1 id err m2 :
  MInv m -> i_Snapshot (db m) = Ret (s1, id) -> reverts_to (db m) s1 id -> mstep m (with_db m s1) ->
  MInv (with_db m s1) -> mstep (with_db m s1) m2 -> wpE (undo_failed id err) (fun _ => served m id err) m2.
Proof using Type.
  intros Hm Hs Hr H1 Hi Hm2. unfold undo_failed. destruct err as [e |].
  - apply wpE_bind. eapply (wpE_revert id _ (db m) s1 m (with_db m s1)); [done | done | done | done | | done].
    intros s3 Hsame Hs3 Hi3 msgs. apply wpE_modify. split; [| done]. apply mstep_outbox.
    by apply (mstep_restore m m (with_db m s1)); [| apply mstep_refl | ..].
  - apply wpE_ret. split; [by eapply mstep_trans |]. exists s1. split; [done | apply Hm2].
Qed.

Lemma wpE_caller l (Q : ContractRef -> Mach -> Prop) m :
  20 <= zlen l -> (forall c, Q c m) -> wpE (E_of (ref_of_bytes l)) Q m.
Proof using Type.
  intros Hl HQ. unfold ref_of_bytes. destruct (Z.ltb_spec (zlen l) 20); [lia |]. by eapply wpE_of.
Qed.

Lemma CInv_served caller object value gas u g h code :
  hash_ok h code -> CInv (SetCallCode (set_Gas (set_UUID (NewContract caller object (Some value) gas) u) g) h code).
Proof using Type. intros Hh. by split; cbn; [eauto | ..]. Qed.

(** Code read at [m] still goes with the hash read at a later [m']. *)
Lemma code_later m m' a :
  MInv m -> Step (db m) (db m') -> hash_ok (fst (code_at (db m') a)) (snd (code_at (db m) a)).
Proof using Type.
  intros Hm Hst. destruct (snd (code_at (db m) a)) as [| b l] eqn:E; [by split |].
  rewrite (Step_code _ _ a Hst) by by rewrite E. rewrite <- E. apply code_at_ok, Hm.
Qed.

Lemma serve_call_spec fuel Caller Addr Value Gas Input UUID m :
  MInv m -> 20 <= zlen Caller -> short Input ->
  wpE (serve_call (Run fuel) Caller Addr Value Gas Input UUID) (fun r => served m r.1.1 r.2) m.
Proof using hyps wok.
  intros Hm Hc Hin. unfold serve_call. apply wpE_bind. eapply wpE_take_snapshot; [done |].
  intros s1 id Hs Hr H1 Hi. set (mi := with_db m s1) in *. pose proof (mstep_refl mi Hi) as Hmi.
  apply wpE_bind. eapply wpE_db; [apply GetCode_law | exact Hi | exact Hmi |]. intros code s2 [Hcode _] H2.
  apply wpE_bind. eapply wpE_db; [apply AddBalance_law | exact Hi | exact H2 |]. intros u s3 _ H3.
  apply wpE_bind, wpE_caller; [done |]. intros caller. apply wpE_bind.
  eapply new_contract_spec; [exact Hi | exact H3 |]. intros m4 H4 Hd4. apply wpE_bind.
  eapply wpE_db; [apply GetCodeHash_law | exact Hi | exact H4 |]. intros h s5 [Hh _] H5. apply wpE_bind.
  eapply (wpE_run (Run fuel) (Run_ok fuel)); [| done | exact Hi | exact H5 |].
  { apply CInv_served. rewrite Hh, Hcode. apply (code_later mi m4); [done | apply H4]. }
  intros [[ret err] rest] m6 H6 _. apply wpE_bind. eapply wpE_mono; [by eapply (undo_failed_spec m s1 id) |].
  intros ? m' H'. by apply wpE_ret.
Qed.

Lemma serve_static_spec fuel Caller Addr Gas Input UUID m :
  MInv m -> 20 <= zlen Caller -> short Input ->
  wpE (serve_static (Run fuel) Caller Addr Gas Input UUID) (fun r m' => exists id, served m id r.2 m') m.
Proof using hyps wok.
  intros Hm Hc Hin. unfold serve_static. apply wpE_bind. eapply wpE_take_snapshot; [done |].
  intros s1 id Hs Hr H1 Hi. set (mi := with_db m s1) in *. pose proof (mstep_refl mi Hi) as Hmi.
  apply wpE_bind. eapply wpE_db; [apply GetCode_law | exact Hi | exact Hmi |]. intros code s2 [Hcode _] H2.
  apply wpE_bind, wpE_caller; [done |]. intros caller. apply wpE_bind.
  eapply new_contract_spec; [exact Hi | exact H2 |]. intros m4 H4 Hd4. apply wpE_bind.
  eapply wpE_db; [apply GetCodeHash_law | exact Hi | exact H4 |]. intros h s5 [Hh _] H5. apply wpE_bind.
  eapply (wpE_run (Run fuel) (Run_ok fuel)); [| done | exact Hi | exact H5 |].
  { apply CInv_served. rewrite Hh, Hcode. apply (code_later mi m4); [done | apply H4]. }
  intros [[ret err] rest] m6 H6 _. apply wpE_bind. eapply wpE_mono; [by eapply (undo_failed_spec m s1 id) |].
  intros ? m' H'. apply wpE_ret. by exists id.
Qed.

Lemma serve_create_spec fuel Caller Addr Code Value Gas UUID m :
  MInv m -> 20 <= zlen Caller -> short Code ->
  wpE (serve_create (Run fuel) Caller Addr Code Value Gas UUID)
    (fun r => match r with None => unmoved m | Some (id, _, err) => fun m' => exists m1, unmoved m m1 /\ served m1 id err m' end) m.
Proof using hyps wok.
  intros Hm Hc Hcode. pose proof (mstep_refl m Hm) as Hm0. unfold serve_create. apply wpE_bind.
  eapply collides_spec; [exact Hm | exact Hm0 |]. intros [|] m1 Hm1 Hn Hsame; [by apply wpE_ret; split |]. specialize (Hn eq_refl).
  apply wpE_bind. eapply wpE_take_snapshot; [apply Hm1 |].
  intros s1 id Hs Hr H1 Hi. set (mi := with_db m1 s1) in *. pose proof (mstep_refl mi Hi) as Hmi.
  eapply ensure_account_spec; [exact Hi | done |]. intros m2 Hm2 He. apply wpE_bind.
  eapply wpE_create_contract; [exact Hi | done | done |]. intros m3 Hm3. apply wpE_bind.
  eapply wpE_db; [apply AddBalance_law | exact Hi | exact Hm3 |]. intros u s4 _ H4.
  apply wpE_bind, wpE_caller; [done |]. intros caller. apply wpE_bind.
  eapply new_contract_spec; [exact Hi | exact H4 |]. intros m5 Hm5 _. unfold InitNewContract. apply wpE_bind, wpE_bind.
  eapply (wpE_run (Run fuel) (Run_ok fuel)); [by split; cbn; [eauto | split; [| left] | ..] | done | exact Hi | exact Hm5 |].
  intros [[ret err] rest] m6 Hm6 Hret.
  assert (Hend : forall m', mstep mi m' -> wpE (_ ← undo_failed id err; mret (Some (id, ret, err)))
    (fun r => match r with None => unmoved m | Some (id, _, err) => fun m' => exists m1, unmoved m m1 /\ served m1 id err m' end) m').
  { intros m' Hm'. apply wpE_bind. eapply wpE_mono; [by eapply (undo_failed_spec m1 s1 id); [apply Hm1 | ..] |].
    intros ? m7 H7. apply wpE_ret. exists m1. split; [by split | exact H7]. }
  destruct err as [e |]; [by apply wpE_ret, Hend |]. apply wpE_bind.
  eapply (wpE_setcode Addr ret _ mi); [done | done | done | |].
  - unfold mi. cbn. by rewrite (Same_code _ _ _ (Snapshot_same _ _ _ Hs)), (Same_code _ _ _ Hsame).
  - intros m7 Hm7. by apply wpE_ret, Hend.
Qed.
End Serve.

(** ** The node *)

Section Node.
Context (w : Uint256) (cr : Crypto) (cfg : Config) (cd : Codec) (wd : World) (env : NodeEnv) (rem : Remote) (txt : ErrorText).
Context (hashes : Z -> Z) (limit : Z) (fuel : nat) (earlier : list EvmMsg).
Context (wok : Uint256Ok w) (rok : forall r, ReaderOk cfg (reader_at r) cr).
Context (hyps : forall bh, EvmAssumptions cr cfg env rem (served_env hashes limit bh)).

#[local] Existing Instances w cr cfg cd wd env rem txt wok rok hyps.
#[local] Existing Instance StateDB_laws.
#[local] Abbreviation inv r := (db_inv (rd := reader_at r)).
#[local] Abbreviation same r := (db_sim (rd := reader_at r) u64 (fun _ => true)).

(** The database of [state.New] is in order. *)
Definition shared_ok (bc : BlockChain) : Prop := match GlobalStateDB bc with Some (r, s) => inv r s | None => True end.

Lemma state_New_ok bc r s sn : shared_ok bc -> state_New bc = (Some (r, s), sn) -> inv r s.
Proof using rok.
  unfold shared_ok, state_New. destruct (GlobalStateDB bc) as [[r0 s0] |]; [by intros H [= <- <- <-] |].
  destruct (OpenTrie (root bc)); [| done]. intros _ [= <- <- <-]. apply New_StateDB_inv.
Qed.

(** What a state that goes on from a snapshot of [s] has recorded. *)
Lemma recorded r s s1 id s2 :
  inv r s -> Ret (Snapshot s) = Ret (s1, id) -> db_step (rd := reader_at r) s1 s2 ->
  exists es t, Entries (jrnl s2) = Entries (jrnl s) ++ es /\ journal_log (jrnl s2) id = Ret (map wrap (map entry_copy es)) /\
    for_each (Revert (rd := reader_at r)) s2 (rev (own es)) = Ret t /\ same r t s.
Proof using Type.
  intros Hs [= <- <-] ((later & Hv) & _ & es & t & Hes & Hu & _ & Hsim & _). exists es, t.
  cbn in Hv, Hes. rewrite <- app_assoc in Hv. cbn in Hv.
  split_and!; [done | | done | eapply transitivity; [exact Hsim | by apply sim_journal]].
  unfold journal_log. cbn [ValidRevisions journal_Copy Entries]. rewrite Hv, search_own, lookup_app_r, Nat.sub_diag;
    [| done | apply Hs | done]. cbn. rewrite Hes, map_app, drop_app_length'; [done |]. rewrite length_map. unfold journal_length, zlen. lia.
Qed.

(** The entries for the other nodes of the shard. *)
Definition replica_log (es : list JournalEntry) : list Reply :=
  map (fun i => COpExeLogOrRollback (map wrap (map entry_copy es)) false (node_at ShardID (Z.of_nat i)))
    (seq 1 (size (default ∅ (Ip_nodeTable !! ShardID)) - 1)).

(** Why a served contract may stop the node. *)
Definition served_crash (why : string) : Prop := why = out_of_memory \/ why = "nil dereference".

(** A computation on the machine, as [serving] runs it. *)
Lemma serving_spec {A} bc r s sn (ctx := served_env hashes limit (Header (CurrentBlock bc)))
  (c : forall rd : StateReader, E (sdb := StateDB_interface (rd := rd)) A) (Q : A -> Mach -> Prop) :
  state_New bc = (Some (r, s), sn) -> wpE (c (reader_at r)) Q (new_machine cfg env earlier s) ->
  (exists a m' sent, Q a m' /\ serving earlier bc c = Val (sn, r, db m', a, map Sent sent)) \/
  (exists why, serving earlier bc c = Crash why /\ served_crash why) \/ serving earlier bc c = Spin.
Proof using Type.
  intros Hnew Hc. unfold serving. rewrite Hnew. unfold wpE in Hc.
  destruct (c (reader_at r) (new_machine cfg env earlier s)) as [[a m'] | why |].
  - left. by exists a, m', (drop (length earlier) (outbox m')).
  - right. left. exists why. split; [done |]. destruct Hc as [-> | [-> _]]; [by left | by right].
  - by right; right.
Qed.


(** Serving a creation of another shard is all or nothing, in memory. From any
    shared state that is in order, [handleOpCreateReq] answers the node that asked. If
    the address is taken or the constructor fails, the state cannot be told apart from
    the one before and the answer carries an error and no journal, but a database that
    the handler opened stays open. If it succeeds, the answer carries the journal, the
    other nodes of the shard are sent the entries the creation added, and the database
    is committed if the handler opened it. *)
Theorem create_request_atomic bc r s sn Caller Addr Code Value Gas FromShardId FromNodeId Id UUID :
  shared_ok bc -> state_New bc = (Some (r, s), sn) -> 20 <= zlen Caller -> short Code ->
  match handleOpCreateReq hashes limit fuel earlier bc Caller Addr Code Value Gas FromShardId FromNodeId Id UUID with
  | Val (bc', out) => exists s' sent, inv r s' /\
      ((exists ret err, same r s' s /\ bc' = with_global bc (Some (r, s')) /\
          out = map Sent sent ++ [COpCreateRes (mkCreateReply 0 ret err Id []) (node_at FromShardId FromNodeId)]) \/
       (exists ret s0 es t, same r s0 s /\ Entries (jrnl s') = Entries (jrnl s0) ++ es /\
          for_each (Revert (rd := reader_at r)) s' (rev (own es)) = Ret t /\ same r t s /\ bc' = close_state sn bc r s' /\
          out = map Sent sent ++ replica_log es ++
                [COpCreateRes (mkCreateReply 0 ret "" Id (journal_of s')) (node_at FromShardId FromNodeId)]))
  | Crash why => served_crash why
  | Spin => True
  end.
Proof using wok rok hyps.
  intros Hok Hnew Hc Hcode. pose proof (state_New_ok bc r s sn Hok Hnew) as Hs. set (ctx := served_env hashes limit (Header (CurrentBlock bc))).
  set (m := new_machine (rd := reader_at r) cfg env earlier s).
  destruct (serving_spec bc r s sn (fun rd => serve_create (Run fuel) Caller Addr Code Value Gas UUID)
    (fun r => match r with
              | None => unmoved (laws := StateDB_laws (rok := rok _)) m
              | Some (id, _, err) => fun m' => exists m1, unmoved (laws := StateDB_laws (rok := rok _)) m m1 /\
                                                 served (laws := StateDB_laws (rok := rok _)) m1 id err m'
              end) Hnew)
    as [(made & m' & sent & Hr & Hrun) | [(why & Hrun & Hwhy) | Hrun]].
  { apply serve_create_spec; [apply (MInv_new cr cfg (reader_at r) env earlier (rok r) s Hs) | done | done]. }
  all: unfold handleOpCreateReq; fold ctx; rewrite Hrun; try done.
  destruct made as [[[snap ret] err] |].
  - destruct Hr as (m1 & [Hst1 Hsame] & Hst & Hr). pose proof (mi_db _ (ms_inv _ _ Hst)) as Hi.
    destruct err as [e |].
    + exists (db m'), sent. split; [done | left]. exists ret, (vm_error e). split_and!; [| done | done].
      eapply transitivity; [exact Hr | exact Hsame].
    + destruct Hr as (s1 & Hsnap & Hstep). pose proof (mi_db _ (ms_inv _ _ Hst1)) as H1.
      destruct (recorded r (db m1) s1 snap (db m') H1 Hsnap Hstep) as (es & t & Hes & Hlog & Hu & Ht).
      cbn -[to_replicas]. unfold to_replicas. rewrite Hlog. exists (db m'), sent. split; [done | right].
      exists ret, (db m1), es, t. split_and!; try done. eapply transitivity; [exact Ht | exact Hsame].
  - destruct Hr as [Hst Hsame]. exists (db m'), sent. split; [apply (mi_db _ (ms_inv _ _ Hst)) | left].
    by exists [], "contract address collision".
Qed.
End Node.

(** ** A database that stays open *)

Section Open.
Context `{cfg : Config} `{cd : Codec} `{wd : World} `{env : NodeEnv} `{vm : EVM}.

(** A block built on a database that was open before is not committed, and the database
    is dropped. *)
Lemma GenerateBlock_open now account bc g bc' b msgs :
  GlobalStateDB bc = Some g -> GenerateBlock now account bc = Ret (bc', b, msgs) ->
  root bc' = root bc /\ GlobalStateDB bc' = None /\ StateRoot (Header b) = root bc.
Proof using Type.
  intros Hg. unfold GenerateBlock. destruct (PackTxs (Txpool bc) (BlockSize bc)) as [pool txs]. intros H.
  apply bind_Ret_inv in H as (coinbase & _ & H). apply bind_Ret_inv in H as ([[bc1 txs1] out] & Hu & H).
  injection H as <- <- <-. unfold GetUpdateStatusTrie in Hu. cbn [GlobalStateDB set_pool] in Hu. rewrite Hg in Hu.
  apply bind_Ret_inv in Hu as (e & _ & Hu). injection Hu as <- <- <-. cbn. by destruct (ex_db e) as [[] |].
Qed.
End Open.

Section Defects.
Context `{w : Uint256} `{cr : Crypto} `{cfg : Config} `{cd : Codec} `{wd : World} `{env : NodeEnv} `{rem : Remote} `{txt : ErrorText}.
Context `{vm : EVM} (hashes : Z -> Z) (limit : Z) (fuel : nat) (earlier : list EvmMsg).

Definition is_query (req : CrossReq) : bool :=
  match req with OpBalanceReq _ _ _ | OpCallCodeReq _ _ _ | OpDelegateCallReq _ _ _ => true | _ => false end.

Lemma query_opens bc req bc1 out :
  is_query req = true -> handleRequest hashes limit fuel earlier bc req = Val (bc1, out) ->
  exists g, bc1 = with_global bc (Some g).
Proof using Type.
  intros Hq H. destruct req; try done; cbn in H; unfold handleOpbanlanceReq, handleOpCallCodeReq, handleOpDelegateCallReq, query_code, mbind, res_bind in H;
    destruct (of_outcome (address_of_hex _)); try done;
    destruct (serving _ _ _) as [[[[[sn r] s] x] o] | |]; try done; try destruct x; cbn in H; injection H as <- <-; by eexists.
Qed.

(** A query from another shard makes a node lose its next block. Answering for the
    code or the balance of an account opens the shared database and leaves it open: the
    transactions of the next block run on it, [GetUpdateStatusTrie] takes it for one that
    somebody else will commit, and [GenerateBlock] drops it. The block names the root
    from before the query as its state, and that root is where the node goes on. *)
Theorem query_loses_block now account bc req bc1 out bc2 b msgs :
  is_query req = true -> handleRequest hashes limit fuel earlier bc req = Val (bc1, out) ->
  GenerateBlock now account bc1 = Ret (bc2, b, msgs) ->
  root bc2 = root bc /\ GlobalStateDB bc2 = None /\ StateRoot (Header b) = root bc.
Proof using Type.
  intros Hq Hr Hb. destruct (query_opens bc req bc1 out Hq Hr) as [g ->]. by apply (GenerateBlock_open _ _ _ g) in Hb.
Qed.

(** ** Rollbacks *)

Lemma over_wire_wrap es : map OriginalObj (over_wire (map wrap es)) = map zeroed es.
Proof using Type.
  induction es as [| e es IH]; [done |]. unfold over_wire in *. cbn [map omap list_omap].
  assert (UnmarshalJSON (MarshalJSON (wrap e)) = Some (mkWrapper (zeroed e) (entry_type e))) as -> by by destruct e.
  cbn. by rewrite <- IH.
Qed.

(** An entry that lost its fields only touches account zero. *)
Lemma Revert_zeroed `{rd : StateReader} s e s' :
  db_wf s -> Revert s (zeroed e) = Ret s' -> db_wf s' /\ forall a, a <> 0 -> live s' a = live s a.
Proof using Type.
  intros Hw. assert (Hobj : forall f, (forall o, address (f o) = address o) -> Ret (revert_obj s 0 f) = Ret s' ->
    db_wf s' /\ forall a, a <> 0 -> live s' a = live s a).
  { intros f Hf [= <-]. destruct (revert_obj_spec s 0 f Hw Hf) as (m & -> & Hwm & Hl). split; [done |].
    intros a Ha. by rewrite Hl, decide_False. }
  assert (Hrest : forall t, stateObjects t = stateObjects s -> stateObjectsDestruct t = stateObjectsDestruct s -> is_u64 (logSize t) ->
    db_wf t /\ forall a, a <> 0 -> live t a = live s a).
  { intros t Ho Hd Hz. split; [split; [rewrite Ho; apply Hw | done] |].
    intros a _. rewrite !live_eq. unfold destructed_at. by rewrite Ho, Hd. }
  pose proof (wf_logSize s Hw) as Hz.
  destruct e; cbn [zeroed Revert]; try (by apply Hobj); try (intros [= <-]; by apply Hrest).
  - intros [= <-]. split.
    + split; [| done]. intros a o. cbn. intros [_ H]%lookup_delete_Some. by apply (wf_address s Hw).
    + intros a Ha. rewrite !live_eq. cbn. by rewrite lookup_delete_ne.
  - intros H. apply bind_Ret_inv in H as (m & _ & [= <-]). apply Hrest; [done | done |]. cbn. apply u64_range.
Qed.

(** C40: a rollback between shards undoes nothing. When a call that served another shard
    has to be taken back, the shard that asked returns the journal entries, and the
    leader reverts them; but their fields did not survive the wire, so every one of them
    is applied to account zero. All other accounts, and so the credit and the storage
    the call wrote, stay as the call left them. *)
Theorem rollback_misses bc r s sn es bc' :
  NodeID = 0 -> state_New bc = (Some (r, s), sn) -> db_wf s ->
  handleCOpExeLogOrRollback bc (over_wire (map wrap es)) true = Ret bc' ->
  exists s', bc' = close_state sn bc r s' /\
    forall a, a <> 0 -> live (rd := reader_at r) s' a = live (rd := reader_at r) s a.
Proof using Type.
  intros Hn Hnew Hw. unfold handleCOpExeLogOrRollback. rewrite Hn, Hnew, over_wire_wrap. cbn [negb Z.eqb].
  intros H. apply bind_Ret_inv in H as (s' & Hs & [= <-]). exists s'. split; [done |].
  rewrite <- map_rev in Hs. clear Hnew. revert s Hw Hs. induction (rev es) as [| e l IH]; intros s Hw Hs.
  - by injection Hs as <-.
  - apply bind_Ret_inv in Hs as (s1 & H1 & Hs). destruct (Revert_zeroed (rd := reader_at r) s e s1 Hw H1) as [Hw1 Hl].
    intros a Ha. rewrite (IH s1 Hw1 Hs a Ha). by apply Hl.
Qed.

(** The rollback of a log entry stops the leader: there are no logs of the transaction
    with hash zero to shorten. *)
Lemma rollback_of_log_crashes bc r s sn h :
  NodeID = 0 -> state_New bc = (Some (r, s), sn) -> logs s !! 0 = None ->
  handleCOpExeLogOrRollback bc (over_wire (map wrap [AddLogChange h ShardID])) true = Panic "slice bounds out of range".
Proof using Type.
  intros Hn Hnew Hl. unfold handleCOpExeLogOrRollback. rewrite Hn, Hnew, over_wire_wrap. cbn. by rewrite Hl.
Qed.

(** The entries for replay are sent to the nodes of the shard after the first, and
    these ignore them. *)
Lemma replicas_ignore bc Log rollback : NodeID <> 0 -> handleCOpExeLogOrRollback bc Log rollback = Ret bc.
Proof using Type. intros Hn. unfold handleCOpExeLogOrRollback. by destruct (Z.eqb_spec NodeID 0). Qed.
End Defects.

(** ** Requests between shards, evaluated

    The theorems at the node of [EvmTheorems.v], which holds
    account 8 with money and a contract that fails, on a fresh chain. *)

Import Node.

#[local] Existing Instance sample_codec.

#[local] Instance world : World := {|
  OpenTrie := fun _ => true;
  reader_at := fun _ => reader;
  CommitRoot := fun r _ => String.append r "'";
  empty_root := "empty";
  GetTxTreeRoot := fun _ => "txs"
|}.

Definition chain : BlockChain := mkChain NewGenisisBlock NewStorage NewTxPool new_balance_map "empty" None ∅ 10.

Lemma served_assumptions bh : EvmAssumptions crypto default_config node silence (served_env (fun _ => 0) (2 ^ 40) bh).
Proof. split; try done. apply hash_inj. Qed.

Definition asker : list Z := be_bytes 20 0x77.
Definition hex8 : string := "0000000000000000000000000000000000000008".

#[local] Abbreviation call addr v := (handleOpCallReq (fun _ => 0) (2 ^ 40) 20 [] chain asker addr v 0 [] 1 0 "id" "uuid").


(** The constructor returns no code. *)
#[local] Abbreviation creation := (handleOpCreateReq (fun _ => 0) (2 ^ 40) 20 [] chain asker 0x44 [0] 0 0 1 0 "id" "uuid").

Lemma create_request_atomic_witness : exists bc' out s', creation = Val (bc', out) /\ db_inv s' /\ root bc' = "empty'".
Proof.
  pose proof (create_request_atomic words crypto default_config sample_codec world node silence texts (fun _ => 0) (2 ^ 40) 20 []
    words_ok (fun _ => reader_ok) served_assumptions chain "empty" New_StateDB true asker 0x44 [0] 0 0 1 0 "id" "uuid" Logic.I eq_refl) as H.
  destruct creation as [[bc' out] | why |] eqn:E; [| vm_compute in E; discriminate E | vm_compute in E; discriminate E].
  destruct H as (s' & sent & Hi & _); [vm_compute; discriminate | reflexivity |].
  exists bc', out, s'. split; [reflexivity |]. split; [exact Hi |]. vm_compute in E. injection E as <- _. reflexivity.
Defined.

(** A balance is asked for, then a block with a transfer is built. *)
Definition loaded : BlockChain := SendTx2Pool (fun _ => 1) chain [transfer_tx hex8 hex0 30 "BKC"].

Lemma query_loses_block_witness :
  exists bc1 out bc2 b msgs,
    handleRequest (fun _ => 0) (2 ^ 40) 20 [] loaded (OpBalanceReq hex8 1 0) = Val (bc1, out) /\
    GenerateBlock (vm := failing_evm) 7 hex0 bc1 = Ret (bc2, b, msgs) /\ length (Body b) = 1%nat /\ root bc2 = "empty".
Proof.
  destruct (handleRequest (fun _ => 0) (2 ^ 40) 20 [] loaded (OpBalanceReq hex8 1 0)) as [[bc1 out] | why |] eqn:E;
    [| vm_compute in E; discriminate E | vm_compute in E; discriminate E].
  destruct (GenerateBlock (vm := failing_evm) 7 hex0 bc1) as [[[bc2 b] msgs] | why] eqn:Eg;
    [| vm_compute in E; injection E as <- _; vm_compute in Eg; discriminate Eg].
  exists bc1, out, bc2, b, msgs. split; [reflexivity |]. split; [exact Eg |]. split.
  - vm_compute in E. injection E as <- _. vm_compute in Eg. injection Eg as _ <- _. reflexivity.
  - exact (proj1 (query_loses_block (vm := failing_evm) (fun _ => 0) (2 ^ 40) 20 [] 7 hex0 loaded (OpBalanceReq hex8 1 0)
      bc1 out bc2 b msgs eq_refl E Eg)).
Defined.

(** The credit of 5 to account 8, rolled back over the wire. *)
Lemma rollback_misses_witness :
  exists bc' s', handleCOpExeLogOrRollback chain (over_wire (map wrap [BalanceChange 8 500 505 0])) true = Ret bc' /\
    bc' = close_state true chain "empty" s' /\ live s' 8 = live New_StateDB 8.
Proof.
  destruct (handleCOpExeLogOrRollback chain (over_wire (map wrap [BalanceChange 8 500 505 0])) true) as [bc' | why] eqn:E;
    [| vm_compute in E; discriminate E].
  destruct (rollback_misses chain "empty" New_StateDB true [BalanceChange 8 500 505 0] bc') as (s' & Hbc & Hl).
  - reflexivity.
  - reflexivity.
  - apply New_StateDB_wf.
  - exact E.
  - exists bc', s'. split; [reflexivity |]. split; [exact Hbc |]. apply Hl. lia.
Defined.

