(* ===== verification/Pbft.v ===== *)
(** * The consensus node of a shard

    Models [consensus_shard/pbft_all]: the node's state ([PbftConsensusNode]), its
    construction ([NewPbftNode]), the consensus handlers of [messageHandle.go], the
    tools of [toolFuncs.go], the block module [pbftInside_moduleBroker_forB2E.go] and
    the outside module [pbftOutside_moduleBroker_forB2E.go].

    A handler runs under [pbftLock] and may first wait on the condition variable; a
    handler whose guard says to wait returns [None] and changes nothing, and is run
    again later. The maps [cntPrepareConfirm] and [cntCommitConfirm] are keyed by the
    pointer of the decoded sender, a new one for each message: they are the lists of
    senders, one entry per message. *)
From Stdlib Require Import ZArith Lia.
From stdpp Require Import base gmap strings list fin_maps pretty.
From S2P Require Import Prelude Utils JournalTypes Core Ledger AccessList StateDB StateDBSim StateDBProofs Execution Chain Message.

(** [sha256] of the JSON of a request. *)
Class ReqDigest (C : Type) := { getDigest : Request C -> string }.

(** What the nodes send: to the neighbours of the shard, to a node of a shard, or to
    the supervisor. *)
Inductive PbftMsg {C : Type} :=
| MPrePrepare (m : PrePrepare C)
| MPrepare (m : Prepare)
| MCommit (m : Commit)
| MRequestOld (m : RequestOldMessage)
| MSendOld (m : SendOldMessage C)
| MSeqIDinfo (m : SeqIDinfo)
| MBlockInfo (m : BlockInfoMsg)
| MBalanceReply (m : AccountBalanceReply)
| MExe (m : ExeMsg).
Arguments PbftMsg : clear implicits.

Inductive dest := Neighbours (ips : list string) | NodeAt (ip : string).

Section Pbft.
Context `{cfg : Config} `{cd : Codec} `{wd : World} `{env : NodeEnv} `{vm : EVM} `{rq : ReqDigest enc}.

Record PbftNode := mkNodeState {
  CurChain : @BlockChain cd;
  malicious_nums : Z;
  view : Z;
  sequenceID : Z;
  requestPool : gmap string (Request enc);
  cntPrepareConfirm : gmap string (list Node);
  cntCommitConfirm : gmap string (list Node);
  isCommitBordcast : gmap string bool;
  isReply : gmap string bool;
  height2Digest : gmap Z string;
  sequenceLock : bool;
  askForLock : bool;
  seqIDMap : gmap Z Z;
  pbftStage : Z
}.

Abbreviation outbox := (list (dest * PbftMsg enc)).

Definition node_ip (shard node : Z) : string := default "" (default ∅ (Ip_nodeTable !! shard) !! node).

Definition RunningNode : Node := mkNode NodeID ShardID (node_ip ShardID NodeID).

(** [NewPbftNode] on an opened chain: the counters of a fresh node. *)
Definition NewPbftNode (chain : @BlockChain cd) : PbftNode :=
  mkNodeState chain (u64 (NodesInShard - 1) / 3) 0 (u64 (Number (Header (CurrentBlock chain)) + 1))
    ∅ ∅ ∅ ∅ ∅ ∅ false false ∅ 1.

(** Field updates. *)
Definition with_chain (c : @BlockChain cd) (p : PbftNode) : PbftNode :=
  mkNodeState c (malicious_nums p) (view p) (sequenceID p) (requestPool p) (cntPrepareConfirm p) (cntCommitConfirm p)
    (isCommitBordcast p) (isReply p) (height2Digest p) (sequenceLock p) (askForLock p) (seqIDMap p) (pbftStage p).
Definition with_request (d : string) (r : Request enc) (p : PbftNode) : PbftNode :=
  mkNodeState (CurChain p) (malicious_nums p) (view p) (sequenceID p) (<[d := r]> (requestPool p)) (cntPrepareConfirm p)
    (cntCommitConfirm p) (isCommitBordcast p) (isReply p) (height2Digest p) (sequenceLock p) (askForLock p) (seqIDMap p)
    (pbftStage p).
Definition drop_request (d : string) (p : PbftNode) : PbftNode :=
  mkNodeState (CurChain p) (malicious_nums p) (view p) (sequenceID p) (delete d (requestPool p)) (cntPrepareConfirm p)
    (cntCommitConfirm p) (isCommitBordcast p) (isReply p) (height2Digest p) (sequenceLock p) (askForLock p) (seqIDMap p)
    (pbftStage p).
Definition with_height (h : Z) (d : string) (p : PbftNode) : PbftNode :=
  mkNodeState (CurChain p) (malicious_nums p) (view p) (sequenceID p) (requestPool p) (cntPrepareConfirm p)
    (cntCommitConfirm p) (isCommitBordcast p) (isReply p) (<[h := d]> (height2Digest p)) (sequenceLock p) (askForLock p)
    (seqIDMap p) (pbftStage p).
Definition with_confirms (pr cm : gmap string (list Node)) (p : PbftNode) : PbftNode :=
  mkNodeState (CurChain p) (malicious_nums p) (view p) (sequenceID p) (requestPool p) pr cm (isCommitBordcast p)
    (isReply p) (height2Digest p) (sequenceLock p) (askForLock p) (seqIDMap p) (pbftStage p).
Definition with_flags (cb rp : gmap string bool) (p : PbftNode) : PbftNode :=
  mkNodeState (CurChain p) (malicious_nums p) (view p) (sequenceID p) (requestPool p) (cntPrepareConfirm p)
    (cntCommitConfirm p) cb rp (height2Digest p) (sequenceLock p) (askForLock p) (seqIDMap p) (pbftStage p).
Definition with_seq (n : Z) (p : PbftNode) : PbftNode :=
  mkNodeState (CurChain p) (malicious_nums p) (view p) n (requestPool p) (cntPrepareConfirm p) (cntCommitConfirm p)
    (isCommitBordcast p) (isReply p) (height2Digest p) (sequenceLock p) (askForLock p) (seqIDMap p) (pbftStage p).
Definition with_locks (sl al : bool) (p : PbftNode) : PbftNode :=
  mkNodeState (CurChain p) (malicious_nums p) (view p) (sequenceID p) (requestPool p) (cntPrepareConfirm p)
    (cntCommitConfirm p) (isCommitBordcast p) (isReply p) (height2Digest p) sl al (seqIDMap p) (pbftStage p).
Definition with_stage (n : Z) (p : PbftNode) : PbftNode :=
  mkNodeState (CurChain p) (malicious_nums p) (view p) (sequenceID p) (requestPool p) (cntPrepareConfirm p)
    (cntCommitConfirm p) (isCommitBordcast p) (isReply p) (height2Digest p) (sequenceLock p) (askForLock p) (seqIDMap p) n.
Definition with_seqmap (m : gmap Z Z) (p : PbftNode) : PbftNode :=
  mkNodeState (CurChain p) (malicious_nums p) (view p) (sequenceID p) (requestPool p) (cntPrepareConfirm p)
    (cntCommitConfirm p) (isCommitBordcast p) (isReply p) (height2Digest p) (sequenceLock p) (askForLock p) m (pbftStage p).

(** ** [toolFuncs.go] *)

Definition set2DMap (isPrePareConfirm : bool) (key : string) (val : Node) (p : PbftNode) : PbftNode :=
  let add (m : gmap string (list Node)) := <[key := default [] (m !! key) ++ [val]]> m in
  if isPrePareConfirm then with_confirms (add (cntPrepareConfirm p)) (cntCommitConfirm p) p
  else with_confirms (cntPrepareConfirm p) (add (cntCommitConfirm p)) p.

(** The addresses of the shard; [networks.Broadcast] skips the sender's own. *)
Definition getNeighborNodes : list string := (map_to_list (default ∅ (Ip_nodeTable !! ShardID))).*2.

Definition broadcast (m : PbftMsg enc) : dest * PbftMsg enc :=
  (Neighbours (filter (fun ip => ip <> IPaddr RunningNode) getNeighborNodes), m).

Definition flag_of (m : gmap string bool) (d : string) : bool := default false (m !! d).

(** ** The block module *)

Definition HandleinPropose (now : Z) (NodeAccount : string) (p : PbftNode)
  : outcome (PbftNode * Request enc * list ExeMsg) :=
  r ← GenerateBlock now NodeAccount (CurChain p);
  let '(bc, block, msgs) := r in
  Ret (with_chain bc p, mkRequest BlockRequest (enc_block block) now, msgs).

Definition HandleinPrePrepare (ppmsg : PrePrepare enc) (p : PbftNode) : PbftNode * bool :=
  (with_request (pp_Digest ppmsg) (pp_RequestMsg ppmsg) p, true).

Definition HandleinPrepare (pmsg : Prepare) (p : PbftNode) : PbftNode * bool := (p, true).

(** The classes of a block's transactions in the report to the supervisor. *)
Record TxClasses := mkClasses {
  cl_excuted : list Transaction; cl_broker1 : list Transaction; cl_broker2 : list Transaction;
  cl_allocated : list Transaction
}.

Definition classify_tx (c : TxClasses) (tx : Transaction) : TxClasses :=
  if IsAllocatedRecipent tx || IsAllocatedSender tx
  then mkClasses (cl_excuted c) (cl_broker1 c) (cl_broker2 c) (cl_allocated c ++ [tx])
  else if Isbrokertx2 tx then mkClasses (cl_excuted c) (cl_broker1 c) (cl_broker2 c ++ [tx]) (cl_allocated c)
  else if Isbrokertx1 tx then mkClasses (cl_excuted c) (cl_broker1 c ++ [tx]) (cl_broker2 c) (cl_allocated c)
  else mkClasses (cl_excuted c ++ [tx]) (cl_broker1 c) (cl_broker2 c) (cl_allocated c).

Definition classify_body (body : list Transaction) : TxClasses := fold_left classify_tx body (mkClasses [] [] [] []).

Definition block_info (now proposed : Z) (body : list Transaction) : BlockInfoMsg :=
  let c := classify_body body in
  mkBlockInfo (zlen body) (cl_excuted c) 0 proposed now ShardID 0 [] (zlen (cl_broker1 c)) (cl_broker1 c)
    (zlen (cl_broker2 c)) (cl_broker2 c) (cl_allocated c).

(** The sequence numbers sent to the leaders of the other shards. *)
Definition seq_infos (p : PbftNode) : outbox :=
  map (fun sid => (NodeAt (node_ip sid 0), MSeqIDinfo (mkSeqIDinfo ShardID (sequenceID p))))
    (filter (fun sid => sid <> ShardID) (map Z.of_nat (seq 0 (Z.to_nat ShardNum)))).

(** Where the messages of an execution go. *)
Definition exe_out (m : ExeMsg) : dest * PbftMsg enc :=
  (NodeAt (match m with OpExeLogOrRollback r => rb_to r | _ => node_ip DeciderShard 0 end), MExe m).

(** [HandleinCommit]: append the block; the leader reports it. *)
Definition HandleinCommit (now : Z) (cmsg : Commit) (p : PbftNode) : outcome (PbftNode * outbox) :=
  r ← deref (requestPool p !! c_Digest cmsg);
  block ← deref (dec_block (Content r));
  a ← AddBlock now (CurChain p) block;
  let '(bc, msgs) := a in
  let p1 := with_chain bc p in
  let exe := map exe_out msgs in
  if NodeID =? view p then
    Ret (p1, exe ++ seq_infos p ++
             [(NodeAt (node_ip DeciderShard 0), MBlockInfo (block_info now (ReqTime r) (Body (CurrentBlock bc))))])
  else Ret (p1, exe).

(** [HandleforSequentialRequest]; the difference of the heights is the wrapped one. *)
Fixpoint add_old_blocks (now : Z) (c : @BlockChain cd) (n : nat) (i : Z) (reqs : list (Request enc))
  : outcome (@BlockChain cd) :=
  match n with
  | O => Ret c
  | S n' =>
      r ← idx reqs i;
      c1 ← (if decide (RequestType r = BlockRequest) then
              b ← deref (dec_block (Content r)); a ← AddBlock now c b; Ret (fst a)
            else Ret c);
      add_old_blocks now c1 n' (i + 1) reqs
  end.

Definition HandleforSequentialRequest (now : Z) (som : SendOldMessage enc) (p : PbftNode) : outcome PbftNode :=
  if negb (i64 (so_SeqStartHeight som - so_SeqEndHeight som) =? zlen (so_OldRequest som)) then Ret p
  else
    c ← add_old_blocks now (CurChain p) (Z.to_nat (so_SeqEndHeight som + 1 - so_SeqStartHeight som)) 0
          (so_OldRequest som);
    Ret (with_seq (u64 (so_SeqEndHeight som + 1)) (with_chain c p)).

(** ** The consensus handlers ([messageHandle.go]) *)

(** One iteration of [Propose]: the leader takes the sequence lock (or waits for it),
    builds a block and broadcasts it. *)
Definition Propose (now : Z) (NodeAccount : string) (p : PbftNode) : outcome (option (PbftNode * outbox)) :=
  if negb (view p =? NodeID) then Ret (Some (p, []))
  else if sequenceLock p then Ret None
  else
    h ← HandleinPropose now NodeAccount (with_locks true (askForLock p) p);
    let '(p1, r, msgs) := h in
    let digest := getDigest r in
    let p2 := with_height (sequenceID p1) digest (with_request digest r p1) in
    Ret (Some (with_stage 2 p2,
               map exe_out msgs ++ [broadcast (MPrePrepare (mkPrePrepare r digest (sequenceID p1)))])).

Definition handlePrePrepare (ppmsg : PrePrepare enc) (p : PbftNode) : option (PbftNode * outbox) :=
  if (pbftStage p <? 1) && (sequenceID p <=? pp_SeqID ppmsg) then None
  else
    let digest := getDigest (pp_RequestMsg ppmsg) in
    let keep (q : PbftNode) := with_height (pp_SeqID ppmsg) digest (with_request digest (pp_RequestMsg ppmsg) q) in
    let p1 :=
      if negb (bool_decide (digest = pp_Digest ppmsg)) then p
      else if sequenceID p <? pp_SeqID ppmsg then keep p
      else keep (fst (HandleinPrePrepare ppmsg p)) in
    Some (with_stage (pbftStage p1 + 1) p1,
          [broadcast (MPrepare (mkPrepare (pp_Digest ppmsg) (pp_SeqID ppmsg) RunningNode))]).

(** The number of prepares after which a node commits. *)
Definition prepare_quorum (p : PbftNode) : Z :=
  if NodeID =? view p then i64 (2 * malicious_nums p) else i64 (2 * malicious_nums p) - 1.

Definition handlePrepare (pmsg : Prepare) (p : PbftNode) : option (PbftNode * outbox) :=
  if (pbftStage p <? 2) && (sequenceID p <=? p_SeqID pmsg) then None
  else if p_SeqID pmsg <? sequenceID p then Some (p, [])
  else
    match requestPool p !! p_Digest pmsg with
    | None => Some (p, [])
    | Some _ =>
        if sequenceID p <? p_SeqID pmsg then Some (p, [])
        else
          let p1 := set2DMap true (p_Digest pmsg) (p_SenderNode pmsg) (fst (HandleinPrepare pmsg p)) in
          let cnt := zlen (default [] (cntPrepareConfirm p1 !! p_Digest pmsg)) in
          if (prepare_quorum p1 <=? cnt) && negb (flag_of (isCommitBordcast p1) (p_Digest pmsg)) then
            Some (with_stage (pbftStage p1 + 1)
                    (with_flags (<[p_Digest pmsg := true]> (isCommitBordcast p1)) (isReply p1) p1),
                  [broadcast (MCommit (mkCommit (p_Digest pmsg) (p_SeqID pmsg) RunningNode))])
          else Some (p1, [])
    end.

(** [handleCommit]. Asking for old blocks takes [askForLock], which blocks while an
    earlier request is unanswered; unlocking a sequence lock that is not held is
    fatal. *)
Definition handleCommit (now : Z) (cmsg : Commit) (p : PbftNode) : outcome (option (PbftNode * outbox)) :=
  if (pbftStage p <? 3) && (sequenceID p <=? c_SeqID cmsg) then Ret None
  else
    let d := c_Digest cmsg in
    let p1 := set2DMap false d (c_SenderNode cmsg) p in
    let cnt := zlen (default [] (cntCommitConfirm p1 !! d)) in
    if (i64 (2 * malicious_nums p1) <=? cnt) && negb (flag_of (isReply p1) d) then
      let replied (q : PbftNode) := with_flags (isCommitBordcast q) (<[d := true]> (isReply q)) q in
      let unlock (q : PbftNode) (out : outbox) : outcome (option (PbftNode * outbox)) :=
        if NodeID =? view q then
          if sequenceLock q then Ret (Some (with_locks false (askForLock q) (with_stage 1 q), out))
          else Panic "sync: unlock of unlocked mutex"
        else Ret (Some (with_stage 1 q, out)) in
      match requestPool p1 !! d with
      | None =>
          if askForLock p1 then Ret None
          else
            let server := mkNode (view p1) ShardID (node_ip ShardID (view p1)) in
            unlock (with_locks (sequenceLock p1) true (replied p1))
              [(NodeAt (IPaddr server),
                MRequestOld (mkRequestOld (u64 (sequenceID p1 + 1)) (c_SeqID cmsg) server RunningNode))]
      | Some _ =>
          h ← HandleinCommit now cmsg p1;
          let '(p2, out) := h in
          unlock (drop_request d (with_seq (u64 (sequenceID p2 + 1)) (replied p2))) out
      end
    else Ret (Some (p1, [])).

(** The requests from a height on, as long as both maps have them. *)
Fixpoint old_requests (n : nat) (height : Z) (p : PbftNode) : list (Request enc) :=
  match n with
  | O => []
  | S n' =>
      match height2Digest p !! height ≫= fun d => requestPool p !! d with
      | None => []
      | Some r => r :: old_requests n' (height + 1) p
      end
  end.

Definition handleRequestOldSeq (rom : RequestOldMessage) (p : PbftNode) : PbftNode * outbox :=
  if negb (view p =? NodeID) then (p, [])
  else
    let n := Z.to_nat (ro_SeqEndHeight rom + 1 - ro_SeqStartHeight rom) in
    (p, [(NodeAt (IPaddr (ro_SenderNode rom)),
          MSendOld (mkSendOld (ro_SeqStartHeight rom) (ro_SeqEndHeight rom) (old_requests n (ro_SeqStartHeight rom) p)
                      RunningNode))]).

(** One old request taken over. *)
Definition take_old (beginSeq : Z) (p : PbftNode) (ir : nat * Request enc) : PbftNode :=
  let '(i, r) := ir in
  let d := getDigest r in
  let p1 := with_height (u64 (Z.of_nat i + beginSeq)) d (with_request d r p) in
  with_flags (isCommitBordcast p1) (<[d := true]> (isReply p1)) p1.

Definition handleSendOldSeq (now : Z) (som : SendOldMessage enc) (p : PbftNode) : outcome (PbftNode * outbox) :=
  p1 ← HandleforSequentialRequest now som p;
  let p2 := fold_left (take_old (so_SeqStartHeight som)) (imap (fun i r => (i, r)) (so_OldRequest som)) p1 in
  let p3 := with_seq (u64 (so_SeqEndHeight som + 1)) p2 in
  let '(p4, out) :=
    match height2Digest p3 !! sequenceID p3 ≫= fun d => requestPool p3 !! d with
    | None => (p3, [])
    | Some r =>
        let ppmsg := mkPrePrepare r (getDigest r) (sequenceID p3) in
        let '(q, flag) := HandleinPrePrepare ppmsg p3 in
        (q, if flag : bool then [broadcast (MPrepare (mkPrepare (pp_Digest ppmsg) (pp_SeqID ppmsg) RunningNode))] else [])
    end in
  if askForLock p4 then Ret (with_locks (sequenceLock p4) false p4, out)
  else Panic "sync: unlock of unlocked mutex".

(** ** The outside module *)

Definition handleSeqIDinfos (sii : SeqIDinfo) (p : PbftNode) : PbftNode :=
  with_seqmap (<[si_SenderShardID sii := SenderSeq sii]> (seqIDMap p)) p.

Definition handleInjectTx (clock : nat -> Z) (it : InjectTxs) (p : PbftNode) : PbftNode :=
  with_chain (set_pool (CurChain p) (AddTxs2Pool clock (Txpool (CurChain p)) (Txs it))) p.

Definition handleInjectTxHead (it : InjectTxs) (p : PbftNode) : PbftNode :=
  with_chain (set_pool (CurChain p) (AddTxs2Pool_Head (Txpool (CurChain p)) (Txs it))) p.

Definition handleBalanceQuery (q : AccountBalanceQuery) (p : PbftNode) : AccountBalanceReply :=
  mkBalReply (q_Addr q) (handleAccQuery (ledger (CurChain p)) (q_Addr q) (q_TXType q)) (q_TXType q).

(** ** A node's run *)

Inductive event :=
| EPropose (now : Z) (account : string)
| EPrePrepare (m : PrePrepare enc)
| EPrepare (m : Prepare)
| ECommit (now : Z) (m : Commit)
| ERequestOld (m : RequestOldMessage)
| ESendOld (now : Z) (m : SendOldMessage enc)
| ESeqID (m : SeqIDinfo)
| EInject (now : Z) (m : InjectTxs)
| EInjectHead (m : InjectTxs)
| EQuery (ip : string) (m : AccountBalanceQuery).

(** The handler of an event; [None] when it has to wait. *)
Definition handle (p : PbftNode) (e : event) : outcome (option (PbftNode * outbox)) :=
  match e with
  | EPropose now account => Propose now account p
  | EPrePrepare m => Ret (handlePrePrepare m p)
  | EPrepare m => Ret (handlePrepare m p)
  | ECommit now m => handleCommit now m p
  | ERequestOld m => Ret (Some (handleRequestOldSeq m p))
  | ESendOld now m => r ← handleSendOldSeq now m p; Ret (Some r)
  | ESeqID m => Ret (Some (handleSeqIDinfos m p, []))
  | EInject now m => Ret (Some (handleInjectTx (fun _ => now) m p, []))
  | EInjectHead m => Ret (Some (handleInjectTxHead m p, []))
  | EQuery ip m => Ret (Some (p, [(NodeAt ip, MBalanceReply (handleBalanceQuery m p))]))
  end.

(** A run: each event is handled in a state in which it does not wait. *)
Definition handle_now (st : PbftNode * outbox) (e : event) : outcome (PbftNode * outbox) :=
  r ← handle (fst st) e;
  match r with
  | None => Panic "waits"
  | Some (p, out) => Ret (p, snd st ++ out)
  end.

Definition run_node (p : PbftNode) (es : list event) : outcome (PbftNode * outbox) := for_each handle_now (p, []) es.
End Pbft.
