(* ===== verification/PbftProofs.v ===== *)
(** * Properties of the consensus node

    Safety of a single node's run under any schedule of messages (a digest is applied
    at most once, only after the votes the handlers count, and the sequence number
    counts the applied blocks), completion of a round on a leader and on a replica, the
    report of a committed block, and the places where the handlers do less than the
    protocol asks. *)
From Stdlib Require Import ZArith Lia.
From stdpp Require Import base gmap strings list fin_maps pretty.
From S2P Require Import Prelude Utils JournalTypes Core Ledger Message AccessList StateDB StateDBSim StateDBProofs Execution Chain.
From S2P Require Import Pbft.

(** ** Properties of the consensus node *)

Section Proofs.
Context `{cfg : Config} `{cd : Codec} `{wd : World} `{env : NodeEnv} `{vm : EVM} `{rq : ReqDigest enc}.

(** ** What a run applies *)

(** The digest whose block this event appends to the chain, if any. *)
Definition applies (p : PbftNode) (e : event) : option string :=
  match e with
  | ECommit _ m =>
      let d := c_Digest m in
      let cnt := zlen (default [] (cntCommitConfirm p !! d)) + 1 in
      if (pbftStage p <? 3) && (sequenceID p <=? c_SeqID m) then None
      else if (i64 (2 * malicious_nums p) <=? cnt) && negb (flag_of (isReply p) d) then
        match requestPool p !! d with Some _ => Some d | None => None end
      else None
  | _ => None
  end.

(** The hash of the block waiting under a digest. *)
Definition waiting_hash (p : PbftNode) (d : string) : string :=
  match requestPool p !! d with
  | Some r => match dec_block (Content r) with Some b => Hash b | None => "" end
  | None => ""
  end.

(** The digests applied over a run, each with the hash of its block. *)
Fixpoint applied (p : PbftNode) (es : list event) : list (string * string) :=
  match es with
  | [] => []
  | e :: es' =>
      map (fun d => (d, waiting_hash p d)) (option_list (applies p e)) ++
      match handle p e with Ret (Some (p', _)) => applied p' es' | _ => [] end
  end.

(** What the block store holds: the hashes of the stored blocks and the newest one. *)
Definition stored (p : PbftNode) : gset string * option string :=
  (dom (blockBucket (Store (CurChain p))), newestBlockHash (Store (CurChain p))).

(** The same after one more block. *)
Definition store_one (st : gset string * option string) (h : string) : gset string * option string :=
  ({[h]} ∪ st.1, Some h).

Definition is_commit (d : string) (e : event) : bool :=
  match e with ECommit _ m => bool_decide (c_Digest m = d) | _ => false end.
Definition is_prepare (d : string) (e : event) : bool :=
  match e with EPrepare m => bool_decide (p_Digest m = d) | _ => false end.
Definition is_sendold (e : event) : bool := match e with ESendOld _ _ => true | _ => false end.

Definition votes (f : event -> bool) (es : list event) : Z := zlen (filter (fun e => f e = true) es).

Lemma votes_cons f e es : votes f (e :: es) = (if f e then 1 else 0) + votes f es.
Proof. unfold votes, zlen. rewrite filter_cons. destruct (f e); case_decide; try done; cbn; lia. Qed.

(** ** One step *)

(** What every step keeps: the configuration, the replies already given, the votes
    (which grow by the delivered ones), and the sequence number, except where a block
    is applied or old blocks arrive. A commit is broadcast only on a prepare quorum at
    the current sequence number. *)
Record step_ok (p : PbftNode) (e : event) (p' : PbftNode) (out : list (dest * PbftMsg enc)) : Prop := {
  so_f : malicious_nums p' = malicious_nums p;
  so_view : view p' = view p;
  so_reply : forall d, flag_of (isReply p) d = true -> flag_of (isReply p') d = true;
  so_commits : forall d, zlen (default [] (cntCommitConfirm p' !! d)) =
                 zlen (default [] (cntCommitConfirm p !! d)) + (if is_commit d e then 1 else 0);
  so_prepares : forall d, zlen (default [] (cntPrepareConfirm p' !! d)) <=
                  zlen (default [] (cntPrepareConfirm p !! d)) + (if is_prepare d e then 1 else 0);
  so_seq : is_sendold e = false ->
           sequenceID p' = match applies p e with Some _ => u64 (sequenceID p + 1) | None => sequenceID p end;
  so_stored : is_sendold e = false ->
           stored p' = match applies p e with Some d => store_one (stored p) (waiting_hash p d) | None => stored p end;
  so_applies : forall d, applies p e = Some d ->
     is_commit d e = true /\ flag_of (isReply p) d = false /\ flag_of (isReply p') d = true /\
     i64 (2 * malicious_nums p) <= zlen (default [] (cntCommitConfirm p' !! d));
  so_out : forall c to, (to, MCommit c) ∈ out ->
     prepare_quorum p <= zlen (default [] (cntPrepareConfirm p' !! c_Digest c)) /\ c_SeqID c = sequenceID p
}.

(** A step that touches neither the votes nor the sequence number. *)
Lemma quiet_step p e p' out :
  (match e with ECommit _ _ => False | _ => True end) ->
  malicious_nums p' = malicious_nums p -> view p' = view p ->
  (forall d, flag_of (isReply p) d = true -> flag_of (isReply p') d = true) ->
  cntCommitConfirm p' = cntCommitConfirm p -> cntPrepareConfirm p' = cntPrepareConfirm p ->
  (is_sendold e = false -> sequenceID p' = sequenceID p /\ stored p' = stored p) -> (forall c to, (to, MCommit c) ∉ out) ->
  step_ok p e p' out.
Proof.
  intros He Hf Hv Hr Hc Hp Hs Ho. split; try done.
  - intros d. rewrite Hc. destruct e; try done; cbn; lia.
  - intros d. rewrite Hp. destruct (is_prepare d e); lia.
  - intros [-> _]%Hs. by destruct e.
  - intros [_ ->]%Hs. by destruct e.
  - intros d. by destruct e.
  - intros c to Hin. by apply Ho in Hin.
Qed.

Lemma zlen_add (m : gmap string (list Node)) k v d :
  zlen (default [] (<[k := default [] (m !! k) ++ [v]]> m !! d)) =
  zlen (default [] (m !! d)) + (if bool_decide (k = d) then 1 else 0).
Proof.
  rewrite lookup_insert. case_bool_decide as E; rewrite ?decide_True, ?decide_False by done.
  - subst d. cbn. unfold zlen. rewrite length_app. cbn. lia.
  - lia.
Qed.

Lemma flag_insert (m : gmap string bool) k d :
  flag_of (<[k := true]> m) d = if decide (k = d) then true else flag_of m d.
Proof. unfold flag_of. rewrite lookup_insert. by case_decide. Qed.

Lemma not_commit_broadcast (ps : list (dest * PbftMsg enc)) :
  Forall (fun o => match snd o with MCommit _ => False | _ => True end) ps ->
  forall c to, (to, MCommit c) ∉ ps.
Proof. intros H c to Hin. rewrite Forall_forall in H. by apply H in Hin. Qed.

Lemma exe_outs_quiet msgs : Forall (fun o : dest * PbftMsg enc => match snd o with MCommit _ => False | _ => True end)
  (map exe_out msgs).
Proof. apply Forall_fmap, Forall_true. by intros. Qed.

Lemma HandleinPropose_keeps now acct p p1 r msgs :
  HandleinPropose now acct p = Ret (p1, r, msgs) -> (exists bc, p1 = with_chain bc p) /\ stored p1 = stored p.
Proof.
  unfold HandleinPropose. intros H. apply bind_Ret_inv in H as ([[bc b] ms] & Hg & [= <- _ _]). split; [by eauto |].
  apply GenerateBlock_store in Hg as [Hb Hn]. unfold stored. cbn. by rewrite Hb, Hn.
Qed.

Lemma Propose_step now acct p p' out : Propose now acct p = Ret (Some (p', out)) -> step_ok p (EPropose now acct) p' out.
Proof.
  unfold Propose. destruct (negb (view p =? NodeID)).
  - intros [= <- <-]. apply quiet_step; try done. by intros ??; apply not_elem_of_nil.
  - destruct (sequenceLock p); [done |]. intros H. apply bind_Ret_inv in H as ([[p1 r] msgs] & Hp & [= <- <-]).
    destruct (HandleinPropose_keeps _ _ _ _ _ _ Hp) as [[bc ->] Hst]. apply quiet_step; try done.
    apply not_commit_broadcast, Forall_app. split; [apply exe_outs_quiet | by repeat constructor].
Qed.

Lemma PrePrepare_step m p p' out : handlePrePrepare m p = Some (p', out) -> step_ok p (EPrePrepare m) p' out.
Proof.
  unfold handlePrePrepare. destruct (_ && _); [done |]. intros [= <- <-].
  apply quiet_step; try (by repeat case_match); try done. apply not_commit_broadcast. by repeat constructor.
Qed.

Lemma Prepare_step m p p' out : handlePrepare m p = Some (p', out) -> step_ok p (EPrepare m) p' out.
Proof.
  unfold handlePrepare. intros H.
  assert (Hquiet : (p, []) = (p', out) -> step_ok p (EPrepare m) p' out).
  { intros [= <- <-]. apply quiet_step; try done. by intros ??; apply not_elem_of_nil. }
  destruct ((pbftStage p <? 2) && (sequenceID p <=? p_SeqID m)); [done |].
  destruct (p_SeqID m <? sequenceID p) eqn:E1; [apply Hquiet; congruence |].
  destruct (requestPool p !! p_Digest m); [| apply Hquiet; congruence].
  destruct (sequenceID p <? p_SeqID m) eqn:E2; [apply Hquiet; congruence |]. clear Hquiet.
  apply Z.ltb_ge in E1, E2. cbn [fst HandleinPrepare] in H.
  set (p1 := set2DMap true (p_Digest m) (p_SenderNode m) p) in *.
  assert (Hpr : forall d, zlen (default [] (cntPrepareConfirm p1 !! d)) =
    zlen (default [] (cntPrepareConfirm p !! d)) + (if bool_decide (p_Digest m = d) then 1 else 0)).
  { intros d. unfold p1, set2DMap. cbn -[zlen]. apply zlen_add. }
  destruct ((prepare_quorum p1 <=? _) && _) eqn:Eq; injection H as <- <-.
  - apply andb_true_iff in Eq as [Hq%Z.leb_le _]. split; try done.
    + intros d. cbn -[zlen]. lia.
    + intros d. cbn -[zlen bool_decide]. rewrite <- Hpr. cbn -[zlen]. lia.
    + intros c to Hin. apply list_elem_of_singleton in Hin. unfold broadcast in Hin. injection Hin as _ ->. cbn -[zlen].
      split; [exact Hq | lia].
  - split; try done.
    + intros d. cbn -[zlen]. lia.
    + intros d. cbn -[zlen bool_decide]. rewrite <- Hpr. cbn -[zlen]. lia.
    + intros c to Hin. by apply not_elem_of_nil in Hin.
Qed.

Lemma HandleinCommit_keeps now m p p2 out :
  HandleinCommit now m p = Ret (p2, out) ->
  (exists bc, p2 = with_chain bc p) /\ stored p2 = store_one (stored p) (waiting_hash p (c_Digest m)) /\
  Forall (fun o => match snd o with MCommit _ => False | _ => True end) out.
Proof.
  unfold HandleinCommit. intros H. apply bind_Ret_inv in H as (r & Hr & H). apply bind_Ret_inv in H as (b & Hb & H).
  apply bind_Ret_inv in H as ([bc msgs] & Ha & H).
  assert (Hst : stored (with_chain bc p) = store_one (stored p) (waiting_hash p (c_Digest m))).
  { apply AddBlock_store in Ha as [Hd Hn]. unfold stored, store_one, waiting_hash. cbn. rewrite Hd, Hn.
    destruct (requestPool p !! c_Digest m) as [q |]; [| done]. cbn in Hr. injection Hr as ->.
    destruct (dec_block (Content r)) as [b' |]; [| done]. cbn in Hb. by injection Hb as ->. }
  destruct (NodeID =? view p); injection H as <- <-; (split; [by eauto |]); (split; [exact Hst |]).
  - apply Forall_app. split; [apply exe_outs_quiet |]. apply Forall_app. split; [| by repeat constructor].
    apply Forall_fmap, Forall_true. by intros.
  - apply exe_outs_quiet.
Qed.

(** The state after a commit whose block is applied. *)
Lemma commit_applies now m p p' out d :
  handleCommit now m p = Ret (Some (p', out)) -> applies p (ECommit now m) = Some d ->
  d = c_Digest m /\ exists bc p2, HandleinCommit now m (set2DMap false d (c_SenderNode m) p) = Ret (p2, out) /\
    p2 = with_chain bc (set2DMap false d (c_SenderNode m) p) /\
    p' = with_stage 1 (with_locks (if NodeID =? view p then false else sequenceLock p) (askForLock p)
           (drop_request d (with_seq (u64 (sequenceID p + 1))
             (with_flags (isCommitBordcast p) (<[d := true]> (isReply p)) p2)))).
Proof.
  unfold handleCommit, applies. destruct ((pbftStage p <? 3) && (sequenceID p <=? c_SeqID m)); [done |].
  set (p1 := set2DMap false (c_Digest m) (c_SenderNode m) p).
  assert (Hcnt : zlen (default [] (cntCommitConfirm p1 !! c_Digest m)) =
                 zlen (default [] (cntCommitConfirm p !! c_Digest m)) + 1).
  { unfold p1, set2DMap. cbn -[zlen]. rewrite zlen_add, bool_decide_eq_true_2 by done. done. }
  rewrite Hcnt. change (malicious_nums p1) with (malicious_nums p). change (isReply p1) with (isReply p).
  change (requestPool p1) with (requestPool p). intros H Ha.
  destruct ((i64 (2 * malicious_nums p) <=? _) && _); [| done].
  destruct (requestPool p !! c_Digest m) eqn:Er; [| done]. injection Ha as <-. split; [done |].
  apply bind_Ret_inv in H as ([p2 o2] & Hc & H).
  destruct (HandleinCommit_keeps _ _ _ _ _ Hc) as [[bc ->] _]. cbn in H.
  exists bc, (with_chain bc p1). destruct (NodeID =? view p).
  - destruct (sequenceLock p); [| done]. injection H as <- <-. split_and!; done.
  - injection H as <- <-. split_and!; done.
Qed.

(** The state after a commit quorum whose request is missing: the node asks for the old
    blocks. *)
Lemma commit_asks now m p p' out :
  handleCommit now m p = Ret (Some (p', out)) -> (pbftStage p <? 3) && (sequenceID p <=? c_SeqID m) = false ->
  let p1 := set2DMap false (c_Digest m) (c_SenderNode m) p in
  (i64 (2 * malicious_nums p) <=? zlen (default [] (cntCommitConfirm p1 !! c_Digest m))) &&
    negb (flag_of (isReply p) (c_Digest m)) = true ->
  requestPool p !! c_Digest m = None ->
  (exists sl, p' = with_stage 1 (with_locks sl true
                 (with_flags (isCommitBordcast p1) (<[c_Digest m := true]> (isReply p1)) p1))) /\
  exists o q, out = [(NodeAt o, MRequestOld q)].
Proof.
  intros H Ew p1 Eq Er. unfold handleCommit in H. rewrite Ew in H. fold p1 in H.
  change (malicious_nums p1) with (malicious_nums p) in H. change (isReply p1) with (isReply p) in H.
  change (requestPool p1) with (requestPool p) in H. rewrite Eq, Er in H.
  destruct (askForLock p1); [done |]. cbn in H. destruct (NodeID =? view p).
  - destruct (sequenceLock p); [| done]. injection H as <- <-. eauto.
  - injection H as <- <-. eauto.
Qed.

Lemma Commit_step now m p p' out : handleCommit now m p = Ret (Some (p', out)) -> step_ok p (ECommit now m) p' out.
Proof.
  intros H. pose proof H as H0. unfold handleCommit in H.
  destruct ((pbftStage p <? 3) && (sequenceID p <=? c_SeqID m)) eqn:Ew; [done |].
  set (d := c_Digest m) in *. set (p1 := set2DMap false d (c_SenderNode m) p) in *.
  assert (Hcnt : forall d', zlen (default [] (cntCommitConfirm p1 !! d')) =
                 zlen (default [] (cntCommitConfirm p !! d')) + (if bool_decide (d = d') then 1 else 0)).
  { intros d'. unfold p1, set2DMap. cbn -[zlen]. apply zlen_add. }
  assert (Happ : applies p (ECommit now m) =
    if (i64 (2 * malicious_nums p) <=? zlen (default [] (cntCommitConfirm p1 !! d))) && negb (flag_of (isReply p) d)
    then (match requestPool p !! d with Some _ => Some d | None => None end) else None).
  { unfold applies. rewrite Ew. fold d. rewrite Hcnt, bool_decide_eq_true_2 by done. done. }
  change (malicious_nums p1) with (malicious_nums p) in H. change (isReply p1) with (isReply p) in H.
  change (requestPool p1) with (requestPool p) in H.
  destruct ((i64 (2 * malicious_nums p) <=? _) && _) eqn:Eq; rewrite ?Eq in Happ.
  - apply andb_true_iff in Eq as [Hq%Z.leb_le Hn%negb_true_iff]. destruct (requestPool p !! d) eqn:Er.
    + destruct (commit_applies now m p p' out d H0 Happ) as (_ & bc & p2 & Hc & -> & ->). fold d in Hc. fold p1 in Hc.
      apply HandleinCommit_keeps in Hc as (_ & Hst & Hc). split; try done.
      * intros d'. cbn. rewrite flag_insert. by case_decide.
      * intros d'. cbn -[zlen]. lia.
      * intros _. rewrite Happ. done.
      * intros _. rewrite Happ. exact Hst.
      * intros d'. rewrite Happ. intros [= <-]. split_and!; [by apply bool_decide_eq_true | done | | exact Hq].
        cbn. by rewrite flag_insert, decide_True.
      * intros c to Hin. by apply (not_commit_broadcast out Hc) in Hin.
    + destruct (commit_asks now m p p' out H0 Ew) as [[sl ->] (o & q & ->)]; [| done |].
      { fold d p1. by rewrite (proj2 (Z.leb_le _ _) Hq), Hn. }
      split; try done.
      * intros d'. cbn. rewrite flag_insert. by case_decide.
      * intros d'. cbn -[zlen]. lia.
      * intros _. by rewrite Happ.
      * intros _. by rewrite Happ.
      * intros d'. by rewrite Happ.
      * intros c to Hin. by apply list_elem_of_singleton in Hin.
  - injection H as <- <-. split; try done.
    + intros d'. cbn -[zlen]. lia.
    + intros _. by rewrite Happ.
    + intros _. by rewrite Happ.
    + intros d'. by rewrite Happ.
    + intros c to Hin. by apply not_elem_of_nil in Hin.
Qed.

Lemma take_old_keeps s l p :
  let p' := fold_left (take_old s) l p in
  malicious_nums p' = malicious_nums p /\ view p' = view p /\ cntCommitConfirm p' = cntCommitConfirm p /\
  cntPrepareConfirm p' = cntPrepareConfirm p /\ CurChain p' = CurChain p /\
  (forall d, flag_of (isReply p) d = true -> flag_of (isReply p') d = true).
Proof.
  revert p. induction l as [| [i r] l IH]; intros p; cbn [fold_left]; [done |].
  destruct (IH (take_old s p (i, r))) as (-> & -> & -> & -> & -> & Hr). split_and!; try done.
  intros d Hd. apply Hr. cbn. rewrite flag_insert. by case_decide.
Qed.

Lemma SendOld_step now m p p' out : handleSendOldSeq now m p = Ret (p', out) -> step_ok p (ESendOld now m) p' out.
Proof.
  unfold handleSendOldSeq. intros H. apply bind_Ret_inv in H as (p1 & H1 & H).
  assert (exists c n, p1 = with_seq n (with_chain c p)) as (c & n & ->).
  { unfold HandleforSequentialRequest in H1. destruct (negb _).
    - injection H1 as <-. exists (CurChain p), (sequenceID p). by destruct p.
    - apply bind_Ret_inv in H1 as (c & _ & [= <-]). eauto. }
  set (l := imap _ _) in H.
  destruct (take_old_keeps (so_SeqStartHeight m) l (with_seq n (with_chain c p))) as (K1 & K2 & K3 & K4 & _ & K5).
  set (p2 := fold_left _ l _) in *. cbn in K1, K2, K3, K4, K5, H.
  destruct (match height2Digest p2 !! _ ≫= _ with Some _ => _ | None => _ end) as [p4 o4] eqn:E4.
  assert (Hp4 : exists rp, p4 = rp /\ malicious_nums rp = malicious_nums p2 /\ view rp = view p2 /\
     cntCommitConfirm rp = cntCommitConfirm p2 /\ cntPrepareConfirm rp = cntPrepareConfirm p2 /\ isReply rp = isReply p2 /\
     Forall (fun o => match snd o with MCommit _ => False | _ => True end) o4).
  { exists p4. destruct (height2Digest p2 !! _ ≫= _); injection E4 as <- <-; split_and!; try done; by repeat constructor. }
  destruct Hp4 as (rp & -> & R1 & R2 & R3 & R4 & R5 & R6). clear E4.
  destruct (askForLock rp); [| done]. injection H as <- <-. apply quiet_step; cbn; try done; try congruence.
  - intros d Hd. rewrite R5. by apply K5.
  - by apply not_commit_broadcast.
Qed.

Lemma handle_spec p e p' out : handle p e = Ret (Some (p', out)) -> step_ok p e p' out.
Proof.
  destruct e; cbn; intros H.
  - by apply Propose_step.
  - apply PrePrepare_step. congruence.
  - apply Prepare_step. congruence.
  - by apply Commit_step.
  - unfold handleRequestOldSeq in H. destruct (negb _); injection H as <- <-; apply quiet_step; try done;
      apply not_commit_broadcast; by repeat constructor.
  - apply bind_Ret_inv in H as ([q o] & H & [= <- <-]). by apply SendOld_step.
  - injection H as <- <-. apply quiet_step; try done. by intros ??; apply not_elem_of_nil.
  - injection H as <- <-. apply quiet_step; try done. by intros ??; apply not_elem_of_nil.
  - injection H as <- <-. apply quiet_step; try done. by intros ??; apply not_elem_of_nil.
  - injection H as <- <-. apply quiet_step; try done. apply not_commit_broadcast. by repeat constructor.
Qed.

(** ** Whole runs *)

Lemma handle_now_inv st e p' out :
  handle_now st e = Ret (p', out) -> exists o, handle (fst st) e = Ret (Some (p', o)) /\ out = snd st ++ o.
Proof.
  unfold handle_now. intros H. apply bind_Ret_inv in H as ([[q o] |] & H1 & H); [| done].
  injection H as <- <-. eauto.
Qed.

Lemma run_cons p out0 e es p1 o :
  handle p e = Ret (Some (p1, o)) ->
  for_each handle_now (p, out0) (e :: es) = for_each handle_now (p1, out0 ++ o) es.
Proof.
  intros H. cbn [for_each]. assert (handle_now (p, out0) e = Ret (p1, out0 ++ o)) as ->; [| done].
  unfold handle_now. cbn [fst snd]. by rewrite H.
Qed.

Lemma run_safe es p out0 p' out :
  for_each handle_now (p, out0) es = Ret (p', out) ->
  malicious_nums p' = malicious_nums p /\
  NoDup (applied p es).*1 /\
  (forall d, d ∈ (applied p es).*1 -> flag_of (isReply p) d = false /\
     i64 (2 * malicious_nums p) <= zlen (default [] (cntCommitConfirm p !! d)) + votes (is_commit d) es) /\
  (Forall (fun e => is_sendold e = false) es -> sequenceID p' = u64 (sequenceID p + zlen (applied p es)) \/ applied p es = []) /\
  (Forall (fun e => is_sendold e = false) es -> applied p es = [] -> sequenceID p' = sequenceID p) /\
  (Forall (fun e => is_sendold e = false) es -> stored p' = foldl store_one (stored p) (applied p es).*2) /\
  (forall c to, (to, MCommit c) ∈ out -> (to, MCommit c) ∈ out0 \/
     prepare_quorum p <= zlen (default [] (cntPrepareConfirm p !! c_Digest c)) + votes (is_prepare (c_Digest c)) es).
Proof.
  revert p out0. induction es as [| e es IH]; intros p out0 Hr; cbn [for_each] in Hr.
  - injection Hr as <- <-. split_and!; try done; [apply NoDup_nil_2 | by intros d ?%not_elem_of_nil | by right | by left].
  - apply bind_Ret_inv in Hr as ([p1 o1] & H1 & Hr). apply handle_now_inv in H1 as (o & H1 & ->). cbn [fst snd] in *.
    pose proof (handle_spec p e p1 o H1) as S. destruct (IH p1 (out0 ++ o) Hr) as (I0 & I1 & I2 & I3 & I4 & I6 & I5).
    assert (Hap : applied p (e :: es) = map (fun d => (d, waiting_hash p d)) (option_list (applies p e)) ++ applied p1 es)
      by (cbn [applied]; by rewrite H1).
    assert (Hfst : (applied p (e :: es)).*1 = option_list (applies p e) ++ (applied p1 es).*1).
    { rewrite Hap, fmap_app. f_equal. by destruct (applies p e). }
    rewrite Hfst, Hap. destruct S.
    assert (Hmem : forall d, d ∈ option_list (applies p e) -> applies p e = Some d).
    { intros d. destruct (applies p e); cbn; [rewrite list_elem_of_singleton; congruence | by rewrite elem_of_nil]. }
    split_and!.
    + congruence.
    + apply NoDup_app. split_and!; [destruct (applies p e); cbn; [apply NoDup_singleton | apply NoDup_nil_2] | | done].
      intros d Hd Hd'. apply Hmem, so_applies0 in Hd as (_ & _ & Hd & _). apply I2 in Hd' as [Hd' _]. congruence.
    + intros d Hd. rewrite votes_cons. pose proof (so_commits0 d) as Hc. apply elem_of_app in Hd as [Hd | Hd].
      * apply Hmem, so_applies0 in Hd as (He & Hf & _ & Hq). split; [done |]. rewrite He in Hc |- *.
        assert (0 <= votes (is_commit d) es) by (unfold votes, zlen; lia). cbv iota in *. lia.
      * apply I2 in Hd as [Hd Hq]. rewrite so_f0 in Hq. split; [| lia].
        destruct (flag_of (isReply p) d) eqn:E; [| done]. apply so_reply0 in E. congruence.
    + intros Hf. apply Forall_cons in Hf as [Hf Hfs]. specialize (so_seq0 Hf).
      destruct (applies p e) as [x |].
      * left. change (option_list (Some x)) with [x]. unfold zlen. cbn [map app length]. destruct (I3 Hfs) as [I | I].
        -- rewrite I, so_seq0. unfold u64, zlen. rewrite Zplus_mod_idemp_l.
           apply (f_equal (fun x => x mod 2 ^ 64)). lia.
        -- rewrite (I4 Hfs I), so_seq0, I. done.
      * rewrite <- so_seq0. by apply I3.
    + intros Hf Hnil. apply Forall_cons in Hf as [Hf Hfs]. specialize (so_seq0 Hf).
      destruct (applies p e); [done |]. rewrite <- so_seq0. by apply I4.
    + intros Hf. apply Forall_cons in Hf as [Hf Hfs]. rewrite (I6 Hfs), (so_stored0 Hf), fmap_app, foldl_app.
      by destruct (applies p e).
    + intros c to Hin. rewrite votes_cons. pose proof (so_prepares0 (c_Digest c)) as Hc.
      destruct (I5 c to Hin) as [Hin' | Hq].
      * apply elem_of_app in Hin' as [Hin' | Hin']; [by left |]. right. apply so_out0 in Hin' as [Hq _].
        assert (0 <= votes (is_prepare (c_Digest c)) es) by (unfold votes, zlen; lia). lia.
      * right. unfold prepare_quorum in *. rewrite so_view0, so_f0 in Hq. lia.
Qed.

(** C3: safety of a node under any schedule. Whatever messages a fresh node is given, in
    whatever order, duplicated or forged: no request is applied twice; each request it
    applies has had at least 2f commit messages delivered; each commit it broadcasts has
    had at least the prepare quorum of prepare messages delivered; and, as long as no
    old blocks are sent to it, its block store holds what it held before and the blocks
    of the applied requests, the last of them the newest, and its sequence number has
    advanced by exactly their number. *)
Theorem node_run_safe (chain : @BlockChain cd) (es : list event) (p' : PbftNode) (out : list (dest * PbftMsg enc)) :
  let p := NewPbftNode chain in
  run_node p es = Ret (p', out) ->
  NoDup (applied p es).*1 /\
  (forall d, d ∈ (applied p es).*1 -> i64 (2 * malicious_nums p) <= votes (is_commit d) es) /\
  (forall c to, (to, MCommit c) ∈ out -> prepare_quorum p <= votes (is_prepare (c_Digest c)) es) /\
  (Forall (fun e => is_sendold e = false) es ->
   stored p' = foldl store_one (stored p) (applied p es).*2 /\
   sequenceID p' = u64 (sequenceID p + zlen (applied p es))).
Proof.
  intros p Hr. destruct (run_safe es p [] p' out Hr) as (_ & H1 & H2 & H3 & H4 & H6 & H5).
  split_and!; [done | | |].
  - intros d Hd. apply H2 in Hd as [_ Hd]. exact Hd.
  - intros c to Hin. destruct (H5 c to Hin) as [Hin' | Hq]; [by apply not_elem_of_nil in Hin' | exact Hq].
  - intros Hf. split; [by apply H6 |]. destruct (H3 Hf) as [H | H]; [done |]. rewrite (H4 Hf H), H. cbn. rewrite Z.add_0_r.
    symmetry. apply u64_small, u64_range.
Qed.

Definition is_allocated (tx : Transaction) : bool := IsAllocatedRecipent tx || IsAllocatedSender tx.

Lemma classify_body_spec body :
  cl_allocated (classify_body body) = filter (fun tx => is_allocated tx = true) body /\
  cl_broker2 (classify_body body) = filter (fun tx => is_allocated tx = false /\ Isbrokertx2 tx = true) body /\
  cl_broker1 (classify_body body) = filter (fun tx => is_allocated tx = false /\ Isbrokertx2 tx = false /\ Isbrokertx1 tx = true) body /\
  cl_excuted (classify_body body) = filter (fun tx => is_allocated tx = false /\ Isbrokertx2 tx = false /\ Isbrokertx1 tx = false) body.
Proof.
  unfold classify_body.
  assert (H : forall c, let c' := fold_left classify_tx body c in
    cl_allocated c' = cl_allocated c ++ filter (fun tx => is_allocated tx = true) body /\
    cl_broker2 c' = cl_broker2 c ++ filter (fun tx => is_allocated tx = false /\ Isbrokertx2 tx = true) body /\
    cl_broker1 c' = cl_broker1 c ++ filter (fun tx => is_allocated tx = false /\ Isbrokertx2 tx = false /\ Isbrokertx1 tx = true) body /\
    cl_excuted c' = cl_excuted c ++ filter (fun tx => is_allocated tx = false /\ Isbrokertx2 tx = false /\ Isbrokertx1 tx = false) body).
  { induction body as [| tx l IH]; intros c; cbn [fold_left]; [by rewrite !app_nil_r |].
    destruct (IH (classify_tx c tx)) as (-> & -> & -> & ->). rewrite !filter_cons. unfold classify_tx.
    fold (is_allocated tx). destruct (is_allocated tx), (Isbrokertx2 tx), (Isbrokertx1 tx); cbn;
      repeat (rewrite decide_True by tauto || rewrite decide_False by intuition congruence);
      rewrite <- ?app_assoc; done. }
  apply (H (mkClasses [] [] [] [])).
Qed.

(** The report of a committed block accounts for every transaction of its body: the
    executed, first-half, second-half and allocated lists are together a permutation of
    it, each in body order, each transaction in the list its flags say, and the counts
    are the lengths. *)
Theorem block_info_partition (now proposed : Z) (body : list Transaction) :
  let m := block_info now proposed body in
  AllocatedTxs m = filter (fun tx => is_allocated tx = true) body /\
  Broker2Txs m = filter (fun tx => is_allocated tx = false /\ Isbrokertx2 tx = true) body /\
  Broker1Txs m = filter (fun tx => is_allocated tx = false /\ Isbrokertx2 tx = false /\ Isbrokertx1 tx = true) body /\
  ExcutedTxs m = filter (fun tx => is_allocated tx = false /\ Isbrokertx2 tx = false /\ Isbrokertx1 tx = false) body /\
  ExcutedTxs m ++ Broker1Txs m ++ Broker2Txs m ++ AllocatedTxs m ≡ₚ body /\
  BlockBodyLength m = zlen (ExcutedTxs m) + Broker1TxNum m + Broker2TxNum m + zlen (AllocatedTxs m).
Proof.
  intros m. unfold m, block_info. cbn [AllocatedTxs Broker2Txs Broker1Txs ExcutedTxs BlockBodyLength Broker1TxNum Broker2TxNum].
  destruct (classify_body_spec body) as (H1 & H2 & H3 & H4).
  assert (Hp : cl_excuted (classify_body body) ++ cl_broker1 (classify_body body) ++ cl_broker2 (classify_body body) ++
               cl_allocated (classify_body body) ≡ₚ body).
  { rewrite H1, H2, H3, H4. clear. induction body as [| tx l IH]; [done |]. rewrite !filter_cons.
    destruct (is_allocated tx), (Isbrokertx2 tx), (Isbrokertx1 tx);
      repeat (rewrite decide_True by tauto || rewrite decide_False by intuition congruence);
      (etrans; [| apply perm_skip, IH]); solve_Permutation. }
  split_and!; [done.. |]. apply Permutation_length in Hp. rewrite !length_app in Hp. unfold zlen. lia.
Qed.

(** A replica votes for whatever it is sent. A pre-prepare that is not waiting is
    answered with a prepare for the digest it claims and moves the stage on, even when
    the claimed digest is not the digest of the request it carries (then nothing is
    stored) or the sequence number is not the node's. *)
Theorem handlePrePrepare_always_votes (m : PrePrepare enc) (p : PbftNode) :
  1 <= pbftStage p ->
  exists p', handlePrePrepare m p =
    Some (p', [broadcast (MPrepare (mkPrepare (pp_Digest m) (pp_SeqID m) RunningNode))]) /\
    pbftStage p' = pbftStage p + 1 /\
    (getDigest (pp_RequestMsg m) <> pp_Digest m -> requestPool p' = requestPool p).
Proof.
  intros Hs. unfold handlePrePrepare. destruct (Z.ltb_spec (pbftStage p) 1); [lia |]. cbn [andb].
  eexists. split; [reflexivity |]. split; [by repeat case_match |].
  intros Hd. rewrite bool_decide_eq_false_2 by done. done.
Qed.

(** Catching up never adds a block. A complete answer to a request for old blocks
    (one request per height) fails the count test, whose difference of heights is
    negative: the chain stays as it was, yet the node moves its sequence number past
    the last height and marks every old request as replied. *)
Theorem catch_up_adds_nothing (now : Z) (som : SendOldMessage enc) (p p' : PbftNode) (out : list (dest * PbftMsg enc)) :
  0 <= so_SeqStartHeight som <= so_SeqEndHeight som -> so_SeqEndHeight som < 2 ^ 62 ->
  zlen (so_OldRequest som) = so_SeqEndHeight som - so_SeqStartHeight som + 1 ->
  handleSendOldSeq now som p = Ret (p', out) ->
  CurChain p' = CurChain p /\ sequenceID p' = so_SeqEndHeight som + 1.
Proof.
  intros Hh Hb Hl H. unfold handleSendOldSeq, HandleforSequentialRequest in H.
  rewrite i64_small in H by lia.
  destruct (Z.eqb_spec (so_SeqStartHeight som - so_SeqEndHeight som) (zlen (so_OldRequest som))); [lia |]. cbn [negb] in H.
  rewrite bind_Ret in H. set (l := imap _ _) in H.
  destruct (take_old_keeps (so_SeqStartHeight som) l p) as (_ & _ & _ & _ & K & _).
  set (p2 := fold_left _ l _) in *. rewrite u64_small in H by (unfold is_u64; lia). cbn [sequenceID with_seq] in H.
  destruct (match height2Digest (with_seq _ p2) !! _ ≫= _ with Some _ => _ | None => _ end) as [p4 o4] eqn:E4.
  assert (CurChain p4 = CurChain p2 /\ sequenceID p4 = so_SeqEndHeight som + 1) as [Hc Hq].
  { destruct (_ ≫= _); injection E4 as <- <-; done. }
  destruct (askForLock p4); [| done]. injection H as <- <-. cbn. by rewrite Hc, Hq.
Qed.

(** ** A round completes *)

(** The votes of a round. *)
Definition prepares (d : string) (k : Z) (senders : list Node) : list event :=
  map (fun n => EPrepare (mkPrepare d k n)) senders.
Definition commits (now : Z) (d : string) (k : Z) (senders : list Node) : list event :=
  map (fun n => ECommit now (mkCommit d k n)) senders.

(** The node has the request of the round and counts votes for it. *)
Record in_round (c : @BlockChain cd) (f v k : Z) (d : string) (r : Request enc) (locked : bool)
  (stage np nc : Z) (sent : bool) (p : PbftNode) : Prop := {
  ir_chain : CurChain p = c;
  ir_f : malicious_nums p = f;
  ir_view : view p = v;
  ir_seq : sequenceID p = k;
  ir_req : requestPool p !! d = Some r;
  ir_lock : sequenceLock p = locked;
  ir_stage : pbftStage p = stage;
  ir_prepares : zlen (default [] (cntPrepareConfirm p !! d)) = np;
  ir_commits : zlen (default [] (cntCommitConfirm p !! d)) = nc;
  ir_sent : flag_of (isCommitBordcast p) d = sent;
  ir_reply : flag_of (isReply p) d = false
}.

Lemma prepare_in_round c f v k d r locked stage np nc sent p n :
  in_round c f v k d r locked stage np nc sent p -> 2 <= stage ->
  let q := if NodeID =? v then i64 (2 * f) else i64 (2 * f) - 1 in
  let fires := (q <=? np + 1) && negb sent in
  exists p', handle p (EPrepare (mkPrepare d k n)) =
    Ret (Some (p', if fires then [broadcast (MCommit (mkCommit d k RunningNode))] else [])) /\
    in_round c f v k d r locked (if fires then stage + 1 else stage) (np + 1) nc (sent || fires) p'.
Proof.
  intros [] Hs q fires. cbn [handle]. unfold handlePrepare. cbn [p_SeqID p_Digest p_SenderNode].
  rewrite ir_stage0, ir_seq0, ir_req0. destruct (Z.ltb_spec stage 2); [lia |]. cbn [andb].
  rewrite Z.ltb_irrefl. cbn [HandleinPrepare fst].
  set (p1 := set2DMap true d n p).
  assert (Hn : zlen (default [] (cntPrepareConfirm p1 !! d)) = np + 1).
  { unfold p1, set2DMap. cbn -[zlen]. rewrite zlen_add, bool_decide_eq_true_2 by done. lia. }
  assert (Hq : prepare_quorum p1 = q).
  { unfold prepare_quorum, q. change (view p1) with (view p). change (malicious_nums p1) with (malicious_nums p).
    by rewrite ir_view0, ir_f0. }
  rewrite Hn, Hq. change (isCommitBordcast p1) with (isCommitBordcast p). rewrite ir_sent0.
  change ((q <=? np + 1) && negb sent) with fires. destruct fires eqn:Ef; eexists; (split; [reflexivity |]); split; try done.
  - cbn. by rewrite ir_stage0.
  - cbn. rewrite flag_insert, decide_True by done. by rewrite orb_true_r.
  - by rewrite orb_false_r.
Qed.

Section Round.
Context (c : @BlockChain cd) (f v k now : Z) (r : Request enc) (b : Block) (locked : bool).
Context (Hf : 1 <= f < 2 ^ 62) (Hk : 0 <= k < 2 ^ 64 - 1).
Context (Hdec : dec_block (Content r) = Some b) (Hok : CodecOk cd) (Hhash : Hash b <> "") (Hroot : OpenTrie (root c) = true).
Context (Hlocked : locked = (NodeID =? v)).

Let d := getDigest r.
Let quorum := if NodeID =? v then 2 * f else 2 * f - 1.

Lemma two_f : i64 (2 * f) = 2 * f.
Proof. apply i64_small. lia. Qed.

Lemma prepares_phase senders p out0 np sent :
  in_round c f v k d r locked (if sent : bool then 3 else 2) np 0 sent p ->
  (sent = false -> quorum <= np + zlen senders /\ np < quorum) ->
  exists p', for_each handle_now (p, out0) (prepares d k senders) =
      Ret (p', out0 ++ if sent then [] else [broadcast (MCommit (mkCommit d k RunningNode))]) /\
    in_round c f v k d r locked 3 (np + zlen senders) 0 true p'.
Proof.
  revert p out0 np sent. induction senders as [| n senders IH]; intros p out0 np sent Hin Hq.
  - destruct sent; [| exfalso; destruct Hq as [H1 H2]; [done |]; unfold zlen in H1; cbn in H1; lia].
    exists p. cbn [prepares map for_each]. rewrite app_nil_r. split; [done |].
    unfold zlen. cbn [length]. by rewrite Z.add_0_r.
  - destruct (prepare_in_round c f v k d r locked _ np 0 sent p n Hin) as (p1 & H1 & Hin1); [destruct sent; lia |].
    rewrite two_f in H1, Hin1. fold quorum in H1, Hin1.
    assert (Hz : np + zlen (n :: senders) = np + 1 + zlen senders) by (unfold zlen; cbn [length]; lia).
    change (prepares d k (n :: senders)) with (EPrepare (mkPrepare d k n) :: prepares d k senders).
    rewrite (run_cons _ _ _ _ _ _ H1).
    destruct sent.
    + rewrite andb_false_r in *. cbn [orb] in Hin1.
      destruct (IH p1 (out0 ++ []) (np + 1) true Hin1) as (p' & Hr & Hin'); [done |].
      rewrite !app_nil_r in *. exists p'. by rewrite Hz.
    + rewrite andb_true_r in *. cbn [orb] in Hin1. destruct (Z.leb_spec quorum (np + 1)) as [Hle | Hgt].
      * destruct (IH p1 (out0 ++ [broadcast (MCommit (mkCommit d k RunningNode))]) (np + 1) true Hin1) as (p' & Hr & Hin'); [done |].
        rewrite app_nil_r in Hr. exists p'. by rewrite Hz.
      * destruct (IH p1 (out0 ++ []) (np + 1) false Hin1) as (p' & Hr & Hin'); [destruct Hq; [done |]; lia |].
        rewrite !app_nil_r in *. exists p'. rewrite Hz. done.
Qed.

(** The node after the round. *)
Record after_round (p : PbftNode) : Prop := {
  ar_block : CurrentBlock (CurChain p) = b;
  ar_ledger : ledger (CurChain p) = ledger c;
  ar_stored : GetBlock (Store (CurChain p)) (Hash b) = Ret (inl b);
  ar_f : malicious_nums p = f;
  ar_seq : sequenceID p = k + 1;
  ar_reply : flag_of (isReply p) d = true;
  ar_stage : pbftStage p = 1;
  ar_lock : sequenceLock p = false
}.

(** The report the leader sends when the block is applied. *)
Definition round_report : list (dest * PbftMsg enc) :=
  if NodeID =? v
  then map (fun sid => (NodeAt (node_ip sid 0), MSeqIDinfo (mkSeqIDinfo ShardID k)))
         (filter (fun sid => sid <> ShardID) (map Z.of_nat (seq 0 (Z.to_nat ShardNum)))) ++
       [(NodeAt (node_ip DeciderShard 0), MBlockInfo (block_info now (ReqTime r) (Body b)))]
  else [].

Lemma commit_counts np nc p n :
  in_round c f v k d r locked 3 np nc true p -> nc + 1 < 2 * f ->
  exists p', handle p (ECommit now (mkCommit d k n)) = Ret (Some (p', [])) /\
    in_round c f v k d r locked 3 np (nc + 1) true p'.
Proof.
  intros [] Hn. cbn [handle]. unfold handleCommit. cbn [c_SeqID c_Digest c_SenderNode].
  rewrite ir_stage0. change ((3 <? 3) && _) with false. cbv iota.
  set (p1 := set2DMap false d n p).
  assert (Hc : zlen (default [] (cntCommitConfirm p1 !! d)) = nc + 1).
  { unfold p1, set2DMap. cbn -[zlen]. rewrite zlen_add, bool_decide_eq_true_2 by done. lia. }
  rewrite Hc. change (malicious_nums p1) with (malicious_nums p). rewrite ir_f0, two_f.
  destruct (Z.leb_spec (2 * f) (nc + 1)); [lia |]. cbn [andb]. exists p1. split; [done |]. by split.
Qed.

Lemma commit_fires np nc p n :
  in_round c f v k d r locked 3 np nc true p -> 2 * f <= nc + 1 ->
  exists p', handle p (ECommit now (mkCommit d k n)) = Ret (Some (p', round_report)) /\ after_round p'.
Proof.
  intros [] Hn. cbn [handle]. unfold handleCommit. cbn [c_SeqID c_Digest c_SenderNode].
  rewrite ir_stage0. change ((3 <? 3) && _) with false. cbv iota.
  set (p1 := set2DMap false d n p).
  assert (Hc : zlen (default [] (cntCommitConfirm p1 !! d)) = nc + 1).
  { unfold p1, set2DMap. cbn -[zlen]. rewrite zlen_add, bool_decide_eq_true_2 by done. lia. }
  rewrite Hc. change (malicious_nums p1) with (malicious_nums p). change (isReply p1) with (isReply p).
  rewrite ir_f0, two_f, ir_reply0. destruct (Z.leb_spec (2 * f) (nc + 1)); [| lia]. cbn [andb negb].
  change (requestPool p1) with (requestPool p). rewrite ir_req0. unfold HandleinCommit. cbn [c_Digest].
  change (requestPool p1) with (requestPool p). rewrite ir_req0. cbn [deref mbind outcome_bind]. rewrite Hdec.
  cbn [deref mbind outcome_bind]. change (CurChain p1) with (CurChain p). rewrite ir_chain0.
  destruct (AddBlock_open_spec now c b Hok Hhash Hroot) as (c' & -> & Hcb & Hst & Hld & _). cbn [mbind outcome_bind].
  assert (Hu : u64 (k + 1) = k + 1) by (apply u64_add_1; lia).
  unfold round_report. change (view p1) with (view p). rewrite ir_view0.
  destruct (NodeID =? v) eqn:Ev; cbn; rewrite ir_view0, Ev.
  - rewrite ir_lock0, Hlocked. rewrite Hcb. unfold seq_infos. cbn. rewrite ir_seq0, Hu.
    eexists. split; [reflexivity |]. split; cbn; try done. by rewrite flag_insert, decide_True.
  - rewrite ir_seq0, Hu. eexists. split; [reflexivity |]. split; cbn; try done; [| congruence].
    by rewrite flag_insert, decide_True.
Qed.

Lemma commit_late p n :
  after_round p ->
  exists p', handle p (ECommit now (mkCommit d k n)) = Ret (Some (p', [])) /\ after_round p'.
Proof.
  intros []. cbn [handle]. unfold handleCommit. cbn [c_SeqID c_Digest c_SenderNode].
  rewrite ar_seq0. destruct (Z.leb_spec (k + 1) k); [lia |]. rewrite andb_false_r.
  set (p1 := set2DMap false d n p). change (isReply p1) with (isReply p). rewrite ar_reply0.
  rewrite andb_false_r. exists p1. split; [done |]. by split.
Qed.

Lemma late_phase senders p out0 :
  after_round p ->
  exists p', for_each handle_now (p, out0) (commits now d k senders) = Ret (p', out0) /\ after_round p'.
Proof.
  revert p. induction senders as [| n senders IH]; intros p Hp; [by exists p |].
  destruct (commit_late p n Hp) as (p1 & H1 & Hp1). destruct (IH p1 Hp1) as (p' & Hr & Hp').
  change (commits now d k (n :: senders)) with (ECommit now (mkCommit d k n) :: commits now d k senders).
  rewrite (run_cons _ _ _ _ _ _ H1), app_nil_r. eauto.
Qed.

Lemma commits_phase senders p out0 np nc :
  in_round c f v k d r locked 3 np nc true p -> nc < 2 * f -> 2 * f <= nc + zlen senders ->
  exists p', for_each handle_now (p, out0) (commits now d k senders) = Ret (p', out0 ++ round_report) /\ after_round p'.
Proof.
  revert p nc. induction senders as [| n senders IH]; intros p nc Hin Hlt Hge.
  - unfold zlen in Hge. cbn in Hge. lia.
  - change (commits now d k (n :: senders)) with (ECommit now (mkCommit d k n) :: commits now d k senders).
    destruct (Z_lt_le_dec (nc + 1) (2 * f)) as [H | H].
    + destruct (commit_counts np nc p n Hin H) as (p1 & H1 & Hin1). rewrite (run_cons _ _ _ _ _ _ H1), app_nil_r.
      apply (IH p1 (nc + 1)); [done | done |]. unfold zlen in *. cbn [length] in Hge. lia.
    + destruct (commit_fires np nc p n Hin H) as (p1 & H1 & Hp1). rewrite (run_cons _ _ _ _ _ _ H1).
      by apply late_phase.
Qed.

(** The votes of a round, from a node that holds the request. *)
Lemma round_completes prs cms p out0 :
  in_round c f v k d r locked 2 0 0 false p -> quorum <= zlen prs -> 2 * f <= zlen cms ->
  exists p', for_each handle_now (p, out0) (prepares d k prs ++ commits now d k cms) =
      Ret (p', (out0 ++ [broadcast (MCommit (mkCommit d k RunningNode))]) ++ round_report) /\ after_round p'.
Proof.
  intros Hin Hp Hc. rewrite for_each_app.
  destruct (prepares_phase prs p out0 0 false Hin) as (p1 & -> & Hin1).
  { intros _. split; [lia |]. unfold quorum. destruct (NodeID =? v); lia. }
  cbn [mbind outcome_bind]. eapply commits_phase; [exact Hin1 | lia | lia].
Qed.
End Round.

(** A node between two rounds, with nothing recorded for the digest [d] yet. *)
Record ready (d : string) (p : PbftNode) : Prop := {
  rd_stage : pbftStage p = 1;
  rd_lock : sequenceLock p = false;
  rd_prepares : cntPrepareConfirm p !! d = None;
  rd_commits : cntCommitConfirm p !! d = None;
  rd_sent : flag_of (isCommitBordcast p) d = false;
  rd_reply : flag_of (isReply p) d = false
}.

Lemma replica_round_spec (c : @BlockChain cd) (k now : Z) (r : Request enc) (b : Block) (prs cms : list Node) (p : PbftNode) :
  let d := getDigest r in
  CodecOk cd -> dec_block (Content r) = Some b -> Hash b <> "" ->
  CurChain p = c -> OpenTrie (root c) = true -> sequenceID p = k -> 0 <= k < 2 ^ 64 - 1 ->
  NodeID <> view p -> 1 <= malicious_nums p < 2 ^ 62 -> ready d p ->
  2 * malicious_nums p - 1 <= zlen prs -> 2 * malicious_nums p <= zlen cms ->
  exists p', run_node p (EPrePrepare (mkPrePrepare r d k) :: prepares d k prs ++ commits now d k cms) =
      Ret (p', [broadcast (MPrepare (mkPrepare d k RunningNode)); broadcast (MCommit (mkCommit d k RunningNode))]) /\
    CurrentBlock (CurChain p') = b /\ GetBlock (Store (CurChain p')) (Hash b) = Ret (inl b) /\
    sequenceID p' = k + 1 /\ pbftStage p' = 1 /\ ledger (CurChain p') = ledger c.
Proof.
  intros d Hok Hdec Hh Hc Hroot Hk Hkb Hv Hf [] Hp Hcm. unfold run_node.
  assert (Hpp : exists p1, handle p (EPrePrepare (mkPrePrepare r d k)) =
    Ret (Some (p1, [broadcast (MPrepare (mkPrepare d k RunningNode))])) /\
    in_round c (malicious_nums p) (view p) k d r false 2 0 0 false p1).
  { cbn [handle]. unfold handlePrePrepare. cbn [pp_SeqID pp_RequestMsg pp_Digest]. rewrite rd_stage0.
    change ((1 <? 1) && _) with false. cbv iota. fold d. rewrite bool_decide_eq_true_2 by done. cbn [negb].
    rewrite Hk, Z.ltb_irrefl. eexists. split; [reflexivity |]. split; cbn; try done.
    - by rewrite lookup_insert_eq.
    - by rewrite rd_stage0.
    - by rewrite rd_prepares0.
    - by rewrite rd_commits0. }
  destruct Hpp as (p1 & H1 & Hin). rewrite (run_cons _ _ _ _ _ _ H1).
  assert (Hn : (NodeID =? view p) = false) by by apply Z.eqb_neq.
  destruct (round_completes c (malicious_nums p) (view p) k now r b false Hf Hkb Hdec Hok Hh Hroot) with (prs := prs) (cms := cms)
    (p := p1) (out0 := [] ++ [broadcast (MPrepare (mkPrepare d k RunningNode))]) as (p' & Hr & []);
    [by rewrite Hn | done | rewrite Hn; lia | lia |].
  unfold round_report in Hr. rewrite Hn in Hr. exists p'. split_and!; [exact Hr | done..].
Qed.


(** The quorums count messages, not nodes. The same round completes when every
    prepare and every commit comes from one and the same sender: the sender is recorded
    by the address of the decoded message, a new one each time. *)
Theorem single_sender_round (k now : Z) (r : Request enc) (b : Block) (n : Node) (p : PbftNode) :
  let d := getDigest r in
  CodecOk cd -> dec_block (Content r) = Some b -> Hash b <> "" ->
  OpenTrie (root (CurChain p)) = true -> sequenceID p = k -> 0 <= k < 2 ^ 64 - 1 ->
  NodeID <> view p -> 1 <= malicious_nums p < 2 ^ 62 -> ready d p ->
  exists p' out, run_node p (EPrePrepare (mkPrePrepare r d k) ::
      prepares d k (replicate (Z.to_nat (2 * malicious_nums p - 1)) n) ++
      commits now d k (replicate (Z.to_nat (2 * malicious_nums p)) n)) = Ret (p', out) /\
    CurrentBlock (CurChain p') = b /\ sequenceID p' = k + 1.
Proof.
  intros d Hok Hdec Hh Hroot Hk Hkb Hv Hf Hr.
  destruct (replica_round_spec (CurChain p) k now r b (replicate (Z.to_nat (2 * malicious_nums p - 1)) n)
              (replicate (Z.to_nat (2 * malicious_nums p)) n) p) as (p' & H1 & H2 & _ & H3 & _); try done.
  - unfold zlen. rewrite length_replicate. lia.
  - unfold zlen. rewrite length_replicate. lia.
  - eauto.
Qed.

End Proofs.

(** ** Concrete consensus runs *)

Definition leader_env : NodeEnv := {| ShardID := 2; NodeID := 0; Ip_nodeTable := ∅ |}.
Definition replica_env : NodeEnv := {| ShardID := 2; NodeID := 1; Ip_nodeTable := ∅ |}.

(** The digest of a request that carries a block: its hash, marked. *)
#[local] Instance sample_reqdigest : ReqDigest (@enc sample_codec) := {|
  getDigest := fun r => match Content r with inl b => String.append "d" (Hash b) | inr _ => "d" end
|}.

Definition header_at (n : Z) (parent : string) : BlockHeader := mkBlockHeader parent "" "" n 0 0 "" 0 "" 0.
Definition block_1 : Block := mkBlock (header_at 1 "h0") [transfer_sample hex1 hex0 4] "h1".
Definition block_2 : Block := mkBlock (header_at 2 "h1") [] "h2".
Definition request_of (b : Block) : Request (@enc sample_codec) := mkRequest BlockRequest (inl b : @enc sample_codec) 5.

(** The chain of a new node, as a value. *)
Definition genesis_chain : @BlockChain sample_codec :=
  match chain0 with
  | Ret c => c
  | Panic _ => mkChain sample_block NewStorage NewTxPool ∅ "" None ∅ 0
  end.

Definition fresh : @PbftNode sample_codec := @NewPbftNode default_config sample_codec genesis_chain.

Definition voter (n : Z) : Node := mkNode n 2 "".

Definition run1 (es : list (@event sample_codec)) :=
  @run_node default_config sample_codec sample_world replica_env failing_evm sample_reqdigest fresh es.

Lemma fresh_ready d : @ready sample_codec d fresh.
Proof. split; reflexivity. Qed.

Definition round_1 : list (@event sample_codec) :=
  EPrePrepare (mkPrePrepare (request_of block_1) "dh1" 1) ::
  prepares "dh1" 1 [voter 2; voter 3] ++ commits 9 "dh1" 1 [voter 0; voter 2; voter 3].

(** A replica can apply blocks in the wrong order. The commit handler does not look
    at the sequence number: when the pre-prepares of two consecutive rounds arrive
    before their votes, the second block is applied first, then the first one on top of
    it, and the chain ends at height one. *)
Theorem out_of_order_commit :
  exists p out,
    run1 ([EPrePrepare (mkPrePrepare (request_of block_1) "dh1" 1); EPrePrepare (mkPrePrepare (request_of block_2) "dh2" 2)] ++
          commits 9 "dh2" 2 [voter 0; voter 2] ++ commits 9 "dh1" 1 [voter 0; voter 2]) = Ret (p, out) /\
    @applied default_config sample_codec sample_world replica_env failing_evm sample_reqdigest fresh
      ([EPrePrepare (mkPrePrepare (request_of block_1) "dh1" 1); EPrePrepare (mkPrePrepare (request_of block_2) "dh2" 2)] ++
          commits 9 "dh2" 2 [voter 0; voter 2] ++ commits 9 "dh1" 1 [voter 0; voter 2]) =
      [("dh2", Hash block_2); ("dh1", Hash block_1)] /\
    CurrentBlock (CurChain p) = block_1 /\ sequenceID p = 3.
Proof. eexists _, _. split; [vm_compute; reflexivity |]. vm_compute. repeat split; reflexivity. Qed.

(** ** Witnesses *)

Lemma node_run_safe_witness :
  exists p out, run1 round_1 = Ret (p, out) /\
    @stored sample_codec p =
      foldl store_one (@stored sample_codec fresh)
        (@applied default_config sample_codec sample_world replica_env failing_evm sample_reqdigest fresh round_1).*2 /\
    sequenceID p = 2.
Proof.
  destruct (run1 round_1) as [[p out] |] eqn:E; [| vm_compute in E; discriminate E].
  destruct (@node_run_safe default_config sample_codec sample_world replica_env failing_evm sample_reqdigest
              genesis_chain round_1 p out E) as (_ & _ & _ & H).
  destruct H as [H1 H2]; [by repeat constructor |].
  exists p, out. split; [reflexivity |]. split; [exact H1 |]. rewrite H2. vm_compute. reflexivity.
Defined.

Lemma handlePrePrepare_always_votes_witness :
  exists p', @handlePrePrepare sample_codec replica_env sample_reqdigest (mkPrePrepare (request_of block_1) "forged" 1) fresh =
    Some (p', [@broadcast sample_codec replica_env (MPrepare (mkPrepare "forged" 1 (@RunningNode replica_env)))]) /\ pbftStage p' = 2.
Proof.
  destruct (@handlePrePrepare_always_votes sample_codec replica_env sample_reqdigest
              (mkPrePrepare (request_of block_1) "forged" 1) fresh) as (p' & H1 & H2 & _).
  - vm_compute. discriminate.
  - exists p'. split; [exact H1 | rewrite H2; reflexivity].
Defined.

Lemma catch_up_adds_nothing_witness :
  let p := with_locks false true fresh in
  let som := mkSendOld 1 2 [request_of block_1; request_of block_2] (voter 0) in
  exists p' out, @handleSendOldSeq default_config sample_codec sample_world replica_env failing_evm sample_reqdigest 9 som p = Ret (p', out) /\
    CurChain p' = CurChain p /\ sequenceID p' = 3.
Proof.
  intros p som.
  destruct (@handleSendOldSeq default_config sample_codec sample_world replica_env failing_evm sample_reqdigest 9 som p)
    as [[p' out] |] eqn:E; [| vm_compute in E; discriminate E].
  destruct (@catch_up_adds_nothing default_config sample_codec sample_world replica_env failing_evm sample_reqdigest
              9 som p p' out) as [H1 H2].
  - cbn. lia.
  - cbn. lia.
  - reflexivity.
  - exact E.
  - exists p', out. split; [reflexivity |]. split; [exact H1 | exact H2].
Defined.


Lemma single_sender_round_witness :
  exists p' out, run1 (EPrePrepare (mkPrePrepare (request_of block_1) "dh1" 1) ::
      prepares "dh1" 1 [voter 3] ++ commits 9 "dh1" 1 [voter 3; voter 3]) = Ret (p', out) /\
    CurrentBlock (CurChain p') = block_1.
Proof.
  destruct (@single_sender_round default_config sample_codec sample_world replica_env failing_evm sample_reqdigest 1 9
              (request_of block_1) block_1 (voter 3) fresh) as (p' & out & H1 & H2 & _).
  - exact sample_codec_ok.
  - reflexivity.
  - discriminate.
  - reflexivity.
  - vm_compute. reflexivity.
  - lia.
  - vm_compute. discriminate.
  - vm_compute. split; [discriminate | reflexivity].
  - apply fresh_ready.
  - exists p', out. split; [exact H1 | exact H2].
Defined.


