(* ===== verification/Supervisor.v ===== *)
(** * The supervisor

    Models the message side of [supervisor/supervisor.go]: the state of [Supervisor] with the stop signal of
    [supervisor/signal], the committee of [Committee.v], the measurement modules of [Measure.v] and the package
    variables the handlers fill ([global/global.go]); [NewSupervisor], every handler, [handleMessage], and the results
    [CloseSupervisor] writes; with the address table of [build.initConfig].

    A message is its type together with its decoded content. [handleMessage] runs under [tcpLock]; two handlers are
    started as goroutines, and run at any later time: [sup_step] is one step of the process, a message taken from a
    connection or a goroutine that runs. *)
From Stdlib Require Import ZArith Lia Ascii.
From stdpp Require Import base gmap strings list fin_maps pretty.
From S2P Require Import Prelude Utils JournalTypes Core Ledger Message Floats Broker B2E Server Committee CommitteeProofs CommitteeExamples Measure.
From S2P Require Import AccessList StateDB Execution.

(** ** The stop signal *)

Record StopSignal := mkStopSignal { stopGap : Z; stopThreshold : Z }.

Definition NewStopSignal (stop_Threshold : Z) : StopSignal := mkStopSignal 0 stop_Threshold.
Definition StopGap_Inc (ss : StopSignal) : StopSignal := mkStopSignal (i64 (stopGap ss + 1)) (stopThreshold ss).
Definition StopGap_Reset (ss : StopSignal) : StopSignal := mkStopSignal 0 (stopThreshold ss).
Definition GapEnough (ss : StopSignal) : bool := stopThreshold ss <=? stopGap ss.

(** ** Addresses of the processes *)

Definition SupervisorAddr : string := "127.0.0.1:18800".

(** [fmt.Sprintf("%d", n)] of an unsigned number. *)
Definition dec (n : Z) : string := pretty (Z.to_N n).

Definition node_address (i j : Z) : string := String.append "127.0.0.1:" (dec (28800 + i * 100 + j)).

(** One shard of the table. *)
Definition shard_row (nnm i : Z) (u : gmap Z string) : gmap Z string := foldl (fun u j => <[j := node_address i j]> u) u (seqZ 0 nnm).

Definition add_row (nnm : Z) (t : gmap Z (gmap Z string)) (i : Z) : gmap Z (gmap Z string) := <[i := shard_row nnm i (default ∅ (t !! i))]> t.

(** [initConfig]: the table of the addresses, from an empty one. *)
Definition initConfig (nnm snm : Z) : gmap Z (gmap Z string) :=
  <[DeciderShard := {[0 := SupervisorAddr]}]> (foldl (add_row nnm) ∅ (seqZ 0 snm)).

(** ** State *)

(** [message.NodeInfo] *)
Record NodeInfo := mkNodeInfo {
  ni_NodeId : Z; ni_ShardId : Z; NodeIP : string; NodePublicKey : string; NodeAccount : string; NodeBalance : Z
}.

(** A measurement module and its state, behind the interface. *)
Record measure_mod := mkMeasure { mm_state : Type; mm_ops : MeasureModule mm_state; mm_now : mm_state }.

Record Supervisor := mkSupervisor {
  Ss : StopSignal;
  ComMod : Committee;
  testMeasureMods : list measure_mod;
  contractCreationMap : gmap Z string;
  contractAllowMap : gmap Z (gset string);
  d_accountBalanceMap : gmap string (gmap string accBalMap);
  d_amm_model : ammModel
}.

(** The package variables: [global.AccBalanceMap], [global.AccCodeMap], and those of the package [supervisor]. *)
Record Globals := mkGlobals {
  AccBalanceMap : gmap string Z;
  AccCodeMap : gmap string (list Z);
  NodeInfoMap : gmap string NodeInfo;
  TxInfoMap : gmap string TxInfo
}.

Record Process := mkProcess { proc_sup : Supervisor; proc_glob : Globals }.

(** What the HTTP handlers of [Server.v] see of the supervisor and of its client. *)
Definition sup_view (d : Supervisor) (addr2shard : gmap string Z) : SupState :=
  mkSup (d_amm_model d) (d_accountBalanceMap d) (cBroker (ComMod d)) addr2shard.

Definition with_Ss (ss : StopSignal) (d : Supervisor) : Supervisor :=
  mkSupervisor ss (ComMod d) (testMeasureMods d) (contractCreationMap d) (contractAllowMap d) (d_accountBalanceMap d) (d_amm_model d).
Definition with_ComMod (c : Committee) (d : Supervisor) : Supervisor :=
  mkSupervisor (Ss d) c (testMeasureMods d) (contractCreationMap d) (contractAllowMap d) (d_accountBalanceMap d) (d_amm_model d).
Definition with_contracts (created : gmap Z string) (allowed : gmap Z (gset string)) (d : Supervisor) : Supervisor :=
  mkSupervisor (Ss d) (ComMod d) (testMeasureMods d) created allowed (d_accountBalanceMap d) (d_amm_model d).
Definition with_accounts (m : gmap string (gmap string accBalMap)) (d : Supervisor) : Supervisor :=
  mkSupervisor (Ss d) (ComMod d) (testMeasureMods d) (contractCreationMap d) (contractAllowMap d) m (d_amm_model d).

Definition new_globals : Globals := mkGlobals ∅ ∅ ∅ ∅.

(** ** Construction *)

Definition new_measure (mModName : string) : list measure_mod :=
  if decide (mModName = "TPS_Relay") then [mkMeasure Tps TestModule_avgTPS_Relay (NewModule (MeasureModule := TestModule_avgTPS_Relay))]
  else if decide (mModName = "TPS_Broker") then [mkMeasure Tps TestModule_avgTPS_Broker (NewModule (MeasureModule := TestModule_avgTPS_Broker))]
  else if decide (mModName = "TCL_Relay") then [mkMeasure Latency TestModule_TCL_Relay (NewModule (MeasureModule := TestModule_TCL_Relay))]
  else if decide (mModName = "TCL_Broker") then [mkMeasure Latency TestModule_TCL_Broker (NewModule (MeasureModule := TestModule_TCL_Broker))]
  else if decide (mModName = "CrossTxRate_Relay") then
    [mkMeasure CrossRate TestCrossTxRate_Relay (NewModule (MeasureModule := TestCrossTxRate_Relay))]
  else if decide (mModName = "CrossTxRate_Broker") then
    [mkMeasure CrossRate TestCrossTxRate_Broker (NewModule (MeasureModule := TestCrossTxRate_Broker))]
  else if decide (mModName = "TxNumberCount_Relay") then
    [mkMeasure TxCount TestTxNumCount_Relay (NewModule (MeasureModule := TestTxNumCount_Relay))]
  else if decide (mModName = "TxNumberCount_Broker") then
    [mkMeasure TxCount TestTxNumCount_Broker (NewModule (MeasureModule := TestTxNumCount_Broker))]
  else [].

Definition MeasureBrokerMod : list string := ["TPS_Broker"; "TCL_Broker"; "CrossTxRate_Broker"; "TxNumberCount_Broker"].
Definition MeasureRelayMod : list string := ["TPS_Relay"; "TCL_Relay"; "CrossTxRate_Relay"; "TxNumberCount_Relay"].

Section Supervisor.
Context {cfg : Config} {dg : Digest} {md : MegDigest}.

(** [shardNums] is [pcc.ShardNums], [file] the broker addresses read from the file. *)
Definition NewSupervisor (file : list string) (shardNums : Z) (measureModNames : list string) : Supervisor :=
  mkSupervisor (NewStopSignal (i64 (2 * i64 shardNums))) (NewBrokerCommitteeMod file) (concat (map new_measure measureModNames)) ∅
    (foldl (fun m sid => <[sid := ∅]> m) ∅ shards) (foldl (fun m ty => <[ty := ∅]> m) ∅ Transaction_Types) new_amm.

(** ** Messages *)

Inductive SupMsg :=
| MBlockInfo (b : BlockInfoMsg)
| MContractCreateSuccess (ShardId : Z) (Addr : string)
| MContractExecuteSuccess (ShardId : Z) (Addr : string)
| MNodeInfo (s : NodeInfo)
| MTxInfo (s : TxInfo)
| MQueryContractResultRes (Success : bool) (Result : list Z) (UUID : string)
| MResponseAccount (Account : string) (Balance : Z) (Code : list Z)
| MAccountBalanceReply (con : AccountBalanceReply)
| MOther (msgType : string).

(** The goroutines that [handleMessage] starts. *)
Inductive Task :=
| TResponseAcc (Account : string) (Balance : Z) (Code : list Z)
| TAccountBalReply (con : AccountBalanceReply).

(** How a handler ends: it returns, with the injections it sent and the goroutines it started; it waits for ever;
    or it panics, which ends the process. *)
Inductive handled :=
| Handled (p : Process) (out : list InjectTxs) (spawned : list Task)
| Blocks
| Fatal (why : string).

(** A handler that only changes the state. *)
Definition changed (p : Process) : handled := Handled p [] [].

(** ** Base 64 ([base64.StdEncoding.EncodeToString]) *)

Definition b64_char (v : Z) : ascii :=
  ascii_of_N (Z.to_N (if v <? 26 then 65 + v else if v <? 52 then 71 + v else if v <? 62 then v - 4 else if v =? 62 then 43 else 47)).

Fixpoint b64 (l : list Z) : list ascii :=
  match l with
  | a :: b :: c :: l' => [b64_char (a / 4); b64_char (a mod 4 * 16 + b / 16); b64_char (b mod 16 * 4 + c / 64); b64_char (c mod 64)] ++ b64 l'
  | [a; b] => [b64_char (a / 4); b64_char (a mod 4 * 16 + b / 16); b64_char (b mod 16 * 4); "="%char]
  | [a] => [b64_char (a / 4); b64_char (a mod 4 * 16); "="%char; "="%char]
  | [] => []
  end.

Definition base64 (h : string) : string := of_bytes (b64 (bytes_Z h)).

(** ** The handlers *)

Definition handleBlockInfos (p : Process) (bim : BlockInfoMsg) : handled :=
  let d := proc_sup p in
  let d := with_Ss (if BlockBodyLength bim =? 0 then StopGap_Inc (Ss d) else StopGap_Reset (Ss d)) d in
  match HandleBlockInfo (ComMod d) bim with
  | Panic w => Fatal w
  | Ret (c, out) => Handled (mkProcess (with_ComMod c d) (proc_glob p)) out []
  end.

Definition handleContractCreateSuccess (p : Process) (ShardId : Z) (Addr : string) : handled :=
  let d := proc_sup p in
  changed (mkProcess (with_contracts (<[ShardId := Addr]> (contractCreationMap d)) (contractAllowMap d) d) (proc_glob p)).

(** The inner map exists for the shards of the configuration; writing to a nil map panics. *)
Definition handleContractExecuteSuccess (p : Process) (ShardId : Z) (Addr : string) : handled :=
  let d := proc_sup p in
  match contractAllowMap d !! ShardId with
  | None => Fatal "assignment to entry in nil map"
  | Some l =>
      changed (mkProcess (with_contracts (contractCreationMap d) (<[ShardId := {[Addr]} ∪ l]> (contractAllowMap d)) d) (proc_glob p))
  end.

Definition node_key (ShardId NodeId : Z) : string := String.append "S" (String.append (dec ShardId) (String.append "N" (dec NodeId))).

Definition store_node (s : NodeInfo) (m : gmap string NodeInfo) : gmap string NodeInfo := <[node_key (ni_ShardId s) (ni_NodeId s) := s]> m.

Definition handleNodeInfo (p : Process) (s : NodeInfo) : handled :=
  let g := proc_glob p in
  changed (mkProcess (proc_sup p) (mkGlobals (AccBalanceMap g) (AccCodeMap g) (store_node s (NodeInfoMap g)) (TxInfoMap g))).

(** The report is stored under its hash and under its UUID. *)
Definition store_tx (s : TxInfo) (m : gmap string TxInfo) : gmap string TxInfo :=
  <[ti_UUID s := s]> (<[base64 (ti_TxHash s) := s]> m).

Definition handleTxInfo (p : Process) (s : TxInfo) : handled :=
  let g := proc_glob p in
  changed (mkProcess (proc_sup p) (mkGlobals (AccBalanceMap g) (AccCodeMap g) (NodeInfoMap g) (store_tx s (TxInfoMap g)))).

(** [QueryContractResultResMap] is made empty and never written: the channel it gives is nil, and a send on a nil
    channel waits for ever. *)
Definition handleQueryContractResultRes (p : Process) (Success : bool) : handled := if Success then Blocks else changed p.

Definition handleResponseAcc (g : Globals) (Account : string) (Balance : Z) (Code : list Z) : Globals :=
  mkGlobals (<[Account := Balance]> (AccBalanceMap g)) (<[Account := Code]> (AccCodeMap g)) (NodeInfoMap g) (TxInfoMap g).

(** The body of a goroutine. *)
Definition run_task (p : Process) (t : Task) : outcome Process :=
  match t with
  | TResponseAcc a b c => Ret (mkProcess (proc_sup p) (handleResponseAcc (proc_glob p) a b c))
  | TAccountBalReply con =>
      v ← handleAccountBalReply (sup_view (proc_sup p) ∅) con;
      Ret (mkProcess (with_accounts (accountBalanceMap v) (proc_sup p)) (proc_glob p))
  end.

(** The committee's [HandleOtherMessage] and the modules' [HandleExtraMessage] have empty bodies. *)
Definition handleMessage (p : Process) (m : SupMsg) : handled :=
  match m with
  | MBlockInfo b => handleBlockInfos p b
  | MContractCreateSuccess sid a => handleContractCreateSuccess p sid a
  | MContractExecuteSuccess sid a => handleContractExecuteSuccess p sid a
  | MNodeInfo s => handleNodeInfo p s
  | MTxInfo s => handleTxInfo p s
  | MQueryContractResultRes ok _ _ => handleQueryContractResultRes p ok
  | MResponseAccount a b c => Handled p [] [TResponseAcc a b c]
  | MAccountBalanceReply con => Handled p [] [TAccountBalReply con]
  | MOther _ => changed p
  end.

(** ** Results *)

(** What [CloseSupervisor] writes for a module: the name of the file and the record. *)
Definition module_result (now : Z) (m : measure_mod) : string * outcome (list f64 * f64) :=
  (OutputMetricName (MeasureModule := mm_ops m), OutputRecord (MeasureModule := mm_ops m) now (mm_now m)).

Definition CloseSupervisor (now : Z) (d : Supervisor) : list (string * outcome (list f64 * f64)) := map (module_result now) (testMeasureMods d).

(** ** Runs of the process *)

(** [sys_stuck]: a handler waits for ever and holds [tcpLock]. *)
Record Sys := mkSys { sys_proc : Process; sys_pending : list Task; sys_stuck : bool; sys_out : list InjectTxs }.

Definition sys0 (d : Supervisor) : Sys := mkSys (mkProcess d new_globals) [] false [].

(** A step, when only the messages of [allowed] arrive. *)
Inductive sup_step (allowed : SupMsg -> Prop) : Sys -> Sys -> Prop :=
| step_message s m p out sp : allowed m -> sys_stuck s = false -> handleMessage (sys_proc s) m = Handled p out sp ->
    sup_step allowed s (mkSys p (sys_pending s ++ sp) false (sys_out s ++ out))
| step_block s m : allowed m -> sys_stuck s = false -> handleMessage (sys_proc s) m = Blocks ->
    sup_step allowed s (mkSys (sys_proc s) (sys_pending s) true (sys_out s))
| step_task s pre t post p : sys_pending s = pre ++ t :: post -> run_task (sys_proc s) t = Ret p ->
    sup_step allowed s (mkSys p (pre ++ post) (sys_stuck s) (sys_out s)).

(** The messages one connection delivers, in order. *)
Fixpoint handle_all (p : Process) (ms : list SupMsg) : handled :=
  match ms with
  | [] => changed p
  | m :: ms =>
      match handleMessage p m with
      | Handled p1 out1 sp1 =>
          match handle_all p1 ms with Handled p2 out2 sp2 => Handled p2 (out1 ++ out2) (sp1 ++ sp2) | r => r end
      | r => r
      end
  end.

End Supervisor.

(** The messages that were handled, one by one: the easy ones are closed by computation. *)
Ltac handled_cases :=
  match goal with |- handleMessage ?p ?m = _ -> _ => destruct m end; cbn;
  unfold handleBlockInfos, handleContractExecuteSuccess, handleQueryContractResultRes; cbn;
  repeat case_match; try discriminate; intros [= <- _ _]; try done.

Section Runs.
Context {cfg : Config} {dg : Digest} {md : MegDigest}.

(** ** The stop signal counts *)

Definition report_of (m : SupMsg) : option BlockInfoMsg := match m with MBlockInfo b => Some b | _ => None end.

(** How many of the last reports, without a break, were of empty blocks: [n] were before the first. *)
Definition empty_run (n : Z) (b : BlockInfoMsg) : Z := if BlockBodyLength b =? 0 then n + 1 else 0.

Lemma handle_step p m p' out sp : handleMessage p m = Handled p' out sp ->
  stopThreshold (Ss (proc_sup p')) = stopThreshold (Ss (proc_sup p)) /\
  stopGap (Ss (proc_sup p')) =
    match report_of m with
    | Some b => if BlockBodyLength b =? 0 then i64 (stopGap (Ss (proc_sup p)) + 1) else 0
    | None => stopGap (Ss (proc_sup p))
    end.
Proof using Type. by handled_cases. Qed.

Lemma handle_gap ms : forall p p' out sp, handle_all p ms = Handled p' out sp ->
  0 <= stopGap (Ss (proc_sup p)) -> stopGap (Ss (proc_sup p)) + zlen ms < 2 ^ 63 ->
  stopThreshold (Ss (proc_sup p')) = stopThreshold (Ss (proc_sup p)) /\
  stopGap (Ss (proc_sup p')) = foldl empty_run (stopGap (Ss (proc_sup p))) (omap report_of ms).
Proof using Type.
  induction ms as [| m ms IH]; intros p p' out sp; cbn [handle_all]; [intros [= <- _ _]; done |].
  destruct (handleMessage p m) as [p1 o1 s1 | |] eqn:Em; [| done..].
  destruct (handle_all p1 ms) as [p2 o2 s2 | |] eqn:Er; [| done..]. intros [= <- _ _] H0 Hlen.
  destruct (handle_step _ _ _ _ _ Em) as [Ht Hg]. unfold zlen in *. cbn [length] in Hlen.
  destruct (IH _ _ _ _ Er) as [Ht' Hg'].
  - rewrite Hg. destruct (report_of m) as [b |]; [| lia]. destruct (_ =? 0); [rewrite i64_small by lia; lia | lia].
  - rewrite Hg. destruct (report_of m) as [b |]; [| lia]. destruct (_ =? 0); [rewrite i64_small by lia; lia | lia].
  - rewrite Ht', Ht, Hg'. split; [done |]. rewrite Hg. cbn [omap list_omap]. destruct (report_of m) as [b |]; [| done].
    cbn [foldl]. f_equal. unfold empty_run. destruct (_ =? 0); [| done]. apply i64_small. lia.
Qed.

(** The stop signal is exact. When the supervisor has handled any list of messages, from a state in which it had
    counted nothing, the signal is raised if and only if as many reports as the threshold says were, at the end and
    without a break, of empty blocks; messages of other kinds neither raise nor reset it. *)
Theorem stop_signal_exact p ms p' out sp :
  handle_all p ms = Handled p' out sp -> stopGap (Ss (proc_sup p)) = 0 -> zlen ms < 2 ^ 63 ->
  GapEnough (Ss (proc_sup p')) = (stopThreshold (Ss (proc_sup p)) <=? foldl empty_run 0 (omap report_of ms)).
Proof using Type.
  intros Hr H0 Hlen. destruct (handle_gap ms _ _ _ _ Hr) as [Ht Hg]; [lia.. |]. unfold GapEnough. by rewrite Ht, Hg, H0.
Qed.

(** ** A handler that waits *)

(** What the pending goroutines leave alone, when a handler waits. *)
Lemma silent_run allowed s s' : rtc (sup_step allowed) s s' -> sys_stuck s = true ->
  sys_stuck s' = true /\ sys_out s' = sys_out s /\ (length (sys_pending s') <= length (sys_pending s))%nat /\
  ComMod (proc_sup (sys_proc s')) = ComMod (proc_sup (sys_proc s)) /\ Ss (proc_sup (sys_proc s')) = Ss (proc_sup (sys_proc s)) /\
  contractAllowMap (proc_sup (sys_proc s')) = contractAllowMap (proc_sup (sys_proc s)) /\
  contractCreationMap (proc_sup (sys_proc s')) = contractCreationMap (proc_sup (sys_proc s)) /\
  NodeInfoMap (proc_glob (sys_proc s')) = NodeInfoMap (proc_glob (sys_proc s)) /\
  TxInfoMap (proc_glob (sys_proc s')) = TxInfoMap (proc_glob (sys_proc s)).
Proof using Type.
  induction 1 as [s | s s1 s' Hstep _ IH]; intros Hs; [by split_and! |].
  inversion Hstep as [| | x pre t post p Hpd Hrun Hx]; subst; [congruence.. |]. cbn in *.
  destruct (IH Hs) as (-> & -> & H3 & -> & -> & -> & -> & -> & ->).
  rewrite Hpd, !length_app. cbn [length]. rewrite length_app in H3.
  destruct t as [a b c | con]; cbn in Hrun; [injection Hrun as <-; split_and!; (done || lia) |].
  destruct (handleAccountBalReply _ con); [| done]. injection Hrun as <-. split_and!; (done || lia).
Qed.

(** One message silences the supervisor. Once a reply to a contract query that reports success was handled, no
    message of any connection is: whatever steps follow, the committee, the stop signal, the contracts, the nodes
    and the transactions it knows stay as they were and it injects nothing; only replies that had already been read
    are still stored. *)
Theorem success_reply_silences allowed s result uuid s1 s' :
  allowed (MQueryContractResultRes true result uuid) -> sys_stuck s = false -> s1 = mkSys (sys_proc s) (sys_pending s) true (sys_out s) ->
  sup_step allowed s s1 /\ (rtc (sup_step allowed) s1 s' ->
  sys_stuck s' = true /\ sys_out s' = sys_out s /\ (length (sys_pending s') <= length (sys_pending s))%nat /\
  ComMod (proc_sup (sys_proc s')) = ComMod (proc_sup (sys_proc s)) /\ Ss (proc_sup (sys_proc s')) = Ss (proc_sup (sys_proc s)) /\
  contractAllowMap (proc_sup (sys_proc s')) = contractAllowMap (proc_sup (sys_proc s)) /\
  contractCreationMap (proc_sup (sys_proc s')) = contractCreationMap (proc_sup (sys_proc s)) /\
  NodeInfoMap (proc_glob (sys_proc s')) = NodeInfoMap (proc_glob (sys_proc s)) /\
  TxInfoMap (proc_glob (sys_proc s')) = TxInfoMap (proc_glob (sys_proc s))).
Proof using Type.
  intros Ha Hn ->. split; [by eapply step_block |]. intros Hrun. exact (silent_run _ _ _ Hrun eq_refl).
Qed.

(** ** The measurements *)

Lemma handle_measures p m p' out sp : handleMessage p m = Handled p' out sp ->
  testMeasureMods (proc_sup p') = testMeasureMods (proc_sup p).
Proof using Type. by handled_cases. Qed.

(** Nothing is ever measured: whatever messages arrive and in whatever order the goroutines run, the results are
    those of the modules as they were made; no handler passes a report on to [UpdateMeasureRecord]. *)
Theorem measurements_never_fed allowed now d s : rtc (sup_step allowed) (sys0 d) s -> CloseSupervisor now (proc_sup (sys_proc s)) = CloseSupervisor now d.
Proof using Type.
  intros Hrun. assert (testMeasureMods (proc_sup (sys_proc s)) = testMeasureMods d) as Hm.
  { change (testMeasureMods d) with (testMeasureMods (proc_sup (sys_proc (sys0 d)))).
    induction Hrun as [s | s s1 s' Hstep _ IH]; [done |]. rewrite IH.
    destruct Hstep as [s m p out sp _ _ Hh | | s pre t post p _ Ht]; cbn [sys_proc]; [by eapply handle_measures | done |].
    destruct t as [a b c | con]; cbn in Ht; [by injection Ht as <- |].
    destruct (handleAccountBalReply _ con); [| done]. by injection Ht as <-. }
  unfold CloseSupervisor. by rewrite Hm.
Qed.

(** ** No handler panics *)

(** A report against the brokers [b], a shard of the configuration, a token that exists. *)
Definition msg_ok (b : Broker) (m : SupMsg) : Prop :=
  match m with
  | MBlockInfo x => Forall (half_ok b) (Broker1Txs x)
  | MContractExecuteSuccess sid _ => sid ∈ shards
  | MAccountBalanceReply con => r_TXType con ∈ Transaction_Types
  | _ => True
  end.

Definition task_ok (t : Task) : Prop := match t with TAccountBalReply con => r_TXType con ∈ Transaction_Types | _ => True end.

(** The process, against the brokers it began with. *)
Record proc_ok (b0 : Broker) (p : Process) : Prop := {
  ok_pools : pools_ok (ComMod (proc_sup p));
  ok_funds : forall ty, funds_ok ty (cBroker (ComMod (proc_sup p)));
  ok_brokers : BrokerAddress (cBroker (ComMod (proc_sup p))) = BrokerAddress b0;
  ok_holdings : forall ty a, complete ty b0 a -> complete ty (cBroker (ComMod (proc_sup p))) a /\
    holdings (cBroker (ComMod (proc_sup p))) ty a = holdings b0 ty a;
  ok_allowed : forall sid, sid ∈ shards -> is_Some (contractAllowMap (proc_sup p) !! sid);
  ok_types : forall ty, ty ∈ Transaction_Types -> is_Some (d_accountBalanceMap (proc_sup p) !! ty)
}.

(** A change that leaves the committee and the keys of the two maps alone. *)
Lemma proc_ok_change b0 p p' : proc_ok b0 p -> ComMod (proc_sup p') = ComMod (proc_sup p) ->
  (forall sid, is_Some (contractAllowMap (proc_sup p) !! sid) -> is_Some (contractAllowMap (proc_sup p') !! sid)) ->
  (forall ty, is_Some (d_accountBalanceMap (proc_sup p) !! ty) -> is_Some (d_accountBalanceMap (proc_sup p') !! ty)) -> proc_ok b0 p'.
Proof using Type. intros [H1 H2 H3 H4 H5 H6] Hc Ha Ht. constructor; rewrite ?Hc; auto. Qed.

Lemma half_ok_mono b0 b tx : BrokerAddress b = BrokerAddress b0 -> (forall ty a, complete ty b0 a -> complete ty b a) ->
  half_ok b0 tx -> half_ok b tx.
Proof using Type.
  intros Ha Hc (H1 & H2 & H3 & H4). split_and!; [done.. |]. intros Hb. apply Hc, H4. unfold IsBroker in *. by rewrite Ha in Hb.
Qed.

Lemma block_ok b0 p x : config_ok -> proc_ok b0 p -> Forall (half_ok b0) (Broker1Txs x) ->
  exists p' out, handleBlockInfos p x = Handled p' out [] /\ proc_ok b0 p'.
Proof using Type.
  intros Hcfg [H1 H2 H3 H4 H5 H6] Hx. unfold handleBlockInfos. cbn.
  destruct (HandleBlockInfo_spec (ComMod (proc_sup p)) x) as (c & out & -> & Hp & Hf & Ha & Hh); [done.. | |].
  - eapply Forall_impl; [exact Hx |]. intros tx. apply half_ok_mono; [done |]. intros ty a Hc. by apply H4.
  - do 2 eexists. split; [reflexivity |]. constructor; cbn; [done | done | by rewrite Ha | | done | done].
    intros ty a Hc. destruct (H4 ty a Hc) as [Hc' <-]. by apply Hh.
Qed.

Lemma insert_is_Some {A} (m : gmap Z A) k v j : is_Some (m !! j) -> is_Some (<[k := v]> m !! j).
Proof using Type. intros Hm. rewrite lookup_insert_is_Some'. by right. Qed.

Lemma handle_ok b0 p m : config_ok -> proc_ok b0 p -> msg_ok b0 m ->
  handleMessage p m = Blocks \/ exists p' out sp, handleMessage p m = Handled p' out sp /\ proc_ok b0 p' /\ Forall task_ok sp.
Proof using Type.
  intros Hcfg Hp Hm. destruct m as [b | sid a | sid a | s | s | ok r u | a b c | con | ty]; cbn in *.
  - right. destruct (block_ok b0 p b Hcfg Hp Hm) as (p' & out & Hr & Hok). eauto 10.
  - right. do 3 eexists. split; [reflexivity |]. split; [| done]. by eapply proc_ok_change.
  - right. unfold handleContractExecuteSuccess. destruct (ok_allowed _ _ Hp sid Hm) as [l ->]. do 3 eexists. split; [reflexivity |].
    split; [| done]. eapply proc_ok_change; [done | done | | done]. intros j. apply insert_is_Some.
  - right. do 3 eexists. split; [reflexivity |]. split; [| done]. by eapply proc_ok_change.
  - right. do 3 eexists. split; [reflexivity |]. split; [| done]. by eapply proc_ok_change.
  - destruct ok; [by left |]. right. do 3 eexists. split; [reflexivity |]. done.
  - right. do 3 eexists. split; [reflexivity |]. split; [done |]. by repeat constructor.
  - right. do 3 eexists. split; [reflexivity |]. split; [done |]. by repeat constructor.
  - right. do 3 eexists. split; [reflexivity |]. done.
Qed.

Lemma task_returns b0 p t : proc_ok b0 p -> task_ok t -> exists p', run_task p t = Ret p' /\ proc_ok b0 p'.
Proof using Type.
  intros Hp Ht. destruct t as [a b c | con]; cbn in *; [eexists; split; [reflexivity |]; by eapply proc_ok_change |].
  unfold handleAccountBalReply, set2. cbn. destruct (ok_types _ _ Hp _ Ht) as [m Hm]. rewrite Hm. cbn.
  eexists. split; [reflexivity |]. eapply proc_ok_change; [done | done | done |]. cbn. intros ty Hty. rewrite lookup_insert_is_Some'. by right.
Qed.

Lemma sys_ok_step b0 s s' : config_ok -> sup_step (msg_ok b0) s s' -> proc_ok b0 (sys_proc s) /\ Forall task_ok (sys_pending s) ->
  proc_ok b0 (sys_proc s') /\ Forall task_ok (sys_pending s').
Proof using Type.
  intros Hcfg Hstep [Hp Ht]. destruct Hstep as [s m p out sp Hm _ Hh | s m _ _ _ | s pre t post p Hpd Hr]; cbn.
  - destruct (handle_ok b0 _ m Hcfg Hp Hm) as [He | (p' & o' & sp' & He & Hok & Hsp)]; rewrite Hh in He; [done |].
    injection He as <- <- <-. split; [done |]. by apply Forall_app.
  - done.
  - rewrite Hpd in Ht. apply Forall_app in Ht as [Hpre Hpost]. apply Forall_cons in Hpost as [Ht Hpost].
    destruct (task_returns b0 _ t Hp Ht) as (p' & Hr' & Hok). rewrite Hr in Hr'. injection Hr' as <-.
    split; [done |]. by apply Forall_app.
Qed.

Lemma rtc_preserves {A} (R : A -> A -> Prop) (P : A -> Prop) x y : (forall a b, R a b -> P a -> P b) -> rtc R x y -> P x -> P y.
Proof using Type. intros HP. induction 1; eauto. Qed.

Lemma NewSupervisor_ok file n names : 0 <= Init_broker_Balance -> proc_ok (NewBroker file) (mkProcess (NewSupervisor file n names) new_globals).
Proof using Type.
  intros Hi. constructor; cbn; [| intros ty; by apply NewBroker_funds_ok | done | done | |].
  - intros h m Hm. cbn in Hm. by rewrite lookup_empty in Hm.
  - intros sid Hs. rewrite foldl_insert_lookup, decide_True by done. eauto.
  - intros ty Hty. rewrite foldl_insert_lookup, decide_True by done. eauto.
Qed.

End Runs.

(** ** Reports of the nodes *)

Fixpoint without_N (s : string) : bool :=
  match s with EmptyString => true | String c s' => bool_decide (c <> "N"%char) && without_N s' end.

Lemma digits_without_N x : forall s, without_N s = true -> without_N (pretty_N_go x s) = true.
Proof.
  induction (N.lt_wf_0 x) as [x _ IH]. intros s Hs. destruct (decide (0 < x)%N) as [Hx | Hx].
  - rewrite pretty_N_go_step by done. apply IH; [apply N.div_lt; lia |]. cbn. rewrite Hs, andb_true_r.
    apply bool_decide_eq_true. unfold pretty_N_char. by repeat case_match.
  - assert (x = 0%N) as -> by lia. by rewrite pretty_N_go_0.
Qed.

Lemma dec_without_N n : without_N (dec n) = true.
Proof. unfold dec, pretty, pretty_N. case_decide; [done | by apply digits_without_N]. Qed.

Lemma split_at_N a a' b b' : without_N a = true -> without_N a' = true ->
  String.append a (String.append "N" b) = String.append a' (String.append "N" b') -> a = a' /\ b = b'.
Proof.
  revert a'. induction a as [| c a IH]; intros [| c' a'] Ha Ha'; cbn [String.append without_N] in *.
  - intros H. injection H as H. split; [done | exact H].
  - intros [= <- _]. apply andb_true_iff in Ha' as [Hc _]. by apply bool_decide_eq_true in Hc.
  - intros [= -> _]. apply andb_true_iff in Ha as [Hc _]. by apply bool_decide_eq_true in Hc.
  - intros [= <- H]. apply andb_true_iff in Ha as [_ Ha]. apply andb_true_iff in Ha' as [_ Ha'].
    destruct (IH a' Ha Ha' H) as [-> ->]. done.
Qed.

Lemma dec_inj m n : 0 <= m -> 0 <= n -> dec m = dec n -> m = n.
Proof. unfold dec. intros Hm Hn H. apply (inj pretty) in H. lia. Qed.

Lemma node_key_inj s n s' n' : 0 <= s -> 0 <= n -> 0 <= s' -> 0 <= n' -> node_key s n = node_key s' n' -> s = s' /\ n = n'.
Proof.
  intros H1 H2 H3 H4 H. injection H as H. apply split_at_N in H as [Hs Hn]; [| apply dec_without_N..].
  split; by apply dec_inj.
Qed.

(** ** The address table *)

Lemma node_address_inj nnm i j i' j' : nnm <= 100 -> 0 <= i -> 0 <= i' -> 0 <= j < nnm -> 0 <= j' < nnm ->
  node_address i j = node_address i' j' -> i = i' /\ j = j'.
Proof. intros Hn Hi Hi' Hj Hj' H. injection H as H. apply dec_inj in H; lia. Qed.

Lemma foldl_insert_fun {A} (f : Z -> A) l : forall (m : gmap Z A) k,
  foldl (fun m k => <[k := f k]> m) m l !! k = if decide (k ∈ l) then Some (f k) else m !! k.
Proof.
  induction l as [| y l IH]; intros m k; cbn [foldl]; [by rewrite decide_False by apply not_elem_of_nil |]. rewrite IH.
  destruct (decide (k ∈ l)) as [Hk | Hk]; [by rewrite decide_True by (by right) |]. destruct (decide (k = y)) as [-> | Hne].
  - rewrite decide_True by left. apply lookup_insert_eq.
  - rewrite decide_False by (by apply not_elem_of_cons). by apply lookup_insert_ne.
Qed.

Definition cell (t : gmap Z (gmap Z string)) (i j : Z) : option string := t !! i ≫= (fun u => u !! j).

Lemma add_row_cell nnm t y i j : 0 <= j < nnm -> cell (add_row nnm t y) i j = if decide (i = y) then Some (node_address i j) else cell t i j.
Proof.
  intros Hj. unfold cell, add_row, shard_row. destruct (decide (i = y)) as [<- | Hne]; [| by rewrite lookup_insert_ne].
  rewrite lookup_insert_eq. cbn. rewrite foldl_insert_fun, decide_True by (apply elem_of_seqZ; lia). done.
Qed.

Lemma add_rows_cell nnm l i j : 0 <= j < nnm -> forall t, i ∈ l \/ cell t i j = Some (node_address i j) ->
  cell (foldl (add_row nnm) t l) i j = Some (node_address i j).
Proof.
  intros Hj. induction l as [| y l IH]; intros t [Hi | Hi]; cbn [foldl]; [by apply not_elem_of_nil in Hi | done | |].
  - apply IH. rewrite add_row_cell by done. apply elem_of_cons in Hi as [<- | Hi]; [right; by rewrite decide_True | by left].
  - apply IH. right. rewrite add_row_cell by done. by case_decide.
Qed.

(** Every node has an address of its own. With at most a hundred nodes in a shard (the ports of the next shard
    begin a hundred further on) and fewer shards than the supervisor's own number, the table gives every node of every
    shard an address, no two of them the same one, and none of them the supervisor's. *)
Theorem node_addresses_distinct nnm snm i j i' j' : nnm <= 100 -> snm <= DeciderShard ->
  0 <= i < snm -> 0 <= i' < snm -> 0 <= j < nnm -> 0 <= j' < nnm ->
  exists a a', cell (initConfig nnm snm) i j = Some a /\ cell (initConfig nnm snm) i' j' = Some a' /\
    a <> SupervisorAddr /\ (a = a' -> i = i' /\ j = j').
Proof.
  intros Hn Hs Hi Hi' Hj Hj'. exists (node_address i j), (node_address i' j'). 
  assert (forall i j, 0 <= i < snm -> 0 <= j < nnm -> cell (initConfig nnm snm) i j = Some (node_address i j)) as Hc.
  { intros x y Hx Hy. unfold initConfig, cell. rewrite lookup_insert_ne by lia. apply add_rows_cell; [done |]. left. apply elem_of_seqZ. lia. }
  rewrite !Hc by done. split_and!; [done | done | |].
  - intros H. injection H as H. change "18800" with (dec 18800) in H. apply dec_inj in H; lia.
  - apply (node_address_inj nnm); lia.
Qed.

(** ** A supervisor of four shards *)
Module SupervisorExamples.

#[local] Existing Instance default_config.
#[local] Existing Instance sample_digest.
#[local] Existing Instance sample_megdigest.

Definition d0 : Supervisor := NewSupervisor [addr1] 4 MeasureBrokerMod.
Definition p0 : Process := mkProcess d0 new_globals.
Definition empty_report : SupMsg := MBlockInfo (mkBlockInfo 0 [] 0 0 0 0 0 [] 0 [] 0 [] []).
Definition full_report : SupMsg := MBlockInfo (mkBlockInfo 1 [] 0 0 0 0 0 [] 0 [] 0 [] []).
Definition ms0 : list SupMsg := [empty_report; full_report] ++ replicate 4 empty_report ++ [MOther "hello"] ++ replicate 4 empty_report.

Definition is_handled (h : handled) : bool := match h with Handled _ _ _ => true | _ => false end.

Lemma stop_signal_exact_witness : exists p' out sp, handle_all p0 ms0 = Handled p' out sp /\ GapEnough (Ss (proc_sup p')) = true.
Proof.
  destruct (handle_all p0 ms0) as [p' out sp | | w] eqn:E; [| exfalso; assert (is_handled (handle_all p0 ms0) = true) as H by (vm_compute; reflexivity); by rewrite E in H..].
  exists p', out, sp. split; [reflexivity |].
  assert (stopGap (Ss (proc_sup p0)) = 0) as H0 by (vm_compute; reflexivity).
  assert (zlen ms0 < 2 ^ 63) as Hl by (vm_compute; reflexivity).
  rewrite (stop_signal_exact p0 ms0 p' out sp E H0 Hl). vm_compute. reflexivity.
Defined.

Lemma success_reply_silences_witness :
  sup_step (fun _ => True) (sys0 d0) (mkSys p0 [] true []) /\
  (rtc (sup_step (fun _ => True)) (mkSys p0 [] true []) (mkSys p0 [] true []) -> (0 <= 0)%nat).
Proof.
  pose proof (success_reply_silences (fun _ => True) (sys0 d0) [] "" (mkSys p0 [] true []) (mkSys p0 [] true []) Logic.I eq_refl eq_refl) as [H1 H2].
  split; [exact H1 |]. intros Hr. by apply H2 in Hr as (_ & _ & Hle & _).
Defined.

(** A run: an account's balance is read from its connection, a node reports, and the goroutine runs last. *)
Definition reply0 : AccountBalanceReply := mkBalReply addr1 7 "BKC".
Definition node0 : NodeInfo := mkNodeInfo 0 1 "" "" "" 5.
Definition p1 : Process := match handleMessage p0 (MNodeInfo node0) with Handled p _ _ => p | _ => p0 end.
Definition p2 : Process := match run_task p1 (TAccountBalReply reply0) with Ret p => p | Panic _ => p1 end.


Lemma node_addresses_distinct_witness : exists a a', cell (initConfig 4 4) 0 3 = Some a /\ cell (initConfig 4 4) 3 0 = Some a' /\
  a <> SupervisorAddr /\ (a = a' -> 0 = 3 /\ 3 = 0).
Proof. apply (node_addresses_distinct 4 4 0 3 3 0); unfold DeciderShard; lia. Defined.

(** A hundred and one nodes do not fit: the last one of a shard has the address of the first one of the next. *)
Theorem address_collision : cell (initConfig 101 2) 0 100 = cell (initConfig 101 2) 1 0.
Proof. vm_compute. reflexivity. Qed.

(** What a run with the default modules writes, whatever was reported: no epoch, and no number. *)
Theorem results_written now : CloseSupervisor now d0 =
  [("Average_TPS", tps_output now new_tps); ("Transaction_Confirm_Latency", Ret ([], S754_nan));
   ("CrossTransaction_ratio", Ret ([f0; f0], S754_nan)); ("Tx_number", Ret ([], f0))].
Proof. reflexivity. Qed.

End SupervisorExamples.
