(* ===== verification/Rpc.v ===== *)
(** * The JSON-RPC interface of the supervisor

    Models [handleRpcRequest] of [supervisor/supervisor.go] and the handler of [POST /] in [supervisor/server.go], by
    which wallets and Remix talk to the chain, together with the remaining queries of [server.go].

    A method that waits for an answer of a shard polls a map that the message side of the supervisor fills
    ([Supervisor.v]), and sleeps in between: [begin_request] is the code before such a loop, [poll] one turn of it
    with the code that follows. Requests run concurrently, so between two turns the maps change. [now] and [uuid] are
    the clock and the random identifier a request reads. *)
From Stdlib Require Import ZArith Lia Ascii.
From stdpp Require Import base gmap strings list fin_maps pretty.
From S2P Require Import Prelude Utils JournalTypes Core Ledger Message Floats Broker B2E Server Committee Measure.
From S2P Require Import AccessList StateDB Execution Supervisor.

(** ** JSON values and requests *)

Inductive JSON :=
| JNull
| JBool (b : bool)
| JNum (n : Z)
| JStr (s : string)
| JArr (l : list JSON)
| JObj (l : list (string * JSON)).

Record RpcRequest := mkRpcRequest { Method : string; Params : list JSON; Id : JSON }.

(** [obj[k]] of a decoded object: of two members with one name the last is kept, and a missing one is nil. *)
Fixpoint last_member (l : list (string * JSON)) (k : string) : option JSON :=
  match l with
  | [] => None
  | (k', v) :: l' => match last_member l' k with Some r => Some r | None => if decide (k = k') then Some v else None end
  end.

Definition member (l : list (string * JSON)) (k : string) : JSON := default JNull (last_member l k).

(** [.(string)] and [.(map[string]interface{})] panic on another type, nil among them. *)
Definition as_string (v : JSON) : outcome string := match v with JStr s => Ret s | _ => Panic "interface conversion" end.
Definition as_object (v : JSON) : outcome (list (string * JSON)) := match v with JObj l => Ret l | _ => Panic "interface conversion" end.

(** [v.(string)[2:]] when [v] is not nil. *)
Definition stripped (v : JSON) : outcome string := s ← as_string v; str_from s 2.
Definition optional (v : JSON) : outcome string := match v with JNull => Ret "" | _ => as_string v end.

(** ** Hexadecimal text *)

Fixpoint hex_digits (fuel : nat) (n : Z) (acc : list ascii) : list ascii :=
  match fuel with
  | O => acc
  | S fuel => if n =? 0 then acc else hex_digits fuel (n / 16) (hex_digit (n mod 16) :: acc)
  end.

(** [big.Int.Text(16)], also the verb [%x] of a number. *)
Definition hex_nat (n : Z) : list ascii := if n =? 0 then ["0"%char] else hex_digits (Z.to_nat (Z.log2 n + 1)) n [].
Definition Text16 (n : Z) : string := of_bytes (if n <? 0 then "-"%char :: hex_nat (- n) else hex_nat n).

Definition ox (s : string) : string := String.append "0x" s.

(** [big.NewInt(int64(Balance))] times [10^18]. *)
Definition balance_text (Balance : Z) : string := ox (Text16 (i64 Balance * 10 ^ 18)).

(** ** Results *)

Record TransactionResult := mkTransactionResult {
  tr_BlockNumber : string; tr_From : string; tr_Gas : string; tr_GasPrice : string; tr_Hash : string; tr_Input : string;
  tr_To : string; tr_Value : string
}.

Record TxRec := mkTxRec { TransactionHash : string; ContractAddress : string; rec_GasUsed : string; Status : string }.

(** The block of [eth_getBlockByNumber] is a constant, by its number. *)
Inductive RpcResult :=
| RText (s : string)
| RTexts (l : list string)
| RBlock (number : string)
| RReceipt (r : TxRec)
| RTransaction (r : TransactionResult)
| RNotFound.

(** [blockNumber] is never assigned. *)
Definition blockNumber : Z := 0.

Definition receipt (UUID : string) (tx : option TxInfo) : TxRec :=
  mkTxRec (ox UUID) (ox (EncodeToString (match tx with Some t => ti_Res t | None => [] end))) "0x1"
    (if match tx with Some t => ti_IsSuccess t | None => false end then "0x1" else "0x0").

(** A transaction that was not found is the zero value, whose [Value] is nil: [Text] writes [<nil>]. *)
Definition transaction_result (UUID : string) (tx : option TxInfo) : TransactionResult :=
  let field {A} (f : TxInfo -> A) (z : A) := match tx with Some t => f t | None => z end in
  mkTransactionResult (ox (Text16 blockNumber)) (ox (EncodeToString (be_bytes 20 (field ti_From 0)))) (ox (Text16 (field ti_GasLimit 0)))
    (ox (Text16 (field ti_GasPrice 0))) (ox UUID) (ox (EncodeToString (field ti_Input [])))
    (if field ti_To 0 =? 0 then "" else ox (EncodeToString (be_bytes 20 (field ti_To 0))))
    (ox (field (fun t => Text16 (ti_Value t)) "<nil>")).

(** ** The methods *)

(** What goes to the leader (node 0) of a shard. *)
Inductive RpcSend :=
| SendQueryAccount (Account : string) (shard : Z)
| SendInject (it : InjectTxs) (shard : Z).

(** The loops a request can be in; the last two carry a limit of 10 and of 30 seconds. *)
Inductive waiting :=
| WBalance (acc : string)
| WCode (acc : string)
| WReceipt (UUID : string)
| WTransaction (UUID : string)
| WCall (UUID : string).

Inductive started := Answered (r : RpcResult) | Waits (w : waiting).

(** The part of the globals a request can change. *)
Definition drop_balance (acc : string) (g : Globals) : Globals := mkGlobals (delete acc (AccBalanceMap g)) (AccCodeMap g) (NodeInfoMap g) (TxInfoMap g).
Definition drop_code (acc : string) (g : Globals) : Globals := mkGlobals (AccBalanceMap g) (delete acc (AccCodeMap g)) (NodeInfoMap g) (TxInfoMap g).

Definition eth_accounts : list string :=
  ["0x107d73d8a49eeb85d32cf465507dd71d507100c1"; "0x117d73d8a49eeb85d32cf465507dd71d507100c2"; "0x127d73d8a49eeb85d32cf465507dd71d507100c3";
   "0x137d73d8a49eeb85d32cf465507dd71d507100c4"; "0x147d73d8a49eeb85d32cf465507dd71d507100c5"; "0x157d73d8a49eeb85d32cf465507dd71d507100c6";
   "0x167d73d8a49eeb85d32cf465507dd71d507100c7"; "0x177d73d8a49eeb85d32cf465507dd71d507100c8"; "0x187d73d8a49eeb85d32cf465507dd71d507100c9";
   "0x197d73d8a49eeb85d32cf465507dd71d507100d0"].

(** [hex.DecodeString] of the value, with a zero in front of an odd number of digits. *)
Definition parse_value (s : string) : Z :=
  let l := bytes_of s in bytes_to_Z (hex_decode (if Nat.even (length l) then l else "0"%char :: l)).

Definition tx_set_rpc (gas : Z) (price : option Z) (uuid : string) (t : Transaction) : Transaction :=
  mkTransaction (Sender t) (Recipient t) (Nonce t) (Signature t) (Value t) (Txtype t) (Fee t)
    (TxHash t) (Time t) (Relayed t) (HasBroker t) (SenderIsBroker t) (IsAllocatedSender t)
    (IsAllocatedRecipent t) (OriginalSender t) (FinalRecipient t) (RawTxHash t) (Isbrokertx1 t)
    (Isbrokertx2 t) (ShouldHandleInBlock t) (IncreaseOrDecrease t) gas price (To t)
    (From t) (Data t) (IsContract t) (IsBrokerContract t) (Log t) uuid.

Section Rpc.
Context {cfg : Config} {dg : Digest}.

(** The transaction of [eth_sendTransaction] and [eth_call], and the leader it goes to. *)
Definition inject_contract (now : Z) (uuid from to : string) (value : Z) (inp : list Z) : outcome RpcSend :=
  tx ← NewTransactionContract now from to value 1 inp;
  sid ← Addr2Shard from;
  Ret (SendInject (mkInjectTxs [tx_set_rpc 100000000 (Some 1) uuid tx] (u64 sid)) (u64 sid)).

(** [data], or else [input]. *)
Definition input_text (obj : list (string * JSON)) : outcome string :=
  match member obj "data" with JNull => optional (member obj "input") | v => as_string v end.

Definition to_address (obj : list (string * JSON)) : outcome string :=
  match member obj "to" with JNull => Ret "" | v => stripped v end.

Definition eth_sendTransaction (now : Z) (uuid : string) (params : list JSON) : outcome RpcSend :=
  p ← idx params 0;
  obj ← as_object p;
  from ← stripped (member obj "from");
  to ← to_address obj;
  value ← optional (member obj "value");
  input ← input_text obj;
  s ← str_from value 2;
  i ← str_from input 2;
  inject_contract now uuid from to (parse_value s) (hex_decode (bytes_of i)).

Definition eth_call (now : Z) (uuid : string) (params : list JSON) : outcome RpcSend :=
  p ← idx params 0;
  obj ← as_object p;
  from ← stripped (member obj "from");
  to ← to_address obj;
  input ← input_text obj;
  i ← str_from input 2;
  inject_contract now uuid from to 0 (hex_decode (bytes_of i)).

(** [request.Params[0].(string)[2:]] *)
Definition first_text (params : list JSON) : outcome string := p ← idx params 0; stripped p.

(** The account is forgotten, then asked for. *)
Definition query_account (drop : string -> Globals -> Globals) (w : string -> waiting) (g : Globals) (params : list JSON)
  : Globals * outcome (list RpcSend * started) :=
  match first_text params with
  | Panic e => (g, Panic e)
  | Ret acc => (drop acc g, sid ← Addr2Shard acc; Ret ([SendQueryAccount acc (u64 sid)], Waits (w acc)))
  end.

(** A request up to its answer or to its loop: what the globals are then (also after a panic), and what was sent. *)
Definition begin_request (now : Z) (uuid : string) (g : Globals) (req : RpcRequest) : Globals * outcome (list RpcSend * started) :=
  let answer r := (g, Ret ([], Answered r)) in
  let m := Method req in
  if decide (m = "eth_getBlockByNumber") then answer (RBlock "0x1b4")
  else if decide (m = "eth_chainId") then answer (RText "0x1")
  else if decide (m = "net_version") then answer (RText "1")
  else if decide (m = "eth_accounts") then answer (RTexts eth_accounts)
  else if decide (m = "eth_getBalance") then query_account drop_balance WBalance g (Params req)
  else if decide (m = "eth_estimateGas") then answer (RText "0x1")
  else if decide (m = "eth_blockNumber") then answer (RText (ox (Text16 blockNumber)))
  else if decide (m = "eth_sendTransaction") then
    (g, s ← eth_sendTransaction now uuid (Params req); Ret ([s], Answered (RText (ox uuid))))
  else if decide (m = "eth_getTransactionReceipt") then (g, u ← first_text (Params req); Ret ([], Waits (WReceipt u)))
  else if decide (m = "eth_getTransactionByHash") then (g, u ← first_text (Params req); Ret ([], Waits (WTransaction u)))
  else if decide (m = "eth_call") then (g, s ← eth_call now uuid (Params req); Ret ([s], Waits (WCall uuid)))
  else if decide (m = "eth_getCode") then query_account drop_code WCode g (Params req)
  else answer RNotFound.

(** The loop over [TxInfoMap]: found, or the time is over. *)
Definition poll_tx (g : Globals) (expired : bool) (UUID : string) (k : option TxInfo -> RpcResult) : option (Globals * RpcResult) :=
  if expired then Some (g, k None) else
  match TxInfoMap g !! UUID with Some t => Some (g, k (Some t)) | None => None end.

(** One turn of a loop: the answer, or nothing, and the request sleeps. [expired] tells whether the time limit of the
    loop has passed; the loops for an account have none. *)
Definition poll (g : Globals) (expired : bool) (w : waiting) : option (Globals * RpcResult) :=
  match w with
  | WBalance acc =>
      match AccBalanceMap g !! acc with Some b => Some (drop_balance acc g, RText (balance_text b)) | None => None end
  | WCode acc =>
      match AccCodeMap g !! acc with Some c => Some (drop_code acc g, RText (ox (EncodeToString c))) | None => None end
  | WReceipt u => poll_tx g expired u (fun t => RReceipt (receipt u t))
  | WTransaction u => poll_tx g expired u (fun t => RTransaction (transaction_result u t))
  | WCall u => poll_tx g expired u (fun t => RText (ox (EncodeToString (match t with Some t => ti_Res t | None => [] end))))
  end.

(** A request in its loop: [turns] is what happens to the globals while it sleeps, turn by turn, and whether its time is
    over then. There is no result when it still waits after the last turn. *)
Fixpoint await (turns : list (Globals -> Globals * bool)) (g : Globals) (expired : bool) (w : waiting) : Globals * option RpcResult :=
  match poll g expired w with
  | Some (g1, r) => (g1, Some r)
  | None => match turns with [] => (g, None) | t :: turns => let '(g1, e) := t g in await turns g1 e w end
  end.

(** [handleRpcRequest]: the globals, and the messages with the result, if the request ended. *)
Definition handleRpcRequest (now : Z) (uuid : string) (turns : list (Globals -> Globals * bool)) (g : Globals) (req : RpcRequest)
  : Globals * outcome (list RpcSend * option RpcResult) :=
  match begin_request now uuid g req with
  | (g1, Panic e) => (g1, Panic e)
  | (g1, Ret (out, Answered r)) => (g1, Ret (out, Some r))
  | (g1, Ret (out, Waits w)) => let '(g2, r) := await turns g1 false w in (g2, Ret (out, r))
  end.

(** ** The handler of [POST /] *)

(** A body that is no JSON, one request, or a batch. *)
Inductive rpc_body := BadBody | Single (req : RpcRequest) | BadBatch | Batch (reqs : list RpcRequest).

(** The response to one request: the result, or the code and the message of the error. *)
Record RpcResponse := mkRpcResponse { rsp_Id : JSON; rsp_Result : RpcResult + Z * string }.

Definition respond (req : RpcRequest) (r : RpcResult) : RpcResponse :=
  mkRpcResponse (Id req) (match r with RNotFound => inr (-32601, "Method not found") | _ => inl r end).

Inductive post_answer :=
| PostError (status : Z) (e : Z * string)
| PostOne (r : RpcResponse)
| PostMany (l : list RpcResponse)
| PostPending.

(** What a request is served with: the clock, the identifier and the turns of its loop. *)
Definition rpc_env : Type := Z * string * list (Globals -> Globals * bool).

(** The requests of a batch are served one after the other; a request without an identifier is a notification, and
    has no response. A panic is caught by the framework, which answers 500. *)
Fixpoint serve_batch (g : Globals) (l : list (RpcRequest * rpc_env)) (done : list RpcResponse) : Globals * list RpcSend * post_answer :=
  match l with
  | [] => (g, [], PostMany done)
  | (req, (now, uuid, turns)) :: l =>
      match handleRpcRequest now uuid turns g req with
      | (g1, Panic _) => (g1, [], PostError 500 (0, ""))
      | (g1, Ret (out, None)) => (g1, out, PostPending)
      | (g1, Ret (out, Some r)) =>
          let done := match Id req with JNull => done | _ => done ++ [respond req r] end in
          let '(g2, out2, a) := serve_batch g1 l done in (g2, out ++ out2, a)
      end
  end.

Definition rpc_post (env : nat -> rpc_env) (g : Globals) (b : rpc_body) : Globals * list RpcSend * post_answer :=
  match b with
  | BadBody => (g, [], PostError 400 (-32700, "Parse error"))
  | BadBatch => (g, [], PostError 400 (0, "Invalid batch request"))
  | Batch reqs => serve_batch g (imap (fun i req => (req, env i)) reqs) []
  | Single req =>
      let '(now, uuid, turns) := env O in
      match handleRpcRequest now uuid turns g req with
      | (g1, Panic _) => (g1, [], PostError 500 (0, ""))
      | (g1, Ret (out, None)) => (g1, out, PostPending)
      | (g1, Ret (out, Some r)) => (g1, out, PostOne (respond req r))
      end
  end.

(** ** The other queries of [server.go] *)

Definition handle_querynodeinfo (g : Globals) : gmap string NodeInfo := NodeInfoMap g.
Definition handle_querytxinfo (g : Globals) : gmap string TxInfo := TxInfoMap g.

(** [/query-g]: the checks, and the balance [queryForAccBalance] waited for. *)
Definition handle_query_g (addr tx_type : string) (n : Z) : Response :=
  if decide (addr = "") then StatusBadRequest "Address is required"
  else if decide (tx_type = "") then StatusBadRequest "Type is required"
  else if negb (known_type tx_type) then StatusBadRequest "Invalid Tx Type"
  else mkResponse 200 [("account", addr); ("balance", pretty n)].

(** One row of [/querybrokerprofit]: a missing profit is a nil [*big.Float], whose [String] panics, a missing lock a nil
    [*big.Int], which prints as [<nil>]. [text] is [big.Float.String]. *)
Definition profit_row (text : bigFloat -> string) (m : gmap Z bigFloat) (m3 : gmap Z Z) (acc : gmap string string) (kv : Z * Z)
  : outcome (gmap string string) :=
  p ← deref (m !! kv.1);
  Ret (<[dec kv.1 := String.append (text p) (String.append "/" (String.append (match m3 !! kv.1 with Some l => pretty l | None => "<nil>" end)
           (String.append "/" (pretty kv.2))))]> acc).

(** [/querybrokerprofit]: profit, lock and balance for each shard of the free balances. *)
Definition handle_querybrokerprofit (text : bigFloat -> string) (b : Broker) (addr tx_type : string) : outcome (Response + gmap string string) :=
  if negb (known_type tx_type) then Ret (inl (StatusBadRequest "Invalid Tx Type"))
  else if decide (addr = "") then Ret (inl (StatusBadRequest "Address is required"))
  else
    rows ← for_each (profit_row text (entry2 (ProfitBalance b) tx_type addr) (entry2 (LockBalance b) tx_type addr)) ∅
             (map_to_list (entry2 (BrokerBalance b) tx_type addr));
    Ret (inr rows).
End Rpc.
