(* ===== verification/RpcProofs.v ===== *)
(** * The JSON-RPC interface: theorems

    What the interface promises its callers, in general and at a supervisor of four shards. *)
From Stdlib Require Import ZArith Lia Ascii.
From stdpp Require Import base gmap strings list fin_maps pretty.
From S2P Require Import Prelude Utils JournalTypes Core Ledger Message Floats Broker B2E Server Committee CommitteeExamples.
From S2P Require Import AccessList StateDB StateDBSim StateDBProofs Evm Execution Transition EvmTheorems Measure Chain CrossShard CrossShardProofs.
From S2P Require Import Supervisor Rpc.

(** ** The JSON-RPC interface: theorems

    Hexadecimal text and back; what a transaction sent through the interface becomes; the answers to account queries
    under any interleaving with the replies of the shards and with other requests; and the receipts. *)

(** ** Hexadecimal text *)

Lemma digit_of_hex d : 0 <= d < 16 -> digit_val (hex_digit d) = Some d.
Proof.
  intros Hd. assert (H : forallb (fun n => bool_decide (digit_val (hex_digit (Z.of_nat n)) = Some (Z.of_nat n))) (seq 0 16) = true) by reflexivity.
  rewrite forallb_forall in H. specialize (H (Z.to_nat d)). rewrite Z2Nat.id in H by lia.
  rewrite bool_decide_eq_true in H. apply H, in_seq. lia.
Qed.

Abbreviation hexval := (parse_digits 16 None).

Lemma hexval_cons v d l : 0 <= d < 16 -> hexval v (hex_digit d :: l) = hexval (v * 16 + d) l.
Proof. intros Hd. cbn [parse_digits]. rewrite digit_of_hex by done. destruct (Z.leb_spec 16 d); [lia | done]. Qed.

Lemma hex_digits_val fuel : forall n acc, 0 <= n < 16 ^ Z.of_nat fuel -> hexval 0 (hex_digits fuel n acc) = hexval n acc.
Proof.
  induction fuel as [| fuel IH]; intros n acc Hn; cbn [hex_digits].
  - cbn in Hn. by assert (n = 0) as -> by lia.
  - destruct (Z.eqb_spec n 0) as [-> | Hne]; [done |]. rewrite Nat2Z.inj_succ, Z.pow_succ_r in Hn by lia.
    rewrite IH, hexval_cons by (apply Z.mod_pos_bound || (split; [apply Z.div_pos | apply Z.div_lt_upper_bound]); lia).
    f_equal. pose proof (Z.div_mod n 16). lia.
Qed.

Lemma hex_nat_val n : 0 <= n -> hexval 0 (hex_nat n) = Some n.
Proof.
  intros Hn. unfold hex_nat. destruct (Z.eqb_spec n 0) as [-> | Hne]; [done |]. rewrite hex_digits_val; [done |]. split; [done |].
  pose proof (Z.log2_nonneg n). rewrite Z2Nat.id by lia. destruct (Z.log2_spec n) as [_ H2]; [lia |].
  eapply Z.lt_le_trans; [exact H2 |]. replace (Z.succ (Z.log2 n)) with (Z.log2 n + 1) by lia. apply Z.pow_le_mono_l. lia.
Qed.

Lemma hexval_bytes m : forall v l n, (length l < 2 * m)%nat -> Nat.even (length l) = true -> hexval v l = Some n ->
  fold_left (fun n b => n * 256 + b) (hex_decode l) v = n.
Proof.
  induction m as [| m IH]; intros v l n Hm He Hv; [lia |]. destruct l as [| c1 [| c2 l]]; [by injection Hv as -> | done |].
  cbn [parse_digits] in Hv. cbn [hex_decode].
  destruct (digit_val c1) as [a |]; [| done]. destruct (Z.leb_spec 16 a); [done |].
  destruct (digit_val c2) as [b |]; [| done]. destruct (Z.leb_spec 16 b); [done |].
  destruct (Z.ltb_spec a 16), (Z.ltb_spec b 16); try lia. cbn [andb fold_left].
  apply (IH _ l); [cbn in Hm; lia | done |]. rewrite <- Hv. f_equal. lia.
Qed.

(** The value a wallet sends is read back from the text it was written as, with an even number of digits or an odd. *)
Lemma parse_value_Text16 n : 0 <= n -> parse_value (Text16 n) = n.
Proof.
  intros Hn. unfold parse_value, Text16. destruct (Z.ltb_spec n 0); [lia |]. rewrite bytes_of_of. pose proof (hex_nat_val n Hn) as Hv.
  unfold bytes_to_Z. destruct (Nat.even (length (hex_nat n))) eqn:He.
  - by eapply (hexval_bytes (S (length (hex_nat n)))); [lia | |].
  - eapply (hexval_bytes (S (S (length (hex_nat n))))); [cbn; lia | | exact Hv]. cbn [length]. by rewrite Nat.even_succ, <- Nat.negb_even, He.
Qed.

Lemma hex_decode_encode d : Forall (fun b => 0 <= b < 256) d -> hex_decode (bytes_of (EncodeToString d)) = d.
Proof.
  unfold EncodeToString. rewrite bytes_of_of. induction 1 as [| b d Hb _ IH]; cbn [flat_map]; [done |]. cbn [app hex_decode].
  rewrite !digit_of_hex by (apply Z.mod_pos_bound; lia). pose proof (Z.mod_pos_bound (b / 16) 16). pose proof (Z.mod_pos_bound b 16).
  destruct (Z.ltb_spec ((b / 16) mod 16) 16), (Z.ltb_spec (b mod 16) 16); try lia. cbn [andb]. f_equal; [| done].
  rewrite (Z.mod_small (b / 16)) by (split; [apply Z.div_pos | apply Z.div_lt_upper_bound]; lia). pose proof (Z.div_mod b 16). lia.
Qed.

Lemma strip_ox s : str_from (ox s) 2 = Ret s.
Proof.
  assert (bytes_of (ox s) = "0"%char :: "x"%char :: bytes_of s) as Hb by reflexivity.
  rewrite str_from_drop by (unfold strlen, zlen; rewrite Hb; cbn [length]; lia). rewrite Hb. cbn [Z.to_nat Pos.to_nat Pos.iter_op Nat.add drop].
  change (drop (Z.to_nat 2) _) with (bytes_of s). by rewrite of_bytes_of.
Qed.

Lemma stripped_ox s : stripped (JStr (ox s)) = Ret s.
Proof. cbn [stripped as_string]. unfold stripped. cbn. apply strip_ox. Qed.

(** ** Sending a transaction *)

Section Sending.
Context {cfg : Config} {dg : Digest}.

(** The forty hexadecimal digits of an address. *)
Definition address_text (a : Z) : string := EncodeToString (be_bytes 20 a).

Lemma be_bytes_value n : forall z, bytes_to_Z (be_bytes n z) = z mod 256 ^ Z.of_nat n.
Proof using Type.
  induction n as [| n IH]; intros z; cbn [be_bytes]; [cbn; by rewrite Z.mod_1_r |]. unfold bytes_to_Z in *. rewrite fold_left_app. cbn [fold_left].
  rewrite IH, Nat2Z.inj_succ, Z.pow_succ_r, Z.rem_mul_r by lia. lia.
Qed.

Lemma address_text_value a : 0 <= a < 2 ^ 160 -> address_of_hex (address_text a) = Ret a.
Proof using Type.
  intros Ha. unfold address_of_hex, address_text. rewrite hex_decode_encode by apply be_bytes_range. unfold zlen. rewrite be_bytes_length. cbn [Z.ltb Z.compare Z.of_nat].
  change (Z.pos (Pos.of_succ_nat 19) <? 20) with false. rewrite take_ge by (rewrite be_bytes_length; lia). rewrite be_bytes_value. f_equal. apply Z.mod_small.
  change (256 ^ Z.of_nat 20) with (2 ^ 160). done.
Qed.

Lemma address_text_shard a : 0 < ShardNum < 2 ^ 63 -> exists sid, Addr2Shard (address_text a) = Ret sid /\ 0 <= sid < ShardNum.
Proof using Type.
  intros HS. destruct (EncodeToString_hex (be_bytes 20 a)) as [Hh Hl]. apply Addr2Shard_hex; [lia | done |]. unfold address_text.
  rewrite Hl. unfold zlen. rewrite be_bytes_length. lia.
Qed.

Lemma address_text_nonempty a : address_text a <> "".
Proof using Type.
  intros H. destruct (EncodeToString_hex (be_bytes 20 a)) as [_ Hl]. unfold address_text in H. rewrite H in Hl. unfold zlen in Hl.
  rewrite be_bytes_length in Hl. vm_compute in Hl. discriminate.
Qed.

Definition send_object (a : Z) (b : option Z) (value data : string) : list (string * JSON) :=
  [("from", JStr (ox (address_text a))); ("value", JStr value); ("data", JStr data)] ++
  match b with Some b => [("to", JStr (ox (address_text b)))] | None => [] end.

Definition send_params (a : Z) (b : option Z) (value data : string) : list JSON := [JObj (send_object a b value data)].

Definition receiver (b : option Z) : string := match b with Some b => address_text b | None => "" end.

Lemma send_members a b value data :
  stripped (member (send_object a b value data) "from") = Ret (address_text a) /\ to_address (send_object a b value data) = Ret (receiver b) /\
  optional (member (send_object a b value data) "value") = Ret value /\ input_text (send_object a b value data) = Ret data.
Proof using Type.
  unfold to_address, input_text. destruct b as [b |].
  - split_and!; [exact (strip_ox _) | exact (strip_ox _) | reflexivity | reflexivity].
  - split_and!; [exact (strip_ox _) | reflexivity | reflexivity | reflexivity].
Qed.

Lemma contract_tx_ok now a b v d : 0 <= a < 2 ^ 160 -> match b with Some b => 0 <= b < 2 ^ 160 | None => True end ->
  exists tx, NewTransactionContract now (address_text a) (receiver b) v 1 d = Ret tx /\
    From tx = a /\ To tx = default 0 b /\ Value tx = v /\ Data tx = d /\ IsContract tx = true /\ Sender tx = address_text a.
Proof using Type.
  intros Ha Hb. unfold NewTransactionContract, contract_tx, receiver. rewrite address_text_value by done. cbn [mbind outcome_bind].
  destruct b as [b |].
  - rewrite decide_False by apply address_text_nonempty. rewrite address_text_value by done. cbn [mbind outcome_bind].
    eexists. split; [reflexivity |]. done.
  - rewrite decide_True by done. cbn [mbind outcome_bind]. eexists. split; [reflexivity |]. by split_and!.
Qed.

(** What the parameters of a well-formed call become. *)
Lemma eth_sendTransaction_ok now uuid a b v text d :
  0 < ShardNum < 2 ^ 63 -> 0 <= a < 2 ^ 160 -> match b with Some b => 0 <= b < 2 ^ 160 | None => True end ->
  parse_value text = v -> Forall (fun x => 0 <= x < 256) d ->
  exists sid tx, eth_sendTransaction now uuid (send_params a b (ox text) (ox (EncodeToString d))) = Ret (SendInject (mkInjectTxs [tx] sid) sid) /\
    Addr2Shard (address_text a) = Ret sid /\ From tx = a /\ To tx = default 0 b /\ Value tx = v /\ Data tx = d /\ UUID tx = uuid /\
    IsContract tx = true /\ Core.GasPrice tx = Some 1 /\ Gas tx = 100000000.
Proof using Type.
  intros HS Ha Hb Hv Hd. destruct (address_text_shard a HS) as (sid & Hs & Hr).
  destruct (contract_tx_ok now a b v d Ha Hb) as (tx & Htx & H1 & H2 & H3 & H4 & H5 & _).
  exists sid, (tx_set_rpc 100000000 (Some 1) uuid tx).
  assert (eth_sendTransaction now uuid (send_params a b (ox text) (ox (EncodeToString d))) =
    inject_contract now uuid (address_text a) (receiver b) v d) as ->.
  { destruct (send_members a b (ox text) (ox (EncodeToString d))) as (E1 & E2 & E3 & E4). unfold eth_sendTransaction, send_params.
    change (idx [JObj ?o] 0) with (Ret (JObj o)). rewrite bind_Ret. cbn [as_object]. rewrite bind_Ret, E1, bind_Ret, E2, bind_Ret, E3, bind_Ret, E4, bind_Ret.
    by rewrite !strip_ox, !bind_Ret, hex_decode_encode, Hv. }
  unfold inject_contract. rewrite Htx, Hs. cbn [mbind outcome_bind]. rewrite u64_small by (unfold is_u64; lia). by split_and!.
Qed.

(** C34: a transaction sent through the interface is the one that is injected. For addresses of twenty bytes, any value
    and any data, written as the interface writes them, [eth_sendTransaction] sends to the leader of the sender's shard
    one contract transaction with that sender, receiver (none creates a contract), value and data; it answers with an
    identifier, and asking for the receipt of what was answered waits for the identifier the transaction carries. *)
Theorem send_transaction_delivers now uuid g id a b v d :
  0 < ShardNum < 2 ^ 63 -> 0 <= a < 2 ^ 160 -> match b with Some b => 0 <= b < 2 ^ 160 | None => True end ->
  0 <= v -> Forall (fun x => 0 <= x < 256) d ->
  exists sid tx answer,
    begin_request now uuid g (mkRpcRequest "eth_sendTransaction" (send_params a b (ox (Text16 v)) (ox (EncodeToString d))) id) =
      (g, Ret ([SendInject (mkInjectTxs [tx] sid) sid], Answered (RText answer))) /\
    Addr2Shard (address_text a) = Ret sid /\ From tx = a /\ To tx = default 0 b /\ Value tx = v /\ Data tx = d /\ IsContract tx = true /\
    begin_request now uuid g (mkRpcRequest "eth_getTransactionReceipt" [JStr answer] id) = (g, Ret ([], Waits (WReceipt (UUID tx)))).
Proof using Type.
  intros HS Ha Hb Hv Hd. destruct (eth_sendTransaction_ok now uuid a b v (Text16 v) d) as (sid & tx & He & H1 & H2 & H3 & H4 & H5 & H6 & H7 & _);
    [done.. | by apply parse_value_Text16 | done |].
  exists sid, tx, (ox uuid). split_and!; [| done.. |].
  - unfold begin_request. cbn [Method Params]. repeat (rewrite decide_False by done). rewrite decide_True by done. by rewrite He.
  - unfold begin_request. cbn [Method Params]. repeat (rewrite decide_False by done). rewrite decide_True by done.
    unfold first_text. cbn [idx]. change (idx [JStr (ox uuid)] 0) with (Ret (JStr (ox uuid))). rewrite bind_Ret, stripped_ox. by rewrite H6.
Qed.
End Sending.

(** ** Account queries *)

(** What happens to the globals while a request sleeps: a reply of a shard is stored, another request for a balance
    begins or takes its turn, a node or a transaction is reported. *)
Inductive event :=
| Replied (Account : string) (Balance : Z) (Code : list Z)
| Began (acc : string)
| Polled (acc : string)
| NodeReported (n : NodeInfo)
| TxReported (t : TxInfo).

Definition event_step (g : Globals) (e : event) : Globals :=
  match e with
  | Replied a b c => handleResponseAcc g a b c
  | Began acc => drop_balance acc g
  | Polled acc => match poll g false (WBalance acc) with Some (g', _) => g' | None => g end
  | NodeReported n => mkGlobals (AccBalanceMap g) (AccCodeMap g) (store_node n (NodeInfoMap g)) (TxInfoMap g)
  | TxReported t => mkGlobals (AccBalanceMap g) (AccCodeMap g) (NodeInfoMap g) (store_tx t (TxInfoMap g))
  end.

Definition reply_for (acc : string) (e : event) : option Z :=
  match e with Replied a b _ => if decide (a = acc) then Some b else None | _ => None end.

(** An event of another request for the same account. *)
Definition competes (acc : string) (e : event) : bool := match e with Began a | Polled a => bool_decide (a = acc) | _ => false end.

Definition replies (acc : string) (evs : list event) : list Z := omap (reply_for acc) evs.

Lemma event_balance acc g e :
  AccBalanceMap (event_step g e) !! acc =
    match reply_for acc e with
    | Some b => Some b
    | None => if competes acc e then None else AccBalanceMap g !! acc
    end.
Proof.
  destruct e as [a b c | a | a | n | t]; cbn.
  - destruct (decide (a = acc)) as [-> | Hne]; [apply lookup_insert_eq | by apply lookup_insert_ne].
  - case_bool_decide as Ha; [subst; apply lookup_delete_eq | by apply lookup_delete_ne].
  - destruct (AccBalanceMap g !! a) eqn:E; cbn; (case_bool_decide as Ha; [subst | try by apply lookup_delete_ne]); [apply lookup_delete_eq | done | done].
  - done.
  - done.
Qed.

Lemma replies_snoc acc evs e : last (replies acc (evs ++ [e])) = match reply_for acc e with Some b => Some b | None => last (replies acc evs) end.
Proof. unfold replies. rewrite omap_app. cbn. destruct (reply_for acc e) as [b |]; [by rewrite last_snoc | by rewrite app_nil_r]. Qed.

Lemma balance_after acc g evs :
  let m := AccBalanceMap (foldl event_step (drop_balance acc g) evs) !! acc in
  (m = None \/ m = last (replies acc evs)) /\ (forallb (fun e => negb (competes acc e)) evs = true -> m = last (replies acc evs)).
Proof.
  induction evs as [| e evs IH] using rev_ind; cbn zeta in *; [cbn; rewrite lookup_delete_eq; split; [by left | done] |].
  rewrite foldl_snoc, event_balance, replies_snoc, forallb_app. destruct IH as [IH1 IH2]. cbn [forallb].
  destruct (reply_for acc e) as [b |] eqn:Er; [split; [by right | done] |].
  destruct (competes acc e); [split; [by left | by rewrite andb_false_r] |]. split; [done |]. rewrite andb_true_r. apply IH2.
Qed.


(** Two requests for one balance starve each other. If both have begun, the replies to both have come, and the first
    has taken its turn, the second does not answer: neither then nor after whatever follows, as long as no shard replies
    about that account again, which nothing of the second request asks for. *)
Theorem concurrent_queries_starve acc g b1 b2 c1 c2 evs :
  replies acc evs = [] ->
  let g2 := foldl event_step (drop_balance acc g) [Began acc; Replied acc b1 c1; Replied acc b2 c2; Polled acc] in
  poll (foldl event_step g2 evs) false (WBalance acc) = None.
Proof.
  intros Hev. cbn zeta. rewrite <- foldl_app. cbn [poll].
  assert (forall evs, replies acc evs = [] -> AccBalanceMap (foldl event_step (drop_balance acc g)
    ([Began acc; Replied acc b1 c1; Replied acc b2 c2; Polled acc] ++ evs)) !! acc = None) as H; [| by rewrite H].
  clear evs Hev. induction evs as [| e evs IH] using rev_ind; intros Hev.
  - rewrite app_nil_r. cbn [foldl]. rewrite event_balance. cbn. by rewrite bool_decide_true.
  - unfold replies in Hev. rewrite omap_app in Hev. apply app_nil in Hev as [Hevs He]. rewrite app_assoc, foldl_snoc, event_balance, IH by done.
    cbn in He. destruct (reply_for acc e); [done |]. by destruct (competes acc e).
Qed.

(** ** From the account to the wallet *)

Section EndToEnd.
Context `{w : Uint256} `{cr : Crypto} `{cfg : Config} `{dg : Digest} `{cd : Codec} `{wd : World} `{env : NodeEnv} `{rem : Remote} `{txt : ErrorText}.

Lemma begin_getBalance now uuid g id a : 0 < ShardNum < 2 ^ 63 ->
  exists sid, begin_request now uuid g (mkRpcRequest "eth_getBalance" [JStr (ox (address_text a)); JStr "latest"] id) =
    (drop_balance (address_text a) g, Ret ([SendQueryAccount (address_text a) sid], Waits (WBalance (address_text a)))) /\ 0 <= sid < ShardNum.
Proof using Type.
  intros HS. destruct (address_text_shard a HS) as (sid & Hs & Hr). exists sid. split; [| done].
  unfold begin_request, query_account, first_text. cbn [Method Params]. repeat (rewrite decide_False by done). rewrite decide_True by done.
  change (idx [JStr (ox (address_text a)); JStr "latest"] 0) with (Ret (JStr (ox (address_text a)))).
  rewrite bind_Ret, stripped_ox, Hs. cbn [mbind outcome_bind]. by rewrite u64_small by (unfold is_u64; lia).
Qed.

(** C25: the balance of an account reaches the wallet. [eth_getBalance] sends the account to a shard of the system; the
    leader that holds its state answers with its balance; once the supervisor has stored this reply, whatever else
    happened before, the request answers with the balance times 10^18 in hexadecimal, if it fits 63 bits. *)
Theorem get_balance_end_to_end now uuid g id bc a evs :
  0 < ShardNum < 2 ^ 63 -> Z.abs Init_Balance < 2 ^ 256 -> OpenTrie (root bc) = true ->
  accounts_ok (rd := reader_at (root bc)) New_StateDB -> 0 <= a < 2 ^ 160 ->
  let acc := address_text a in
  let balance := balance_at (rd := reader_at (root bc)) New_StateDB a in
  0 <= balance < 2 ^ 63 ->
  exists sid code to,
    begin_request now uuid g (mkRpcRequest "eth_getBalance" [JStr (ox acc); JStr "latest"] id) =
      (drop_balance acc g, Ret ([SendQueryAccount acc sid], Waits (WBalance acc))) /\ 0 <= sid < ShardNum /\
    handleQueryAcc bc acc DeciderShard 0 = Val (bc, [CResponseAccount acc balance code to]) /\
    let g' := foldl event_step (drop_balance acc g) (evs ++ [Replied acc balance code]) in
    poll g' false (WBalance acc) = Some (drop_balance acc g', RText (ox (Text16 (balance * 10 ^ 18)))).
Proof using Type.
  intros HS Hi Ho Hok Ha. cbn zeta. intros Hb. destruct (begin_getBalance now uuid g id a HS) as (sid & Hbeg & Hsid).
  destruct (GetBalance_balance (rd := reader_at (root bc)) New_StateDB a Hi Hok) as (s' & Hg & _).
  exists sid, (snd (GetCode (rd := reader_at (root bc)) s' a)), (node_at DeciderShard 0). split_and!; [done | lia | lia | |].
  - unfold handleQueryAcc. rewrite Ho, address_text_value by done. cbn [of_outcome mbind res_bind]. rewrite Hg. cbn [of_outcome mbind res_bind].
    rewrite u64_small by (unfold is_u64; lia). done.
  - rewrite foldl_snoc. cbn [event_step poll]. unfold handleResponseAcc at 1. cbn [AccBalanceMap]. rewrite lookup_insert_eq.
    unfold balance_text. by rewrite i64_small by lia.
Qed.

(** The two methods use different units: the text that reports a balance, sent back as a value, asks for 10^18 times
    that balance. *)
Theorem rpc_units_differ now uuid a b balance d g :
  0 < ShardNum < 2 ^ 63 -> 0 <= a < 2 ^ 160 -> 0 <= b < 2 ^ 160 -> 0 <= balance < 2 ^ 63 -> Forall (fun x => 0 <= x < 256) d ->
  AccBalanceMap g !! address_text a = Some balance ->
  exists text sid tx, poll g false (WBalance (address_text a)) = Some (drop_balance (address_text a) g, RText text) /\
    eth_sendTransaction now uuid (send_params a (Some b) text (ox (EncodeToString d))) = Ret (SendInject (mkInjectTxs [tx] sid) sid) /\
    Value tx = balance * 10 ^ 18.
Proof using Type.
  intros HS Ha Hb Hbal Hd Hg. destruct (eth_sendTransaction_ok now uuid a (Some b) (balance * 10 ^ 18) (Text16 (balance * 10 ^ 18)) d)
    as (sid & tx & Hs & _ & _ & _ & Hv & _); [done | done | done | apply parse_value_Text16; lia | done |].
  exists (ox (Text16 (balance * 10 ^ 18))), sid, tx. split_and!; [| done | done]. cbn [poll]. rewrite Hg. unfold balance_text. by rewrite i64_small by lia.
Qed.
End EndToEnd.

(** A balance of 2^63 or more is reported as a negative number. *)
Theorem large_balance_negative : balance_text (2 ^ 63) = "0x-6f05b59d3b200000000000000000000".
Proof. vm_compute. reflexivity. Qed.

(** ** Receipts *)

Lemma b64_length n : forall l, (length l < n)%nat -> zlen (b64 l) = 4 * ((zlen l + 2) / 3).
Proof.
  induction n as [| n IH]; intros l Hn; [lia |]. destruct l as [| a [| b [| c l]]]; [done..|]. cbn [b64]. cbn [length] in Hn. unfold zlen in *.
  rewrite length_app. cbn [length]. rewrite Nat2Z.inj_add, IH by lia. cbn [length]. rewrite !Nat2Z.inj_succ.
  replace (Z.succ (Z.succ (Z.succ (Z.of_nat (length l)))) + 2) with (Z.of_nat (length l) + 2 + 1 * 3) by lia. rewrite Z.div_add by lia. lia.
Qed.

Lemma base64_hash h : strlen h = 32 -> strlen (base64 h) = 44.
Proof.
  intros Hh. unfold base64. rewrite strlen_of_bytes, (b64_length (S (length (bytes_Z h)))) by lia. unfold bytes_Z, zlen. rewrite length_map.
  unfold strlen, zlen in Hh. rewrite Hh. reflexivity.
Qed.

Section Receipts.
Context `{cfg : Config} `{dg : Digest} `{md : MegDigest} `{rd : StateReader} `{env : NodeEnv} `{vm : EVM}.

(** A message that says nothing about the transaction [uuid]. *)
Definition unrelated (uuid : string) (m : SupMsg) : Prop :=
  match m with MTxInfo t => ti_UUID t <> uuid /\ strlen (ti_TxHash t) = 32 | _ => True end.

Lemma handle_txs p m p' out sp : handleMessage p m = Handled p' out sp ->
  TxInfoMap (proc_glob p') = match m with MTxInfo t => store_tx t (TxInfoMap (proc_glob p)) | _ => TxInfoMap (proc_glob p) end.
Proof using Type. by handled_cases. Qed.

Lemma unrelated_keeps uuid ms : strlen uuid = 64 -> forall p p' out sp, handle_all p ms = Handled p' out sp -> Forall (unrelated uuid) ms ->
  TxInfoMap (proc_glob p') !! uuid = TxInfoMap (proc_glob p) !! uuid.
Proof using Type.
  intros Hl. induction ms as [| m ms IH]; intros p p' out sp; cbn [handle_all]; [by intros [= <- _ _] |].
  destruct (handleMessage p m) as [p1 o1 s1 | |] eqn:Em; [| done..].
  destruct (handle_all p1 ms) as [p2 o2 s2 | |] eqn:Er; [| done..]. intros [= <- _ _] [Hm Hms]%Forall_cons.
  rewrite (IH _ _ _ _ Er Hms), (handle_txs _ _ _ _ _ Em). destruct m; try done. destruct Hm as [Hu Hh]. unfold store_tx.
  rewrite lookup_insert_ne by done. apply lookup_insert_ne. intros He. apply (f_equal strlen) in He. rewrite base64_hash in He by done. lia.
Qed.

Lemma handle_all_app ms1 ms2 p p' out sp : handle_all p (ms1 ++ ms2) = Handled p' out sp ->
  exists p1 o1 s1 o2 s2, handle_all p ms1 = Handled p1 o1 s1 /\ handle_all p1 ms2 = Handled p' o2 s2.
Proof using Type.
  revert p p' out sp. induction ms1 as [| m ms1 IH]; intros p p' out sp; cbn [app handle_all]; [intros H; eauto 10 |].
  destruct (handleMessage p m) as [p1 o1 s1 | |]; [| done..]. destruct (handle_all p1 (ms1 ++ ms2)) as [p2 o2 s2 | |] eqn:Er; [| done..].
  intros [= <- _ _]. destruct (IH _ _ _ _ Er) as (q & o3 & s3 & o4 & s4 & -> & H2). eauto 10.
Qed.

(** C17: a receipt tells what was executed. When the leader has executed a contract transaction, it has run the machine
    with some outcome and reports it to the supervisor; once the supervisor has handled that report, among whatever
    other messages, as long as later ones are about other transactions, the receipt of the transaction's identifier
    says success exactly when the machine ended without an error, and carries the result the chain stores for it: the
    address of a created contract, the data returned, or the text of the error. *)
Theorem receipt_reports_execution now pm s bh i tx r : NodeID = 0 -> IsContract tx = true -> strlen (UUID tx) = 64 ->
  ExeTx now pm s bh i tx = Ret r ->
  exists h s2 res stored info,
    ApplyTransactionWithEVM (SetTxContext (fst (Snapshot s)) h i) tx bh = Ret (s2, res) /\
    er_stored r = Some (UUID tx, stored) /\ CTxInfo info ∈ er_msgs r /\
    forall p ms1 ms2 p' out sp, handle_all p (ms1 ++ MTxInfo info :: ms2) = Handled p' out sp -> Forall (unrelated (UUID tx)) ms2 ->
      poll (proc_glob p') false (WReceipt (UUID tx)) =
        Some (proc_glob p', RReceipt (mkTxRec (ox (UUID tx)) (ox (EncodeToString stored)) "0x1" (match res with inl _ => "0x1" | inr _ => "0x0" end))).
Proof using Type.
  intros Hn Hc Hu. unfold ExeTx. rewrite Hc, Hn. cbn [Z.eqb]. unfold exe_contract. destruct (Core.GasPrice tx) as [price |]; [| done]. cbn [deref mbind outcome_bind].
  destruct (Snapshot s) as [s1 snap] eqn:Es. cbn [fst]. destruct (common_Hash (TxHash tx)) as [h |]; [| done]. cbn [mbind outcome_bind].
  destruct (ApplyTransactionWithEVM (SetTxContext s1 h i) tx bh) as [[s2 res] |] eqn:Ea; [| done]. cbn [mbind outcome_bind]. intros Hr.
  exists h, s2, res, (contract_res res), (tx_info now tx price res).
  assert (er_stored r = Some (UUID tx, contract_res res) /\ CTxInfo (tx_info now tx price res) ∈ er_msgs r) as [Hst Hin].
  { destruct (broker_contract_msgs tx res) as [broker |]; [| done]. cbn [mbind outcome_bind] in Hr. destruct res as [x | e].
    - destruct (match Entries (jrnl s2) with [] => _ | _ => _ end) as [l |]; [| done]. injection Hr as <-. cbn. split; [done | left].
    - destruct (RevertToSnapshot s2 snap) as [rv |]; [| done]. injection Hr as <-. cbn. split; [done |]. apply elem_of_app. right. left. }
  split_and!; [done | done | done |]. intros p ms1 ms2 p' out sp Hh Hun.
  destruct (handle_all_app _ _ _ _ _ _ Hh) as (p1 & _ & _ & o2 & sp2 & _ & H2). cbn [handle_all handleMessage handleTxInfo changed] in H2.
  match type of H2 with context [handle_all ?q ms2] => destruct (handle_all q ms2) as [p3 o3 s3 | |] eqn:E3; [| done..] end. injection H2 as <- _ _.
  cbn [poll]. unfold poll_tx. rewrite (unrelated_keeps _ _ Hu _ _ _ _ E3 Hun). cbn [proc_glob TxInfoMap]. unfold store_tx. cbn [ti_UUID tx_info]. rewrite lookup_insert_eq.
  unfold receipt. cbn [ti_Res ti_IsSuccess tx_info]. destruct res as [x | e]; [| done]. rewrite bool_decide_true; [done |].
  unfold ApplyTransactionWithEVM in Ea. destruct (ApplyMessage _ _ tx bh (UUID tx)) as [[s3' res'] |]; [| done]. cbn [mbind outcome_bind] in Ea.
  destruct res' as [y |]; [| done]. case_decide; [| done]. by injection Ea as _ <-.
Qed.
End Receipts.

(** ** The JSON-RPC interface, evaluated

    The theorems at the supervisor of four shards of [Supervisor.v] and at the chain of
    [CrossShardProofs.v], whose account 8 has money. *)

Import Node.

#[local] Existing Instance default_config.
#[local] Existing Instance sample_digest.
#[local] Existing Instance sample_megdigest.
#[local] Existing Instance sample_codec.
#[local] Existing Instance world.

Definition id0 : string := "00112233445566778899aabbccddeeff00112233445566778899aabbccddeeff".
Definition g0 : Globals := mkGlobals {[address_text 8 := 1]} ∅ ∅ ∅.

Lemma send_transaction_delivers_witness :
  exists sid tx answer, begin_request 5 id0 g0 (mkRpcRequest "eth_sendTransaction" (send_params 8 None (ox (Text16 300)) (ox (EncodeToString [96; 0]))) (JNum 1)) =
    (g0, Ret ([SendInject (mkInjectTxs [tx] sid) sid], Answered (RText answer))) /\ Value tx = 300 /\ Data tx = [96; 0].
Proof.
  destruct (send_transaction_delivers 5 id0 g0 (JNum 1) 8 None 300 [96; 0]) as (sid & tx & answer & H1 & _ & _ & _ & H2 & H3 & _).
  - split; vm_compute; reflexivity.
  - split; vm_compute; [discriminate | reflexivity].
  - exact Logic.I.
  - lia.
  - repeat constructor; lia.
  - exists sid, tx, answer. split; [exact H1 |]. split; [exact H2 | exact H3].
Defined.

Lemma concurrent_queries_starve_witness :
  poll (foldl event_step (foldl event_step (drop_balance "a" g0) [Began "a"; Replied "a" 3 []; Replied "a" 3 []; Polled "a"])
          [Began "b"; Replied "b" 7 []]) false (WBalance "a") = None.
Proof. apply (concurrent_queries_starve "a" g0 3 3 [] [] [Began "b"; Replied "b" 7 []]). vm_compute. reflexivity. Defined.

Lemma get_balance_end_to_end_witness :
  exists sid code to,
    begin_request 5 id0 g0 (mkRpcRequest "eth_getBalance" [JStr (ox (address_text 8)); JStr "latest"] JNull) =
      (drop_balance (address_text 8) g0, Ret ([SendQueryAccount (address_text 8) sid], Waits (WBalance (address_text 8)))) /\
    handleQueryAcc chain (address_text 8) DeciderShard 0 = Val (chain, [CResponseAccount (address_text 8) 500 code to]) /\
    let g' := foldl event_step (drop_balance (address_text 8) g0) ([Replied (address_text 8) 1 []] ++ [Replied (address_text 8) 500 code]) in
    poll g' false (WBalance (address_text 8)) = Some (drop_balance (address_text 8) g', RText "0x1b1ae4d6e2ef500000").
Proof.
  assert (balance_at (rd := reader) New_StateDB 8 = 500) as Hb by (vm_compute; reflexivity).
  assert (accounts_ok (rd := reader) New_StateDB) as Hok.
  { split; [apply New_StateDB_wf |]. intros a. unfold balance_at. rewrite live_eq. change (stateObjects New_StateDB !! a) with (@None stateObject).
    change (destructed_at New_StateDB a) with false. unfold reader_Account, reader.
    destruct (a =? 8); [| destruct (a =? 0x4000)]; split; vm_compute; congruence. }
  destruct (get_balance_end_to_end (wd := world) 5 id0 g0 JNull chain 8 [Replied (address_text 8) 1 []]) as (sid & code & to & H1 & _ & H2 & H3).
  - split; vm_compute; reflexivity.
  - vm_compute. reflexivity.
  - reflexivity.
  - exact Hok.
  - split; vm_compute; [discriminate | reflexivity].
  - split; vm_compute; [discriminate | reflexivity].
  - exists sid, code, to. split; [exact H1 |]. split; [exact H2 |]. exact H3.
Defined.

(** A call that fails, reported to the supervisor between a node's report and another transaction. *)
Definition call0 : Transaction := tx_set_rpc 21000 (Some 2) id0 (contract_call false).
Definition other_info : TxInfo := mkTxInfo hash32 true 0 0 0 true 0 0 0 [] 0 "other" [].

Lemma receipt_reports_execution_witness :
  exists r info p out sp, ExeTx (rd := sample_reader) (env := sample_env) (vm := failing_evm) 0 ∅ New_StateDB sample_header 3 call0 = Ret r /\
    handle_all SupervisorExamples.p0 ([MNodeInfo SupervisorExamples.node0] ++ MTxInfo info :: [MTxInfo other_info]) = Handled p out sp /\
    poll (proc_glob p) false (WReceipt id0) =
      Some (proc_glob p, RReceipt (mkTxRec (ox id0) (ox (EncodeToString (bytes_Z "out of gas"))) "0x1" "0x0")).
Proof.
  destruct (ExeTx (rd := sample_reader) (env := sample_env) (vm := failing_evm) 0 ∅ New_StateDB sample_header 3 call0) as [r | why] eqn:E;
    [| vm_compute in E; discriminate E].
  destruct (receipt_reports_execution (rd := sample_reader) (env := sample_env) (vm := failing_evm) 0 ∅ New_StateDB sample_header 3 call0 r)
    as (h & s2 & res & stored & info & Ha & Hst & _ & H); [reflexivity | reflexivity | vm_compute; reflexivity | exact E |].
  exists r, info. destruct (handle_all SupervisorExamples.p0 ([MNodeInfo SupervisorExamples.node0] ++ MTxInfo info :: [MTxInfo other_info])) as [p out sp | | w] eqn:Eh;
    [| discriminate Eh | discriminate Eh]. exists p, out, sp. split; [reflexivity |]. split; [reflexivity |].
  assert (Forall (unrelated (UUID call0)) [MTxInfo other_info]) as Hun by (rewrite Forall_singleton; split; [discriminate | vm_compute; reflexivity]).
  pose proof (H _ _ _ _ _ _ Eh Hun) as Hp. change (UUID call0) with id0 in Hp. rewrite Hp. clear H Hp Hun Eh.
  assert (stored = bytes_Z "out of gas") as -> by (vm_compute in E; injection E as <-; vm_compute in Hst; injection Hst as <-; vm_compute; reflexivity).
  destruct res as [x | e]; [| reflexivity]. exfalso. revert Ha. vm_compute. discriminate.
Defined.

