(* ===== verification/Accounts.v ===== *)
(** * Clients and account queries

    Models [client/client.go] and [client/clientTcpLn.go], the wallet that asks a shard for the state of an account, and
    the node's side of it in [consensus_shard/pbft_all/pbft.go]: [handleRequestAccountState] with
    [BlockChain.FetchAccounts2], and the handlers by which nodes exchange their own accounts and tell the supervisor. *)
From Stdlib Require Import ZArith Lia.
From stdpp Require Import base gmap strings list.
From S2P Require Import Prelude Utils JournalTypes Core Message AccessList StateDB StateDBSim StateDBProofs Execution Evm Transition.
From S2P Require Import Ledger Floats Broker B2E Server Committee Measure Chain Supervisor Rpc RpcProofs.

(** ** The client *)

Record ClientRequestAccountState := mkRequestState { AccountAddr : string; ClientIp : string }.

Record AccountStateForClient := mkStateForClient {
  fc_AccountAddr : string; fc_AccountState : AccountState; fc_ShardID : Z; BlockHeight : Z; BlockHash : string; StateTrieRoot : string
}.

Record Client := mkClient {
  IpAddr : string;
  c_addr2ShardMap : gmap string Z;
  AccountStateRequestMap : gmap string AccountState;
  nonceCounter : Z
}.

Definition NewClient (ip : string) : Client := mkClient ip ∅ ∅ 1.

Definition SetAddr2ShardMap (c : Client) (key : string) (val : Z) : Client :=
  mkClient (IpAddr c) (<[key := val]> (c_addr2ShardMap c)) (AccountStateRequestMap c) (nonceCounter c).

Section Client.
Context {cfg : Config}.

Definition client_shard (c : Client) (key : string) : outcome Z :=
  match c_addr2ShardMap c !! key with Some v => Ret v | None => s ← Addr2Shard key; Ret (u64 s) end.

(** The request, and the shard whose leader gets it. *)
Definition SendAccountStateRequest2Worker (c : Client) (accountAddr : string) : outcome (Z * ClientRequestAccountState) :=
  sid ← client_shard c accountAddr; Ret (sid, mkRequestState accountAddr (IpAddr c)).
End Client.

Definition handleAccountStateMsg (c : Client) (asc : AccountStateForClient) : Client :=
  mkClient (IpAddr c) (c_addr2ShardMap c) (<[fc_AccountAddr asc := fc_AccountState asc]> (AccountStateRequestMap c)) (nonceCounter c).

(** [handleMessageByType]: one type of message is known, every other one is dropped. *)
Definition handleMessageByType (c : Client) (m : option AccountStateForClient) : Client :=
  match m with Some asc => handleAccountStateMsg c asc | None => c end.

(** ** The node *)

Section Node.
Context {cfg : Config} `{cd : Codec} {wd : World} {env : NodeEnv}.

(** One address of [FetchAccounts2], on a state database of its own: an account without money is shown with the initial
    balance. *)
Definition fetch_account (rd : StateReader) (a : StateDB * list AccountState) (addr : string) : outcome (StateDB * list AccountState) :=
  x ← address_of_hex addr;
  r ← GetBalance (rd := rd) (fst a) x;
  let balance := if snd r =? 0 then Init_Balance else snd r in
  Ret (fst r, snd a ++ [mkAccountState 0 balance "" ""]).

Definition FetchAccounts2 (bc : BlockChain) (addrs : list string) : outcome (list AccountState) :=
  if OpenTrie (root bc) then
    r ← for_each (fetch_account (reader_at (root bc))) (New_StateDB, []) addrs;
    Ret (snd r)
  else match addrs with [] => Ret [] | _ => Panic "nil dereference" end.

Definition handleRequestAccountState (bc : BlockChain) (cras : ClientRequestAccountState) : outcome (AccountStateForClient * string) :=
  states ← FetchAccounts2 bc [AccountAddr cras];
  s ← idx states 0;
  Ret (mkStateForClient (AccountAddr cras) s (i64 ShardID) (i64 (Number (Header (CurrentBlock bc)))) (Hash (CurrentBlock bc))
         (StateRoot (Header (CurrentBlock bc))), ClientIp cras).

(** The node's own account and key ([global.NodeAccount], [global.NodePublicKey]). *)
Record NodeKeys := mkKeys { k_NodeAccount : string; k_NodePublicKey : string }.

Definition own_address : string := default "" (Ip_nodeTable !! ShardID ≫= (fun t => t !! NodeID)).

(** [handleResponseAcc] of a node: its balance goes to the supervisor. *)
Definition node_handleResponseAcc (k : NodeKeys) (Balance : Z) : SupMsg :=
  MNodeInfo (mkNodeInfo NodeID ShardID own_address (k_NodePublicKey k) (k_NodeAccount k) Balance).

(** [handleQueryNodeAcc]: the account and the number of this node, to the node that asked. *)
Definition handleQueryNodeAcc (k : NodeKeys) (FromNodeID : Z) : Z * string * string :=
  (NodeID, k_NodeAccount k, default "" (Ip_nodeTable !! ShardID ≫= (fun t => t !! FromNodeID))).

(** [handleResponseNodeAcc] stores the account; then it waits on [NodeAccChan], from which nothing receives. *)
Definition handleResponseNodeAcc (NodeAccountMap : gmap Z string) (NodeId : Z) (Account : string) : gmap Z string :=
  <[NodeId := Account]> NodeAccountMap.

(** ** Theorems *)

(** A wallet gets the state of the account it asked for. For an address of twenty bytes, a client that has no other
    shard noted for it sends the request to the shard the address belongs to; a leader whose state opens answers, to the
    address the client listens on, with the account's balance there, or with the initial balance if that is zero; and
    the client then holds this state for the address, its other entries unchanged. *)
Theorem account_state_roundtrip (c : Client) bc a :
  0 < ShardNum < 2 ^ 63 -> Z.abs Init_Balance < 2 ^ 256 -> OpenTrie (root bc) = true ->
  accounts_ok (rd := reader_at (root bc)) New_StateDB -> 0 <= a < 2 ^ 160 ->
  c_addr2ShardMap c !! address_text a = None ->
  let balance := balance_at (rd := reader_at (root bc)) New_StateDB a in
  exists sid req asc, SendAccountStateRequest2Worker c (address_text a) = Ret (sid, req) /\ 0 <= sid < ShardNum /\
    handleRequestAccountState bc req = Ret (asc, IpAddr c) /\
    AccountStateRequestMap (handleMessageByType c (Some asc)) =
      <[address_text a := mkAccountState 0 (if balance =? 0 then Init_Balance else balance) "" ""]> (AccountStateRequestMap c).
Proof using Type.
  intros HS Hi Ho Hok Ha Hc. cbn zeta. destruct (address_text_shard a HS) as (sid & Hs & Hr).
  destruct (GetBalance_balance (rd := reader_at (root bc)) New_StateDB a Hi Hok) as (s' & Hg & _).
  exists sid, (mkRequestState (address_text a) (IpAddr c)). eexists. split_and!.
  - unfold SendAccountStateRequest2Worker, client_shard. rewrite Hc, Hs. cbn [mbind outcome_bind]. by rewrite u64_small by (unfold is_u64; lia).
  - lia.
  - lia.
  - unfold handleRequestAccountState, FetchAccounts2. rewrite Ho. cbn [for_each AccountAddr]. unfold fetch_account. rewrite address_text_value by done.
    rewrite bind_Ret. cbn [fst]. rewrite Hg, bind_Ret. cbn [fst snd app]. rewrite !bind_Ret. cbn [snd].
    change (idx [?x] 0) with (Ret x). rewrite bind_Ret. reflexivity.
  - reflexivity.
Qed.

(** A node's balance is what the supervisor then shows for that node, and for no other. *)
Theorem node_info_shown (dg : Digest) (md : MegDigest) k b p s n : 0 <= ShardID -> 0 <= NodeID -> 0 <= s -> 0 <= n ->
  exists p', handleMessage p (node_handleResponseAcc k b) = Handled p' [] [] /\
    NodeInfoMap (proc_glob p') !! (node_key ShardID NodeID) = Some (mkNodeInfo NodeID ShardID own_address (k_NodePublicKey k) (k_NodeAccount k) b) /\
    (s <> ShardID \/ n <> NodeID -> NodeInfoMap (proc_glob p') !! (node_key s n) = NodeInfoMap (proc_glob p) !! (node_key s n)).
Proof using Type.
  intros HS HN Hs Hn. eexists. split; [reflexivity |]. cbn. unfold store_node. cbn. split; [apply lookup_insert_eq |].
  intros Hne. apply lookup_insert_ne. intros He. apply node_key_inj in He as [Hs' Hn']; [| done..]. by destruct Hne as [[] | []].
Qed.
End Node.

(** The leader of the sample chain, asked for an account it never saw, which then has the initial balance. *)
Module AccountsExample.

#[local] Existing Instance default_config.
#[local] Existing Instance sample_codec.
#[local] Instance world : World := {|
  OpenTrie := fun _ => true;
  reader_at := fun _ => sample_reader;
  CommitRoot := fun r _ => r;
  empty_root := "empty";
  GetTxTreeRoot := fun _ => "txs"
|}.

Definition chain : BlockChain := mkChain NewGenisisBlock NewStorage NewTxPool new_balance_map "empty" None ∅ 10.

Lemma account_state_roundtrip_witness : exists sid req asc,
  SendAccountStateRequest2Worker (NewClient "127.0.0.1:17777") (address_text 4) = Ret (sid, req) /\
  handleRequestAccountState (env := sample_env) chain req = Ret (asc, "127.0.0.1:17777") /\
  AccountStateRequestMap (handleMessageByType (NewClient "127.0.0.1:17777") (Some asc)) !! (address_text 4) = Some (mkAccountState 0 10000 "" "").
Proof.
  destruct (account_state_roundtrip (wd := world) (env := sample_env) (NewClient "127.0.0.1:17777") chain 4)
    as (sid & req & asc & H1 & _ & H2 & H3).
  - split; vm_compute; reflexivity.
  - vm_compute. reflexivity.
  - reflexivity.
  - exact New_StateDB_accounts.
  - split; vm_compute; [discriminate | reflexivity].
  - vm_compute. reflexivity.
  - exists sid, req, asc. split; [exact H1 |]. split; [exact H2 |]. rewrite H3, lookup_insert_eq. vm_compute. reflexivity.
Defined.

End AccountsExample.
